(* ===== verification/_CoqProject ===== *)
-Q . S2P
Prelude.v
Decimal.v
Types.v
KillSwitch.v
OrderManager.v
OrderExec.v
Bytes.v
FixMessage.v
FixSession.v
OrderBook.v
Inventory.v
Risk.v
BookKeeper.v
MarginGuard.v
Protections.v
Emulator.v
Dca.v
Balance.v
QuoteGate.v
Venues.v
Router.v
SorDispatch.v
Unwind.v
ExecAlgo.v
FundingArb.v
Listing.v
Queue.v
Pnl.v
Portfolio.v
Ledgers.v
Reconcile.v
AuditLog.v
Checkpoint.v
Base64.v
Auth.v
IdMaps.v
Json.v
Graph.v
Indicators.v
Sla.v
Volatility.v
Evaluator.v
NodeBase.v
SourceNodes.v
Nodes.v
NodeBounds.v
Plan.v
NodeCatalog.v
GraphSafety.v
GraphReplay.v
Approvals.v
Catalog.v
GraphSinks.v
Control.v
Vault.v
Registry.v
Envelope.v
Fleet.v
Session.v
Admission.v
Operator.v
Agent.v
