(* ===== verification/Prelude.v ===== *)
(** * MG Market Maker: a verification library

    The program is a market-making system in Rust. An agent process runs one
    engine per symbol: the engine keeps a local order book per venue, computes
    desired quotes (a fixed strategy or an operator-authored strategy graph),
    and an order manager reconciles them with the live orders through an
    exchange connector, under a kill switch that risk inputs escalate. A
    controller process admits agents by key fingerprint and grants them leases
    over an authenticated channel, pushes deployments and credentials, and
    answers operators; an agent that loses its controller walks a fail ladder
    down to a flat book. One venue speaks FIX 4.4.

    This library models the parts of it whose correctness is a matter of
    state and data. Every definition is a translation of the code named
    beside it, keeps its names, and computes; every file ends with the
    theorems about it and closed instances of those that have hypotheses.

    ** Files

    Shared:
    - [Prelude] (this file): outcomes that separate an error value from a
      panic, the state monad [M] with its triples, machine integers (the
      release profile leaves overflow checks off, so [+] wraps), hash maps
      with an unspecified iteration order, stable sorting, chunks, and
      the tactics [bool_to_prop] and [eval_none].
    - [Decimal]: the interface to [rust_decimal], laws included, with the hint
      database [dec] and the tactics [dec_to_Q] and [dec_order] that carry the
      components' arithmetic to the rationals. [gridded] and [room] say when
      sums of quantities stay on their grid and within 96 bits, and so are exact.
    - [Types]: [crates/common/src/types.rs]: sides, orders, quotes, trades,
      rounding to the tick and lot, and the clock interface.
    - [Bytes], [Json]: the standard library on byte strings, and [serde_json]
      values as the interface the code queries.

    Trading:
    - [KillSwitch]: [crates/risk/src/kill_switch.rs]. The state is
      [KillSwitch], the methods are the definitions of the same names, [step]
      is one input.
    - [OrderManager]: the pure half of [crates/engine/src/order_manager.rs]:
      the tracked orders with their price index, [diff_orders] and its plan,
      fills and paper matching. [OrderExec]: its other half, the methods that
      call the venue, in the state monad over the class [Exchange], the
      connector trait of [crates/exchange/core/src/connector.rs].
    - [OrderBook]: [crates/common/src/orderbook.rs]; [BookKeeper]:
      [crates/engine/src/book_keeper.rs], which feeds it.
    - [Inventory]: [crates/risk/src/inventory.rs]; [Risk]: [circuit_breaker.rs],
      [exposure.rs], [volume_limit.rs] and the risk gate of [refresh_quotes];
      [MarginGuard], [Protections] (with [per_client_circuit.rs]), [Emulator],
      [Dca]: the files of [crates/risk/src] of those names;
      [QuoteGate]: the gates of [refresh_quotes], over all of these.
    - [Venues], [Router], [SorDispatch]: the smart order router
      ([crates/engine/src/sor]): the venues' state and costs, the two routers,
      the dispatch of their decision and the engine's tick around it.
    - [Unwind]: the sliced and the paired executor ([crates/strategy/src/twap.rs],
      [paired_unwind.rs]) and the part of the engine that starts and feeds them.
    - [ExecAlgo]: [crates/strategy/src/exec_algo.rs], the trait of the execution
      algorithms with its laws, and its four implementations.
    - [FundingArb]: the funding arbitrage, from its decision core
      ([crates/persistence/src/funding.rs]) over the dispatcher of order pairs and
      the driver ([crates/strategy/src/funding_arb*.rs]) to the engine's arm.
    - [Listing]: the lifecycle of the pair ([crates/engine/src/pair_lifecycle.rs])
      with the engine's poll, and the listing sniper ([listing_sniper.rs]).
    - [Queue]: the queue positions of resting orders
      ([crates/common/src/queue_model.rs], [crates/engine/src/queue_tracker.rs])
      and the gate of the paper fills on them.
    - [Sla]: the service-level tracker ([crates/risk/src/sla.rs]) and what the
      engine tells it.
    - [Balance]: [crates/engine/src/balance_cache.rs]; [IdMaps]: the order id
      map and the event deduplicator.
    - [Pnl]: [crates/risk/src/pnl.rs]; [Portfolio]: [crates/portfolio/src];
      [Ledgers]: what an own fill and a second of the timer do to all the books
      of the engine; [Reconcile]: [inventory_drift.rs], [reconciliation.rs] and
      the engine's reconciliation cycle.
    - [AuditLog]: [crates/risk/src/audit.rs] and [audit_reader.rs], the hash-chained
      log, its verifier and its reader. [Checkpoint]:
      [crates/persistence/src/{checkpoint,fill_replay}.rs], the signed
      checkpoint file, what the engine puts in it and the replay of fills from the log.
    - [FixMessage], [FixSession]: [crates/protocols/fix/src/message.rs] and
      [session.rs], the wire codec and the session state machine.

    Strategy graphs ([crates/strategy-graph/src]):
    - [Graph]: validation and the evaluation order ([graph.rs]).
    - [Evaluator]: compilation, ticks, traces and the static analysis
      ([evaluator.rs], [trace.rs]) over the class [Catalog] of node kinds, whose
      laws are the contract of the trait [NodeKind].
    - [Indicators], [Volatility]: [crates/indicators/src] and
      [crates/strategy/src/volatility.rs], which nodes are built on.
    - [NodeBase], [SourceNodes], [Nodes], [Plan]: the node kinds ([nodes/*.rs]);
      [NodeBounds]: the ranges of their values.
    - [NodeCatalog]: [catalog.rs], the program's instance of [Catalog] with the
      proofs of its laws; [GraphSafety]: what the evaluator's theorems say of it.
    - [GraphReplay]: [crates/agent/src/graph_replay.rs].
    - [GraphSinks]: what the engine does with a graph's actions ([market_maker.rs],
      [tick_strategy_graph]), with the atomic bundles several engines track on a
      shared dashboard.

    Dashboard:
    - [Base64], [Auth]: [crates/dashboard/src/auth.rs], users, tokens, sessions
      and scopes, with the user routes of [server.rs].

    Control plane:
    - [Control]: [crates/control/src/{seq,lease,fail_ladder,lkg}.rs] and
      [crates/agent/src/fail_ladder_walker.rs]. [Envelope]: messages, the
      signed envelope and its hex text.
    - [Catalog], [Registry], [Agent]: the agent's credential catalog, strategy
      registry and control session ([crates/agent/src]).
    - [Approvals], [Vault], [Fleet], [Session], [Admission], [Operator]: the
      controller's admission store, secret vault, fleet view and routes,
      sessions, the invariant that ties leases to admissions, and the operators'
      commands ([crates/controller/src]).

    The kill switch, the guards, the book and the inventory meet in the
    engine's [refresh_quotes], whose gates [QuoteGate] composes in their order;
    the quotes it then builds and the rest of the event loop are left out. A controller session
    ([Session]) is a client of [Fleet], [Approvals] and [Vault]; an agent session
    ([Agent]) of [Control], [Catalog] and [Registry].

    ** What is shown

    - Kill switch: a run of automatic inputs ends at the maximum of the levels
      its inputs demand, so a breach cannot be undone by a later good reading;
      the message-rate and resilience rules fire at their exact thresholds.
    - Order manager: the plan of [diff_orders] retires the undesired levels,
      creates the missing ones and amends only within the tick window;
      executing it against any venue returns, keeps the index invariant and
      leaves only desired levels live; [cancel_all] reports what it left.
    - Books and limits: sweeps are exact, the keeper's book is the snapshot
      with the deltas that arrive in order; the inventory's profit is the cash
      flow; the risk gate lets quoting proceed exactly within its limits;
      reservations stay within the funds.
    - Protections and reductions: when each guard of a pair holds it, when the
      margin guard demands which level and lets a refresh through, when the
      loss circuit of a client is tripped; an emulated order acts at most once,
      a reduction schedule reaches
      its target. A refresh quotes exactly when every one of the gates lets it
      ([quotes_iff]).
    - Routing and unwinding: the greedy route is the cheapest split of whole
      units whose costs are exact; the sliced executor, its slices rounded to the
      lot, has sent the whole position when its duration ends; what the venues took
      of an arbitrage's orders is the position its driver believes open, until a
      break is not compensated. In ideal arithmetic only, as lemmas: the convex
      route misses target and cost by no more than its bracket, a dispatch tick
      never takes the inventory past its threshold, the paired executor keeps both
      legs in proportion, a time-weighted execution sends exactly its total, an
      iceberg never overshoots, and a finished algorithm places nothing more.
    - FIX: decoding inverts encoding, any one corrupted byte up to
      the separator before the checksum field is detected, that separator is not; the session numbers its frames consecutively,
      delivers in order and drops a silent peer.
    - Graphs: [validate] accepts exactly the well-formed acyclic graphs of
      bounded depth with the required sink and always returns; a tick computes
      the one consistent assignment, with values of the declared types; the
      analysis is exact; a graph over the program's kinds panics exactly when
      an indicator has too short a period; the pentest kinds stay behind their
      gate; plans never overshoot, grids never cross, the index of relative
      strength and the estimators stay in their ranges.
    - Bundles: a bundle is completed only when both of its legs were seen live
      since its last dispatch, or were acknowledged in the checkpoint it was
      restored from; the dashboard holds the legs exactly while it is in flight
      and was not restored; its clock is its last dispatch, and a refresh that
      reaches the watchdog leaves it only while it is younger than its timeout.
    - Replay: a divergence is reported exactly when there is one, and none
      when a graph is replayed on itself.
    - Ledgers: the inventory, the profit tracker and the portfolio hold one
      position after any fills on a grid ([positions_agree]); that they report
      one profit, and the attribution that profit but for the drift of the mid
      between marks, is a lemma of ideal arithmetic ([books_agree]); a
      reconciliation leaves tracked exactly the venue's orders, and a drift is
      found exactly when missed fills net to more than the tolerance.
    - Audit and accounts: every file a log leaves verifies while its writes
      succeed, a failed one breaks the chain ([failed_write_breaks_chain]), and two verified
      files that end in one hash have the same rows or exhibit a collision; a
      critical row is on disk when [log] returns. A restart finds the checkpoint
      last flushed, whole, wherever a write stopped. A session starts only from
      a password that matches its digest, a key or an invite, and the code of an
      armed second factor; no kind of token passes for another; a tenant sees only
      its own data, a token of a reset is good once, users survive a restart.
    - Control plane: while operators act in the states the documentation names
      and their writes succeed, the admission store refines its four-state machine
      per fingerprint; the published authority is the lease held; a lease or a
      credential goes only to a session whose key an operator accepted; the
      vault and the admission file survive a restart; a reconciliation leaves
      exactly the desired strategies running, unless one had ended by itself; the ladder fires each rung once.

    ** Bounds and fuel

    Loops are structural wherever the code iterates over a collection. The
    recursions with a bound: [kahn] one unit per node, enough because every
    pass takes a node that never returns to the queue ([validate_total]);
    [sweep], the walk of the static analysis, one unit per node and edge, each
    of which is pushed at most once ([analyze_exact] would fail if the fuel ran
    out); [show_uint] one unit per binary digit plus one; [chunks] the length of
    the list; the bisection of [ConvexRouter] the [max_iter] of the code.
    [newton] (20), [taylor] (60) and the range reduction of the
    logarithm ([range_fuel], 96) are the loop bounds of the code, or, for the
    last, more halvings than a 96-bit coefficient allows.

    ** Parameters

    Code outside the repository is a class the definitions take, with the
    documented behaviour the code relies on as a separate class of laws, and a
    concrete instance the closed examples compute with: decimals ([Decimal],
    [DecimalLaws]: results are exact when representable, which every property
    rests on; [DecimalExact]: an idealisation in which all are, which no decimal
    type of fixed width has and which only lemmas use, for identities that
    rounding breaks; instance: rationals;
    [DecimalText] their text, [FloatRoutes] two functions through [f64]),
    wall-clock instants ([Clock]), the venue ([Exchange], [ExchangeLaws], what it
    says of its open orders [VenueOpen]; the two of a pair, [PairVenues]),
    hash-map iteration ([HashMapIter]: some permutation), JSON values ([Json],
    [JsonLaws], [JsonDecimal]), the files' codecs ([ApprovalCodec], [VaultCodec],
    with the cipher), signatures ([SignScheme]), hashes ([ConfigHash]), the
    sequence-number store of a FIX session ([SeqNumStore], an interface of the
    source with its in-memory implementation as the instance),
    the audit row's text, its digest and the days of file names ([AuditCodec],
    [Digest], [DayText]), the checkpoint's ([CheckpointCodec], [SlimCodec]),
    the quotes engines send each other ([VenueCodec]), the
    dashboard's hashes and the texts of its JSON objects ([AuthCrypto],
    [ClaimsCodec]), the paper fills' draw ([ProbabilisticFiller]), the engines
    behind deployments ([EngineFactory]), what the engines report ([Scrape],
    [Details]), the agent's transport and settings ([Link], [AgentConfig]) and
    the controller's ([SessionEnv]). Whether a write to the disk succeeds is an
    input.

    ** Not modelled, and the plan

    Logging, metrics and the callers' audit lines are left out everywhere, and
    so are the panics of decimal arithmetic on overflow: the laws say nothing
    there. Not modelled by design: connectors' socket and HTTP I/O, the engine's
    event loop, the dashboard's data handlers, statistics on floating point,
    collectors, process set-up. Not modelled, though they could be: the loans and transfers, the backtester's matching, the rate limiters
    and the correlation of requests. *)
From stdpp Require Import base gmap sets list strings sorting.
From Stdlib Require Import ZArith Lia.

(** ** Outcomes

    [result] is Rust's [Result]; [outcome] separates a run that returns from
    one that panics (an out-of-range slice, a failed [expect]). *)

Inductive result (A E : Type) : Type :=
| Ok (a : A)
| Err (e : E).
Arguments Ok {A E} a.
Arguments Err {A E} e.

Inductive outcome (A : Type) : Type :=
| Done (a : A)
| Panicked.
Arguments Done {A} a.
Arguments Panicked {A}.

#[export] Instance result_eq_dec {A E} `{EqDecision A, EqDecision E} :
  EqDecision (result A E).
Proof. solve_decision. Defined.

#[export] Instance outcome_eq_dec {A} `{EqDecision A} : EqDecision (outcome A).
Proof. solve_decision. Defined.

Definition is_ok {A E} (r : result A E) : bool :=
  match r with Ok _ => true | Err _ => false end.

Definition result_bind {A B E} (r : result A E) (f : A → result B E) : result B E :=
  match r with Ok a => f a | Err e => Err e end.

(** ** The state-and-panic monad of the [&mut self] code

    A method that takes [&mut self] and talks to the outside is a function
    of the whole state [S] that either panics or returns its value with the
    next state. *)

Definition M (S A : Type) : Type := S → outcome (A * S).

Definition mret {S A} (a : A) : M S A := λ s, Done (a, s).

Definition mbind_M {S A B} (m : M S A) (f : A → M S B) : M S B := λ s,
  match m s with
  | Done (a, s') => f a s'
  | Panicked => Panicked
  end.

Definition mpanic {S A} : M S A := λ _, Panicked.
Definition mget {S} : M S S := λ s, Done (s, s).
Definition mmodify {S} (f : S → S) : M S unit := λ s, Done (tt, f s).
Definition mgets {S A} (f : S → A) : M S A := λ s, Done (f s, s).

Declare Scope prog_scope.
Delimit Scope prog_scope with prog.
Notation "'let!' x := m 'in' k" := (mbind_M m (λ x, k))
  (at level 10, x pattern, m at level 100, k at level 200)
  : prog_scope.
Notation "'do!' m 'in' k" := (mbind_M m (λ _, k))
  (at level 10, m at level 100, k at level 200) : prog_scope.
Notation "'let?' x := r 'in' k" := (result_bind r (λ x, k))
  (at level 10, x pattern, r at level 100, k at level 200)
  : prog_scope.

(** A [for] loop that pushes one value per element. *)
Fixpoint mmap_M {S A B} (f : A → M S B) (l : list A) : M S (list B) :=
  match l with
  | [] => mret []
  | x :: l' =>
      mbind_M (f x) (λ y, mbind_M (mmap_M f l') (λ ys, mret (y :: ys)))
  end.

(** A [for] loop run for its effects. *)
Fixpoint miter_M {S A} (f : A → M S unit) (l : list A) : M S unit :=
  match l with
  | [] => mret tt
  | x :: l' => mbind_M (f x) (λ _, miter_M f l')
  end.

(** A Hoare triple: from a state in [P], a run that returns ends in [Q]; it
    never panics. *)
Definition triple {S A} (P : S → Prop) (m : M S A) (Q : A → S → Prop) : Prop :=
  ∀ s, P s → ∃ a s', m s = Done (a, s') ∧ Q a s'.

Lemma bind_done {S A B} (m : M S A) (f : A → M S B) s a s' :
  m s = Done (a, s') → mbind_M m f s = f a s'.
Proof. unfold mbind_M. by intros ->. Qed.

Lemma triple_ret {S A} (a : A) (P : S → Prop) (Q : A → S → Prop) :
  (∀ s, P s → Q a s) → triple P (mret a) Q.
Proof. intros H s Hs. exists a, s. split; [done | by apply H]. Qed.

Lemma triple_bind {S A B} (m : M S A) (f : A → M S B) P Q R :
  triple P m Q → (∀ a, triple (Q a) (f a) R) → triple P (mbind_M m f) R.
Proof.
  intros Hm Hf s Hs. destruct (Hm s Hs) as (a & s' & E & HQ).
  destruct (Hf a s' HQ) as (b & s'' & E' & HR).
  exists b, s''. unfold mbind_M. by rewrite E.
Qed.

Lemma triple_conseq {S A} (m : M S A) (P P' : S → Prop) (Q Q' : A → S → Prop) :
  triple P' m Q' → (∀ s, P s → P' s) → (∀ a s, Q' a s → Q a s) → triple P m Q.
Proof.
  intros Hm HP HQ s Hs. destruct (Hm s (HP s Hs)) as (a & s' & E & H').
  exists a, s'. split; [done | by apply HQ].
Qed.

Lemma triple_modify {S} (f : S → S) (P : S → Prop) (Q : unit → S → Prop) :
  (∀ s, P s → Q tt (f s)) → triple P (mmodify f) Q.
Proof. intros H s Hs. exists tt, (f s). split; [done | by apply H]. Qed.

Lemma triple_gets {S A} (f : S → A) (P : S → Prop) (Q : A → S → Prop) :
  (∀ s, P s → Q (f s) s) → triple P (mgets f) Q.
Proof. intros H s Hs. exists (f s), s. split; [done | by apply H]. Qed.

(** ** Machine integers

    [u32], [u64] and [i64] values are integers in [Z]. The release profile of
    the workspace leaves overflow checks off, so [+] wraps. *)

Definition u32_max : Z := 2 ^ 32 - 1.
Definition u64_max : Z := 2 ^ 64 - 1.
Definition wrap_u32 (z : Z) : Z := z mod 2 ^ 32.
Definition wrap_u64 (z : Z) : Z := z mod 2 ^ 64.
Definition wrap_i64 (z : Z) : Z := (z + 2 ^ 63) mod 2 ^ 64 - 2 ^ 63.
Definition is_u32 (z : Z) : Prop := (0 ≤ z ≤ u32_max)%Z.
Definition is_u64 (z : Z) : Prop := (0 ≤ z ≤ u64_max)%Z.
Definition sat_add_u64 (a b : Z) : Z := Z.min u64_max (a + b).

Lemma wrap_u32_id z : is_u32 z → wrap_u32 z = z.
Proof. unfold is_u32, u32_max, wrap_u32. intros ?. apply Z.mod_small. lia. Qed.

Lemma wrap_u64_id z : is_u64 z → wrap_u64 z = z.
Proof. unfold is_u64, u64_max, wrap_u64. intros ?. apply Z.mod_small. lia. Qed.

Lemma wrap_u32_range z : is_u32 (wrap_u32 z).
Proof.
  unfold is_u32, wrap_u32, u32_max. pose proof (Z.mod_pos_bound z (2 ^ 32)). lia.
Qed.

Lemma wrap_u64_range z : is_u64 (wrap_u64 z).
Proof.
  unfold is_u64, wrap_u64, u64_max. pose proof (Z.mod_pos_bound z (2 ^ 64)). lia.
Qed.

(** ** Automation shared by the components *)

(** Boolean connectives in the hypotheses become propositional ones. *)
Ltac bool_to_prop :=
  rewrite ?andb_true_iff, ?andb_false_iff, ?orb_true_iff, ?orb_false_iff,
    ?negb_true_iff, ?negb_false_iff in *.

(** Evaluates an option to [None] or [Some _] without normalising its type. *)
Definition is_none {A} (x : option A) : bool := match x with None => true | Some _ => false end.
Lemma is_none_true {A} (x : option A) : is_none x = true → x = None.
Proof. by destruct x. Qed.
Ltac eval_none := apply is_none_true; vm_compute; reflexivity.

Lemma bind_ext_in {A B : Type} (f1 f2 : A → list B) (l : list A) :
  (∀ x, x ∈ l → f1 x = f2 x) → l ≫= f1 = l ≫= f2.
Proof.
  induction l as [|x l IH]; intros H; [done|]. rewrite !bind_cons, H by by left.
  f_equal. apply IH. intros y Hy. apply H. by right.
Qed.

Lemma omap_ext_in {A B : Type} (f1 f2 : A → option B) (l : list A) :
  (∀ x, x ∈ l → f1 x = f2 x) → omap f1 l = omap f2 l.
Proof.
  induction l as [|x l IH]; intros H; [done|]. cbn. rewrite H by by left.
  rewrite IH; [done|]. intros y Hy. apply H. by right.
Qed.

Lemma NoDup_key_inj {A B : Type} (key : A → B) (l : list A) x y :
  NoDup (key <$> l) → x ∈ l → y ∈ l → key x = key y → x = y.
Proof.
  induction l as [|z l IH]; cbn; [by intros _ ?%elem_of_nil|]. intros [Hni Hnd]%NoDup_cons.
  intros [->|Hx]%elem_of_cons [->|Hy]%elem_of_cons E; [done| | |by apply IH]; destruct Hni;
    [rewrite E|rewrite <- E]; by apply list_elem_of_fmap_2.
Qed.

(** ** [HashMap]s

    A [HashMap] is a [gmap]. Its iteration order is unspecified: [hm_iter] is
    any enumeration of the entries, and results that depend on it are proved
    for every instance of the class. *)
Class HashMapIter := {
  hm_iter : ∀ {K V : Type} `{Countable K}, gmap K V → list (K * V);
  hm_iter_perm : ∀ {K V : Type} `{Countable K} (m : gmap K V),
    hm_iter m ≡ₚ map_to_list m;
}.

#[export] Instance hm_iter_default : HashMapIter.
Proof. refine {| hm_iter K V _ _ m := map_to_list m |}. done. Defined.

Section HashMap.
Context {I : HashMapIter} {K V : Type} `{Countable K}.
Implicit Types m : gmap K V.

Definition hm_keys m : list K := (hm_iter m).*1.
Definition hm_values m : list V := (hm_iter m).*2.

Lemma hm_iter_elem m k v : (k, v) ∈ hm_iter m ↔ m !! k = Some v.
Proof. rewrite hm_iter_perm. apply elem_of_map_to_list. Qed.

Lemma hm_keys_NoDup m : NoDup (hm_keys m).
Proof. unfold hm_keys. rewrite hm_iter_perm. apply NoDup_fst_map_to_list. Qed.

Lemma hm_iter_NoDup m : NoDup (hm_iter m).
Proof. rewrite hm_iter_perm. apply NoDup_map_to_list. Qed.

Lemma hm_keys_elem m k : k ∈ hm_keys m ↔ is_Some (m !! k).
Proof.
  unfold hm_keys. rewrite list_elem_of_fmap. split.
  - intros ([k' v] & -> & Hin). apply hm_iter_elem in Hin. by exists v.
  - intros [v Hv]. exists (k, v). split; [done|]. by apply hm_iter_elem.
Qed.

Lemma hm_values_elem m v : v ∈ hm_values m ↔ ∃ k, m !! k = Some v.
Proof.
  unfold hm_values. rewrite list_elem_of_fmap. split.
  - intros ([k v'] & -> & Hin). apply hm_iter_elem in Hin. by exists k.
  - intros [k Hv]. exists (k, v). split; [done|]. by apply hm_iter_elem.
Qed.
End HashMap.

(** [collect()] into a map: a later entry overwrites an earlier one. *)
Definition hm_collect {K V : Type} `{Countable K} (l : list (K * V)) : gmap K V :=
  fold_left (λ m e, <[e.1 := e.2]> m) l ∅.

Lemma hm_collect_lookup {K V : Type} `{Countable K} (l : list (K * V)) k v :
  NoDup l.*1 → (k, v) ∈ l → hm_collect l !! k = Some v.
Proof.
  unfold hm_collect. generalize (∅ : gmap K V) as m.
  induction l as [|[k' v'] l IH]; intros m Hnd Hin; simpl in *.
  { by apply not_elem_of_nil in Hin. }
  apply NoDup_cons in Hnd as [Hk Hnd]. apply elem_of_cons in Hin as [[= <- <-]|Hin].
  - clear IH Hnd.
    assert (Hm : <[k:=v]> m !! k = Some v) by apply lookup_insert_eq.
    revert Hm. generalize (<[k:=v]> m) as m'.
    induction l as [|[k1 v1] l IH]; intros m' Hm; simpl in *; [done|].
    apply not_elem_of_cons in Hk as [Hne Hk]. apply IH; [done|].
    by rewrite lookup_insert_ne.
  - by apply IH.
Qed.

Lemma hm_collect_absent {K V : Type} `{Countable K} (l : list (K * V)) k :
  k ∉ l.*1 → hm_collect l !! k = None.
Proof.
  unfold hm_collect. intros Hk. assert (Hm : (∅ : gmap K V) !! k = None) by apply lookup_empty.
  revert Hm Hk. generalize (∅ : gmap K V) as m.
  induction l as [|[k' v'] l IH]; intros m Hm Hk; simpl in *; [done|].
  apply not_elem_of_cons in Hk as [Hne Hk]. apply IH; [|done]. by rewrite lookup_insert_ne.
Qed.

Lemma hm_collect_elem {K V : Type} `{Countable K} (l : list (K * V)) k v :
  NoDup l.*1 → hm_collect l !! k = Some v ↔ (k, v) ∈ l.
Proof.
  intros Hnd. split; [|by apply hm_collect_lookup]. intros E.
  destruct (decide (k ∈ l.*1)) as [([k' v'] & -> & Hin)%list_elem_of_fmap|Hni].
  - pose proof (hm_collect_lookup l k' v' Hnd Hin). simpl in *. congruence.
  - by rewrite hm_collect_absent in E.
Qed.

(** The values of a map whose keys are a function of them collect back to it. *)
Lemma hm_collect_values {I : HashMapIter} {K V : Type} `{Countable K} (key : V → K) (m : gmap K V) :
  (∀ k v, m !! k = Some v → key v = k) → hm_collect ((λ v, (key v, v)) <$> hm_values m) = m.
Proof.
  intros Hk.
  assert (Hkeys : ((λ v, (key v, v)) <$> hm_values m).*1 = hm_keys m).
  { unfold hm_values, hm_keys. rewrite <- !list_fmap_compose. apply list_fmap_ext.
    intros i [k v] Hi%list_elem_of_lookup_2%hm_iter_elem. by apply Hk. }
  apply map_eq. intros k. destruct (m !! k) as [v|] eqn:E.
  - apply hm_collect_lookup; [rewrite Hkeys; apply hm_keys_NoDup|].
    rewrite <- (Hk k v E). apply (list_elem_of_fmap_2 (λ v, (key v, v))).
    apply hm_values_elem. eauto.
  - apply hm_collect_absent. rewrite Hkeys. intros [v Hv]%hm_keys_elem. congruence.
Qed.

(** ** [sort_by]: stable insertion sort *)
Section SortBy.
Context {A : Type} (le : A → A → bool).

Fixpoint insert_by (x : A) (l : list A) : list A :=
  match l with
  | [] => [x]
  | y :: l' => if le x y then x :: l else y :: insert_by x l'
  end.

Definition sort_by (l : list A) : list A := foldr insert_by [] l.

Lemma insert_by_perm x l : insert_by x l ≡ₚ x :: l.
Proof.
  induction l as [|y l IH]; simpl; [done|].
  destruct (le x y); [done|]. rewrite IH. apply Permutation_swap.
Qed.

Lemma sort_by_perm l : sort_by l ≡ₚ l.
Proof. induction l as [|x l IH]; simpl; [done|]. by rewrite insert_by_perm, IH. Qed.

Context (le_total : ∀ x y, le x y = true ∨ le y x = true).
Context (le_trans : ∀ x y z, le x y = true → le y z = true → le x z = true).

Lemma insert_by_sorted x l :
  StronglySorted (λ a b, le a b = true) l →
  StronglySorted (λ a b, le a b = true) (insert_by x l).
Proof.
  induction 1 as [|y l Hl IH Hy]; simpl; [repeat constructor|].
  destruct (le x y) eqn:E.
  - constructor; [by constructor|]. constructor; [done|].
    eapply Forall_impl; [done|]. intros z Hz. by eapply le_trans.
  - assert (le y x = true) as Hyx by (destruct (le_total x y); congruence).
    constructor; [done|]. rewrite insert_by_perm. by constructor.
Qed.

Lemma sort_by_sorted l : StronglySorted (λ a b, le a b = true) (sort_by l).
Proof.
  induction l; simpl; [constructor | by apply insert_by_sorted].
Qed.

(** Lists with the same elements sort to the same list when [le] separates
    those elements. *)
Lemma sort_by_unique l1 l2 :
  l1 ≡ₚ l2 →
  (∀ x y, x ∈ l1 → y ∈ l1 → le x y = true → le y x = true → x = y) →
  sort_by l1 = sort_by l2.
Proof.
  intros Hp Hanti.
  apply (StronglySorted_unique_strong (λ a b, le a b = true)).
  - intros x y Hx Hy. rewrite sort_by_perm in Hx. rewrite sort_by_perm, <- Hp in Hy.
    by apply Hanti.
  - apply sort_by_sorted.
  - apply sort_by_sorted.
  - by rewrite !sort_by_perm.
Qed.
End SortBy.

(** [Vec::dedup]: of equal neighbours the first stays. *)
Fixpoint dedup_sorted {A : Type} `{EqDecision A} (l : list A) : list A :=
  match l with
  | x :: (y :: _) as l' => if decide (x = y) then dedup_sorted l' else x :: dedup_sorted l'
  | _ => l
  end.

Lemma dedup_sorted_cons {A : Type} `{EqDecision A} (x y : A) l :
  dedup_sorted (x :: y :: l) = if decide (x = y) then dedup_sorted (y :: l) else x :: dedup_sorted (y :: l).
Proof. done. Qed.

Lemma dedup_sorted_elem {A : Type} `{EqDecision A} (l : list A) x : x ∈ dedup_sorted l ↔ x ∈ l.
Proof.
  induction l as [|y [|z l] IH]; [done..|]. rewrite dedup_sorted_cons. case_decide as E.
  - rewrite IH. subst. set_solver.
  - rewrite elem_of_cons, IH. set_solver.
Qed.

Lemma dedup_sorted_NoDup {A : Type} `{EqDecision A} (R : relation A) `{!AntiSymm eq R} (l : list A) :
  StronglySorted R l → NoDup (dedup_sorted l).
Proof.
  induction 1 as [|y [|z l] Hl IH Hy]; [constructor|repeat constructor; set_solver|]. rewrite dedup_sorted_cons.
  case_decide as E; [done|]. constructor; [|done]. rewrite dedup_sorted_elem.
  intros [->|Hin]%elem_of_cons; [done|]. apply E. apply (anti_symm R).
  - rewrite Forall_forall in Hy. apply Hy. by left.
  - apply StronglySorted_inv in Hl as [_ Hl]. rewrite Forall_forall in Hl. by apply Hl.
Qed.

(** [sort] and [dedup] of strings. *)
Definition string_leb : string → string → bool := Stdlib.Strings.String.leb.
Definition sort_dedup (l : list string) : list string := dedup_sorted (sort_by string_leb l).

Lemma sort_dedup_elem l x : x ∈ sort_dedup l ↔ x ∈ l.
Proof. unfold sort_dedup. by rewrite dedup_sorted_elem, sort_by_perm. Qed.

Lemma sort_dedup_sorted l : StronglySorted (λ a b, string_leb a b = true) (sort_by string_leb l).
Proof.
  apply sort_by_sorted; unfold string_leb.
  - apply Stdlib.Strings.String.leb_total.
  - intros x y z. rewrite <- !Is_true_true. apply (transitivity (R := strings.String.le)).
Qed.

Lemma sort_strings_unique l1 l2 : l1 ≡ₚ l2 → sort_by string_leb l1 = sort_by string_leb l2.
Proof.
  intros Hp. apply sort_by_unique; [|..|done|].
  - apply Stdlib.Strings.String.leb_total.
  - intros x y z. unfold string_leb. rewrite <- !Is_true_true. apply (transitivity (R := strings.String.le)).
  - intros x y _ _. apply Stdlib.Strings.String.leb_antisym.
Qed.

Lemma sort_dedup_NoDup l : NoDup (sort_dedup l).
Proof.
  assert (Ha : AntiSymm eq (λ a b, string_leb a b = true))
    by (intros x y; apply Stdlib.Strings.String.leb_antisym).
  apply (dedup_sorted_NoDup _ _ (sort_dedup_sorted l)).
Qed.

(** ** [slice::chunks] *)
Section Chunks.
Context {A : Type}.

Fixpoint chunks_fuel (fuel n : nat) (l : list A) : list (list A) :=
  match fuel, l with
  | 0, _ | _, [] => []
  | S fuel', _ => take n l :: chunks_fuel fuel' n (drop n l)
  end.

(** [length l] rounds are enough when [n] is positive. *)
Definition chunks (n : nat) (l : list A) : list (list A) :=
  chunks_fuel (length l) n l.

Lemma chunks_fuel_concat fuel n l :
  0 < n → length l ≤ fuel → concat (chunks_fuel fuel n l) = l.
Proof.
  intros Hn. revert l. induction fuel as [|fuel IH]; intros l Hl.
  - by destruct l; simpl in Hl; [|lia].
  - destruct l as [|x l]; [done|].
    cbn [chunks_fuel concat].
    rewrite IH; [by rewrite take_drop|]. rewrite length_drop. simpl in *. lia.
Qed.

Lemma chunks_concat n l : 0 < n → concat (chunks n l) = l.
Proof. intros. by apply chunks_fuel_concat. Qed.
End Chunks.
