(* ===== verification/Decimal.v ===== *)
(** * Decimal arithmetic

    The engine computes with [rust_decimal::Decimal]. That crate is not part
    of the repository, so its numbers and operations are a parameter, the
    class [Decimal], and what the code relies on is the class [DecimalLaws]:
    every operation returns the exact mathematical result whenever that result
    is representable ([fits]). Nothing is assumed of a result that has to be
    rounded, and an operation that panics (overflow, a zero divisor) has no
    specified value. Comparisons compare the numeric values. The instance
    [Qc_decimal] at the end, exact rational arithmetic, satisfies the laws and
    is the one the witnesses compute with. *)
From stdpp Require Import base countable list numbers.
From Stdlib Require Import QArith Qabs Qround Qminmax Lqa Qcanon.
From S2P Require Import Prelude.
Local Open Scope nat_scope.

(** [m * 10 ^ -s] as a rational. *)
Definition scaled (m : Z) (s : nat) : Q := Qmake m (Z.to_pos (10 ^ Z.of_nat s)).

(** The values a 96-bit coefficient with a scale of at most 28 represents. *)
Definition fits (q : Q) : Prop :=
  ∃ (m : Z) (s : nat), (Z.abs m < 2 ^ 96)%Z ∧ s ≤ 28 ∧ (q == scaled m s)%Q.

(** The type and the operations the engine uses. Two representations of one
    number (1.0 and 1.00) are equal for [Eq], [Ord] and [Hash], so [dec] has
    one element per number. [dlit m s] is the literal [m * 10 ^ -s]. *)
Class Decimal := {
  dec : Type;
  dec_eq_dec :: EqDecision dec;
  dec_countable :: Countable dec;
  dval : dec → Q;
  dlit : Z → nat → dec;
  dadd : dec → dec → dec;
  dsub : dec → dec → dec;
  dmul : dec → dec → dec;
  ddiv : dec → dec → dec;
  dneg : dec → dec;
  dabs : dec → dec;
  dfloor : dec → dec;
}.

Class DecimalLaws (D : Decimal) : Prop := {
  dval_inj a b : (dval a == dval b)%Q → a = b;
  dlit_val m s : fits (scaled m s) → (dval (dlit m s) == scaled m s)%Q;
  dadd_val a b :
    fits (dval a + dval b)%Q → (dval (dadd a b) == dval a + dval b)%Q;
  dsub_val a b :
    fits (dval a - dval b)%Q → (dval (dsub a b) == dval a - dval b)%Q;
  dmul_val a b :
    fits (dval a * dval b)%Q → (dval (dmul a b) == dval a * dval b)%Q;
  ddiv_val a b :
    ¬ (dval b == 0)%Q → fits (dval a / dval b)%Q →
    (dval (ddiv a b) == dval a / dval b)%Q;
  dneg_val a : (dval (dneg a) == - dval a)%Q;
  dabs_val a : (dval (dabs a) == Qabs (dval a))%Q;
  dfloor_val a : (dval (dfloor a) == inject_Z (Qfloor (dval a)))%Q;
}.

Section Ops.
Context {D : Decimal}.

Definition dec0 : dec := dlit 0 0.
Definition dec1 : dec := dlit 1 0.

(** [a <= b], [a < b], [a == b] *)
Definition dleb (a b : dec) : bool := Qle_bool (dval a) (dval b).
Definition dltb (a b : dec) : bool := negb (dleb b a).
Definition deqb (a b : dec) : bool := bool_decide (a = b).
Definition is_zero (a : dec) : bool := deqb a dec0.

(** [Signed::signum]: -1, 0 or 1. *)
Definition dsignum (a : dec) : dec :=
  if is_zero a then dec0 else if dltb a dec0 then dneg dec1 else dec1.

(** [Ord::max] and [Ord::min]; [iter().sum()] folds from zero. *)
Definition dmax (a b : dec) : dec := if dleb a b then b else a.
Definition dmin (a b : dec) : dec := if dleb a b then a else b.
Definition dsum (l : list dec) : dec := fold_left dadd l dec0.

Definition dle (a b : dec) : Prop := (dval a <= dval b)%Q.
Definition dlt (a b : dec) : Prop := (dval a < dval b)%Q.
End Ops.

#[export] Instance dle_dec {D : Decimal} (a b : dec) : Decision (dle a b).
Proof. unfold dle. apply Qle_dec || (destruct (Qlt_le_dec (dval b) (dval a)); [right; lra | by left]). Defined.
#[export] Instance dlt_dec {D : Decimal} (a b : dec) : Decision (dlt a b).
Proof. unfold dlt. destruct (Qlt_le_dec (dval a) (dval b)); [by left | right; lra]. Defined.

Section Order.
Context {D : Decimal} {L : DecimalLaws D}.

Lemma dleb_le a b : dleb a b = true ↔ dle a b.
Proof. unfold dleb, dle. apply Qle_bool_iff. Qed.

Lemma dleb_gt a b : dleb a b = false ↔ dlt b a.
Proof.
  unfold dlt. destruct (dleb a b) eqn:E.
  - apply dleb_le in E. unfold dle in E. split; [done | lra].
  - split; [intros _ | done]. apply Qnot_le_lt. intros H.
    apply Qle_bool_iff in H. unfold dleb in E. congruence.
Qed.

Lemma dltb_lt a b : dltb a b = true ↔ dlt a b.
Proof. unfold dltb. rewrite negb_true_iff. apply dleb_gt. Qed.

Lemma dltb_ge a b : dltb a b = false ↔ dle b a.
Proof. unfold dltb. rewrite negb_false_iff. apply dleb_le. Qed.

Lemma deqb_eq a b : deqb a b = true ↔ a = b.
Proof. apply bool_decide_eq_true. Qed.

Lemma deqb_refl a : deqb a a = true.
Proof. by apply deqb_eq. Qed.

Lemma dle_refl a : dle a a.
Proof. unfold dle. lra. Qed.
Lemma dle_trans a b c : dle a b → dle b c → dle a c.
Proof. unfold dle. lra. Qed.
Lemma dle_antisym a b : dle a b → dle b a → a = b.
Proof. unfold dle. intros. apply dval_inj. lra. Qed.
Lemma dle_lt_cases a b : dle a b ∨ dlt b a.
Proof. unfold dle, dlt. destruct (Qlt_le_dec (dval b) (dval a)); auto. Qed.
Lemma dlt_irrefl a : ¬ dlt a a.
Proof. unfold dlt. lra. Qed.
Lemma dlt_trans a b c : dlt a b → dlt b c → dlt a c.
Proof. unfold dlt. lra. Qed.
Lemma dlt_ne a b : dlt a b → a ≠ b.
Proof. intros H ->. by apply dlt_irrefl in H. Qed.
Lemma dlt_trichotomy a b : dlt a b ∨ a = b ∨ dlt b a.
Proof.
  unfold dlt. destruct (Q_dec (dval a) (dval b)) as [[?|?]|?]; auto.
  right. left. by apply dval_inj.
Qed.

Lemma scaled_0 m : (scaled m 0 == inject_Z m)%Q.
Proof. unfold scaled, Qeq; simpl. lia. Qed.

Lemma fits_int m : (Z.abs m < 2 ^ 96)%Z → fits (scaled m 0).
Proof. intros. exists m, 0%nat. repeat split; [done | lia]. Qed.

Lemma dlit_int m : (Z.abs m < 2 ^ 96)%Z → (dval (dlit m 0) == inject_Z m)%Q.
Proof. intros H. rewrite dlit_val by by apply fits_int. apply scaled_0. Qed.

Lemma dec0_val : (dval dec0 == 0)%Q.
Proof. by apply (dlit_int 0). Qed.
Lemma dec1_val : (dval dec1 == 1)%Q.
Proof. by apply (dlit_int 1). Qed.
End Order.

Section Signs.
Context {D : Decimal} {L : DecimalLaws D}.

Lemma is_zero_val a : is_zero a = true ↔ (dval a == 0)%Q.
Proof.
  unfold is_zero. rewrite deqb_eq. split; [intros ->; apply dec0_val|].
  intros H. apply dval_inj. by rewrite H, dec0_val.
Qed.

Lemma is_zero_false a : is_zero a = false ↔ ¬ (dval a == 0)%Q.
Proof. rewrite <- is_zero_val. by destruct (is_zero a). Qed.

Lemma dsignum_cases a :
  (dval a == 0)%Q ∧ dsignum a = dec0 ∨ (dval a < 0)%Q ∧ dsignum a = dneg dec1 ∨
  (0 < dval a)%Q ∧ dsignum a = dec1.
Proof.
  unfold dsignum. pose proof dec0_val as H0. destruct (is_zero a) eqn:E.
  - apply is_zero_val in E. by left.
  - apply is_zero_false in E. destruct (dltb a dec0) eqn:El.
    + right. left. apply dltb_lt in El. unfold dlt in El. rewrite H0 in El. by split.
    + right. right. apply dltb_ge in El. unfold dle in El. rewrite H0 in El. split; [|done].
      destruct (Qlt_le_dec 0 (dval a)) as [|Hle]; [done|]. exfalso. apply E. lra.
Qed.

(** Two numbers have the same sign. *)
Definition same_sign (a b : Q) : Prop :=
  (a == 0 ∧ b == 0 ∨ a < 0 ∧ b < 0 ∨ 0 < a ∧ 0 < b)%Q.

Lemma dsignum_eqb a b : deqb (dsignum a) (dsignum b) = true ↔ same_sign (dval a) (dval b).
Proof.
  pose proof dec0_val as H0. pose proof dec1_val as H1. pose proof (dneg_val dec1) as Hn.
  assert (H01 : dec0 ≠ dec1) by (intros E; rewrite E in H0; lra).
  assert (H0n : dec0 ≠ dneg dec1) by (intros E; rewrite <- E in Hn; lra).
  assert (H1n : dec1 ≠ dneg dec1) by (intros E; rewrite <- E in Hn; lra).
  rewrite deqb_eq. unfold same_sign.
  destruct (dsignum_cases a) as [[? ->]|[[? ->]|[? ->]]], (dsignum_cases b) as [[? ->]|[[? ->]|[? ->]]];
    split; intros Hs; try done; try lra; try congruence; exfalso;
    destruct Hs as [[]|[[]|[]]]; lra.
Qed.
End Signs.

Lemma dmax_ge_r {D : Decimal} {L : DecimalLaws D} a b : dle b (dmax a b).
Proof. unfold dmax. destruct (dleb a b) eqn:E; [apply dle_refl|]. apply dleb_gt in E. unfold dle, dlt in *. lra. Qed.

#[export] Instance fits_proper : Proper (Qeq ==> iff) fits.
Proof.
  intros p q E. unfold fits. split; intros (m & s & H1 & H2 & H3); exists m, s; (split; [done|split; [done|]]);
    [by rewrite <- E|by rewrite E].
Qed.

Create HintDb dec.
#[export] Hint Resolve dle_refl : dec.

(** Turns every comparison of decimals in the context and the goal into an
    inequation of rationals and calls [lra]. *)
Ltac dec_to_Q :=
  repeat match goal with
  | H : dleb _ _ = true |- _ => apply dleb_le in H
  | H : dleb _ _ = false |- _ => apply dleb_gt in H
  | H : dltb _ _ = true |- _ => apply dltb_lt in H
  | H : dltb _ _ = false |- _ => apply dltb_ge in H
  | |- dleb _ _ = true => apply dleb_le
  | |- dleb _ _ = false => apply dleb_gt
  | |- dltb _ _ = true => apply dltb_lt
  | |- dltb _ _ = false => apply dltb_ge
  end;
  unfold dle, dlt in *.
Ltac dec_order := dec_to_Q; lra.

Section Extremes.
Context {D : Decimal} {L : DecimalLaws D}.

Lemma dmin_val a b : (dval (dmin a b) == Qmin (dval a) (dval b))%Q.
Proof. unfold dmin. destruct (dleb a b) eqn:E; dec_to_Q; [rewrite Q.min_l|rewrite Q.min_r]; lra. Qed.

Lemma dmax_val a b : (dval (dmax a b) == Qmax (dval a) (dval b))%Q.
Proof. unfold dmax. destruct (dleb a b) eqn:E; dec_to_Q; [rewrite Q.max_r|rewrite Q.max_l]; lra. Qed.
End Extremes.

(** ** Decimal grids

    Venues quote prices and quantities on decimal grids: [on_grid s a m] says
    that [a] is [m] units of [10 ^ -s]. Sums and products of grid values are
    exact while their unit counts stay below the 96-bit coefficient limit. *)
Section Grid.
Context {D : Decimal} {L : DecimalLaws D}.

Definition on_grid (s : nat) (a : dec) (m : Z) : Prop := (dval a == scaled m s)%Q.
Definition small (m : Z) : Prop := (Z.abs m < 2 ^ 96)%Z.

Lemma scaled_inject m s : (scaled m s == inject_Z m / inject_Z (10 ^ Z.of_nat s))%Q.
Proof.
  unfold scaled. assert (H : (0 < 10 ^ Z.of_nat s)%Z) by lia.
  destruct (10 ^ Z.of_nat s)%Z as [|p|p] eqn:E; [lia| |lia]. simpl Z.to_pos.
  unfold Qdiv, Qinv, inject_Z, Qmult, Qeq. simpl. lia.
Qed.

Lemma pow10_pos s : (0 < inject_Z (10 ^ Z.of_nat s))%Q.
Proof. unfold Qlt. simpl. lia. Qed.

Lemma fits_grid m s (q : Q) : small m → s ≤ 28 → (q == scaled m s)%Q → fits q.
Proof. intros. by exists m, s. Qed.

Lemma scaled_add m n s : (scaled m s + scaled n s == scaled (m + n) s)%Q.
Proof.
  rewrite !scaled_inject, inject_Z_plus. pose proof (pow10_pos s). field. lra.
Qed.
Lemma scaled_opp m s : (- scaled m s == scaled (- m) s)%Q.
Proof. done. Qed.
Lemma scaled_mul m n s t : (scaled m s * scaled n t == scaled (m * n) (s + t))%Q.
Proof.
  rewrite !scaled_inject, inject_Z_mult, Nat2Z.inj_add, Z.pow_add_r, inject_Z_mult by lia.
  pose proof (pow10_pos s). pose proof (pow10_pos t). field. lra.
Qed.
Lemma scaled_le m n s : (scaled m s <= scaled n s)%Q ↔ (m ≤ n)%Z.
Proof. unfold scaled, Qle. simpl. pose proof (Pos2Z.is_pos (Z.to_pos (10 ^ Z.of_nat s))). nia. Qed.

Lemma grid_add s a b m n : s ≤ 28 → on_grid s a m → on_grid s b n → small (m + n) →
  on_grid s (dadd a b) (m + n).
Proof.
  unfold on_grid. intros Hs Ha Hb Hm.
  assert (E : (dval a + dval b == scaled (m + n) s)%Q) by by rewrite Ha, Hb, scaled_add.
  rewrite dadd_val; [done|]. by eapply fits_grid.
Qed.

Lemma grid_sub s a b m n : s ≤ 28 → on_grid s a m → on_grid s b n → small (m - n) →
  on_grid s (dsub a b) (m - n).
Proof.
  unfold on_grid. intros Hs Ha Hb Hm.
  assert (E : (dval a - dval b == scaled (m - n) s)%Q).
  { rewrite Ha, Hb. unfold Qminus. by rewrite scaled_opp, scaled_add. }
  rewrite dsub_val; [done|]. by eapply fits_grid.
Qed.

Lemma grid_mul s t a b m n : s + t ≤ 28 → on_grid s a m → on_grid t b n → small (m * n) →
  on_grid (s + t) (dmul a b) (m * n).
Proof.
  unfold on_grid. intros Hs Ha Hb Hm.
  assert (E : (dval a * dval b == scaled (m * n) (s + t))%Q) by by rewrite Ha, Hb, scaled_mul.
  rewrite dmul_val; [done|]. by eapply fits_grid.
Qed.

Lemma grid_zero s : on_grid s dec0 0.
Proof. unfold on_grid. rewrite dec0_val. unfold scaled, Qeq. simpl. lia. Qed.

Lemma grid_neg s a m : on_grid s a m → on_grid s (dneg a) (- m).
Proof. unfold on_grid. intros H. by rewrite dneg_val, H. Qed.

Lemma grid_abs s a m : on_grid s a m → on_grid s (dabs a) (Z.abs m).
Proof. unfold on_grid. intros H. rewrite dabs_val, H. reflexivity. Qed.

(** Sums and differences, from their units. *)
Lemma grid_add_val s a b m n : s ≤ 28 → on_grid s a m → on_grid s b n → small (m + n) →
  (dval (dadd a b) == dval a + dval b)%Q.
Proof.
  intros Hs Ha Hb Hm. pose proof (grid_add s a b m n Hs Ha Hb Hm) as H. unfold on_grid in *.
  rewrite H, Ha, Hb. by rewrite scaled_add.
Qed.

Lemma grid_leb s a b m n : on_grid s a m → on_grid s b n → dleb a b = (m <=? n)%Z.
Proof.
  unfold on_grid. intros Ha Hb. apply eq_true_iff_eq.
  rewrite dleb_le, Z.leb_le, <- (scaled_le m n s). unfold dle. by rewrite Ha, Hb.
Qed.
End Grid.

(** ** Values of a grid

    The same, for rationals: [gridded s q] says that [q] is a whole number of
    units of [10 ^ -s], and [room s] is the first value that needs more than
    96 bits at that scale. *)
Definition gridded (s : nat) (q : Q) : Prop := ∃ m : Z, (q == scaled m s)%Q.
Definition room (s : nat) : Q := scaled (2 ^ 96) s.

#[export] Instance gridded_proper s : Proper (Qeq ==> iff) (gridded s).
Proof. intros p q E. unfold gridded. by setoid_rewrite E. Qed.

Lemma gridded_0 s : gridded s 0.
Proof. exists 0%Z. unfold scaled, Qeq. simpl. lia. Qed.
Lemma gridded_add s p q : gridded s p → gridded s q → gridded s (p + q).
Proof. intros [m Hm] [n Hn]. exists (m + n)%Z. by rewrite Hm, Hn, scaled_add. Qed.
Lemma gridded_opp s p : gridded s p → gridded s (- p).
Proof. intros [m Hm]. exists (- m)%Z. by rewrite Hm, scaled_opp. Qed.
Lemma gridded_sub s p q : gridded s p → gridded s q → gridded s (p - q).
Proof. intros. apply gridded_add; [done|]. by apply gridded_opp. Qed.
Lemma gridded_abs s p : gridded s p → gridded s (Qabs p).
Proof. intros Hp. apply Qabs_case; intros _; [done|by apply gridded_opp]. Qed.
Lemma gridded_mul_Z s (n : Z) p : gridded s p → gridded s (inject_Z n * p).
Proof.
  intros [m Hm]. exists (n * m)%Z. rewrite Hm, !scaled_inject, inject_Z_mult.
  pose proof (pow10_pos s). field. lra.
Qed.
Lemma gridded_max s p q : gridded s p → gridded s q → gridded s (Qmax p q).
Proof. intros. apply Q.max_case; [by intros ?? ->|done..]. Qed.
Lemma gridded_min s p q : gridded s p → gridded s q → gridded s (Qmin p q).
Proof. intros. apply Q.min_case; [by intros ?? ->|done..]. Qed.

Lemma gridded_mul s t p q : gridded s p → gridded t q → gridded (s + t) (p * q).
Proof. intros [m Hm] [n Hn]. exists (m * n)%Z. by rewrite Hm, Hn, scaled_mul. Qed.

Lemma gridded_fits s q : s ≤ 28 → gridded s q → (- room s < q < room s)%Q → fits q.
Proof.
  intros Hs [m Hm] [Hl Hr]. exists m, s. repeat split; [|done|done]. rewrite Hm in Hl, Hr.
  unfold room in *. rewrite scaled_opp in Hl. apply Qlt_not_le in Hl, Hr. rewrite scaled_le in Hl, Hr. lia.
Qed.

Section GridValues.
Context {D : Decimal} {L : DecimalLaws D}.

Lemma gadd_val s a b : s ≤ 28 → gridded s (dval a) → gridded s (dval b) →
  (- room s < dval a + dval b < room s)%Q → (dval (dadd a b) == dval a + dval b)%Q.
Proof. intros Hs Ha Hb Hr. apply dadd_val, (gridded_fits s); [done| |done]. by apply gridded_add. Qed.

Lemma gsub_val s a b : s ≤ 28 → gridded s (dval a) → gridded s (dval b) →
  (- room s < dval a - dval b < room s)%Q → (dval (dsub a b) == dval a - dval b)%Q.
Proof. intros Hs Ha Hb Hr. apply dsub_val, (gridded_fits s); [done| |done]. by apply gridded_sub. Qed.
End GridValues.

(** ** Ideal arithmetic

    Decimals whose operations are all exact. [rust_decimal] rounds to 28 digits
    and panics on overflow, so this is an idealisation, for lemmas that show
    what the formulas compute (an average price, a quadratic cost): no property
    of the development rests on it. Those are proved from [DecimalLaws], for
    numbers on a common grid ([on_grid]) or for results that fit. *)
Class DecimalExact (D : Decimal) : Prop := {
  exact_laws :: DecimalLaws D;
  dadd_exact a b : (dval (dadd a b) == dval a + dval b)%Q;
  dsub_exact a b : (dval (dsub a b) == dval a - dval b)%Q;
  dmul_exact a b : (dval (dmul a b) == dval a * dval b)%Q;
  ddiv_exact a b : ¬ (dval b == 0)%Q → (dval (ddiv a b) == dval a / dval b)%Q;
}.

(** Evaluates every operation under [dval]. *)
Ltac dec_exact :=
  rewrite ?dadd_exact, ?dsub_exact, ?dmul_exact, ?dneg_val, ?dabs_val, ?dec0_val,
    ?dec1_val in *.

(** *** Sums *)
Fixpoint qsum (l : list Q) : Q := match l with [] => 0 | x :: l => x + qsum l end.

Lemma qsum_app l1 l2 : (qsum (l1 ++ l2) == qsum l1 + qsum l2)%Q.
Proof. induction l1 as [|x l1 IH]; cbn; [ring|]. rewrite IH. ring. Qed.

Lemma qsum_perm l1 l2 : l1 ≡ₚ l2 → (qsum l1 == qsum l2)%Q.
Proof. induction 1; cbn [qsum]; lra. Qed.

Section Sums.
Context {D : Decimal} {L : DecimalExact D}.

Definition vals (l : list dec) : list Q := dval <$> l.
Lemma qsum_vals_cons x l : qsum (vals (x :: l)) = (dval x + qsum (vals l))%Q.
Proof. done. Qed.

Lemma dsum_from l a : (dval (fold_left dadd l a) == dval a + qsum (vals l))%Q.
Proof.
  revert a. induction l as [|x l IH]; intros a; cbn [fold_left]; [cbn; ring|]. rewrite IH, dadd_exact, qsum_vals_cons. ring.
Qed.

Lemma dsum_val l : (dval (dsum l) == qsum (vals l))%Q.
Proof. unfold dsum. rewrite dsum_from, dec0_val. ring. Qed.

Lemma qsum_nonneg l : Forall (λ x, (0 <= dval x)%Q) l → (0 <= qsum (vals l))%Q.
Proof. induction 1 as [|x l Hx _ IH]; [cbn; lra|]. rewrite qsum_vals_cons. lra. Qed.
End Sums.

(** *** Sums on a grid *)
Section GridSums.
Context {D : Decimal} {L : DecimalLaws D}.

Lemma qsum_abs_nonneg l : (0 <= qsum (Qabs <$> l))%Q.
Proof. induction l as [|x l IH]; [done|]. rewrite fmap_cons. cbn [qsum]. pose proof (Qabs_nonneg x). lra. Qed.

Lemma gsum_from s l a : s ≤ 28 → gridded s (dval a) → Forall (λ x, gridded s (dval x)) l →
  (Qabs (dval a) + qsum (Qabs <$> vals l) < room s)%Q →
  (dval (fold_left dadd l a) == dval a + qsum (vals l))%Q.
Proof.
  intros Hs. revert a. induction l as [|x l IH]; intros a Ha Hl Hr; cbn [fold_left]; [cbn; ring|].
  inversion Hl as [|y ys Hx Hl']; subst. unfold vals in Hr. rewrite !fmap_cons in Hr. cbn [qsum] in Hr. fold (vals l) in Hr.
  pose proof (qsum_abs_nonneg (vals l)) as H0.
  assert (Hb : (Qabs (dval a + dval x) <= Qabs (dval a) + Qabs (dval x))%Q) by apply Qabs_triangle.
  assert (E : (dval (dadd a x) == dval a + dval x)%Q).
  { apply (gadd_val s); [done..|].
    pose proof (Qle_Qabs (dval a + dval x)). pose proof (Qle_Qabs (- (dval a + dval x))) as Ho.
    rewrite Qabs_opp in Ho. lra. }
  rewrite IH; [|rewrite E; by apply gridded_add|done|rewrite E; lra].
  rewrite E, qsum_vals_cons. ring.
Qed.

Lemma gsum_val s l : s ≤ 28 → Forall (λ x, gridded s (dval x)) l →
  (qsum (Qabs <$> vals l) < room s)%Q → (dval (dsum l) == qsum (vals l))%Q.
Proof.
  intros Hs Hl Hr. assert (E : (dval dec0 == 0)%Q) by apply dec0_val. unfold dsum. rewrite (gsum_from s).
  - rewrite E. ring.
  - done.
  - rewrite E. apply gridded_0.
  - done.
  - rewrite E. change (Qabs 0) with 0%Q. lra.
Qed.
End GridSums.

(** *** Extremes and rounding to a lot *)
Section Rounding.
Context {D : Decimal} {L : DecimalExact D}.

Lemma vals_app (l1 l2 : list dec) : (qsum (vals (l1 ++ l2)) == qsum (vals l1) + qsum (vals l2))%Q.
Proof. unfold vals. rewrite fmap_app. apply qsum_app. Qed.

Lemma floor_lot_val q lot : (0 < dval lot)%Q →
  (dval (dmul (dfloor (ddiv q lot)) lot) == inject_Z (Qfloor (dval q / dval lot)) * dval lot)%Q.
Proof. intros Hl. rewrite dmul_exact, dfloor_val, ddiv_exact by lra. reflexivity. Qed.

Lemma floor_lot_bounds q lot : (0 < dval lot)%Q → (0 <= dval q)%Q →
  (0 <= dval (dmul (dfloor (ddiv q lot)) lot) /\ dval (dmul (dfloor (ddiv q lot)) lot) <= dval q)%Q.
Proof.
  intros Hl Hq. rewrite floor_lot_val by done. assert (Hd : (0 <= dval q / dval lot)%Q) by (apply Qle_shift_div_l; lra).
  pose proof (Qfloor_le (dval q / dval lot)) as Hf. pose proof (Qfloor_resp_le _ _ Hd) as Hz. change (Qfloor 0) with 0%Z in Hz.
  rewrite Zle_Qle in Hz. change (inject_Z 0) with 0%Q in Hz. split; [nra|].
  assert (E : (dval q == dval q / dval lot * dval lot)%Q) by (field; lra). rewrite E at 2. apply Qmult_le_compat_r; lra.
Qed.
End Rounding.

(** ** An instance: exact rational arithmetic *)

#[export] Instance Qc_decimal : Decimal := {|
  dec := Qc;
  dval := this;
  dlit m s := Q2Qc (scaled m s);
  dadd := Qcplus;
  dsub := Qcminus;
  dmul := Qcmult;
  ddiv := Qcdiv;
  dneg := Qcopp;
  dabs a := Q2Qc (Qabs a);
  dfloor a := Q2Qc (inject_Z (Qfloor a));
|}.

#[export] Instance Qc_decimal_laws : DecimalLaws Qc_decimal.
Proof.
  split; simpl; intros.
  - by apply Qc_is_canon.
  - by rewrite Qred_correct.
  - by rewrite Qred_correct.
  - rewrite !Qred_correct. unfold Qminus. done.
  - by rewrite Qred_correct.
  - rewrite !Qred_correct. unfold Qdiv. done.
  - by rewrite Qred_correct.
  - by rewrite Qred_correct.
  - by rewrite Qred_correct.
Qed.

#[export] Instance Qc_decimal_exact : DecimalExact Qc_decimal.
Proof.
  split; [apply _|..]; intros; simpl; rewrite !Qred_correct; done.
Qed.
