(* ===== verification/Types.v ===== *)
(** * Shared data types ([crates/common/src/types.rs])

    Sides, orders, quotes, fills and product rounding, with the clock the
    timestamps come from. *)
From stdpp Require Import base countable list strings.
From Stdlib Require Import ZArith QArith Qround Lqa Lia.
From S2P Require Import Prelude Decimal.
Local Open Scope nat_scope.

(** [chrono::DateTime<Utc>] is a parameter: what the code uses is the signed
    number of whole seconds between two instants, the calendar date of one
    and its milliseconds since the epoch. *)
Class Clock := {
  instant : Type;
  seconds_between : instant → instant → Z;  (** [(later - earlier).num_seconds()] *)
  date_of : instant → Z;                    (** [date_naive()] *)
  millis_of : instant → Z;                  (** [timestamp_millis()] *)
}.

(** A clock counting seconds, for the witnesses. *)
#[export] Instance sec_clock : Clock := {|
  instant := Z;
  seconds_between later earlier := (later - earlier)%Z;
  date_of t := (t / 86400)%Z;
  millis_of t := (t * 1000)%Z;
|}.

Definition sec (z : Z) : @instant sec_clock := z.

(** [OrderId] is a [Uuid], a 128-bit number. *)
Abbreviation OrderId := N.

Inductive Side := Buy | Sell.

#[export] Instance Side_eq_dec : EqDecision Side.
Proof. solve_decision. Defined.

#[export] Instance Side_countable : Countable Side.
Proof.
  refine (inj_countable' (λ s, match s with Buy => true | Sell => false end)
            (λ b, if b then Buy else Sell) _).
  by intros [].
Defined.

Definition opposite (s : Side) : Side :=
  match s with Buy => Sell | Sell => Buy end.

Inductive OrderType := Limit | Market.

Inductive TimeInForce := Gtc | Ioc | Fok | PostOnly | Day | Gtd.

Inductive OrderStatus := Open | PartiallyFilled | Filled | Cancelled | Rejected.

#[export] Instance OrderType_eq_dec : EqDecision OrderType.
Proof. solve_decision. Defined.
#[export] Instance TimeInForce_eq_dec : EqDecision TimeInForce.
Proof. solve_decision. Defined.
#[export] Instance OrderStatus_eq_dec : EqDecision OrderStatus.
Proof. solve_decision. Defined.

Inductive WalletType := Spot | UsdMarginedFutures | CoinMarginedFutures | Margin | Funding | Unified.

#[export] Instance WalletType_eq_dec : EqDecision WalletType.
Proof. solve_decision. Defined.

#[export] Instance WalletType_countable : Countable WalletType.
Proof.
  refine (inj_countable'
    (λ w, match w with Spot => 0 | UsdMarginedFutures => 1 | CoinMarginedFutures => 2 | Margin => 3
          | Funding => 4 | Unified => 5 end)
    (λ n, match n with 0 => Spot | 1 => UsdMarginedFutures | 2 => CoinMarginedFutures | 3 => Margin
          | 4 => Funding | _ => Unified end) _).
  by intros [].
Defined.

Inductive TradingStatus := Trading | Halted | PreTrading | Break | Delisted.

Section Data.
Context {D : Decimal} {C : Clock}.

Record Quote := mkQuote { q_side : Side; q_price : dec; q_qty : dec }.

Record QuotePair := mkQuotePair { bid : option Quote; ask : option Quote }.

Record LiveOrder := mkLiveOrder {
  lo_order_id : OrderId;
  lo_symbol : string;
  lo_side : Side;
  lo_price : dec;
  lo_qty : dec;
  lo_filled_qty : dec;
  lo_status : OrderStatus;
  lo_created_at : instant;
}.

Record Fill := mkFill {
  f_trade_id : Z;
  f_order_id : OrderId;
  f_symbol : string;
  f_side : Side;
  f_price : dec;
  f_qty : dec;
  f_is_maker : bool;
  f_timestamp : instant;
}.

Record Balance := mkBalance {
  b_asset : string;
  b_wallet : WalletType;
  b_total : dec;
  b_locked : dec;
  b_available : dec;
}.

(** [crates/common/src/config.rs] *)
Record RiskConfig := mkRiskConfig {
  max_inventory : dec;
  max_exposure_quote : dec;
  max_drawdown_quote : dec;
  inventory_skew_factor : dec;
  max_spread_bps : dec;
  max_spread_to_quote_bps : option dec;
  stale_book_timeout_secs : Z;
  max_order_size : dec;
  max_daily_volume_quote : dec;
  max_hourly_volume_quote : dec;
}.

Record PriceLevel := mkPriceLevel { pl_price : dec; pl_qty : dec }.

Record ProductSpec := mkProductSpec {
  ps_symbol : string;
  base_asset : string;
  quote_asset : string;
  tick_size : dec;
  lot_size : dec;
  min_notional : dec;
  maker_fee : dec;
  taker_fee : dec;
  trading_status : TradingStatus;
}.

(** Round price down to tick size. *)
Definition round_price (p : ProductSpec) (price : dec) : dec :=
  dmul (dfloor (ddiv price (tick_size p))) (tick_size p).

(** Round quantity down to lot size. *)
Definition round_qty (p : ProductSpec) (qty : dec) : dec :=
  dmul (dfloor (ddiv qty (lot_size p))) (lot_size p).

(** Check if an order meets minimum notional. *)
Definition meets_min_notional (p : ProductSpec) (price qty : dec) : bool :=
  dleb (min_notional p) (dmul price qty).
End Data.

#[export] Instance Quote_eq_dec {D : Decimal} : EqDecision Quote.
Proof. solve_decision. Defined.
