(* ===== verification/KillSwitch.v ===== *)
(** * The kill switch ([crates/risk/src/kill_switch.rs])

    The five-level emergency state machine and the margin-guard decisions
    that feed it ([crates/risk/src/margin_guard.rs]). [Utc::now()] is an
    argument of the methods that read the clock. *)
From stdpp Require Import base list strings.
From Stdlib Require Import ZArith QArith Lqa Lia.
From S2P Require Import Prelude Decimal Types.
Local Open Scope nat_scope.

Inductive KillLevel :=
| Normal | WidenSpreads | StopNewOrders | CancelAll | FlattenAll | Disconnect.

#[export] Instance KillLevel_eq_dec : EqDecision KillLevel.
Proof. solve_decision. Defined.

(** The discriminants, which the derived order compares. *)
Definition level_rank (l : KillLevel) : Z :=
  match l with
  | Normal => 0 | WidenSpreads => 1 | StopNewOrders => 2
  | CancelAll => 3 | FlattenAll => 4 | Disconnect => 5
  end.

Definition level_le (a b : KillLevel) : Prop := (level_rank a ≤ level_rank b)%Z.
Definition level_ltb (a b : KillLevel) : bool := (level_rank a <? level_rank b)%Z.
Definition level_max (a b : KillLevel) : KillLevel := if level_ltb a b then b else a.

#[export] Instance level_le_dec a b : Decision (level_le a b).
Proof. unfold level_le. apply _. Defined.

#[export] Instance level_le_partial_order : base.PartialOrder level_le.
Proof.
  unfold level_le. split; [split|].
  - intros a. lia.
  - intros a b c. lia.
  - intros [] []; simpl; (done || lia).
Qed.

Inductive MarginGuardDecision :=
| MgNormal | MgWidenSpreads | MgReduce | MgStopNewOrders | MgCancelAll | MgStale.

Definition kill_level (d : MarginGuardDecision) : option KillLevel :=
  match d with
  | MgNormal => None
  | MgWidenSpreads | MgStale => Some WidenSpreads
  | MgReduce => Some WidenSpreads
  | MgStopNewOrders => Some StopNewOrders
  | MgCancelAll => Some CancelAll
  end.

Section KillSwitch.
Context {D : Decimal} {C : Clock}.

Definition level_spread_multiplier (l : KillLevel) : dec :=
  match l with
  | Normal => dlit 1 0
  | WidenSpreads => dlit 2 0
  | _ => dlit 1 0
  end.

Definition level_size_multiplier (l : KillLevel) : dec :=
  match l with
  | Normal => dlit 1 0
  | WidenSpreads => dlit 5 1
  | _ => dlit 0 0
  end.

Record KillSwitchConfig := mkKillSwitchConfig {
  daily_loss_limit : dec;
  daily_loss_warning : dec;
  max_position_value : dec;
  max_message_rate : Z;        (* u32 *)
  max_consecutive_errors : Z;  (* u32 *)
  no_fill_timeout_secs : Z;    (* u64 *)
}.

Definition KillSwitchConfig_default : KillSwitchConfig := {|
  daily_loss_limit := dlit 1000 0;
  daily_loss_warning := dlit 500 0;
  max_position_value := dlit 50000 0;
  max_message_rate := 100;
  max_consecutive_errors := 10;
  no_fill_timeout_secs := 300;
|}.

Record KillSwitch := mkKillSwitch {
  config : KillSwitchConfig;
  current_level : KillLevel;
  reason : string;
  activated_at : option instant;
  daily_pnl : dec;
  message_count_this_second : Z;
  consecutive_errors : Z;
  last_fill_at : option instant;
  day_start : instant;
  low_mr_since : option instant;
}.

Definition MR_LOW_THRESHOLD : dec := dlit 3 1.
Definition MR_SUSTAIN_SECS : Z := 3.

Definition new (cfg : KillSwitchConfig) (now : instant) : KillSwitch := {|
  config := cfg;
  current_level := Normal;
  reason := "";
  activated_at := None;
  daily_pnl := dec0;
  message_count_this_second := 0;
  consecutive_errors := 0;
  last_fill_at := None;
  day_start := now;
  low_mr_since := None;
|}.

(** Field updates. *)
Definition set_level (l : KillLevel) (r : string) (at_ : option instant)
    (k : KillSwitch) : KillSwitch :=
  mkKillSwitch (config k) l r at_ (daily_pnl k) (message_count_this_second k)
    (consecutive_errors k) (last_fill_at k) (day_start k) (low_mr_since k).
Definition set_pnl (p : dec) (d : instant) (k : KillSwitch) : KillSwitch :=
  mkKillSwitch (config k) (current_level k) (reason k) (activated_at k) p
    (message_count_this_second k) (consecutive_errors k) (last_fill_at k) d
    (low_mr_since k).
Definition set_msgs (n : Z) (k : KillSwitch) : KillSwitch :=
  mkKillSwitch (config k) (current_level k) (reason k) (activated_at k)
    (daily_pnl k) n (consecutive_errors k) (last_fill_at k) (day_start k)
    (low_mr_since k).
Definition set_errors (n : Z) (k : KillSwitch) : KillSwitch :=
  mkKillSwitch (config k) (current_level k) (reason k) (activated_at k)
    (daily_pnl k) (message_count_this_second k) n (last_fill_at k)
    (day_start k) (low_mr_since k).
Definition set_last_fill (t : instant) (k : KillSwitch) : KillSwitch :=
  mkKillSwitch (config k) (current_level k) (reason k) (activated_at k)
    (daily_pnl k) (message_count_this_second k) (consecutive_errors k)
    (Some t) (day_start k) (low_mr_since k).
Definition set_low_mr (t : option instant) (k : KillSwitch) : KillSwitch :=
  mkKillSwitch (config k) (current_level k) (reason k) (activated_at k)
    (daily_pnl k) (message_count_this_second k) (consecutive_errors k)
    (last_fill_at k) (day_start k) t.

(** Set level. Can only escalate. *)
Definition escalate (level : KillLevel) (r : string) (now : instant)
    (k : KillSwitch) : KillSwitch :=
  if level_ltb (current_level k) level then set_level level r (Some now) k else k.

Definition manual_trigger (level : KillLevel) (r : string) (now : instant)
    (k : KillSwitch) : KillSwitch :=
  set_level level ("MANUAL: " +:+ r) (Some now) k.

Definition reset (k : KillSwitch) : KillSwitch :=
  set_errors 0 (set_level Normal "" None k).

Definition update_pnl (pnl : dec) (now : instant) (k : KillSwitch) : KillSwitch :=
  let k :=
    if decide (date_of now = date_of (day_start k)) then k
    else set_pnl dec0 now k in
  let k := set_pnl pnl (day_start k) k in
  if dltb (daily_pnl k) (dneg (daily_loss_limit (config k))) then
    escalate CancelAll "daily loss limit breached" now k
  else if dltb (daily_pnl k) (dneg (daily_loss_warning (config k))) then
    escalate WidenSpreads "daily loss warning threshold" now k
  else k.

Definition update_position_value (value : dec) (now : instant)
    (k : KillSwitch) : KillSwitch :=
  if dltb (max_position_value (config k)) value then
    escalate StopNewOrders "max position value exceeded" now k
  else k.

Definition margin_reason (d : MarginGuardDecision) : string :=
  match d with
  | MgNormal => ""
  | MgWidenSpreads => "margin ratio elevated (>= widen_ratio)"
  | MgReduce =>
      "margin ratio high — engine reducing proactively (>= reduce_ratio)"
  | MgStopNewOrders => "margin ratio high (>= stop_ratio)"
  | MgCancelAll => "margin ratio critical (>= cancel_ratio) — pre-liquidation"
  | MgStale => "margin feed stale — venue data outage, widening pre-emptively"
  end.

Definition update_margin_ratio (d : MarginGuardDecision) (now : instant)
    (k : KillSwitch) : KillSwitch :=
  match kill_level d with
  | Some level =>
      match d with
      | MgNormal => k
      | _ => escalate level (margin_reason d) now k
      end
  | None => k
  end.

Definition update_market_resilience (score : dec) (now : instant)
    (k : KillSwitch) : KillSwitch :=
  if dltb score MR_LOW_THRESHOLD then
    let anchor := default now (low_mr_since k) in
    let k := set_low_mr (Some anchor) k in
    let elapsed := seconds_between now anchor in
    if (MR_SUSTAIN_SECS <=? elapsed)%Z && bool_decide (current_level k = Normal)
    then escalate WidenSpreads "market resilience sustained below threshold" now k
    else k
  else set_low_mr None k.

Definition on_message_sent (now : instant) (k : KillSwitch) : KillSwitch :=
  let k := set_msgs (wrap_u32 (message_count_this_second k + 1)) k in
  if (max_message_rate (config k) <? message_count_this_second k)%Z then
    escalate CancelAll "runaway algorithm detected — max message rate exceeded" now k
  else k.

Definition tick_second (now : instant) (k : KillSwitch) : KillSwitch :=
  let k := set_msgs 0 k in
  if (no_fill_timeout_secs (config k) =? 0)%Z then k
  else match last_fill_at k with
       | Some last_fill =>
           let elapsed := wrap_u64 (seconds_between now last_fill) in
           if (no_fill_timeout_secs (config k) <? elapsed)%Z then
             escalate WidenSpreads "no fills for extended period" now k
           else k
       | None => k
       end.

Definition on_fill (now : instant) (k : KillSwitch) : KillSwitch :=
  set_errors 0 (set_last_fill now k).

Definition on_error (now : instant) (k : KillSwitch) : KillSwitch :=
  let k := set_errors (wrap_u32 (consecutive_errors k + 1)) k in
  if (max_consecutive_errors (config k) <=? consecutive_errors k)%Z then
    escalate StopNewOrders "too many consecutive API errors" now k
  else k.

Definition allow_new_orders (k : KillSwitch) : bool :=
  level_ltb (current_level k) StopNewOrders.
Definition spread_multiplier (k : KillSwitch) : dec :=
  level_spread_multiplier (current_level k).
Definition size_multiplier (k : KillSwitch) : dec :=
  level_size_multiplier (current_level k).
End KillSwitch.

(** ** Runs

    The automatic inputs of the switch: everything but the operator's
    [manual_trigger] and [reset]. *)
Section Runs.
Context {D : Decimal} {C : Clock}.

Inductive Event :=
| EvPnl (pnl : dec)
| EvPosition (value : dec)
| EvMargin (d : MarginGuardDecision)
| EvResilience (score : dec)
| EvMessage
| EvSecond
| EvFill
| EvError.

Definition step (k : KillSwitch) (e : instant * Event) : KillSwitch :=
  let '(now, ev) := e in
  match ev with
  | EvPnl pnl => update_pnl pnl now k
  | EvPosition v => update_position_value v now k
  | EvMargin d => update_margin_ratio d now k
  | EvResilience s => update_market_resilience s now k
  | EvMessage => on_message_sent now k
  | EvSecond => tick_second now k
  | EvFill => on_fill now k
  | EvError => on_error now k
  end.

Definition run (k : KillSwitch) (es : list (instant * Event)) : KillSwitch :=
  fold_left step es k.

(** The level an input asks for in a given state: the contract the
    thresholds of the configuration give. *)
Definition demand (k : KillSwitch) (e : instant * Event) : KillLevel :=
  let '(now, ev) := e in
  match ev with
  | EvPnl pnl =>
      if dltb pnl (dneg (daily_loss_limit (config k))) then CancelAll
      else if dltb pnl (dneg (daily_loss_warning (config k))) then WidenSpreads
      else Normal
  | EvPosition v =>
      if dltb (max_position_value (config k)) v then StopNewOrders else Normal
  | EvMargin d => default Normal (kill_level d)
  | EvResilience s =>
      if dltb s MR_LOW_THRESHOLD &&
         (MR_SUSTAIN_SECS <=? seconds_between now (default now (low_mr_since k)))%Z
      then WidenSpreads else Normal
  | EvMessage =>
      if (max_message_rate (config k) <?
          wrap_u32 (message_count_this_second k + 1))%Z
      then CancelAll else Normal
  | EvSecond =>
      match last_fill_at k with
      | Some t =>
          if negb (no_fill_timeout_secs (config k) =? 0)%Z &&
             (no_fill_timeout_secs (config k) <? wrap_u64 (seconds_between now t))%Z
          then WidenSpreads else Normal
      | None => Normal
      end
  | EvFill => Normal
  | EvError =>
      if (max_consecutive_errors (config k) <=? wrap_u32 (consecutive_errors k + 1))%Z
      then StopNewOrders else Normal
  end.

(** The demands raised along a run. *)
Fixpoint demands (k : KillSwitch) (es : list (instant * Event)) : list KillLevel :=
  match es with
  | [] => []
  | e :: es' => demand k e :: demands (step k e) es'
  end.
End Runs.

Section Lemmas.
Context {D : Decimal} {C : Clock}.
Implicit Types k : KillSwitch.

Lemma level_escalate l r now k :
  current_level (escalate l r now k) = level_max (current_level k) l.
Proof. unfold escalate, level_max. by destruct (level_ltb _ _). Qed.

Lemma config_escalate l r now k : config (escalate l r now k) = config k.
Proof. unfold escalate. by destruct (level_ltb _ _). Qed.

Lemma low_mr_escalate l r now k : low_mr_since (escalate l r now k) = low_mr_since k.
Proof. unfold escalate. by destruct (level_ltb _ _). Qed.

Lemma msgs_escalate l r now k :
  message_count_this_second (escalate l r now k) = message_count_this_second k.
Proof. unfold escalate. by destruct (level_ltb _ _). Qed.

Lemma errors_escalate l r now k :
  consecutive_errors (escalate l r now k) = consecutive_errors k.
Proof. unfold escalate. by destruct (level_ltb _ _). Qed.

Lemma level_max_normal_r l : level_max l Normal = l.
Proof. by destruct l. Qed.
Lemma level_max_normal_l l : level_max Normal l = l.
Proof. by destruct l. Qed.
Lemma level_max_assoc a b c : level_max (level_max a b) c = level_max a (level_max b c).
Proof. by destruct a, b, c. Qed.
Lemma level_le_max_l a b : level_le a (level_max a b).
Proof. by destruct a, b. Qed.
Lemma level_le_max_r a b : level_le b (level_max a b).
Proof. by destruct a, b. Qed.
Lemma level_max_lub a b c : level_le a c → level_le b c → level_le (level_max a b) c.
Proof. unfold level_max. by destruct (level_ltb a b). Qed.
End Lemmas.

Create HintDb killswitch.
#[export] Hint Rewrite @level_escalate @config_escalate @low_mr_escalate
  @msgs_escalate @errors_escalate @level_max_normal_r @level_max_normal_l : killswitch.
#[export] Hint Resolve level_le_max_l level_le_max_r : killswitch.

(** Case analysis on every test of a handler, then the escalation equations. *)
Ltac ks_cases :=
  repeat (case_match; simpl; autorewrite with killswitch; simpl in *);
  simplify_eq; try done.

Section StepLemmas.
Context {D : Decimal} {C : Clock}.
Implicit Types k : KillSwitch.

Lemma config_step k e : config (step k e) = config k.
Proof.
  destruct e as [now []]; simpl;
    unfold update_pnl, update_position_value, update_margin_ratio,
      update_market_resilience, on_message_sent, tick_second, on_fill, on_error;
    ks_cases.
Qed.

Lemma level_step k e : current_level (step k e) = level_max (current_level k) (demand k e).
Proof.
  destruct e as [now []]; simpl;
    unfold update_pnl, update_position_value, update_margin_ratio,
      update_market_resilience, on_message_sent, tick_second, on_fill, on_error;
    try ks_cases.
  all: try (destruct (decide _)); simpl; ks_cases.
  all: try (destruct (current_level k) eqn:?; simpl in *; ks_cases).
  all: exfalso; bool_to_prop; intuition congruence.
Qed.

Lemma run_app k es es' : run k (es ++ es') = run (run k es) es'.
Proof. apply fold_left_app. Qed.

Lemma run_snoc k es e : run k (es ++ [e]) = step (run k es) e.
Proof. by rewrite run_app. Qed.

Lemma config_run k es : config (run k es) = config k.
Proof.
  revert k; induction es as [|e es IH]; intros k; [done|]; simpl.
  rewrite IH. apply config_step.
Qed.

Lemma level_run k es :
  current_level (run k es) = fold_left level_max (demands k es) (current_level k).
Proof.
  revert k; induction es as [|e es IH]; intros k; [done|]; simpl.
  by rewrite IH, level_step.
Qed.

Lemma level_run_ge k es : level_le (current_level k) (current_level (run k es)).
Proof.
  revert k; induction es as [|e es IH]; intros k; simpl; [done|].
  etrans; [|apply IH]. rewrite level_step. auto with killswitch.
Qed.

Lemma allow_new_orders_le k : allow_new_orders k = true ↔ level_le (current_level k) WidenSpreads.
Proof.
  unfold allow_new_orders, level_ltb, level_le. destruct (current_level k); simpl;
    split; (done || lia).
Qed.

Lemma allow_new_orders_false k l :
  level_le StopNewOrders l → level_le l (current_level k) → allow_new_orders k = false.
Proof.
  unfold allow_new_orders, level_ltb, level_le. simpl.
  destruct (current_level k), l; simpl; (done || lia).
Qed.
End StepLemmas.

(** ** Properties *)
Section Properties.
Context {D : Decimal} {C : Clock}.
Implicit Types k : KillSwitch.

(** C1: the automatic inputs implement a max-accumulator: after any run the
    level is the maximum of the starting level and of the levels the
    configured thresholds demanded along the run, so no input can lower it. *)
Theorem run_refines_max k es :
  current_level (run k es) = fold_left level_max (demands k es) (current_level k) ∧
  level_le (current_level k) (current_level (run k es)) ∧
  config (run k es) = config k.
Proof. auto using level_run, level_run_ge, config_run. Qed.

(** Once the profit fell below the loss limit, or the position above its
    cap, or the margin guard said stop or cancel, every later state of an
    automatic run refuses new orders and sizes every quote at zero. *)
Theorem breach_stops_quoting k now ev es
  (Hbreach : level_le StopNewOrders (demand k (now, ev))) :
  let k' := run (step k (now, ev)) es in
  allow_new_orders k' = false ∧ size_multiplier k' = dlit 0 0.
Proof.
  intros k'.
  assert (Hge : level_le StopNewOrders (current_level k')).
  { etrans; [exact Hbreach|]. etrans; [|apply level_run_ge].
    rewrite level_step. auto with killswitch. }
  split; [by eapply allow_new_orders_false|].
  unfold size_multiplier, level_size_multiplier.
  destruct (current_level k'); unfold level_le in Hge; simpl in Hge; (done || lia).
Qed.

(** The switch lets orders through exactly while the size multiplier is
    not zero. *)
Theorem allow_new_orders_iff_size `{!DecimalLaws D} k :
  allow_new_orders k = true ↔ size_multiplier k ≠ dlit 0 0.
Proof.
  assert (H1 : dlit 1 0 ≠ dlit 0 0).
  { intros E. pose proof dec0_val as H0. pose proof dec1_val as H1.
    unfold dec0, dec1 in *. rewrite E in H1. lra. }
  assert (H5 : dlit 5 1 ≠ dlit 0 0).
  { intros E. pose proof dec0_val as H0. unfold dec0 in H0.
    assert (fits (scaled 5 1)) as Hf by (exists 5%Z, 1; split; [done|]; split; [lia|reflexivity]).
    apply dlit_val in Hf. rewrite E in Hf. change (scaled 5 1) with (5 # 10)%Q in Hf. lra. }
  rewrite allow_new_orders_le. unfold size_multiplier, level_le.
  destruct (current_level k); simpl; split; (done || lia || congruence).
Qed.

Definition message_burst (now : instant) (n : nat) : list (instant * Event) :=
  replicate n (now, EvMessage).

Lemma burst_S now n : message_burst now (S n) = message_burst now n ++ [(now, EvMessage)].
Proof. apply replicate_S_end. Qed.

Lemma burst_count k now n
  (Hw : (0 ≤ message_count_this_second k)%Z)
  (Hmax : (message_count_this_second k + Z.of_nat n ≤ u32_max)%Z) :
  message_count_this_second (run k (message_burst now n)) =
  (message_count_this_second k + Z.of_nat n)%Z.
Proof.
  unfold message_burst. revert k Hw Hmax. induction n as [|n IH]; intros k Hw Hmax.
  { simpl. lia. }
  assert (E : message_count_this_second (on_message_sent now k) =
              (message_count_this_second k + 1)%Z).
  { unfold on_message_sent. simpl.
    rewrite wrap_u32_id by (unfold is_u32; lia).
    destruct (_ <? _)%Z; autorewrite with killswitch; done. }
  simpl. unfold run in *. simpl. rewrite IH; rewrite E; lia.
Qed.

(** In a second that starts at count zero the message guard is exact:
    [max_message_rate] messages leave the level alone and the next one
    raises it to cancel-all at least. *)
Theorem runaway_guard_exact k now
  (Hcount : message_count_this_second k = 0%Z)
  (Hrate : (0 ≤ max_message_rate (config k) < u32_max)%Z) :
  let n := Z.to_nat (max_message_rate (config k)) in
  current_level (run k (message_burst now n)) = current_level k ∧
  level_le CancelAll (current_level (run k (message_burst now (S n)))).
Proof.
  intros n. split.
  - assert (Hn : (Z.of_nat n ≤ max_message_rate (config k))%Z) by lia. clearbody n.
    induction n as [|n IH]; [done|].
    rewrite burst_S, run_snoc, level_step. simpl. rewrite config_run.
    rewrite burst_count by lia. rewrite Hcount.
    rewrite wrap_u32_id by (unfold is_u32; lia).
    replace (_ <? _)%Z with false by lia.
    rewrite level_max_normal_r. apply IH. lia.
  - rewrite burst_S, run_snoc, level_step. simpl. rewrite config_run.
    rewrite burst_count by lia. rewrite Hcount.
    rewrite wrap_u32_id by (unfold is_u32; lia).
    replace (_ <? _)%Z with true by lia. auto with killswitch.
Qed.

Lemma low_mr_step k now s :
  dltb s MR_LOW_THRESHOLD = true →
  low_mr_since (update_market_resilience s now k) = Some (default now (low_mr_since k)).
Proof. intros H. unfold update_market_resilience. rewrite H. ks_cases. Qed.

(** Market resilience that stays low from one reading to a reading at
    least three seconds later widens the spreads, whatever the low readings
    between; a run of resilience readings alone never asks for more. *)
Theorem low_resilience_widens k t0 (readings : list (instant * dec)) t1 s1
  (Hfresh : low_mr_since k = None)
  (Hlow : ∀ x : instant * dec, x ∈ readings → dltb (snd x) MR_LOW_THRESHOLD = true)
  (Hhead : fst <$> head readings = Some t0)
  (Hlast : dltb s1 MR_LOW_THRESHOLD = true)
  (Hlong : (MR_SUSTAIN_SECS ≤ seconds_between t1 t0)%Z) :
  let es := (λ x : instant * dec, (fst x, EvResilience (snd x))) <$> (readings ++ [(t1, s1)]) in
  level_le WidenSpreads (current_level (run k es)) ∧
  level_le (current_level (run k es)) (level_max (current_level k) WidenSpreads).
Proof.
  intros es. subst es. rewrite fmap_app, run_app. split.
  - assert (Hanchor : low_mr_since
              (run k ((λ x : instant * dec, (fst x, EvResilience (snd x))) <$> readings)) = Some t0).
    { destruct readings as [|[u s] rs]; [done|]. simpl in *. simplify_eq.
      assert (E0 : low_mr_since (update_market_resilience s t0 k) = Some t0).
      { rewrite low_mr_step by (apply (Hlow (t0, s)); left). by rewrite Hfresh. }
      assert (Hrs : ∀ x : instant * dec, x ∈ rs → dltb (snd x) MR_LOW_THRESHOLD = true)
        by (intros x Hx; apply Hlow; by right).
      generalize dependent (update_market_resilience s t0 k). clear -Hrs.
      induction rs as [|[u s'] rs IH]; intros k' E0; [done|]. simpl.
      apply IH; [intros x Hx; apply Hrs; by right|].
      rewrite low_mr_step by (apply (Hrs (u, s')); left). by rewrite E0. }
    change (run ?k' _) with (step k' (t1, EvResilience s1)).
    rewrite level_step. simpl. rewrite Hanchor, Hlast. simpl.
    replace (_ <=? _)%Z with true by lia. auto with killswitch.
  - rewrite <- run_app, <- fmap_app. generalize (readings ++ [(t1, s1)]).
    clear. intros l.
    enough (H : ∀ m, level_le (current_level m) (level_max (current_level k) WidenSpreads) →
      level_le (current_level (run m ((λ x : instant * dec, (fst x, EvResilience (snd x))) <$> l)))
        (level_max (current_level k) WidenSpreads)) by auto with killswitch.
    induction l as [|[t s] l IH]; intros m Hm; [done|]. simpl. apply IH.
    change (update_market_resilience s t m) with (step m (t, EvResilience s)).
    rewrite level_step. apply level_max_lub; [done|]. simpl.
    destruct (_ && _); [auto with killswitch|].
    unfold level_le. simpl. destruct (level_max _ _); simpl; lia.
Qed.

(** The calendar-day test of [update_pnl] has no effect on the loss
    check: the level reached and the profit stored depend on the reported
    value only, whatever the day on which tracking started. The check is
    daily only if the caller reports a daily value. *)
Theorem update_pnl_ignores_day k pnl now d :
  let k' := set_pnl (daily_pnl k) d k in
  current_level (update_pnl pnl now k') = current_level (update_pnl pnl now k) ∧
  daily_pnl (update_pnl pnl now k) = pnl.
Proof.
  intros k'. split.
  - change (update_pnl pnl now ?m) with (step m (now, EvPnl pnl)).
    by rewrite !level_step.
  - unfold update_pnl.
    destruct (decide _); simpl; (destruct (dltb _ _); [|destruct (dltb _ _)]); simpl;
      unfold escalate; simpl; try (destruct (level_ltb _ _)); done.
Qed.
End Properties.

(** ** Witnesses *)
Definition demo_switch : KillSwitch := new KillSwitchConfig_default (sec 0).

Lemma breach_stops_quoting_witness :
  let k' := run (step demo_switch (sec 5, EvPnl (dlit (-1001) 0))) [(sec 6, EvFill)] in
  allow_new_orders k' = false ∧ size_multiplier k' = dlit 0 0.
Proof.
  apply (breach_stops_quoting demo_switch (sec 5) (EvPnl (dlit (-1001) 0)) [(sec 6, EvFill)]).
  vm_compute. discriminate.
Defined.

Lemma allow_new_orders_iff_size_witness :
  allow_new_orders demo_switch = true ↔ size_multiplier demo_switch ≠ dlit 0 0.
Proof. apply (allow_new_orders_iff_size demo_switch). Defined.

Lemma runaway_guard_exact_witness :
  let n := Z.to_nat 100 in
  current_level (run demo_switch (message_burst (sec 7) n)) = Normal ∧
  level_le CancelAll (current_level (run demo_switch (message_burst (sec 7) (S n)))).
Proof.
  apply (runaway_guard_exact demo_switch (sec 7)); [reflexivity|].
  vm_compute. split; [discriminate | reflexivity].
Defined.

Lemma low_resilience_widens_witness :
  let es := (λ x : @instant sec_clock * dec, (fst x, EvResilience (snd x))) <$>
    ([(sec 10, dlit 2 1); (sec 12, dlit 1 1)] ++ [(sec 13, dlit 25 2)]) in
  level_le WidenSpreads (current_level (run demo_switch es)) ∧
  level_le (current_level (run demo_switch es)) (level_max (current_level demo_switch) WidenSpreads).
Proof.
  apply (low_resilience_widens demo_switch (sec 10)
    [(sec 10, dlit 2 1); (sec 12, dlit 1 1)] (sec 13) (dlit 25 2)).
  - reflexivity.
  - intros x [->|[->|[]%not_elem_of_nil]%elem_of_cons]%elem_of_cons; reflexivity.
  - reflexivity.
  - reflexivity.
  - vm_compute. discriminate.
Defined.
