(* ===== verification/OrderManager.v ===== *)
(** * Order tracking and diffing ([crates/engine/src/order_manager.rs])

    The local book of live orders, its price index, and the pure
    reconciliation of desired quotes against it. The methods that talk to the
    venue are in [OrderExec.v]. *)
From stdpp Require Import base gmap sets list strings sorting.
From Stdlib Require Import ZArith QArith Lqa Lia.
From S2P Require Import Prelude Decimal Types.
Local Open Scope nat_scope.

Section OrderManager.
Context {D : Decimal} {C : Clock} {I : HashMapIter}.

Record AmendPlanEntry := mkAmendPlanEntry {
  ap_order_id : OrderId;
  ap_side : Side;
  old_price : dec;
  new_price : dec;
  ap_qty : dec;
}.

Record OrderDiffPlan := mkOrderDiffPlan {
  to_cancel : list OrderId;
  to_amend : list AmendPlanEntry;
  to_place : list Quote;
}.

(** The lifecycle events fed to the surveillance tracker. *)
Inductive SurveillanceEvent :=
| OrderPlaced (order_id : OrderId) (symbol : string) (side : Side)
    (price qty : dec) (ts : instant)
| OrderCancelled (order_id : OrderId) (symbol : string) (ts : instant).

Record OrderManager := mkOrderManager {
  live_orders : gmap OrderId LiveOrder;
  price_index : gmap (Side * dec) OrderId;
  paper_mode : bool;
  surveillance : option (list SurveillanceEvent);
}.

Definition new : OrderManager := mkOrderManager ∅ ∅ false None.
Definition new_paper : OrderManager := mkOrderManager ∅ ∅ true None.

(** [feed_surveillance]: no-op unless a tracker is attached. *)
Definition feed_surveillance (ev : SurveillanceEvent) (om : OrderManager) : OrderManager :=
  mkOrderManager (live_orders om) (price_index om) (paper_mode om)
    ((λ log, log ++ [ev]) <$> surveillance om).

Definition attach_surveillance (tracker : list SurveillanceEvent) (om : OrderManager) :
    OrderManager :=
  mkOrderManager (live_orders om) (price_index om) (paper_mode om) (Some tracker).

Definition set_live (l : gmap OrderId LiveOrder) (om : OrderManager) : OrderManager :=
  mkOrderManager l (price_index om) (paper_mode om) (surveillance om).
Definition set_index (x : gmap (Side * dec) OrderId) (om : OrderManager) : OrderManager :=
  mkOrderManager (live_orders om) x (paper_mode om) (surveillance om).

Definition live_count (om : OrderManager) : nat := size (live_orders om).
Definition live_order_ids (om : OrderManager) : list OrderId := hm_keys (live_orders om).

Definition remaining_qty (o : LiveOrder) : dec := dsub (lo_qty o) (lo_filled_qty o).

(** Total value locked in open orders. *)
Definition locked_value_quote (om : OrderManager) : dec :=
  dsum ((λ o, dmul (lo_price o) (remaining_qty o)) <$> hm_values (live_orders om)).

Definition status_label (s : OrderStatus) : string :=
  match s with
  | Open => "live"
  | PartiallyFilled => "live"
  | Filled => "filled"
  | Cancelled => "cancelling"
  | Rejected => "rejected"
  end.

Definition live_orders_snapshot (om : OrderManager) :
    list (OrderId * Side * dec * dec * string) :=
  (λ o, (lo_order_id o, lo_side o, lo_price o, remaining_qty o, status_label (lo_status o)))
    <$> hm_values (live_orders om).

(** ** Local bookkeeping *)

Definition track_order (now : instant) (order : LiveOrder) (om : OrderManager) : OrderManager :=
  let om := feed_surveillance
    (OrderPlaced (lo_order_id order) (lo_symbol order) (lo_side order)
       (lo_price order) (lo_qty order) now) om in
  let om := set_index
    (<[(lo_side order, lo_price order) := lo_order_id order]> (price_index om)) om in
  set_live (<[lo_order_id order := order]> (live_orders om)) om.

Definition remove_order (now : instant) (order_id : OrderId) (om : OrderManager) : OrderManager :=
  match live_orders om !! order_id with
  | Some order =>
      let om := set_live (delete order_id (live_orders om)) om in
      let om := feed_surveillance (OrderCancelled order_id (lo_symbol order) now) om in
      set_index (delete (lo_side order, lo_price order) (price_index om)) om
  | None => om
  end.

Definition with_price (p : dec) (o : LiveOrder) : LiveOrder :=
  mkLiveOrder (lo_order_id o) (lo_symbol o) (lo_side o) p (lo_qty o)
    (lo_filled_qty o) (lo_status o) (lo_created_at o).
Definition with_filled (f : dec) (o : LiveOrder) : LiveOrder :=
  mkLiveOrder (lo_order_id o) (lo_symbol o) (lo_side o) (lo_price o) (lo_qty o)
    f (lo_status o) (lo_created_at o).

(** The order keeps its id; its index slot moves to the new price. *)
Definition reprice_order (order_id : OrderId) (new_price : dec) (om : OrderManager) : OrderManager :=
  match live_orders om !! order_id with
  | None => om
  | Some order =>
      let side := lo_side order in
      let old_price := lo_price order in
      let om := set_live (<[order_id := with_price new_price order]> (live_orders om)) om in
      let om := set_index (delete (side, old_price) (price_index om)) om in
      set_index (<[(side, new_price) := order_id]> (price_index om)) om
  end.

(** Update or remove the filled order. *)
Definition on_fill (now : instant) (order_id : OrderId) (filled_qty : dec)
    (om : OrderManager) : OrderManager :=
  match live_orders om !! order_id with
  | None => om
  | Some order =>
      let order := with_filled (dadd (lo_filled_qty order) filled_qty) order in
      let om := set_live (<[order_id := order]> (live_orders om)) om in
      if dleb (lo_qty order) (lo_filled_qty order)
      then remove_order now (lo_order_id order) om
      else om
  end.

(** ** Reconciliation *)

(** The desired levels at rounded prices; a later pair overwrites an earlier
    one at the same side and price. *)
Definition add_desired (product : ProductSpec) (m : gmap (Side * dec) dec)
    (pair : QuotePair) : gmap (Side * dec) dec :=
  let m := match bid pair with
           | Some b => <[(Buy, round_price product (q_price b)) := q_qty b]> m
           | None => m
           end in
  match ask pair with
  | Some a => <[(Sell, round_price product (q_price a)) := q_qty a]> m
  | None => m
  end.

Definition desired_prices (product : ProductSpec) (desired : list QuotePair) :
    gmap (Side * dec) dec :=
  fold_left (add_desired product) desired ∅.

(** A stale entry is a side, a price, a remaining quantity and an order id;
    a new quote a side, a price and a quantity. *)
Definition Stale : Type := (Side * dec) * (dec * OrderId).
Definition NewQuote : Type := (Side * dec) * dec.

Definition side_key (s : Side) : Z := match s with Buy => 0 | Sell => 1 end.

Definition key_leb (a b : Side * dec) : bool :=
  if (side_key a.1 =? side_key b.1)%Z then dleb a.2 b.2
  else (side_key a.1 <? side_key b.1)%Z.

Definition stale_of (om : OrderManager) (want : gmap (Side * dec) dec)
    (e : (Side * dec) * OrderId) : option Stale :=
  let '(k, id) := e in
  match want !! k with
  | Some _ => None
  | None =>
      match live_orders om !! id with
      | None => None
      | Some order => Some (k, (remaining_qty order, id))
      end
  end.

Definition stale_list (om : OrderManager) (want : gmap (Side * dec) dec) : list Stale :=
  sort_by (λ a b, key_leb a.1 b.1) (omap (stale_of om want) (hm_iter (price_index om))).

Definition new_of (om : OrderManager) (e : (Side * dec) * dec) : option NewQuote :=
  match price_index om !! e.1 with Some _ => None | None => Some e end.

Definition new_list (om : OrderManager) (want : gmap (Side * dec) dec) : list NewQuote :=
  sort_by (λ a b, key_leb a.1 b.1) (omap (new_of om) (hm_iter want)).

(** The inner loop: the nearest stale entry not yet consumed, on the same side
    with the same quantity and within [max_distance]. *)
Fixpoint find_best (i : nat) (stale : list Stale) (consumed : list bool)
    (q : NewQuote) (max_distance : dec)
    (best_idx : option nat) (best_distance : dec) : option nat :=
  match stale with
  | [] => best_idx
  | ((s_side, s_price), (s_qty, _)) :: stale' =>
      let '((side, new_price), new_qty) := q in
      if default false (consumed !! i) || negb (bool_decide (s_side = side))
         || negb (deqb s_qty new_qty)
      then find_best (S i) stale' consumed q max_distance best_idx best_distance
      else
        let distance := dabs (dsub new_price s_price) in
        if dleb distance max_distance && dltb distance best_distance
        then find_best (S i) stale' consumed q max_distance (Some i) distance
        else find_best (S i) stale' consumed q max_distance best_idx best_distance
  end.

(** The state of the pairing pass: the consumed marks, the amends so far and
    the quotes that were kept. *)
Record Pairing := mkPairing {
  consumed_stale : list bool;
  pr_amend : list AmendPlanEntry;
  pr_kept : list NewQuote;
}.

Definition pair_quote (stale : list Stale) (max_distance : dec)
    (st : Pairing) (q : NewQuote) : Pairing :=
  match find_best 0 stale (consumed_stale st) q max_distance None
          (dadd max_distance dec1) with
  | Some idx =>
      match stale !! idx with
      | Some ((_, old_price), (qty, order_id)) =>
          mkPairing (<[idx := true]> (consumed_stale st))
            (pr_amend st ++ [mkAmendPlanEntry order_id q.1.1 old_price q.1.2 qty])
            (pr_kept st)
      | None => st  (* unreachable: [idx] comes from the scan of [stale] *)
      end
  | None => mkPairing (consumed_stale st) (pr_amend st) (pr_kept st ++ [q])
  end.

(** Drop the stale entries that were paired. *)
Fixpoint drop_consumed (stale : list Stale) (consumed : list bool) : list Stale :=
  match stale, consumed with
  | s :: stale', c :: consumed' =>
      if c then drop_consumed stale' consumed' else s :: drop_consumed stale' consumed'
  | _, _ => []
  end.

Definition to_quote (q : NewQuote) : Quote := mkQuote q.1.1 q.1.2 q.2.

Definition diff_orders (om : OrderManager) (desired : list QuotePair)
    (product : ProductSpec) (amend_epsilon_ticks : Z) : OrderDiffPlan :=
  let want := desired_prices product desired in
  let stale := stale_list om want in
  let new_quotes := new_list om want in
  if (0 <? amend_epsilon_ticks)%Z then
    let max_distance := dmul (tick_size product) (dlit amend_epsilon_ticks 0) in
    let st := fold_left (pair_quote stale max_distance) new_quotes
                (mkPairing (replicate (length stale) false) [] []) in
    mkOrderDiffPlan ((λ s, s.2.2) <$> drop_consumed stale (consumed_stale st))
      (pr_amend st) (to_quote <$> pr_kept st)
  else
    mkOrderDiffPlan ((λ s, s.2.2) <$> stale) [] (to_quote <$> new_quotes).

(** ** Paper fills *)

(** A taker trade crosses the resting orders on the other side. *)
Definition crosses (trade_price : dec) (taker_side : Side) (o : LiveOrder) : bool :=
  match taker_side, lo_side o with
  | Buy, Sell => dleb (lo_price o) trade_price
  | Sell, Buy => dleb trade_price (lo_price o)
  | _, _ => false
  end.

(** One candidate of the fill loop; [ctr] is the static trade-id counter. *)
Definition fill_candidate (now : instant) (st : OrderManager * Z * list Fill)
    (c : OrderId * dec) : OrderManager * Z * list Fill :=
  let '(om, ctr, fills) := st in
  let '(id, fill_price) := c in
  match live_orders om !! id with
  | Some order =>
      let om := set_live (delete id (live_orders om)) om in
      let om := set_index (delete (lo_side order, lo_price order) (price_index om)) om in
      (om, wrap_u64 (ctr + 1),
        fills ++ [mkFill ctr (lo_order_id order) (lo_symbol order) (lo_side order)
                    fill_price (remaining_qty order) true now])
  | None => st
  end.

Definition paper_match_trade_filtered (now : instant) (trade_price : dec)
    (taker_side : Side) (should_fill : OrderId → option dec)
    (om : OrderManager) (ctr : Z) : OrderManager * Z * list Fill :=
  if negb (paper_mode om) then (om, ctr, [])
  else
    let candidates :=
      omap (λ o, (λ p, (lo_order_id o, p)) <$> should_fill (lo_order_id o))
        (filter (λ o, crosses trade_price taker_side o = true) (hm_values (live_orders om))) in
    fold_left (fill_candidate now) candidates (om, ctr, []).

Definition paper_match_trade (now : instant) (trade_price : dec) (taker_side : Side)
    (om : OrderManager) (ctr : Z) : OrderManager * Z * list Fill :=
  let prices : gmap OrderId dec :=
    hm_collect ((λ o, (lo_order_id o, lo_price o)) <$> hm_values (live_orders om)) in
  paper_match_trade_filtered now trade_price taker_side (λ id, prices !! id) om ctr.
End OrderManager.

(** ** The index invariant

    Every entry is filed under its own id, and the price index is exactly the
    inverse of the live orders: one order per side and price. *)
Section Invariant.
Context {D : Decimal} {L : DecimalLaws D} {C : Clock} {I : HashMapIter}.
Implicit Types (om : OrderManager) (o : LiveOrder).

Definition level o : Side * dec := (lo_side o, lo_price o).

Record wf om : Prop := {
  wf_id id o : live_orders om !! id = Some o → lo_order_id o = id;
  wf_index k id :
    price_index om !! k = Some id ↔ ∃ o, live_orders om !! id = Some o ∧ level o = k;
}.

Lemma wf_new : wf new.
Proof.
  split; simpl; [by intros ??; rewrite lookup_empty|].
  intros k id. rewrite !lookup_empty. split; [done|]. by intros (? & ? & _).
Qed.

Lemma wf_new_paper : wf new_paper.
Proof. destruct wf_new as [H1 H2]. by split. Qed.

(** At most one live order per level. *)
Lemma wf_level_inj om id1 id2 o1 o2 :
  wf om → live_orders om !! id1 = Some o1 → live_orders om !! id2 = Some o2 →
  level o1 = level o2 → id1 = id2.
Proof.
  intros Hwf H1 H2 Hl.
  assert (price_index om !! level o1 = Some id1) by (apply wf_index; eauto).
  assert (price_index om !! level o1 = Some id2) by (apply wf_index; eauto).
  congruence.
Qed.

Lemma index_track now o om :
  price_index (track_order now o om) = <[level o := lo_order_id o]> (price_index om).
Proof. done. Qed.
Lemma live_track now o om :
  live_orders (track_order now o om) = <[lo_order_id o := o]> (live_orders om).
Proof. done. Qed.

Lemma live_remove now id om : live_orders (remove_order now id om) = delete id (live_orders om).
Proof.
  unfold remove_order. destruct (live_orders om !! id) eqn:E; simpl; [done|].
  by rewrite delete_id.
Qed.

Lemma index_remove now id o om :
  live_orders om !! id = Some o →
  price_index (remove_order now id om) = delete (level o) (price_index om).
Proof. intros H. unfold remove_order. by rewrite H. Qed.

Lemma remove_absent now id om : live_orders om !! id = None → remove_order now id om = om.
Proof. intros H. unfold remove_order. by rewrite H. Qed.

Lemma wf_track now o om :
  wf om → live_orders om !! lo_order_id o = None → price_index om !! level o = None →
  wf (track_order now o om).
Proof.
  intros [Hid Hix] Hfresh Hfree. split.
  - intros id o'. rewrite live_track. intros [[<- <-]|[_ H]]%lookup_insert_Some; eauto.
  - intros k id. rewrite index_track, live_track. split.
    + intros [[<- <-]|[Hne (o' & H & <-)%Hix]]%lookup_insert_Some.
      * exists o. by rewrite lookup_insert_eq.
      * exists o'. rewrite lookup_insert_ne; [done|]. congruence.
    + intros (o' & [[<- <-]|[Hne H]]%lookup_insert_Some & <-).
      * by rewrite lookup_insert_eq.
      * assert (price_index om !! level o' = Some id) by (apply Hix; eauto).
        rewrite lookup_insert_ne; congruence.
Qed.

Lemma wf_delete om om' id o :
  wf om → live_orders om !! id = Some o →
  live_orders om' = delete id (live_orders om) →
  price_index om' = delete (level o) (price_index om) → wf om'.
Proof.
  intros Hwf E Hl' Hx'. pose proof Hwf as [Hid Hix]. split.
  - intros id' o'. rewrite Hl'. intros [_ H]%lookup_delete_Some. eauto.
  - intros k id'. rewrite Hl', Hx'. split.
    + intros [Hne (o' & H & <-)%Hix]%lookup_delete_Some. exists o'.
      rewrite lookup_delete_ne; [done|]. congruence.
    + intros (o' & [Hne H]%lookup_delete_Some & <-).
      rewrite lookup_delete_ne; [apply Hix; eauto|].
      intros Hl. destruct Hne. by eapply wf_level_inj.
Qed.

Lemma wf_remove now id om : wf om → wf (remove_order now id om).
Proof.
  intros Hwf. destruct (live_orders om !! id) as [o|] eqn:E;
    [|by rewrite remove_absent].
  eapply wf_delete; eauto using live_remove, index_remove.
Qed.

Lemma live_reprice id o p om :
  live_orders om !! id = Some o →
  live_orders (reprice_order id p om) = <[id := with_price p o]> (live_orders om).
Proof. intros H. unfold reprice_order. by rewrite H. Qed.

Lemma index_reprice id o p om :
  live_orders om !! id = Some o →
  price_index (reprice_order id p om) =
    <[(lo_side o, p) := id]> (delete (level o) (price_index om)).
Proof. intros H. unfold reprice_order. by rewrite H. Qed.

Lemma wf_reprice id p om o :
  wf om → live_orders om !! id = Some o → price_index om !! (lo_side o, p) = None →
  wf (reprice_order id p om).
Proof.
  intros Hwf E Hfree. pose proof Hwf as [Hid Hix]. split.
  - intros id' o'. rewrite (live_reprice _ o) by done.
    intros [[<- <-]|[_ H]]%lookup_insert_Some; simpl; eauto.
  - intros k id'. rewrite (live_reprice _ o), (index_reprice _ o) by done. split.
    + intros [[<- <-]|[Hne [Hne' (o' & H & <-)%Hix]%lookup_delete_Some]]%lookup_insert_Some.
      * exists (with_price p o). by rewrite lookup_insert_eq.
      * exists o'. rewrite lookup_insert_ne; [done|]. congruence.
    + intros (o' & [[<- <-]|[Hne H]]%lookup_insert_Some & <-).
      * by rewrite lookup_insert_eq.
      * assert (price_index om !! level o' = Some id') by (apply Hix; eauto).
        rewrite lookup_insert_ne by congruence.
        rewrite lookup_delete_ne; [done|]. intros Hl. destruct Hne.
        by eapply wf_level_inj.
Qed.

Lemma wf_same_level om id o o' :
  wf om → live_orders om !! id = Some o → lo_order_id o' = lo_order_id o → level o' = level o →
  wf (set_live (<[id := o']> (live_orders om)) om).
Proof.
  intros [Hid Hix] E Ho Hl. split; simpl.
  - intros id' o''. intros [[<- <-]|[_ H]]%lookup_insert_Some; [|eauto].
    rewrite Ho. eauto.
  - intros k id'. rewrite Hix. split.
    + intros (o1 & H & <-). destruct (decide (id' = id)) as [->|Hne].
      * exists o'. rewrite lookup_insert_eq. split; [done|]. congruence.
      * exists o1. by rewrite lookup_insert_ne.
    + intros (o1 & [[<- <-]|[Hne H]]%lookup_insert_Some & <-); eauto.
Qed.

Lemma wf_on_fill now id q om : wf om → wf (on_fill now id q om).
Proof.
  intros Hwf. unfold on_fill. destruct (live_orders om !! id) as [o|] eqn:E; [|done].
  assert (wf (set_live
    (<[id:=with_filled (dadd (lo_filled_qty o) q) o]> (live_orders om)) om))
    by by eapply wf_same_level.
  case_match; [by apply wf_remove | done].
Qed.

Lemma wf_fill_candidate now st c : wf st.1.1 → wf (fill_candidate now st c).1.1.
Proof.
  destruct st as [[om ctr] fills], c as [id p]. simpl. intros Hwf.
  destruct (live_orders om !! id) as [o|] eqn:E; simpl; [|done].
  by eapply wf_delete.
Qed.

Lemma wf_paper_match now p side f om ctr :
  wf om → wf (paper_match_trade_filtered now p side f om ctr).1.1.
Proof.
  unfold paper_match_trade_filtered. case_match; [done|]. intros Hwf.
  generalize (omap (λ o, (λ p0, (lo_order_id o, p0)) <$> f (lo_order_id o))
    (filter (λ o, crosses p side o = true) (hm_values (live_orders om)))) as cs.
  intros cs. assert (Hw : wf (om, ctr, @nil Fill).1.1) by done.
  revert Hw. generalize (om, ctr, @nil Fill) as st. clear.
  induction cs as [|c cs IH]; intros st Hw; simpl; [done|].
  apply IH. by apply wf_fill_candidate.
Qed.
End Invariant.

(** ** The reconciliation plan *)
Section Diff.
Context {D : Decimal} {L : DecimalLaws D} {C : Clock}.
Implicit Types (om : OrderManager) (o : LiveOrder).

Lemma key_leb_total a b : key_leb a b = true ∨ key_leb b a = true.
Proof.
  unfold key_leb. destruct (Z.eqb_spec (side_key a.1) (side_key b.1)) as [E|E].
  - rewrite E, Z.eqb_refl. destruct (dle_lt_cases a.2 b.2) as [?%dleb_le|H]; [auto|].
    right. apply dleb_le. unfold dle, dlt in *. lra.
  - destruct (Z.eqb_spec (side_key b.1) (side_key a.1)); [congruence|]. lia.
Qed.

Lemma key_leb_trans a b c : key_leb a b = true → key_leb b c = true → key_leb a c = true.
Proof.
  unfold key_leb.
  destruct (Z.eqb_spec (side_key a.1) (side_key b.1)) as [E1|E1],
    (Z.eqb_spec (side_key b.1) (side_key c.1)) as [E2|E2]; intros H1 H2.
  - rewrite E1, E2, Z.eqb_refl. dec_order.
  - rewrite E1. destruct (Z.eqb_spec (side_key b.1) (side_key c.1)); [lia|done].
  - rewrite <- E2. destruct (Z.eqb_spec (side_key a.1) (side_key b.1)); [lia|done].
  - destruct (Z.eqb_spec (side_key a.1) (side_key c.1)); lia.
Qed.

Lemma key_leb_antisym a b : key_leb a b = true → key_leb b a = true → a = b.
Proof.
  unfold key_leb. destruct a as [s1 p1], b as [s2 p2]; simpl.
  destruct (Z.eqb_spec (side_key s1) (side_key s2)) as [E|E].
  - rewrite E, Z.eqb_refl. intros H1%dleb_le H2%dleb_le.
    f_equal; [by destruct s1, s2|]. by apply dle_antisym.
  - destruct (Z.eqb_spec (side_key s2) (side_key s1)); [congruence|]. lia.
Qed.

(** Sorting by a key that separates the entries forgets the iteration order. *)
Lemma sort_by_key_unique {A} (f : A → Side * dec) (l1 l2 : list A) :
  l1 ≡ₚ l2 → NoDup (f <$> l1) →
  sort_by (λ a b, key_leb (f a) (f b)) l1 = sort_by (λ a b, key_leb (f a) (f b)) l2.
Proof.
  intros Hp Hnd. apply sort_by_unique; [intros; apply key_leb_total| |done|].
  - intros x y z. apply key_leb_trans.
  - intros x y Hx Hy H1 H2. pose proof (key_leb_antisym _ _ H1 H2) as E.
    apply list_elem_of_lookup in Hx as [i Hi], Hy as [j Hj].
    assert (i = j) as ->; [|congruence].
    apply (NoDup_lookup (f <$> l1) i j (f x)); [done| |]; rewrite list_lookup_fmap.
    + by rewrite Hi.
    + rewrite Hj. simpl. by rewrite E.
Qed.

Lemma omap_key_NoDup {K V B} `{Countable K} (I : HashMapIter) (m : gmap K V)
    (g : K * V → option B) (f : B → K) :
  (∀ e b, g e = Some b → f b = e.1) → NoDup (f <$> omap g (hm_iter m)).
Proof.
  intros Hg. pose proof (hm_keys_NoDup m) as Hnd. unfold hm_keys in Hnd.
  induction (hm_iter m) as [|e l IH]; simpl; [constructor|].
  apply NoDup_cons in Hnd as [Hk Hnd].
  destruct (g e) as [b|] eqn:E; simpl; [|by apply IH].
  constructor; [|by apply IH]. intros Hin. apply Hk.
  apply list_elem_of_fmap in Hin as (b' & Hb & Hin).
  apply list_elem_of_omap in Hin as (e' & Hin' & Hb').
  apply Hg in E as Ef. apply Hg in Hb'. apply list_elem_of_fmap. exists e'.
  split; [congruence|done].
Qed.

Lemma stale_key om want e s : stale_of om want e = Some s → s.1 = e.1.
Proof. destruct e as [k id]. simpl. intros. repeat case_match; by simplify_eq. Qed.

Lemma new_key om e q : new_of om e = Some q → q.1 = e.1.
Proof. unfold new_of. intros. case_match; by simplify_eq. Qed.

Lemma stale_list_perm {I : HashMapIter} om want :
  stale_list om want ≡ₚ omap (stale_of om want) (map_to_list (price_index om)).
Proof. unfold stale_list. by rewrite sort_by_perm, hm_iter_perm. Qed.

Lemma new_list_perm {I : HashMapIter} om want :
  new_list om want ≡ₚ omap (new_of om) (map_to_list want).
Proof. unfold new_list. by rewrite sort_by_perm, hm_iter_perm. Qed.

Lemma stale_list_NoDup {I : HashMapIter} om want : NoDup (stale_list om want).*1.
Proof.
  unfold stale_list. rewrite sort_by_perm.
  apply (omap_key_NoDup I _ _ fst). intros e b. apply stale_key.
Qed.

Lemma new_list_NoDup {I : HashMapIter} om want : NoDup (new_list om want).*1.
Proof.
  unfold new_list. rewrite sort_by_perm.
  apply (omap_key_NoDup I _ _ fst). intros e b. apply new_key.
Qed.

Lemma stale_list_iter (I1 I2 : HashMapIter) om want :
  @stale_list _ _ I1 om want = @stale_list _ _ I2 om want.
Proof.
  unfold stale_list. apply (sort_by_key_unique fst).
  - by rewrite !hm_iter_perm.
  - apply (omap_key_NoDup I1 _ _ fst). intros e b. apply stale_key.
Qed.

Lemma new_list_iter (I1 I2 : HashMapIter) om want :
  @new_list _ _ I1 om want = @new_list _ _ I2 om want.
Proof.
  unfold new_list. apply (sort_by_key_unique fst).
  - by rewrite !hm_iter_perm.
  - apply (omap_key_NoDup I1 _ _ fst). intros e b. apply new_key.
Qed.

Lemma stale_list_elem {I : HashMapIter} om want k q id :
  wf om →
  (k, (q, id)) ∈ stale_list om want ↔
  want !! k = None ∧ ∃ o, live_orders om !! id = Some o ∧ level o = k ∧ q = remaining_qty o.
Proof.
  intros Hwf. rewrite stale_list_perm, list_elem_of_omap. split.
  - intros ([k' id'] & Hin%elem_of_map_to_list & Hs). simpl in Hs.
    destruct (want !! k') eqn:Ew; [done|].
    apply (wf_index om Hwf) in Hin as (o & Ho & Hl). rewrite Ho in Hs. simplify_eq.
    split; [done|]. by exists o.
  - intros (Hw & o & Ho & Hl & ->). exists (k, id).
    split; [apply elem_of_map_to_list, (wf_index om Hwf); eauto|].
    simpl. by rewrite Hw, Ho.
Qed.

Lemma new_list_elem {I : HashMapIter} om want k q :
  (k, q) ∈ new_list om want ↔ want !! k = Some q ∧ price_index om !! k = None.
Proof.
  rewrite new_list_perm, list_elem_of_omap. unfold new_of. split.
  - intros ([k' q'] & Hin%elem_of_map_to_list & Hs). simpl in Hs.
    case_match; by simplify_eq.
  - intros [Hw Hi]. exists (k, q). split; [by apply elem_of_map_to_list|].
    simpl. by rewrite Hi.
Qed.

(** The stale entry and the new quote an amend pairs. *)
Definition amend_stale (a : AmendPlanEntry) : Stale :=
  ((ap_side a, old_price a), (ap_qty a, ap_order_id a)).
Definition amend_new (a : AmendPlanEntry) : NewQuote :=
  ((ap_side a, new_price a), ap_qty a).

(** What the scan of the stale list returns. *)
Lemma find_best_spec stale consumed q max best best_d i r :
  find_best i stale consumed q max best best_d = r →
  r = best ∨ ∃ j s, r = Some (i + j) ∧ stale !! j = Some s ∧
    consumed !! (i + j) ≠ Some true ∧ s.1.1 = q.1.1 ∧ s.2.1 = q.2 ∧
    dle (dabs (dsub q.1.2 s.1.2)) max.
Proof.
  revert i best best_d.
  induction stale as [|[[ss sp] [sq sid]] stale IH]; intros i best best_d; simpl; [by left|].
  destruct q as [[side np] nq]. intros Hr.
  assert (Hskip : ∀ b bd, find_best (S i) stale consumed ((side, np), nq) max b bd = r →
    r = b ∨ ∃ j s, r = Some (i + j) ∧ (((ss, sp), (sq, sid)) :: stale) !! j = Some s ∧
      consumed !! (i + j) ≠ Some true ∧ s.1.1 = side ∧ s.2.1 = nq ∧
      dle (dabs (dsub np s.1.2)) max).
  { intros b bd [->|(j & s & Hj & Hs & Hc)]%IH; [by left|]. right. exists (S j), s.
    replace (i + S j) with (S i + j) by lia. done. }
  destruct (default false (consumed !! i)) eqn:Ec; simpl in Hr; [by eapply Hskip|].
  destruct (bool_decide_reflect (ss = side)) as [->|]; simpl in Hr; [|by eapply Hskip].
  destruct (deqb sq nq) eqn:Eq; simpl in Hr; [|by eapply Hskip].
  destruct (dleb _ max && _) eqn:Ed; [|by eapply Hskip].
  destruct (Hskip _ _ Hr) as [->|?]; [|by right].
  right. exists 0, ((side, sp), (sq, sid)). rewrite Nat.add_0_r. simpl.
  apply deqb_eq in Eq. apply andb_true_iff in Ed as [Ed%dleb_le _].
  repeat split; [|done|done]. intros E. by rewrite E in Ec.
Qed.

Lemma drop_consumed_perm stale consumed idx s :
  length consumed = length stale → stale !! idx = Some s → consumed !! idx ≠ Some true →
  drop_consumed stale consumed ≡ₚ s :: drop_consumed stale (<[idx := true]> consumed).
Proof.
  revert consumed idx. induction stale as [|s' stale IH]; intros [|c consumed] idx Hlen Hs Hc;
    try done.
  destruct idx as [|idx]; simpl in *.
  - simplify_eq. destruct c; [done|]. done.
  - destruct c; [by apply IH; [lia|..]|].
    rewrite (IH consumed idx) by (done || lia). apply Permutation_swap.
Qed.

Lemma drop_consumed_none stale : drop_consumed stale (replicate (length stale) false) = stale.
Proof. induction stale; simpl; by f_equal. Qed.

(** The invariant of the pairing pass after the quotes of [done]. *)
Record pairing_ok (stale : list Stale) (max : dec) (seen : list NewQuote) (st : Pairing) : Prop := {
  po_len : length (consumed_stale st) = length stale;
  po_stale : drop_consumed stale (consumed_stale st) ++ (amend_stale <$> pr_amend st) ≡ₚ stale;
  po_new : pr_kept st ++ (amend_new <$> pr_amend st) ≡ₚ seen;
  po_near : Forall (λ a, dle (dabs (dsub (new_price a) (old_price a))) max) (pr_amend st);
}.

Lemma pair_quote_ok stale max seen st q :
  pairing_ok stale max seen st → pairing_ok stale max (seen ++ [q]) (pair_quote stale max st q).
Proof.
  intros [Hlen Hst Hnew Hnear]. unfold pair_quote.
  destruct (find_best _ _ _ _ _ _ _) as [idx|] eqn:E.
  - apply find_best_spec in E as [E|(j & s & Hj & Hs & Hc & Hside & Hqty & Hd)]; [done|].
    simpl in *. simplify_eq. rewrite Hs.
    destruct s as [[ss sp] [sq sid]], q as [[side np] nq]; simpl in *; subst.
    split; simpl.
    + by rewrite length_insert.
    + rewrite fmap_app. simpl. rewrite app_assoc, Permutation_app_comm. simpl.
      rewrite <- Hst at 2.
      rewrite (drop_consumed_perm _ (consumed_stale st) j) by done. done.
    + rewrite fmap_app, app_assoc, Hnew. done.
    + apply Forall_app. split; [done|]. by constructor.
  - split; simpl; [done|done| |done].
    rewrite <- Hnew, <- !app_assoc. apply Permutation_app_head, Permutation_app_comm.
Qed.

Lemma pair_fold_step stale max qs seen st :
  pairing_ok stale max seen st →
  pairing_ok stale max (seen ++ qs) (fold_left (pair_quote stale max) qs st).
Proof.
  revert seen st. induction qs as [|q qs IH]; intros seen st Hst; simpl.
  - by rewrite app_nil_r.
  - replace (seen ++ q :: qs) with ((seen ++ [q]) ++ qs) by by rewrite <- app_assoc.
    apply IH. by apply pair_quote_ok.
Qed.

Lemma pair_fold_ok stale max qs :
  pairing_ok stale max qs
    (fold_left (pair_quote stale max) qs (mkPairing (replicate (length stale) false) [] [])).
Proof.
  apply (pair_fold_step stale max qs []).
  split; simpl; [by rewrite length_replicate| |done|done].
  by rewrite drop_consumed_none, app_nil_r.
Qed.

(** The plan splits the stale entries and the new quotes. *)
Lemma diff_orders_split {I : HashMapIter} om desired product eps :
  let want := desired_prices product desired in
  let plan := diff_orders om desired product eps in
  let max := dmul (tick_size product) (dlit eps 0) in
  (∃ st, to_cancel plan = (λ s : Stale, s.2.2) <$> st ∧
     st ++ (amend_stale <$> to_amend plan) ≡ₚ stale_list om want) ∧
  (∃ nq, to_place plan = to_quote <$> nq ∧
     nq ++ (amend_new <$> to_amend plan) ≡ₚ new_list om want) ∧
  Forall (λ a, dle (dabs (dsub (new_price a) (old_price a))) max) (to_amend plan) ∧
  ((eps ≤ 0)%Z → to_amend plan = []).
Proof.
  intros want plan max. subst plan. unfold diff_orders. fold want max.
  destruct (0 <? eps)%Z eqn:E; simpl.
  - destruct (pair_fold_ok (stale_list om want) max (new_list om want)) as [_ H1 H2 H3].
    split; [eauto|]. split; [eauto|]. split; [done|lia].
  - split; [exists (stale_list om want); by rewrite app_nil_r|].
    split; [exists (new_list om want); by rewrite app_nil_r|]. by split.
Qed.
End Diff.

(** ** What a plan does *)
Section Plan.
Context {D : Decimal} {L : DecimalLaws D} {C : Clock} {I : HashMapIter}.
Implicit Types (om : OrderManager) (o : LiveOrder).

Definition amend_ids (p : OrderDiffPlan) : list OrderId := ap_order_id <$> to_amend p.
Definition amend_quotes (p : OrderDiffPlan) : list Quote :=
  (to_quote ∘ amend_new) <$> to_amend p.

Section Facts.
Context (om : OrderManager) (desired : list QuotePair) (product : ProductSpec) (eps : Z).
Local Abbreviation want := (desired_prices product desired).
Local Abbreviation plan := (diff_orders om desired product eps).

Lemma plan_ids_perm :
  to_cancel plan ++ amend_ids plan ≡ₚ (λ s : Stale, s.2.2) <$> stale_list om want.
Proof.
  destruct (diff_orders_split om desired product eps) as ((st & -> & Hp) & _).
  rewrite <- Hp, fmap_app. apply Permutation_app_head.
  unfold amend_ids. by rewrite <- list_fmap_compose.
Qed.

Lemma plan_quotes_perm :
  to_place plan ++ amend_quotes plan ≡ₚ to_quote <$> new_list om want.
Proof.
  destruct (diff_orders_split om desired product eps) as (_ & (nq & -> & Hp) & _).
  rewrite <- Hp, fmap_app. apply Permutation_app_head.
  unfold amend_quotes. by rewrite <- list_fmap_compose.
Qed.

Lemma plan_ids_elem id :
  wf om → id ∈ to_cancel plan ++ amend_ids plan ↔
  ∃ o, live_orders om !! id = Some o ∧ want !! level o = None.
Proof.
  intros Hwf. rewrite plan_ids_perm, list_elem_of_fmap. split.
  - intros ([k [q id']] & -> & (Hw & o & Ho & Hl & _)%stale_list_elem); [|done].
    exists o. by subst k.
  - intros (o & Ho & Hw). exists (level o, (remaining_qty o, id)).
    split; [done|]. apply stale_list_elem; [done|]. split; [done|]. by exists o.
Qed.

Lemma plan_ids_NoDup : wf om → NoDup (to_cancel plan ++ amend_ids plan).
Proof.
  intros Hwf. rewrite plan_ids_perm.
  apply NoDup_fmap_2_strong; [|eapply NoDup_fmap_1, stale_list_NoDup].
  intros [k1 [q1 id1]] [k2 [q2 id2]] (_ & o1 & H1 & <- & ->)%stale_list_elem
    (_ & o2 & H2 & <- & ->)%stale_list_elem E; [|done..].
  simpl in E. subst id2. by simplify_eq.
Qed.

Lemma plan_quotes_elem q :
  q ∈ to_place plan ++ amend_quotes plan ↔
  want !! (q_side q, q_price q) = Some (q_qty q) ∧
  price_index om !! (q_side q, q_price q) = None.
Proof.
  rewrite plan_quotes_perm, list_elem_of_fmap. split.
  - intros ([k n] & -> & H). apply new_list_elem in H. by destruct k.
  - intros H. exists ((q_side q, q_price q), q_qty q). split; [by destruct q|].
    by apply new_list_elem.
Qed.

Lemma plan_quotes_NoDup :
  NoDup ((λ q, (q_side q, q_price q)) <$> to_place plan ++ amend_quotes plan).
Proof.
  rewrite plan_quotes_perm, <- list_fmap_compose.
  replace (_ <$> new_list om want) with (fst <$> new_list om want); [apply new_list_NoDup|].
  apply list_fmap_ext. by intros _ [[? ?] ?] _.
Qed.

Lemma plan_amend a :
  wf om → a ∈ to_amend plan →
  (∃ o, live_orders om !! ap_order_id a = Some o ∧ level o = (ap_side a, old_price a) ∧
     remaining_qty o = ap_qty a) ∧
  want !! (ap_side a, old_price a) = None ∧
  want !! (ap_side a, new_price a) = Some (ap_qty a) ∧
  price_index om !! (ap_side a, new_price a) = None ∧
  dle (dabs (dsub (new_price a) (old_price a))) (dmul (tick_size product) (dlit eps 0)).
Proof.
  intros Hwf Ha.
  destruct (diff_orders_split om desired product eps)
    as ((st & _ & Hs) & (nq & _ & Hn) & Hnear & _).
  assert (Hs' : amend_stale a ∈ stale_list om want).
  { rewrite <- Hs. apply elem_of_app. right. by apply list_elem_of_fmap_2. }
  assert (Hn' : amend_new a ∈ new_list om want).
  { rewrite <- Hn. apply elem_of_app. right. by apply list_elem_of_fmap_2. }
  apply stale_list_elem in Hs' as (Hw & o & Ho & Hl & Hq); [|done].
  apply new_list_elem in Hn' as [Hw' Hi].
  rewrite Forall_forall in Hnear. split; [by exists o|]. auto.
Qed.

Lemma plan_amend_off : (eps ≤ 0)%Z → to_amend plan = [].
Proof. by destruct (diff_orders_split om desired product eps) as (_ & _ & _ & ?). Qed.
End Facts.
End Plan.

(** ** Properties of the plan *)
Section PlanProperties.
Context {D : Decimal} {L : DecimalLaws D} {C : Clock}.
Implicit Types (om : OrderManager) (o : LiveOrder).

(** C2: in a state whose index is consistent, the plan retires (cancels or
    amends) exactly the live orders whose level is no longer desired, each
    once, and creates (places or amends to) exactly the desired levels that
    have no live order, each once and with the desired quantity. *)
Theorem diff_orders_reconciles {I : HashMapIter} om desired product eps (Hwf : wf om) :
  let want := desired_prices product desired in
  let plan := diff_orders om desired product eps in
  (∀ id, id ∈ to_cancel plan ++ amend_ids plan ↔
     ∃ o, live_orders om !! id = Some o ∧ want !! level o = None) ∧
  NoDup (to_cancel plan ++ amend_ids plan) ∧
  (∀ q, q ∈ to_place plan ++ amend_quotes plan ↔
     want !! (q_side q, q_price q) = Some (q_qty q) ∧
     price_index om !! (q_side q, q_price q) = None) ∧
  NoDup ((λ q, (q_side q, q_price q)) <$> to_place plan ++ amend_quotes plan).
Proof.
  intros want plan. split; [intros id; by apply plan_ids_elem|].
  split; [by apply plan_ids_NoDup|].
  split; [apply plan_quotes_elem | apply plan_quotes_NoDup].
Qed.

(** An amend only moves the price of a live order, within the tick
    window, to a free desired level on the same side, for exactly the
    quantity the order has left; a window of zero ticks plans no amend. *)
Theorem diff_orders_amends_safe {I : HashMapIter} om desired product eps a
  (Hwf : wf om) (Ha : a ∈ to_amend (diff_orders om desired product eps)) :
  let want := desired_prices product desired in
  (∃ o, live_orders om !! ap_order_id a = Some o ∧ level o = (ap_side a, old_price a) ∧
     remaining_qty o = ap_qty a) ∧
  want !! (ap_side a, new_price a) = Some (ap_qty a) ∧
  price_index om !! (ap_side a, new_price a) = None ∧
  dle (dabs (dsub (new_price a) (old_price a))) (dmul (tick_size product) (dlit eps 0)) ∧
  (0 < eps)%Z.
Proof.
  intros want.
  destruct (plan_amend om desired product eps a Hwf Ha) as (H1 & _ & H2 & H3 & H4).
  repeat split; [done..|].
  destruct (decide (0 < eps)%Z) as [?|Hneg]; [done|].
  rewrite plan_amend_off in Ha by lia. by apply not_elem_of_nil in Ha.
Qed.

(** The plan does not depend on the iteration order of the hash maps. *)
Theorem diff_orders_deterministic (I1 I2 : HashMapIter) om desired product eps :
  @diff_orders _ _ I1 om desired product eps = @diff_orders _ _ I2 om desired product eps.
Proof.
  unfold diff_orders. by rewrite (stale_list_iter I1 I2), (new_list_iter I1 I2).
Qed.

(** Once the live levels are the desired ones there is nothing to do. *)
Lemma diff_quiet {I : HashMapIter} om desired product eps :
  wf om → dom (price_index om) = dom (desired_prices product desired) →
  diff_orders om desired product eps = mkOrderDiffPlan [] [] [].
Proof.
  intros Hwf E. set (want := desired_prices product desired) in *.
  set (plan := diff_orders _ _ _ _).
  assert (Hids := λ id, plan_ids_elem om desired product eps id Hwf).
  assert (Hqs := plan_quotes_elem om desired product eps).
  fold plan want in Hids, Hqs.
  assert (to_cancel plan ++ amend_ids plan = []) as [E1 E2]%app_eq_nil.
  { apply elem_of_nil_inv. intros id (o & Ho & Hw)%Hids.
    assert (level o ∈ dom (price_index om)) as Hin.
    { apply elem_of_dom. exists id. apply (wf_index om Hwf). eauto. }
    rewrite E in Hin. apply elem_of_dom in Hin as [? ?]. congruence. }
  assert (to_place plan ++ amend_quotes plan = []) as [E3 _]%app_eq_nil.
  { apply elem_of_nil_inv. intros q [Hw Hi]%Hqs.
    apply not_elem_of_dom in Hi. rewrite E in Hi. apply not_elem_of_dom in Hi. congruence. }
  apply fmap_nil_inv in E2. destruct plan; simpl in *. by subst.
Qed.

(** The plan is empty exactly when the live levels are the desired levels.
    Quantities play no part in it: a quote whose size changed at an unchanged
    price is left alone. *)
Theorem diff_orders_quiet_iff {I : HashMapIter} om desired product eps (Hwf : wf om) :
  diff_orders om desired product eps = mkOrderDiffPlan [] [] [] ↔
  dom (price_index om) = dom (desired_prices product desired).
Proof.
  set (want := desired_prices product desired). set (plan := diff_orders _ _ _ _).
  assert (Hids := λ id, plan_ids_elem om desired product eps id Hwf).
  assert (Hqs := plan_quotes_elem om desired product eps).
  fold plan want in Hids, Hqs. split.
  - intros E. rewrite E in Hids, Hqs. simpl in *.
    apply set_eq. intros k. rewrite !elem_of_dom. split.
    + intros [id (o & Ho & Hl)%(wf_index om Hwf)].
      destruct (want !! k) eqn:Ek; [done|]. exfalso.
      assert (id ∈ @nil OrderId) as []%not_elem_of_nil.
      apply Hids. exists o. by rewrite Hl.
    + intros [q Hq]. destruct (price_index om !! k) eqn:Ek; [done|]. exfalso.
      assert (mkQuote k.1 k.2 q ∈ @nil Quote) as []%not_elem_of_nil.
      apply Hqs. simpl. by destruct k.
  - by apply diff_quiet.
Qed.
End PlanProperties.

(** ** Paper fills *)
Section PaperFills.
Context {D : Decimal} {L : DecimalLaws D} {C : Clock} {I : HashMapIter}.
Implicit Types (om : OrderManager) (o : LiveOrder).

(** A fill record is the one of the resting order [o], at price [p]. *)
Definition fill_of (o : LiveOrder) (p : dec) (f : Fill) : Prop :=
  f_order_id f = lo_order_id o ∧ f_side f = lo_side o ∧ f_symbol f = lo_symbol o ∧
  f_price f = p ∧ f_qty f = remaining_qty o ∧ f_is_maker f = true.

(** The fill loop over distinct live candidates. *)
Lemma fill_loop now cs om ctr fills :
  NoDup cs.*1 → (∀ id o, live_orders om !! id = Some o → lo_order_id o = id) →
  (∀ c, c ∈ cs → is_Some (live_orders om !! c.1)) →
  ∃ om' ctr' new, fold_left (fill_candidate now) cs (om, ctr, fills) = (om', ctr', fills ++ new) ∧
    (∀ id, live_orders om' !! id = if decide (id ∈ cs.*1) then None else live_orders om !! id) ∧
    Forall2 (λ c f, ∃ o, live_orders om !! c.1 = Some o ∧ fill_of o c.2 f) cs new.
Proof.
  revert om ctr fills. induction cs as [|[id p] cs IH]; intros om ctr fills Hnd Hid Hlive.
  { exists om, ctr, []. rewrite app_nil_r. split; [done|]. split; [|constructor].
    intros id. by rewrite decide_False by apply not_elem_of_nil. }
  simpl in Hnd. apply NoDup_cons in Hnd as [Hni Hnd].
  destruct (Hlive (id, p)) as [o Ho]; [left|]. simpl in Ho.
  cbn [fold_left fill_candidate]. rewrite Ho.
  set (om1 := set_index _ _). set (f := mkFill _ _ _ _ _ _ _ _).
  assert (Hl1 : live_orders om1 = delete id (live_orders om)) by done.
  destruct (IH om1 (wrap_u64 (ctr + 1)) (fills ++ [f])) as (om' & ctr' & new & E & Hl & Hf).
  { done. }
  { intros id' o'. rewrite Hl1. intros [_ ?]%lookup_delete_Some. eauto. }
  { intros c Hc. rewrite Hl1, lookup_delete_ne; [apply Hlive; by right|].
    intros ->. apply Hni. by apply list_elem_of_fmap_2. }
  exists om', ctr', (f :: new). rewrite E, <- app_assoc. split; [done|]. split.
  - intros id'. rewrite Hl, Hl1. change ((id, p) :: cs).*1 with (id :: cs.*1). destruct (decide (id' ∈ cs.*1)) as [Hin|Hin].
    + by rewrite decide_True by by right.
    + destruct (decide (id' = id)) as [->|Hne].
      * rewrite lookup_delete_eq. by rewrite decide_True by left.
      * rewrite lookup_delete_ne by done.
        by rewrite decide_False by by intros [?|?]%elem_of_cons.
  - constructor; [by exists o|]. eapply Forall2_impl; [exact Hf|].
    intros c f' (o' & Ho' & Hof). rewrite Hl1 in Ho'.
    apply lookup_delete_Some in Ho' as [_ Ho']. eauto.
Qed.

Lemma Forall2_elem_fmap {A B E} (g : A → B) (R : B → E → Prop) l k y :
  Forall2 R (g <$> l) k → y ∈ k → ∃ x, x ∈ l ∧ R (g x) y.
Proof.
  intros HF [i Hi]%list_elem_of_lookup.
  destruct (Forall2_lookup_r _ _ _ _ _ HF Hi) as (b & Hb & HR).
  rewrite list_lookup_fmap in Hb. apply fmap_Some in Hb as (x & Hx & ->).
  exists x. split; [by eapply list_elem_of_lookup_2|done].
Qed.

(** Under the invariant the values list their own keys. *)
Lemma values_ids om : wf om → lo_order_id <$> hm_values (live_orders om) = live_order_ids om.
Proof.
  intros Hwf. unfold hm_values, live_order_ids, hm_keys. rewrite <- list_fmap_compose.
  apply list_fmap_ext. intros i [id o] Hi%list_elem_of_lookup_2%hm_iter_elem.
  by apply (wf_id om Hwf).
Qed.

Lemma paper_prices om o : wf om → o ∈ hm_values (live_orders om) →
  (hm_collect ((λ o, (lo_order_id o, lo_price o)) <$> hm_values (live_orders om))
    : gmap OrderId dec) !! lo_order_id o = Some (lo_price o).
Proof.
  intros Hwf Ho. apply hm_collect_lookup.
  - rewrite <- list_fmap_compose.
    change (NoDup (lo_order_id <$> hm_values (live_orders om))).
    rewrite values_ids by done. apply hm_keys_NoDup.
  - by apply (list_elem_of_fmap_2 (λ o, (lo_order_id o, lo_price o))).
Qed.

Definition crossing p side om : list LiveOrder :=
  filter (λ o, crosses p side o = true) (hm_values (live_orders om)).

Lemma crossing_elem p side om o : wf om →
  o ∈ crossing p side om ↔
  live_orders om !! lo_order_id o = Some o ∧ crosses p side o = true.
Proof.
  intros Hwf. unfold crossing. rewrite list_elem_of_filter, hm_values_elem. split.
  - intros [Hc [id Ho]]. by rewrite (wf_id om Hwf id o Ho).
  - intros [Ho Hc]. eauto.
Qed.

(** The unfiltered candidates are the crossing orders at their own prices. *)
Lemma paper_candidates p side om : wf om →
  omap (λ o, (λ q, (lo_order_id o, q)) <$>
      ((hm_collect ((λ o, (lo_order_id o, lo_price o)) <$> hm_values (live_orders om))
        : gmap OrderId dec) !! lo_order_id o)) (crossing p side om) =
  (λ o, (lo_order_id o, lo_price o)) <$> crossing p side om.
Proof.
  intros Hwf. assert (Hsub : ∀ o, o ∈ crossing p side om → o ∈ hm_values (live_orders om))
    by by intros o [_ ?]%list_elem_of_filter.
  revert Hsub. generalize (crossing p side om) as l.
  induction l as [|o l IH]; intros Hsub; [done|]. cbn [omap list_omap].
  rewrite paper_prices by (done || apply Hsub; left). simpl. f_equal. apply IH.
  intros o' ?. apply Hsub. by right.
Qed.

Lemma crossing_ids_NoDup p side om : wf om → NoDup (lo_order_id <$> crossing p side om).
Proof.
  intros Hwf. apply (sublist_NoDup _ (lo_order_id <$> hm_values (live_orders om))).
  - rewrite (values_ids om Hwf). apply hm_keys_NoDup.
  - apply fmap_sublist, sublist_filter.
Qed.

Lemma paper_match_unfiltered now p side om ctr : wf om → paper_mode om = true →
  paper_match_trade now p side om ctr =
  fold_left (fill_candidate now)
    ((λ o, (lo_order_id o, lo_price o)) <$> crossing p side om) (om, ctr, []).
Proof.
  intros Hwf Hp. unfold paper_match_trade, paper_match_trade_filtered. rewrite Hp.
  cbn [negb]. fold (crossing p side om). by rewrite paper_candidates.
Qed.

(** A taker trade against a paper book fills exactly the resting orders it
    crosses: one fill per crossing order, at the resting price and for the
    quantity left, as maker; those orders leave the book, the others stay as
    they were, and the index stays consistent. *)
Theorem paper_match_trade_spec now p side om ctr (Hwf : wf om) (Hp : paper_mode om = true) :
  ∃ om' ctr' fills, paper_match_trade now p side om ctr = (om', ctr', fills) ∧ wf om' ∧
    (∀ id o, live_orders om' !! id = Some o ↔
       live_orders om !! id = Some o ∧ crosses p side o = false) ∧
    NoDup (f_order_id <$> fills) ∧
    (∀ f, f ∈ fills → ∃ o, live_orders om !! f_order_id f = Some o ∧
       crosses p side o = true ∧ fill_of o (lo_price o) f) ∧
    (∀ id o, live_orders om !! id = Some o → crosses p side o = true →
       id ∈ f_order_id <$> fills).
Proof.
  set (cs := crossing p side om).
  destruct (fill_loop now ((λ o, (lo_order_id o, lo_price o)) <$> cs) om ctr [])
    as (om' & ctr' & fills & E & Hl & Hf).
  { rewrite <- list_fmap_compose. by apply crossing_ids_NoDup. }
  { intros id o. apply (wf_id om Hwf). }
  { intros c (o & -> & Ho)%list_elem_of_fmap. apply crossing_elem in Ho as [Ho _]; [|done].
    simpl. eauto. }
  assert (Hm : paper_match_trade now p side om ctr = (om', ctr', fills))
    by (by rewrite paper_match_unfiltered).
  exists om', ctr', fills. split; [exact Hm|].
  assert (Hids : f_order_id <$> fills = lo_order_id <$> cs).
  { apply Forall2_fmap_l in Hf. clear -Hf Hwf.
    induction Hf as [|o f cs fills (o' & Ho' & Hid & _) _ IH]; [done|].
    rewrite !fmap_cons, IH, Hid. f_equal. by apply (wf_id om Hwf). }
  assert (Hcs : ∀ id o, live_orders om !! id = Some o →
    id ∈ lo_order_id <$> cs ↔ crosses p side o = true).
  { intros id o Ho. pose proof (wf_id om Hwf id o Ho) as Hid. rewrite list_elem_of_fmap.
    split; [intros (o' & -> & [? ?]%crossing_elem); by simplify_eq|].
    intros Hc. exists o. split; [done|]. apply crossing_elem; [done|]. by rewrite Hid. }
  rewrite <- list_fmap_compose in Hl. change (fst ∘ _) with lo_order_id in Hl.
  split; [|split; [|split; [|split]]].
  - change (wf (om', ctr', fills).1.1). rewrite <- Hm. by apply wf_paper_match.
  - intros id o. rewrite Hl. case_decide as Hd.
    + split; [done|]. intros [Ho Hc]. apply (Hcs id o Ho) in Hd. congruence.
    + split; [|by intros [? _]]. intros Ho. split; [done|].
      destruct (crosses p side o) eqn:Ec; [|done]. destruct Hd. by apply (Hcs id o Ho).
  - rewrite Hids. by apply crossing_ids_NoDup.
  - intros f Hin. destruct (Forall2_elem_fmap _ _ _ _ _ Hf Hin) as (o & Ho & o' & Ho' & Hof).
    apply crossing_elem in Ho as [Ho Hc]; [|done]. simpl in Ho', Hof.
    rewrite Ho in Ho'. injection Ho' as <-. exists o. destruct Hof as [Hid Hrest].
    rewrite Hid. split; [done|]. split; [done|]. by split.
  - intros id o Ho Hc. rewrite Hids. by apply (Hcs id o Ho).
Qed.
End PaperFills.

(** ** Witnesses: a bid at 99 and an ask at 101 on a tick of one *)
Definition demo_order (id : OrderId) (side : Side) (price qty : Z) : LiveOrder :=
  mkLiveOrder id "BTCUSDT" side (dlit price 0) (dlit qty 0) (dlit 0 0) Open (sec 0).

Definition demo_om : OrderManager :=
  track_order (sec 1) (demo_order 2 Sell 101 5)
    (track_order (sec 0) (demo_order 1 Buy 99 3) new_paper).

Definition set_paper (b : bool) (om : OrderManager) : OrderManager :=
  mkOrderManager (live_orders om) (price_index om) b (surveillance om).

Definition demo_product : ProductSpec :=
  mkProductSpec "BTCUSDT" "BTC" "USDT" (dlit 1 0) (dlit 1 1) (dlit 1 0) (dlit 0 0) (dlit 0 0)
    Trading.

Definition demo_pair (b a : Z) : QuotePair :=
  mkQuotePair (Some (mkQuote Buy (dlit b 0) (dlit 3 0))) (Some (mkQuote Sell (dlit a 0) (dlit 5 0))).

Lemma demo_om_wf : wf demo_om.
Proof.
  unfold demo_om. apply wf_track; [|eval_none..].
  apply wf_track; [apply wf_new_paper|eval_none..].
Qed.

Lemma diff_orders_reconciles_witness :
  let plan := diff_orders demo_om [demo_pair 98 101] demo_product 0 in
  to_cancel plan = [1%N] ∧ NoDup (to_cancel plan ++ amend_ids plan).
Proof.
  intros plan. split; [vm_compute; reflexivity|].
  apply (diff_orders_reconciles demo_om [demo_pair 98 101] demo_product 0 demo_om_wf).
Defined.

Lemma diff_orders_amends_safe_witness :
  let a := mkAmendPlanEntry 1 Buy (dlit 99 0) (dlit 98 0) (dlit 3 0) in
  a ∈ to_amend (diff_orders demo_om [demo_pair 98 101] demo_product 2) ∧
  desired_prices demo_product [demo_pair 98 101] !! (Buy, dlit 98 0) = Some (dlit 3 0).
Proof.
  intros a.
  assert (Ha : a ∈ to_amend (diff_orders demo_om [demo_pair 98 101] demo_product 2)).
  { apply list_elem_of_lookup. exists 0. vm_compute. reflexivity. }
  split; [exact Ha|].
  destruct (diff_orders_amends_safe demo_om _ _ _ a demo_om_wf Ha) as (_ & H & _). exact H.
Defined.

(** The same maps, enumerated backwards. *)
Definition hm_iter_rev : HashMapIter.
Proof. refine {| hm_iter K V _ _ m := reverse (map_to_list m) |}. intros. apply reverse_Permutation. Defined.

Lemma diff_orders_deterministic_witness :
  @diff_orders _ _ hm_iter_rev demo_om [demo_pair 98 102] demo_product 2 =
  @diff_orders _ _ hm_iter_default demo_om [demo_pair 98 102] demo_product 2.
Proof. exact (diff_orders_deterministic hm_iter_rev hm_iter_default demo_om _ _ _). Defined.

Lemma diff_orders_quiet_iff_witness :
  dom (price_index demo_om) = dom (desired_prices demo_product [demo_pair 99 101]).
Proof.
  apply (diff_orders_quiet_iff demo_om [demo_pair 99 101] demo_product 2 demo_om_wf).
  vm_compute. reflexivity.
Defined.

Lemma paper_match_trade_spec_witness :
  ∃ om' ctr' fills, paper_match_trade (sec 5) (dlit 99 0) Sell demo_om 7 = (om', ctr', fills) ∧
    live_orders om' !! 2%N = Some (demo_order 2 Sell 101 5) ∧ 1%N ∈ f_order_id <$> fills.
Proof.
  destruct (paper_match_trade_spec (sec 5) (dlit 99 0) Sell demo_om 7 demo_om_wf eq_refl)
    as (om' & ctr' & fills & E & _ & Hlive & _ & _ & Hall).
  exists om', ctr', fills. split; [exact E|]. split.
  - apply Hlive. split; reflexivity.
  - apply (Hall 1%N (demo_order 1 Buy 99 3)); reflexivity.
Defined.
