(* ===== verification/OrderExec.v ===== *)
(** * Order execution ([crates/engine/src/order_manager.rs])

    The methods of [OrderManager] that talk to a venue, in the state monad of
    [Prelude.v], and the interface they use: the [ExchangeConnector] trait of
    [crates/exchange/core/src/connector.rs] is the class [Exchange], whose
    world is everything outside the engine (the venue, the clock, the source
    of UUIDs). *)
From stdpp Require Import base gmap sets list strings sorting.
From Stdlib Require Import ZArith QArith Lqa Lia.
From S2P Require Import Prelude Decimal Types OrderManager.
Local Open Scope nat_scope.
Local Open Scope prog_scope.

Section Requests.
Context {D : Decimal}.

Record NewOrder := mkNewOrder {
  no_symbol : string;
  no_side : Side;
  no_order_type : OrderType;
  no_price : option dec;
  no_qty : dec;
  no_time_in_force : option TimeInForce;
  no_client_order_id : option string;
  no_reduce_only : bool;
}.

Record AmendOrder := mkAmendOrder {
  am_order_id : OrderId;
  am_symbol : string;
  am_new_price : option dec;
  am_new_qty : option dec;
}.
End Requests.

(** The connector trait and the ambient effects, as operations on the world. *)
Class Exchange {D : Decimal} {C : Clock} := {
  world : Type;
  utc_now : world → instant;
  new_uuid : world → OrderId * world;
  x_error : Type;
  classify_error : x_error → string;
  supports_amend : bool;
  max_batch_size : nat;
  x_place_order : NewOrder → world → result OrderId x_error * world;
  x_place_orders_batch : list NewOrder → world → result (list OrderId) x_error * world;
  x_cancel_order : string → OrderId → world → result unit x_error * world;
  x_cancel_orders_batch : string → list OrderId → world → result unit x_error * world;
  x_amend_order : AmendOrder → world → result unit x_error * world;
  x_get_open_orders : string → world → result (list LiveOrder) x_error * world;
}.

(** Order ids are unique: [issued w] holds every id handed out so far, and an
    id a placement returns is not among them. *)
Class ExchangeLaws {D : Decimal} {C : Clock} (X : Exchange) := {
  issued : world → gset OrderId;
  uuid_fresh w id w' : new_uuid w = (id, w') → id ∉ issued w ∧ issued w' = ({[id]} ∪ issued w);
  place_fresh o w id w' :
    x_place_order o w = (Ok id, w') → id ∉ issued w ∧ ({[id]} ∪ issued w) ⊆ issued w';
  place_err o w e w' : x_place_order o w = (Err e, w') → issued w ⊆ issued w';
  batch_fresh os w ids w' :
    x_place_orders_batch os w = (Ok ids, w') →
    NoDup ids ∧ (∀ id, id ∈ ids → id ∉ issued w) ∧ (list_to_set ids ∪ issued w) ⊆ issued w';
  batch_err os w e w' : x_place_orders_batch os w = (Err e, w') → issued w ⊆ issued w';
  cancel_issued s id w r w' : x_cancel_order s id w = (r, w') → issued w ⊆ issued w';
  cancels_issued s ids w r w' : x_cancel_orders_batch s ids w = (r, w') → issued w ⊆ issued w';
  amend_issued a w r w' : x_amend_order a w = (r, w') → issued w ⊆ issued w';
  open_issued s w r w' : x_get_open_orders s w = (r, w') → issued w ⊆ issued w';
}.

(** The orders open at the venue: an accepted cancellation closes its orders,
    cancellations and listings open none, and a listing that is answered is the
    open orders at that moment. *)
Class VenueOpen {D : Decimal} {C : Clock} (X : Exchange) := {
  venue_open : string → world → gset OrderId;
  cancel_closes s id w w' : x_cancel_order s id w = (Ok tt, w') → id ∉ venue_open s w';
  cancel_opens_none s id w r w' : x_cancel_order s id w = (r, w') → venue_open s w' ⊆ venue_open s w;
  batch_closes s ids w w' id : x_cancel_orders_batch s ids w = (Ok tt, w') → id ∈ ids → id ∉ venue_open s w';
  batch_opens_none s ids w r w' : x_cancel_orders_batch s ids w = (r, w') → venue_open s w' ⊆ venue_open s w;
  listing_true s w l w' : x_get_open_orders s w = (Ok l, w') → list_to_set (lo_order_id <$> l) = venue_open s w';
  listing_opens_none s w r w' : x_get_open_orders s w = (r, w') → venue_open s w' ⊆ venue_open s w;
}.

(** A batch acknowledgement never lists more ids than orders were sent. *)
Definition batch_bounded {D : Decimal} {C : Clock} (X : Exchange) : Prop :=
  ∀ os w ids w', x_place_orders_batch os w = (Ok ids, w') → length ids ≤ length os.

Definition MIN_BATCH_SIZE : nat := 2.

Inductive BatchPlaceOutcome :=
| Placed (order_id : OrderId)
| PlacedFallback (order_id : OrderId)
| PlaceFailed (reason : string)
| Unacknowledged (reason : string).

Inductive BatchCancelOutcome :=
| CancelDone
| CancelledFallback
| CancelFailed (reason : string).

Section Exec.
Context {D : Decimal} {C : Clock} {I : HashMapIter} {X : Exchange}.

(** The manager together with the world it acts on. *)
Record Sys := mkSys { om : OrderManager; outside : world }.

Definition on_om (f : OrderManager → OrderManager) : M Sys unit :=
  mmodify (λ s, mkSys (f (om s)) (outside s)).
Definition call {A} (f : world → A * world) : M Sys A := λ s,
  let '(a, w) := f (outside s) in Done (a, mkSys (om s) w).
Definition is_paper : M Sys bool := mgets (λ s, paper_mode (om s)).
Definition clock : M Sys instant := mgets (λ s, utc_now (outside s)).

Definition track (o : LiveOrder) : M Sys unit :=
  let! now := clock in on_om (track_order now o).
Definition remove (id : OrderId) : M Sys unit :=
  let! now := clock in on_om (remove_order now id).

(** The [NewOrder] request and the [LiveOrder] entry of a quote. *)
Definition quote_request (symbol : string) (q : Quote) : NewOrder :=
  mkNewOrder symbol (q_side q) Limit (Some (q_price q)) (q_qty q) (Some PostOnly) None false.

Definition quote_entry (symbol : string) (q : Quote) (id : OrderId) (now : instant) : LiveOrder :=
  mkLiveOrder id symbol (q_side q) (q_price q) (q_qty q) dec0 Open now.

Definition track_quote (symbol : string) (q : Quote) (id : OrderId) : M Sys unit :=
  let! now := clock in track (quote_entry symbol q id now).

Definition place_one_quote_outcome (symbol : string) (q : Quote) : M Sys BatchPlaceOutcome :=
  let! paper := is_paper in
  if (paper : bool) then
    let! id := call new_uuid in
    do! track_quote symbol q id in
    mret (Placed id)
  else
    let! r := call (x_place_order (quote_request symbol q)) in
    match r with
    | Ok id => do! track_quote symbol q id in mret (Placed id)
    | Err e => mret (PlaceFailed (classify_error e))
    end.

Definition place_one_quote_fallback (symbol : string) (q : Quote) : M Sys BatchPlaceOutcome :=
  let! o := place_one_quote_outcome symbol q in
  match o with
  | Placed id => mret (PlacedFallback id)
  | other => mret other
  end.

Definition place_one_quote_unack (symbol : string) (q : Quote) : M Sys BatchPlaceOutcome :=
  let! o := place_one_quote_outcome symbol q in
  match o with
  | Placed id => mret (PlacedFallback id)
  | PlaceFailed r => mret (Unacknowledged r)
  | other => mret other
  end.

(** [slice[n..]] panics when [n] exceeds the length. *)
Definition slice_from {A} (n : nat) (l : list A) : M Sys (list A) :=
  if decide (n ≤ length l) then mret (drop n l) else mpanic.

Definition track_acked (symbol : string) (p : OrderId * Quote) : M Sys BatchPlaceOutcome :=
  do! track_quote symbol p.2 p.1 in mret (Placed p.1).

(** One chunk of [place_quotes_batched]. *)
Definition place_chunk (symbol : string) (chunk : list Quote) : M Sys (list BatchPlaceOutcome) :=
  let! r := call (x_place_orders_batch (quote_request symbol <$> chunk)) in
  match r with
  | Ok ids =>
      if decide (length ids = length chunk) then
        mmap_M (track_acked symbol) (zip ids chunk)
      else
        let ack_count := length ids in
        let! acked := mmap_M (track_acked symbol) (zip ids chunk) in
        let! rest := slice_from ack_count chunk in
        let! retried := mmap_M (place_one_quote_unack symbol) rest in
        mret (acked ++ retried)
  | Err e => mmap_M (place_one_quote_fallback symbol) chunk
  end.

Fixpoint concat_M {S A} (l : list (M S (list A))) : M S (list A) :=
  match l with
  | [] => mret []
  | m :: l' => let! x := m in let! y := concat_M l' in mret (x ++ y)
  end.

Definition place_quotes_batched (symbol : string) (quotes : list Quote) :
    M Sys (list BatchPlaceOutcome) :=
  match quotes with
  | [] => mret []
  | _ =>
      let! paper := is_paper in
      if (paper : bool) then mmap_M (place_one_quote_outcome symbol) quotes
      else
        let max_batch := Nat.max max_batch_size 1 in
        if decide (length quotes < MIN_BATCH_SIZE ∨ max_batch < MIN_BATCH_SIZE) then
          mmap_M (place_one_quote_outcome symbol) quotes
        else concat_M (place_chunk symbol <$> chunks max_batch quotes)
  end.

(** The local entry goes away whatever the venue answered. *)
Definition cancel_one_outcome (symbol : string) (id : OrderId) : M Sys BatchCancelOutcome :=
  let! paper := is_paper in
  if (paper : bool) then do! remove id in mret CancelDone
  else
    let! r := call (x_cancel_order symbol id) in
    match r with
    | Ok _ => do! remove id in mret CancelDone
    | Err e => do! remove id in mret (CancelFailed (classify_error e))
    end.

Definition remove_done (id : OrderId) : M Sys BatchCancelOutcome :=
  do! remove id in mret CancelDone.

Definition cancel_one_fallback (symbol : string) (id : OrderId) : M Sys BatchCancelOutcome :=
  let! o := cancel_one_outcome symbol id in
  match o with
  | CancelDone => mret CancelledFallback
  | other => mret other
  end.

Definition cancel_chunk (symbol : string) (chunk : list OrderId) : M Sys (list BatchCancelOutcome) :=
  let! r := call (x_cancel_orders_batch symbol chunk) in
  match r with
  | Ok _ => mmap_M remove_done chunk
  | Err _ => mmap_M (cancel_one_fallback symbol) chunk
  end.

Definition cancel_orders_batched (symbol : string) (ids : list OrderId) :
    M Sys (list BatchCancelOutcome) :=
  match ids with
  | [] => mret []
  | _ =>
      let! paper := is_paper in
      if (paper : bool) then mmap_M (cancel_one_outcome symbol) ids
      else
        let max_batch := Nat.max max_batch_size 1 in
        if decide (length ids < MIN_BATCH_SIZE ∨ max_batch < MIN_BATCH_SIZE) then
          mmap_M (cancel_one_outcome symbol) ids
        else concat_M (cancel_chunk symbol <$> chunks max_batch ids)
  end.

(** The amend loop; a failed amend joins the cancel and place buckets. *)
Fixpoint amend_loop (symbol : string) (entries : list AmendPlanEntry)
    (cs : list OrderId) (qs : list Quote) : M Sys (list OrderId * list Quote) :=
  match entries with
  | [] => mret (cs, qs)
  | a :: entries' =>
      let! paper := is_paper in
      if (paper : bool) then
        do! on_om (reprice_order (ap_order_id a) (new_price a)) in
        amend_loop symbol entries' cs qs
      else
        let! r := call (x_amend_order
          (mkAmendOrder (ap_order_id a) symbol (Some (new_price a)) (Some (ap_qty a)))) in
        match r with
        | Ok _ =>
            do! on_om (reprice_order (ap_order_id a) (new_price a)) in
            amend_loop symbol entries' cs qs
        | Err _ =>
            amend_loop symbol entries' (cs ++ [ap_order_id a])
              (qs ++ [mkQuote (ap_side a) (new_price a) (ap_qty a)])
        end
  end.

(** [execute_diff], returning the outcomes the code only logs. *)
Definition execute_diff (symbol : string) (desired : list QuotePair) (product : ProductSpec)
    (amend_epsilon_ticks : Z) : M Sys (list BatchCancelOutcome * list BatchPlaceOutcome) :=
  let! plan := mgets (λ s, diff_orders (om s) desired product
    (if supports_amend then amend_epsilon_ticks else 0%Z)) in
  let! b := amend_loop symbol (to_amend plan) (to_cancel plan) (to_place plan) in
  let! cancel_outcomes := cancel_orders_batched symbol b.1 in
  let! place_outcomes := place_quotes_batched symbol b.2 in
  mret (cancel_outcomes, place_outcomes).

(** A single unwind slice, outside the diff machinery. *)
Definition execute_unwind_slice_flagged (symbol : string) (q : Quote) (product : ProductSpec)
    (reduce_only : bool) : M Sys (result unit x_error) :=
  let price := round_price product (q_price q) in
  let qty := round_qty product (q_qty q) in
  let slice := mkQuote (q_side q) price qty in
  if is_zero qty then mret (Ok tt)
  else
    let! paper := is_paper in
    if (paper : bool) then
      let! id := call new_uuid in
      do! track_quote symbol slice id in
      mret (Ok tt)
    else
      let! r := call (x_place_order
        (mkNewOrder symbol (q_side q) Limit (Some price) qty (Some Ioc) None reduce_only)) in
      match r with
      | Ok id => do! track_quote symbol slice id in mret (Ok tt)
      | Err e => mret (Err e)
      end.

Definition execute_unwind_slice (symbol : string) (q : Quote) (product : ProductSpec) :=
  execute_unwind_slice_flagged symbol q product false.
Definition execute_reduce_slice (symbol : string) (q : Quote) (product : ProductSpec) :=
  execute_unwind_slice_flagged symbol q product true.

(** The per-order pass of [cancel_all]: errors are logged and dropped. *)
Definition cancel_quietly (symbol : string) (id : OrderId) : M Sys unit :=
  let! _ := call (x_cancel_order symbol id) in mret tt.

Definition cancel_all_chunk (symbol : string) (chunk : list OrderId) : M Sys unit :=
  let! r := call (x_cancel_orders_batch symbol chunk) in
  match r with
  | Ok _ => mret tt
  | Err _ => miter_M (cancel_quietly symbol) chunk
  end.

Definition issue_cancels (symbol : string) (ids : list OrderId) : M Sys unit :=
  let max_batch := Nat.max max_batch_size 1 in
  if decide (MIN_BATCH_SIZE ≤ length ids ∧ MIN_BATCH_SIZE ≤ max_batch) then
    miter_M (cancel_all_chunk symbol) (chunks max_batch ids)
  else miter_M (cancel_quietly symbol) ids.

(** [for id in ids: if !open.contains(id) remove_order(id)]. *)
Definition sync_gone (opened : gset OrderId) (ids : list OrderId) : M Sys unit :=
  miter_M (λ id, if decide (id ∈ opened) then mret tt else remove id) ids.

Definition open_ids (l : list LiveOrder) : gset OrderId := list_to_set (lo_order_id <$> l).

(** The survivors of the first verification are retried one by one and
    verified again. *)
Definition cancel_all_retry (symbol : string) (ids survivors : list OrderId) :
    M Sys (result unit (list OrderId)) :=
  do! miter_M (cancel_quietly symbol) survivors in
  let! r := call (x_get_open_orders symbol) in
  let! survivors := match r with
    | Ok final_orders =>
        let final_open := open_ids final_orders in
        do! sync_gone final_open ids in
        mret (filter (λ id, id ∈ final_open) survivors)
    | Err _ => mret survivors
    end in
  match survivors with
  | [] => mret (Ok tt)
  | _ => mret (Err survivors)
  end.

(** [Err] carries the ids still open. *)
Definition cancel_all (symbol : string) : M Sys (result unit (list OrderId)) :=
  let! ids := mgets (λ s, live_order_ids (om s)) in
  match ids with
  | [] => mret (Ok tt)
  | _ =>
      let! paper := is_paper in
      if (paper : bool) then do! miter_M remove ids in mret (Ok tt)
      else
        do! issue_cancels symbol ids in
        let! r := call (x_get_open_orders symbol) in
        match r with
        | Ok venue_orders =>
            let still_open := open_ids venue_orders in
            do! sync_gone still_open ids in
            match filter (λ id, id ∈ still_open) ids with
            | [] => mret (Ok tt)
            | survivors => cancel_all_retry symbol ids survivors
            end
        | Err _ => do! miter_M remove ids in mret (Ok tt)
        end
  end.

(** The default [amend_order] of the trait: cancel, then place. *)
Definition default_amend_order (a : AmendOrder) (w : world) : result unit x_error * world :=
  let '(r, w) := x_cancel_order (am_symbol a) (am_order_id a) w in
  match r with
  | Err e => (Err e, w)
  | Ok _ =>
      let new := mkNewOrder (am_symbol a) Buy Limit (am_new_price a)
        (default dec0 (am_new_qty a)) (Some PostOnly) None false in
      let '(r, w) := x_place_order new w in
      match r with
      | Err e => (Err e, w)
      | Ok _ => (Ok tt, w)
      end
  end.
End Exec.

(** ** Invariant and specifications of the steps *)
Section Specs.
Context {D : Decimal} {L : DecimalLaws D} {C : Clock} {I : HashMapIter}.
Context {X : Exchange} {XL : ExchangeLaws X}.
Implicit Types (s : Sys) (q : Quote).

(** The index is consistent and every tracked id was issued. *)
Record inv s : Prop := {
  inv_wf : wf (om s);
  inv_issued id : is_Some (live_orders (om s) !! id) → id ∈ issued (outside s);
}.

Definition qkey q : Side * dec := (q_side q, q_price q).

Definition placed (o : BatchPlaceOutcome) : bool :=
  match o with Placed _ | PlacedFallback _ => true | _ => false end.

(** The quotes [qs] can be placed: distinct, free levels. *)
Definition placeable (qs : list Quote) s : Prop :=
  NoDup (qkey <$> qs) ∧ ∀ q, q ∈ qs → price_index (om s) !! qkey q = None.

(** Placing [qs] with the outcomes [outs] adds exactly the levels of the
    quotes whose outcome is a placement. *)
Record placed_rel (qs : list Quote) (outs : list BatchPlaceOutcome) s s' : Prop := {
  pl_inv : inv s';
  pl_paper : paper_mode (om s') = paper_mode (om s);
  pl_len : length outs = length qs;
  pl_index k : is_Some (price_index (om s') !! k) ↔
    is_Some (price_index (om s) !! k) ∨
    ∃ q o, (q, o) ∈ zip qs outs ∧ placed o = true ∧ qkey q = k;
}.

Lemma inv_world s w : inv s → issued (outside s) ⊆ issued w → inv (mkSys (om s) w).
Proof. intros [H1 H2] Hw. split; [done|]. intros id Hid. simpl. by apply Hw, H2. Qed.

Lemma placed_rel_none s s' qs outs :
  inv s' → om s' = om s → length outs = length qs → Forall (λ o, placed o = false) outs →
  placed_rel qs outs s s'.
Proof.
  intros Hi Ho Hl Hf. split; [done|by rewrite Ho|done|].
  intros k. rewrite Ho. split; [by left|]. intros [H|(q & o & Hin & Hp & _)]; [done|].
  apply elem_of_zip_r in Hin. rewrite Forall_forall in Hf. by rewrite Hf in Hp.
Qed.

Lemma placed_rel_app qs1 qs2 o1 o2 s s1 s2 :
  placed_rel qs1 o1 s s1 → placed_rel qs2 o2 s1 s2 →
  placed_rel (qs1 ++ qs2) (o1 ++ o2) s s2.
Proof.
  intros [_ Hp1 Hl1 Hx1] [Hi2 Hp2 Hl2 Hx2]. split; [done|congruence| |].
  - rewrite !length_app. lia.
  - intros k. rewrite Hx2, Hx1, zip_with_app by done. setoid_rewrite elem_of_app. split.
    + intros [[?|(q & o & ? & ?)]|(q & o & ? & ?)]; [by left|right; eauto..].
    + intros [?|(q & o & [?|?] & ?)]; [eauto| |]; [left; right|right]; eauto.
Qed.

Lemma placed_rel_outcome qs outs outs' s s' :
  placed <$> outs' = placed <$> outs → placed_rel qs outs s s' → placed_rel qs outs' s s'.
Proof.
  intros Ho [H1 H2 H3 H4].
  assert (Hl : length outs' = length outs).
  { apply (f_equal length) in Ho. by rewrite !length_fmap in Ho. }
  split; [done..|lia|]. intros k. rewrite H4.
  assert (Hz : ∀ x y : list BatchPlaceOutcome, placed <$> x = placed <$> y →
    ∀ q o, (q, o) ∈ zip qs x → ∃ o', (q, o') ∈ zip qs y ∧ placed o' = placed o).
  { clear. induction qs as [|q qs IH]; intros [|o x] [|o' y] E q' o'' Hin;
      simpl in *; simplify_eq; try by apply not_elem_of_nil in Hin.
    apply elem_of_cons in Hin as [[= -> ->]|Hin].
    - exists o'. split; [left|done].
    - destruct (IH x y) with (q := q') (o := o'') as (o1 & ? & ?); [done..|].
      exists o1. split; [by right|done]. }
  split; (intros [?|(q & o & Hin & Hp & Hk)]; [by left|right]).
  - destruct (Hz outs outs' (eq_sym Ho) q o Hin) as (o' & ? & ?). exists q, o'. by repeat split; [..|congruence|].
  - destruct (Hz outs' outs Ho q o Hin) as (o' & ? & ?). exists q, o'. by repeat split; [..|congruence|].
Qed.

Lemma placeable_app qs1 qs2 s : placeable (qs1 ++ qs2) s → placeable qs1 s.
Proof.
  intros [Hnd Hf]. rewrite fmap_app in Hnd. apply NoDup_app in Hnd as (? & _ & _).
  split; [done|]. intros q Hq. apply Hf, elem_of_app. by left.
Qed.

Lemma placeable_rest qs1 qs2 o1 s s1 :
  placeable (qs1 ++ qs2) s → placed_rel qs1 o1 s s1 → placeable qs2 s1.
Proof.
  intros [Hnd Hf] [_ _ _ Hx]. rewrite fmap_app in Hnd.
  apply NoDup_app in Hnd as (_ & Hdisj & Hnd2). split; [done|].
  intros q Hq. apply eq_None_not_Some. intros [Hk|(q' & o & Hin & _ & Hk)]%Hx.
  - rewrite Hf in Hk; [by apply is_Some_None in Hk|]. apply elem_of_app. by right.
  - apply elem_of_zip_l in Hin. apply (Hdisj (qkey q)); [|by apply list_elem_of_fmap_2].
    rewrite <- Hk. by apply list_elem_of_fmap_2.
Qed.

Definition place_spec (qs : list Quote) (m : M Sys (list BatchPlaceOutcome)) : Prop :=
  ∀ s, inv s → placeable qs s → ∃ outs s', m s = Done (outs, s') ∧ placed_rel qs outs s s'.

Definition place_one_spec q (m : M Sys BatchPlaceOutcome) : Prop :=
  ∀ s, inv s → price_index (om s) !! qkey q = None →
    ∃ o s', m s = Done (o, s') ∧ placed_rel [q] [o] s s'.

Lemma place_spec_nil : place_spec [] (mret []).
Proof.
  intros s Hi _. exists [], s. split; [done|]. by apply placed_rel_none.
Qed.

Lemma place_spec_app qs1 qs2 m1 m2 :
  place_spec qs1 m1 → place_spec qs2 m2 →
  place_spec (qs1 ++ qs2) (let! x := m1 in let! y := m2 in mret (x ++ y)).
Proof.
  intros H1 H2 s Hi Hp.
  destruct (H1 s Hi (placeable_app _ _ _ Hp)) as (o1 & s1 & E1 & R1).
  destruct (H2 s1 (pl_inv _ _ _ _ R1) (placeable_rest _ _ _ _ _ Hp R1)) as (o2 & s2 & E2 & R2).
  exists (o1 ++ o2), s2. split; [|by eapply placed_rel_app].
  unfold mbind_M. by rewrite E1, E2.
Qed.

Lemma place_spec_mmap f qs :
  (∀ q, q ∈ qs → place_one_spec q (f q)) → place_spec qs (mmap_M f qs).
Proof.
  induction qs as [|q qs IH]; intros Hf; [apply place_spec_nil|].
  intros s Hi Hp. simpl.
  destruct (Hf q) with (s := s) as (o & s1 & E1 & R1); [left|done|apply Hp; left|].
  destruct IH with (s := s1) as (os & s2 & E2 & R2).
  { intros q' Hq'. apply Hf. by right. }
  { by destruct R1. }
  { by eapply (placeable_rest [q]). }
  exists (o :: os), s2. split; [|by eapply (placed_rel_app [q] qs [o] os)].
  unfold mbind_M. by rewrite E1, E2.
Qed.

Lemma place_spec_concat f (ch : list (list Quote)) :
  (∀ c, c ∈ ch → place_spec c (f c)) → place_spec (concat ch) (concat_M (f <$> ch)).
Proof.
  induction ch as [|c ch IH]; intros Hf; [apply place_spec_nil|].
  cbn [concat fmap list_fmap concat_M]. apply place_spec_app; [apply Hf; left|].
  apply IH. intros c' Hc'. apply Hf. by right.
Qed.

(** Tracking an issued id that is not live at a free level. *)
Lemma track_quote_rel symbol q id s :
  inv s → id ∈ issued (outside s) → live_orders (om s) !! id = None →
  price_index (om s) !! qkey q = None →
  ∃ s', track_quote symbol q id s = Done (tt, s') ∧ outside s' = outside s ∧
    live_orders (om s') = <[id := quote_entry symbol q id (utc_now (outside s))]>
      (live_orders (om s)) ∧
    ∀ o, placed o = true → placed_rel [q] [o] s s'.
Proof.
  intros [Hwf His] Hid Hlive Hfree. set (e := quote_entry symbol q id (utc_now (outside s))).
  exists (mkSys (track_order (utc_now (outside s)) e (om s)) (outside s)).
  repeat (split; [done|]). intros o Ho. split; [split| |done|]; simpl.
  - by apply wf_track.
  - intros id' [o' H']. apply lookup_insert_Some in H' as [[<- _]|[_ H']]; [done|].
    apply His. by exists o'.
  - done.
  - intros k. change (level e) with (qkey q). rewrite lookup_insert_is_Some. split.
    + intros [<-|[_ H]]; [|by left]. right. exists q, o. split; [left|done].
    + intros [H|(q' & o' & Hin & _ & <-)].
      * destruct (decide (qkey q = k)); [by left|by right].
      * apply list_elem_of_singleton in Hin. simplify_eq. by left.
Qed.

Lemma call_done {A} (f : world → A * world) s a w :
  f (outside s) = (a, w) → call f s = Done (a, mkSys (om s) w).
Proof. unfold call. by intros ->. Qed.

(** The venue or the uuid source handed out a fresh id; the quote is tracked. *)
Lemma track_fresh symbol q id s w :
  inv s → price_index (om s) !! qkey q = None →
  id ∉ issued (outside s) → ({[id]} ∪ issued (outside s)) ⊆ issued w →
  ∃ s', track_quote symbol q id (mkSys (om s) w) = Done (tt, s') ∧
    placed_rel [q] [Placed id] s s'.
Proof.
  intros Hi Hfree Hf Hw.
  assert (Hi' : inv (mkSys (om s) w)) by (apply inv_world; [done|set_solver]).
  destruct (track_quote_rel symbol q id (mkSys (om s) w)) as (s' & E' & _ & _ & R);
    simpl; [done|set_solver| |done|].
  { apply eq_None_not_Some. intros ?%(inv_issued s Hi). done. }
  exists s'. split; [done|]. destruct (R (Placed id) eq_refl) as [? ? ? ?]. by split.
Qed.

Lemma place_one_ok symbol q : place_one_spec q (place_one_quote_outcome symbol q).
Proof.
  intros s Hi Hfree. unfold place_one_quote_outcome.
  rewrite (bind_done is_paper _ s (paper_mode (om s)) s) by done.
  destruct (paper_mode (om s)).
  - destruct (new_uuid (outside s)) as [id w] eqn:E.
    destruct (uuid_fresh _ _ _ E) as [Hf Hw].
    rewrite (bind_done _ _ _ _ _ (call_done _ _ _ _ E)).
    destruct (track_fresh symbol q id s w) as (s' & E' & R); [done..|by rewrite Hw|].
    rewrite (bind_done _ _ _ _ _ E'). by exists (Placed id), s'.
  - destruct (x_place_order (quote_request symbol q) (outside s)) as [[id|e] w] eqn:E;
      rewrite (bind_done _ _ _ _ _ (call_done _ _ _ _ E)).
    + destruct (place_fresh _ _ _ _ E) as [Hf Hw].
      destruct (track_fresh symbol q id s w) as (s' & E' & R); [done..|].
      rewrite (bind_done _ _ _ _ _ E'). by exists (Placed id), s'.
    + exists (PlaceFailed (classify_error e)), (mkSys (om s) w). split; [done|].
      apply placed_rel_none; [|done|done|by constructor].
      apply inv_world; [done|]. by eapply place_err.
Qed.

Lemma place_fallback_ok symbol q : place_one_spec q (place_one_quote_fallback symbol q).
Proof.
  intros s Hi Hf. destruct (place_one_ok symbol q s Hi Hf) as (o & s' & E & R).
  unfold place_one_quote_fallback, mbind_M. rewrite E.
  destruct o; eexists _, s'; (split; [done|]); (eapply placed_rel_outcome; [|exact R]); done.
Qed.

Lemma place_unack_ok symbol q : place_one_spec q (place_one_quote_unack symbol q).
Proof.
  intros s Hi Hf. destruct (place_one_ok symbol q s Hi Hf) as (o & s' & E & R).
  unfold place_one_quote_unack, mbind_M. rewrite E.
  destruct o; eexists _, s'; (split; [done|]); (eapply placed_rel_outcome; [|exact R]); done.
Qed.

(** Tracking the acknowledged ids of a batch. *)
Lemma track_acked_ok symbol ids qs s :
  inv s → NoDup ids → (∀ id, id ∈ ids → id ∈ issued (outside s)) →
  (∀ id, id ∈ ids → live_orders (om s) !! id = None) →
  length ids ≤ length qs → placeable (take (length ids) qs) s →
  ∃ outs s', mmap_M (track_acked symbol) (zip ids qs) s = Done (outs, s') ∧
    placed_rel (take (length ids) qs) outs s s'.
Proof.
  revert qs s. induction ids as [|id ids IH]; intros [|q qs] s Hi Hnd His Hlive Hlen Hp;
    simpl in *; try lia.
  1-2: exists [], s; split; [done|]; by apply placed_rel_none.
  apply NoDup_cons in Hnd as [Hid Hnd].
  destruct (track_quote_rel symbol q id s) as (s1 & E1 & Hw & Hl1 & R1).
  { done. } { apply His. left. } { apply Hlive. left. } { apply Hp. left. }
  specialize (R1 (Placed id) eq_refl).
  destruct (IH qs s1) as (outs & s2 & E2 & R2).
  { by destruct R1. } { done. }
  { intros id' ?. rewrite Hw. apply His. by right. }
  { intros id' Hid'. rewrite Hl1, lookup_insert_ne by congruence. apply Hlive. by right. }
  { lia. } { by eapply (placeable_rest [q]). }
  exists (Placed id :: outs), s2. split.
  - unfold track_acked at 1. simpl.
    rewrite (bind_done _ _ s (Placed id) s1); [by rewrite (bind_done _ _ _ _ _ E2)|].
    by rewrite (bind_done _ _ _ _ _ E1).
  - by apply (placed_rel_app [q] _ [Placed id] outs s s1 s2).
Qed.

Context (HB : batch_bounded X).

Lemma place_chunk_ok symbol chunk : place_spec chunk (place_chunk symbol chunk).
Proof.
  intros s Hi Hp. unfold place_chunk.
  destruct (x_place_orders_batch (quote_request symbol <$> chunk) (outside s))
    as [[ids|e] w] eqn:E; rewrite (bind_done _ _ _ _ _ (call_done _ _ _ _ E)).
  - destruct (batch_fresh _ _ _ _ E) as (Hnd & Hf & Hw).
    apply HB in E. rewrite length_fmap in E.
    assert (Hi' : inv (mkSys (om s) w)) by (apply inv_world; [done|set_solver]).
    destruct (track_acked_ok symbol ids chunk (mkSys (om s) w)) as (o1 & s1 & E1 & R1).
    { done. } { done. }
    { intros id Hid. apply Hw. set_solver. }
    { intros id Hid. apply eq_None_not_Some. intros ?%(inv_issued s Hi). by eapply Hf. }
    { done. }
    { apply (placeable_app _ (drop (length ids) chunk)). by rewrite take_drop. }
    assert (R1' : placed_rel (take (length ids) chunk) o1 s s1)
      by (destruct R1; by split).
    destruct (decide _) as [El|El].
    + exists o1, s1. split; [done|]. by rewrite take_ge in R1' by lia.
    + rewrite (bind_done _ _ _ _ _ E1). unfold slice_from.
      rewrite decide_True by lia. rewrite (bind_done (mret _) _ s1 _ s1) by done.
      destruct (place_spec_mmap (place_one_quote_unack symbol) (drop (length ids) chunk))
        with (s := s1) as (o2 & s2 & E2 & R2).
      { intros q _. apply place_unack_ok. } { by destruct R1. }
      { eapply (placeable_rest (take (length ids) chunk)); [|done]. by rewrite take_drop. }
      rewrite (bind_done _ _ _ _ _ E2). exists (o1 ++ o2), s2. split; [done|].
      rewrite <- (take_drop (length ids) chunk). by eapply placed_rel_app.
  - assert (Hi' : inv (mkSys (om s) w)) by (apply inv_world; [done|by eapply batch_err]).
    destruct (place_spec_mmap (place_one_quote_fallback symbol) chunk)
      with (s := mkSys (om s) w) as (o & s' & E' & R); [|done|done|].
    { intros q _. apply place_fallback_ok. }
    exists o, s'. split; [done|]. by destruct R.
Qed.

Lemma place_batched_ok symbol qs : place_spec qs (place_quotes_batched symbol qs).
Proof.
  assert (Hone : place_spec qs (mmap_M (place_one_quote_outcome symbol) qs)).
  { apply place_spec_mmap. intros q _. apply place_one_ok. }
  intros s Hi Hp. unfold place_quotes_batched.
  destruct qs as [|q qs]; [by apply place_spec_nil|].
  rewrite (bind_done is_paper _ s (paper_mode (om s)) s) by done.
  destruct (paper_mode (om s)); [by apply Hone|].
  destruct (decide _); [by apply Hone|].
  assert (Hc : concat (chunks (Nat.max max_batch_size 1) (q :: qs)) = q :: qs)
    by (apply chunks_concat; lia).
  rewrite <- Hc in Hp.
  destruct (place_spec_concat (place_chunk symbol)
    (chunks (Nat.max max_batch_size 1) (q :: qs)) (λ c _, place_chunk_ok symbol c) s Hi Hp)
    as (o & s' & E & R).
  exists o, s'. split; [done|]. by rewrite Hc in R.
Qed.

(** ** Cancels *)

(** Exactly the entries of [ids] left the book. *)
Record removed_rel (ids : list OrderId) s s' : Prop := {
  rm_inv : inv s';
  rm_paper : paper_mode (om s') = paper_mode (om s);
  rm_live id : live_orders (om s') !! id =
    if decide (id ∈ ids) then None else live_orders (om s) !! id;
}.

Definition cancel_spec {A} (ids : list OrderId) (m : M Sys A) : Prop :=
  ∀ s, inv s → ∃ a s', m s = Done (a, s') ∧ removed_rel ids s s'.

Lemma removed_refl s w :
  inv s → issued (outside s) ⊆ issued w → removed_rel [] s (mkSys (om s) w).
Proof.
  intros Hi Hw. split; [by apply inv_world|done|]. intros id.
  by rewrite decide_False by apply not_elem_of_nil.
Qed.

Lemma removed_app ids1 ids2 s s1 s2 :
  removed_rel ids1 s s1 → removed_rel ids2 s1 s2 → removed_rel (ids1 ++ ids2) s s2.
Proof.
  intros [_ Hp1 H1] [Hi2 Hp2 H2]. split; [done|congruence|]. intros id. rewrite H2, H1.
  repeat case_decide; rewrite ?elem_of_app in *; try done; tauto.
Qed.

Lemma remove_ok id : cancel_spec [id] (remove id).
Proof.
  intros s [Hwf His].
  eexists tt, (mkSys (remove_order (utc_now (outside s)) id (om s)) (outside s)).
  split; [done|]. split; [split| |]; simpl.
  - by apply wf_remove.
  - intros id'. rewrite live_remove. intros [o [_ H]%lookup_delete_Some]. by apply His.
  - unfold remove_order. by destruct (live_orders (om s) !! id).
  - intros id'. rewrite live_remove. case_decide as Hin.
    + apply list_elem_of_singleton in Hin as ->. apply lookup_delete_eq.
    + apply lookup_delete_ne. intros ->. apply Hin. left.
Qed.

Lemma cancel_bind {A B} ids1 ids2 (m : M Sys A) (f : A → M Sys B) :
  cancel_spec ids1 m → (∀ a, cancel_spec ids2 (f a)) → cancel_spec (ids1 ++ ids2) (mbind_M m f).
Proof.
  intros H1 H2 s Hi. destruct (H1 s Hi) as (a & s1 & E1 & R1).
  destruct (H2 a s1 (rm_inv _ _ _ R1)) as (b & s2 & E2 & R2).
  exists b, s2. rewrite (bind_done _ _ _ _ _ E1). split; [done|]. by eapply removed_app.
Qed.

Lemma cancel_ret {A} (a : A) : cancel_spec [] (mret a).
Proof. intros s Hi. exists a, s. split; [done|]. destruct s. by apply removed_refl. Qed.

Lemma cancel_mmap {A} (f : OrderId → M Sys A) ids :
  (∀ id, cancel_spec [id] (f id)) → cancel_spec ids (mmap_M f ids).
Proof.
  intros Hf. induction ids as [|id ids IH]; [apply cancel_ret|]. simpl.
  apply (cancel_bind [id] ids); [done|]. intros a.
  rewrite <- (app_nil_r ids) at 1. apply cancel_bind; [done|]. intros ?. apply cancel_ret.
Qed.

Lemma cancel_call {A} (f : world → A * world) :
  (∀ w a w', f w = (a, w') → issued w ⊆ issued w') → cancel_spec [] (call f).
Proof.
  intros Hf s Hi. destruct (f (outside s)) as [a w] eqn:E.
  exists a, (mkSys (om s) w). rewrite (call_done _ _ _ _ E). split; [done|].
  apply removed_refl; [done|]. by eapply Hf.
Qed.

Lemma cancel_paper : cancel_spec [] is_paper.
Proof. intros s Hi. exists (paper_mode (om s)), s. split; [done|]. destruct s. by apply removed_refl. Qed.

Lemma cancel_concat {A} (f : list OrderId → M Sys (list A)) ch :
  (∀ c, cancel_spec c (f c)) → cancel_spec (concat ch) (concat_M (f <$> ch)).
Proof.
  intros Hf. induction ch as [|c ch IH]; [apply cancel_ret|].
  cbn [concat fmap list_fmap concat_M]. apply cancel_bind; [done|]. intros a.
  rewrite <- (app_nil_r (concat ch)) at 1. apply cancel_bind; [done|]. intros ?. apply cancel_ret.
Qed.
End Specs.

(** ** The cancel path *)
Section CancelPath.
Context {D : Decimal} {L : DecimalLaws D} {C : Clock} {I : HashMapIter}.
Context {X : Exchange} {XL : ExchangeLaws X}.
Implicit Types (s : Sys) (q : Quote).

Lemma remove_then_ok {A} id (a : A) : cancel_spec [id] (do! remove id in mret a).
Proof.
  apply (cancel_bind [id] []); [apply remove_ok|]. intros ?. apply cancel_ret.
Qed.

Lemma cancel_one_ok symbol id : cancel_spec [id] (cancel_one_outcome symbol id).
Proof.
  unfold cancel_one_outcome.
  apply (cancel_bind [] [id]); [apply cancel_paper|]. intros [].
  - apply remove_then_ok.
  - apply (cancel_bind [] [id]).
    + apply cancel_call. intros w r w'. apply cancel_issued.
    + intros []; apply remove_then_ok.
Qed.

Lemma cancel_fallback_ok symbol id : cancel_spec [id] (cancel_one_fallback symbol id).
Proof.
  apply (cancel_bind [id] []); [apply cancel_one_ok|]. intros []; apply cancel_ret.
Qed.

Lemma cancel_chunk_ok symbol chunk : cancel_spec chunk (cancel_chunk symbol chunk).
Proof.
  apply (cancel_bind [] chunk).
  - apply cancel_call. intros w r w'. apply cancels_issued.
  - intros []; apply cancel_mmap; intros id; [apply remove_then_ok | apply cancel_fallback_ok].
Qed.

Lemma cancel_batched_ok symbol ids : cancel_spec ids (cancel_orders_batched symbol ids).
Proof.
  assert (Hone : cancel_spec ids (mmap_M (cancel_one_outcome symbol) ids))
    by (apply cancel_mmap; intros; apply cancel_one_ok).
  unfold cancel_orders_batched. destruct ids as [|id ids]; [apply cancel_ret|].
  apply (cancel_bind [] (id :: ids)); [apply cancel_paper|]. intros []; [done|].
  destruct (decide _); [done|].
  rewrite <- (chunks_concat (Nat.max max_batch_size 1) (id :: ids)) at 1 by lia.
  apply cancel_concat. intros c. apply cancel_chunk_ok.
Qed.

(** ** The gap between the live book and the desired levels *)
Record gap (want : gmap (Side * dec) dec) (o : OrderManager)
    (cs : list OrderId) (qs : list Quote) : Prop := {
  gap_retire id : id ∈ cs ↔ ∃ l, live_orders o !! id = Some l ∧ want !! level l = None;
  gap_retire_nd : NoDup cs;
  gap_create q : q ∈ qs ↔ want !! qkey q = Some (q_qty q) ∧ price_index o !! qkey q = None;
  gap_create_nd : NoDup (qkey <$> qs);
}.

Lemma gap_diff om desired product eps :
  wf om →
  let plan := diff_orders om desired product eps in
  gap (desired_prices product desired) om (to_cancel plan ++ amend_ids plan)
    (to_place plan ++ amend_quotes plan).
Proof.
  intros Hwf plan. split.
  - intros id. by apply plan_ids_elem.
  - by apply plan_ids_NoDup.
  - intros q. apply plan_quotes_elem.
  - apply plan_quotes_NoDup.
Qed.

Lemma gap_perm want o cs cs' qs qs' :
  cs ≡ₚ cs' → qs ≡ₚ qs' → gap want o cs qs → gap want o cs' qs'.
Proof.
  intros Hc Hq [H1 H2 H3 H4]. split.
  - intros id. by rewrite <- Hc.
  - by rewrite <- Hc.
  - intros q. by rewrite <- Hq.
  - by rewrite <- Hq.
Qed.

(** An amend closes one entry of each kind. *)
Lemma gap_reprice want o cs qs id side p n l :
  wf o → live_orders o !! id = Some l → lo_side l = side →
  gap want o (id :: cs) (mkQuote side p n :: qs) →
  wf (reprice_order id p o) ∧ gap want (reprice_order id p o) cs qs.
Proof.
  intros Hwf Hl Hside [H1 H2 H3 H4].
  assert (Hq : want !! (side, p) = Some n ∧ price_index o !! (side, p) = None)
    by (apply (H3 (mkQuote side p n)); left).
  destruct Hq as [Hw Hfree].
  assert (Hstale : want !! level l = None).
  { assert (∃ l, live_orders o !! id = Some l ∧ want !! level l = None) as (l' & ? & ?)
      by (apply H1; left). by simplify_eq. }
  apply NoDup_cons in H2 as [Hid H2]. apply NoDup_cons in H4 as [Hk H4].
  assert (Hwf' : wf (reprice_order id p o))
    by (eapply wf_reprice; [done..|]; by rewrite Hside).
  split; [done|]. split; [| done | | done].
  - intros id'. rewrite (live_reprice _ l) by done. split.
    + intros Hin. assert (id' ∈ id :: cs) as (l' & Hl' & Hw')%H1 by by right.
      exists l'. rewrite lookup_insert_ne by congruence. done.
    + intros (l' & [[<- <-]|[Hne Hl']]%lookup_insert_Some & Hw').
      * unfold level in Hw'. simpl in Hw'. rewrite Hside in Hw'. congruence.
      * assert (id' ∈ id :: cs) as Hin by (apply H1; eauto).
        apply elem_of_cons in Hin as [->|?]; done.
  - intros q. rewrite (index_reprice _ l), Hside by done. split.
    + intros Hin. assert (q ∈ mkQuote side p n :: qs) as [Hwq Hiq]%H3 by by right.
      split; [done|]. rewrite lookup_insert_ne, lookup_delete_ne; [done| |].
      * intros E. rewrite E in Hstale. congruence.
      * intros E. apply Hk. apply list_elem_of_fmap. exists q.
        by rewrite <- E.
    + intros [Hwq [Hiq Hne]%lookup_insert_None].
      assert (Hlq : level l ≠ qkey q) by (intros E; rewrite E in Hstale; congruence).
      rewrite lookup_delete_ne in Hiq by done.
      assert (q ∈ mkQuote side p n :: qs) as Hin by (apply H3; done).
      apply elem_of_cons in Hin as [->|?]; done.
Qed.

(** Cancelling the retired orders leaves only desired levels, and the
    missing levels are still the ones to create. *)
Lemma gap_cancel want s s' cs qs :
  inv s → gap want (om s) cs qs → removed_rel cs s s' → gap want (om s') [] qs.
Proof.
  intros [Hwf _] [H1 H2 H3 H4] [[Hwf' _] _ Hl]. split; [|constructor| |done].
  - intros id. split; [by intros ?%not_elem_of_nil|].
    intros (l & Hlive & Hw). exfalso. rewrite Hl in Hlive.
    case_decide as Hin; [done|]. apply Hin, H1. eauto.
  - intros q. rewrite H3.
    assert (Hsame : ∀ k, is_Some (want !! k) →
      is_Some (price_index (om s) !! k) ↔ is_Some (price_index (om s') !! k)).
    { intros k [n Hn]. split.
      - intros [id (l & Hlive & Hk)%(wf_index _ Hwf)]. exists id.
        apply (wf_index _ Hwf'). exists l. split; [|done].
        rewrite Hl, decide_False; [done|]. intros (l' & ? & ?)%H1. simplify_eq.
      - intros [id (l & Hlive & Hk)%(wf_index _ Hwf')]. exists id.
        apply (wf_index _ Hwf). exists l. split; [|done].
        rewrite Hl in Hlive. by case_decide. }
    rewrite !eq_None_not_Some. split; (intros [Hw Hn]; split; [done|]).
    + intros Hs. apply Hn. by apply Hsame; [rewrite Hw|].
    + intros Hs. apply Hn. by apply Hsame; [rewrite Hw|].
Qed.

(** The amend loop keeps the gap, moving entries between its buckets. *)
Lemma amend_loop_gap want symbol entries cs qs s :
  inv s →
  (∀ a, a ∈ entries → ∃ l, live_orders (om s) !! ap_order_id a = Some l ∧ lo_side l = ap_side a) →
  gap want (om s) (cs ++ (ap_order_id <$> entries))
    (qs ++ ((to_quote ∘ amend_new) <$> entries)) →
  ∃ b s', amend_loop symbol entries cs qs s = Done (b, s') ∧ inv s' ∧
    paper_mode (om s') = paper_mode (om s) ∧ gap want (om s') b.1 b.2.
Proof.
  revert cs qs s. induction entries as [|a entries IH]; intros cs qs s Hi Hlive Hg; simpl.
  { exists (cs, qs), s. simpl in Hg. by rewrite !app_nil_r in Hg. }
  rewrite (bind_done is_paper _ s (paper_mode (om s)) s) by done.
  assert (Hstep : ∀ w, issued (outside s) ⊆ issued w →
    ∃ b s', (do! on_om (reprice_order (ap_order_id a) (new_price a)) in
      amend_loop symbol entries cs qs) (mkSys (om s) w) = Done (b, s') ∧ inv s' ∧
      paper_mode (om s') = paper_mode (om s) ∧ gap want (om s') b.1 b.2).
  { intros w Hw. destruct (Hlive a) as (l & Hl & Hside); [left|].
    set (om' := reprice_order (ap_order_id a) (new_price a) (om s)).
    rewrite (bind_done _ _ _ tt (mkSys om' w)) by done.
    destruct (gap_reprice want (om s) (cs ++ (ap_order_id <$> entries))
      (qs ++ ((to_quote ∘ amend_new) <$> entries)) (ap_order_id a) (ap_side a)
      (new_price a) (ap_qty a) l) as [Hwf' Hg']; [apply Hi|done|done| |].
    { eapply gap_perm; [| |exact Hg]; simpl; by rewrite Permutation_middle. }
    assert (Hpap : paper_mode om' = paper_mode (om s))
      by (unfold om', reprice_order; by rewrite Hl).
    destruct (IH cs qs (mkSys om' w)) as (b & s' & E & Hi' & Hp' & Hgb); [| |done|].
    - split; [done|]. intros id. simpl. unfold om'. rewrite (live_reprice _ l) by done.
      rewrite lookup_insert_is_Some. intros [<-|[_ H]]; apply Hw, Hi; [by exists l|done].
    - intros a' Ha'. destruct (Hlive a') as (l' & Hl' & Hs'); [by right|]. simpl. unfold om'.
      rewrite (live_reprice _ l) by done.
      destruct (decide (ap_order_id a = ap_order_id a')) as [E|E].
      + rewrite E, lookup_insert_eq. exists (with_price (new_price a) l).
        rewrite E in Hl. by simplify_eq.
      + exists l'. by rewrite lookup_insert_ne.
    - exists b, s'. split; [done|]. split; [done|]. split; [|done].
      simpl in Hp'. by rewrite Hp'. }
  destruct (paper_mode (om s)) eqn:Ep.
  - destruct s as [o w]. simpl in *. by apply (Hstep w).
  - set (am := mkAmendOrder (ap_order_id a) symbol (Some (new_price a)) (Some (ap_qty a))).
    destruct (x_amend_order am (outside s)) as [[[]|e] w] eqn:E;
      rewrite (bind_done _ _ _ _ _ (call_done _ _ _ _ E)).
    + apply Hstep. by eapply amend_issued.
    + destruct (IH (cs ++ [ap_order_id a]) (qs ++ [mkQuote (ap_side a) (new_price a) (ap_qty a)])
        (mkSys (om s) w)) as (b & s' & E' & Hi' & Hp' & Hgb).
      * apply inv_world; [done|]. by eapply amend_issued.
      * intros a' Ha'. apply Hlive. by right.
      * by rewrite <- !app_assoc.
      * exists b, s'. simpl in Hp'. by rewrite Ep in Hp'.
Qed.

(** ** [execute_diff] *)
Context (HB : batch_bounded X).

Lemma gap_placeable want s qs : gap want (om s) [] qs → placeable qs s.
Proof. intros [_ _ H3 H4]. split; [done|]. by intros q [_ ?]%H3. Qed.

Lemma gap_place want s s' qs outs :
  inv s → gap want (om s) [] qs → placed_rel qs outs s s' →
  dom (price_index (om s')) ⊆ dom want ∧
  (Forall (λ o, placed o = true) outs → dom (price_index (om s')) = dom want).
Proof.
  intros [Hwf _] [H1 _ H3 _] [Hi' _ Hlen Hx].
  assert (Hin : ∀ k, is_Some (price_index (om s) !! k) → is_Some (want !! k)).
  { intros k [id (l & Hl & <-)%(wf_index _ Hwf)].
    destruct (want !! level l) eqn:E; [done|]. exfalso.
    apply (not_elem_of_nil id). apply H1. eauto. }
  assert (Hsub : dom (price_index (om s')) ⊆ dom want).
  { intros k. rewrite !elem_of_dom, Hx. intros [?|(q & o & Hz & _ & <-)]; [auto|].
    apply elem_of_zip_l, H3 in Hz as [-> _]. done. }
  split; [done|]. intros Hall. apply set_eq. intros k. split; [apply Hsub|].
  rewrite !elem_of_dom, Hx. intros [n Hn].
  destruct (price_index (om s) !! k) eqn:E; [by left|]. right.
  assert (Hq : mkQuote k.1 k.2 n ∈ qs) by (apply H3; unfold qkey; destruct k; done).
  apply list_elem_of_lookup in Hq as [i Hi].
  destruct (lookup_lt_is_Some_2 outs i) as [o Ho];
    [rewrite Hlen; by eapply lookup_lt_Some|].
  exists (mkQuote k.1 k.2 n), o. split; [|split].
  - apply list_elem_of_lookup. exists i. rewrite lookup_zip_with. by rewrite Hi, Ho.
  - rewrite Forall_forall in Hall. apply Hall. apply list_elem_of_lookup. eauto.
  - by destruct k.
Qed.

Lemma execute_diff_run symbol desired product eps s :
  inv s →
  ∃ couts pouts s', execute_diff symbol desired product eps s = Done ((couts, pouts), s') ∧
    inv s' ∧ paper_mode (om s') = paper_mode (om s) ∧
    dom (price_index (om s')) ⊆ dom (desired_prices product desired) ∧
    (Forall (λ o, placed o = true) pouts →
       dom (price_index (om s')) = dom (desired_prices product desired)).
Proof.
  intros Hi. unfold execute_diff.
  set (plan := diff_orders (om s) desired product (if supports_amend then eps else 0%Z)).
  rewrite (bind_done _ _ s plan s) by done.
  destruct (amend_loop_gap (desired_prices product desired) symbol (to_amend plan)
    (to_cancel plan) (to_place plan) s) as (b & s1 & E1 & Hi1 & Hp1 & Hg1); [done| | |].
  { intros a Ha. apply plan_amend in Ha as ((l & Hl & Hlev & _) & _); [|apply Hi].
    exists l. split; [done|]. by injection Hlev. }
  { apply gap_diff, Hi. }
  rewrite (bind_done _ _ _ _ _ E1).
  destruct (cancel_batched_ok symbol b.1 s1 Hi1) as (couts & s2 & E2 & R2).
  rewrite (bind_done _ _ _ _ _ E2).
  pose proof (gap_cancel _ _ _ _ _ Hi1 Hg1 R2) as Hg2.
  destruct (place_batched_ok HB symbol b.2 s2 (rm_inv _ _ _ R2) (gap_placeable _ _ _ Hg2))
    as (pouts & s3 & E3 & R3).
  rewrite (bind_done _ _ _ _ _ E3). exists couts, pouts, s3.
  destruct (gap_place _ _ _ _ _ (rm_inv _ _ _ R2) Hg2 R3) as [Hsub Heq].
  destruct R2 as [_ Hp2 _], R3 as [Hi3 Hp3 _ _].
  split; [done|]. split; [done|]. split; [congruence|]. by split.
Qed.
End CancelPath.

(** ** [cancel_all] *)
Section CancelAll.
Context {D : Decimal} {L : DecimalLaws D} {C : Clock} {I : HashMapIter}.
Context {X : Exchange} {XL : ExchangeLaws X}.
Implicit Types (s : Sys).

Lemma cancel_miter (f : OrderId → M Sys unit) (g : OrderId → list OrderId) ids :
  (∀ id, cancel_spec (g id) (f id)) → cancel_spec (ids ≫= g) (miter_M f ids).
Proof.
  intros Hf. induction ids as [|id ids IH]; [apply cancel_ret|].
  cbn [mbind list_bind miter_M]. by apply cancel_bind.
Qed.

Lemma cancel_quietly_ok symbol id : cancel_spec [] (cancel_quietly symbol id).
Proof.
  apply (cancel_bind [] []); [|intros; apply cancel_ret].
  apply cancel_call. intros w r w'. apply cancel_issued.
Qed.

Lemma cancel_nothing_miter {A} (f : A → M Sys unit) l :
  (∀ x, cancel_spec [] (f x)) → cancel_spec [] (miter_M f l).
Proof.
  intros Hf. induction l as [|x l IH]; [apply cancel_ret|].
  by apply (cancel_bind [] []).
Qed.

Lemma issue_cancels_ok symbol ids : cancel_spec [] (issue_cancels symbol ids).
Proof.
  assert (Hq : ∀ l, cancel_spec [] (miter_M (cancel_quietly symbol) l))
    by (intros; apply cancel_nothing_miter; intros; apply cancel_quietly_ok).
  unfold issue_cancels. destruct (decide _); [|done].
  apply cancel_nothing_miter. intros chunk. apply (cancel_bind [] []).
  - apply cancel_call. intros w r w'. apply cancels_issued.
  - intros []; [apply cancel_ret|done].
Qed.

Definition gone (opened : gset OrderId) (ids : list OrderId) : list OrderId :=
  ids ≫= λ id, if decide (id ∈ opened) then [] else [id].

Lemma gone_elem opened ids id : id ∈ gone opened ids ↔ id ∈ ids ∧ id ∉ opened.
Proof.
  unfold gone. rewrite list_elem_of_bind. split.
  - intros (id' & Hin & Hids). case_decide; [by apply not_elem_of_nil in Hin|].
    apply list_elem_of_singleton in Hin as ->. done.
  - intros [Hin Ho]. exists id. rewrite decide_False by done. split; [left|done].
Qed.

Lemma sync_gone_ok opened ids : cancel_spec (gone opened ids) (sync_gone opened ids).
Proof.
  apply cancel_miter. intros id. case_decide; [apply cancel_ret|apply remove_ok].
Qed.

Lemma open_orders_ok symbol : cancel_spec [] (call (x_get_open_orders symbol)).
Proof. apply cancel_call. intros w r w'. apply open_issued. Qed.

Lemma removed_nothing s s1 s2 :
  removed_rel [] s s1 → removed_rel [] s1 s2 →
  inv s2 ∧ ∀ id, live_orders (om s2) !! id = live_orders (om s) !! id.
Proof.
  intros [_ _ H1] [Hi _ H2]. split; [done|]. intros id. rewrite H2, H1.
  by rewrite !decide_False by apply not_elem_of_nil.
Qed.

(** What [cancel_all] reports about the local book. *)
Definition cancel_report (r : result unit (list OrderId)) s : Prop :=
  match r with
  | Ok _ => live_orders (om s) = ∅
  | Err survivors =>
      survivors ≠ [] ∧ ∀ id, id ∈ survivors ↔ is_Some (live_orders (om s) !! id)
  end.

Lemma cancel_report_survivors s survivors :
  (∀ id, id ∈ survivors ↔ is_Some (live_orders (om s) !! id)) →
  cancel_report (match survivors with [] => Ok tt | _ => Err survivors end) s.
Proof.
  destruct survivors as [|x l]; intros H; simpl; [|done].
  apply map_empty. intros id. apply eq_None_not_Some. intros ?%H. by apply not_elem_of_nil in H0.
Qed.

Lemma cancel_retry_run symbol ids survivors s :
  inv s → (∀ id, id ∈ survivors ↔ is_Some (live_orders (om s) !! id)) →
  (∀ id, is_Some (live_orders (om s) !! id) → id ∈ ids) →
  ∃ r s', cancel_all_retry symbol ids survivors s = Done (r, s') ∧ inv s' ∧ cancel_report r s'.
Proof.
  intros Hi Hs Hids. unfold cancel_all_retry.
  destruct (cancel_nothing_miter (cancel_quietly symbol) survivors
    (cancel_quietly_ok symbol) s Hi) as ([] & s1 & E1 & R1).
  rewrite (bind_done _ _ _ _ _ E1).
  destruct (open_orders_ok symbol s1 (rm_inv _ _ _ R1)) as (r & s2 & E2 & R2).
  rewrite (bind_done _ _ _ _ _ E2).
  destruct (removed_nothing _ _ _ R1 R2) as [Hi2 Hlive2].
  destruct r as [fin|e].
  - destruct (sync_gone_ok (open_ids fin) ids s2 Hi2) as ([] & s3 & E3 & [Hi3 _ Hl3]).
    set (surv := filter (λ id, id ∈ open_ids fin) survivors).
    rewrite (bind_done _ _ s2 surv s3) by (by rewrite (bind_done _ _ _ _ _ E3)).
    exists (match surv with [] => Ok tt | _ => Err surv end), s3.
    split; [by destruct surv|]. split; [done|]. apply cancel_report_survivors.
    intros id. unfold surv. rewrite list_elem_of_filter, Hs, Hl3, Hlive2.
    pose proof (Hids id). pose proof (gone_elem (open_ids fin) ids id) as Hg.
    case_decide as Hd; [rewrite Hg in Hd; split; [tauto|by intros [? ?]]|].
    split; [tauto|]. intros Hsome. split; [|done].
    destruct (decide (id ∈ open_ids fin)); [done|]. destruct Hd. apply Hg. auto.
  - rewrite (bind_done (mret survivors) _ s2 survivors s2) by done.
    exists (match survivors with [] => Ok tt | _ => Err survivors end), s2.
    split; [by destruct survivors|]. split; [done|]. apply cancel_report_survivors.
    intros id. by rewrite Hlive2.
Qed.

(** Removing every tracked order empties the book. *)
Lemma remove_all_run s s1 :
  inv s1 → live_orders (om s1) = live_orders (om s) →
  ∃ s', (do! miter_M remove (live_order_ids (om s)) in mret (Ok tt)) s1 =
      Done (Ok tt : result unit (list OrderId), s') ∧
    inv s' ∧ live_orders (om s') = ∅.
Proof.
  intros Hi1 Hl1.
  destruct (cancel_miter remove (λ id, [id]) (live_order_ids (om s)) (λ id, remove_ok id) s1 Hi1)
    as ([] & s' & E & [Hi' _ Hl']).
  exists s'. rewrite (bind_done _ _ _ _ _ E). split; [done|]. split; [done|].
  apply map_empty. intros id. rewrite Hl', Hl1. case_decide as Hd; [done|].
  apply eq_None_not_Some. intros Hsome. apply Hd, list_elem_of_bind. exists id.
  split; [left|]. by apply hm_keys_elem.
Qed.

Lemma cancel_all_run symbol s :
  inv s → ∃ r s', cancel_all symbol s = Done (r, s') ∧ inv s' ∧ cancel_report r s'.
Proof.
  intros Hi. unfold cancel_all.
  set (ids := live_order_ids (om s)).
  assert (Hids : ∀ id, id ∈ ids ↔ is_Some (live_orders (om s) !! id))
    by (intros; apply hm_keys_elem).
  rewrite (bind_done _ _ s ids s) by done.
  destruct ids as [|x l] eqn:El.
  - exists (Ok tt), s. split; [done|]. split; [done|]. simpl.
    apply map_empty. intros id. apply eq_None_not_Some. intros H%Hids.
    by apply not_elem_of_nil in H.
  - rewrite <- El in *. rewrite (bind_done is_paper _ s (paper_mode (om s)) s) by done.
    destruct (paper_mode (om s)).
    { destruct (remove_all_run s s Hi eq_refl) as (s' & E & ? & ?). by exists (Ok tt), s'. }
    destruct (issue_cancels_ok symbol ids s Hi) as ([] & s1 & E1 & R1).
    rewrite (bind_done _ _ _ _ _ E1).
    destruct (open_orders_ok symbol s1 (rm_inv _ _ _ R1)) as (r & s2 & E2 & R2).
    rewrite (bind_done _ _ _ _ _ E2).
    destruct (removed_nothing _ _ _ R1 R2) as [Hi2 Hlive2].
    destruct r as [venue|e].
    2:{ destruct (remove_all_run s s2 Hi2) as (s' & E & ? & ?); [by apply map_eq|]. by exists (Ok tt), s'. }
    destruct (sync_gone_ok (open_ids venue) ids s2 Hi2) as ([] & s3 & E3 & [Hi3 _ Hl3]).
    rewrite (bind_done _ _ _ _ _ E3).
    set (surv := filter (λ id, id ∈ open_ids venue) ids).
    assert (Hsurv : ∀ id, id ∈ surv ↔ is_Some (live_orders (om s3) !! id)).
    { intros id. unfold surv. rewrite list_elem_of_filter, Hl3, Hlive2, Hids.
      pose proof (gone_elem (open_ids venue) ids id) as Hg. rewrite Hids in Hg.
      case_decide as Hd; [split; [tauto|by intros [? ?]]|].
      destruct (decide (id ∈ open_ids venue)); [tauto|]. tauto. }
    destruct surv as [|y surv'] eqn:Es.
    + exists (Ok tt), s3. split; [done|]. split; [done|].
      by apply (cancel_report_survivors s3 []).
    + apply cancel_retry_run; [done|done|].
      intros id. rewrite Hl3, Hlive2, Hids. case_decide; [by intros [? ?]|done].
Qed.
End CancelAll.

(** *** What [cancel_all] leaves at the venue *)
Section CancelVenue.
Context {D : Decimal} {L : DecimalLaws D} {C : Clock} {I : HashMapIter}.
Context {X : Exchange} {XL : ExchangeLaws X} {VO : VenueOpen X} (symbol : string).
Implicit Types (s : Sys) (O : gset OrderId).

(** At most the orders of [O] are open. *)
Definition open_within O s : Prop := venue_open symbol (outside s) ⊆ O.

Definition keeps {A} (m : M Sys A) : Prop := ∀ O, triple (open_within O) m (λ _, open_within O).

Lemma keeps_ret {A} (a : A) : keeps (mret a).
Proof. intros O. by apply triple_ret. Qed.

Lemma keeps_bind {A B} (m : M Sys A) (f : A → M Sys B) : keeps m → (∀ a, keeps (f a)) → keeps (mbind_M m f).
Proof. intros Hm Hf O. eapply triple_bind; [apply Hm|]. intros a. apply Hf. Qed.

Lemma keeps_miter {A} (f : A → M Sys unit) l : (∀ x, keeps (f x)) → keeps (miter_M f l).
Proof. intros Hf. induction l as [|x l IH]; [apply keeps_ret|]. by apply keeps_bind. Qed.

Lemma keeps_call {A} (f : world → A * world) :
  (∀ w a w', f w = (a, w') → venue_open symbol w' ⊆ venue_open symbol w) → keeps (call f).
Proof.
  intros Hf O s Hs. unfold call. destruct (f (outside s)) as [a w'] eqn:E. exists a, (mkSys (om s) w'). split; [done|].
  specialize (Hf _ _ _ E). unfold open_within in *. cbn. set_solver.
Qed.

Lemma keeps_remove id : keeps (remove id).
Proof. intros O s Hs. by eexists _, _. Qed.

Lemma keeps_quietly id : keeps (cancel_quietly symbol id).
Proof. apply keeps_bind; [|intros; apply keeps_ret]. apply keeps_call. intros w r w'. apply cancel_opens_none. Qed.

Lemma keeps_listing : keeps (call (x_get_open_orders symbol)).
Proof. apply keeps_call. intros w r w'. apply listing_opens_none. Qed.

Lemma keeps_sync opened ids : keeps (sync_gone opened ids).
Proof. apply keeps_miter. intros id. destruct (decide _); [apply keeps_ret|apply keeps_remove]. Qed.

Lemma keeps_chunk chunk : keeps (cancel_all_chunk symbol chunk).
Proof.
  apply keeps_bind; [apply keeps_call; intros w r w'; apply batch_opens_none|].
  intros [?|?]; [apply keeps_ret|]. apply keeps_miter, keeps_quietly.
Qed.

Lemma keeps_issue ids : keeps (issue_cancels symbol ids).
Proof. unfold issue_cancels. destruct (decide _); apply keeps_miter; intros; [apply keeps_chunk|apply keeps_quietly]. Qed.

(** A listing that is answered bounds what is open from then on. *)
Lemma listing_bounds : (∀ w, is_ok (x_get_open_orders symbol w).1 = true) → ∀ O,
  triple (open_within O) (call (x_get_open_orders symbol))
    (λ r s, ∃ l, r = Ok l ∧ open_within (O ∩ open_ids l) s).
Proof.
  intros Hok O s Hs. unfold call. specialize (Hok (outside s)).
  destruct (x_get_open_orders symbol (outside s)) as [[l|e] w'] eqn:E; [|done]. exists (Ok l), (mkSys (om s) w'). split; [done|].
  exists l. split; [done|]. pose proof (listing_true _ _ _ _ E) as Ht. pose proof (listing_opens_none _ _ _ _ E).
  unfold open_within, open_ids in *. cbn. rewrite Ht. set_solver.
Qed.

Lemma retry_reports ids survivors O : (∀ w, is_ok (x_get_open_orders symbol w).1 = true) →
  (∀ id, id ∈ ids → id ∈ O → id ∈ survivors) →
  triple (open_within O) (cancel_all_retry symbol ids survivors)
    (λ r s, ∀ id, id ∈ ids → id ∈ venue_open symbol (outside s) → ∃ l, r = Err l ∧ id ∈ l).
Proof.
  intros Hok Hsurv. unfold cancel_all_retry. eapply triple_bind; [apply keeps_miter; intros; apply keeps_quietly|]. intros [].
  eapply triple_bind; [apply (listing_bounds Hok)|]. intros r.
  apply (triple_bind _ _ _ (λ sv s, ∀ id, id ∈ ids → id ∈ venue_open symbol (outside s) → id ∈ sv)).
  - intros s (l & -> & Hs). destruct (keeps_sync (open_ids l) ids _ s Hs) as ([] & s' & E & Hs').
    eexists _, s'. rewrite (bind_done _ _ _ _ _ E). split; [done|]. intros id Hid Hin. apply Hs' in Hin.
    apply elem_of_intersection in Hin. apply list_elem_of_filter. split; [tauto|]. apply Hsurv; tauto.
  - intros [|x sv]; apply triple_ret; intros s H id Hid Hin; specialize (H id Hid Hin); [by apply elem_of_nil in H|by eauto].
Qed.

(** With the listing answered, every tracked order that is open is reported. *)
Lemma cancel_all_reports s r s' : (∀ w, is_ok (x_get_open_orders symbol w).1 = true) → paper_mode (om s) = false →
  cancel_all symbol s = Done (r, s') → ∀ id, id ∈ live_order_ids (om s) → id ∈ venue_open symbol (outside s') →
  ∃ l, r = Err l ∧ id ∈ l.
Proof.
  intros Hok Hp Hrun id Hid Hin. unfold cancel_all in Hrun. set (ids := live_order_ids (om s)) in *.
  rewrite (bind_done _ _ s ids s) in Hrun by done. assert (Hne : ids ≠ []) by (intros E; rewrite E in Hid; by apply elem_of_nil in Hid).
  assert (Htr : triple (λ s1, s1 = s) (let! paper := is_paper in
      if (paper : bool) then do! miter_M remove ids in mret (Ok tt)
      else
        do! issue_cancels symbol ids in
        let! r := call (x_get_open_orders symbol) in
        match r with
        | Ok venue_orders =>
            let still_open := open_ids venue_orders in
            do! sync_gone still_open ids in
            match filter (λ id, id ∈ still_open) ids with
            | [] => mret (Ok tt)
            | survivors => cancel_all_retry symbol ids survivors
            end
        | Err _ => do! miter_M remove ids in mret (Ok tt)
        end)
    (λ r s, ∀ id, id ∈ ids → id ∈ venue_open symbol (outside s) → ∃ l, r = Err l ∧ id ∈ l)).
  { apply (triple_bind _ _ _ (λ p s1, p = false ∧ open_within (venue_open symbol (outside s)) s1)).
    { intros s1 ->. exists false, s. unfold is_paper, mgets. rewrite Hp. split; [done|]. split; [done|]. by unfold open_within. }
    intros paper s1 [-> H1]. revert s1 H1. apply (triple_bind _ _ _ (λ _, open_within (venue_open symbol (outside s)))); [apply keeps_issue|].
    intros []. eapply triple_bind; [apply (listing_bounds Hok)|]. intros r1 s1 (l & -> & H1).
    revert s1 H1. eapply triple_bind; [apply keeps_sync|]. intros []. cbv zeta.
    assert (Hsv : ∀ O, open_within (O ∩ open_ids l) = open_within (O ∩ open_ids l)) by done.
    destruct (filter (λ id, id ∈ open_ids l) ids) as [|x sv] eqn:Ef.
    - apply triple_ret. intros s1 H1 i Hi Hopen. apply H1 in Hopen. apply elem_of_intersection in Hopen.
      assert (Hf : i ∈ filter (λ id, id ∈ open_ids l) ids) by (apply list_elem_of_filter; tauto). rewrite Ef in Hf. by apply elem_of_nil in Hf.
    - apply retry_reports; [exact Hok|]. intros i Hi Hopen. apply elem_of_intersection in Hopen. rewrite <- Ef.
      apply list_elem_of_filter. tauto. }
  destruct (Htr s eq_refl) as (r0 & s0 & E0 & H0).
  assert (Heq : Done (r0, s0) = Done (r, s')) by (rewrite <- E0, <- Hrun; by destruct ids).
  injection Heq as -> ->. by apply H0.
Qed.

(** A venue that accepts every cancellation has none of the orders open. *)
Definition closed (K : list OrderId) s : Prop := ∀ id, id ∈ K → id ∉ venue_open symbol (outside s).

Lemma closed_keeps {A} (m : M Sys A) K : keeps m → triple (closed K) m (λ _, closed K).
Proof.
  intros Hm s Hs. destruct (Hm (venue_open symbol (outside s)) s) as (a & s' & E & H); [by unfold open_within|].
  exists a, s'. split; [done|]. intros id Hid Hin. by apply (Hs id Hid), H.
Qed.

Lemma closed_quietly K id : (∀ w i, is_ok (x_cancel_order symbol i w).1 = true) →
  triple (closed K) (cancel_quietly symbol id) (λ _, closed (K ++ [id])).
Proof.
  intros Hok s Hs. unfold cancel_quietly, call. specialize (Hok (outside s) id).
  destruct (x_cancel_order symbol id (outside s)) as [[[]|e] w'] eqn:E; [|done]. unfold mbind_M. rewrite E.
  eexists _, _. split; [done|]. intros i Hi. apply elem_of_app in Hi. destruct Hi as [Hi|Hi].
  - pose proof (cancel_opens_none _ _ _ _ _ E). intros Hin. apply (Hs i Hi). cbn in Hin. set_solver.
  - apply list_elem_of_singleton in Hi as ->. apply (cancel_closes _ _ _ _ E).
Qed.

Lemma closed_miter (f : OrderId → M Sys unit) l : ∀ K,
  (∀ K id, triple (closed K) (f id) (λ _, closed (K ++ [id]))) → triple (closed K) (miter_M f l) (λ _, closed (K ++ l)).
Proof.
  induction l as [|x l IH]; intros K Hf; [apply triple_ret; by rewrite app_nil_r|]. cbn [miter_M].
  eapply triple_bind; [apply Hf|]. intros []. eapply triple_conseq; [apply (IH (K ++ [x]) Hf)|done|].
  intros ? ?. by rewrite <- app_assoc.
Qed.

Lemma closed_chunk K chunk : (∀ w i, is_ok (x_cancel_order symbol i w).1 = true) →
  triple (closed K) (cancel_all_chunk symbol chunk) (λ _, closed (K ++ chunk)).
Proof.
  intros Hok. unfold cancel_all_chunk. intros s Hs. unfold call, mbind_M.
  destruct (x_cancel_orders_batch symbol chunk (outside s)) as [[[]|e] w'] eqn:E.
  - eexists _, _. split; [done|]. intros i Hi. apply elem_of_app in Hi. destruct Hi as [Hi|Hi]; [|by apply (batch_closes _ _ _ _ _ E)].
    pose proof (batch_opens_none _ _ _ _ _ E). intros Hin. apply (Hs i Hi). cbn in Hin. set_solver.
  - apply (closed_miter (cancel_quietly symbol) chunk K (λ K id, closed_quietly K id Hok)).
    pose proof (batch_opens_none _ _ _ _ _ E). intros i Hi Hin. apply (Hs i Hi). cbn in Hin. set_solver.
Qed.

Lemma closed_chunks cs : (∀ w i, is_ok (x_cancel_order symbol i w).1 = true) → ∀ K,
  triple (closed K) (miter_M (cancel_all_chunk symbol) cs) (λ _, closed (K ++ concat cs)).
Proof.
  intros Hok. induction cs as [|c cs IH]; intros K; [apply triple_ret; by rewrite app_nil_r|]. cbn [miter_M concat].
  eapply triple_bind; [by apply closed_chunk|]. intros []. eapply triple_conseq; [apply IH|done|].
  intros ? ?. by rewrite <- app_assoc.
Qed.

Lemma closed_issue ids : (∀ w i, is_ok (x_cancel_order symbol i w).1 = true) →
  triple (closed []) (issue_cancels symbol ids) (λ _, closed ids).
Proof.
  intros Hok. unfold issue_cancels. destruct (decide _) as [[_ Hb]|_].
  - pose proof (closed_chunks (chunks (Nat.max max_batch_size 1) ids) Hok []) as H. rewrite chunks_concat in H by lia. exact H.
  - exact (closed_miter (cancel_quietly symbol) ids [] (λ K id, closed_quietly K id Hok)).
Qed.

Lemma cancel_all_closes s r s' : (∀ w i, is_ok (x_cancel_order symbol i w).1 = true) → paper_mode (om s) = false →
  cancel_all symbol s = Done (r, s') → closed (live_order_ids (om s)) s'.
Proof.
  intros Hok Hp Hrun. unfold cancel_all in Hrun. set (ids := live_order_ids (om s)) in *.
  rewrite (bind_done _ _ s ids s) in Hrun by done. clearbody ids. destruct ids as [|x l]; [intros i Hi; by apply elem_of_nil in Hi|].
  cbv beta iota in Hrun. set (ids := x :: l) in *. clearbody ids. clear x l. rewrite (bind_done is_paper _ s false s) in Hrun by (unfold is_paper, mgets; by rewrite Hp).
  destruct (closed_issue ids Hok s) as ([] & s1 & E1 & H1); [intros i Hi; by apply elem_of_nil in Hi|].
  rewrite (bind_done _ _ _ _ _ E1) in Hrun.
  match type of Hrun with ?m s1 = _ => assert (Hrest : keeps m) end.
  { apply keeps_bind; [apply keeps_listing|].
    intros [vl|e]; [|apply keeps_bind; [apply keeps_miter, keeps_remove|intros; apply keeps_ret]].
    apply keeps_bind; [apply keeps_sync|]. intros []. cbv zeta.
    assert (Hretry : ∀ sv, keeps (cancel_all_retry symbol ids sv)).
    { intros sv. apply keeps_bind; [apply keeps_miter, keeps_quietly|]. intros []. apply keeps_bind; [apply keeps_listing|].
      intros r1. apply keeps_bind; [destruct r1; [apply keeps_bind; [apply keeps_sync|intros; apply keeps_ret]|apply keeps_ret]|].
      intros [|? ?]; apply keeps_ret. }
    destruct (filter _ ids); [apply keeps_ret|apply Hretry]. }
  destruct (closed_keeps _ ids Hrest s1 H1) as (r0 & s0 & E0 & H0). rewrite E0 in Hrun. by injection Hrun as <- <-.
Qed.
End CancelVenue.

(** ** Properties of the execution *)
Lemma chunks_single {A} n (l : list A) : 0 < length l ≤ n → chunks n l = [l].
Proof.
  intros H. destruct l as [|x l]; [simpl in H; lia|]. unfold chunks. simpl length.
  cbn [chunks_fuel]. rewrite take_ge, drop_ge by (simpl in *; lia).
  by destruct (length l).
Qed.

Lemma mmap_track_done {D : Decimal} {C : Clock} {I : HashMapIter} {X : Exchange}
    symbol (l : list (OrderId * Quote)) (s : Sys) :
  ∃ outs s', mmap_M (track_acked symbol) l s = Done (outs, s').
Proof.
  revert s. induction l as [|x l IH]; intros s; [by exists [], s|].
  cbn [mmap_M]. unfold track_acked at 1, track_quote, track.
  edestruct IH as (outs & s' & E). eexists _, s'.
  erewrite bind_done by reflexivity. by rewrite (bind_done _ _ _ _ _ E).
Qed.

Section ExecProperties.
Context {D : Decimal} {L : DecimalLaws D} {C : Clock} {I : HashMapIter}.
Context {X : Exchange} {XL : ExchangeLaws X}.
Implicit Types (s : Sys).

(** C3: against a venue whose ids are fresh and whose batch answers are not
    longer than the request, [execute_diff] always returns, keeps the index
    consistent and leaves no live order at an undesired level, whatever the
    venue rejected. When every placement was acknowledged the live levels are
    the desired ones, and the next diff is empty. *)
Theorem execute_diff_converges symbol desired product eps s
  (HB : batch_bounded X) (Hi : inv s) :
  ∃ couts pouts s', execute_diff symbol desired product eps s = Done ((couts, pouts), s') ∧
    inv s' ∧
    dom (price_index (om s')) ⊆ dom (desired_prices product desired) ∧
    (Forall (λ o, placed o = true) pouts →
       dom (price_index (om s')) = dom (desired_prices product desired) ∧
       ∀ eps', diff_orders (om s') desired product eps' = mkOrderDiffPlan [] [] []).
Proof.
  destruct (execute_diff_run HB symbol desired product eps s Hi)
    as (couts & pouts & s' & E & Hi' & _ & Hsub & Heq).
  exists couts, pouts, s'. split; [done|]. split; [done|]. split; [done|].
  intros Hall. split; [by apply Heq|]. intros eps'. apply diff_quiet; [apply Hi'|by apply Heq].
Qed.

(** Placing quotes at distinct free levels returns one outcome per quote,
    in order, however the batches were split, shortened or retried; a level
    is added to the book exactly when its quote's outcome is a placement. *)
Theorem place_quotes_outcomes symbol qs s
  (HB : batch_bounded X) (Hi : inv s) (Hp : placeable qs s) :
  ∃ outs s', place_quotes_batched symbol qs s = Done (outs, s') ∧ inv s' ∧
    length outs = length qs ∧
    (∀ i q o, qs !! i = Some q → outs !! i = Some o →
       is_Some (price_index (om s') !! qkey q) ↔ placed o = true) ∧
    (∀ k, k ∉ qkey <$> qs →
       is_Some (price_index (om s') !! k) ↔ is_Some (price_index (om s) !! k)).
Proof.
  destruct (place_batched_ok HB symbol qs s Hi Hp) as (outs & s' & E & [Hi' _ Hlen Hx]).
  exists outs, s'. split; [done|]. split; [done|]. split; [done|].
  destruct Hp as [Hnd Hfree]. split.
  - intros i q o Hq Ho. rewrite Hx. split.
    + intros [Hs|(q' & o' & Hz & Hpl & Hk)].
      * rewrite Hfree in Hs by by eapply list_elem_of_lookup_2. by apply is_Some_None in Hs.
      * apply list_elem_of_lookup in Hz as [j Hj]. rewrite lookup_zip_with in Hj.
        destruct (qs !! j) as [q1|] eqn:Eq; [|done]. destruct (outs !! j) as [o1|] eqn:Eo; [|done].
        injection Hj as -> ->.
        assert (j = i) as ->.
        { apply (NoDup_lookup (qkey <$> qs) j i (qkey q) Hnd).
          - rewrite list_lookup_fmap, Eq, <- Hk. done.
          - by rewrite list_lookup_fmap, Hq. }
        by simplify_eq.
    + intros Hpl. right. exists q, o. split; [|done]. apply list_elem_of_lookup. exists i.
      by rewrite lookup_zip_with, Hq, Ho.
  - intros k Hk. rewrite Hx. split; [|by left].
    intros [?|(q & o & Hz & _ & <-)]; [done|]. destruct Hk.
    apply elem_of_zip_l in Hz. by apply list_elem_of_fmap_2.
Qed.


(** A batch acknowledgement with more ids than orders makes the slice
    [chunk[ack_count..]] panic after the quotes were tracked. *)
Theorem place_chunk_overrun_panics symbol qs s ids w'
  (Hp : paper_mode (om s) = false) (Hq : 2 ≤ length qs ≤ max_batch_size)
  (Hb : x_place_orders_batch (quote_request symbol <$> qs) (outside s) = (Ok ids, w'))
  (Hlen : length qs < length ids) :
  place_quotes_batched symbol qs s = Panicked.
Proof.
  unfold place_quotes_batched. destruct qs as [|q qs]; [simpl in Hq; lia|].
  rewrite (bind_done is_paper _ s false s) by by rewrite <- Hp.
  rewrite decide_False by (unfold MIN_BATCH_SIZE; lia).
  rewrite chunks_single by lia. cbn [fmap list_fmap concat_M].
  unfold mbind_M at 1.
  assert (place_chunk symbol (q :: qs) s = Panicked) as ->; [|done].
  unfold place_chunk. rewrite (bind_done _ _ _ _ _ (call_done _ _ _ _ Hb)).
  rewrite decide_False by lia.
  destruct (mmap_track_done symbol (zip ids (q :: qs)) (mkSys (om s) w')) as (outs & s' & E).
  rewrite (bind_done _ _ _ _ _ E). unfold slice_from.
  by rewrite decide_False by lia.
Qed.

(** When the venue cannot be asked for its open orders, [cancel_all]
    reports success and forgets every order, even if every cancel failed. *)
Theorem cancel_all_unverified_ok symbol s
  (Hi : inv s) (Hp : paper_mode (om s) = false)
  (Hopen : ∀ w, is_ok (x_get_open_orders symbol w).1 = false) :
  ∃ s', cancel_all symbol s = Done (Ok tt, s') ∧ live_orders (om s') = ∅.
Proof.
  unfold cancel_all. set (ids := live_order_ids (om s)).
  rewrite (bind_done _ _ s ids s) by done.
  destruct ids as [|x l] eqn:El.
  - exists s. split; [done|]. apply map_empty. intros id. apply eq_None_not_Some.
    intros H%hm_keys_elem. change (id ∈ ids) in H. rewrite El in H. by apply not_elem_of_nil in H.
  - rewrite <- El. rewrite (bind_done is_paper _ s false s) by by rewrite <- Hp.
    destruct (issue_cancels_ok symbol ids s Hi) as ([] & s1 & E1 & R1).
    rewrite (bind_done _ _ _ _ _ E1).
    destruct (open_orders_ok symbol s1 (rm_inv _ _ _ R1)) as (r & s2 & E2 & R2).
    rewrite (bind_done _ _ _ _ _ E2).
    destruct (removed_nothing _ _ _ R1 R2) as [Hi2 Hlive2].
    assert (Hr : is_ok r = false).
    { pose proof (Hopen (outside s1)) as Ho. unfold call in E2.
      destruct (x_get_open_orders symbol (outside s1)) as [r' w]. by simplify_eq. }
    destruct r as [?|e]; [done|].
    destruct (remove_all_run s s2 Hi2) as (s' & E & _ & ?); [by apply map_eq|]. by exists s'.
Qed.

(** An id the index does not list is in no plan. *)
Lemma plan_id_indexed o desired product eps id :
  id ∈ to_cancel (diff_orders o desired product eps) →
  ∃ k, price_index o !! k = Some id.
Proof.
  destruct (diff_orders_split o desired product eps) as ((st & -> & Hst) & _).
  intros (x & -> & Hx)%list_elem_of_fmap.
  assert (Hin : x ∈ stale_list o (desired_prices product desired))
    by (rewrite <- Hst; apply elem_of_app; by left).
  rewrite stale_list_perm, list_elem_of_omap in Hin. destruct Hin as ([k id] & Hk & Hs).
  apply elem_of_map_to_list in Hk. exists k. simpl in Hs.
  destruct (_ !! k) eqn:E1 in Hs; [done|]. destruct (live_orders o !! id); by simplify_eq.
Qed.

(** Two entries tracked at one level share its index slot. Once the newer is
    removed, the older is live but in no index slot, so that no later diff
    plans its cancellation, whatever is desired. *)
Theorem same_level_orphans o l1 l2 now1 now2 now3 desired product eps :
  wf o → lo_order_id l1 ≠ lo_order_id l2 → level l1 = level l2 →
  live_orders o !! lo_order_id l1 = None →
  let o' := remove_order now3 (lo_order_id l2) (track_order now2 l2 (track_order now1 l1 o)) in
  live_orders o' !! lo_order_id l1 = Some l1 ∧
  lo_order_id l1 ∉ to_cancel (diff_orders o' desired product eps).
Proof.
  intros Hwf Hne Hlev Hfresh o'.
  assert (Hl2 : live_orders (track_order now2 l2 (track_order now1 l1 o)) !! lo_order_id l2 = Some l2)
    by (rewrite live_track; apply lookup_insert_eq).
  split.
  - unfold o'. rewrite live_remove, lookup_delete_ne by done.
    rewrite live_track, lookup_insert_ne by done. rewrite live_track. apply lookup_insert_eq.
  - intros [k Hk]%plan_id_indexed. unfold o' in Hk.
    rewrite (index_remove _ _ l2), !index_track, Hlev in Hk by done.
    rewrite delete_insert_eq, delete_insert_eq in Hk.
    apply lookup_delete_Some in Hk as [_ (l & Hl & _)%(wf_index _ Hwf)]. congruence.
Qed.

(** The default amend re-places every order as a buy. *)
Lemma default_amend_places_buy a w w1 :
  x_cancel_order (am_symbol a) (am_order_id a) w = (Ok tt, w1) →
  (default_amend_order a w).2 =
    (x_place_order (mkNewOrder (am_symbol a) Buy Limit (am_new_price a)
      (default dec0 (am_new_qty a)) (Some PostOnly) None false) w1).2.
Proof.
  intros E. unfold default_amend_order. rewrite E. by destruct (x_place_order _ w1) as [[?|?] ?].
Qed.
End ExecProperties.

(** ** Witnesses: a venue that numbers its orders *)
#[export] Instance demo_exchange : Exchange := {|
  world := N;
  utc_now w := sec (Z.of_N w);
  new_uuid w := (w, N.succ w);
  x_error := string;
  classify_error e := e;
  supports_amend := true;
  max_batch_size := 2;
  x_place_order o w := (Ok w, N.succ w);
  x_place_orders_batch os w :=
    (Ok ((λ i, (w + N.of_nat i)%N) <$> seq 0 (length os)), (w + N.of_nat (length os))%N);
  x_cancel_order _ _ w := (Ok tt, w);
  x_cancel_orders_batch _ _ w := (Ok tt, w);
  x_amend_order _ w := (Ok tt, w);
  x_get_open_orders _ w := (Ok [], w);
|}.

Definition demo_issued (w : N) : gset OrderId :=
  list_to_set (N.of_nat <$> seq 0 (N.to_nat w)).

Lemma demo_issued_elem w id : id ∈ demo_issued w ↔ (id < w)%N.
Proof.
  unfold demo_issued. rewrite elem_of_list_to_set, list_elem_of_fmap.
  setoid_rewrite elem_of_seq. split; [intros (n & -> & ?); lia|].
  intros ?. exists (N.to_nat id). lia.
Qed.

#[export] Instance demo_exchange_laws : ExchangeLaws demo_exchange.
Proof.
  refine {| issued := (demo_issued : world → gset OrderId) |}; simpl; intros; simplify_eq.
  - rewrite demo_issued_elem. split; [lia|]. apply set_eq. intros id'.
    rewrite elem_of_union, elem_of_singleton, !demo_issued_elem. lia.
  - rewrite demo_issued_elem. split; [lia|]. intros id'.
    rewrite elem_of_union, elem_of_singleton, !demo_issued_elem. lia.
  - split; [|split].
    + apply NoDup_fmap_2; [intros ? ? ?; lia | apply NoDup_seq].
    + intros id' (i & -> & _)%list_elem_of_fmap. rewrite demo_issued_elem. lia.
    + intros id'. rewrite elem_of_union, elem_of_list_to_set, list_elem_of_fmap, !demo_issued_elem.
      setoid_rewrite elem_of_seq. intros [(i & -> & ?)|?]; lia.
  - done.
  - done.
  - done.
  - done.
Defined.

Lemma demo_bounded : batch_bounded demo_exchange.
Proof. intros os w ids w' E. injection E as <- <-. by rewrite length_fmap, length_seq. Qed.

Definition demo_sys : Sys := mkSys (set_paper false demo_om) 3%N.

Lemma demo_om_ids id o : live_orders (set_paper false demo_om) !! id = Some o → (id = 1 ∨ id = 2)%N.
Proof.
  change (live_orders (set_paper false demo_om)) with (live_orders demo_om). unfold demo_om. rewrite !live_track.
  intros [[<- _]|[_ [[<- _]|[_ H]]%lookup_insert_Some]]%lookup_insert_Some; auto. simpl in H. by rewrite lookup_empty in H.
Qed.

Lemma demo_inv : inv demo_sys.
Proof.
  split; [by destruct demo_om_wf; split|]. intros id [o Ho]. rewrite demo_issued_elem.
  by destruct (demo_om_ids id o Ho) as [-> | ->].
Qed.

Lemma execute_diff_converges_witness :
  ∃ couts pouts s', execute_diff "BTCUSDT" [demo_pair 98 102] demo_product 0 demo_sys =
      Done ((couts, pouts), s') ∧
    dom (price_index (om s')) ⊆ dom (desired_prices demo_product [demo_pair 98 102]).
Proof.
  destruct (execute_diff_converges "BTCUSDT" [demo_pair 98 102] demo_product 0 demo_sys
    demo_bounded demo_inv) as (couts & pouts & s' & E & _ & H & _).
  exists couts, pouts, s'. by split.
Defined.

Lemma place_quotes_outcomes_witness :
  let q := mkQuote Buy (dlit 98 0) (dlit 3 0) in
  ∃ outs s', place_quotes_batched "BTCUSDT" [q] demo_sys = Done (outs, s') ∧ length outs = 1.
Proof.
  intros q.
  destruct (place_quotes_outcomes "BTCUSDT" [q] demo_sys demo_bounded demo_inv)
    as (outs & s' & E & _ & H & _); [|by exists outs, s'].
  split; [apply NoDup_singleton|]. intros q' ->%list_elem_of_singleton. eval_none.
Defined.

(** A venue that keeps its open orders, refuses batches and takes single orders
    and cancellations. *)
#[export] Instance open_exchange : Exchange := {|
  world := N * gset OrderId;
  utc_now w := sec (Z.of_N w.1);
  new_uuid w := (w.1, (N.succ w.1, w.2));
  x_error := string;
  classify_error e := e;
  supports_amend := true;
  max_batch_size := 2;
  x_place_order o w := (Ok w.1, (N.succ w.1, {[w.1]} ∪ w.2));
  x_place_orders_batch os w := (Err "no batches", w);
  x_cancel_order _ id w := (Ok tt, (w.1, w.2 ∖ {[id]}));
  x_cancel_orders_batch _ _ w := (Err "no batches", w);
  x_amend_order _ w := (Ok tt, w);
  x_get_open_orders s w :=
    (Ok ((λ id, mkLiveOrder id s Buy (dlit 1 0) (dlit 1 0) (dlit 0 0) Open (sec 0)) <$> elements w.2), w);
|}.

#[export] Instance open_exchange_laws : ExchangeLaws open_exchange.
Proof.
  refine {| issued := (λ w, demo_issued w.1) |}; simpl; intros; simplify_eq/=; try done.
  - rewrite demo_issued_elem. split; [lia|]. apply set_eq. intros id'.
    rewrite elem_of_union, elem_of_singleton, !demo_issued_elem. lia.
  - rewrite demo_issued_elem. split; [lia|]. intros id'.
    rewrite elem_of_union, elem_of_singleton, !demo_issued_elem. lia.
Defined.

#[export] Instance open_exchange_venue : VenueOpen open_exchange.
Proof.
  refine {| venue_open _ w := w.2 |}; simpl; intros; simplify_eq/=; try set_solver.
  rewrite <- list_fmap_compose. cbn. rewrite list_fmap_id. apply list_to_set_elements_L.
Defined.

Definition open_sys : Sys (X := open_exchange) := mkSys (set_paper false demo_om) (3%N, {[1%N; 2%N]}).

Lemma open_sys_inv : inv (X := open_exchange) open_sys.
Proof.
  split; [by destruct demo_om_wf; split|]. intros id [o Ho]. cbn. rewrite demo_issued_elem.
  by destruct (demo_om_ids id o Ho) as [-> | ->].
Qed.

