(* ===== verification/Bytes.v ===== *)
(** * Byte strings

    A Rust [String] or [Vec<u8>] is the byte sequence of a [string]. This file
    has what the source uses of the standard library on them: UTF-8
    validation, [split], [split_once], unsigned [parse] and [to_string], with
    the lemmas the codecs share. *)
From stdpp Require Import countable base list strings.
From Stdlib Require Import ZArith Lia Ascii String.
From S2P Require Import Prelude.
Local Open Scope string_scope.
Local Open Scope Z_scope.

(** Concatenation computes on a constructor. *)
#[global] Arguments String.append !s1 s2 / : simpl nomatch.

Definition byte_of (c : ascii) : Z := Z.of_N (N_of_ascii c).

Lemma byte_of_range c : 0 ≤ byte_of c < 256.
Proof. unfold byte_of. pose proof (N_ascii_bounded c). lia. Qed.

Lemma byte_of_inj c1 c2 : byte_of c1 = byte_of c2 → c1 = c2.
Proof.
  unfold byte_of. intros H. rewrite <- (ascii_N_embedding c1), <- (ascii_N_embedding c2).
  f_equal. lia.
Qed.

(** The number of bytes, as a [usize]. *)
Definition str_len (s : string) : Z := Z.of_nat (String.length s).
(** [to_ascii_lowercase] *)
Definition lower_char (c : ascii) : ascii :=
  if ((65 <=? byte_of c) && (byte_of c <=? 90))%Z then ascii_of_N (N_of_ascii c + 32) else c.
Fixpoint to_ascii_lowercase (s : string) : string :=
  match s with EmptyString => EmptyString | String c s => String (lower_char c) (to_ascii_lowercase s) end.
(** [s.ends_with(suffix)] *)
Definition ends_with (suffix s : string) : bool :=
  (String.length suffix <=? String.length s)%nat
  && bool_decide (substring (String.length s - String.length suffix) (String.length suffix) s = suffix).

Lemma str_app_assoc s1 s2 s3 : (s1 +:+ s2) +:+ s3 = s1 +:+ s2 +:+ s3.
Proof. induction s1; simpl; congruence. Qed.

Lemma str_app_length s1 s2 :
  String.length (s1 +:+ s2) = (String.length s1 + String.length s2)%nat.
Proof. induction s1; simpl; congruence. Qed.

Lemma str_app_nil s : s +:+ "" = s.
Proof. induction s; simpl; congruence. Qed.

(** ** UTF-8: [std::str::from_utf8] *)
Definition in_range (lo hi : Z) (c : ascii) : bool := (lo <=? byte_of c) && (byte_of c <=? hi).
Definition is_cont (c : ascii) : bool := in_range 128 191 c.

(** [s.trim().is_empty()]: only Unicode white space, in UTF-8. *)
Fixpoint is_blank (s : string) : bool :=
  match s with
  | "" => true
  | String c s1 =>
      if in_range 9 13 c || in_range 32 32 c then is_blank s1
      else
        match s1 with
        | String c1 s2 =>
            if in_range 194 194 c && (in_range 133 133 c1 || in_range 160 160 c1) then is_blank s2
            else
              match s2 with
              | String c2 s3 =>
                  if (in_range 225 225 c && in_range 154 154 c1 && in_range 128 128 c2)
                     || (in_range 226 226 c && in_range 128 128 c1
                         && (in_range 128 138 c2 || in_range 168 169 c2 || in_range 175 175 c2))
                     || (in_range 226 226 c && in_range 129 129 c1 && in_range 159 159 c2)
                     || (in_range 227 227 c && in_range 128 128 c1 && in_range 128 128 c2)
                  then is_blank s3 else false
              | "" => false
              end
        | "" => false
        end
  end.


(** The second byte allowed after a three or four byte lead. *)
Definition second_ok (lead c : ascii) : bool :=
  let b := byte_of lead in
  if b =? 224 then in_range 160 191 c
  else if b =? 237 then in_range 128 159 c
  else if b =? 240 then in_range 144 191 c
  else if b =? 244 then in_range 128 143 c
  else is_cont c.

Fixpoint utf8_valid (s : string) : bool :=
  match s with
  | "" => true
  | String c s1 =>
      if byte_of c <? 128 then utf8_valid s1
      else if in_range 194 223 c then
        match s1 with
        | String c1 s2 => is_cont c1 && utf8_valid s2
        | "" => false
        end
      else if in_range 224 239 c then
        match s1 with
        | String c1 (String c2 s3) => second_ok c c1 && is_cont c2 && utf8_valid s3
        | _ => false
        end
      else if in_range 240 244 c then
        match s1 with
        | String c1 (String c2 (String c3 s4)) =>
            second_ok c c1 && is_cont c2 && is_cont c3 && utf8_valid s4
        | _ => false
        end
      else false
  end.

Lemma utf8_valid_app s1 s2 : utf8_valid s1 = true → utf8_valid s2 = true →
  utf8_valid (s1 +:+ s2) = true.
Proof.
  intros H1 H2. remember (String.length s1) as n eqn:Hn. revert s1 Hn H1.
  induction (lt_wf n) as [n _ IH]. intros s1 -> H1.
  destruct s1 as [|c s]; [done|]. cbn [utf8_valid String.append] in *.
  destruct (byte_of c <? 128); [eapply IH; [|reflexivity|done]; simpl; lia|].
  destruct (in_range 194 223 c).
  { destruct s as [|c1 s]; [done|]. cbn [String.append]. apply andb_true_iff in H1 as [-> H1].
    eapply IH; [|reflexivity|done]. simpl. lia. }
  destruct (in_range 224 239 c).
  { destruct s as [|c1 [|c2 s]]; try done. cbn [String.append].
    apply andb_true_iff in H1 as [-> H1]. eapply IH; [|reflexivity|done]. simpl. lia. }
  destruct (in_range 240 244 c); [|done].
  destruct s as [|c1 [|c2 [|c3 s]]]; try done. cbn [String.append].
  apply andb_true_iff in H1 as [-> H1]. eapply IH; [|reflexivity|done]. simpl. lia.
Qed.

(** ** [str::split] on a one-byte separator and [str::split_once] *)
Fixpoint split_on (sep : ascii) (s : string) : list string :=
  match s with
  | "" => [""]
  | String c s' =>
      if decide (c = sep) then "" :: split_on sep s'
      else match split_on sep s' with
           | x :: l => String c x :: l
           | [] => [String c ""] (* unreachable: [split_on] is never empty *)
           end
  end.

Fixpoint split_once (sep : ascii) (s : string) : option (string * string) :=
  match s with
  | "" => None
  | String c s' =>
      if decide (c = sep) then Some ("", s')
      else match split_once sep s' with
           | Some (a, b) => Some (String c a, b)
           | None => None
           end
  end.

(** The separator does not occur. *)
Fixpoint free_of (sep : ascii) (s : string) : bool :=
  match s with
  | "" => true
  | String c s' => negb (bool_decide (c = sep)) && free_of sep s'
  end.

Lemma free_of_app sep s1 s2 : free_of sep (s1 +:+ s2) = free_of sep s1 && free_of sep s2.
Proof. induction s1 as [|c s1 IH]; simpl; [done|]. by rewrite IH, andb_assoc. Qed.

Lemma split_on_free sep s1 s2 : free_of sep s1 = true →
  split_on sep (s1 +:+ String sep s2) = s1 :: split_on sep s2.
Proof.
  induction s1 as [|c s1 IH]; simpl; intros H; [by rewrite decide_True|].
  apply andb_true_iff in H as [Hc H]. rewrite negb_true_iff, bool_decide_eq_false in Hc.
  by rewrite decide_False, IH.
Qed.

Lemma split_on_app sep s1 s2 :
  split_on sep (s1 +:+ String sep s2) = (split_on sep s1 ++ split_on sep s2)%list.
Proof.
  induction s1 as [|c s1 IH]; simpl; [by rewrite decide_True|].
  destruct (decide (c = sep)); rewrite IH; [done|].
  destruct (split_on sep s1) eqn:E; [|done].
  exfalso. destruct s1; simpl in E; [done|]. repeat case_match; done.
Qed.

Lemma split_once_free sep s1 s2 : free_of sep s1 = true →
  split_once sep (s1 +:+ String sep s2) = Some (s1, s2).
Proof.
  induction s1 as [|c s1 IH]; simpl; intros H; [by rewrite decide_True|].
  apply andb_true_iff in H as [Hc H]. rewrite negb_true_iff, bool_decide_eq_false in Hc.
  by rewrite decide_False, IH.
Qed.

(** ** Unsigned decimal numbers *)
Definition digit_char (d : Z) : ascii := ascii_of_N (Z.to_N (48 + d)).
Definition digit_val (c : ascii) : option Z :=
  if in_range 48 57 c then Some (byte_of c - 48) else None.

(** [to_string]: the digits of [n] in front of [acc]. One digit is produced
    per unit of fuel, and a number has at most as many digits as bits. *)
Fixpoint show_fuel (fuel : nat) (n : Z) (acc : string) : string :=
  match fuel with
  | O => acc
  | S fuel' =>
      let acc := String (digit_char (n mod 10)) acc in
      if n / 10 =? 0 then acc else show_fuel fuel' (n / 10) acc
  end.

Definition show_uint (n : Z) : string := show_fuel (S (Z.to_nat (Z.log2 n))) n "".

(** The digit loop of [from_str], with its checked multiply and add. *)
Fixpoint parse_digits (max : Z) (acc : Z) (s : string) : option Z :=
  match s with
  | "" => Some acc
  | String c s' =>
      match digit_val c with
      | Some d => if acc * 10 + d <=? max then parse_digits max (acc * 10 + d) s' else None
      | None => None
      end
  end.

(** [s.parse::<uN>()] with [max] the largest value: one leading plus sign is
    accepted, an empty digit string is not. *)
Definition parse_uint (max : Z) (s : string) : option Z :=
  let digits := match s with
                | String c s' => if decide (c = "+"%char) then s' else s
                | "" => ""
                end in
  match digits with
  | "" => None
  | _ => parse_digits max 0 digits
  end.

Definition parse_u32 : string → option Z := parse_uint u32_max.
Definition parse_u64 : string → option Z := parse_uint u64_max.

Lemma digit_val_nonneg c d : digit_val c = Some d → 0 ≤ d.
Proof. unfold digit_val, in_range. case_match eqn:E; [|done]. intros [= <-]. lia. Qed.

Lemma parse_digits_range max acc s n : 0 ≤ acc ≤ max → parse_digits max acc s = Some n → 0 ≤ n ≤ max.
Proof.
  revert acc. induction s as [|c s IH]; intros acc Ha; simpl; [by intros [= <-]|].
  destruct (digit_val c) as [d|] eqn:Ed; [|done]. apply digit_val_nonneg in Ed.
  destruct (_ <=? max) eqn:El; [|done]. apply IH. lia.
Qed.

Lemma parse_uint_range max s n : 0 ≤ max → parse_uint max s = Some n → 0 ≤ n ≤ max.
Proof.
  intros Hm. unfold parse_uint. case_match; [done|]. apply parse_digits_range. lia.
Qed.

Lemma digit_char_byte d : 0 ≤ d < 10 → byte_of (digit_char d) = 48 + d.
Proof. intros H. unfold byte_of, digit_char. rewrite N_ascii_embedding by lia. lia. Qed.

Lemma digit_val_char d : 0 ≤ d < 10 → digit_val (digit_char d) = Some d.
Proof.
  intros H. unfold digit_val, in_range. rewrite digit_char_byte by done.
  assert ((48 <=? 48 + d) && (48 + d <=? 57) = true) as -> by lia.
  f_equal. lia.
Qed.

(** The first digit printed, and the parse of what was printed: parsing the
    digits of [n] in front of [acc] continues with [n] on [acc]. *)
Lemma parse_show_fuel max fuel n acc :
  0 ≤ n → n ≤ max → n < 10 ^ Z.of_nat fuel → (0 < fuel)%nat →
  parse_digits max 0 (show_fuel fuel n acc) = parse_digits max n acc ∧
  ∃ d s, show_fuel fuel n acc = String (digit_char d) s ∧ 0 ≤ d < 10.
Proof.
  revert n acc. induction fuel as [|fuel IH]; intros n acc Hn Hmax Hf Hpos; [lia|].
  cbn [show_fuel]. pose proof (Z.mod_pos_bound n 10) as Hm.
  pose proof (Z.div_mod n 10) as Hdm.
  destruct (n / 10 =? 0) eqn:E.
  - apply Z.eqb_eq in E. split; [|by exists (n mod 10), acc; split; [|lia]].
    cbn [parse_digits]. rewrite digit_val_char by lia.
    replace (0 * 10 + n mod 10) with n by lia. by rewrite (proj2 (Z.leb_le n max)).
  - apply Z.eqb_neq in E. pose proof (Z.div_pos n 10).
    assert (Hlt : n / 10 < 10 ^ Z.of_nat fuel).
    { apply Z.div_lt_upper_bound; [lia|]. rewrite Nat2Z.inj_succ, Z.pow_succ_r in Hf; lia. }
    assert ((0 < fuel)%nat).
    { destruct fuel; [|lia]. change (10 ^ Z.of_nat 0) with 1 in Hlt. lia. }
    assert (n / 10 ≤ max) by (pose proof (Z.div_le_upper_bound n 10 n); lia).
    destruct (IH (n / 10) (String (digit_char (n mod 10)) acc)) as [-> Hd]; try lia.
    split; [|done]. cbn [parse_digits]. rewrite digit_val_char by lia.
    replace (n / 10 * 10 + n mod 10) with n by lia. by rewrite (proj2 (Z.leb_le n max)).
Qed.

Lemma show_uint_fuel n : 0 ≤ n → n < 10 ^ Z.of_nat (S (Z.to_nat (Z.log2 n))).
Proof.
  intros Hn. destruct (Z.eq_dec n 0) as [->|]; [done|].
  rewrite Nat2Z.inj_succ, Z2Nat.id by apply Z.log2_nonneg.
  pose proof (Z.log2_spec n ltac:(lia)) as [_ H].
  eapply Z.lt_le_trans; [exact H|]. apply Z.pow_le_mono_l. pose proof (Z.log2_nonneg n). lia.
Qed.

(** [n.to_string().parse()] gives [n] back. *)
Lemma parse_show max n : 0 ≤ n ≤ max → parse_uint max (show_uint n) = Some n.
Proof.
  intros [Hn Hmax]. unfold show_uint.
  destruct (parse_show_fuel max (S (Z.to_nat (Z.log2 n))) n "" Hn Hmax) as [Hp (d & s & E & Hd)];
    [by apply show_uint_fuel|lia|].
  unfold parse_uint. rewrite E in *.
  rewrite decide_False; [by rewrite Hp|].
  intros Hc. apply (f_equal byte_of) in Hc. rewrite digit_char_byte in Hc by done.
  change (byte_of "+") with 43 in Hc. lia.
Qed.

Lemma show_fuel_forall (P : ascii → bool) fuel n acc f :
  (∀ c s, f (String c s) = P c && f s) → (∀ d, 0 ≤ d < 10 → P (digit_char d) = true) →
  0 ≤ n → f acc = true → f (show_fuel fuel n acc) = true.
Proof.
  intros Hf HP. revert n acc. induction fuel as [|fuel IH]; intros n acc Hn Ha; [done|].
  cbn [show_fuel]. pose proof (Z.mod_pos_bound n 10).
  assert (f (String (digit_char (n mod 10)) acc) = true)
    by (rewrite Hf, Ha, HP by lia; done).
  destruct (n / 10 =? 0); [done|]. apply IH; [|done]. apply Z.div_pos; lia.
Qed.

(** Digits contain no separator and are ASCII. *)
Lemma show_uint_free sep n : 0 ≤ n → digit_val sep = None → free_of sep (show_uint n) = true.
Proof.
  intros Hn Hs. apply (show_fuel_forall (λ c, negb (bool_decide (c = sep)))); try done.
  intros d Hd. apply negb_true_iff, bool_decide_eq_false. intros <-.
  by rewrite digit_val_char in Hs.
Qed.

Lemma show_uint_utf8 n : 0 ≤ n → utf8_valid (show_uint n) = true.
Proof.
  intros Hn. unfold show_uint.
  generalize (S (Z.to_nat (Z.log2 n))) as fuel. intros fuel. revert Hn.
  assert (Ha : utf8_valid "" = true) by done. revert Ha. generalize "" as acc. revert n.
  induction fuel as [|fuel IH]; intros n acc Ha Hn; [done|]. cbn [show_fuel].
  pose proof (Z.mod_pos_bound n 10).
  assert (utf8_valid (String (digit_char (n mod 10)) acc) = true).
  { cbn [utf8_valid]. rewrite digit_char_byte by lia.
    by rewrite (proj2 (Z.ltb_lt (48 + n mod 10) 128)) by lia. }
  destruct (n / 10 =? 0); [done|]. apply IH; [done|]. apply Z.div_pos; lia.
Qed.

(** ** A text for any countable value

    For the instances of file formats in closed examples: a brace and the bits
    of the value's code. *)
Fixpoint pos_to_str (p : positive) : string :=
  match p with
  | xH => ""
  | xO p => String "0" (pos_to_str p)
  | xI p => String "1" (pos_to_str p)
  end.
Fixpoint str_to_pos (s : string) : positive :=
  match s with
  | "" => xH
  | String c s' => if decide (c = "0"%char) then xO (str_to_pos s') else xI (str_to_pos s')
  end.

Definition bits_of {A} `{Countable A} (a : A) : string := String "{" (pos_to_str (encode a)).
Definition of_bits {A} `{Countable A} (s : string) : option A :=
  match s with String _ s' => decode (str_to_pos s') | "" => None end.

Lemma str_to_pos_to_str p : str_to_pos (pos_to_str p) = p.
Proof. induction p; simpl; congruence. Qed.

Lemma of_bits_of {A} `{Countable A} (a : A) : of_bits (bits_of a) = Some a.
Proof. unfold of_bits, bits_of. by rewrite str_to_pos_to_str, decode_encode. Qed.

Lemma bits_of_not_blank {A} `{Countable A} (a : A) : is_blank (bits_of a) = false.
Proof. unfold bits_of. simpl. by destruct (pos_to_str (encode a)) as [|? [|? ?]]. Qed.
