(* ===== verification/FixMessage.v ===== *)
(** * FIX 4.4 messages ([crates/protocols/fix/src/{message,tags}.rs])

    The message value object and its wire codec: a message is a type and an
    ordered list of tag/value fields, the wire a byte string. *)
From stdpp Require Import base list strings.
From Stdlib Require Import ZArith Lia Ascii String.
From S2P Require Import Prelude Bytes.
Local Open Scope string_scope.
Local Open Scope Z_scope.
Local Open Scope list_scope.
Local Open Scope prog_scope.

(** ** Tags *)
Definition BEGIN_STRING : Z := 8.
Definition BODY_LENGTH : Z := 9.
Definition CHECKSUM : Z := 10.
Definition MSG_SEQ_NUM : Z := 34.
Definition MSG_TYPE : Z := 35.
Definition SENDER_COMP_ID : Z := 49.
Definition SENDING_TIME : Z := 52.
Definition TARGET_COMP_ID : Z := 56.
Definition TEST_REQ_ID : Z := 112.
Definition CL_ORD_ID : Z := 11.
Definition ORIG_CL_ORD_ID : Z := 41.
Definition ORDER_QTY : Z := 38.
Definition ORD_TYPE : Z := 40.
Definition PRICE : Z := 44.
Definition SIDE : Z := 54.
Definition SYMBOL : Z := 55.
Definition TIME_IN_FORCE : Z := 59.
Definition TRANSACT_TIME : Z := 60.
Definition ENCRYPT_METHOD : Z := 98.
Definition HEART_BT_INT : Z := 108.

Definition SOH : ascii := ascii_of_N 1.
Definition FIX_4_4 : string := "FIX.4.4".

Inductive Side := Buy | Sell.
Definition side_as_fix (s : Side) : string := match s with Buy => "1" | Sell => "2" end.

Inductive OrdType := Market | Limit.
Definition ord_type_as_fix (t : OrdType) : string := match t with Market => "1" | Limit => "2" end.

Inductive TimeInForce := Day | Gtc | Ioc | Fok.
Definition tif_as_fix (t : TimeInForce) : string :=
  match t with Day => "0" | Gtc => "1" | Ioc => "3" | Fok => "4" end.

Definition field : Type := Z * string.

Record Message := mkMessage { msg_type : string; fields : list field }.

Definition new (msg_type : string) : Message := mkMessage msg_type [].

(** Replace the first field with the tag, or append one. *)
Fixpoint set_field (tag : Z) (value : string) (l : list field) : list field :=
  match l with
  | [] => [(tag, value)]
  | (t, v) :: l' => if t =? tag then (t, value) :: l' else (t, v) :: set_field tag value l'
  end.

Fixpoint get_field (tag : Z) (l : list field) : option string :=
  match l with
  | [] => None
  | (t, v) :: l' => if t =? tag then Some v else get_field tag l'
  end.

Definition set (tag : Z) (value : string) (m : Message) : Message :=
  mkMessage (msg_type m) (set_field tag value (fields m)).
Definition get (tag : Z) (m : Message) : option string := get_field tag (fields m).

Definition is_session_owned (tag : Z) : bool :=
  existsb (Z.eqb tag) [BEGIN_STRING; BODY_LENGTH; CHECKSUM; MSG_TYPE; SENDER_COMP_ID;
    TARGET_COMP_ID; MSG_SEQ_NUM; SENDING_TIME].

Definition append_field (buf : string) (tag : Z) (value : string) : string :=
  buf +:+ (show_uint tag +:+ "=" +:+ value) +:+ String SOH "".

(** The byte sum as a [u32]. *)
Fixpoint byte_sum (s : string) (acc : Z) : Z :=
  match s with
  | "" => acc
  | String c s' => byte_sum s' (wrap_u32 (acc + byte_of c))
  end.
Definition checksum (s : string) : Z := byte_sum s 0 mod 256.

(** [format!("{checksum:03}")] *)
Definition pad3 (s : string) : string :=
  match String.length s with
  | 0%nat => "000"
  | 1%nat => "00" +:+ s
  | 2%nat => "0" +:+ s
  | _ => s
  end.

(** The loop over the caller's fields. *)
Definition append_custom (body : string) (f : field) : string :=
  if is_session_owned f.1 then body else append_field body f.1 f.2.

Definition encode (m : Message) (sender target : string) (seq : Z) (sending_time : string) :
    string :=
  let body := append_field "" MSG_TYPE (msg_type m) in
  let body := append_field body SENDER_COMP_ID sender in
  let body := append_field body TARGET_COMP_ID target in
  let body := append_field body MSG_SEQ_NUM (show_uint seq) in
  let body := append_field body SENDING_TIME sending_time in
  let body := fold_left append_custom (fields m) body in
  let msg := append_field "" BEGIN_STRING FIX_4_4 in
  let msg := append_field msg BODY_LENGTH (show_uint (str_len body)) in
  let msg := msg +:+ body in
  append_field msg CHECKSUM (pad3 (show_uint (checksum msg))).

Inductive FixError :=
| NotUtf8
| MissingEquals (part : string)
| TagNotNumeric (tag : string)
| EmptyMessage
| ChecksumNotLast (tag : Z)
| BadChecksum (value : string)
| ChecksumNotFound
| ChecksumMismatch (expected got : Z)
| MsgTypeMissing.

Definition parse_field (part : string) : result field FixError :=
  match split_once "=" part with
  | None => Err (MissingEquals part)
  | Some (tag_s, val) =>
      match parse_u32 tag_s with
      | None => Err (TagNotNumeric tag_s)
      | Some tag => Ok (tag, val)
      end
  end.

Fixpoint parse_parts (parts : list string) : result (list field) FixError :=
  match parts with
  | [] => Ok []
  | "" :: parts' => parse_parts parts'
  | part :: parts' =>
      let? f := parse_field part in
      let? fs := parse_parts parts' in
      Ok (f :: fs)
  end.

(** [raw.windows(tail.len()).rposition(|w| w == tail)] *)
Fixpoint rposition (tail s : string) : option nat :=
  match s with
  | "" => None
  | String _ s' =>
      match rposition tail s' with
      | Some i => Some (S i)
      | None => if String.prefix tail s then Some 0%nat else None
      end
  end.

(** [raw[..n]] *)
Fixpoint str_take (n : nat) (s : string) : string :=
  match n, s with
  | S n', String c s' => String c (str_take n' s')
  | _, _ => ""
  end.

Definition checksum_tail : string := String SOH "10=".

Definition decode (raw : string) : result Message FixError :=
  if negb (utf8_valid raw) then Err NotUtf8 else
  let? fs := parse_parts (split_on SOH raw) in
  match last fs with
  | None => Err EmptyMessage
  | Some (tag, value) =>
      if negb (tag =? CHECKSUM) then Err (ChecksumNotLast tag) else
      match parse_u32 value with
      | None => Err (BadChecksum value)
      | Some expected =>
          match rposition checksum_tail raw with
          | None => Err ChecksumNotFound
          | Some checksum_sep =>
              let got := checksum (str_take (S checksum_sep) raw) in
              if negb (got =? expected) then Err (ChecksumMismatch expected got) else
              match get_field MSG_TYPE fs with
              | None => Err MsgTypeMissing
              | Some msg_type => Ok (mkMessage msg_type fs)
              end
          end
      end
  end.

(** ** Constructors *)
Definition logon (heartbeat_secs : Z) : Message :=
  set HEART_BT_INT (show_uint heartbeat_secs) (set ENCRYPT_METHOD "0" (new "A")).
Definition heartbeat : Message := new "0".
Definition test_request (test_req_id : string) : Message := set TEST_REQ_ID test_req_id (new "1").

Definition new_order_single (cl_ord_id symbol : string) (side : Side) (qty : string)
    (ord_type : OrdType) (price : option string) (tif : option TimeInForce)
    (transact_time : string) : Message :=
  let m := new "D" in
  let m := set CL_ORD_ID cl_ord_id m in
  let m := set SYMBOL symbol m in
  let m := set SIDE (side_as_fix side) m in
  let m := set TRANSACT_TIME transact_time m in
  let m := set ORDER_QTY qty m in
  let m := set ORD_TYPE (ord_type_as_fix ord_type) m in
  let m := match price with Some p => set PRICE p m | None => m end in
  match tif with Some t => set TIME_IN_FORCE (tif_as_fix t) m | None => m end.

Definition cancel_request (cl_ord_id orig_cl_ord_id symbol : string) (side : Side)
    (transact_time : string) : Message :=
  let m := new "F" in
  let m := set CL_ORD_ID cl_ord_id m in
  let m := set ORIG_CL_ORD_ID orig_cl_ord_id m in
  let m := set SYMBOL symbol m in
  let m := set SIDE (side_as_fix side) m in
  set TRANSACT_TIME transact_time m.

(** ** The wire form of a field list *)
Definition field_str (f : field) : string := show_uint f.1 +:+ "=" +:+ f.2.
Definition wire (l : list field) : string :=
  foldr (λ f s, field_str f +:+ String SOH s) "" l.

Definition value_ok (v : string) : bool := free_of SOH v && utf8_valid v.
Definition field_ok (f : field) : Prop := is_u32 f.1 ∧ value_ok f.2 = true.

Lemma wire_app l1 l2 : wire (l1 ++ l2) = wire l1 +:+ wire l2.
Proof.
  induction l1 as [|f l1 IH]; [done|]. simpl. rewrite IH, str_app_assoc. done.
Qed.

Lemma append_field_wire l tag v : append_field (wire l) tag v = wire (l ++ [(tag, v)]).
Proof. rewrite wire_app. done. Qed.

Lemma field_str_cons f : ∃ c s, field_str f = String c s.
Proof.
  unfold field_str. destruct (show_uint f.1) as [|c s]; simpl; eauto.
Qed.

Lemma parse_field_str f : field_ok f → parse_field (field_str f) = Ok f.
Proof.
  intros [Ht Hv]. unfold parse_field, field_str.
  assert (Hs : split_once "=" (show_uint f.1 +:+ String "=" f.2) = Some (show_uint f.1, f.2))
    by (apply split_once_free, show_uint_free; [apply Ht|done]).
  change ("=" +:+ f.2) with (String "=" f.2). rewrite Hs.
  unfold parse_u32. rewrite parse_show by apply Ht. by destruct f.
Qed.

Lemma field_str_free f : field_ok f → free_of SOH (field_str f) = true.
Proof.
  intros [Ht [Hv _]%andb_true_iff]. unfold field_str.
  rewrite free_of_app, show_uint_free by (apply Ht || done). simpl. done.
Qed.

Lemma parse_wire l : Forall field_ok l → parse_parts (split_on SOH (wire l)) = Ok l.
Proof.
  induction 1 as [|f l Hf Hl IH]; [done|]. simpl wire.
  rewrite split_on_free by by apply field_str_free.
  destruct (field_str_cons f) as (c & s & E). cbn [parse_parts]. rewrite E, <- E.
  by rewrite parse_field_str, IH.
Qed.

Lemma wire_utf8 l : Forall field_ok l → utf8_valid (wire l) = true.
Proof.
  induction 1 as [|f l [Ht [_ Hv]%andb_true_iff] Hl IH]; [done|]. simpl.
  apply utf8_valid_app; [|done]. unfold field_str.
  apply utf8_valid_app; [apply show_uint_utf8, Ht|done].
Qed.

(** ** The checksum *)
Fixpoint plain_sum (s : string) : Z :=
  match s with "" => 0 | String c s' => byte_of c + plain_sum s' end.

(** The [u32] sum may wrap, but the checksum is the byte sum modulo 256. *)
Lemma checksum_plain s : checksum s = plain_sum s mod 256.
Proof.
  unfold checksum.
  assert (H : ∀ acc, byte_sum s acc mod 256 = (acc + plain_sum s) mod 256).
  { induction s as [|c s IH]; intros acc; simpl; [f_equal; lia|]. rewrite IH.
    unfold wrap_u32. rewrite <- Zplus_mod_idemp_l, <- Znumtheory.Zmod_div_mod, Zplus_mod_idemp_l
      by (lia || by exists (2 ^ 24)).
    f_equal. lia. }
  apply H.
Qed.

Lemma plain_sum_app s1 s2 : plain_sum (s1 +:+ s2) = plain_sum s1 + plain_sum s2.
Proof. induction s1; simpl; lia. Qed.

Lemma checksum_range s : 0 ≤ checksum s < 256.
Proof. apply Z.mod_pos_bound. lia. Qed.

(** The three-digit checksum text reads back, has three digits and no
    separator. *)
Definition pad3_good (n : Z) : bool :=
  let t := pad3 (show_uint n) in
  bool_decide (parse_u32 t = Some n) && value_ok t && (String.length t =? 3)%nat.

Lemma pad3_ok n : 0 ≤ n < 256 → pad3_good n = true.
Proof.
  intros Hn. assert (Hall : forallb (λ k, pad3_good (Z.of_nat k)) (seq 0 256) = true)
    by (vm_compute; reflexivity).
  rewrite forallb_forall in Hall. rewrite <- (Z2Nat.id n) by lia.
  apply Hall. apply in_seq. lia.
Qed.

Lemma pad3_spec n : 0 ≤ n < 256 →
  parse_u32 (pad3 (show_uint n)) = Some n ∧ value_ok (pad3 (show_uint n)) = true ∧
  String.length (pad3 (show_uint n)) = 3%nat.
Proof.
  intros Hn. pose proof (pad3_ok n Hn) as H. unfold pad3_good in H.
  apply andb_true_iff in H as [[H1 H2]%andb_true_iff H3].
  apply bool_decide_eq_true in H1. apply Nat.eqb_eq in H3. done.
Qed.

(** ** The encoded message as a field list *)
Definition custom_fields (m : Message) : list field :=
  List.filter (λ f, negb (is_session_owned f.1)) (fields m).

Definition body_fields (m : Message) (sender target : string) (seq : Z) (time : string) :
    list field :=
  [(MSG_TYPE, msg_type m); (SENDER_COMP_ID, sender); (TARGET_COMP_ID, target);
   (MSG_SEQ_NUM, show_uint seq); (SENDING_TIME, time)] ++ custom_fields m.

(** Everything in front of the checksum field. *)
Definition prefix_fields (m : Message) (sender target : string) (seq : Z) (time : string) :
    list field :=
  [(BEGIN_STRING, FIX_4_4);
   (BODY_LENGTH, show_uint (str_len (wire (body_fields m sender target seq time))))]
    ++ body_fields m sender target seq time.

Definition checksum_field (l : list field) : field :=
  (CHECKSUM, pad3 (show_uint (checksum (wire l)))).

Lemma append_custom_wire l fs :
  fold_left append_custom fs (wire l) =
  wire (l ++ List.filter (λ f, negb (is_session_owned f.1)) fs).
Proof.
  revert l. induction fs as [|[t v] fs IH]; intros l; [by rewrite app_nil_r|].
  cbn [fold_left List.filter]. unfold append_custom at 2. cbn [fst snd].
  destruct (is_session_owned t); cbn [negb]; [apply IH|].
  rewrite append_field_wire, IH. by rewrite <- app_assoc.
Qed.

Lemma encode_wire m sender target seq time :
  encode m sender target seq time =
  wire (prefix_fields m sender target seq time ++
    [checksum_field (prefix_fields m sender target seq time)]).
Proof.
  unfold encode. change "" with (wire []).
  rewrite !append_field_wire, append_custom_wire.
  change (([] ++ [(MSG_TYPE, msg_type m)]) ++ [(SENDER_COMP_ID, sender)])
    with [(MSG_TYPE, msg_type m); (SENDER_COMP_ID, sender)].
  rewrite <- !app_assoc. fold (custom_fields m).
  change ([(MSG_TYPE, msg_type m); (SENDER_COMP_ID, sender)] ++ _) with
    (body_fields m sender target seq time).
  rewrite <- wire_app, append_field_wire. done.
Qed.

(** What the caller must ensure: values are UTF-8 and contain no separator. *)
Record encodable (m : Message) (sender target : string) (seq : Z) (time : string) : Prop := {
  enc_type : value_ok (msg_type m) = true;
  enc_sender : value_ok sender = true;
  enc_target : value_ok target = true;
  enc_time : value_ok time = true;
  enc_seq : is_u64 seq;
  enc_fields : Forall field_ok (fields m);
}.

Lemma show_ok n : 0 ≤ n → value_ok (show_uint n) = true.
Proof.
  intros Hn. unfold value_ok. by rewrite show_uint_free, show_uint_utf8.
Qed.

Lemma small_tag t : (0 <=? t) && (t <=? 1000) = true → is_u32 t.
Proof. unfold is_u32, u32_max. lia. Qed.

Lemma prefix_ok m sender target seq time :
  encodable m sender target seq time → Forall field_ok (prefix_fields m sender target seq time).
Proof.
  intros [H1 H2 H3 H4 H5 H6].
  assert (Hlen : 0 ≤ str_len (wire (body_fields m sender target seq time)))
    by (unfold str_len; lia).
  unfold prefix_fields, body_fields. cbn [app].
  repeat (constructor; [split; [by apply small_tag|try done; apply show_ok; try apply H5; done]|]).
  unfold custom_fields. rewrite Forall_forall in *. intros f [Hf _]%list_elem_of_In%filter_In.
  apply H6. by apply list_elem_of_In.
Qed.

(** ** Decoding a checksummed string *)
Definition with_checksum (p : string) (ck : string) : string :=
  p +:+ checksum_tail +:+ ck +:+ String SOH "".

Lemma prefix_cons c1 p c2 s : c1 ≠ c2 → String.prefix (String c1 p) (String c2 s) = false.
Proof. intros H. simpl. by destruct (ascii_dec c1 c2). Qed.

(** The separator search finds the last checksum field. *)
Lemma rposition_free s : free_of SOH s = true →
  rposition checksum_tail (s +:+ String SOH "") = None.
Proof.
  induction s as [|c s IH]; intros H; [done|].
  cbn [free_of] in H. apply andb_true_iff in H as [Hc H].
  rewrite negb_true_iff, bool_decide_eq_false in Hc.
  cbn [rposition String.append]. rewrite (IH H). unfold checksum_tail.
  by rewrite prefix_cons by congruence.
Qed.

Lemma rposition_app tail p s i :
  rposition tail s = Some i → rposition tail (p +:+ s) = Some (String.length p + i)%nat.
Proof. intros H. induction p as [|c p IH]; simpl; [done|]. by rewrite IH. Qed.

Lemma rposition_here tail c s :
  rposition tail s = None → String.prefix tail (String c s) = true →
  rposition tail (String c s) = Some 0%nat.
Proof. cbn [rposition]. by intros -> ->. Qed.

Lemma prefix_app p s : String.prefix p (p +:+ s) = true.
Proof. induction p as [|c p IH]; simpl; [by destruct s|]. by destruct (ascii_dec c c). Qed.

Lemma rposition_tail p ck : free_of SOH ck = true →
  rposition checksum_tail (with_checksum p ck) = Some (String.length p).
Proof.
  intros Hck. unfold with_checksum.
  rewrite (rposition_app _ _ _ 0%nat); [by rewrite Nat.add_0_r|].
  apply (rposition_here checksum_tail SOH (("10=" +:+ ck) +:+ String SOH "")).
  - by apply rposition_free.
  - apply (prefix_app checksum_tail).
Qed.

Lemma str_take_app p s n : str_take (String.length p + n) (p +:+ s) = p +:+ str_take n s.
Proof. induction p as [|c p IH]; simpl; [done|]. by rewrite IH. Qed.

Lemma take_checksummed p ck :
  str_take (S (String.length p)) (with_checksum p ck) = p +:+ String SOH "".
Proof.
  unfold with_checksum. replace (S (String.length p)) with (String.length p + 1)%nat by lia.
  rewrite str_take_app. done.
Qed.

Lemma parse_parts_app l1 l2 fs2 : parse_parts l2 = Ok fs2 →
  parse_parts (l1 ++ l2) =
  match parse_parts l1 with Ok fs1 => Ok (fs1 ++ fs2) | Err e => Err e end.
Proof.
  intros H2. induction l1 as [|p l1 IH]; [done|]. cbn [app parse_parts].
  destruct p as [|c p]; [apply IH|]. rewrite IH.
  destruct (parse_field (String c p)); [|done]. simpl. by destruct (parse_parts l1).
Qed.

(** The checks that remain once the fields are parsed. *)
Lemma decode_with_checksum p ck n :
  free_of SOH ck = true → parse_u32 ck = Some n → utf8_valid (with_checksum p ck) = true →
  decode (with_checksum p ck) =
    let? fs := parse_parts (split_on SOH p) in
    if negb (checksum (p +:+ String SOH "") =? n)
    then Err (ChecksumMismatch n (checksum (p +:+ String SOH "")))
    else match get_field MSG_TYPE (fs ++ [(CHECKSUM, ck)]) with
         | None => Err MsgTypeMissing
         | Some t => Ok (mkMessage t (fs ++ [(CHECKSUM, ck)]))
         end.
Proof.
  intros Hck Hn Hu. unfold decode. rewrite Hu. cbn [negb].
  assert (Hsplit : split_on SOH (with_checksum p ck) = (split_on SOH p ++ ["10=" +:+ ck; ""])%list).
  { unfold with_checksum, checksum_tail. cbn [String.append]. rewrite split_on_app. f_equal.
    change (String "1" (String "0" (String "=" (ck +:+ String SOH ""))))
      with (("10=" +:+ ck) +:+ String SOH "").
    by rewrite split_on_free. }
  rewrite Hsplit, (parse_parts_app _ _ [(CHECKSUM, ck)]) by done.
  destruct (parse_parts (split_on SOH p)) as [fs|e]; [|done]. cbn [result_bind].
  rewrite last_snoc. cbn [negb Z.eqb CHECKSUM Pos.eqb].
  by rewrite Hn, rposition_tail, take_checksummed.
Qed.

(** ** Properties of the codec *)

Lemma wire_last l f : wire (l ++ [f]) = wire l +:+ field_str f +:+ String SOH "".
Proof. by rewrite wire_app. Qed.

(** A non-empty field list ends its wire form with a separator. *)
Lemma wire_prefix f l : ∃ p, wire (f :: l) = p +:+ String SOH "" ∧
  ∀ ck, wire (f :: l) +:+ field_str (CHECKSUM, ck) +:+ String SOH "" = with_checksum p ck.
Proof.
  destruct (exists_last (l := f :: l)) as (l' & f' & E); [done|].
  exists (wire l' +:+ field_str f'). rewrite E, wire_last, !str_app_assoc. split; [done|].
  intros ck. unfold with_checksum. by rewrite !str_app_assoc.
Qed.

Lemma encode_with_checksum m sender target seq time :
  ∃ p, wire (prefix_fields m sender target seq time) = p +:+ String SOH "" ∧
    encode m sender target seq time =
      with_checksum p (pad3 (show_uint (checksum (p +:+ String SOH "")))).
Proof.
  destruct (wire_prefix (BEGIN_STRING, FIX_4_4)
    ((BODY_LENGTH, show_uint (str_len (wire (body_fields m sender target seq time)))) ::
      body_fields m sender target seq time)) as (p & Hp & Hck).
  change (wire (prefix_fields m sender target seq time) = p +:+ String SOH "") in Hp.
  exists p. split; [done|]. rewrite encode_wire, wire_last.
  unfold checksum_field. rewrite <- Hp. apply Hck.
Qed.

(** C5: encoding and decoding gives back the message type and, in order, the
    header the codec owns, every field of the caller whose tag the session
    does not own, and the checksum; the caller's values for session tags are
    dropped. Values must be UTF-8 without separator bytes. *)
Theorem decode_encode m sender target seq time (H : encodable m sender target seq time) :
  decode (encode m sender target seq time) =
  Ok (mkMessage (msg_type m)
    (prefix_fields m sender target seq time ++
      [checksum_field (prefix_fields m sender target seq time)])).
Proof.
  set (l := prefix_fields m sender target seq time).
  destruct (encode_with_checksum m sender target seq time) as (p & Hp & He). fold l in Hp.
  destruct (pad3_spec (checksum (wire l)) (checksum_range _)) as (Hparse & Hok & _).
  assert (Hall : Forall field_ok (l ++ [checksum_field l])).
  { apply Forall_app. split; [by apply prefix_ok|]. constructor; [|done]. by split. }
  pose proof (encode_wire m sender target seq time) as Hw. fold l in Hw. rewrite He in Hw.
  pose proof (parse_wire _ Hall) as Hfs. rewrite <- Hw in Hfs.
  pose proof (wire_utf8 _ Hall) as Hu. rewrite <- Hw in Hu.
  rewrite He. unfold decode. rewrite Hu. cbn [negb]. rewrite Hfs. cbn [result_bind].
  rewrite last_snoc. unfold checksum_field at 1. cbn [negb Z.eqb CHECKSUM Pos.eqb].
  rewrite <- Hp, Hparse, rposition_tail by by apply andb_true_iff in Hok as [? _].
  by rewrite take_checksummed, <- Hp, Z.eqb_refl.
Qed.

(** The byte string with byte [i] replaced. *)
Fixpoint str_set (i : nat) (c : ascii) (s : string) : string :=
  match i, s with
  | _, "" => ""
  | O, String _ s' => String c s'
  | S i', String c' s' => String c' (str_set i' c s')
  end.

Lemma str_set_app i c p s : (i < String.length p)%nat →
  str_set i c (p +:+ s) = str_set i c p +:+ s.
Proof.
  revert i. induction p as [|c' p IH]; intros i Hi; simpl in *; [lia|].
  destruct i as [|i]; [done|]. cbn [str_set]. by rewrite IH by lia.
Qed.

Lemma plain_sum_set i c p c' : String.get i p = Some c' →
  plain_sum (str_set i c p) = plain_sum p + byte_of c - byte_of c'.
Proof.
  revert i. induction p as [|c1 p IH]; intros i Hi; [done|].
  destruct i as [|i]; cbn in *; [simplify_eq; lia|]. rewrite (IH i) by done. lia.
Qed.

Lemma get_app i p s : (i < String.length p)%nat → String.get i (p +:+ s) = String.get i p.
Proof.
  revert i. induction p as [|c p IH]; intros i Hi; simpl in *; [lia|].
  destruct i; [done|]. apply IH. lia.
Qed.

Lemma get_lt i s c : String.get i s = Some c → (i < String.length s)%nat.
Proof.
  revert i. induction s as [|c' s IH]; intros i H; [done|].
  destruct i; simpl in *; [lia|]. apply IH in H. lia.
Qed.

Lemma mod_shift_ne a b : 0 < Z.abs b < 256 → (a + b) mod 256 ≠ a mod 256.
Proof. intros Hb E. Z.to_euclidean_division_equations. lia. Qed.

(** C6: decoding detects the replacement of any single byte of an encoded
    message up to, and without, the separator that ends its body, whatever the
    fields of the message. [separator_flip_undetected] is a replacement of that
    separator which it does not detect. *)
Theorem decode_detects_corruption m sender target seq time i c c'
  (Hi : (i + 8 < String.length (encode m sender target seq time))%nat)
  (Hget : String.get i (encode m sender target seq time) = Some c') (Hne : c ≠ c') :
  is_ok (decode (str_set i c (encode m sender target seq time))) = false.
Proof.
  destruct (encode_with_checksum m sender target seq time) as (p & _ & He).
  destruct (pad3_spec (checksum (p +:+ String SOH "")) (checksum_range _)) as (Hparse & Hok & Hlen).
  apply andb_true_iff in Hok as [Hfree _].
  rewrite He in *. set (ck := pad3 _) in *.
  assert (Hp : (i < String.length p)%nat).
  { unfold with_checksum in Hi. rewrite !str_app_length, Hlen in Hi. simpl in Hi. lia. }
  unfold with_checksum in Hget |- *. rewrite get_app in Hget by done.
  rewrite str_set_app by done. fold (with_checksum (str_set i c p) ck).
  destruct (utf8_valid (with_checksum (str_set i c p) ck)) eqn:Hu;
    [|unfold decode; by rewrite Hu].
  rewrite (decode_with_checksum _ _ _ Hfree Hparse Hu).
  destruct (parse_parts _) as [fs|e]; [|done]. cbn [result_bind].
  replace (checksum _ =? checksum _) with false; [done|]. symmetry. apply Z.eqb_neq.
  rewrite !checksum_plain, !plain_sum_app, (plain_sum_set _ _ _ c') by done.
  replace (plain_sum p + byte_of c - byte_of c' + plain_sum (String SOH ""))
    with (plain_sum p + plain_sum (String SOH "") + (byte_of c - byte_of c')) by lia.
  apply mod_shift_ne. pose proof (byte_of_range c). pose proof (byte_of_range c').
  destruct (Z.eq_dec (byte_of c) (byte_of c')) as [E|]; [|lia].
  by destruct Hne; apply byte_of_inj.
Qed.

(** [set] then [get] returns the value, every other tag reads as before,
    and the order of the tags is kept: a tag that was present keeps its
    place, a new one goes last. *)
Theorem set_get_spec m tag value :
  get tag (set tag value m) = Some value ∧
  (∀ tag', tag' ≠ tag → get tag' (set tag value m) = get tag' m) ∧
  (fields (set tag value m)).*1 =
    (fields m).*1 ++ (if get tag m then [] else [tag]).
Proof.
  unfold get, set. simpl. induction (fields m) as [|[t v] l (IH1 & IH2 & IH3)]; simpl.
  { rewrite Z.eqb_refl. split; [done|]. split; [|done]. intros tag' Hne.
    by rewrite (proj2 (Z.eqb_neq tag tag')) by done. }
  destruct (Z.eqb_spec t tag) as [->|Hne]; simpl.
  - rewrite Z.eqb_refl, app_nil_r. split; [done|]. split; [|done].
    intros tag' Hne. by rewrite (proj2 (Z.eqb_neq tag tag')).
  - rewrite (proj2 (Z.eqb_neq t tag)) by done. split; [done|]. split.
    + intros tag' Hne'. by rewrite (IH2 tag').
    + f_equal. exact IH3.
Qed.

(** A value with a separator byte injects fields into the wire form. *)
Lemma separator_injects_fields :
  let m := set 58 ("note" +:+ String SOH "54=2") (new "D") in
  get SIDE m = None ∧
  match decode (encode m "C" "S" 1 "t") with Ok m' => get SIDE m' = Some "2" | Err _ => False end.
Proof. vm_compute. done. Qed.

(** ** Witnesses *)
Definition demo_msg : Message :=
  new_order_single "id1" "BTCUSDT" Buy "1.5" Limit (Some "99") (Some Gtc) "20240101-00:00:00.000".

Lemma demo_encodable : encodable demo_msg "CLIENT" "VENUE" 7 "20240101-00:00:00.000".
Proof.
  split; try reflexivity; [unfold is_u64, u64_max; lia|].
  unfold demo_msg, new_order_single. cbn [fields set new set_field Z.eqb].
  repeat (constructor; [split; [by apply small_tag|reflexivity]|]). constructor.
Qed.

Lemma decode_encode_witness :
  ∃ fs, decode (encode demo_msg "CLIENT" "VENUE" 7 "20240101-00:00:00.000") = Ok (mkMessage "D" fs).
Proof. eexists. apply (decode_encode demo_msg _ _ _ _ demo_encodable). Defined.

Lemma decode_detects_corruption_witness :
  is_ok (decode (str_set 20 "X" (encode demo_msg "C" "S" 1 "t"))) = false.
Proof.
  apply (decode_detects_corruption demo_msg "C" "S" 1 "t" 20 "X" "4").
  - vm_compute. lia.
  - vm_compute. reflexivity.
  - discriminate.
Defined.

(** A field may carry a separator and with it a checksum field of its own: with
    the separator right in front of the real one replaced by a zero, the tag
    reads 010, which parses as 10, the search finds the false one, and the six
    bytes in between sum to 256. *)
Example separator_flip_undetected :
  let text := "a" +:+ String SOH ("10=`" +:+ String SOH "") in
  let raw := encode (set 58 text demo_msg) "C" "S" 1 "t" in
  is_ok (decode (str_set (String.length raw - 8) "0" raw)) = true.
Proof. vm_compute. reflexivity. Qed.
