(* ===== verification/FixSession.v ===== *)
(** * FIX 4.4 session engine ([crates/protocols/fix/src/session.rs])

    The synchronous state machine between decoded messages and the transport:
    sequence numbers, logon and logout, test requests, gap handling and the
    heartbeat watchdog. [Instant] is a number of nanoseconds. *)
From stdpp Require Import base list strings sorting.
From Stdlib Require Import ZArith Lia Ascii String.
From S2P Require Import Prelude Bytes FixMessage.
Local Open Scope string_scope.
Local Open Scope Z_scope.
Local Open Scope list_scope.
Local Abbreviation len l := (Z.of_nat (List.length l)).

Definition TAG_BEGIN_SEQ_NO : Z := 7.
Definition TAG_END_SEQ_NO : Z := 16.
Definition TAG_NEW_SEQ_NO : Z := 36.
Definition TAG_POSS_DUP_FLAG : Z := 43.
Definition TAG_GAP_FILL_FLAG : Z := 123.
Definition TAG_RESET_SEQ_NUM_FLAG : Z := 141.

(** ** Sequence numbers *)

(** The [SeqNumStore] trait. *)
Class SeqNumStore := {
  seq_store : Type;
  next_send : seq_store → Z * seq_store;
  peek_send : seq_store → Z;
  expected_recv : seq_store → Z;
  advance_recv : Z → seq_store → seq_store;
  store_reset : seq_store → seq_store;
}.

(** What the session relies on: the two counters are independent, [next_send]
    returns the counter it steps. *)
Class SeqNumStoreLaws (S : SeqNumStore) : Prop := {
  next_send_value st : (next_send st).1 = peek_send st;
  next_send_peek st : peek_send (next_send st).2 = wrap_u64 (peek_send st + 1);
  next_send_recv st : expected_recv (next_send st).2 = expected_recv st;
  advance_expected to st : expected_recv (advance_recv to st) = to;
  advance_peek to st : peek_send (advance_recv to st) = peek_send st;
  reset_peek st : peek_send (store_reset st) = 1;
  reset_expected st : expected_recv (store_reset st) = 1;
}.

Record InMemorySeqStore := mkSeqStore { ms_next_send : Z; ms_expected_recv : Z }.

Definition in_memory_new : InMemorySeqStore := mkSeqStore 1 1.

#[export] Instance in_memory_store : SeqNumStore := {|
  seq_store := InMemorySeqStore;
  next_send st := (ms_next_send st, mkSeqStore (wrap_u64 (ms_next_send st + 1)) (ms_expected_recv st));
  peek_send := ms_next_send;
  expected_recv := ms_expected_recv;
  advance_recv to st := mkSeqStore (ms_next_send st) to;
  store_reset _ := mkSeqStore 1 1;
|}.

#[export] Instance in_memory_laws : SeqNumStoreLaws in_memory_store.
Proof. by split. Qed.

(** ** Time *)
Definition nanos_per_sec : Z := 1000000000.

(** [Instant::duration_since] saturates at zero. *)
Definition duration_since (now earlier : Z) : Z := Z.max 0 (now - earlier).

(** Division rounded to nearest, ties to even. *)
Definition div_rne (a b : Z) : Z :=
  let q := a / b in
  let r := a mod b in
  if (2 * r <? b) || ((2 * r =? b) && Z.even q) then q else q + 1.

(** The nearest integer with 24 significant bits: [as f32] on an integer. *)
Definition round_f32 (z : Z) : Z :=
  let shift := Z.log2 z - 23 in
  if shift <=? 0 then z else div_rne z (2 ^ shift) * 2 ^ shift.

(** [Duration::from_secs(secs).mul_f32(1.2)] in nanoseconds. The literal is
    the [f32] 10066330 / 2^23; the product of two [f32] is rounded to 24 bits
    and converted to the nearest nanosecond. *)
Definition mul_f32_1_2 (secs : Z) : Z :=
  div_rne (round_f32 (round_f32 secs * 10066330) * nanos_per_sec) (2 ^ 23).

(** ** The session *)
Inductive SessionState := Disconnected | LogonSent | LoggedIn | LogoutSent.

#[export] Instance SessionState_eq_dec : EqDecision SessionState.
Proof. solve_decision. Defined.

Record SessionConfig := mkSessionConfig {
  sender_comp_id : string;
  target_comp_id : string;
  heartbeat_secs : Z;
  reset_on_logon : bool;
}.

Inductive SessionAction :=
| Send (bytes : string)
| DeliverApp (m : Message)
| Disconnect (reason : string).

Section Session.
Context {S : SeqNumStore}.

Record FixSession := mkFixSession {
  config : SessionConfig;
  store : seq_store;
  state : SessionState;
  last_recv_at : option Z;
  last_send_at : option Z;
  test_req_id_counter : Z;
  outstanding_test_req_id : option string;
  outstanding_test_req_sent_at : option Z;
}.

Definition session_new (config : SessionConfig) (store : seq_store) : FixSession :=
  mkFixSession config store Disconnected None None 0 None None.

Definition set_store (st : seq_store) (s : FixSession) : FixSession :=
  mkFixSession (config s) st (state s) (last_recv_at s) (last_send_at s)
    (test_req_id_counter s) (outstanding_test_req_id s) (outstanding_test_req_sent_at s).
Definition set_state (x : SessionState) (s : FixSession) : FixSession :=
  mkFixSession (config s) (store s) x (last_recv_at s) (last_send_at s)
    (test_req_id_counter s) (outstanding_test_req_id s) (outstanding_test_req_sent_at s).
Definition set_last_recv (t : Z) (s : FixSession) : FixSession :=
  mkFixSession (config s) (store s) (state s) (Some t) (last_send_at s)
    (test_req_id_counter s) (outstanding_test_req_id s) (outstanding_test_req_sent_at s).
Definition set_last_send (t : Z) (s : FixSession) : FixSession :=
  mkFixSession (config s) (store s) (state s) (last_recv_at s) (Some t)
    (test_req_id_counter s) (outstanding_test_req_id s) (outstanding_test_req_sent_at s).
Definition set_test_req (counter : Z) (id : option string) (at_ : option Z) (s : FixSession) :
    FixSession :=
  mkFixSession (config s) (store s) (state s) (last_recv_at s) (last_send_at s) counter id at_.

Definition send_session_msg (msg : Message) (now : Z) (sending_time : string) (s : FixSession) :
    SessionAction * FixSession :=
  let '(seq, st) := next_send (store s) in
  let s := set_store st s in
  let bytes := encode msg (sender_comp_id (config s)) (target_comp_id (config s)) seq sending_time in
  (Send bytes, set_last_send now s).

Definition start_logon (now : Z) (sending_time : string) (s : FixSession) :
    SessionAction * FixSession :=
  let s := if reset_on_logon (config s) then set_store (store_reset (store s)) s else s in
  let msg := logon (heartbeat_secs (config s)) in
  let msg := if reset_on_logon (config s) then set TAG_RESET_SEQ_NUM_FLAG "Y" msg else msg in
  send_session_msg msg now sending_time (set_state LogonSent s).

Definition start_logout (now : Z) (sending_time : string) (s : FixSession) :
    SessionAction * FixSession :=
  send_session_msg (new "5") now sending_time (set_state LogoutSent s).

(** [msg.get(tag).and_then(|s| s.parse().ok())] *)
Definition get_u64 (tag : Z) (m : Message) : option Z := get tag m ≫= parse_u64.

Definition msg_seq (m : Message) : Z := default 0 (get_u64 MSG_SEQ_NUM m).
Definition is_poss_dup (m : Message) : bool := bool_decide (get TAG_POSS_DUP_FLAG m = Some "Y").

Definition advance (to : Z) (s : FixSession) : FixSession :=
  set_store (advance_recv to (store s)) s.

(** The dispatch on the message type, for a message in sequence. *)
Definition dispatch (msg : Message) (now : Z) (sending_time : string) (expected : Z)
    (s : FixSession) : list SessionAction * FixSession :=
  let next := wrap_u64 (expected + 1) in
  if String.eqb (msg_type msg) "A" then
    if decide (state s = LogonSent) then ([], advance next (set_state LoggedIn s))
    else ([Disconnect "unexpected Logon in current state"], s)
  else if String.eqb (msg_type msg) "0" then
    let s := advance next s in
    match outstanding_test_req_id s with
    | Some tid =>
        if decide (get TEST_REQ_ID msg = Some tid)
        then ([], set_test_req (test_req_id_counter s) None None s)
        else ([], s)
    | None => ([], s)
    end
  else if String.eqb (msg_type msg) "1" then
    let s := advance next s in
    let test_req_id := default "" (get TEST_REQ_ID msg) in
    let hb := if String.eqb test_req_id "" then heartbeat
              else set TEST_REQ_ID test_req_id heartbeat in
    let '(a, s) := send_session_msg hb now sending_time s in ([a], s)
  else if String.eqb (msg_type msg) "2" then
    let s := advance next s in
    let begin := default 0 (get_u64 TAG_BEGIN_SEQ_NO msg) in
    let end_ := default 0 (get_u64 TAG_END_SEQ_NO msg) in
    let target := wrap_u64 (Z.max end_ begin + 1) in
    let sr := set TAG_NEW_SEQ_NO (show_uint target) (set TAG_GAP_FILL_FLAG "Y" (new "4")) in
    let '(a, s) := send_session_msg sr now sending_time s in ([a], s)
  else if String.eqb (msg_type msg) "4" then
    ([], advance (default next (get_u64 TAG_NEW_SEQ_NO msg)) s)
  else if String.eqb (msg_type msg) "5" then
    let s := advance next s in
    let '(out, s) :=
      if decide (state s = LogoutSent) then ([], s)
      else let '(a, s) := send_session_msg (new "5") now sending_time s in ([a], s) in
    (out ++ [Disconnect "peer logout"], set_state Disconnected s)
  else ([DeliverApp msg], advance next s).

Definition on_message (msg : Message) (now : Z) (sending_time : string) (s : FixSession) :
    list SessionAction * FixSession :=
  let s := set_last_recv now s in
  let expected := expected_recv (store s) in
  if expected <? msg_seq msg then
    let rr := set TAG_END_SEQ_NO "0" (set TAG_BEGIN_SEQ_NO (show_uint expected) (new "2")) in
    let '(a, s) := send_session_msg rr now sending_time s in ([a], s)
  else if msg_seq msg <? expected then
    if is_poss_dup msg then ([], s)
    else ([Disconnect ("inbound MsgSeqNum " +:+ show_uint (msg_seq msg) +:+ " < expected "
             +:+ show_uint expected)], s)
  else dispatch msg now sending_time expected s.

Definition hb_nanos (s : FixSession) : Z := heartbeat_secs (config s) * nanos_per_sec.

(** The three checks of [tick], in order. *)
Definition tick_heartbeat (now : Z) (sending_time : string) (s : FixSession) :
    list SessionAction * FixSession :=
  let hb := hb_nanos s in
  let silent_for := default hb (duration_since now <$> last_send_at s) in
  if hb <=? silent_for then
    let '(a, s) := send_session_msg heartbeat now sending_time s in ([a], s)
  else ([], s).

Definition tick_test_request (now : Z) (sending_time : string) (s : FixSession) :
    list SessionAction * FixSession :=
  let recv_silent_for := default 0 (duration_since now <$> last_recv_at s) in
  if (mul_f32_1_2 (heartbeat_secs (config s)) <? recv_silent_for)
     && bool_decide (outstanding_test_req_id s = None) then
    let counter := wrap_u64 (test_req_id_counter s + 1) in
    let tid := "TR-" +:+ show_uint counter in
    let s := set_test_req counter (Some tid) (Some now) s in
    let '(a, s) := send_session_msg (test_request tid) now sending_time s in ([a], s)
  else ([], s).

Definition tick_watchdog (now : Z) (s : FixSession) : list SessionAction * FixSession :=
  match outstanding_test_req_sent_at s with
  | Some sent_at =>
      if hb_nanos s <? duration_since now sent_at
      then ([Disconnect "peer heartbeat timeout"], set_state Disconnected s)
      else ([], s)
  | None => ([], s)
  end.

Definition tick (now : Z) (sending_time : string) (s : FixSession) :
    list SessionAction * FixSession :=
  if decide (state s = LoggedIn) then
    let '(o1, s) := tick_heartbeat now sending_time s in
    let '(o2, s) := tick_test_request now sending_time s in
    let '(o3, s) := tick_watchdog now s in
    (o1 ++ o2 ++ o3, s)
  else ([], s).

Definition send_app (msg : Message) (now : Z) (sending_time : string) (s : FixSession) :
    result SessionAction unit * FixSession :=
  if decide (state s = LoggedIn) then
    let '(a, s) := send_session_msg msg now sending_time s in (Ok a, s)
  else (Err tt, s).
End Session.

(** ** Runs

    The inputs of the driver, each with the time and the sending-time text it
    passes. *)
Inductive Event :=
| Inbound (msg : Message) (now : Z) (time : string)
| Tick (now : Z) (time : string)
| SendApp (msg : Message) (now : Z) (time : string)
| Logon (now : Z) (time : string)
| Logout (now : Z) (time : string).

Section Runs.
Context {S : SeqNumStore} {SL : SeqNumStoreLaws S}.
Implicit Types (s : FixSession) (e : Event).

Definition step s e : list SessionAction * FixSession :=
  match e with
  | Inbound m now t => on_message m now t s
  | Tick now t => tick now t s
  | SendApp m now t =>
      match send_app m now t s with (Ok a, s) => ([a], s) | (Err _, s) => ([], s) end
  | Logon now t => let '(a, s) := start_logon now t s in ([a], s)
  | Logout now t => let '(a, s) := start_logout now t s in ([a], s)
  end.

Fixpoint run s (es : list Event) : list SessionAction * FixSession :=
  match es with
  | [] => ([], s)
  | e :: es' =>
      let '(o1, s1) := step s e in
      let '(o2, s2) := run s1 es' in
      (o1 ++ o2, s2)
  end.

(** What a step does to the part of the state a theorem is about. [sent]
    lists the frames written, [delivered] the messages delivered. *)
Definition sent (o : list SessionAction) : list string :=
  omap (λ a, match a with Send b => Some b | _ => None end) o.
Definition delivered (o : list SessionAction) : list Message :=
  omap (λ a, match a with DeliverApp m => Some m | _ => None end) o.

(** The frames [bs] carry the sequence numbers from [n] on. *)
Definition frames_from (c : SessionConfig) (n : Z) (bs : list string) : Prop :=
  Forall2 (λ k b, ∃ m time, b = encode m (sender_comp_id c) (target_comp_id c) k time)
    (seqZ n (len bs)) bs.

(** One step of the outbound side: the counter moves by the frames sent. *)
Record out_rel s (o : list SessionAction) s' : Prop := {
  or_config : config s' = config s;
  or_peek : peek_send (store s') = wrap_u64 (peek_send (store s) + len (sent o));
  or_frames : peek_send (store s) + len (sent o) ≤ u64_max →
    frames_from (config s) (peek_send (store s)) (sent o);
}.

Definition peek_ok s : Prop := is_u64 (peek_send (store s)).

Lemma out_rel_quiet s o s' : peek_ok s →
  config s' = config s → peek_send (store s') = peek_send (store s) → sent o = [] → out_rel s o s'.
Proof.
  intros Hp Hc Hk Ho. split; [done| |]; rewrite Ho; simpl.
  - rewrite Hk, Z.add_0_r. symmetry. by apply wrap_u64_id.
  - intros _. constructor.
Qed.

Lemma out_rel_send m now t s : peek_ok s →
  out_rel s [(send_session_msg m now t s).1] (send_session_msg m now t s).2.
Proof.
  intros Hp. unfold send_session_msg.
  pose proof (next_send_value (store s)) as Hv. pose proof (next_send_peek (store s)) as Hk.
  destruct (next_send (store s)) as [seq st]. cbn [fst snd] in *. subst seq.
  split; [done|exact Hk|]. intros _. simpl. unfold frames_from. simpl.
  constructor; [|constructor]. exists m, t. done.
Qed.

Lemma out_rel_ok s o s' : out_rel s o s' → peek_ok s'.
Proof. intros [_ H _]. unfold peek_ok. rewrite H. apply wrap_u64_range. Qed.

Lemma sent_app o1 o2 : sent (o1 ++ o2) = sent o1 ++ sent o2.
Proof. apply omap_app. Qed.
Lemma delivered_app o1 o2 : delivered (o1 ++ o2) = delivered o1 ++ delivered o2.
Proof. apply omap_app. Qed.

Lemma frames_app c n bs1 bs2 :
  frames_from c n bs1 → frames_from c (n + len bs1) bs2 → frames_from c n (bs1 ++ bs2).
Proof.
  intros H1 H2. unfold frames_from. rewrite length_app, Nat2Z.inj_add, seqZ_app by lia.
  by apply Forall2_app.
Qed.

Lemma out_rel_app s o1 s1 o2 s2 : peek_ok s →
  out_rel s o1 s1 → out_rel s1 o2 s2 → out_rel s (o1 ++ o2) s2.
Proof.
  intros Hp [Hc1 Hk1 Hf1] [Hc2 Hk2 Hf2]. unfold peek_ok, is_u64 in Hp.
  rewrite Hk1 in Hk2. split; [congruence| |]; rewrite sent_app, length_app, Nat2Z.inj_add.
  - rewrite Hk2. unfold wrap_u64. rewrite Zplus_mod_idemp_l. f_equal. lia.
  - intros Hmax. assert (Hw : peek_send (store s1) = peek_send (store s) + len (sent o1)).
    { rewrite Hk1. apply wrap_u64_id. unfold is_u64. lia. }
    apply frames_app; [apply Hf1; lia|]. rewrite <- Hw, <- Hc1. apply Hf2. lia.
Qed.

(** A pure change of the non-outbound part before a step. *)
Lemma out_rel_pre s s1 o s2 : config s1 = config s → peek_send (store s1) = peek_send (store s) →
  out_rel s1 o s2 → out_rel s o s2.
Proof. intros Hc Hk [H1 H2 H3]. rewrite Hc, Hk in *. by split. Qed.

Lemma out_rel_post s o s1 s2 : out_rel s o s1 →
  config s2 = config s1 → peek_send (store s2) = peek_send (store s1) → out_rel s o s2.
Proof. intros [H1 H2 H3] Hc Hk. split; [congruence|congruence|done]. Qed.

Lemma send_pair m now t s a s' : send_session_msg m now t s = (a, s') → peek_ok s →
  out_rel s [a] s'.
Proof. intros E Hp. pose proof (out_rel_send m now t s Hp) as H. by rewrite E in H. Qed.

Lemma advance_peek' to s : peek_send (store (advance to s)) = peek_send (store s).
Proof. apply advance_peek. Qed.

Lemma out_rel_dispatch m now t ex s : peek_ok s →
  out_rel s (dispatch m now t ex s).1 (dispatch m now t ex s).2.
Proof.
  intros Hp. assert (Hadv : ∀ to, peek_ok (advance to s)) by (intros; unfold peek_ok; by rewrite advance_peek').
  unfold dispatch.
  destruct (String.eqb (msg_type m) "A").
  { case_decide; apply out_rel_quiet; try done. apply (advance_peek' _ (set_state LoggedIn s)). }
  destruct (String.eqb (msg_type m) "0").
  { destruct (outstanding_test_req_id _); [case_decide|];
      (apply out_rel_quiet; try done; apply advance_peek). }
  destruct (String.eqb (msg_type m) "1").
  { destruct (send_session_msg _ _ _ _) as [a s'] eqn:E. apply send_pair in E; [|done].
    eapply out_rel_pre; [..|exact E]; [done|apply advance_peek]. }
  destruct (String.eqb (msg_type m) "2").
  { destruct (send_session_msg _ _ _ _) as [a s'] eqn:E. apply send_pair in E; [|done].
    eapply out_rel_pre; [..|exact E]; [done|apply advance_peek]. }
  destruct (String.eqb (msg_type m) "4").
  { apply out_rel_quiet; try done. apply advance_peek. }
  destruct (String.eqb (msg_type m) "5").
  { case_decide; [apply out_rel_quiet; try done; apply advance_peek|].
    destruct (send_session_msg _ _ _ _) as [a s'] eqn:E. apply send_pair in E; [|done].
    apply (out_rel_pre s (advance (wrap_u64 (ex + 1)) s)); [done|apply advance_peek|].
    destruct E as [H1 H2 H3]. by split. }
  apply out_rel_quiet; try done. apply advance_peek.
Qed.

Lemma out_rel_on_message m now t s : peek_ok s →
  out_rel s (on_message m now t s).1 (on_message m now t s).2.
Proof.
  intros Hp. unfold on_message. change (store (set_last_recv now s)) with (store s).
  destruct (_ <? _).
  { destruct (send_session_msg _ _ _ _) as [a s'] eqn:E. apply send_pair in E; [|done].
    eapply out_rel_pre; [..|exact E]; done. }
  destruct (_ <? _); [destruct (is_poss_dup m); by apply out_rel_quiet|].
  eapply out_rel_pre; [..|by apply out_rel_dispatch]; done.
Qed.

Lemma out_rel_tick now t s : peek_ok s → out_rel s (tick now t s).1 (tick now t s).2.
Proof.
  intros Hp. unfold tick. case_decide; [|by apply out_rel_quiet].
  assert (H1 : out_rel s (tick_heartbeat now t s).1 (tick_heartbeat now t s).2).
  { unfold tick_heartbeat. destruct (_ <=? _); [|by apply out_rel_quiet].
    destruct (send_session_msg _ _ _ _) as [a s'] eqn:E. by eapply send_pair. }
  destruct (tick_heartbeat now t s) as [o1 s1]. cbn [fst snd] in H1.
  pose proof (out_rel_ok _ _ _ H1) as Hp1.
  assert (H2 : out_rel s1 (tick_test_request now t s1).1 (tick_test_request now t s1).2).
  { unfold tick_test_request. destruct (_ && _); [|by apply out_rel_quiet].
    destruct (send_session_msg _ _ _ _) as [a s'] eqn:E. apply send_pair in E; [|done].
    eapply out_rel_pre; [..|exact E]; done. }
  destruct (tick_test_request now t s1) as [o2 s2]. cbn [fst snd] in H2.
  pose proof (out_rel_ok _ _ _ H2) as Hp2.
  assert (H3 : out_rel s2 (tick_watchdog now s2).1 (tick_watchdog now s2).2).
  { unfold tick_watchdog. destruct (outstanding_test_req_sent_at s2); [|by apply out_rel_quiet].
    destruct (_ <? _); by apply out_rel_quiet. }
  destruct (tick_watchdog now s2) as [o3 s3]. cbn [fst snd] in *.
  eapply out_rel_app; [done..|]. by eapply out_rel_app.
Qed.

(** A [Logon] that resets the store restarts the numbering. *)
Definition resets (c : SessionConfig) e : bool :=
  match e with Logon _ _ => reset_on_logon c | _ => false end.

Lemma out_rel_step s e : peek_ok s → resets (config s) e = false →
  out_rel s (step s e).1 (step s e).2.
Proof.
  intros Hp Hr. destruct e as [m now t|now t|m now t|now t|now t]; cbn [step].
  - by apply out_rel_on_message.
  - by apply out_rel_tick.
  - unfold send_app. case_decide; [|by apply out_rel_quiet].
    destruct (send_session_msg _ _ _ _) as [a s'] eqn:E. by eapply send_pair.
  - unfold start_logon. simpl in Hr. rewrite Hr.
    destruct (send_session_msg _ _ _ _) as [a s'] eqn:E. apply send_pair in E; [|done].
    eapply out_rel_pre; [..|exact E]; done.
  - unfold start_logout.
    destruct (send_session_msg _ _ _ _) as [a s'] eqn:E. apply send_pair in E; [|done].
    eapply out_rel_pre; [..|exact E]; done.
Qed.

Lemma out_rel_run s es : peek_ok s → forallb (λ e, negb (resets (config s) e)) es = true →
  out_rel s (run s es).1 (run s es).2.
Proof.
  revert s. induction es as [|e es IH]; intros s Hp Hr; cbn [run]; [by apply out_rel_quiet|].
  cbn [forallb] in Hr. apply andb_true_iff in Hr as [Hr1 Hr2]. apply negb_true_iff in Hr1.
  pose proof (out_rel_step s e Hp Hr1) as H1.
  destruct (step s e) as [o1 s1]. cbn [fst snd] in H1.
  pose proof (out_rel_ok _ _ _ H1) as Hp1.
  assert (Hr3 : forallb (λ e, negb (resets (config s1) e)) es = true)
    by (by rewrite (or_config _ _ _ H1)).
  pose proof (IH s1 Hp1 Hr3) as H2. destruct (run s1 es) as [o2 s2]. cbn [fst snd] in *.
  by eapply out_rel_app.
Qed.

(** ** The inbound side *)

(** A message that moves the expected number other than by one. *)
Definition plain e : bool :=
  match e with
  | Inbound m _ _ => negb (String.eqb (msg_type m) "4")
  | _ => true
  end.

(** The expected number grows by at most [n]; what was delivered had, in
    order, increasing numbers of the range passed over. *)
Record in_rel (n : Z) s (o : list SessionAction) s' : Prop := {
  ir_mono : expected_recv (store s) ≤ expected_recv (store s') ≤ expected_recv (store s) + n;
  ir_sorted : StronglySorted Z.lt (msg_seq <$> delivered o);
  ir_range q : q ∈ msg_seq <$> delivered o →
    expected_recv (store s) ≤ q < expected_recv (store s');
}.

Lemma in_rel_quiet n s o s' : 0 ≤ n →
  expected_recv (store s') = expected_recv (store s) → delivered o = [] → in_rel n s o s'.
Proof.
  intros Hn He Ho. split; [lia| |]; rewrite Ho; [constructor|].
  intros q Hq. by apply not_elem_of_nil in Hq.
Qed.

Lemma in_rel_advance s o s' :
  expected_recv (store s') = expected_recv (store s) + 1 → delivered o = [] → in_rel 1 s o s'.
Proof.
  intros He Ho. split; [lia| |]; rewrite Ho; [constructor|].
  intros q Hq. by apply not_elem_of_nil in Hq.
Qed.

Lemma in_rel_app n1 n2 s o1 s1 o2 s2 :
  in_rel n1 s o1 s1 → in_rel n2 s1 o2 s2 → in_rel (n1 + n2) s (o1 ++ o2) s2.
Proof.
  intros [Hm1 Hs1 Hr1] [Hm2 Hs2 Hr2]. split; [lia| |]; rewrite delivered_app, fmap_app.
  - apply StronglySorted_app_2; [|done..]. intros x y Hx%Hr1 Hy%Hr2. lia.
  - intros q [Hq%Hr1|Hq%Hr2]%elem_of_app; lia.
Qed.

Lemma send_recv m now t s a s' : send_session_msg m now t s = (a, s') →
  expected_recv (store s') = expected_recv (store s) ∧ state s' = state s ∧
  config s' = config s ∧ last_recv_at s' = last_recv_at s ∧
  outstanding_test_req_id s' = outstanding_test_req_id s ∧
  outstanding_test_req_sent_at s' = outstanding_test_req_sent_at s ∧ delivered [a] = [].
Proof.
  unfold send_session_msg. pose proof (next_send_recv (store s)) as H.
  destruct (next_send (store s)) as [seq st]. cbn [snd] in H. intros [= <- <-]. done.
Qed.

Lemma advance_recv_eq to s : expected_recv (store (advance to s)) = to.
Proof. apply advance_expected. Qed.

Lemma in_rel_dispatch m now t s :
  String.eqb (msg_type m) "4" = false → msg_seq m = expected_recv (store s) →
  0 ≤ expected_recv (store s) < u64_max →
  in_rel 1 s (dispatch m now t (expected_recv (store s)) s).1
    (dispatch m now t (expected_recv (store s)) s).2.
Proof.
  intros H4 Hseq Hrange. unfold dispatch. rewrite H4.
  assert (Hw : wrap_u64 (expected_recv (store s) + 1) = expected_recv (store s) + 1)
    by (apply wrap_u64_id; unfold is_u64; lia).
  rewrite Hw. set (ex := expected_recv (store s) + 1).
  assert (Hadv : ∀ s0, expected_recv (store (advance ex s0)) = ex) by (intros; apply advance_recv_eq).
  destruct (String.eqb (msg_type m) "A").
  { case_decide; [apply in_rel_advance; [apply Hadv|done]|by apply in_rel_quiet]. }
  destruct (String.eqb (msg_type m) "0").
  { destruct (outstanding_test_req_id _); [case_decide|];
      (apply in_rel_advance; [apply Hadv|done]). }
  destruct (String.eqb (msg_type m) "1").
  { destruct (send_session_msg _ _ _ _) as [a s'] eqn:E. apply send_recv in E as (E & _ & _ & _ & _ & _ & Hd).
    apply in_rel_advance; [exact (eq_trans E (Hadv s))|exact Hd]. }
  destruct (String.eqb (msg_type m) "2").
  { destruct (send_session_msg _ _ _ _) as [a s'] eqn:E. apply send_recv in E as (E & _ & _ & _ & _ & _ & Hd).
    apply in_rel_advance; [exact (eq_trans E (Hadv s))|exact Hd]. }
  destruct (String.eqb (msg_type m) "5").
  { case_decide; [apply in_rel_advance; [apply Hadv|done]|].
    destruct (send_session_msg _ _ _ _) as [a s'] eqn:E. apply send_recv in E as (E & _ & _ & _ & _ & _ & Hd).
    apply in_rel_advance; [exact (eq_trans E (Hadv s))|].
    cbn [fst]. by rewrite delivered_app, Hd. }
  split; cbn [fst snd].
  - rewrite Hadv. unfold ex. lia.
  - repeat constructor.
  - intros q ->%list_elem_of_singleton. rewrite Hadv, Hseq. unfold ex. lia.
Qed.

Lemma in_rel_step s e : plain e = true → resets (config s) e = false →
  0 ≤ expected_recv (store s) < u64_max → in_rel 1 s (step s e).1 (step s e).2.
Proof.
  intros Hpl Hr Hrange. destruct e as [m now t|now t|m now t|now t|now t]; cbn [step].
  - unfold on_message. change (store (set_last_recv now s)) with (store s).
    destruct (expected_recv (store s) <? msg_seq m) eqn:E1.
    { destruct (send_session_msg _ _ _ _) as [a s'] eqn:E.
      apply send_recv in E as (E & _ & _ & _ & _ & _ & Hd). by apply in_rel_quiet. }
    destruct (msg_seq m <? expected_recv (store s)) eqn:E2;
      [destruct (is_poss_dup m); by apply in_rel_quiet|].
    destruct (in_rel_dispatch m now t (set_last_recv now s)) as [H1 H2 H3];
      [by apply negb_true_iff|simpl; lia|done|by split].
  - unfold tick. case_decide; [|by apply in_rel_quiet].
    destruct (tick_heartbeat now t s) as [o1 s1] eqn:E1, (tick_test_request now t s1) as [o2 s2] eqn:E2,
      (tick_watchdog now s2) as [o3 s3] eqn:E3.
    assert (H1 : expected_recv (store s1) = expected_recv (store s) ∧ delivered o1 = []).
    { unfold tick_heartbeat in E1. destruct (_ <=? _); [|by simplify_eq].
      destruct (send_session_msg _ _ _ _) as [a s'] eqn:E. simplify_eq.
      apply send_recv in E. tauto. }
    assert (H2 : expected_recv (store s2) = expected_recv (store s1) ∧ delivered o2 = []).
    { unfold tick_test_request in E2. destruct (_ && _); [|by simplify_eq].
      destruct (send_session_msg _ _ _ _) as [a s'] eqn:E. simplify_eq.
      apply send_recv in E. tauto. }
    assert (H3 : expected_recv (store s3) = expected_recv (store s2) ∧ delivered o3 = []).
    { unfold tick_watchdog in E3. destruct (outstanding_test_req_sent_at s2); [|by simplify_eq].
      destruct (_ <? _); by simplify_eq. }
    destruct H1 as [He1 Hd1], H2 as [He2 Hd2], H3 as [He3 Hd3].
    apply in_rel_quiet; [done|cbn [snd]; congruence|].
    cbn [fst]. by rewrite !delivered_app, Hd1, Hd2, Hd3.
  - unfold send_app. case_decide; [|by apply in_rel_quiet].
    destruct (send_session_msg _ _ _ _) as [a s'] eqn:E. apply send_recv in E. apply in_rel_quiet; [done|tauto|cbn [fst]; tauto].
  - unfold start_logon. simpl in Hr. rewrite Hr.
    destruct (send_session_msg _ _ _ _) as [a s'] eqn:E. apply send_recv in E. apply in_rel_quiet; [done|tauto|cbn [fst]; tauto].
  - unfold start_logout.
    destruct (send_session_msg _ _ _ _) as [a s'] eqn:E. apply send_recv in E. apply in_rel_quiet; [done|tauto|cbn [fst]; tauto].
Qed.

(** Case analysis of a step: every test, every frame sent. *)
Ltac session_cases :=
  repeat match goal with
  | |- context [send_session_msg ?m ?n ?t ?s] =>
      let E := fresh "E" in
      destruct (send_session_msg m n t s) eqn:E;
      apply send_recv in E as (? & ? & ? & ? & ? & ? & ?)
  | |- context [match ?x with _ => _ end] => destruct x eqn:?
  end; cbn [fst snd config state set_state set_store set_last_recv set_test_req advance] in *.

Lemma tick_heartbeat_state now t s s1 o : tick_heartbeat now t s = (o, s1) →
  config s1 = config s ∧ state s1 = state s ∧ last_recv_at s1 = last_recv_at s ∧
  outstanding_test_req_id s1 = outstanding_test_req_id s ∧
  outstanding_test_req_sent_at s1 = outstanding_test_req_sent_at s.
Proof.
  unfold tick_heartbeat. destruct (_ <=? _); [|by intros [= <- <-]].
  destruct (send_session_msg _ _ _ _) as [a s'] eqn:E. apply send_recv in E.
  intros [= <- <-]. tauto.
Qed.

Lemma tick_test_request_state now t s s1 o : tick_test_request now t s = (o, s1) →
  config s1 = config s ∧ state s1 = state s ∧ last_recv_at s1 = last_recv_at s ∧
  if (mul_f32_1_2 (heartbeat_secs (config s)) <? default 0 (duration_since now <$> last_recv_at s))
     && bool_decide (outstanding_test_req_id s = None)
  then is_Some (outstanding_test_req_id s1) ∧ outstanding_test_req_sent_at s1 = Some now
  else s1 = s.
Proof.
  unfold tick_test_request. destruct (_ && _); [|by intros [= <- <-]].
  destruct (send_session_msg _ _ _ _) as [a s'] eqn:E.
  apply send_recv in E as (_ & H1 & H2 & H3 & H4 & H5 & _).
  intros [= <- <-]. rewrite H4, H5. simpl in *. eauto.
Qed.

Lemma step_config s e : config (step s e).2 = config s.
Proof.
  destruct e as [m now t|now t|m now t|now t|now t]; cbn [step].
  - unfold on_message, dispatch. session_cases; try done.
    case_decide; by simplify_eq.
  - unfold tick. case_decide; [|done].
    destruct (tick_heartbeat now t s) as [o1 s1] eqn:E1.
    destruct (tick_test_request now t s1) as [o2 s2] eqn:E2.
    apply tick_heartbeat_state in E1 as (E1 & _). apply tick_test_request_state in E2 as (E2 & _).
    unfold tick_watchdog. destruct (outstanding_test_req_sent_at s2); [destruct (_ <? _)|];
      cbn [snd]; simpl; congruence.
  - unfold send_app. case_decide; [|done].
    destruct (send_session_msg _ _ _ _) as [a s'] eqn:E. by apply send_recv in E as (_ & _ & E & _).
  - unfold start_logon.
    destruct (send_session_msg _ _ _ _) as [a s'] eqn:E. apply send_recv in E as (_ & _ & E & _).
    cbn [snd]. rewrite E. by destruct (reset_on_logon _).
  - unfold start_logout.
    destruct (send_session_msg _ _ _ _) as [a s'] eqn:E. by apply send_recv in E as (_ & _ & E & _).
Qed.

Lemma in_rel_run s es : forallb (λ e, plain e && negb (resets (config s) e)) es = true →
  0 ≤ expected_recv (store s) → expected_recv (store s) + len es ≤ u64_max →
  in_rel (len es) s (run s es).1 (run s es).2.
Proof.
  revert s. induction es as [|e es IH]; intros s Hes H0 Hmax; cbn [run]; [by apply in_rel_quiet|].
  cbn [forallb List.length] in *. apply andb_true_iff in Hes as [[Hp Hr%negb_true_iff]%andb_true_iff Hes].
  pose proof (in_rel_step s e Hp Hr ltac:(lia)) as H1. rewrite <- (step_config s e) in Hes.
  destruct (step s e) as [o1 s1]. cbn [fst snd] in *.
  pose proof (ir_mono _ _ _ _ H1) as Hm.
  pose proof (IH s1 Hes ltac:(lia) ltac:(lia)) as H2.
  destruct (run s1 es) as [o2 s2]. cbn [fst snd] in *.
  replace (Z.of_nat (Datatypes.S (List.length es))) with (1 + len es) by lia. by eapply in_rel_app.
Qed.

(** ** The watchdog *)

(** A session whose peer was last heard at [t0], between ticks: a test
    request is out since [a] or none is. *)
Definition waiting (t0 : Z) (out : option Z) s : Prop :=
  state s = LoggedIn ∧ last_recv_at s = Some t0 ∧ outstanding_test_req_sent_at s = out ∧
  (outstanding_test_req_id s = None ↔ out = None).

Definition threshold (c : SessionConfig) : Z := mul_f32_1_2 (heartbeat_secs c).

Lemma tick_waiting t0 out now t s : waiting t0 out s →
  state (tick now t s).2 = Disconnected ∨
  ∃ out', waiting t0 out' (tick now t s).2 ∧
    out' = match out with
           | Some a => Some a
           | None => if threshold (config s) <? duration_since now t0 then Some now else None
           end ∧
    ∀ a, out = Some a → duration_since now a ≤ hb_nanos s.
Proof.
  intros (Hst & Hrecv & Hout & Hid). unfold tick. rewrite decide_True by done.
  destruct (tick_heartbeat now t s) as [o1 s1] eqn:E1.
  destruct (tick_test_request now t s1) as [o2 s2] eqn:E2.
  apply tick_heartbeat_state in E1 as (C1 & S1 & R1 & I1 & O1).
  apply tick_test_request_state in E2 as (C2 & S2 & R2 & Hif).
  rewrite C1, R1, Hrecv, I1 in Hif. cbn [default fmap option_fmap option_map] in Hif.
  fold (threshold (config s)) in Hif.
  assert (Hw2 : waiting t0 (match out with
           | Some a => Some a
           | None => if threshold (config s) <? duration_since now t0 then Some now else None
           end) s2).
  { split; [congruence|]. split; [congruence|]. destruct out as [a|].
    - rewrite bool_decide_eq_false_2, andb_false_r in Hif by (by rewrite Hid).
      subst s2. split; [congruence|]. rewrite I1, Hid. done.
    - rewrite bool_decide_eq_true_2, andb_true_r in Hif by (by rewrite Hid).
      destruct (_ <? _).
      + destruct Hif as [[x Hx] Ho]. split; [done|]. by rewrite Hx.
      + subst s2. split; [congruence|]. by rewrite I1. }
  unfold tick_watchdog. pose proof Hw2 as (_ & _ & Ho2 & _). rewrite Ho2.
  assert (Hhb : hb_nanos s2 = hb_nanos s) by (unfold hb_nanos; congruence).
  destruct (match out with Some _ => _ | None => _ end) as [a|] eqn:Ea.
  - destruct (hb_nanos s2 <? duration_since now a) eqn:Eh; cbn [snd]; [by left|right].
    exists (Some a). split; [done|]. split; [done|]. intros a' ->. simplify_eq.
    rewrite Hhb in Eh. by apply Z.ltb_ge.
  - right. exists None. split; [done|]. split; [done|]. by intros a ->.
Qed.

Lemma tick_disconnected now t s : state s = Disconnected → (tick now t s).2 = s.
Proof. intros H. unfold tick. rewrite decide_False; [done|]. by rewrite H. Qed.

Definition ticks (t : string) (l : list Z) : list Event := (λ now, Tick now t) <$> l.

Lemma run_snd s e es : (run s (e :: es)).2 = (run (step s e).2 es).2.
Proof. cbn [run]. destruct (step s e) as [o1 s1]. cbn [snd]. by destruct (run s1 es). Qed.

Lemma ticks_disconnected t l s : state s = Disconnected → state (run s (ticks t l)).2 = Disconnected.
Proof.
  revert s. induction l as [|now l IH]; intros s Hs; [done|].
  change (ticks t (now :: l)) with (Tick now t :: ticks t l). rewrite run_snd. apply IH.
  cbn [step]. by rewrite tick_disconnected.
Qed.

(** With a request out since [a], a tick later than [a] plus the heartbeat
    interval disconnects. *)
Lemma ticks_timeout t0 a t l t2 s : waiting t0 (Some a) s → hb_nanos s < t2 - a → t2 ∈ l →
  state (run s (ticks t l)).2 = Disconnected.
Proof.
  revert s. induction l as [|now l IH]; intros s Hw Hlt Hin; [by apply not_elem_of_nil in Hin|].
  change (ticks t (now :: l)) with (Tick now t :: ticks t l). rewrite run_snd.
  destruct (tick_waiting t0 (Some a) now t s Hw) as [Hd|(out' & Hw' & -> & Hle)];
    [by apply ticks_disconnected|]. pose proof (Hle a eq_refl) as Hle'.
  assert (Hhb : hb_nanos (step s (Tick now t)).2 = hb_nanos s)
    by (unfold hb_nanos; by rewrite step_config).
  apply elem_of_cons in Hin as [->|Hin].
  - unfold duration_since in Hle'. lia.
  - apply IH; [done| |done]. by rewrite Hhb.
Qed.

Lemma ticks_silent t0 t l1 t1 l2 t2 s :
  waiting t0 None s → threshold (config s) < t1 - t0 → hb_nanos s < t2 - t1 →
  (∀ x, x ∈ l1 → x ≤ t1) → t2 ∈ l2 →
  state (run s (ticks t (l1 ++ t1 :: l2))).2 = Disconnected.
Proof.
  revert s. induction l1 as [|now l1 IH]; intros s Hw Hthr Hhb Hle Hin.
  - change (ticks t ([] ++ t1 :: l2)) with (Tick t1 t :: ticks t l2). rewrite run_snd.
    destruct (tick_waiting t0 None t1 t s Hw) as [Hd|(out' & Hw' & -> & _)];
      [by apply ticks_disconnected|].
    rewrite (proj2 (Z.ltb_lt _ _)) in Hw' by (unfold duration_since; lia).
    apply (ticks_timeout t0 t1 t l2 t2); [done| |done].
    unfold hb_nanos. by rewrite step_config.
  - change (ticks t ((now :: l1) ++ t1 :: l2)) with (Tick now t :: ticks t (l1 ++ t1 :: l2)).
    rewrite run_snd.
    assert (Hnow : now ≤ t1) by (apply Hle; left).
    destruct (tick_waiting t0 None now t s Hw) as [Hd|(out' & Hw' & -> & _)];
      [by apply ticks_disconnected|].
    destruct (_ <? _).
    + apply (ticks_timeout t0 now t _ t2); [done| |].
      * unfold hb_nanos. rewrite step_config. unfold hb_nanos in Hhb. lia.
      * apply elem_of_app. right. by right.
    + apply IH; [done|by rewrite step_config| |intros x ?; apply Hle; by right|done].
      unfold hb_nanos. by rewrite step_config.
Qed.

(** ** Lifecycle *)

(** The last event of a run that makes a test on the state true. *)
Lemma run_enters (P : SessionState → bool) s es :
  P (state s) = false → P (state (run s es).2) = true →
  ∃ es1 e es2, es = es1 ++ e :: es2 ∧ P (state (run s es1).2) = false ∧
    P (state (step (run s es1).2 e).2) = true.
Proof.
  revert s. induction es as [|e es IH]; intros s H0 H1; [simpl in H1; congruence|].
  rewrite run_snd in H1. destruct (P (state (step s e).2)) eqn:E.
  - exists [], e, es. split; [done|]. by split.
  - destruct (IH _ E H1) as (es1 & e' & es2 & -> & Ha & Hb).
    exists (e :: es1), e', es2. split; [done|]. by rewrite run_snd.
Qed.

Lemma step_logs_in s e : state s ≠ LoggedIn → state (step s e).2 = LoggedIn →
  ∃ m now t, e = Inbound m now t ∧ state s = LogonSent ∧ msg_type m = "A" ∧
    msg_seq m = expected_recv (store s).
Proof.
  intros Hs. destruct e as [m now t|now t|m now t|now t|now t]; cbn [step].
  - intros H. exists m, now, t. split; [done|]. revert H.
    unfold on_message. change (store (set_last_recv now s)) with (store s).
    destruct (_ <? msg_seq m) eqn:E1; [session_cases; congruence|].
    destruct (msg_seq m <? _) eqn:E2; [by destruct (is_poss_dup m)|].
    unfold dispatch. destruct (String.eqb (msg_type m) "A") eqn:EA.
    + case_decide as Hd; [|done]. intros _. apply String.eqb_eq in EA.
      split; [done|]. split; [done|]. lia.
    + session_cases; try congruence; case_decide; by simplify_eq.
  - unfold tick. rewrite decide_False by done. done.
  - unfold send_app. rewrite decide_False by done. done.
  - unfold start_logon. session_cases; simplify_eq; congruence.
  - unfold start_logout. session_cases; simplify_eq; congruence.
Qed.

Lemma step_sends_logon s e : state s ≠ LogonSent → state (step s e).2 = LogonSent →
  ∃ now t, e = Logon now t.
Proof.
  intros Hs. destruct e as [m now t|now t|m now t|now t|now t]; cbn [step].
  - unfold on_message, dispatch. session_cases; try congruence; case_decide; by simplify_eq.
  - unfold tick. case_decide as Hd; [|done].
    destruct (tick_heartbeat now t s) as [o1 s1] eqn:E1.
    destruct (tick_test_request now t s1) as [o2 s2] eqn:E2.
    apply tick_heartbeat_state in E1 as (_ & E1 & _). apply tick_test_request_state in E2 as (_ & E2 & _).
    unfold tick_watchdog. destruct (outstanding_test_req_sent_at s2); [destruct (_ <? _)|];
      cbn [snd]; simpl; congruence.
  - unfold send_app. case_decide; [|done].
    destruct (send_session_msg _ _ _ _) as [a s'] eqn:E. apply send_recv in E as (_ & E & _).
    cbn [snd]. congruence.
  - eauto.
  - unfold start_logout. session_cases; simplify_eq; congruence.
Qed.

(** ** Properties of the session *)

(** Over any run whose logons do not reset the store, the frames written
    carry the consecutive sequence numbers from the store's counter on, under
    the configured identities, and the counter ends behind the last one;
    no number is skipped or used twice. *)
Theorem outbound_seq_consecutive s es
  (Hp : is_u64 (peek_send (store s)))
  (Hr : forallb (λ e, negb (resets (config s) e)) es = true)
  (Hmax : peek_send (store s) + len (sent (run s es).1) ≤ u64_max) :
  frames_from (config s) (peek_send (store s)) (sent (run s es).1) ∧
  peek_send (store (run s es).2) = peek_send (store s) + len (sent (run s es).1).
Proof.
  destruct (out_rel_run s es Hp Hr) as [_ Hk Hf]. split; [by apply Hf|].
  rewrite Hk. apply wrap_u64_id. unfold is_u64 in *. lia.
Qed.

(** C7: over any run without a SequenceReset, a resetting logon or a counter
    overflow, the application messages are delivered in strictly increasing
    sequence order, hence each number at most once, all of them within the
    range the expected number passed over. *)
Theorem delivery_in_order s es
  (Hes : forallb (λ e, plain e && negb (resets (config s) e)) es = true)
  (H0 : 0 ≤ expected_recv (store s)) (Hmax : expected_recv (store s) + len es ≤ u64_max) :
  StronglySorted Z.lt (msg_seq <$> delivered (run s es).1) ∧
  (∀ q, q ∈ msg_seq <$> delivered (run s es).1 →
     expected_recv (store s) ≤ q < expected_recv (store (run s es).2)).
Proof. destruct (in_rel_run s es Hes H0 Hmax) as [_ ? ?]. done. Qed.

(** A message ahead of the expected number is not processed: the only
    answer is a ResendRequest from the expected number on, and neither the
    expected number nor the state moves. *)
Theorem gap_requests_resend s m now t (Hgap : expected_recv (store s) < msg_seq m) :
  let rr := set TAG_END_SEQ_NO "0" (set TAG_BEGIN_SEQ_NO (show_uint (expected_recv (store s))) (new "2")) in
  (on_message m now t s).1 =
    [Send (encode rr (sender_comp_id (config s)) (target_comp_id (config s)) (peek_send (store s)) t)] ∧
  expected_recv (store (on_message m now t s).2) = expected_recv (store s) ∧
  state (on_message m now t s).2 = state s.
Proof.
  intros rr. unfold on_message. change (store (set_last_recv now s)) with (store s).
  rewrite (proj2 (Z.ltb_lt _ _) Hgap). fold rr. unfold send_session_msg.
  change (store (set_last_recv now s)) with (store s).
  pose proof (next_send_value (store s)) as Hv. pose proof (next_send_recv (store s)) as Hk.
  destruct (next_send (store s)) as [q st]. cbn in *. by subst q.
Qed.

(** A session reaches LoggedIn only through a logon: the run contains a
    sent Logon and, later, a received Logon with the expected number. *)
Theorem login_requires_logon s es
  (H0 : state s = Disconnected) (H1 : state (run s es).2 = LoggedIn) :
  ∃ es1 now t es2 m now' t' es3,
    es = es1 ++ Logon now t :: es2 ++ Inbound m now' t' :: es3 ∧ msg_type m = "A" ∧
    msg_seq m = expected_recv (store (run s (es1 ++ Logon now t :: es2)).2).
Proof.
  destruct (run_enters (λ x, bool_decide (x = LoggedIn)) s es) as (esA & e & es3 & -> & Ha & Hb);
    [by rewrite H0|by rewrite H1|].
  apply bool_decide_eq_false in Ha. apply bool_decide_eq_true in Hb.
  destruct (step_logs_in _ _ Ha Hb) as (m & now' & t' & -> & Hs & Hm & Hq).
  destruct (run_enters (λ x, bool_decide (x = LogonSent)) s esA) as (es1 & e & es2 & -> & Hc & Hd);
    [by rewrite H0|by rewrite Hs|].
  apply bool_decide_eq_false in Hc. apply bool_decide_eq_true in Hd.
  destruct (step_sends_logon _ _ Hc Hd) as (now & t & ->).
  exists es1, now, t, es2, m, now', t', es3. split; [by rewrite <- app_assoc|]. done.
Qed.

(** C8: a silent peer is disconnected. In a logged-in session with no test
    request out, a tick more than 1.2 heartbeat intervals after the last
    message (at the latest) sends a TestRequest, and a tick more than an
    interval after that one tears the session down, whatever other ticks
    occur before or between. *)
Theorem silent_peer_disconnected s t0 t l1 t1 l2 t2
  (Hs : state s = LoggedIn) (Hr : last_recv_at s = Some t0)
  (Ho : outstanding_test_req_id s = None ∧ outstanding_test_req_sent_at s = None)
  (H1 : mul_f32_1_2 (heartbeat_secs (config s)) < t1 - t0)
  (H2 : heartbeat_secs (config s) * nanos_per_sec < t2 - t1)
  (Hl1 : ∀ x, x ∈ l1 → x ≤ t1) (Hl2 : t2 ∈ l2) :
  state (run s (ticks t (l1 ++ t1 :: l2))).2 = Disconnected.
Proof.
  destruct Ho as [Hid Hat].
  apply (ticks_silent t0 t l1 t1 l2 t2); [|done..]. by split; [|split; [|split]].
Qed.

(** A SequenceReset sets the expected number to whatever it says, also
    backwards, so that numbers already processed are accepted again. *)
Lemma sequence_reset_unchecked s m now t q :
  msg_type m = "4" → msg_seq m = expected_recv (store s) → get_u64 TAG_NEW_SEQ_NO m = Some q →
  expected_recv (store (on_message m now t s).2) = q.
Proof.
  intros Hm Hq Hn. unfold on_message. change (store (set_last_recv now s)) with (store s).
  rewrite Hq, Z.ltb_irrefl. unfold dispatch. rewrite Hm, Hn. simpl. apply advance_recv_eq.
Qed.

(** An application message in sequence is delivered in every state. *)
Lemma app_delivered_in_any_state s m now t :
  msg_type m = "8" → msg_seq m = expected_recv (store s) →
  (on_message m now t s).1 = [DeliverApp m].
Proof.
  intros Hm Hq. unfold on_message. change (store (set_last_recv now s)) with (store s).
  rewrite Hq, Z.ltb_irrefl. unfold dispatch. by rewrite Hm.
Qed.

(** A ResendRequest up to infinity (EndSeqNo 0) is answered with a gap fill
    that ends right behind BeginSeqNo. *)
Lemma open_resend_fills_one s m now t b :
  msg_type m = "2" → msg_seq m = expected_recv (store s) → is_u64 b → b < u64_max →
  get_u64 TAG_BEGIN_SEQ_NO m = Some b → get_u64 TAG_END_SEQ_NO m = Some 0 →
  ∃ q, (on_message m now t s).1 =
    [Send (encode (set TAG_NEW_SEQ_NO (show_uint (b + 1)) (set TAG_GAP_FILL_FLAG "Y" (new "4")))
      (sender_comp_id (config s)) (target_comp_id (config s)) q t)].
Proof.
  intros Hm Hq Hb Hb' Hbegin Hend. unfold on_message.
  change (store (set_last_recv now s)) with (store s).
  rewrite Hq, Z.ltb_irrefl. unfold dispatch. rewrite Hm, Hbegin, Hend. cbn [String.eqb Ascii.eqb Bool.eqb default].
  unfold is_u64, id in *. rewrite Z.max_r by lia. rewrite wrap_u64_id by (unfold is_u64; lia).
  unfold send_session_msg. destruct (next_send _) as [q st]. by exists q.
Qed.
End Runs.

(** ** Witnesses *)
Definition demo_config : SessionConfig := mkSessionConfig "CLIENT" "VENUE" 30 false.
Definition demo_session : FixSession := session_new demo_config in_memory_new.

Definition venue_msg (ty : string) (q : Z) : Message := set MSG_SEQ_NUM (show_uint q) (new ty).

Definition demo_events : list Event :=
  [Logon 0 "t"; Inbound (venue_msg "A" 1) 1 "t"; Inbound (venue_msg "8" 2) 2 "t";
   Inbound (venue_msg "8" 5) 3 "t"; SendApp (new "D") 4 "t"; Inbound (venue_msg "8" 3) 5 "t"].

Lemma outbound_seq_consecutive_witness :
  frames_from demo_config 1 (sent (run demo_session demo_events).1) ∧
  peek_send (store (run demo_session demo_events).2) = 4.
Proof.
  destruct (outbound_seq_consecutive demo_session demo_events) as [H1 H2].
  - vm_compute. split; discriminate.
  - reflexivity.
  - vm_compute. discriminate.
  - split; [exact H1|]. rewrite H2. vm_compute. reflexivity.
Defined.

Lemma delivery_in_order_witness :
  (msg_seq <$> delivered (run demo_session demo_events).1) = [2; 3] ∧
  StronglySorted Z.lt (msg_seq <$> delivered (run demo_session demo_events).1).
Proof.
  split; [vm_compute; reflexivity|].
  apply (delivery_in_order demo_session demo_events); vm_compute; [reflexivity|discriminate..].
Defined.

Lemma gap_requests_resend_witness :
  state (on_message (venue_msg "8" 9) 0 "t" demo_session).2 = Disconnected.
Proof.
  apply (gap_requests_resend demo_session (venue_msg "8" 9) 0 "t"). vm_compute. reflexivity.
Defined.

Lemma login_requires_logon_witness :
  ∃ es1 now t es2 m now' t' es3,
    demo_events = es1 ++ Logon now t :: es2 ++ Inbound m now' t' :: es3 ∧ msg_type m = "A".
Proof.
  destruct (login_requires_logon demo_session demo_events) as
    (es1 & now & t & es2 & m & now' & t' & es3 & E & Hm & _);
    [reflexivity|vm_compute; reflexivity|].
  exists es1, now, t, es2, m, now', t', es3. by split.
Defined.

Lemma silent_peer_disconnected_witness :
  let s := (run demo_session [Logon 0 "t"; Inbound (venue_msg "A" 1) 1 "t"]).2 in
  state s = LoggedIn ∧
  state (run s (ticks "t" ([20 * nanos_per_sec] ++ 37 * nanos_per_sec :: [68 * nanos_per_sec]))).2
    = Disconnected.
Proof.
  intros s. split; [vm_compute; reflexivity|].
  apply (silent_peer_disconnected s 1 "t" [20 * nanos_per_sec] (37 * nanos_per_sec)
    [68 * nanos_per_sec] (68 * nanos_per_sec)).
  - vm_compute. reflexivity.
  - vm_compute. reflexivity.
  - split; vm_compute; reflexivity.
  - vm_compute. reflexivity.
  - vm_compute. reflexivity.
  - intros x ->%list_elem_of_singleton. vm_compute. discriminate.
  - left.
Defined.
