(* ===== verification/OrderBook.v ===== *)
(** * The local order book ([crates/common/src/orderbook.rs])

    Bids and asks are [BTreeMap]s from price to quantity: finite maps whose
    iteration is in ascending price order. *)
From stdpp Require Import base gmap sets list strings sorting.
From Stdlib Require Import ZArith QArith Qminmax Lqa Lia.
From S2P Require Import Prelude Decimal Types.
Local Open Scope nat_scope.

Section OrderBook.
Context {D : Decimal} {C : Clock}.

Record SweepResult := mkSweepResult {
  sr_side : Side;
  target_qty : dec;
  filled_qty : dec;
  notional : dec;
  vwap : dec;
  sr_impact_bps : dec;
  fully_filled : bool;
}.

Record LocalOrderBook := mkLocalOrderBook {
  symbol : string;
  bids : gmap dec dec;
  asks : gmap dec dec;
  sequence : Z;
  last_update_ms : Z;
}.

Definition new (symbol : string) : LocalOrderBook := mkLocalOrderBook symbol ∅ ∅ 0 0.

(** [BTreeMap::iter]: the entries in ascending key order. *)
Definition btree_iter (m : gmap dec dec) : list (dec * dec) :=
  sort_by (λ a b, dleb a.1 b.1) (map_to_list m).

Definition insert_level (m : gmap dec dec) (l : PriceLevel) : gmap dec dec :=
  <[pl_price l := pl_qty l]> m.

Definition delta_level (m : gmap dec dec) (l : PriceLevel) : gmap dec dec :=
  if is_zero (pl_qty l) then delete (pl_price l) m else <[pl_price l := pl_qty l]> m.

(** Replaces all levels; [now] is [Utc::now()]. *)
Definition apply_snapshot (now : instant) (bs as_ : list PriceLevel) (seq : Z)
    (b : LocalOrderBook) : LocalOrderBook :=
  mkLocalOrderBook (symbol b) (fold_left insert_level bs ∅) (fold_left insert_level as_ ∅)
    seq (millis_of now).

(** Quantity zero removes a level; a stale update changes nothing. *)
Definition apply_delta (now : instant) (bs as_ : list PriceLevel) (seq : Z)
    (b : LocalOrderBook) : LocalOrderBook :=
  if (seq <=? sequence b)%Z then b
  else mkLocalOrderBook (symbol b) (fold_left delta_level bs (bids b))
         (fold_left delta_level as_ (asks b)) seq (millis_of now).

Definition best_bid (b : LocalOrderBook) : option dec := fst <$> last (btree_iter (bids b)).
Definition best_ask (b : LocalOrderBook) : option dec := fst <$> head (btree_iter (asks b)).
Definition best_bid_qty (b : LocalOrderBook) : option dec := snd <$> last (btree_iter (bids b)).
Definition best_ask_qty (b : LocalOrderBook) : option dec := snd <$> head (btree_iter (asks b)).

Definition mid_price (b : LocalOrderBook) : option dec :=
  bb ← best_bid b; ba ← best_ask b; Some (ddiv (dadd bb ba) (dlit 2 0)).

Definition spread (b : LocalOrderBook) : option dec :=
  ba ← best_ask b; bb ← best_bid b; Some (dsub ba bb).

Definition spread_bps (b : LocalOrderBook) : option dec :=
  mid ← mid_price b;
  if is_zero mid then None
  else sp ← spread b; Some (dmul (ddiv sp mid) (dlit 10000 0)).

Definition weighted_mid (b : LocalOrderBook) : option dec :=
  bid_price ← best_bid b;
  ask_price ← best_ask b;
  bid_qty ← bids b !! bid_price;
  ask_qty ← asks b !! ask_price;
  let total := dadd bid_qty ask_qty in
  if is_zero total then mid_price b
  else Some (ddiv (dadd (dmul bid_price ask_qty) (dmul ask_price bid_qty)) total).

Definition bid_depth (levels : nat) (b : LocalOrderBook) : dec :=
  dsum (take levels (reverse (btree_iter (bids b)).*2)).
Definition ask_depth (levels : nat) (b : LocalOrderBook) : dec :=
  dsum (take levels (btree_iter (asks b)).*2).

Fixpoint take_while {A} (p : A → bool) (l : list A) : list A :=
  match l with
  | [] => []
  | x :: l' => if p x then x :: take_while p l' else []
  end.

Definition bid_depth_within_pct_quote (pct : dec) (b : LocalOrderBook) : dec :=
  match mid_price b with
  | Some mid =>
      if is_zero mid then dec0
      else
        let lower_bound := dmul mid (dsub dec1 (ddiv pct (dlit 100 0))) in
        dsum ((λ e, dmul e.1 e.2) <$>
          take_while (λ e, dleb lower_bound e.1) (reverse (btree_iter (bids b))))
  | None => dec0
  end.

Definition ask_depth_within_pct_quote (pct : dec) (b : LocalOrderBook) : dec :=
  match mid_price b with
  | Some mid =>
      if is_zero mid then dec0
      else
        let upper_bound := dmul mid (dadd dec1 (ddiv pct (dlit 100 0))) in
        dsum ((λ e, dmul e.1 e.2) <$>
          take_while (λ e, dleb e.1 upper_bound) (btree_iter (asks b)))
  | None => dec0
  end.

Definition to_level (e : dec * dec) : PriceLevel := mkPriceLevel e.1 e.2.

Definition top_bids (n : nat) (b : LocalOrderBook) : list PriceLevel :=
  to_level <$> take n (reverse (btree_iter (bids b))).
Definition top_asks (n : nat) (b : LocalOrderBook) : list PriceLevel :=
  to_level <$> take n (btree_iter (asks b)).

(** The sweep loop: what is left, filled and spent after walking [levels]. *)
Fixpoint sweep_levels (levels : list (dec * dec)) (remaining filled notional : dec) :
    dec * dec * dec :=
  match levels with
  | [] => (remaining, filled, notional)
  | (price, qty) :: levels' =>
      if dleb remaining dec0 then (remaining, filled, notional)
      else
        let take := if dleb remaining qty then remaining else qty in
        sweep_levels levels' (dsub remaining take) (dadd filled take)
          (dadd notional (dmul take price))
  end.

Definition sweep_side (side : Side) (b : LocalOrderBook) : list (dec * dec) :=
  match side with
  | Buy => btree_iter (asks b)
  | Sell => reverse (btree_iter (bids b))
  end.

Definition sweep_vwap (side : Side) (target : dec) (b : LocalOrderBook) : option SweepResult :=
  if dleb target dec0 then None
  else
    mid ← mid_price b;
    if dleb mid dec0 then None
    else
      let '(remaining, filled, spent) := sweep_levels (sweep_side side b) target dec0 dec0 in
      if dleb filled dec0 then None
      else
        let vwap := ddiv spent filled in
        let signed := match side with Buy => dsub vwap mid | Sell => dsub mid vwap end in
        let impact := dmax (dmul (ddiv signed mid) (dlit 10000 0)) dec0 in
        Some (mkSweepResult side target filled spent vwap impact (dleb remaining dec0)).

Definition impact_bps (side : Side) (size : dec) (b : LocalOrderBook) : option (dec * dec) :=
  r ← sweep_vwap side size b; Some (vwap r, sr_impact_bps r).

Definition imbalance (levels : nat) (b : LocalOrderBook) : option dec :=
  let bid_d := bid_depth levels b in
  let ask_d := ask_depth levels b in
  let total := dadd bid_d ask_d in
  if is_zero total then None else Some (ddiv (dsub bid_d ask_d) total).
End OrderBook.

(** ** Ordered iteration *)
Section Iteration.
Context {D : Decimal} {L : DecimalLaws D} {C : Clock}.
Implicit Types m : gmap dec dec.

Lemma btree_iter_elem m p q : (p, q) ∈ btree_iter m ↔ m !! p = Some q.
Proof. unfold btree_iter. rewrite sort_by_perm. apply elem_of_map_to_list. Qed.

Lemma btree_iter_sorted m : StronglySorted (λ a b, dleb a.1 b.1 = true) (btree_iter m).
Proof.
  apply sort_by_sorted.
  - intros x y. cbn beta. destruct (dleb x.1 y.1) eqn:E; [by left|right]. dec_order.
  - intros x y z. cbn beta. intros. dec_order.
Qed.

(** The first entry has the least key and the last one the greatest. *)
Lemma btree_head m p q : head (btree_iter m) = Some (p, q) →
  m !! p = Some q ∧ ∀ p' q', m !! p' = Some q' → dle p p'.
Proof.
  intros H. assert (Hin : (p, q) ∈ btree_iter m).
  { destruct (btree_iter m) as [|x l]; [done|]. simpl in H. simplify_eq. left. }
  split; [by apply btree_iter_elem|]. intros p' q' Hp'.
  apply btree_iter_elem in Hp'. pose proof (btree_iter_sorted m) as Hs.
  destruct (btree_iter m) as [|x l]; [done|]. simpl in H. simplify_eq.
  apply elem_of_cons in Hp' as [[= -> ->]|Hp']; [apply dle_refl|].
  inversion Hs as [|? ? _ Hall]; subst. rewrite Forall_forall in Hall.
  apply dleb_le. by apply (Hall (p', q')).
Qed.

Lemma btree_last m p q : last (btree_iter m) = Some (p, q) →
  m !! p = Some q ∧ ∀ p' q', m !! p' = Some q' → dle p' p.
Proof.
  intros [l E]%last_Some. split.
  - apply btree_iter_elem. rewrite E. apply elem_of_app. right. left.
  - intros p' q' Hp'%btree_iter_elem. pose proof (btree_iter_sorted m) as Hs.
    rewrite E in Hp', Hs. apply elem_of_app in Hp' as [Hp'|Hp'].
    + apply dleb_le. by apply (StronglySorted_app_1_elem_of _ _ _ (p', q') (p, q) Hs Hp'); left.
    + apply list_elem_of_singleton in Hp' as [= -> ->]. apply dle_refl.
Qed.

Lemma btree_empty m : btree_iter m = [] ↔ m = ∅.
Proof.
  split; [|by intros ->]. intros E. apply map_empty. intros p.
  apply eq_None_not_Some. intros [q Hq%btree_iter_elem]. rewrite E in Hq.
  by apply not_elem_of_nil in Hq.
Qed.

Lemma btree_head_None m : head (btree_iter m) = None ↔ m = ∅.
Proof. rewrite <- btree_empty. by destruct (btree_iter m). Qed.
Lemma btree_last_None m : last (btree_iter m) = None ↔ m = ∅.
Proof. rewrite <- btree_empty. apply last_None. Qed.

(** What a list of level updates says about the level at [p]: the last
    quantity given for it, zero meaning none. *)
Fixpoint latest (p : dec) (ls : list PriceLevel) : option dec :=
  match ls with
  | [] => None
  | l :: ls' =>
      match latest p ls' with
      | Some q => Some q
      | None => if decide (pl_price l = p) then Some (pl_qty l) else None
      end
  end.

Lemma delta_lookup ls m p :
  fold_left delta_level ls m !! p =
  match latest p ls with
  | Some q => if is_zero q then None else Some q
  | None => m !! p
  end.
Proof.
  revert m. induction ls as [|l ls IH]; intros m; [done|]. cbn [fold_left latest].
  rewrite IH. destruct (latest p ls) as [q|]; [done|]. unfold delta_level.
  case_decide as Hp.
  - subst p. destruct (is_zero (pl_qty l)); [apply lookup_delete_eq|apply lookup_insert_eq].
  - destruct (is_zero (pl_qty l)); [by apply lookup_delete_ne|by apply lookup_insert_ne].
Qed.

Lemma snapshot_lookup ls m p :
  fold_left insert_level ls m !! p =
  match latest p ls with Some q => Some q | None => m !! p end.
Proof.
  revert m. induction ls as [|l ls IH]; intros m; [done|]. cbn [fold_left latest].
  rewrite IH. destruct (latest p ls) as [q|]; [done|]. unfold insert_level.
  case_decide as Hp; [subst p; apply lookup_insert_eq|by apply lookup_insert_ne].
Qed.
End Iteration.

(** ** Exact sweeps *)
(** The cost of taking [t] units from the levels, best first. *)
Fixpoint cost (zs : list (Z * Z)) (t : Z) : Z :=
  match zs with
  | [] => 0
  | (p, q) :: zs' => Z.min q t * p + cost zs' (t - Z.min q t)
  end.
Definition depth (zs : list (Z * Z)) : Z := foldr (λ e d, (e.2 + d)%Z) 0%Z zs.
Definition value (zs : list (Z * Z)) : Z := foldr (λ e v, (e.2 * e.1 + v)%Z) 0%Z zs.

Section Sweep.
Context {D : Decimal} {L : DecimalLaws D} {C : Clock}.
Context (sp sq : nat) (Hscale : sq + sp ≤ 28).

(** The level is [z.1] price units and [z.2] quantity units, not negative. *)
Definition level_on (e : dec * dec) (z : Z * Z) : Prop :=
  on_grid sp e.1 z.1 ∧ on_grid sq e.2 z.2 ∧ (0 ≤ z.1)%Z ∧ (0 ≤ z.2)%Z.

Lemma depth_value_nonneg levels zs : Forall2 level_on levels zs →
  (0 ≤ depth zs)%Z ∧ (0 ≤ value zs)%Z.
Proof.
  clear Hscale. induction 1 as [|e z levels zs (_ & _ & H1 & H2) _ [IH1 IH2]]; simpl; [done|].
  assert (0 ≤ z.2 * z.1)%Z by nia. lia.
Qed.

Lemma cost_zero levels zs : Forall2 level_on levels zs → cost zs 0 = 0%Z.
Proof.
  clear Hscale. induction 1 as [|e [p q] levels zs (_ & _ & Hp & Hq) _ IH]; [done|].
  cbn [cost fst snd] in *. rewrite Z.min_r, Z.sub_0_r, IH by lia. lia.
Qed.

Lemma sweep_levels_exact levels zs : Forall2 level_on levels zs →
  ∀ rem fil spent r f c,
  on_grid sq rem r → on_grid sq fil f → on_grid (sq + sp) spent c →
  (0 ≤ r)%Z → small r → (0 ≤ f)%Z → small (f + depth zs) → (0 ≤ c)%Z → small (c + value zs) →
  let '(rem', fil', spent') := sweep_levels levels rem fil spent in
  on_grid sq rem' (r - Z.min r (depth zs)) ∧ on_grid sq fil' (f + Z.min r (depth zs)) ∧
  on_grid (sq + sp) spent' (c + cost zs r).
Proof.
  induction 1 as [|[pe qe] [p q] levels zs (Hp & Hq & Hp0 & Hq0) Hall IH];
    intros rem fil spent r f c Hr Hf Hc Hr0 Hrs Hf0 Hfs Hc0 Hcs; cbn [sweep_levels].
  { simpl. rewrite Z.min_r, Z.sub_0_r, !Z.add_0_r by lia. done. }
  pose proof (depth_value_nonneg _ _ Hall) as [Hd0 Hv0].
  cbn [fst snd] in *. simpl depth in *. simpl value in *. unfold small in *.
  rewrite (grid_leb sq rem dec0 r 0 Hr (grid_zero _)).
  destruct (Z.leb_spec r 0) as [Hz|Hz].
  { assert (r = 0%Z) as -> by lia. cbn [cost]. rewrite !Z.min_l, Z.min_r by lia.
    rewrite Z.sub_0_r, (cost_zero levels zs Hall). by rewrite !Z.add_0_r. }
  rewrite (grid_leb sq rem qe r q Hr Hq).
  set (take := if (r <=? q)%Z then rem else qe).
  assert (Ht : on_grid sq take (Z.min q r)).
  { unfold take. destruct (Z.leb_spec r q); [rewrite Z.min_r|rewrite Z.min_l]; done || lia. }
  assert (Hmul : (0 ≤ Z.min q r * p ≤ q * p)%Z) by nia.
  specialize (IH (dsub rem take) (dadd fil take) (dadd spent (dmul take pe))
    (r - Z.min q r)%Z (f + Z.min q r)%Z (c + Z.min q r * p)%Z).
  assert (G : ∀ x y : Z, (x = y)%Z → ∀ s a, on_grid s a x → on_grid s a y) by (by intros ? ? ->).
  destruct (sweep_levels levels _ _ _) as [[rem' fil'] spent'].
  destruct IH as (I1 & I2 & I3).
  - apply grid_sub; [lia|done..|unfold small; lia].
  - apply grid_add; [lia|done..|unfold small; lia].
  - apply grid_add; [lia|done| |unfold small; lia]. apply grid_mul; [lia|done..|unfold small; lia].
  - lia.
  - lia.
  - lia.
  - lia.
  - lia.
  - lia.
  - cbn [cost]. split; [|split]; (eapply G; [|eassumption]); lia.
Qed.
End Sweep.

Lemma sorted_reverse {A} (R : relation A) (l : list A) : StronglySorted (flip R) l → StronglySorted R (reverse l).
Proof.
  induction 1 as [|x l _ IH Hx]; [constructor|]. rewrite reverse_cons. apply StronglySorted_app. split; [|split; [done|]].
  - intros y z Hy Hz. apply list_elem_of_singleton in Hz as ->. rewrite elem_of_reverse in Hy. rewrite Forall_forall in Hx. by apply Hx.
  - repeat constructor.
Qed.

(** ** Properties of the book *)
Section BookProperties.
Context {D : Decimal} {L : DecimalLaws D} {C : Clock}.
Implicit Types b : LocalOrderBook.

(** The best bid is the highest price with a bid level and the best ask
    the lowest price with an ask level, and they are missing exactly when
    their side is empty. *)
Theorem best_prices_extremal b :
  (∀ p, best_bid b = Some p ↔
     is_Some (bids b !! p) ∧ ∀ p', is_Some (bids b !! p') → dle p' p) ∧
  (∀ p, best_ask b = Some p ↔
     is_Some (asks b !! p) ∧ ∀ p', is_Some (asks b !! p') → dle p p') ∧
  (best_bid b = None ↔ bids b = ∅) ∧ (best_ask b = None ↔ asks b = ∅).
Proof.
  assert (Hanti : ∀ p q : dec, dle p q → dle q p → p = q).
  { intros p q H1 H2. apply dval_inj. unfold dle in *. lra. }
  unfold best_bid, best_ask. split; [|split; [|split]].
  - intros p. split.
    + intros ([p' q] & H & ->)%fmap_Some. apply btree_last in H as [H1 H2].
      split; [by exists q|]. intros p'' [q'' Hq]. eauto.
    + intros [[q Hq] Hmax]. destruct (last (btree_iter (bids b))) as [[p' q']|] eqn:E.
      * apply btree_last in E as [H1 H2]. simpl. f_equal. apply Hanti; eauto.
      * apply btree_last_None in E. by rewrite E, lookup_empty in Hq.
  - intros p. split.
    + intros ([p' q] & H & ->)%fmap_Some. apply btree_head in H as [H1 H2].
      split; [by exists q|]. intros p'' [q'' Hq]. eauto.
    + intros [[q Hq] Hmin]. destruct (head (btree_iter (asks b))) as [[p' q']|] eqn:E.
      * apply btree_head in E as [H1 H2]. simpl. f_equal. apply Hanti; eauto.
      * apply btree_head_None in E. by rewrite E, lookup_empty in Hq.
  - rewrite fmap_None. apply btree_last_None.
  - rewrite fmap_None. apply btree_head_None.
Qed.

(** A delta newer than the book sets every level it names to the last
    quantity it gives, removing the level when that is zero, keeps the other
    levels and takes over the sequence number; a stale delta changes
    nothing. *)
Theorem apply_delta_spec now bs as_ seq b :
  let b' := apply_delta now bs as_ seq b in
  if decide (sequence b < seq)%Z then
    sequence b' = seq ∧
    (∀ p, bids b' !! p = match latest p bs with
                         | Some q => if is_zero q then None else Some q
                         | None => bids b !! p end) ∧
    (∀ p, asks b' !! p = match latest p as_ with
                         | Some q => if is_zero q then None else Some q
                         | None => asks b !! p end)
  else b' = b.
Proof.
  intros b'. subst b'. unfold apply_delta. case_decide as Hs.
  - rewrite (proj2 (Z.leb_gt _ _)) by lia. split; [done|].
    split; intros p; apply delta_lookup.
  - by rewrite (proj2 (Z.leb_le _ _)) by lia.
Qed.

(** The levels of a side of the book, best price first, in units. *)
Definition better (side : Side) (p p' : Z) : Prop := match side with Buy => (p < p')%Z | Sell => (p' < p)%Z end.

Record side_levels (sp sq : nat) (side : Side) (b : LocalOrderBook) (zs : list (Z * Z)) : Prop := {
  sl_best_first : StronglySorted (λ z z', better side z.1 z'.1) zs;
  sl_levels : ∃ levels, levels ≡ₚ map_to_list (match side with Buy => asks b | Sell => bids b end) ∧
    Forall2 (level_on sp sq) levels zs;
}.

Lemma levels_ordered sp sq side levels zs : Forall2 (level_on sp sq) levels zs →
  StronglySorted (λ z z', better side z.1 z'.1) zs →
  StronglySorted (λ e e', match side with Buy => dleb e.1 e'.1 = true | Sell => dleb e'.1 e.1 = true end) levels.
Proof.
  induction 1 as [|e z levels zs He Hall IH]; intros Hs; [constructor|]. apply StronglySorted_inv in Hs. destruct Hs as [Hs Hz].
  constructor; [by apply IH|]. clear IH Hs. induction Hall as [|e' z' levels zs He' _ IH]; [constructor|].
  apply Forall_cons in Hz. destruct Hz as [Hz Hzs]. constructor; [|by apply IH].
  destruct He as (Hp & _), He' as (Hp' & _). destruct side; cbn in Hz |- *.
  - rewrite (grid_leb sp _ _ _ _ Hp Hp'). apply Z.leb_le. lia.
  - rewrite (grid_leb sp _ _ _ _ Hp' Hp). apply Z.leb_le. lia.
Qed.

(** The sweep walks them in that order. *)
Lemma sweep_side_levels sp sq side b zs : side_levels sp sq side b zs → Forall2 (level_on sp sq) (sweep_side side b) zs.
Proof.
  intros [Hs (levels & Hp & Hall)]. replace (sweep_side side b) with levels; [exact Hall|].
  pose proof (levels_ordered sp sq side levels zs Hall Hs) as Ho.
  assert (Hu : ∀ (m : gmap dec dec) e e', e ∈ map_to_list m → e' ∈ map_to_list m → dleb e.1 e'.1 = true → dleb e'.1 e.1 = true → e = e').
  { intros m [p q] [p' q'] H1 H2 Hl Hg. apply elem_of_map_to_list in H1, H2. cbn in *.
    assert (p = p') as -> by (apply dle_antisym; by apply dleb_le). congruence. }
  destruct side; cbn [sweep_side].
  - apply (StronglySorted_unique_strong (λ e e' : dec * dec, dleb e.1 e'.1 = true)); [|exact Ho|apply btree_iter_sorted|].
    + intros e e' H1 H2 Hl Hg. rewrite Hp in H1. apply (Hu (asks b)); [done| |done|done]. unfold btree_iter in H2. by rewrite sort_by_perm in H2.
    + rewrite Hp. unfold btree_iter. by rewrite sort_by_perm.
  - rewrite <- (reverse_involutive levels). f_equal.
    apply (StronglySorted_unique_strong (λ e e' : dec * dec, dleb e.1 e'.1 = true)); [|by apply sorted_reverse|apply btree_iter_sorted|].
    + intros e e' H1 H2 Hl Hg. rewrite elem_of_reverse, Hp in H1. apply (Hu (bids b)); [done| |done|done].
      unfold btree_iter in H2. by rewrite sort_by_perm in H2.
    + rewrite reverse_Permutation, Hp. unfold btree_iter. by rewrite sort_by_perm.
Qed.

(** C9: on a book whose prices are units of [10^-sp] and quantities units of
    [10^-sq], given with the levels of the swept side, the asks for a purchase
    and the bids for a sale, in the order of the best price first, a sweep fills
    exactly the smaller of the target and the depth, its notional is exactly the
    cost of those units taken from the levels in that order, its average price
    their quotient, [fully_filled] says whether the depth covered the target and
    the impact is never negative. It returns nothing only for a target, a mid
    or a depth that is not positive. *)
Theorem sweep_vwap_exact sp sq side target b zs t
  (Hscale : sq + sp ≤ 28) (Hside : side_levels sp sq side b zs)
  (Ht : on_grid sq target t) (Hts : small t) (Hd : small (depth zs)) (Hv : small (value zs)) :
  match sweep_vwap side target b with
  | Some r =>
      on_grid sq (filled_qty r) (Z.min t (depth zs)) ∧
      on_grid (sq + sp) (notional r) (cost zs t) ∧ vwap r = ddiv (notional r) (filled_qty r) ∧
      fully_filled r = (t <=? depth zs)%Z ∧ dle dec0 (sr_impact_bps r)
  | None =>
      (t ≤ 0)%Z ∨ (depth zs ≤ 0)%Z ∨ ∀ mid, mid_price b = Some mid → dle mid dec0
  end.
Proof.
  pose proof (sweep_side_levels sp sq side b zs Hside) as Hlev.
  pose proof (depth_value_nonneg sp sq _ _ Hlev) as [Hd0 Hv0]. unfold sweep_vwap.
  rewrite (grid_leb sq target dec0 t 0 Ht (grid_zero _)).
  destruct (Z.leb_spec t 0) as [Hz|Hz]; [by left|].
  destruct (mid_price b) as [mid|] eqn:Em; [|by right; right]. cbn [mbind option_bind].
  destruct (dleb mid dec0) eqn:Emid.
  { right. right. intros mid' [= <-]. by apply dleb_le. }
  pose proof (sweep_levels_exact sp sq Hscale _ _ Hlev target dec0 dec0 t 0 0 Ht
    (grid_zero _) (grid_zero _)) as Hs.
  destruct (sweep_levels _ _ _ _) as [[rem fil] spent].
  destruct Hs as (Hr & Hf & Hc); [lia|done|lia|by rewrite Z.add_0_l|lia|by rewrite Z.add_0_l|].
  rewrite Z.add_0_l in Hf, Hc.
  rewrite (grid_leb sq fil dec0 _ 0 Hf (grid_zero _)).
  destruct (Z.leb_spec (Z.min t (depth zs)) 0) as [Hm|Hm]; [right; left; lia|]. simpl.
  split; [done|]. split; [done|]. split; [done|]. split.
  - rewrite (grid_leb sq rem dec0 _ 0 Hr (grid_zero _)). apply eq_true_iff_eq.
    rewrite !Z.leb_le. lia.
  - apply dmax_ge_r.
Qed.
End BookProperties.

(** ** Witnesses *)
Definition lvl (p q : Z) : PriceLevel := mkPriceLevel (dlit p 0) (dlit q 0).

Definition demo_book : LocalOrderBook :=
  apply_snapshot (sec 1) [lvl 99 2; lvl 98 4] [lvl 101 1; lvl 103 5] 7 (new "BTCUSDT").

Lemma best_prices_extremal_witness :
  best_ask demo_book = Some (dlit 101 0) ∧ dle (dlit 101 0) (dlit 103 0).
Proof.
  assert (H : best_ask demo_book = Some (dlit 101 0)) by (vm_compute; reflexivity).
  split; [exact H|]. apply (best_prices_extremal demo_book) in H as [_ H]. apply H.
  apply (bool_decide_eq_true_1 (is_Some (asks demo_book !! dlit 103 0))). vm_compute. reflexivity.
Defined.

Lemma apply_delta_spec_witness :
  bids (apply_delta (sec 2) [lvl 99 0] [] 8 demo_book) !! (dlit 99 0) = None.
Proof.
  pose proof (apply_delta_spec (sec 2) [lvl 99 0] [] 8 demo_book) as H.
  cbn zeta in H. rewrite decide_True in H by (vm_compute; reflexivity).
  destruct H as (_ & H & _). rewrite H. eval_none.
Defined.

Local Ltac demo_level := unfold level_on, on_grid; split_and!; [vm_compute; reflexivity|vm_compute; reflexivity|cbn; lia|cbn; lia].

(** Four units bought, one at 101 and three at 103; three sold, two at 99 and
    one at 98. *)
Lemma sweep_vwap_exact_witness :
  match sweep_vwap Buy (dlit 4 0) demo_book, sweep_vwap Sell (dlit 3 0) demo_book with
  | Some r, Some r' => on_grid 0 (notional r) 410 ∧ fully_filled r = true ∧ on_grid 0 (notional r') 296
  | _, _ => False
  end.
Proof.
  assert (Hbuy : side_levels 0 0 Buy demo_book [(101, 1); (103, 5)]%Z).
  { split; [repeat constructor|]. exists (sweep_side Buy demo_book). split; [apply sort_by_perm|].
    replace (sweep_side Buy demo_book) with [(dlit 101 0, dlit 1 0); (dlit 103 0, dlit 5 0)] by (vm_compute; reflexivity).
    repeat (apply Forall2_cons; split; [demo_level|]). by apply Forall2_nil. }
  assert (Hsell : side_levels 0 0 Sell demo_book [(99, 2); (98, 4)]%Z).
  { split; [repeat constructor|]. exists (sweep_side Sell demo_book). split.
    - cbn [sweep_side]. rewrite reverse_Permutation. apply sort_by_perm.
    - replace (sweep_side Sell demo_book) with [(dlit 99 0, dlit 2 0); (dlit 98 0, dlit 4 0)] by (vm_compute; reflexivity).
      repeat (apply Forall2_cons; split; [demo_level|]). by apply Forall2_nil. }
  pose proof (sweep_vwap_exact 0 0 Buy (dlit 4 0) demo_book _ 4 ltac:(lia) Hbuy) as Hb.
  pose proof (sweep_vwap_exact 0 0 Sell (dlit 3 0) demo_book _ 3 ltac:(lia) Hsell) as Hs.
  destruct (sweep_vwap Buy (dlit 4 0) demo_book) as [r|] eqn:E; [|vm_compute in E; discriminate].
  destruct (sweep_vwap Sell (dlit 3 0) demo_book) as [r'|] eqn:E'; [|vm_compute in E'; discriminate].
  destruct Hb as (_ & Hn & _ & Hf & _); [done..|]. destruct Hs as (_ & Hn' & _); [done..|].
  split; [exact Hn|]. by split.
Defined.
