(* ===== verification/Inventory.v ===== *)
(** * Inventory and profit ([crates/risk/src/inventory.rs])

    The net position with its average entry price, the realized profit, the
    round-trip statistics and the inventory limits on quotes. The theorem is
    the accounting identity: the average-price bookkeeping computes the cash
    flow of the fills plus the position at the mark. *)
From stdpp Require Import base list strings.
From Stdlib Require Import ZArith QArith Qabs Lqa Lia.
From S2P Require Import Prelude Decimal Types.
Local Open Scope nat_scope.

Section Inventory.
Context {D : Decimal} {C : Clock}.

Record InventoryManager := mkInventoryManager {
  inventory : dec;
  avg_entry_price : dec;
  total_bought : dec;
  total_sold : dec;
  realized_pnl : dec;
  trade_opened_at : option instant;
  trade_peak_abs : dec;
}.

Definition inventory_new : InventoryManager := mkInventoryManager dec0 dec0 dec0 dec0 dec0 None dec0.

Definition unrealized_pnl (m : InventoryManager) (mark : dec) : dec :=
  if is_zero (inventory m) || is_zero (avg_entry_price m) then dec0
  else dmul (inventory m) (dsub mark (avg_entry_price m)).

Definition total_pnl (m : InventoryManager) (mark : dec) : dec :=
  dadd (realized_pnl m) (unrealized_pnl m mark).

Definition signed_qty (f : Fill) : dec :=
  match f_side f with Buy => f_qty f | Sell => dneg (f_qty f) end.

(** The realized profit after a fill: [on_fill] up to the inventory update. *)
Definition realize (m : InventoryManager) (f : Fill) : dec :=
  let old := inventory m in
  let s := signed_qty f in
  if (dltb dec0 old && dltb s dec0) || (dltb old dec0 && dltb dec0 s) then
    let reducing := dmin (dabs s) (dabs old) in
    let pnl :=
      if dltb dec0 old then dmul reducing (dsub (f_price f) (avg_entry_price m))
      else dmul reducing (dsub (avg_entry_price m) (f_price f)) in
    dadd (realized_pnl m) pnl
  else realized_pnl m.

(** The average entry price after the inventory became [new]. *)
Definition reprice_entry (m : InventoryManager) (f : Fill) (new : dec) : dec :=
  let old := inventory m in
  let s := signed_qty f in
  let avg :=
    if is_zero new then dec0
    else if deqb (dsignum new) (dsignum s) then
      ddiv (dadd (dmul (dabs old) (avg_entry_price m)) (dmul (dabs s) (f_price f))) (dabs new)
    else avg_entry_price m in
  if negb (deqb (dsignum old) (dsignum new)) && negb (is_zero new) then f_price f else avg.

(** The open time and the peak of the current round trip. *)
Definition trade_stats (m : InventoryManager) (f : Fill) (new : dec) : option instant * dec :=
  if negb (deqb (dsignum (inventory m)) (dsignum new)) then
    if is_zero new then (None, dec0) else (Some (f_timestamp f), dabs new)
  else
    (trade_opened_at m,
     if dltb (trade_peak_abs m) (dabs new) then dabs new else trade_peak_abs m).

Definition inventory_on_fill (f : Fill) (m : InventoryManager) : InventoryManager :=
  let new := dadd (inventory m) (signed_qty f) in
  let '(opened, peak) := trade_stats m f new in
  mkInventoryManager new (reprice_entry m f new)
    (match f_side f with Buy => dadd (total_bought m) (f_qty f) | Sell => total_bought m end)
    (match f_side f with Sell => dadd (total_sold m) (f_qty f) | Buy => total_sold m end)
    (realize m f) opened peak.

Definition trade_holding_seconds (m : InventoryManager) (now : instant) : option Z :=
  (λ opened, Z.max (seconds_between now opened) 0) <$> trade_opened_at m.

Definition trade_drawdown (m : InventoryManager) : dec :=
  match trade_opened_at m with
  | None => dec0
  | Some _ => dmax (dsub (trade_peak_abs m) (dabs (inventory m))) dec0
  end.

Definition inventory_scale (m : InventoryManager) (side : Side) (config : RiskConfig) : dec :=
  let max := max_inventory config in
  let inv := inventory m in
  if is_zero max then dec1
  else
    match side with
    | Buy =>
        if dleb max inv then dec0
        else if dltb dec0 inv then dsub dec1 (ddiv inv max) else dec1
    | Sell =>
        if dleb inv (dneg max) then dec0
        else if dltb inv dec0 then dsub dec1 (ddiv (dabs inv) max) else dec1
    end.

Definition force_reset_inventory_to (new : dec) (m : InventoryManager) : InventoryManager :=
  mkInventoryManager new (avg_entry_price m) (total_bought m) (total_sold m) (realized_pnl m)
    (trade_opened_at m) (trade_peak_abs m).

Definition apply_limits (m : InventoryManager) (config : RiskConfig) (quotes : list QuotePair) :
    list QuotePair :=
  let buy_zero := is_zero (inventory_scale m Buy config) in
  let sell_zero := is_zero (inventory_scale m Sell config) in
  (λ q, mkQuotePair (if buy_zero then None else bid q) (if sell_zero then None else ask q)) <$> quotes.

Definition on_fills (fs : list Fill) (m : InventoryManager) : InventoryManager :=
  fold_left (λ m f, inventory_on_fill f m) fs m.
End Inventory.

(** ** The accounting identity *)
Section Identity.
Context {D : Decimal} {C : Clock} {E : DecimalExact D}.

Definition signed (f : Fill) : Q :=
  match f_side f with Buy => dval (f_qty f) | Sell => - dval (f_qty f) end.

(** Quote paid and received over the fills, and base received. *)
Definition cash_flow (fs : list Fill) : Q :=
  foldr (λ f c, (c - signed f * dval (f_price f))%Q) 0%Q fs.
Definition base_flow (fs : list Fill) : Q := foldr (λ f b, (b + signed f)%Q) 0%Q fs.

Definition fair_fill (f : Fill) : Prop := (0 <= dval (f_qty f))%Q ∧ (0 < dval (f_price f))%Q.

(** The book after fills worth [base] and [cash]. *)
Definition accounts (base cash : Q) (m : InventoryManager) : Prop :=
  (dval (inventory m) == base)%Q ∧
  (dval (realized_pnl m) == cash + base * dval (avg_entry_price m))%Q ∧
  (¬ base == 0 → 0 < dval (avg_entry_price m))%Q.

Lemma signed_qty_val f : (dval (signed_qty f) == signed f)%Q.
Proof. unfold signed_qty, signed. destruct (f_side f); [done|by rewrite dneg_val]. Qed.

Lemma dabs_nonneg a : (0 <= dval a)%Q → (dval (dabs a) == dval a)%Q.
Proof. intros. by rewrite dabs_val, Qabs_pos. Qed.
Lemma dabs_nonpos a : (dval a <= 0)%Q → (dval (dabs a) == - dval a)%Q.
Proof. intros. by rewrite dabs_val, Qabs_neg. Qed.

Lemma dltb_0_l a : dltb dec0 a = true ↔ (0 < dval a)%Q.
Proof. rewrite dltb_lt. unfold dlt. by rewrite dec0_val. Qed.
Lemma dltb_0_r a : dltb a dec0 = true ↔ (dval a < 0)%Q.
Proof. rewrite dltb_lt. unfold dlt. by rewrite dec0_val. Qed.

(** A fill against a position realizes the smaller of the two. *)
Lemma realize_long m f : (0 < dval (inventory m))%Q → (signed f < 0)%Q →
  ∃ x, (dval (realize m f) == dval (realized_pnl m) + x * (dval (f_price f) - dval (avg_entry_price m)))%Q ∧
    (x == - signed f ∧ - signed f <= dval (inventory m) ∨
     x == dval (inventory m) ∧ dval (inventory m) <= - signed f)%Q.
Proof.
  intros Hb Hs. unfold realize. pose proof (signed_qty_val f) as Hq.
  assert (Hs' : (dval (signed_qty f) < 0)%Q) by lra.
  rewrite (proj2 (dltb_0_l _) Hb), (proj2 (dltb_0_r _) Hs'). cbn [andb orb].
  exists (dval (dmin (dabs (signed_qty f)) (dabs (inventory m)))).
  split; [by rewrite dadd_exact, dmul_exact, dsub_exact|].
  pose proof (dabs_nonpos (signed_qty f) ltac:(lra)).
  pose proof (dabs_nonneg (inventory m) ltac:(lra)).
  unfold dmin. destruct (dleb _ _) eqn:El; [left|right]; dec_order.
Qed.

Lemma realize_short m f : (dval (inventory m) < 0)%Q → (0 < signed f)%Q →
  ∃ x, (dval (realize m f) == dval (realized_pnl m) + x * (dval (avg_entry_price m) - dval (f_price f)))%Q ∧
    (x == signed f ∧ signed f <= - dval (inventory m) ∨
     x == - dval (inventory m) ∧ - dval (inventory m) <= signed f)%Q.
Proof.
  intros Hb Hs. unfold realize. pose proof (signed_qty_val f) as Hq.
  assert (Hs' : (0 < dval (signed_qty f))%Q) by lra.
  rewrite (proj2 (dltb_0_r _) Hb), (proj2 (dltb_0_l _) Hs').
  destruct (dltb dec0 (inventory m)) eqn:El0; [apply dltb_0_l in El0; lra|]. cbn [andb orb].
  exists (dval (dmin (dabs (signed_qty f)) (dabs (inventory m)))).
  split; [by rewrite dadd_exact, dmul_exact, dsub_exact|].
  pose proof (dabs_nonneg (signed_qty f) ltac:(lra)).
  pose proof (dabs_nonpos (inventory m) ltac:(lra)).
  unfold dmin. destruct (dleb _ _) eqn:El; [left|right]; dec_order.
Qed.

Lemma realize_adding m f : (0 <= dval (inventory m) * signed f)%Q → realize m f = realized_pnl m.
Proof.
  intros H. unfold realize. pose proof (signed_qty_val f) as Hq.
  destruct (_ || _) eqn:Eo; [|done]. exfalso.
  apply orb_true_iff in Eo as [[H1 H2]%andb_true_iff|[H1 H2]%andb_true_iff];
    rewrite ?dltb_0_l, ?dltb_0_r in *; nra.
Qed.

(** The entry price after a fill, by what the fill did to the position. *)
Lemma reprice_flat m f new : (dval new == 0)%Q → (dval (reprice_entry m f new) == 0)%Q.
Proof.
  intros H%is_zero_val. unfold reprice_entry. rewrite H, andb_false_r. apply dec0_val.
Qed.

Lemma reprice_flip m f new : ¬ (dval new == 0)%Q → ¬ same_sign (dval (inventory m)) (dval new) →
  reprice_entry m f new = f_price f.
Proof.
  intros Hn%is_zero_false Hs. unfold reprice_entry. rewrite Hn.
  destruct (deqb (dsignum (inventory m)) (dsignum new)) eqn:Ed; [|done].
  by apply dsignum_eqb in Ed.
Qed.

Lemma reprice_reduce m f new : ¬ (dval new == 0)%Q → same_sign (dval (inventory m)) (dval new) →
  ¬ same_sign (dval new) (signed f) → reprice_entry m f new = avg_entry_price m.
Proof.
  intros Hn%is_zero_false Hs Hf. unfold reprice_entry. rewrite Hn.
  rewrite (proj2 (dsignum_eqb _ _) Hs). cbn [negb andb].
  destruct (deqb (dsignum new) (dsignum (signed_qty f))) eqn:Ed; [|done].
  apply dsignum_eqb in Ed. exfalso. apply Hf. unfold same_sign in *.
  by rewrite (signed_qty_val f) in Ed.
Qed.

Lemma reprice_add m f new : ¬ (dval new == 0)%Q → (dval new == dval (inventory m) + signed f)%Q →
  same_sign (dval (inventory m)) (dval new) → same_sign (dval new) (signed f) →
  (dval (reprice_entry m f new) * dval new ==
    dval (inventory m) * dval (avg_entry_price m) + signed f * dval (f_price f))%Q.
Proof.
  intros Hn0 Hnew Hs Hf. pose proof (signed_qty_val f) as Hq.
  pose proof (proj2 (is_zero_false _) Hn0) as Hn. unfold reprice_entry. rewrite Hn.
  rewrite (proj2 (dsignum_eqb _ _) Hs). cbn [negb andb].
  rewrite (proj2 (dsignum_eqb new (signed_qty f))).
  2:{ unfold same_sign in *. by rewrite Hq. }
  destruct Hs as [[]|[[]|[]]], Hf as [[]|[[]|[]]]; try lra.
  - rewrite ddiv_exact by (rewrite dabs_nonpos; lra).
    rewrite dadd_exact, !dmul_exact, !dabs_nonpos by lra. rewrite Hq. field. lra.
  - rewrite ddiv_exact by (rewrite dabs_nonneg; lra).
    rewrite dadd_exact, !dmul_exact, !dabs_nonneg by lra. rewrite Hq. field. lra.
Qed.

Definition new_inventory (m : InventoryManager) (f : Fill) : dec := dadd (inventory m) (signed_qty f).

Lemma on_fill_fields f m :
  inventory (inventory_on_fill f m) = new_inventory m f ∧
  avg_entry_price (inventory_on_fill f m) = reprice_entry m f (new_inventory m f) ∧
  realized_pnl (inventory_on_fill f m) = realize m f ∧
  (trade_opened_at (inventory_on_fill f m), trade_peak_abs (inventory_on_fill f m)) =
    trade_stats m f (new_inventory m f).
Proof.
  unfold inventory_on_fill. fold (new_inventory m f). by destruct (trade_stats m f _).
Qed.

(** Reducing, closing or flipping a position. *)
Lemma accounts_against base cash m f : accounts base cash m → fair_fill f →
  (base * signed f < 0)%Q →
  accounts (base + signed f) (cash - signed f * dval (f_price f)) (inventory_on_fill f m).
Proof.
  intros (Hb & Hr & Ha) [Hqty Hp] Hs.
  destruct (on_fill_fields f m) as (E1 & E2 & E3 & _). unfold accounts. rewrite E1, E2, E3.
  assert (Hnew : (dval (new_inventory m f) == base + signed f)%Q)
    by (unfold new_inventory; by rewrite dadd_exact, signed_qty_val, Hb).
  set (new := new_inventory m f) in *. split; [done|].
  destruct (Qlt_le_dec 0 base) as [Hpos|Hneg].
  - assert (Hsn : (signed f < 0)%Q) by nra.
    destruct (realize_long m f) as (x & Hx & Hmin); [lra|lra|]. rewrite Hx, Hr.
    destruct (Q_dec (base + signed f) 0) as [[Hl|Hg]|Hz].
    + rewrite reprice_flip by (unfold same_sign; lra). split; [nra|lra].
    + rewrite reprice_reduce by (unfold same_sign; lra). split; [nra|]. intros _. apply Ha. lra.
    + rewrite (reprice_flat m f new) by lra. split; [nra|lra].
  - assert (Hsn : (0 < signed f)%Q) by nra.
    destruct (realize_short m f) as (x & Hx & Hmin); [nra|lra|]. rewrite Hx, Hr.
    destruct (Q_dec (base + signed f) 0) as [[Hl|Hg]|Hz].
    + rewrite reprice_reduce by (unfold same_sign; lra). split; [nra|]. intros _. apply Ha. lra.
    + rewrite reprice_flip by (unfold same_sign; nra). split; [nra|lra].
    + rewrite (reprice_flat m f new) by lra. split; [nra|lra].
Qed.

(** Opening or adding to a position, or a fill of nothing. *)
Lemma accounts_with base cash m f : accounts base cash m → fair_fill f →
  (0 <= base * signed f)%Q →
  accounts (base + signed f) (cash - signed f * dval (f_price f)) (inventory_on_fill f m).
Proof.
  intros (Hb & Hr & Ha) [Hqty Hp] Hs.
  destruct (on_fill_fields f m) as (E1 & E2 & E3 & _). unfold accounts. rewrite E1, E2, E3.
  assert (Hnew : (dval (new_inventory m f) == base + signed f)%Q)
    by (unfold new_inventory; by rewrite dadd_exact, signed_qty_val, Hb).
  set (new := new_inventory m f) in *. split; [done|].
  rewrite realize_adding by (rewrite Hb; lra). rewrite Hr.
  destruct (Q_dec base 0) as [[Hbn|Hbp]|Hb0], (Q_dec (signed f) 0) as [[Hsn|Hsp]|Hs0];
    [|exfalso; nra| |exfalso; nra| | | | |].
  - pose proof (reprice_add m f new ltac:(lra) ltac:(lra)) as H. unfold same_sign in H.
    specialize (H ltac:(lra) ltac:(lra)). specialize (Ha ltac:(lra)).
    rewrite Hnew, Hb in H. split; [lra|]. intros _. nra.
  - rewrite reprice_reduce by (unfold same_sign; lra). specialize (Ha ltac:(lra)). split; [nra|lra].
  - pose proof (reprice_add m f new ltac:(lra) ltac:(lra)) as H. unfold same_sign in H.
    specialize (H ltac:(lra) ltac:(lra)). specialize (Ha ltac:(lra)).
    rewrite Hnew, Hb in H. split; [lra|]. intros _. nra.
  - rewrite reprice_reduce by (unfold same_sign; lra). specialize (Ha ltac:(lra)). split; [nra|lra].
  - rewrite reprice_flip by (unfold same_sign; lra). split; [nra|lra].
  - rewrite reprice_flip by (unfold same_sign; lra). split; [nra|lra].
  - rewrite (reprice_flat m f new) by lra. split; [nra|lra].
Qed.

Lemma accounts_fill base cash m f : accounts base cash m → fair_fill f →
  accounts (base + signed f) (cash - signed f * dval (f_price f)) (inventory_on_fill f m).
Proof.
  intros Ha Hf. destruct (Qlt_le_dec (base * signed f) 0);
    [by apply accounts_against|by apply accounts_with].
Qed.

Lemma accounts_new : accounts 0 0 inventory_new.
Proof. unfold accounts. simpl. rewrite dec0_val. split; [done|]. split; lra. Qed.

Lemma accounts_proper base base' cash cash' m :
  (base == base')%Q → (cash == cash')%Q → accounts base cash m → accounts base' cash' m.
Proof. unfold accounts. intros <- <-. done. Qed.

Lemma accounts_fills fs base cash m : accounts base cash m → Forall fair_fill fs →
  accounts (base + base_flow fs) (cash + cash_flow fs) (on_fills fs m).
Proof.
  revert base cash m. induction fs as [|f fs IH]; intros base cash m Hm Hfs.
  - eapply accounts_proper; [..|exact Hm]; simpl; lra.
  - apply Forall_cons in Hfs as [Hf Hfs]. cbn [on_fills fold_left].
    eapply accounts_proper; [..|apply IH; [by apply accounts_fill|done]]; simpl; lra.
Qed.

Lemma accounts_total base cash m mark : accounts base cash m →
  (dval (total_pnl m mark) == cash + base * dval mark)%Q.
Proof.
  intros (Hb & Hr & Ha). unfold total_pnl, unrealized_pnl. rewrite dadd_exact, Hr.
  destruct (is_zero (inventory m)) eqn:E1; cbn [orb].
  - apply is_zero_val in E1. rewrite Hb in E1. rewrite dec0_val, E1. lra.
  - apply is_zero_false in E1. rewrite Hb in E1. specialize (Ha ltac:(lra)).
    destruct (is_zero (avg_entry_price m)) eqn:E2; [apply is_zero_val in E2; lra|].
    rewrite dmul_exact, dsub_exact, Hb. lra.
Qed.

(** In exact arithmetic the inventory after any fills with positive prices
    is the base bought minus the base sold, and the total profit at any mark
    is the cash the fills brought in plus the inventory at the mark: the
    realized part, the average entry price and its special cases (reductions,
    closes, flips through zero) lose and invent nothing. *)
Theorem total_pnl_is_cash_flow fs mark (Hfs : Forall fair_fill fs) :
  let m := on_fills fs inventory_new in
  (dval (inventory m) == base_flow fs)%Q ∧
  (dval (total_pnl m mark) == cash_flow fs + base_flow fs * dval mark)%Q.
Proof.
  intros m. pose proof (accounts_fills fs 0 0 inventory_new accounts_new Hfs) as H.
  fold m in H. split; [destruct H as (Hb & _); by rewrite Qplus_0_l in Hb|].
  rewrite (accounts_total _ _ _ mark H). ring.
Qed.
End Identity.

(** ** Round trips and limits *)
Section Limits.
Context {D : Decimal} {C : Clock} {L : DecimalLaws D}.

(** A trade is open exactly while the position is not flat, and its peak
    bounds the position. *)
Definition trade_ok (m : InventoryManager) : Prop :=
  (trade_opened_at m = None ↔ is_zero (inventory m) = true) ∧
  dle (dabs (inventory m)) (trade_peak_abs m).

Lemma trade_ok_fill f m : trade_ok m → trade_ok (inventory_on_fill f m).
Proof.
  intros [Ho Hpk]. destruct (on_fill_fields f m) as (E1 & _ & _ & E4).
  unfold trade_ok. rewrite E1. set (new := new_inventory m f) in *.
  unfold trade_stats in E4. destruct (deqb _ _) eqn:Ed; cbn [negb] in E4.
  - apply dsignum_eqb in Ed. injection E4 as -> ->. split.
    + rewrite Ho, !is_zero_val. unfold same_sign in Ed. lra.
    + destruct (dltb (trade_peak_abs m) (dabs new)) eqn:El; [apply dle_refl|]. by apply dltb_ge.
  - destruct (is_zero new) eqn:Ez; injection E4 as -> ->; (split; [done|]).
    + apply is_zero_val in Ez. unfold dle. rewrite dabs_val, Ez, dec0_val. done.
    + apply dle_refl.
Qed.

Lemma trade_ok_fills fs : trade_ok (on_fills fs inventory_new).
Proof.
  assert (H : trade_ok inventory_new).
  { split; simpl; [|unfold dle; rewrite dabs_val, dec0_val; done].
    split; [|done]. intros _. apply is_zero_val, dec0_val. }
  unfold on_fills. revert H. generalize inventory_new. induction fs as [|f fs IH]; intros m H; [done|].
  by apply IH, trade_ok_fill.
Qed.

(** At the maximum long position the quotes keep no bid, at the maximum short
    one no ask. *)
Lemma apply_limits_stops m config quotes q :
  ¬ (dval (max_inventory config) == 0)%Q → q ∈ apply_limits m config quotes →
  (dle (max_inventory config) (inventory m) → bid q = None) ∧
  (dle (inventory m) (dneg (max_inventory config)) → ask q = None).
Proof.
  intros Hm%is_zero_false Hq. apply list_elem_of_fmap in Hq as (q0 & -> & _). simpl.
  unfold inventory_scale. rewrite Hm.
  assert (Hz : is_zero dec0 = true) by (apply is_zero_val, dec0_val).
  by split; intros H%dleb_le; rewrite H, Hz.
Qed.
End Limits.

(** ** Witnesses *)
Definition demo_fill (side : Side) (price qty : Z) : Fill :=
  mkFill 1 1 "BTCUSDT" side (dlit price 0) (dlit qty 0) true (sec 0).

(** Long 3, flipped to short 2, then reduced. *)
Definition demo_fills : list Fill :=
  [demo_fill Buy 100 1; demo_fill Buy 103 2; demo_fill Sell 110 5; demo_fill Buy 90 1].

Lemma total_pnl_is_cash_flow_witness :
  (dval (inventory (on_fills demo_fills inventory_new)) == - 1)%Q ∧
  (dval (total_pnl (on_fills demo_fills inventory_new) (dlit 95 0)) == 59)%Q.
Proof.
  destruct (total_pnl_is_cash_flow demo_fills (dlit 95 0)) as [H1 H2].
  - repeat constructor; vm_compute; congruence.
  - rewrite H1, H2. split; vm_compute; reflexivity.
Defined.
