(* ===== verification/Risk.v ===== *)
(** * Risk limits ([crates/risk/src/{circuit_breaker,exposure,volume_limit}.rs]) and
    the risk gate of the engine ([crates/engine/src/market_maker.rs], [refresh_quotes])

    The circuit breaker with its self-healing checks, the drawdown and exposure
    limits, the volume caps over sliding windows, and the part of
    [refresh_quotes] that runs them in order before quoting. The clock is an
    argument, read once per call; the volume tracker's timestamps are
    nanoseconds, of which it only compares and subtracts. *)
From stdpp Require Import base list sets strings sorting.
From Stdlib Require Import ZArith QArith Lqa Lia.
From S2P Require Import Prelude Decimal Types OrderBook Inventory.
Local Open Scope nat_scope.

Inductive TripReason := MaxDrawdown | MaxExposure | StaleBook | WideSpread | Manual.

#[export] Instance TripReason_eq_dec : EqDecision TripReason.
Proof. solve_decision. Defined.

Section Breaker.
Context {D : Decimal} {C : Clock}.

Record CircuitBreaker := mkCircuitBreaker {
  tripped : bool;
  reason : option TripReason;
  tripped_at : option instant;
}.

Definition breaker_new : CircuitBreaker := mkCircuitBreaker false None None.

(** The first trip wins. *)
Definition trip (now : instant) (r : TripReason) (cb : CircuitBreaker) : CircuitBreaker :=
  if tripped cb then cb else mkCircuitBreaker true (Some r) (Some now).

Definition breaker_reset (cb : CircuitBreaker) : CircuitBreaker :=
  if tripped cb then mkCircuitBreaker false None None else cb.

Definition has_reason (r : TripReason) (cb : CircuitBreaker) : bool := bool_decide (reason cb = Some r).

(** The [u64] timeout is cast to [i64]; the arithmetic wraps. *)
Definition is_stale (now : instant) (last_update : Z) (config : RiskConfig) : bool :=
  let threshold := wrap_i64 (wrap_i64 (stale_book_timeout_secs config) * 1000) in
  (0 <? last_update)%Z && (threshold <? wrap_i64 (millis_of now - last_update))%Z.

Definition check_stale_book (now : instant) (last_update : Z) (config : RiskConfig)
    (cb : CircuitBreaker) : CircuitBreaker :=
  if is_stale now last_update config then trip now StaleBook cb
  else if has_reason StaleBook cb then breaker_reset cb else cb.

Definition check_spread (now : instant) (bps : option dec) (config : RiskConfig)
    (cb : CircuitBreaker) : CircuitBreaker :=
  match bps with
  | Some bps =>
      if dltb (max_spread_bps config) bps then trip now WideSpread cb
      else if has_reason WideSpread cb then breaker_reset cb else cb
  | None => cb
  end.

Definition check_condition (now : instant) (r : TripReason) (currently_breached : bool)
    (cb : CircuitBreaker) : CircuitBreaker :=
  if currently_breached then trip now r cb
  else if has_reason r cb then breaker_reset cb else cb.

(** ** Exposure and drawdown *)
Record ExposureManager := mkExposureManager { peak_equity : dec; initial_equity : dec }.

Definition exposure_new (equity : dec) : ExposureManager := mkExposureManager equity equity.

Definition update_equity (equity : dec) (em : ExposureManager) : ExposureManager :=
  if dltb (peak_equity em) equity then mkExposureManager equity (initial_equity em) else em.

Definition drawdown (em : ExposureManager) (equity : dec) : dec := dsub (peak_equity em) equity.

Definition is_drawdown_breached (em : ExposureManager) (equity : dec) (config : RiskConfig) : bool :=
  dltb (max_drawdown_quote config) (drawdown em equity).

Definition is_exposure_breached (inv mark : dec) (config : RiskConfig) : bool :=
  dltb (max_exposure_quote config) (dmul (dabs inv) mark).

(** ** The risk gate of [refresh_quotes] *)
Record Gate := mkGate { cb : CircuitBreaker; em : ExposureManager }.

Inductive GateResult := SkipQuoting | CancelAllOrders | Proceed.

Definition exceeds_gate (bps : option dec) (config : RiskConfig) : bool :=
  match max_spread_to_quote_bps config, bps with
  | Some gate, Some current => dltb gate current
  | _, _ => false
  end.

(** The drawdown and exposure checks, skipped without a mid price. *)
Definition check_exposure (now : instant) (config : RiskConfig) (b : LocalOrderBook)
    (m : InventoryManager) (g : Gate) : Gate :=
  match mid_price b with
  | None => g
  | Some mid =>
      let equity := total_pnl m mid in
      let em := update_equity equity (em g) in
      let cb := check_condition now MaxDrawdown (is_drawdown_breached em equity config) (cb g) in
      let cb := check_condition now MaxExposure (is_exposure_breached (inventory m) mid config) cb in
      mkGate cb em
  end.

Definition risk_gate (now : instant) (config : RiskConfig) (b : LocalOrderBook)
    (m : InventoryManager) (g : Gate) : GateResult * Gate :=
  let cb1 := check_stale_book now (last_update_ms b) config (cb g) in
  let cb2 := check_spread now (spread_bps b) config cb1 in
  let g := mkGate cb2 (em g) in
  if exceeds_gate (spread_bps b) config then (SkipQuoting, g)
  else
    let g := check_exposure now config b m g in
    (if tripped (cb g) then CancelAllOrders else Proceed, g).

(** Connectivity events: a disconnect trips, a reconnect resets whatever the
    reason. *)
Definition on_connected (g : Gate) : Gate := mkGate (breaker_reset (cb g)) (em g).
Definition on_disconnected (now : instant) (g : Gate) : Gate :=
  mkGate (trip now StaleBook (cb g)) (em g).
End Breaker.

(** ** Volume caps *)
Section Volume.
Context {D : Decimal}.

Definition HOUR : Z := 3600 * 10 ^ 9.
Definition DAY : Z := 24 * HOUR.

Record VolumeLimitTracker := mkVolumeLimitTracker {
  max_daily_quote : dec;
  max_hourly_quote : dec;
  trades : list (Z * dec);
  daily_total : dec;
  hourly_total : dec;
}.

Definition volume_new (max_daily max_hourly : dec) : VolumeLimitTracker :=
  mkVolumeLimitTracker max_daily max_hourly [] dec0 dec0.

(** The [while let] over the front of the queue. *)
Fixpoint drop_old (day_ago : Z) (ts : list (Z * dec)) (daily : dec) : list (Z * dec) * dec :=
  match ts with
  | (t, v) :: ts' => if (t <? day_ago)%Z then drop_old day_ago ts' (dsub daily v) else (ts, daily)
  | [] => ([], daily)
  end.

Definition volume_prune (now : Z) (s : VolumeLimitTracker) : VolumeLimitTracker :=
  let '(ts, daily) := drop_old (now - DAY) (trades s) (daily_total s) in
  let recent := List.filter (λ e, (now - HOUR <=? e.1)%Z) ts in
  mkVolumeLimitTracker (max_daily_quote s) (max_hourly_quote s) ts daily (dsum recent.*2).

Definition on_trade (now : Z) (volume : dec) (s : VolumeLimitTracker) : VolumeLimitTracker :=
  volume_prune now (mkVolumeLimitTracker (max_daily_quote s) (max_hourly_quote s)
    (trades s ++ [(now, volume)]) (dadd (daily_total s) volume) (dadd (hourly_total s) volume)).

Definition can_trade (volume : dec) (s : VolumeLimitTracker) : bool :=
  if negb (is_zero (max_daily_quote s)) && dltb (max_daily_quote s) (dadd (daily_total s) volume)
  then false
  else if negb (is_zero (max_hourly_quote s))
          && dltb (max_hourly_quote s) (dadd (hourly_total s) volume)
  then false
  else true.

Definition on_trades (ts : list (Z * dec)) (s : VolumeLimitTracker) : VolumeLimitTracker :=
  fold_left (λ s e, on_trade e.1 e.2 s) ts s.
End Volume.

(** ** The breaker and the gate *)
Section GateFacts.
Context {D : Decimal} {C : Clock}.

(** Tripped, with a reason and a time, or none of the three. *)
Definition breaker_ok (cb : CircuitBreaker) : Prop :=
  if tripped cb then is_Some (reason cb) ∧ is_Some (tripped_at cb)
  else reason cb = None ∧ tripped_at cb = None.

Lemma ok_trip now r cb : breaker_ok cb → breaker_ok (trip now r cb).
Proof. unfold trip. destruct (tripped cb) eqn:E; [done|]. intros _. split; by eexists. Qed.
Lemma ok_reset cb : breaker_ok cb → breaker_ok (breaker_reset cb).
Proof. unfold breaker_reset. by destruct (tripped cb). Qed.
Lemma ok_condition now r b cb : breaker_ok cb → breaker_ok (check_condition now r b cb).
Proof.
  unfold check_condition. destruct b; [apply ok_trip|]. destruct (has_reason r cb); [apply ok_reset|done].
Qed.

(** The stale-book and spread checks are instances of [check_condition]. *)
Lemma check_stale_condition now last config cb :
  check_stale_book now last config cb = check_condition now StaleBook (is_stale now last config) cb.
Proof. done. Qed.

Definition too_wide (bps : option dec) (config : RiskConfig) : bool :=
  match bps with Some bps => dltb (max_spread_bps config) bps | None => false end.

Lemma check_spread_condition now bps config cb :
  bps = None ∨ check_spread now bps config cb = check_condition now WideSpread (too_wide bps config) cb.
Proof. destruct bps; [by right|by left]. Qed.

Lemma ok_gate now config b m g : breaker_ok (cb g) → breaker_ok (cb (risk_gate now config b m g).2).
Proof.
  intros H. unfold risk_gate. rewrite check_stale_condition.
  assert (H2 : breaker_ok (check_spread now (spread_bps b) config
    (check_condition now StaleBook (is_stale now (last_update_ms b) config) (cb g)))).
  { destruct (check_spread_condition now (spread_bps b) config
      (check_condition now StaleBook (is_stale now (last_update_ms b) config) (cb g))) as [E|E];
      rewrite E; by repeat apply ok_condition. }
  destruct (exceeds_gate _ _); [done|]. cbn [snd]. unfold check_exposure.
  destruct (mid_price b); [|done]. by repeat apply ok_condition.
Qed.

(** What a check does to a breaker, by the reason it holds. *)
Lemma condition_none now r b cb : breaker_ok cb → reason cb = None →
  check_condition now r b cb = if b then mkCircuitBreaker true (Some r) (Some now) else cb.
Proof.
  unfold breaker_ok, check_condition, trip, has_reason. destruct cb as [[] re at_]; simpl.
  - intros [[? ->] _]. done.
  - intros _ ->. by destruct b.
Qed.

Lemma condition_same now r b cb : breaker_ok cb → reason cb = Some r →
  check_condition now r b cb = if b then cb else mkCircuitBreaker false None None.
Proof.
  unfold breaker_ok, check_condition, trip, has_reason, breaker_reset.
  destruct cb as [[] re at_]; simpl; [|by intros [-> _]].
  intros _ ->. destruct b; [done|]. by rewrite bool_decide_eq_true_2.
Qed.

Lemma condition_other now r r' b cb : breaker_ok cb → reason cb = Some r' → r' ≠ r →
  check_condition now r b cb = cb.
Proof.
  unfold breaker_ok, check_condition, trip, has_reason.
  destruct cb as [[] re at_]; simpl; [|by intros [-> _]].
  intros _ -> Hne. destruct b; [done|]. rewrite bool_decide_eq_false_2; [done|]. congruence.
Qed.

Lemma condition_clear now r cb : reason cb ≠ Some r → check_condition now r false cb = cb.
Proof. intros H. unfold check_condition, has_reason. by rewrite bool_decide_eq_false_2. Qed.

Lemma ok_tripped cb : breaker_ok cb → tripped cb = bool_decide (is_Some (reason cb)).
Proof.
  unfold breaker_ok. destruct (tripped cb).
  - intros [? _]. by rewrite bool_decide_eq_true_2.
  - intros [-> _]. symmetry. apply bool_decide_eq_false. by intros [? ?].
Qed.

(** A pass of checks, one per reason, over a breaker. *)
Definition check_all (now : instant) (l : list (TripReason * bool)) (cb : CircuitBreaker) :
    CircuitBreaker :=
  fold_left (λ cb x, check_condition now x.1 x.2 cb) l cb.

Lemma check_all_cons now r b l cb :
  check_all now ((r, b) :: l) cb = check_all now l (check_condition now r b cb).
Proof. done. Qed.

Lemma check_all_held now l cb r : breaker_ok cb → reason cb = Some r → r ∉ l.*1 →
  check_all now l cb = cb.
Proof.
  intros Hok Hr. induction l as [|[r' b] l IH]; intros Hl; [done|].
  rewrite check_all_cons. rewrite (condition_other now r' r b cb Hok Hr).
  - apply IH. intros H. apply Hl. by right.
  - intros ->. apply Hl. by left.
Qed.

(** From an untripped breaker a pass trips exactly when a check is breached. *)
Lemma check_all_clear now l cb : breaker_ok cb → reason cb = None → NoDup l.*1 →
  tripped (check_all now l cb) = existsb snd l.
Proof.
  intros Hok Hr. induction l as [|[r b] l IH]; intros Hnd.
  - simpl. rewrite (ok_tripped cb Hok), Hr. by apply bool_decide_eq_false_2; intros [? ?].
  - apply NoDup_cons in Hnd as [Hin Hnd]. rewrite check_all_cons. cbn [existsb snd]. rewrite condition_none by done. destruct b; cbn [orb].
    + rewrite (check_all_held now l _ r); [done| |done|done]. split; by eexists.
    + by apply IH.
Qed.

Lemma check_spread_other now bps config cb : breaker_ok cb → reason cb ≠ Some WideSpread →
  check_spread now bps config cb = check_condition now WideSpread (too_wide bps config) cb.
Proof.
  intros Hok Hr. destruct bps as [bps|]; [done|]. symmetry. by apply condition_clear.
Qed.

(** The limits the gate enforces, read off the inputs of the tick. *)
Definition drawdown_broken (config : RiskConfig) (b : LocalOrderBook) (m : InventoryManager)
    (em : ExposureManager) : bool :=
  match mid_price b with
  | Some mid => is_drawdown_breached (update_equity (total_pnl m mid) em) (total_pnl m mid) config
  | None => false
  end.
Definition exposure_broken (config : RiskConfig) (b : LocalOrderBook) (m : InventoryManager) : bool :=
  match mid_price b with
  | Some mid => is_exposure_breached (inventory m) mid config
  | None => false
  end.

Definition gate_checks (now : instant) (config : RiskConfig) (b : LocalOrderBook)
    (m : InventoryManager) (em : ExposureManager) : list (TripReason * bool) :=
  [(WideSpread, too_wide (spread_bps b) config); (MaxDrawdown, drawdown_broken config b m em);
   (MaxExposure, exposure_broken config b m)].

Lemma check_exposure_all now config b m g : breaker_ok (cb g) →
  reason (cb g) ≠ Some MaxDrawdown → reason (cb g) ≠ Some MaxExposure →
  cb (check_exposure now config b m g) =
    check_all now [(MaxDrawdown, drawdown_broken config b m (em g));
      (MaxExposure, exposure_broken config b m)] (cb g).
Proof.
  intros Hok H1 H2. unfold check_exposure, drawdown_broken, exposure_broken.
  destruct (mid_price b) as [mid|]; [done|].
  rewrite !check_all_cons. rewrite (condition_clear now MaxDrawdown) by done.
  by rewrite condition_clear.
Qed.

Lemma gate_reasons now config b m em r : r = StaleBook ∨ r = Manual →
  r ∉ (gate_checks now config b m em).*1.
Proof.
  intros Hr. change ((gate_checks now config b m em).*1) with [WideSpread; MaxDrawdown; MaxExposure].
  destruct Hr as [-> | ->]; set_solver.
Qed.

Lemma gate_reasons_NoDup now config b m em : NoDup (gate_checks now config b m em).*1.
Proof.
  change ((gate_checks now config b m em).*1) with [WideSpread; MaxDrawdown; MaxExposure].
  repeat constructor; set_solver.
Qed.

(** The gate after its stale-book check. *)
Lemma gate_after_stale now config b m g cb1 :
  cb1 = check_stale_book now (last_update_ms b) config (cb g) → breaker_ok cb1 →
  reason cb1 ≠ Some WideSpread → reason cb1 ≠ Some MaxDrawdown → reason cb1 ≠ Some MaxExposure →
  exceeds_gate (spread_bps b) config = false →
  (risk_gate now config b m g).1 =
    if tripped (check_all now (gate_checks now config b m (em g)) cb1) then CancelAllOrders
    else Proceed.
Proof.
  intros -> Hok H1 H2 H3 Hg. unfold risk_gate. rewrite Hg. cbn [fst].
  rewrite check_spread_other by done. set (cb1 := check_stale_book _ _ _ _) in *.
  unfold gate_checks. cbn [check_all fold_left fst snd].
  set (cb2 := check_condition now WideSpread _ cb1).
  assert (Hok2 : breaker_ok cb2) by by apply ok_condition.
  assert (Hr2 : reason cb2 = reason cb1 ∨ reason cb2 = Some WideSpread).
  { unfold cb2, check_condition, trip, has_reason. rewrite bool_decide_eq_false_2 by done.
    destruct (too_wide _ _), (tripped cb1); auto. }
  rewrite check_exposure_all; [done|done|..]; cbn [cb]; destruct Hr2 as [-> | ->]; done.
Qed.

(** Everything the gate checks is within its limit. *)
Definition within_limits (now : instant) (config : RiskConfig) (b : LocalOrderBook)
    (m : InventoryManager) (em : ExposureManager) : Prop :=
  is_stale now (last_update_ms b) config = false ∧
  (∀ bps, spread_bps b = Some bps → dle bps (max_spread_bps config) ∧
    ∀ gate, max_spread_to_quote_bps config = Some gate → dle bps gate) ∧
  (∀ mid, mid_price b = Some mid →
    dle (dsub (dmax (peak_equity em) (total_pnl m mid)) (total_pnl m mid)) (max_drawdown_quote config) ∧
    dle (dmul (dabs (inventory m)) mid) (max_exposure_quote config)).
End GateFacts.

(** ** Properties of the gate *)
Section GateProperties.
Context {D : Decimal} {C : Clock} {L : DecimalLaws D}.

Lemma update_equity_peak equity em : peak_equity (update_equity equity em) = dmax (peak_equity em) equity.
Proof.
  unfold update_equity, dmax. destruct (dltb _ _) eqn:E1, (dleb _ _) eqn:E2; simpl; try done.
  - dec_order.
  - apply dle_antisym; dec_order.
Qed.

Lemma exceeds_gate_false bps config : exceeds_gate (Some bps) config = false ↔
  ∀ gate, max_spread_to_quote_bps config = Some gate → dle bps gate.
Proof.
  unfold exceeds_gate. destruct (max_spread_to_quote_bps config) as [gate|]; [|done].
  rewrite dltb_ge. split; [by intros H gate' [= <-]|by intros H; apply H].
Qed.

Lemma within_limits_checks now config b m em :
  within_limits now config b m em ↔
  is_stale now (last_update_ms b) config = false ∧ exceeds_gate (spread_bps b) config = false ∧
  existsb snd (gate_checks now config b m em) = false.
Proof.
  unfold within_limits, gate_checks, drawdown_broken, exposure_broken. cbn [existsb snd].
  rewrite !orb_false_iff. apply and_iff_compat_l.
  assert (H1 : exceeds_gate (spread_bps b) config = false ∧ too_wide (spread_bps b) config = false ↔
    ∀ bps, spread_bps b = Some bps → dle bps (max_spread_bps config) ∧
      ∀ gate, max_spread_to_quote_bps config = Some gate → dle bps gate).
  { destruct (spread_bps b) as [bps|]; simpl.
    - rewrite exceeds_gate_false, dltb_ge. split.
      + by intros [? ?] bps' [= <-].
      + intros Hb. by destruct (Hb bps eq_refl).
    - unfold exceeds_gate. by destruct (max_spread_to_quote_bps config). }
  rewrite <- H1. unfold is_drawdown_breached, is_exposure_breached, drawdown.
  destruct (mid_price b) as [mid|].
  - rewrite update_equity_peak, !dltb_ge. split.
    + intros [[? ?] Hm]. destruct (Hm mid eq_refl). tauto.
    + intros (? & ? & ? & ? & _). split; [done|]. by intros mid' [= <-].
  - split; [tauto|]. intros (? & ? & _). split; [done|]. by intros mid' [=].
Qed.

(** C10: on a tick that starts with the breaker clear, or held for a stale
    book, [refresh_quotes] goes on to quote exactly when the book is fresh,
    the spread is within both bounds, and, if the book has a mid price,
    drawdown and exposure are within theirs; with the soft spread gate
    exceeded it skips the tick, and otherwise it cancels everything. Held
    manually the breaker never lets it quote. *)
Theorem gate_proceeds_within_limits now config b m g (Hok : breaker_ok (cb g)) :
  (reason (cb g) = None ∨ reason (cb g) = Some StaleBook →
    ((risk_gate now config b m g).1 = Proceed ↔ within_limits now config b m (em g)) ∧
    ((risk_gate now config b m g).1 = SkipQuoting ↔ exceeds_gate (spread_bps b) config = true)) ∧
  (reason (cb g) = Some Manual → (risk_gate now config b m g).1 ≠ Proceed).
Proof.
  assert (Hskip : exceeds_gate (spread_bps b) config = true →
    (risk_gate now config b m g).1 = SkipQuoting) by (intros H; unfold risk_gate; by rewrite H).
  set (cb1 := check_stale_book now (last_update_ms b) config (cb g)).
  assert (Hok1 : breaker_ok cb1) by by apply ok_condition.
  pose proof (gate_after_stale now config b m g cb1 eq_refl Hok1) as Hgate.
  split.
  - intros Hr. rewrite within_limits_checks.
    destruct (exceeds_gate (spread_bps b) config) eqn:Eg.
    { rewrite Hskip by done. split; split; try done. by intros (_ & ? & _). }
    assert (H1 : is_stale now (last_update_ms b) config = true ∧ reason cb1 = Some StaleBook ∨
      is_stale now (last_update_ms b) config = false ∧ reason cb1 = None).
    { unfold cb1. rewrite check_stale_condition.
      destruct Hr as [Hr|Hr]; [rewrite condition_none by done|rewrite condition_same by done];
        destruct (is_stale _ _ _); auto. }
    destruct H1 as [[-> Hr1]|[-> Hr1]]; rewrite Hgate by (done || by rewrite Hr1).
    + rewrite (check_all_held now _ cb1 StaleBook) by auto using gate_reasons.
      rewrite (ok_tripped cb1) by done. rewrite Hr1, bool_decide_eq_true_2 by done.
      split; [|done]. by split; [|intros [? _]].
    + rewrite check_all_clear by auto using gate_reasons_NoDup.
      destruct (existsb _ _); (split; [|done]); by split; [|intros (_ & _ & ?)].
  - intros Hr Hp. destruct (exceeds_gate (spread_bps b) config) eqn:Eg; [by rewrite Hskip in Hp|].
    assert (H1 : reason cb1 = Some Manual).
    { unfold cb1. rewrite check_stale_condition. by rewrite (condition_other _ _ Manual). }
    rewrite Hgate in Hp by (done || by rewrite H1).
    rewrite (check_all_held now _ cb1 Manual) in Hp by auto using gate_reasons.
    rewrite (ok_tripped cb1) in Hp by done. by rewrite H1, bool_decide_eq_true_2 in Hp.
Qed.

(** A soft gate below the hard bound hides the hard one: the breaker trips on
    the spread, but the tick is skipped before the cancellation. *)
Lemma wide_spread_keeps_orders now config b m g bps gate :
  breaker_ok (cb g) → spread_bps b = Some bps → max_spread_to_quote_bps config = Some gate →
  dle gate (max_spread_bps config) → dlt (max_spread_bps config) bps →
  (risk_gate now config b m g).1 = SkipQuoting ∧ tripped (cb (risk_gate now config b m g).2) = true.
Proof.
  intros Hok Hb Hg Hle Hlt. unfold risk_gate, exceeds_gate. rewrite Hb, Hg.
  assert (E : dltb gate bps = true) by dec_order. rewrite E. split; [done|]. cbn [snd cb].
  unfold check_spread. assert (E2 : dltb (max_spread_bps config) bps = true) by dec_order.
  rewrite E2. unfold trip. destruct (tripped (check_stale_book _ _ _ _)) eqn:Et; [exact Et|done].
Qed.

(** A breach found while another reason is held is not recorded; when that
    reason heals in the same tick, the tick quotes on a stale book. *)
Lemma masked_breach_proceeds now config b m g mid :
  breaker_ok (cb g) → reason (cb g) = Some MaxDrawdown →
  is_stale now (last_update_ms b) config = true → exceeds_gate (spread_bps b) config = false →
  mid_price b = Some mid → drawdown_broken config b m (em g) = false →
  exposure_broken config b m = false → (risk_gate now config b m g).1 = Proceed.
Proof.
  intros Hok Hr Hs Hg Hm Hdd Hex. unfold risk_gate. rewrite Hg. cbn [fst].
  rewrite check_stale_condition, (condition_other _ _ MaxDrawdown) by done.
  rewrite check_spread_other by (done || by rewrite Hr).
  rewrite (condition_other _ _ MaxDrawdown) by done.
  unfold check_exposure, drawdown_broken, exposure_broken in *. rewrite Hm in *. cbn [cb em].
  rewrite Hdd, Hex. rewrite (condition_same _ MaxDrawdown) by done. done.
Qed.

(** A reconnect clears every reason, a manual trip included. *)
Lemma reconnect_clears g : breaker_ok (cb g) → reason (cb (on_connected g)) = None.
Proof.
  unfold breaker_ok, on_connected, breaker_reset. simpl. destruct (tripped (cb g)) eqn:E; [done|].
  by intros [? _].
Qed.
End GateProperties.

(** ** Exact volume windows *)
Section VolumeFacts.
Context {D : Decimal} {L : DecimalLaws D}.
Variables (sc : nat).
Hypothesis (Hsc : sc ≤ 28).
Local Open Scope Z_scope.

(** A recorded trade and its volume in units of the grid. *)
Definition trade_on (e : Z * dec) (x : Z * Z) : Prop := e.1 = x.1 ∧ on_grid sc e.2 x.2.
Definition earlier (x y : Z * Z) : Prop := x.1 ≤ y.1.

(** The units traded from an instant on. *)
Definition units_since (since : Z) (xs : list (Z * Z)) : Z :=
  foldr (λ x a, if since <=? x.1 then x.2 + a else a) 0 xs.
Definition units (xs : list (Z * Z)) : Z := foldr (λ x a, x.2 + a) 0 xs.
Definition since (t : Z) (xs : list (Z * Z)) : list (Z * Z) := List.filter (λ x, t <=? x.1) xs.

Definition nonneg (xs : list (Z * Z)) : Prop := Forall (λ x, 0 ≤ x.2) xs.

Lemma units_filter t xs : units (since t xs) = units_since t xs.
Proof. induction xs as [|x xs IH]; simpl; [done|]. destruct (t <=? x.1); simpl; lia. Qed.

Lemma units_app xs ys : units (xs ++ ys) = units xs + units ys.
Proof. induction xs as [|x xs IH]; simpl; [done|]. lia. Qed.

Lemma units_bounds t xs : nonneg xs → 0 ≤ units (since t xs) ≤ units xs.
Proof.
  induction 1 as [|x xs Hx Hxs IH]; simpl; [lia|]. destruct (t <=? x.1); simpl; lia.
Qed.

Lemma since_nonneg t xs : nonneg xs → nonneg (since t xs).
Proof.
  unfold nonneg. rewrite !Forall_forall. intros H x Hx%list_elem_of_In%filter_In.
  apply H, list_elem_of_In. tauto.
Qed.

Lemma since_since t t' xs : t ≤ t' → since t' (since t xs) = since t' xs.
Proof.
  intros Ht. induction xs as [|x xs IH]; simpl; [done|].
  destruct (Z.leb_spec t x.1); simpl; [by rewrite IH|].
  destruct (Z.leb_spec t' x.1); [lia|done].
Qed.

Lemma since_on t es xs : Forall2 trade_on es xs →
  Forall2 trade_on (List.filter (λ e, t <=? e.1) es) (since t xs).
Proof.
  induction 1 as [|e x es xs [He Hx] Hxs IH]; simpl; [constructor|]. rewrite He.
  destruct (t <=? x.1); [|done]. by constructor.
Qed.

Lemma sum_on es xs d a : Forall2 trade_on es xs → nonneg xs → on_grid sc d a → 0 ≤ a →
  small (a + units xs) → on_grid sc (fold_left dadd es.*2 d) (a + units xs).
Proof.
  intros H. revert d a. induction H as [|e x es xs [He Hx] Hxs IH]; intros d a Hn Hd Ha Hs; simpl.
  - by rewrite Z.add_0_r.
  - apply Forall_cons in Hn as [Hx0 Hn]. pose proof (units_bounds 0 xs Hn) as Hb.
    simpl in Hs. rewrite Z.add_assoc in Hs |- *. apply IH; [done| |lia|done].
    apply grid_add; [done..|]. unfold small in *. lia.
Qed.

(** On a queue in time order, dropping the old front is keeping the recent. *)
Lemma drop_old_on c es xs d a : Forall2 trade_on es xs → nonneg xs → StronglySorted earlier xs →
  on_grid sc d (a + units xs) → 0 ≤ a → small (a + units xs) →
  Forall2 trade_on (drop_old c es d).1 (since c xs) ∧
  on_grid sc (drop_old c es d).2 (a + units (since c xs)).
Proof.
  intros H. revert d. induction H as [|e x es xs [He Hx] Hxs IH]; intros d Hn Hst Hd Ha Hs; simpl.
  { done. }
  destruct e as [t v]. simpl in He, Hx. apply Forall_cons in Hn as [Hx0 Hn].
  pose proof (units_bounds 0 xs Hn) as Hb. inversion Hst as [|? ? Hst' Hall]; subst. simpl in Hd, Hs.
  destruct (Z.ltb_spec x.1 c) as [Hlt|Hge].
  - destruct (Z.leb_spec c x.1); [lia|]. apply IH; [done|done| |done|].
    + replace (a + units xs) with (a + (x.2 + units xs) - x.2) by lia.
      apply grid_sub; [done..|]. unfold small in *. lia.
    + unfold small in *. lia.
  - destruct (Z.leb_spec c x.1); [|lia]. assert (E : since c xs = xs).
    { apply forallb_filter_id, forallb_forall. intros y Hy%list_elem_of_In.
      rewrite Forall_forall in Hall. specialize (Hall y Hy). unfold earlier in Hall.
      apply Z.leb_le. lia. }
    rewrite E. simpl. split; [|done]. constructor; [done|]. exact Hxs.
Qed.

(** The tracker after the trades [xs], the last of them at [now]. *)
Definition tracks (now : Z) (xs : list (Z * Z)) (s : VolumeLimitTracker) : Prop :=
  Forall2 trade_on (trades s) (since (now - DAY) xs) ∧
  on_grid sc (daily_total s) (units (since (now - DAY) xs)) ∧
  on_grid sc (hourly_total s) (units (since (now - HOUR) xs)).

Lemma since_app t xs ys : since t (xs ++ ys) = since t xs ++ since t ys.
Proof. apply List.filter_app. Qed.

Lemma sorted_app xs x : StronglySorted earlier (xs ++ [x]) →
  StronglySorted earlier xs ∧ Forall (λ y, y.1 ≤ x.1) xs.
Proof.
  induction xs as [|y xs IH]; simpl; intros H; [split; constructor|].
  inversion H as [|? ? Hs Hall]; subst. destruct (IH Hs) as [H1 H2].
  apply Forall_app in Hall as [Ha Hx]. apply Forall_inv in Hx.
  split; [by constructor|]. by constructor.
Qed.

Lemma since_sorted t xs : StronglySorted earlier xs → StronglySorted earlier (since t xs).
Proof.
  induction 1 as [|x xs Hs IH Hall]; simpl; [constructor|]. destruct (t <=? x.1); [|done].
  constructor; [done|]. rewrite Forall_forall in Hall |- *.
  intros y Hy%list_elem_of_In%filter_In. apply Hall, list_elem_of_In. tauto.
Qed.

Lemma on_trade_tracks now now' v z xs s : tracks now xs s → now ≤ now' → on_grid sc v z → 0 ≤ z →
  nonneg xs → StronglySorted earlier (xs ++ [(now', z)]) → small (units xs + z) →
  tracks now' (xs ++ [(now', z)]) (on_trade now' v s).
Proof.
  intros (Ht & Hd & _) Hnow Hv Hz Hn Hs Hsm.
  set (ys := since (now - DAY) xs ++ [(now', z)]).
  assert (Hys : Forall2 trade_on (trades s ++ [(now', v)]) ys)
    by (apply Forall2_app; [done|by repeat constructor]).
  assert (Hnys : nonneg ys) by (apply Forall_app; split; [by apply since_nonneg|by repeat constructor]).
  pose proof (units_bounds (now - DAY) xs Hn) as Hb.
  assert (Hu : units ys = units (since (now - DAY) xs) + z) by (unfold ys; rewrite units_app; simpl; lia).
  assert (Hsys : StronglySorted earlier ys).
  { apply (since_sorted (now - DAY)) in Hs. rewrite since_app in Hs. simpl in Hs.
    destruct (Z.leb_spec (now - DAY) now'); [exact Hs|unfold DAY, HOUR in *; lia]. }
  assert (Hsince : ∀ t, now - DAY ≤ t → since t ys = since t (xs ++ [(now', z)])).
  { intros t Hle. unfold ys. rewrite !since_app. by rewrite since_since. }
  destruct (drop_old_on (now' - DAY) _ ys (dadd (daily_total s) v) 0 Hys Hnys Hsys) as [H1 H2];
    [rewrite Z.add_0_l, Hu; apply grid_add; [done..|unfold small in *; lia]|lia|
     rewrite Hu; unfold small in *; lia|].
  rewrite Hsince in H1, H2 by lia. rewrite Z.add_0_l in H2.
  unfold tracks, on_trade, volume_prune. cbn [trades daily_total hourly_total].
  destruct (drop_old _ _ _) as [ts daily]. cbn [fst snd trades daily_total hourly_total] in *.
  split; [done|]. split; [done|].
  assert (Hn' : nonneg (xs ++ [(now', z)])) by (apply Forall_app; split; [done|by repeat constructor]).
  pose proof (since_on (now' - HOUR) _ _ H1) as H3.
  rewrite since_since in H3 by (unfold DAY, HOUR; lia).
  pose proof (units_bounds (now' - HOUR) _ Hn') as Hb'. rewrite units_app in Hb'. simpl in Hb'.
  rewrite <- (Z.add_0_l (units _)). apply sum_on; [done|by apply since_nonneg|apply grid_zero|lia|].
  unfold small in *. lia.
Qed.

Lemma on_trades_track d h es xs e x : Forall2 trade_on es xs → trade_on e x → nonneg (xs ++ [x]) →
  StronglySorted earlier (xs ++ [x]) → small (units (xs ++ [x])) →
  tracks x.1 (xs ++ [x]) (on_trades (es ++ [e]) (volume_new d h)).
Proof.
  revert es e x. induction xs as [|x' xs IH] using rev_ind; intros es e x Hes [He Hx] Hn Hs Hsm.
  - apply Forall2_nil_inv_r in Hes as ->. destruct e as [t v], x as [t' z]. simpl in He, Hx. subst t'.
    apply Forall_inv in Hn. simpl in Hn, Hsm. cbn [app on_trades fold_left fst snd].
    apply (on_trade_tracks t t v z []); try done; [|constructor|by rewrite Z.add_0_r in Hsm].
    split; [constructor|]. split; apply grid_zero.
  - apply Forall2_app_inv_r in Hes as (es1 & es2 & Hes1 & Hes2 & ->).
    apply Forall2_cons_inv_r in Hes2 as (e' & es3 & He' & Hnil & ->).
    apply Forall2_nil_inv_r in Hnil as ->.
    destruct e as [t v], x as [t' z]. simpl in He, Hx. subst t'.
    destruct (sorted_app _ _ Hs) as [Hs1 Hle]. apply Forall_app in Hn as [Hn1 Hn2].
    apply Forall_inv in Hn2. simpl in Hn2. rewrite units_app in Hsm. simpl in Hsm.
    pose proof (units_bounds 0 _ Hn1) as Hb.
    assert (Hsm1 : small (units (xs ++ [x']))) by (unfold small in *; lia).
    unfold on_trades. rewrite fold_left_app. cbn [fold_left fst snd].
    apply (on_trade_tracks x'.1); try done.
    + by apply IH.
    + rewrite Forall_forall in Hle. apply Hle. apply elem_of_app. right. by left.
    + by rewrite Z.add_0_r in Hsm.
Qed.

(** For trades in time order with volumes on a decimal grid, after the
    last trade the cached totals are exactly the volume of the last 24 hours
    and of the last hour, and [can_trade] accepts a volume exactly when neither
    cap that is set (not zero) would be passed. *)
Theorem volume_windows_exact d h dz hz es xs e x v z
  (Hes : Forall2 trade_on es xs) (He : trade_on e x) (Hn : nonneg (xs ++ [x]))
  (Hsort : StronglySorted earlier (xs ++ [x])) (Hd : on_grid sc d dz) (Hh : on_grid sc h hz)
  (Hv : on_grid sc v z) (Hz : 0 ≤ z) (Hsm : small (units (xs ++ [x]) + z)) :
  let s := on_trades (es ++ [e]) (volume_new d h) in
  on_grid sc (daily_total s) (units_since (x.1 - DAY) (xs ++ [x])) ∧
  on_grid sc (hourly_total s) (units_since (x.1 - HOUR) (xs ++ [x])) ∧
  (can_trade v s = true ↔
    (dz = 0 ∨ units_since (x.1 - DAY) (xs ++ [x]) + z ≤ dz) ∧
    (hz = 0 ∨ units_since (x.1 - HOUR) (xs ++ [x]) + z ≤ hz)).
Proof.
  intros s. rewrite <- !units_filter.
  pose proof (units_bounds (x.1 - DAY) _ Hn) as Hb1. pose proof (units_bounds (x.1 - HOUR) _ Hn) as Hb2.
  destruct (on_trades_track d h es xs e x) as (_ & H1 & H2); try done; [unfold small in *; lia|].
  fold s in H1, H2. split; [done|]. split; [done|].
  assert (Hlim : max_daily_quote s = d ∧ max_hourly_quote s = h).
  { unfold s, on_trades. assert (H : ∀ es s0, let s1 := fold_left (λ s e, on_trade e.1 e.2 s) es s0 in
      max_daily_quote s1 = max_daily_quote s0 ∧ max_hourly_quote s1 = max_hourly_quote s0).
    { intros es0. induction es0 as [|[t w] es0 IH]; intros s0; [done|]. cbn [fold_left fst snd].
      destruct (IH (on_trade t w s0)) as [-> ->]. unfold on_trade, volume_prune.
      by destruct (drop_old _ _ _). }
    destruct (H (es ++ [e]) (volume_new d h)) as [-> ->]. done. }
  destruct Hlim as [Hl1 Hl2]. unfold can_trade. rewrite Hl1, Hl2.
  assert (Hz0 : ∀ a m, on_grid sc a m → is_zero a = (m =? 0)).
  { intros a m Ha. apply eq_true_iff_eq. unfold on_grid in Ha. rewrite is_zero_val, Z.eqb_eq, Ha.
    unfold scaled, Qeq. simpl. lia. }
  assert (Hlt : ∀ a b m n, on_grid sc a m → on_grid sc b n → dltb a b = (m <? n)).
  { intros a b m n Ha Hb. unfold dltb. rewrite (grid_leb sc b a n m) by done. by rewrite Z.leb_antisym, negb_involutive. }
  rewrite (Hz0 d dz), (Hz0 h hz) by done.
  rewrite (Hlt d _ dz (units (since (x.1 - DAY) (xs ++ [x])) + z)); [|done|].
  2:{ apply grid_add; [done..|]. unfold small in *. lia. }
  rewrite (Hlt h _ hz (units (since (x.1 - HOUR) (xs ++ [x])) + z)); [|done|].
  2:{ apply grid_add; [done..|]. unfold small in *. lia. }
  destruct (Z.eqb_spec dz 0), (Z.eqb_spec hz 0); cbn [negb andb];
    repeat match goal with |- context [?a <? ?b] => destruct (Z.ltb_spec a b) end;
    (split; [intros; try done; split; try (by left); right; lia|
      intros [[?|?] [?|?]]; (done || lia)]).
Qed.
End VolumeFacts.

(** ** Witnesses *)
Definition demo_config : RiskConfig :=
  mkRiskConfig (dlit 10 0) (dlit 5000 0) (dlit 500 0) (dlit 1 0) (dlit 500 0) (Some (dlit 50 0)) 10
    dec0 dec0 dec0.

(** The demo book is 200 bps wide: the soft gate skips the tick. *)
Lemma gate_proceeds_within_limits_witness :
  let g := mkGate breaker_new (exposure_new dec0) in
  (risk_gate (sec 2) demo_config demo_book inventory_new g).1 = SkipQuoting.
Proof.
  intros g.
  destruct (gate_proceeds_within_limits (sec 2) demo_config demo_book inventory_new g) as [H _];
    [by split|].
  destruct (H (or_introl eq_refl)) as [_ H2]. apply H2. vm_compute. reflexivity.
Defined.

(** 40 and 50 traded ten minutes apart against an hourly cap of 100. *)
Lemma volume_windows_exact_witness :
  can_trade (dlit 10 0)
    (on_trades [(0%Z, dlit 40 0); (600000000000%Z, dlit 50 0)] (volume_new dec0 (dlit 100 0))) = true.
Proof.
  destruct (volume_windows_exact 0 ltac:(lia) dec0 (dlit 100 0) 0 100
    [(0%Z, dlit 40 0)] [(0, 40)%Z] (600000000000%Z, dlit 50 0) (600000000000, 50)%Z (dlit 10 0) 10)
    as (_ & _ & H); cycle 9.
  1: apply H; vm_compute; split; [by left|by right].
  all: repeat constructor; by vm_compute.
Defined.
