(* ===== verification/BookKeeper.v ===== *)
(** * The book keeper ([crates/engine/src/book_keeper.rs])

    Feeds book events to the local order book, drops reordered deltas and
    flags sequence gaps. Of [MarketEvent] ([crates/exchange/core/src/events.rs])
    the keeper reads the snapshot and the delta; every other variant is
    [OtherEvent]. Logs and the gap counter metric are left out. *)
From stdpp Require Import base gmap list strings.
From Stdlib Require Import ZArith QArith Lqa Lia.
From S2P Require Import Prelude Decimal Types OrderBook.
Local Open Scope nat_scope.

Section Keeper.
Context {D : Decimal} {C : Clock}.

Inductive MarketEvent :=
| BookSnapshot (bs as_ : list PriceLevel) (seq : Z)
| BookDelta (bs as_ : list PriceLevel) (seq : Z)
| OtherEvent.

Record BookKeeper := mkBookKeeper {
  book : LocalOrderBook;
  last_update : option Z;
  last_sequence : option Z;
  gap_count : Z;
  needs_resync : bool;
  venue : string;
}.

Definition keeper_new (sym : string) : BookKeeper :=
  mkBookKeeper (new sym) None None 0 false "custom".
Definition with_venue (v : string) (k : BookKeeper) : BookKeeper :=
  mkBookKeeper (book k) (last_update k) (last_sequence k) (gap_count k) (needs_resync k) v.

(** A jump of two to 999 sequence numbers is a gap. *)
Definition is_gap (last seq : Z) : bool :=
  let jump := Z.max 0 (seq - last) in (1 <? jump)%Z && (jump <? 1000)%Z.

(** The delta branch; [None] when the delta is dropped. *)
Definition keeper_delta (t : Z) (now : instant) (bs as_ : list PriceLevel) (seq : Z)
    (k : BookKeeper) : option BookKeeper :=
  let '(dropped, gap) := match last_sequence k with
    | Some last => ((seq <=? last)%Z, is_gap last seq && negb (needs_resync k))
    | None => (false, false)
    end in
  if dropped : bool then None
  else Some (mkBookKeeper (apply_delta now bs as_ seq (book k)) (Some t) (Some seq)
    (if gap : bool then sat_add_u64 (gap_count k) 1 else gap_count k) (gap || needs_resync k) (venue k)).

(** [t] is [Instant::now()], [now] the clock of the book. *)
Definition on_event (t : Z) (now : instant) (e : MarketEvent) (k : BookKeeper) : bool * BookKeeper :=
  match e with
  | BookSnapshot bs as_ seq =>
      (true, mkBookKeeper (apply_snapshot now bs as_ seq (book k)) (Some t) (Some seq)
        (gap_count k) false (venue k))
  | BookDelta bs as_ seq =>
      match keeper_delta t now bs as_ seq k with
      | Some k => (true, k)
      | None => (false, k)
      end
  | OtherEvent => (false, k)
  end.

Definition is_ready (k : BookKeeper) : bool :=
  bool_decide (is_Some (best_bid (book k))) && bool_decide (is_Some (best_ask (book k))).

Definition keeper_run (es : list (Z * instant * MarketEvent)) (k : BookKeeper) : BookKeeper :=
  fold_left (λ k x, (on_event x.1.1 x.1.2 x.2 k).2) es k.

(** ** The stream after a snapshot *)
Definition is_snapshot (e : MarketEvent) : bool :=
  match e with BookSnapshot _ _ _ => true | _ => false end.

(** The deltas a consumer in sequence order keeps, from sequence [last]. *)
Fixpoint in_order (last : Z) (es : list (Z * instant * MarketEvent)) :
    list (instant * list PriceLevel * list PriceLevel * Z) :=
  match es with
  | [] => []
  | (_, now, BookDelta bs as_ seq) :: es =>
      if (last <? seq)%Z then (now, bs, as_, seq) :: in_order seq es else in_order last es
  | _ :: es => in_order last es
  end.

(** The sequence numbers kept, and whether two of them in a row are a gap. *)
Definition seqs (ds : list (instant * list PriceLevel * list PriceLevel * Z)) : list Z := ds.*2.
Fixpoint gapped (last : Z) (ns : list Z) : bool :=
  match ns with [] => false | n :: ns => ((1 <? n - last) && (n - last <? 1000))%Z || gapped n ns end.

(** A delta's levels written into the book, unconditionally. *)
Definition apply_kept (b : LocalOrderBook) (d : instant * list PriceLevel * list PriceLevel * Z) :
    LocalOrderBook :=
  let '(now, bs, as_, seq) := d in
  mkLocalOrderBook (symbol b) (fold_left delta_level bs (bids b)) (fold_left delta_level as_ (asks b))
    seq (millis_of now).

Lemma keeper_run_cons t now e es k :
  keeper_run ((t, now, e) :: es) k = keeper_run es (on_event t now e k).2.
Proof. done. Qed.

Lemma keeper_run_deltas es k s : last_sequence k = Some s → sequence (book k) = s →
  forallb (λ x, negb (is_snapshot x.2)) es = true →
  let ds := in_order s es in
  book (keeper_run es k) = fold_left apply_kept ds (book k) ∧
  last_sequence (keeper_run es k) = Some (default s (last (seqs ds))) ∧
  needs_resync (keeper_run es k) = needs_resync k || gapped s (seqs ds).
Proof.
  revert k s. induction es as [|[[t now] e] es IH]; intros k s Hs Hb Hes; cbn zeta.
  { simpl. by rewrite orb_false_r. }
  cbn [forallb] in Hes. apply andb_true_iff in Hes as [He Hes].
  rewrite keeper_run_cons. destruct e as [|bs as_ seq|]; [done| |by apply IH].
  cbn [on_event in_order]. unfold keeper_delta. rewrite Hs.
  destruct (Z.leb_spec seq s) as [Hle|Hgt].
  { rewrite (proj2 (Z.ltb_ge s seq)) by done. cbn [snd]. by apply IH. }
  rewrite (proj2 (Z.ltb_lt s seq)) by done. cbn [snd].
  match goal with |- context [keeper_run es ?k'] =>
    destruct (IH k' seq eq_refl) as (H1 & H2 & H3); [|done|] end.
  { cbn [book]. unfold apply_delta. by rewrite Hb, (proj2 (Z.leb_gt seq s)). }
  rewrite H1, H2, H3. cbn [book needs_resync fold_left apply_kept seqs fmap list_fmap snd gapped].
  unfold apply_delta at 1. rewrite Hb, (proj2 (Z.leb_gt seq s)) by done.
  split; [done|]. split.
  - destruct (in_order seq es) as [|d ds]; [done|]. cbn [fmap list_fmap].
    rewrite (last_cons seq). change (seqs (d :: ds)) with (d.2 :: ds.*2).
    by destruct (last (d.2 :: ds.*2)) eqn:El; [|apply last_None in El].
  - unfold is_gap. rewrite Z.max_r by lia. fold (seqs (in_order seq es)).
    by destruct ((1 <? seq - s)%Z && (seq - s <? 1000)%Z), (needs_resync k), (gapped _ _).
Qed.

(** C11: after a snapshot, and whatever came before it, the book is the
    snapshot with exactly those later deltas applied that are in sequence
    order (duplicates and late ones are dropped), and the resync flag is up
    exactly when two of them in a row are 2 to 999 numbers apart. *)
Theorem book_follows_stream pre t now bs as_ s es k
  (Hes : forallb (λ x, negb (is_snapshot x.2)) es = true) :
  let k' := keeper_run (pre ++ (t, now, BookSnapshot bs as_ s) :: es) k in
  let anchor := apply_snapshot now bs as_ s (book (keeper_run pre k)) in
  book k' = fold_left apply_kept (in_order s es) anchor ∧
  last_sequence k' = Some (default s (last (seqs (in_order s es)))) ∧
  needs_resync k' = gapped s (seqs (in_order s es)).
Proof.
  intros k' anchor. unfold k', keeper_run. rewrite fold_left_app. cbn [fold_left fst snd].
  set (k0 := (on_event t now (BookSnapshot bs as_ s) (keeper_run pre k)).2).
  destruct (keeper_run_deltas es k0 s eq_refl eq_refl Hes) as (H1 & H2 & H3). done.
Qed.
End Keeper.

(** A loss of a thousand messages or more is not flagged. *)
Lemma long_gap_unflagged {D : Decimal} {C : Clock} t now bs as_ seq k last :
  last_sequence k = Some last → needs_resync k = false → (last + 1000 <= seq)%Z →
  needs_resync (on_event t now (BookDelta bs as_ seq) k).2 = false ∧
  gap_count (on_event t now (BookDelta bs as_ seq) k).2 = gap_count k.
Proof.
  intros Hl Hn Hle. cbn [on_event]. unfold keeper_delta. rewrite Hl, Hn.
  rewrite (proj2 (Z.leb_gt seq last)) by lia. unfold is_gap.
  rewrite (proj2 (Z.ltb_ge (Z.max 0 (seq - last)) 1000)) by lia. rewrite andb_false_r. done.
Qed.

(** A snapshot clears the flag but not the count. *)
Lemma snapshot_keeps_count {D : Decimal} {C : Clock} t now bs as_ seq k :
  gap_count (on_event t now (BookSnapshot bs as_ seq) k).2 = gap_count k.
Proof. done. Qed.

(** ** Witnesses *)

(** The flag goes up on 7 to 9; the repeated 9 and the late 8 are dropped. *)
Lemma book_follows_stream_witness :
  let ev seq := (0%Z, sec 1, BookDelta [lvl 99 seq] [] seq) in
  let k := keeper_run [(0%Z, sec 0, BookSnapshot [lvl 99 2] [lvl 101 1] 7); ev 9%Z; ev 9%Z; ev 8%Z]
    (keeper_new "BTCUSDT") in
  needs_resync k = true ∧ last_sequence k = Some 9%Z.
Proof.
  intros ev k.
  destruct (book_follows_stream [] 0 (sec 0) [lvl 99 2] [lvl 101 1] 7 [ev 9%Z; ev 9%Z; ev 8%Z]
    (keeper_new "BTCUSDT") eq_refl) as (_ & H2 & H3).
  split; [exact H3|exact H2].
Defined.
