(* ===== verification/MarginGuard.v ===== *)
(** * The margin guard ([crates/risk/src/margin_guard.rs])

    The guard turns the venue's margin snapshots
    ([crates/exchange/core/src/connector.rs]) into decisions for the kill
    switch and projects the ratio a pending quote would lead to. The last
    section composes it with its two callers in
    [crates/engine/src/market_maker.rs]: the periodic poll and the gate before
    a quote refresh. The decision type itself is in [KillSwitch.v]. *)
From stdpp Require Import base gmap list strings.
From Stdlib Require Import ZArith QArith Qabs Lqa Lia.
From S2P Require Import Prelude Decimal Types KillSwitch OrderBook.
Local Open Scope string_scope.
Local Open Scope nat_scope.
Local Open Scope list_scope.

Inductive MarginModeCfg := Isolated | Cross.

#[export] Instance MarginModeCfg_eq_dec : EqDecision MarginModeCfg.
Proof. solve_decision. Defined.

Section Guard.
Context {D : Decimal}.

Record PositionMargin := mkPositionMargin {
  pm_symbol : string;
  pm_side : Side;
  pm_size : dec;
  entry_price : dec;
  mark_price : dec;
  isolated_margin : option dec;
  liq_price : option dec;
  adl_quantile : option Z;
}.

Record AccountMarginInfo := mkAccountMargin {
  total_equity : dec;
  total_initial_margin : dec;
  total_maintenance_margin : dec;
  available_balance : dec;
  margin_ratio : dec;
  positions : list PositionMargin;
  reported_at_ms : Z;
}.

(** [crates/common/src/config.rs]; [max_stale_secs] is a [u64]. *)
Record MarginConfig := mkMarginConfig {
  refresh_interval_secs : Z;
  cfg_widen_ratio : dec;
  cfg_reduce_ratio : option dec;
  cfg_stop_ratio : dec;
  cfg_cancel_ratio : dec;
  cfg_max_stale_secs : Z;
  default_mode : MarginModeCfg;
  default_leverage : Z;
  default_maintenance_margin_rate : dec;
  per_symbol : gmap string (MarginModeCfg * Z);
}.

Definition for_symbol (symbol : string) (cfg : MarginConfig) : MarginModeCfg * Z :=
  default (default_mode cfg, default_leverage cfg) (per_symbol cfg !! symbol).

Definition ratio_in_range (v : dec) : bool := negb (dleb v dec0 || dltb dec1 v).

(** [validate_thresholds]; the error is the name of the field at fault. *)
Definition validate_thresholds (cfg : MarginConfig) : result unit string :=
  if negb (ratio_in_range (cfg_widen_ratio cfg)) then Err "widen_ratio"
  else if negb (ratio_in_range (cfg_stop_ratio cfg)) then Err "stop_ratio"
  else if negb (ratio_in_range (cfg_cancel_ratio cfg)) then Err "cancel_ratio"
  else if dleb (cfg_stop_ratio cfg) (cfg_widen_ratio cfg) then Err "widen_ratio"
  else if dleb (cfg_cancel_ratio cfg) (cfg_stop_ratio cfg) then Err "stop_ratio"
  else Ok tt.

Definition uses_cross_margin (cfg : MarginConfig) : bool :=
  bool_decide (default_mode cfg = Cross)
  || existsb (λ x, bool_decide (x.2.1 = Cross)) (map_to_list (per_symbol cfg)).

Record MarginGuardThresholds := mkThresholds {
  widen_ratio : dec;
  reduce_ratio : dec;
  stop_ratio : dec;
  cancel_ratio : dec;
  max_stale_secs : Z;
  default_mmr : dec;
}.

Definition thresholds_from_config (cfg : MarginConfig) : MarginGuardThresholds :=
  let midpoint := ddiv (dadd (cfg_widen_ratio cfg) (cfg_stop_ratio cfg)) (dlit 2 0) in
  mkThresholds (cfg_widen_ratio cfg) (default midpoint (cfg_reduce_ratio cfg)) (cfg_stop_ratio cfg)
    (cfg_cancel_ratio cfg) (wrap_i64 (cfg_max_stale_secs cfg)) (default_maintenance_margin_rate cfg).

Record MarginGuard := mkMarginGuard {
  thresholds : MarginGuardThresholds;
  mg_symbol : string;
  mode : MarginModeCfg;
  last_info : option AccountMarginInfo;
}.

Definition guard_new (t : MarginGuardThresholds) : MarginGuard := mkMarginGuard t "" Cross None.
Definition with_symbol_mode (symbol : string) (m : MarginModeCfg) (g : MarginGuard) : MarginGuard :=
  mkMarginGuard (thresholds g) symbol m (last_info g).
Definition guard_update (info : AccountMarginInfo) (g : MarginGuard) : MarginGuard :=
  mkMarginGuard (thresholds g) (mg_symbol g) (mode g) (Some info).

Definition wants_reduce (d : MarginGuardDecision) : bool := match d with MgReduce => true | _ => false end.
Definition decision_is_stale (d : MarginGuardDecision) : bool := match d with MgStale => true | _ => false end.

Definition position_notional (p : PositionMargin) : dec := dmul (dabs (pm_size p)) (mark_price p).

Definition effective_mmr (g : MarginGuard) : dec :=
  let dflt := default_mmr (thresholds g) in
  match last_info g with
  | None => dflt
  | Some info =>
      let total := dsum (position_notional <$> positions info) in
      if dleb total dec0 then dflt
      else
        let inferred := ddiv (total_maintenance_margin info) total in
        dmin (dmax inferred (ddiv dflt (dlit 10 0))) (dmul dflt (dlit 10 0))
  end.

(** This engine's position. *)
Definition find_position (symbol : string) (info : AccountMarginInfo) : option PositionMargin :=
  List.find (λ p, bool_decide (pm_symbol p = symbol)) (positions info).

(** Its isolated collateral, in isolated mode. *)
Definition isolated_bucket (g : MarginGuard) (info : AccountMarginInfo) : option (PositionMargin * dec) :=
  match mode g with
  | Cross => None
  | Isolated => p ← find_position (mg_symbol g) info; iso ← isolated_margin p; Some (p, iso)
  end.

Definition observed_ratio (g : MarginGuard) : option dec :=
  info ← last_info g;
  Some match isolated_bucket g info with
       | None => margin_ratio info
       | Some (p, iso) =>
           if dleb iso dec0 then dec1 else ddiv (dmul (position_notional p) (effective_mmr g)) iso
       end.

Definition max_adl_quantile (g : MarginGuard) : option Z :=
  info ← last_info g;
  match omap adl_quantile (positions info) with
  | [] => None
  | q :: qs => Some (fold_left Z.max qs q)
  end.

Definition adl_elevated (g : MarginGuard) : bool :=
  match max_adl_quantile g with Some q => (3 <=? q)%Z | None => false end.

Definition bucket (ratio : dec) (t : MarginGuardThresholds) : MarginGuardDecision :=
  if dleb (cancel_ratio t) ratio then MgCancelAll
  else if dleb (stop_ratio t) ratio then MgStopNewOrders
  else if dleb (reduce_ratio t) ratio then MgReduce
  else if dleb (widen_ratio t) ratio then MgWidenSpreads
  else MgNormal.

(** The age is the truncated quotient of the wrapped difference. *)
Definition snapshot_stale (now_ms : Z) (info : AccountMarginInfo) (t : MarginGuardThresholds) : bool :=
  (max_stale_secs t <? Z.quot (wrap_i64 (now_ms - reported_at_ms info)) 1000)%Z.

Definition decide_margin (now_ms : Z) (g : MarginGuard) : MarginGuardDecision :=
  match last_info g with
  | None => MgStale
  | Some info =>
      if snapshot_stale now_ms info (thresholds g) then MgStale
      else
        match bucket (default (margin_ratio info) (observed_ratio g)) (thresholds g) with
        | MgNormal => if adl_elevated g then MgWidenSpreads else MgNormal
        | b => b
        end
  end.

Definition project_cross (info : AccountMarginInfo) (im_needed mm_delta : dec) : dec :=
  if dleb (total_equity info) dec0 then dec1
  else
    let equity := dsub (total_equity info) im_needed in
    if dleb equity dec0 then dec1 else ddiv (dadd (total_maintenance_margin info) mm_delta) equity.

Definition project_isolated (g : MarginGuard) (p : PositionMargin) (iso im_needed mm_delta : dec) : dec :=
  let current := dmul (position_notional p) (effective_mmr g) in
  let collateral := dadd iso im_needed in
  if dleb collateral dec0 then dec1 else ddiv (dadd current mm_delta) collateral.

Definition projected_ratio (notional_delta : dec) (leverage : Z) (g : MarginGuard) : option dec :=
  info ← last_info g;
  let im_needed := ddiv notional_delta (dlit (Z.max 1 leverage) 0) in
  let mm_delta := dmul notional_delta (effective_mmr g) in
  Some match isolated_bucket g info with
       | Some (p, iso) => project_isolated g p iso im_needed mm_delta
       | None => project_cross info im_needed mm_delta
       end.

(** ** The engine's two calls *)
Context {C : Clock}.

(** [MarketMakerEngine::new]: the guard of a symbol. *)
Definition engine_guard (symbol : string) (cfg : MarginConfig) : MarginGuard :=
  with_symbol_mode symbol (for_symbol symbol cfg).1 (guard_new (thresholds_from_config cfg)).

(** [refresh_margin_guard], up to the reduce slice: the poll's answer, or its
    failure, then the decision goes to the kill switch. [now] is the clock the
    kill switch reads, [now_ms] the one the guard does. *)
Definition refresh_margin_guard (answer : option AccountMarginInfo) (now_ms : Z) (now : instant)
    (g : MarginGuard) (ks : KillSwitch) : MarginGuard * KillSwitch * bool :=
  let g := match answer with Some info => guard_update info g | None => g end in
  let d := decide_margin now_ms g in
  (g, update_margin_ratio d now ks, wants_reduce d).

(** [refresh_quotes]: whether the projection lets this refresh through. *)
Definition margin_gate (mid : option dec) (order_size : dec) (leverage : Z) (g : MarginGuard) : bool :=
  match mid with
  | None => true
  | Some mid =>
      match projected_ratio (dmul (dmul order_size mid) (dlit 2 0)) leverage g with
      | None => true
      | Some projected => negb (dleb (stop_ratio (thresholds g)) projected)
      end
  end.
End Guard.

(** ** The decision against the thresholds *)
Section Decision.
Context {D : Decimal} {L : DecimalLaws D}.

Definition demanded (now_ms : Z) (g : MarginGuard) : KillLevel := default Normal (kill_level (decide_margin now_ms g)).

(** A snapshot recent enough, with the ratio the guard reasons about. *)
Definition fresh_ratio (now_ms : Z) (g : MarginGuard) (info : AccountMarginInfo) (r : dec) : Prop :=
  last_info g = Some info ∧ snapshot_stale now_ms info (thresholds g) = false ∧ observed_ratio g = Some r.

Lemma observed_some g info : last_info g = Some info → is_Some (observed_ratio g).
Proof. unfold observed_ratio. intros ->. by eexists. Qed.

Lemma decide_cases now_ms g :
  (decide_margin now_ms g = MgStale ∧ ∀ info r, ¬ fresh_ratio now_ms g info r) ∨
  ∃ info r, fresh_ratio now_ms g info r ∧
    decide_margin now_ms g = match bucket r (thresholds g) with
                             | MgNormal => if adl_elevated g then MgWidenSpreads else MgNormal
                             | b => b end.
Proof.
  unfold decide_margin, fresh_ratio. destruct (last_info g) as [info|] eqn:El; [|left; split; [done|]; by intros ?? [? _]].
  destruct (snapshot_stale now_ms info (thresholds g)) eqn:Es.
  - left. split; [done|]. intros info' r ([= <-] & Hs & _). congruence.
  - right. destruct (observed_some g info El) as [r Hr]. exists info, r. rewrite Hr. done.
Qed.

Lemma fresh_unique now_ms g info r info' r' : fresh_ratio now_ms g info r → fresh_ratio now_ms g info' r' → r' = r.
Proof. intros (_ & _ & H1) (_ & _ & H2). congruence. Qed.

Lemma thresholds_ordered cfg : validate_thresholds cfg = Ok tt →
  dlt (cfg_widen_ratio cfg) (cfg_stop_ratio cfg) ∧ dlt (cfg_stop_ratio cfg) (cfg_cancel_ratio cfg) ∧
  (dval (cfg_cancel_ratio cfg) <= 1)%Q.
Proof.
  unfold validate_thresholds. destruct (ratio_in_range (cfg_widen_ratio cfg)); [|done].
  destruct (ratio_in_range (cfg_stop_ratio cfg)); [|done].
  destruct (ratio_in_range (cfg_cancel_ratio cfg)) eqn:E; [|done]. cbn [negb].
  destruct (dleb (cfg_stop_ratio cfg) _) eqn:E1; [done|]. destruct (dleb (cfg_cancel_ratio cfg) _) eqn:E2; [done|].
  intros _. apply dleb_gt in E1, E2. split; [done|]. split; [done|].
  unfold ratio_in_range in E. apply negb_true_iff, orb_false_elim in E as [_ E]. apply dltb_ge in E.
  unfold dle in E. by rewrite dec1_val in E.
Qed.

(** The ratio a fresh snapshot gives reaches a threshold. *)
Definition reaches (now_ms : Z) (g : MarginGuard) (threshold : dec) : Prop :=
  ∃ info r, fresh_ratio now_ms g info r ∧ dle threshold r.
Definition no_fresh_snapshot (now_ms : Z) (g : MarginGuard) : Prop := ∀ info r, ¬ fresh_ratio now_ms g info r.

Lemma reaches_fresh now_ms g info r t : fresh_ratio now_ms g info r → reaches now_ms g t ↔ dleb t r = true.
Proof.
  intros H. rewrite dleb_le. split; [|by exists info, r]. intros (info' & r' & H' & Hle).
  by rewrite (fresh_unique _ _ _ _ _ _ H H') in Hle.
Qed.

Lemma reaches_stale now_ms g t : no_fresh_snapshot now_ms g → ¬ reaches now_ms g t.
Proof. intros H (info & r & Hf & _). by apply (H info r). Qed.

(** With thresholds the configuration accepts, the level the guard demands
    of the kill switch is read off the last snapshot: a cancel exactly when a
    fresh snapshot reaches the cancel threshold, a stop of new orders or more
    exactly when it reaches the stop threshold, and wider quotes or more exactly
    when there is no fresh snapshot, the widen or the reduce threshold is
    reached, or a position is near the front of the venue's deleverage queue. *)
Theorem margin_levels_exact cfg now_ms g :
  validate_thresholds cfg = Ok tt → thresholds g = thresholds_from_config cfg →
  (level_le CancelAll (demanded now_ms g) ↔ reaches now_ms g (cfg_cancel_ratio cfg)) ∧
  (level_le StopNewOrders (demanded now_ms g) ↔ reaches now_ms g (cfg_stop_ratio cfg)) ∧
  (level_le WidenSpreads (demanded now_ms g) ↔ no_fresh_snapshot now_ms g ∨ reaches now_ms g (cfg_widen_ratio cfg) ∨
     reaches now_ms g (reduce_ratio (thresholds g)) ∨ adl_elevated g = true).
Proof.
  intros (Hws & Hsc & _)%thresholds_ordered Ht. unfold demanded.
  destruct (decide_cases now_ms g) as [[-> Hno]|(info & r & Hf & ->)].
  - pose proof (λ t, reaches_stale now_ms g t Hno) as Hn. cbn. unfold level_le. cbn.
    repeat split; intros H; try lia; try (by left); exfalso; naive_solver.
  - rewrite !(reaches_fresh now_ms g info r _ Hf). unfold bucket, level_le. rewrite Ht.
    cbn [cancel_ratio stop_ratio widen_ratio thresholds_from_config].
    assert (Hfr : ¬ no_fresh_snapshot now_ms g) by (intros H; by apply (H info r)).
    destruct (dleb (cfg_cancel_ratio cfg) r) eqn:E1.
    { assert (E2 : dleb (cfg_stop_ratio cfg) r = true) by dec_order.
      assert (E3 : dleb (cfg_widen_ratio cfg) r = true) by dec_order. rewrite E2, E3. cbn. repeat split; intros; try lia; tauto. }
    destruct (dleb (cfg_stop_ratio cfg) r) eqn:E2.
    { assert (E3 : dleb (cfg_widen_ratio cfg) r = true) by dec_order. rewrite E3. cbn. repeat split; intros; try lia; try done; tauto. }
    destruct (dleb (reduce_ratio _) r) eqn:E3; [|destruct (dleb (cfg_widen_ratio cfg) r) eqn:E4; [|destruct (adl_elevated g)]];
      cbn; repeat split; intros; try lia; try done; naive_solver.
Qed.
End Decision.

(** ** The projection *)
Section Projection.
Context {D : Decimal} {L : DecimalExact D}.
Implicit Types g : MarginGuard (D := D).

Lemma ten_val : (dval (dlit 10 0) == 10)%Q.
Proof. by apply dlit_int. Qed.

(** The inferred rate is clamped to a decade around the configured one. *)
Lemma mmr_bounds g : (0 <= dval (default_mmr (thresholds g)))%Q →
  (dval (default_mmr (thresholds g)) / 10 <= dval (effective_mmr g) <= dval (default_mmr (thresholds g)) * 10)%Q.
Proof.
  intros H. set (d := default_mmr (thresholds g)) in *. pose proof ten_val as Ht.
  assert (Hf : (dval (ddiv d (dlit 10 0)) == dval d / 10)%Q) by (rewrite ddiv_exact; rewrite Ht; [done|lra]).
  assert (Hc : (dval (dmul d (dlit 10 0)) == dval d * 10)%Q) by (rewrite dmul_exact, Ht; done).
  assert (Hd : (dval d / 10 <= dval d <= dval d * 10)%Q).
  { assert (E : (dval d / 10 == dval d * (1 # 10))%Q) by field. rewrite E. lra. }
  unfold effective_mmr. fold d. destruct (last_info g) as [info|]; [|done].
  destruct (dleb (dsum _) dec0); [done|]. unfold dmin, dmax. set (i := ddiv (total_maintenance_margin info) _).
  destruct (dleb i (ddiv d (dlit 10 0))) eqn:E1;
    [destruct (dleb (ddiv d (dlit 10 0)) (dmul d (dlit 10 0))) eqn:E2 | destruct (dleb i (dmul d (dlit 10 0))) eqn:E2];
    dec_to_Q; rewrite ?Hf, ?Hc in *; lra.
Qed.

(** What the gate before a quote refresh lets through. In cross mode, when
    the projection lets the refresh proceed, the account would keep positive
    equity after the margin of a fill on both sides is reserved, its ratio of
    maintenance margin to that equity would stay under the stop threshold, and
    so does the ratio it has now. *)
Theorem margin_gate_sound g info mid order_size leverage :
  mode g = Cross → last_info g = Some info → (dval (stop_ratio (thresholds g)) <= 1)%Q →
  (0 <= dval (default_mmr (thresholds g)))%Q → (0 <= dval (total_maintenance_margin info))%Q →
  (0 <= dval mid)%Q → (0 <= dval order_size)%Q → (leverage <= u32_max)%Z →
  margin_gate (Some mid) order_size leverage g = true →
  let footprint := (dval order_size * dval mid * 2)%Q in
  let after := (dval (total_equity info) - footprint / inject_Z (Z.max 1 leverage))%Q in
  let stop := dval (stop_ratio (thresholds g)) in
  (0 < after)%Q ∧
  (dval (total_maintenance_margin info) + footprint * dval (effective_mmr g) < stop * after)%Q ∧
  (dval (total_maintenance_margin info) < stop * dval (total_equity info))%Q.
Proof.
  intros Hm Hi Hstop Hd Hmm Hmid Hsize Hlev. unfold margin_gate, projected_ratio, isolated_bucket. rewrite Hi, Hm. cbn [mbind option_bind].
  pose proof (mmr_bounds g Hd) as [Hmmr _]. assert (H10 : (0 <= dval (default_mmr (thresholds g)) / 10)%Q).
  { assert (E : (dval (default_mmr (thresholds g)) / 10 == dval (default_mmr (thresholds g)) * (1 # 10))%Q) by field. rewrite E. lra. }
  set (notional := dmul (dmul order_size mid) (dlit 2 0)).
  assert (H2 : (dval (dlit 2 0) == 2)%Q) by (by apply dlit_int).
  assert (Hn : (dval notional == dval order_size * dval mid * 2)%Q) by (unfold notional; rewrite !dmul_exact, H2; done).
  assert (Hl : (dval (dlit (Z.max 1 leverage) 0) == inject_Z (Z.max 1 leverage))%Q).
  { apply dlit_int. unfold u32_max in Hlev. lia. }
  assert (Hl0 : (0 < inject_Z (Z.max 1 leverage))%Q) by (unfold Qlt, inject_Z; cbn; lia).
  assert (Hn0 : (0 <= dval notional)%Q) by (rewrite Hn; nra).
  set (im := ddiv notional _). set (mmd := dmul notional _).
  assert (Him : (dval im == dval notional / inject_Z (Z.max 1 leverage))%Q) by (unfold im; rewrite ddiv_exact, Hl; [done|rewrite Hl; lra]).
  assert (Him0 : (0 <= dval im)%Q) by (rewrite Him; apply Qle_shift_div_l; lra).
  assert (Hmd : (dval mmd == dval notional * dval (effective_mmr g))%Q) by (unfold mmd; apply dmul_exact).
  assert (Hmd0 : (0 <= dval mmd)%Q) by (rewrite Hmd; nra).
  pose proof dec1_val as H1. pose proof dec0_val as H0.
  intros Hg%negb_true_iff%dleb_gt. unfold dlt, project_cross in Hg. cbn zeta.
  destruct (dleb (total_equity info) dec0) eqn:E1; [lra|].
  destruct (dleb (dsub (total_equity info) im) dec0) eqn:E2; [lra|].
  dec_to_Q. rewrite dsub_exact, H0 in E2. rewrite H0 in E1.
  rewrite ddiv_exact, dadd_exact, dsub_exact in Hg by (rewrite dsub_exact; lra).
  rewrite <- Hn. rewrite <- Him. rewrite <- Hmd. clearbody im mmd notional.
  set (eq := dval (total_equity info)) in *. set (mm := dval (total_maintenance_margin info)) in *.
  set (st := dval (stop_ratio (thresholds g))) in *.
  assert (Hlt : (mm + dval mmd < st * (eq - dval im))%Q).
  { destruct (Qlt_le_dec (mm + dval mmd) (st * (eq - dval im))) as [|Hge]; [done|].
    exfalso. apply (Qlt_not_le _ _ Hg). apply Qle_shift_div_l; [lra|exact Hge]. }
  split; [lra|]. split; [exact Hlt|]. nra.
Qed.
End Projection.

(** ** Closed examples: a wallet of 1000 with 400 of maintenance margin *)
Definition demo_margin_config : MarginConfig (D := Qc_decimal) :=
  mkMarginConfig 5 (dlit 50 2) None (dlit 80 2) (dlit 90 2) 30 Isolated 5 (dlit 5 3) {[ "BTCUSDT" := (Cross, 5%Z) ]}.
Definition demo_account (ratio : Z) : AccountMarginInfo (D := Qc_decimal) :=
  mkAccountMargin (dlit 1000 0) (dlit 500 0) (dlit 400 0) (dlit 500 0) (dlit ratio 2) [] 1000000.
Definition demo_guard (ratio : Z) : MarginGuard :=
  guard_update (demo_account ratio) (engine_guard "BTCUSDT" demo_margin_config).

Lemma margin_levels_exact_witness :
  level_le StopNewOrders (demanded 1010000 (demo_guard 85)) ∧ ¬ level_le CancelAll (demanded 1010000 (demo_guard 85)) ∧
  level_le WidenSpreads (demanded 1031000 (demo_guard 10)) ∧ demanded 1010000 (demo_guard 10) = Normal.
Proof.
  assert (Hv : validate_thresholds demo_margin_config = Ok tt) by (vm_compute; reflexivity).
  assert (Hf : fresh_ratio 1010000 (demo_guard 85) (demo_account 85) (dlit 85 2)) by (split; [|split]; vm_compute; reflexivity).
  destruct (margin_levels_exact demo_margin_config 1010000 (demo_guard 85) Hv eq_refl) as (Hc & Hs & _).
  destruct (margin_levels_exact demo_margin_config 1031000 (demo_guard 10) Hv eq_refl) as (_ & _ & Hw).
  split; [|split; [|split]].
  - apply Hs. apply (reaches_fresh _ _ _ _ _ Hf). vm_compute. reflexivity.
  - intros H. apply Hc, (reaches_fresh _ _ _ _ _ Hf) in H. vm_compute in H. discriminate H.
  - apply Hw. left. intros info r ([= <-] & Hst & _). vm_compute in Hst. discriminate Hst.
  - vm_compute. reflexivity.
Defined.

Lemma margin_gate_sound_witness :
  margin_gate (Some (dlit 100 0)) (dlit 1 0) 5 (demo_guard 40) = true ∧
  (0 < dval (Decimal := Qc_decimal) (total_equity (demo_account 40)) - (1 * 100 * 2) / inject_Z 5)%Q.
Proof.
  assert (Hg : margin_gate (Some (dlit 100 0)) (dlit 1 0) 5 (demo_guard 40) = true) by (vm_compute; reflexivity).
  split; [exact Hg|].
  refine (proj1 (margin_gate_sound (demo_guard 40) (demo_account 40) (dlit 100 0) (dlit 1 0) 5 _ _ _ _ _ _ _ _ Hg));
    first [reflexivity | apply Qle_bool_imp_le; reflexivity | vm_compute; discriminate].
Defined.
