(* ===== verification/Protections.v ===== *)
(** * Pausing a pair or a client ([crates/risk/src/{protections,per_client_circuit}.rs])

    The stack of per-pair guards consulted before quoting, and the daily-loss
    circuit of a client across its symbols. Instants are nanoseconds on a
    clock whose earliest value is [instant_floor] ([checked_sub] fails below
    it); a sum of an instant and a duration does not overflow. The reason of a
    lock is the data its text is formatted from. The mutex of the circuit is
    never poisoned. *)
From stdpp Require Import base gmap list strings sorting.
From Stdlib Require Import ZArith Lia.
From S2P Require Import Prelude Decimal Types.
Local Open Scope nat_scope.

Section Protections.
Context {D : Decimal} (instant_floor : Z).

Record StoplossGuardConfig := mkStoplossConfig { sg_window : Z; max_stops : nat; sg_lockout : Z }.
Record CooldownConfig := mkCooldownConfig { cd_duration : Z }.
Record MaxDrawdownConfig := mkDrawdownConfig { max_drawdown_quote : dec; dd_lockout : Z; recovery_fraction : dec }.
Record LowProfitPairsConfig := mkLowProfitConfig { lp_window : Z; min_pnl_quote : dec; lp_lockout : Z; min_trades : nat }.

Record ProtectionsConfig := mkProtectionsConfig {
  cfg_stoploss : option StoplossGuardConfig;
  cfg_cooldown : option CooldownConfig;
  cfg_drawdown : option MaxDrawdownConfig;
  cfg_low_profit : option LowProfitPairsConfig;
}.

Inductive LockReason :=
| StoplossLock (max_stops : nat) (window : Z)
| CooldownLock (duration : Z)
| DrawdownLock (max_drawdown peak equity : dec)
| LowProfitLock (min_pnl : dec) (window : Z).

Inductive ProtectionStatus := Clear | Locked (reason : LockReason) (until : option Z).

Definition status_is_locked (s : ProtectionStatus) : bool := match s with Locked _ _ => true | Clear => false end.

(** [now.checked_sub(window).unwrap_or(now)] *)
Definition window_start (now window : Z) : Z :=
  if (instant_floor <=? now - window)%Z then (now - window)%Z else now.

(** [retain] from the window's start, then [push]. *)
Definition push_windowed {A} (window now : Z) (a : A) (l : list (Z * A)) : list (Z * A) :=
  List.filter (λ x, (window_start now window <=? x.1)%Z) l ++ [(now, a)].

(** The lock of a pair, while it lasts. *)
Definition lock_status (reason : LockReason) (until : option Z) (now : Z) : option ProtectionStatus :=
  match until with
  | Some u => if (now <? u)%Z then Some (Locked reason (Some u)) else None
  | None => None
  end.

(** ** [StoplossGuard] *)
Record StoplossGuard := mkStoplossGuard {
  sg_config : StoplossGuardConfig;
  stops : gmap string (list (Z * unit));
  sg_locked_until : gmap string Z;
}.

Definition stoploss_new (c : StoplossGuardConfig) : StoplossGuard := mkStoplossGuard c ∅ ∅.

Definition stoploss_record (pair : string) (now : Z) (g : StoplossGuard) : StoplossGuard :=
  let entry := push_windowed (sg_window (sg_config g)) now tt (default [] (stops g !! pair)) in
  mkStoplossGuard (sg_config g) (<[pair := entry]> (stops g))
    (if max_stops (sg_config g) <=? length entry
     then <[pair := (now + sg_lockout (sg_config g))%Z]> (sg_locked_until g) else sg_locked_until g).

Definition stoploss_status (pair : string) (now : Z) (g : StoplossGuard) : option ProtectionStatus :=
  lock_status (StoplossLock (max_stops (sg_config g)) (sg_window (sg_config g))) (sg_locked_until g !! pair) now.

(** ** [CooldownPeriod] *)
Record CooldownPeriod := mkCooldown { cd_config : CooldownConfig; cooldowns : gmap string Z }.

Definition cooldown_new (c : CooldownConfig) : CooldownPeriod := mkCooldown c ∅.
Definition cooldown_trigger (pair : string) (now : Z) (c : CooldownPeriod) : CooldownPeriod :=
  mkCooldown (cd_config c) (<[pair := (now + cd_duration (cd_config c))%Z]> (cooldowns c)).
Definition cooldown_status (pair : string) (now : Z) (c : CooldownPeriod) : option ProtectionStatus :=
  lock_status (CooldownLock (cd_duration (cd_config c))) (cooldowns c !! pair) now.

(** ** [MaxDrawdownPause] *)
Record DrawdownState := mkDrawdownState { peak : dec; last_equity : dec; dd_locked_until : option Z }.
Record MaxDrawdownPause := mkDrawdownPause { dd_config : MaxDrawdownConfig; per_pair : gmap string DrawdownState }.

Definition drawdown_new (c : MaxDrawdownConfig) : MaxDrawdownPause := mkDrawdownPause c ∅.

Definition drawdown_step (c : MaxDrawdownConfig) (equity : dec) (now : Z) (s : DrawdownState) : DrawdownState :=
  let top := if dltb (peak s) equity then equity else peak s in
  let until := if dleb (max_drawdown_quote c) (dsub top equity) && is_none (dd_locked_until s)
               then Some (now + dd_lockout c)%Z else dd_locked_until s in
  let until := match until with
               | Some u => if (now <? u)%Z && dleb (dmul top (recovery_fraction c)) equity then None else until
               | None => None
               end in
  mkDrawdownState top equity until.

Definition drawdown_update (pair : string) (equity : dec) (now : Z) (g : MaxDrawdownPause) : MaxDrawdownPause :=
  let s := default (mkDrawdownState equity equity None) (per_pair g !! pair) in
  mkDrawdownPause (dd_config g) (<[pair := drawdown_step (dd_config g) equity now s]> (per_pair g)).

Definition drawdown_status (pair : string) (now : Z) (g : MaxDrawdownPause) : option ProtectionStatus :=
  s ← per_pair g !! pair;
  lock_status (DrawdownLock (max_drawdown_quote (dd_config g)) (peak s) (last_equity s)) (dd_locked_until s) now.

(** ** [LowProfitPairs] *)
Record LowProfitPairs := mkLowProfit {
  lp_config : LowProfitPairsConfig;
  lp_trades : gmap string (list (Z * dec));
  lp_locked_until : gmap string Z;
}.

Definition low_profit_new (c : LowProfitPairsConfig) : LowProfitPairs := mkLowProfit c ∅ ∅.

Definition low_profit_record (pair : string) (pnl : dec) (now : Z) (g : LowProfitPairs) : LowProfitPairs :=
  let c := lp_config g in
  let entry := push_windowed (lp_window c) now pnl (default [] (lp_trades g !! pair)) in
  mkLowProfit c (<[pair := entry]> (lp_trades g))
    (if (min_trades c <=? length entry) && dltb (dsum entry.*2) (min_pnl_quote c)
     then <[pair := (now + lp_lockout c)%Z]> (lp_locked_until g) else lp_locked_until g).

Definition low_profit_status (pair : string) (now : Z) (g : LowProfitPairs) : option ProtectionStatus :=
  lock_status (LowProfitLock (min_pnl_quote (lp_config g)) (lp_window (lp_config g))) (lp_locked_until g !! pair) now.

(** ** The facade *)
Record Protections := mkProtections {
  stoploss_guard : option StoplossGuard;
  cooldown : option CooldownPeriod;
  max_drawdown : option MaxDrawdownPause;
  low_profit_pairs : option LowProfitPairs;
}.

Definition protections_new (c : ProtectionsConfig) : Protections :=
  mkProtections (stoploss_new <$> cfg_stoploss c) (cooldown_new <$> cfg_cooldown c)
    (drawdown_new <$> cfg_drawdown c) (low_profit_new <$> cfg_low_profit c).

Definition record_stop (pair : string) (now : Z) (p : Protections) : Protections :=
  mkProtections (stoploss_record pair now <$> stoploss_guard p) (cooldown_trigger pair now <$> cooldown p)
    (max_drawdown p) (low_profit_pairs p).

Definition protections_update_equity (pair : string) (equity : dec) (now : Z) (p : Protections) : Protections :=
  mkProtections (stoploss_guard p) (cooldown p) (drawdown_update pair equity now <$> max_drawdown p) (low_profit_pairs p).

Definition record_trade_pnl (pair : string) (pnl : dec) (now : Z) (p : Protections) : Protections :=
  mkProtections (stoploss_guard p) (cooldown p) (max_drawdown p) (low_profit_record pair pnl now <$> low_profit_pairs p).

(** The first guard that holds the pair. *)
Definition is_locked (pair : string) (now : Z) (p : Protections) : ProtectionStatus :=
  match stoploss_guard p ≫= stoploss_status pair now with
  | Some s => s
  | None =>
      match cooldown p ≫= cooldown_status pair now with
      | Some s => s
      | None =>
          match max_drawdown p ≫= drawdown_status pair now with
          | Some s => s
          | None => default Clear (low_profit_pairs p ≫= low_profit_status pair now)
          end
      end
  end.

(** ** A run of the stack *)
Inductive ProtectionEvent := StopEvent | EquityEvent (equity : dec) | TradeEvent (pnl : dec).

Definition protections_step (p : Protections) (e : string * Z * ProtectionEvent) : Protections :=
  let '(symbol, now, ev) := e in
  match ev with
  | StopEvent => record_stop symbol now p
  | EquityEvent equity => protections_update_equity symbol equity now p
  | TradeEvent pnl => record_trade_pnl symbol pnl now p
  end.

Definition protections_run (hist : list (string * Z * ProtectionEvent)) (p : Protections) : Protections :=
  fold_left protections_step hist p.
End Protections.

(** ** The daily-loss circuit of a client *)
Section Circuit.
Context {D : Decimal} {I : HashMapIter}.

(** [Inner] *)
Record ClientBook := mkClientBook { limit : option dec; per_symbol : gmap string dec; client_tripped : bool }.
Abbreviation Clients := (gmap string ClientBook).

Definition client_default : ClientBook := mkClientBook None ∅ false.
Definition aggregate (b : ClientBook) : dec := dsum (hm_values (per_symbol b)).

Definition circuit_register (client : string) (l : option dec) (m : Clients) : Clients :=
  let b := default client_default (m !! client) in
  <[client := mkClientBook l (per_symbol b) (client_tripped b)]> m.

Definition report_book (symbol : string) (daily_pnl : dec) (b : ClientBook) : ClientBook :=
  let b := mkClientBook (limit b) (<[symbol := daily_pnl]> (per_symbol b)) (client_tripped b) in
  match limit b with
  | Some l => if dleb (aggregate b) (dneg l) then mkClientBook (limit b) (per_symbol b) true else b
  | None => b
  end.

Definition report_symbol_pnl (client symbol : string) (daily_pnl : dec) (m : Clients) : Clients :=
  <[client := report_book symbol daily_pnl (default client_default (m !! client))]> m.

Definition client_is_tripped (client : string) (m : Clients) : bool :=
  match m !! client with Some b => client_tripped b | None => false end.

Record ClientLossState := mkClientLossState { cl_daily_pnl : dec; cl_limit : option dec; cl_tripped : bool }.

Definition client_state (b : ClientBook) : ClientLossState :=
  mkClientLossState (aggregate b) (limit b) (client_tripped b).
Definition client_snapshot (client : string) (m : Clients) : option ClientLossState := client_state <$> m !! client.
Definition client_snapshot_all (m : Clients) : gmap string ClientLossState := client_state <$> m.

Definition reset_client (client : string) (m : Clients) : Clients :=
  match m !! client with
  | Some b => <[client := mkClientBook (limit b) ∅ false]> m
  | None => m
  end.
End Circuit.

(** ** Windows that trip a lock *)
Section Window.
Context (instant_floor window lockout : Z) {A : Type} (trip : list (Z * A) → bool).

(** One recorded item: the window's content, and when the lock ends. *)
Definition window_step (st : list (Z * A) * option Z) (x : Z * A) : list (Z * A) * option Z :=
  let entry := push_windowed instant_floor window x.1 x.2 st.1 in
  (entry, if trip entry then Some (x.1 + lockout)%Z else st.2).

(** The items at most [window] old when one at [t] is recorded. *)
Definition recent (t : Z) (l : list (Z * A)) : list (Z * A) := List.filter (λ x, (t - window <=? x.1)%Z) l.

(** Some item at [t], with those at most [window] older, trips. *)
Definition trip_at (h : list (Z * A)) (t : Z) : Prop :=
  ∃ h1 a h2, h = h1 ++ (t, a) :: h2 ∧ trip (recent t (h1 ++ [(t, a)])) = true.

Definition in_order (h : list (Z * A)) : Prop := StronglySorted (λ x y, (x.1 ≤ y.1)%Z) h.

Lemma filter_recent t t' l : (t' ≤ t)%Z → recent t (recent t' l) = recent t l.
Proof.
  intros H. unfold recent. induction l as [|x l IH]; [done|]. cbn.
  destruct (Z.leb_spec (t' - window) x.1); cbn; [by rewrite IH|].
  destruct (Z.leb_spec (t - window) x.1); [lia|done].
Qed.

Lemma recent_app t l1 l2 : recent t (l1 ++ l2) = recent t l1 ++ recent t l2.
Proof. apply List.filter_app. Qed.

Lemma trip_at_snoc h t0 a t : trip_at (h ++ [(t0, a)]) t ↔
  trip_at h t ∨ t = t0 ∧ trip (recent t0 (h ++ [(t0, a)])) = true.
Proof.
  split.
  - intros (h1 & b & h2 & E & Ht). destruct h2 as [|x h2 _] using rev_ind.
    + apply app_inj_tail in E as [-> [= -> ->]]. by right.
    + rewrite app_comm_cons, app_assoc in E. apply app_inj_tail in E as [-> _]. left. by exists h1, b, h2.
  - intros [(h1 & b & h2 & -> & Ht)|[-> Ht]].
    + exists h1, b, (h2 ++ [(t0, a)]). by rewrite <- app_assoc.
    + by exists h, a, [].
Qed.

Lemma trip_at_elem h t : trip_at h t → ∃ a, (t, a) ∈ h.
Proof. intros (h1 & a & h2 & -> & _). exists a. set_solver. Qed.

(** What a run over items in order has recorded, and whether it holds a lock. *)
Lemma window_run h : in_order h → Forall (λ x, (instant_floor ≤ x.1 - window)%Z) h → (0 ≤ window)%Z →
  let st := fold_left window_step h ([], None) in
  (∀ t a, last h = Some (t, a) → st.1 = recent t h) ∧ (h = [] → st.1 = []) ∧
  ∀ now, (∃ u, st.2 = Some u ∧ (now < u)%Z) ↔ ∃ t, trip_at h t ∧ (now < t + lockout)%Z.
Proof.
  intros Hs Hf Hw. induction h as [|[t a] h IH] using rev_ind.
  { cbn. split; [done|]. split; [done|]. intros now. split; [by intros (? & ? & _)|].
    intros (t & (h1 & a & h2 & E & _) & _). by destruct h1. }
  apply StronglySorted_app in Hs as (Hle & Hs & _). apply Forall_app in Hf as [Hf Hft].
  apply Forall_inv in Hft. cbn [fst] in Hft.
  specialize (IH Hs Hf). cbn zeta in *. rewrite fold_left_app. cbn [fold_left].
  destruct (fold_left window_step h ([], None)) as [entry until]. cbn [fst snd] in IH. destruct IH as (He & Hn & Hl).
  assert (Hent : push_windowed instant_floor window t a entry = recent t (h ++ [(t, a)])).
  { unfold push_windowed, window_start. destruct (Z.leb_spec instant_floor (t - window)); [|lia].
    rewrite recent_app. f_equal; [|unfold recent; cbn [List.filter fst]; by rewrite (proj2 (Z.leb_le (t - window) t)) by lia].
    destruct h as [|[t' a'] h0 _] using rev_ind; [by rewrite (Hn eq_refl)|].
    rewrite (He t' a') by by rewrite last_snoc. fold (recent t (recent t' (h0 ++ [(t', a')]))). apply filter_recent.
    apply (Hle (t', a') (t, a)); set_solver. }
  unfold window_step. cbn [fst snd]. rewrite Hent. split; [|split].
  - intros t1 a1. rewrite last_snoc. by intros [= <- <-].
  - by destruct h.
  - intros now. setoid_rewrite trip_at_snoc. destruct (trip _) eqn:Et.
    + split; [intros (u & [= <-] & Hu); exists t; auto|]. intros (t1 & Ht1 & Hlt). eexists. split; [done|].
      destruct Ht1 as [(b & Hin)%trip_at_elem|[-> _]]; [|done].
      pose proof (Hle (t1, b) (t, a) Hin ltac:(set_solver)) as Hle1. cbn in Hle1. lia.
    + rewrite Hl. split; [intros (t1 & ? & ?); exists t1; auto|]. intros (t1 & [?|[_ ?]] & ?); [by exists t1|done].
Qed.
End Window.

(** ** The stack *)
Section Stack.
Context {D : Decimal} (instant_floor : Z).
Abbreviation History := (list (string * Z * ProtectionEvent)).
Implicit Types h : History.

(** The events of one pair, by kind. *)
Definition stops_of (symbol : string) h : list (Z * unit) :=
  omap (λ e, match e with (s, t, StopEvent) => if decide (s = symbol) then Some (t, tt) else None | _ => None end) h.
Definition trades_of (symbol : string) h : list (Z * dec) :=
  omap (λ e, match e with (s, t, TradeEvent x) => if decide (s = symbol) then Some (t, x) else None | _ => None end) h.
Definition equities_of (symbol : string) h : list (Z * dec) :=
  omap (λ e, match e with (s, t, EquityEvent x) => if decide (s = symbol) then Some (t, x) else None | _ => None end) h.

Definition many_stops (c : StoplossGuardConfig) (l : list (Z * unit)) : bool := max_stops c <=? length l.
Definition low_sum (c : LowProfitPairsConfig) (l : list (Z * dec)) : bool :=
  (min_trades c <=? length l) && dltb (dsum l.*2) (min_pnl_quote c).

Definition equity_step (c : MaxDrawdownConfig) (s : option DrawdownState) (x : Z * dec) : option DrawdownState :=
  Some (drawdown_step c x.2 x.1 (default (mkDrawdownState x.2 x.2 None) s)).

(** What the guards know of a pair after a run. *)
Record pair_view (c : ProtectionsConfig) (h : History) (p : Protections) (symbol : string) : Prop := {
  pv_stoploss : match stoploss_guard p with
    | None => cfg_stoploss c = None
    | Some g => cfg_stoploss c = Some (sg_config g) ∧
        (default [] (stops g !! symbol), sg_locked_until g !! symbol) =
        fold_left (window_step instant_floor (sg_window (sg_config g)) (sg_lockout (sg_config g)) (many_stops (sg_config g)))
          (stops_of symbol h) ([], None)
    end;
  pv_cooldown : match cooldown p with
    | None => cfg_cooldown c = None
    | Some g => cfg_cooldown c = Some (cd_config g) ∧
        cooldowns g !! symbol = (λ x, (x.1 + cd_duration (cd_config g))%Z) <$> last (stops_of symbol h)
    end;
  pv_drawdown : match max_drawdown p with
    | None => cfg_drawdown c = None
    | Some g => cfg_drawdown c = Some (dd_config g) ∧
        per_pair g !! symbol = fold_left (equity_step (dd_config g)) (equities_of symbol h) None
    end;
  pv_low_profit : match low_profit_pairs p with
    | None => cfg_low_profit c = None
    | Some g => cfg_low_profit c = Some (lp_config g) ∧
        (default [] (lp_trades g !! symbol), lp_locked_until g !! symbol) =
        fold_left (window_step instant_floor (lp_window (lp_config g)) (lp_lockout (lp_config g)) (low_sum (lp_config g)))
          (trades_of symbol h) ([], None)
    end;
}.

Lemma stops_snoc symbol h s t ev : stops_of symbol (h ++ [(s, t, ev)]) =
  stops_of symbol h ++ match ev with StopEvent => if decide (s = symbol) then [(t, tt)] else [] | _ => [] end.
Proof. unfold stops_of. rewrite omap_app. f_equal. cbn. destruct ev; [|done..]. by destruct (decide _). Qed.

Lemma trades_snoc symbol h s t ev : trades_of symbol (h ++ [(s, t, ev)]) =
  trades_of symbol h ++ match ev with TradeEvent x => if decide (s = symbol) then [(t, x)] else [] | _ => [] end.
Proof. unfold trades_of. rewrite omap_app. f_equal. cbn. destruct ev; [done..|]. by destruct (decide _). Qed.

Lemma equities_snoc symbol h s t ev : equities_of symbol (h ++ [(s, t, ev)]) =
  equities_of symbol h ++ match ev with EquityEvent x => if decide (s = symbol) then [(t, x)] else [] | _ => [] end.
Proof. unfold equities_of. rewrite omap_app. f_equal. cbn. destruct ev; [done| |done]. by destruct (decide _). Qed.

Lemma run_view c h symbol : pair_view c h (protections_run instant_floor h (protections_new c)) symbol.
Proof.
  induction h as [|[[s t] ev] h IH] using rev_ind.
  { destruct c as [[]  [] [] []]; split; cbn; split; try done. }
  unfold protections_run in *. rewrite fold_left_app. cbn [fold_left].
  destruct (fold_left (protections_step instant_floor) h (protections_new c)) as [sg cd dd lp].
  destruct IH as [H1 H2 H3 H4]. cbn [stoploss_guard cooldown max_drawdown low_profit_pairs] in *.
  split; rewrite ?stops_snoc, ?trades_snoc, ?equities_snoc; destruct ev as [|x|x]; cbn [protections_step record_stop protections_update_equity
    record_trade_pnl stoploss_guard cooldown max_drawdown low_profit_pairs]; rewrite ?app_nil_r; try done.
  - destruct sg as [g|]; [|done]. destruct H1 as [E1 E2]. cbn. split; [done|]. destruct (decide (s = symbol)) as [->|Hne].
    + rewrite fold_left_app, <- E2. unfold window_step. cbn. rewrite lookup_insert_eq. cbn. f_equal.
      unfold many_stops. destruct (_ <=? _); [by rewrite lookup_insert_eq|done].
    + rewrite app_nil_r, <- E2, lookup_insert_ne by done. f_equal.
      destruct (_ <=? _); [by rewrite lookup_insert_ne by done|done].
  - destruct cd as [g|]; [|done]. destruct H2 as [E1 E2]. cbn. split; [done|]. destruct (decide (s = symbol)) as [->|Hne].
    + by rewrite lookup_insert_eq, last_snoc.
    + by rewrite app_nil_r, lookup_insert_ne by done.
  - destruct dd as [g|]; [|done]. destruct H3 as [E1 E2]. cbn. split; [done|]. destruct (decide (s = symbol)) as [->|Hne].
    + by rewrite fold_left_app, <- E2, lookup_insert_eq.
    + by rewrite app_nil_r, lookup_insert_ne by done.
  - destruct lp as [g|]; [|done]. destruct H4 as [E1 E2]. cbn. split; [done|]. destruct (decide (s = symbol)) as [->|Hne].
    + rewrite fold_left_app, <- E2. unfold window_step. cbn. rewrite lookup_insert_eq. cbn. f_equal.
      unfold low_sum. destruct (_ && _); [by rewrite lookup_insert_eq|done].
    + rewrite app_nil_r, <- E2, lookup_insert_ne by done. f_equal.
      destruct (_ && _); [by rewrite lookup_insert_ne by done|done].
Qed.

Lemma locked_cases symbol now (p : Protections) : status_is_locked (is_locked symbol now p) = true ↔
  is_Some (stoploss_guard p ≫= stoploss_status symbol now) ∨ is_Some (cooldown p ≫= cooldown_status symbol now) ∨
  is_Some (max_drawdown p ≫= drawdown_status symbol now) ∨ is_Some (low_profit_pairs p ≫= low_profit_status symbol now).
Proof.
  assert (Hl : ∀ r u s, lock_status r u now = Some s → status_is_locked s = true).
  { intros r [u|] s; cbn; [|done]. destruct (_ <? _)%Z; [by intros [= <-]|done]. }
  unfold is_locked. destruct (stoploss_guard p ≫= _) as [s|] eqn:E1.
  { destruct (stoploss_guard p) as [g|]; [|done]. apply Hl in E1 as ->. split; [by left; eexists|done]. }
  destruct (cooldown p ≫= _) as [s|] eqn:E2.
  { destruct (cooldown p) as [g|]; [|done]. apply Hl in E2 as ->. split; [by right; left; eexists|done]. }
  destruct (max_drawdown p ≫= _) as [s|] eqn:E3.
  { destruct (max_drawdown p) as [g|]; [|done]. cbn in E3. unfold drawdown_status in E3.
    destruct (per_pair g !! symbol); [|done]. apply Hl in E3 as ->. split; [by do 2 right; left; eexists|done]. }
  destruct (low_profit_pairs p ≫= _) as [s|] eqn:E4; cbn.
  { destruct (low_profit_pairs p) as [g|]; [|done]. apply Hl in E4 as ->. split; [by do 3 right; eexists|done]. }
  split; [done|]. by intros [[? ?]|[[? ?]|[[? ?]|[? ?]]]].
Qed.

Lemma lock_status_some r u now : is_Some (lock_status (D := D) r u now) ↔ ∃ t, u = Some t ∧ (now < t)%Z.
Proof.
  destruct u as [t|]; cbn; [|split; [by intros [? ?]|by intros (? & ? & _)]].
  destruct (Z.ltb_spec now t); split; [intros _; by exists t | intros _; by eexists | by intros [? ?] | intros (? & [= <-] & ?); lia].
Qed.

Lemma last_in_order (hs : list (Z * unit)) d now (g : CooldownConfig) : in_order hs → d = cd_duration g →
  (∃ t, (λ x, (x.1 + d)%Z) <$> last hs = Some t ∧ (now < t)%Z) ↔
  ∃ g' t, Some g = Some g' ∧ (t, tt) ∈ hs ∧ (now < t + cd_duration g')%Z.
Proof.
  intros Hs ->. destruct hs as [|[t0 []] hs _] using rev_ind.
  { cbn. split; [by intros (? & ? & _)|]. intros (? & ? & _ & H & _). by apply elem_of_nil in H. }
  rewrite last_snoc. cbn. apply StronglySorted_app in Hs as (Hle & _). split.
  - intros (t & [= <-] & Ht). exists g, t0. split; [done|]. split; [set_solver|done].
  - intros (g' & t & [= <-] & Hin & Hlt). eexists. split; [done|]. apply elem_of_app in Hin as [Hin|Hin].
    + specialize (Hle _ (t0, tt) Hin ltac:(set_solver)). cbn in Hle. lia.
    + apply list_elem_of_singleton in Hin as [= ->]. done.
Qed.

Lemma of_config {A B} (c : A) (P : A → B → Prop) : (∃ t, P c t) ↔ ∃ g t, Some c = Some g ∧ P g t.
Proof. split; [intros [t Ht]; by exists c, t | intros (g & t & [= <-] & Ht); by exists t]. Qed.

(** The clock can subtract the windows. *)
Definition clock_allows (window : Z) {A} (l : list (Z * A)) : Prop :=
  (0 ≤ window)%Z ∧ Forall (λ x, (instant_floor ≤ x.1 - window)%Z) l.

(** After any run of events on any pairs, in the order of time for the pair
    asked about, the stack locks the pair exactly while one of its guards holds
    it: within the lockout of a stop that had at least the configured number of
    stops of that pair in its window, within the cooldown of a stop, while the
    drawdown state of the pair holds a lock, or within the lockout of a trade
    that left the pair's window of trades long enough and its sum too low. What
    happens to another pair never matters. *)
Theorem stack_locks_exactly c h symbol now :
  in_order (stops_of symbol h) → in_order (trades_of symbol h) →
  (∀ g, cfg_stoploss c = Some g → clock_allows (sg_window g) (stops_of symbol h)) →
  (∀ g, cfg_low_profit c = Some g → clock_allows (lp_window g) (trades_of symbol h)) →
  status_is_locked (is_locked symbol now (protections_run instant_floor h (protections_new c))) = true ↔
    (∃ g t, cfg_stoploss c = Some g ∧ trip_at (sg_window g) (many_stops g) (stops_of symbol h) t ∧
       (now < t + sg_lockout g)%Z) ∨
    (∃ g t, cfg_cooldown c = Some g ∧ (t, tt) ∈ stops_of symbol h ∧ (now < t + cd_duration g)%Z) ∨
    (∃ g s u, cfg_drawdown c = Some g ∧ fold_left (equity_step g) (equities_of symbol h) None = Some s ∧
       dd_locked_until s = Some u ∧ (now < u)%Z) ∨
    (∃ g t, cfg_low_profit c = Some g ∧ trip_at (lp_window g) (low_sum g) (trades_of symbol h) t ∧
       (now < t + lp_lockout g)%Z).
Proof.
  intros Hs Ht Hcs Hct. rewrite locked_cases.
  destruct (run_view c h symbol) as [H1 H2 H3 H4]. set (p := protections_run _ _ _) in *. clearbody p.
  assert (E1 : is_Some (stoploss_guard p ≫= stoploss_status symbol now) ↔ ∃ g t, cfg_stoploss c = Some g ∧
    trip_at (sg_window g) (many_stops g) (stops_of symbol h) t ∧ (now < t + sg_lockout g)%Z).
  { destruct (stoploss_guard p) as [g|]; cbn; [|rewrite H1; split; [by intros [? ?]|by intros (? & ? & ? & _)]].
    destruct H1 as [Hc Hv]. unfold stoploss_status. rewrite lock_status_some. destruct (Hcs _ Hc) as [Hw Hf].
    pose proof (window_run instant_floor (sg_window (sg_config g)) (sg_lockout (sg_config g)) (many_stops (sg_config g)) _ Hs Hf Hw) as (_ & _ & Hl).
    rewrite <- Hv in Hl. cbn in Hl. rewrite Hl, Hc.
    apply (of_config (sg_config g) (λ g t, trip_at (sg_window g) (many_stops g) (stops_of symbol h) t ∧ (now < t + sg_lockout g)%Z)). }
  assert (E2 : is_Some (cooldown p ≫= cooldown_status symbol now) ↔ ∃ g t, cfg_cooldown c = Some g ∧
    (t, tt) ∈ stops_of symbol h ∧ (now < t + cd_duration g)%Z).
  { destruct (cooldown p) as [g|]; cbn; [|rewrite H2; split; [by intros [? ?]|by intros (? & ? & ? & _)]].
    destruct H2 as [Hc Hv]. unfold cooldown_status. rewrite lock_status_some, Hv, Hc. apply last_in_order; done. }
  assert (E3 : is_Some (max_drawdown p ≫= drawdown_status symbol now) ↔ ∃ g s u, cfg_drawdown c = Some g ∧
    fold_left (equity_step g) (equities_of symbol h) None = Some s ∧ dd_locked_until s = Some u ∧ (now < u)%Z).
  { destruct (max_drawdown p) as [g|]; cbn; [|rewrite H3; split; [by intros [? ?]|by intros (? & ? & ? & ? & _)]].
    destruct H3 as [Hc Hv]. unfold drawdown_status. rewrite Hv, Hc. destruct (fold_left _ _ None) as [s|] eqn:Es; cbn.
    - rewrite lock_status_some. naive_solver.
    - split; [by intros [? ?]|]. intros (g' & s & u & [= <-] & Es' & _). congruence. }
  assert (E4 : is_Some (low_profit_pairs p ≫= low_profit_status symbol now) ↔ ∃ g t, cfg_low_profit c = Some g ∧
    trip_at (lp_window g) (low_sum g) (trades_of symbol h) t ∧ (now < t + lp_lockout g)%Z).
  { destruct (low_profit_pairs p) as [g|]; cbn; [|rewrite H4; split; [by intros [? ?]|by intros (? & ? & ? & _)]].
    destruct H4 as [Hc Hv]. unfold low_profit_status. rewrite lock_status_some. destruct (Hct _ Hc) as [Hw Hf].
    pose proof (window_run instant_floor (lp_window (lp_config g)) (lp_lockout (lp_config g)) (low_sum (lp_config g)) _ Ht Hf Hw) as (_ & _ & Hl).
    rewrite <- Hv in Hl. cbn in Hl. rewrite Hl, Hc.
    apply (of_config (lp_config g) (λ g t, trip_at (lp_window g) (low_sum g) (trades_of symbol h) t ∧ (now < t + lp_lockout g)%Z)). }
  by rewrite E1, E2, E3, E4.
Qed.
End Stack.

(** ** The drawdown pause is spent after one lockout *)
Section Drawdown.
Context {D : Decimal}.

(** Once its lockout has run out the lock is neither dropped nor renewed:
    no later equity, however low, pauses the pair again. *)
Lemma drawdown_spent c later : ∀ s u, dd_locked_until s = Some u → Forall (λ x, (u ≤ x.1)%Z) later →
  ∃ s', fold_left (equity_step c) later (Some s) = Some s' ∧ dd_locked_until s' = Some u.
Proof.
  induction later as [|[t e] later IH]; intros s u Hu Hl; [by exists s|]. apply Forall_cons in Hl as [Ht Hl]. cbn in Ht.
  cbn [fold_left]. unfold equity_step at 2. cbn [from_option id fst snd]. apply IH; [|done].
  unfold drawdown_step. cbn [dd_locked_until from_option id].
  rewrite Hu. cbn [is_none]. rewrite andb_false_r. cbn. by rewrite (proj2 (Z.ltb_ge t u) Ht).
Qed.
End Drawdown.

(** A pause for ten seconds after a loss of a hundred: the later loss of a
    hundred thousand pauses nothing. *)
Example drawdown_spent_run :
  let c := mkDrawdownConfig (D := Qc_decimal) (dlit 100 0) 10 (dlit 1 0) in
  let p := protections_run 0 [("BTC", 0, EquityEvent (dlit 1000 0)); ("BTC", 1, EquityEvent (dlit 900 0))]%Z
             (protections_new (mkProtectionsConfig None None (Some c) None)) in
  let q := protections_run 0 [("BTC", 20, EquityEvent (dlit (-99000) 0))]%Z p in
  (status_is_locked (is_locked "BTC" 5 p), status_is_locked (is_locked "BTC" 21 q)) = (true, false).
Proof. vm_compute. reflexivity. Qed.

(** ** The circuit trips and stays tripped *)
Section CircuitFacts.
Context {D : Decimal} {L : DecimalLaws D} {I : HashMapIter}.
Implicit Types m : gmap string ClientBook.

Inductive ClientCall :=
| Register (client : string) (l : option dec)
| Report (client symbol : string) (pnl : dec)
| Reset (client : string).

Definition client_call (m : gmap string ClientBook) (x : ClientCall) : gmap string ClientBook :=
  match x with
  | Register c l => circuit_register c l m
  | Report c s pnl => report_symbol_pnl c s pnl m
  | Reset c => reset_client c m
  end.

(** The call leaves the client's sum at or below minus its limit. *)
Definition breaches (client : string) (m : gmap string ClientBook) (x : ClientCall) : Prop :=
  ∃ s pnl b l, x = Report client s pnl ∧ client_call m x !! client = Some b ∧ limit b = Some l ∧
    dle (aggregate b) (dneg l).

Lemma call_trips client m x : client_is_tripped client (client_call m x) = true ↔
  x ≠ Reset client ∧ (client_is_tripped client m = true ∨ breaches client m x).
Proof.
  unfold client_is_tripped, breaches. destruct x as [c l|c s pnl|c]; cbn.
  - unfold circuit_register. destruct (decide (c = client)) as [->|Hne].
    + rewrite lookup_insert_eq. cbn. destruct (m !! client); naive_solver.
    + rewrite lookup_insert_ne by done. naive_solver.
  - unfold report_symbol_pnl. destruct (decide (c = client)) as [->|Hne].
    + rewrite lookup_insert_eq. unfold report_book. cbn. set (b := default client_default (m !! client)).
      assert (Eb : match m !! client with Some b => client_tripped b | None => false end = client_tripped b)
        by (unfold b; by destruct (m !! client)). rewrite Eb.
      destruct (limit b) as [l|] eqn:El; [|naive_solver].
      destruct (dleb _ _) eqn:E; cbn.
      * split; [|done]. intros _. split; [done|]. right. do 4 eexists. do 2 (split; [done|]). rewrite ?El. cbn.
        split; [done|]. by apply dleb_le.
      * split; [by auto|]. intros [_ [H|(s' & pnl' & b' & l' & [= <- <-] & [= <-] & [= <-] & Hle)]]; [done|].
        apply dleb_le in Hle. unfold aggregate in *. cbn in *. congruence.
    + rewrite lookup_insert_ne by done. naive_solver.
  - unfold reset_client. destruct (decide (c = client)) as [->|Hne].
    + destruct (m !! client) eqn:E; [rewrite lookup_insert_eq|rewrite E]; cbn; naive_solver.
    + destruct (m !! c); [rewrite lookup_insert_ne by done|]; naive_solver.
Qed.

(** Over any calls from any engines, a client's circuit is tripped exactly
    when some report since its last reset left the sum over its symbols at or
    below minus its limit: nothing but the operator's reset untrips it, and the
    reports and resets of other clients never matter. *)
Theorem circuit_trips_exactly client calls : 
  client_is_tripped client (fold_left client_call calls ∅) = true ↔
  ∃ before x after, calls = before ++ x :: after ∧ breaches client (fold_left client_call before ∅) x ∧
    Reset client ∉ after.
Proof.
  induction calls as [|y calls IH] using rev_ind.
  { cbn. split; [done|]. intros (b & x & a & E & _). by destruct b. }
  rewrite fold_left_app. cbn [fold_left]. rewrite call_trips, IH. split.
  - intros [Hy [(b & x & a & -> & Hb & Ha)|Hb]].
    + exists b, x, (a ++ [y]). rewrite <- app_assoc. split; [done|]. split; [done|]. rewrite elem_of_app, list_elem_of_singleton. naive_solver.
    + exists calls, y, []. split; [done|]. split; [done|]. apply not_elem_of_nil.
  - intros (b & x & a & E & Hb & Ha). destruct a as [|z a _] using rev_ind.
    + apply app_inj_tail in E as [-> ->]. split; [|by right]. intros ->. by destruct Hb as (? & ? & ? & ? & ? & _).
    + rewrite app_comm_cons, app_assoc in E. apply app_inj_tail in E as [-> ->]. rewrite elem_of_app, list_elem_of_singleton in Ha.
      split; [naive_solver|]. left. exists b, x, a. naive_solver.
Qed.
End CircuitFacts.

(** Two losses of sixty on two symbols against a limit of a hundred. *)
Lemma circuit_trips_exactly_witness :
  let calls := [Register "acme" (Some (dlit 100 0)); Report "acme" "BTC" (dlit (-60) 0);
                Report "acme" "ETH" (dlit (-60) 0); Report "acme" "ETH" (dlit 0 0)] in
  client_is_tripped "acme" (fold_left (client_call (D := Qc_decimal)) calls ∅) = true ∧
  ∃ before x after, calls = before ++ x :: after ∧ breaches "acme" (fold_left client_call before ∅) x ∧
    Reset "acme" ∉ after.
Proof.
  cbn zeta. match goal with |- ?a = true ∧ _ => assert (H : a = true) by (vm_compute; reflexivity) end.
  split; [exact H|]. apply circuit_trips_exactly. exact H.
Defined.

(** Three stops inside a minute lock the pair for five. *)
Definition demo_protections : ProtectionsConfig (D := Qc_decimal) :=
  mkProtectionsConfig (Some (mkStoplossConfig 60 3 300)) None None None.
Definition demo_stops : list (string * Z * ProtectionEvent (D := Qc_decimal)) :=
  [("BTC", 100, StopEvent); ("BTC", 110, StopEvent); ("ETH", 115, StopEvent); ("BTC", 120, StopEvent)]%Z.

Lemma stack_locks_exactly_witness :
  status_is_locked (is_locked "BTC" 419 (protections_run 0 demo_stops (protections_new demo_protections))) = true ∧
  status_is_locked (is_locked "ETH" 120 (protections_run 0 demo_stops (protections_new demo_protections))) = false.
Proof.
  split; [|vm_compute; reflexivity].
  refine (proj2 (stack_locks_exactly 0 demo_protections demo_stops "BTC" 419 _ _ _ _) _).
  - change (in_order [(100, tt); (110, tt); (120, tt)]%Z). repeat constructor; cbn; lia.
  - constructor.
  - intros g [= <-]. split; [discriminate|]. change (Forall (λ x, (0 ≤ x.1 - 60)%Z) [(100, tt); (110, tt); (120, tt)]%Z).
    repeat constructor; cbn; lia.
  - intros g [=].
  - left. exists (mkStoplossConfig 60 3 300), 120%Z. split; [reflexivity|]. split; [|vm_compute; reflexivity].
    exists [(100, tt); (110, tt)]%Z, tt, []. split; vm_compute; reflexivity.
Defined.
