(* ===== verification/Emulator.v ===== *)
(** * Emulated orders and position schedules ([crates/risk/src/{order_emulator,dca}.rs])

    Stop, trailing, bracket and expiring orders for venues that lack them: a
    map of orders that every market tick walks in the map's iteration order.
    The second part plans the slices that take a position to a target.
    Instants and durations are nanoseconds; adding the two does not overflow,
    while a product of a duration that overflows panics. *)
From stdpp Require Import base gmap sets list strings.
From Stdlib Require Import ZArith QArith Qabs Lqa Lia.
From S2P Require Import Prelude Decimal Types KillSwitch.
Local Open Scope nat_scope.

Abbreviation EmulatorOrderId := Z.

Section Emulator.
Context {D : Decimal} {I : HashMapIter}.

Inductive EmulatorOrder :=
| StopMarket (side : Side) (trigger_price qty : dec)
| StopLimit (side : Side) (trigger_price limit_price qty : dec)
| TrailingStop (side : Side) (trail_amount qty watermark : dec)
| OcoLeg (side : Side) (trigger_price qty : dec) (sibling : EmulatorOrderId)
| GtdCancel (venue_order_id : string) (deadline : Z).

Inductive EmulatorOrderSpec :=
| SpecStopMarket (side : Side) (trigger_price qty : dec)
| SpecStopLimit (side : Side) (trigger_price limit_price qty : dec)
| SpecTrailingStop (side : Side) (trail_amount qty watermark : dec)
| SpecOcoLeg (side : Side) (trigger_price qty : dec) (sibling : EmulatorOrderId)
| SpecGtdCancel (venue_order_id : string) (deadline_in_secs : Z).

Definition to_emulator_order (now : Z) (s : EmulatorOrderSpec) : EmulatorOrder :=
  match s with
  | SpecStopMarket side trigger qty => StopMarket side trigger qty
  | SpecStopLimit side trigger limit qty => StopLimit side trigger limit qty
  | SpecTrailingStop side trail qty watermark => TrailingStop side trail qty watermark
  | SpecOcoLeg side trigger qty sibling => OcoLeg side trigger qty sibling
  | SpecGtdCancel venue_order_id secs => GtdCancel venue_order_id (now + secs * 10 ^ 9)
  end.

Inductive EmulatorAction :=
| PlaceMarket (side : Side) (qty : dec) (emulator_id : EmulatorOrderId)
| PlaceLimit (side : Side) (price qty : dec) (emulator_id : EmulatorOrderId)
| CancelVenue (venue_order_id : string) (emulator_id : EmulatorOrderId).

Definition action_id (a : EmulatorAction) : EmulatorOrderId :=
  match a with PlaceMarket _ _ id | PlaceLimit _ _ _ id | CancelVenue _ id => id end.

Record OrderEmulator := mkEmulator { orders : gmap EmulatorOrderId EmulatorOrder; next_id : EmulatorOrderId }.

Definition emulator_new : OrderEmulator := mkEmulator ∅ 1%Z.

Definition register (o : EmulatorOrder) (e : OrderEmulator) : EmulatorOrderId * OrderEmulator :=
  (next_id e, mkEmulator (<[next_id e := o]> (orders e)) (wrap_u64 (next_id e + 1))).

Definition cancel_emulated (id : EmulatorOrderId) (e : OrderEmulator) : OrderEmulator :=
  mkEmulator (delete id (orders e)) (next_id e).

Definition stop_triggered (side : Side) (trigger mid : dec) : bool :=
  match side with Sell => dleb mid trigger | Buy => dleb trigger mid end.

(** The watermark of a trailing stop after a tick at [mid]. *)
Definition trail_watermark (side : Side) (mid watermark : dec) : dec :=
  match side with
  | Sell => if dltb watermark mid then mid else watermark
  | Buy => if dltb mid watermark then mid else watermark
  end.

Definition trail_triggered (side : Side) (mid watermark trail : dec) : bool :=
  match side with
  | Sell => dleb mid (dsub watermark trail)
  | Buy => dleb (dadd watermark trail) mid
  end.

(** One arm of the loop: the order afterwards, and its action when it fires. *)
Definition order_tick (mid : dec) (now : Z) (id : EmulatorOrderId) (o : EmulatorOrder) :
    EmulatorOrder * option EmulatorAction :=
  match o with
  | StopMarket side trigger qty => (o, if stop_triggered side trigger mid then Some (PlaceMarket side qty id) else None)
  | StopLimit side trigger limit qty =>
      (o, if stop_triggered side trigger mid then Some (PlaceLimit side limit qty id) else None)
  | TrailingStop side trail qty watermark =>
      let watermark := trail_watermark side mid watermark in
      (TrailingStop side trail qty watermark,
       if trail_triggered side mid watermark trail then Some (PlaceMarket side qty id) else None)
  | OcoLeg side trigger qty _ => (o, if stop_triggered side trigger mid then Some (PlaceMarket side qty id) else None)
  | GtdCancel venue_order_id deadline =>
      (o, if (deadline <=? now)%Z then Some (CancelVenue venue_order_id id) else None)
  end.

Definition sibling_of (o : EmulatorOrder) : option EmulatorOrderId :=
  match o with OcoLeg _ _ _ sibling => Some sibling | _ => None end.

Record TickState := mkTickState {
  t_orders : gmap EmulatorOrderId EmulatorOrder;
  t_out : list EmulatorAction;
  t_triggered : list EmulatorOrderId;
  t_siblings : list EmulatorOrderId;
}.

Definition tick_order (mid : dec) (now : Z) (st : TickState) (x : EmulatorOrderId * EmulatorOrder) : TickState :=
  let '(id, o) := x in
  let '(o', action) := order_tick mid now id o in
  match action with
  | None => mkTickState (<[id := o']> (t_orders st)) (t_out st) (t_triggered st) (t_siblings st)
  | Some a => mkTickState (<[id := o']> (t_orders st)) (t_out st ++ [a]) (t_triggered st ++ [id])
                (t_siblings st ++ option_list (sibling_of o))
  end.

Definition remove_all (ids : list EmulatorOrderId) (m : gmap EmulatorOrderId EmulatorOrder) :
    gmap EmulatorOrderId EmulatorOrder :=
  fold_left (λ m id, delete id m) ids m.

Definition emulator_on_tick (mid : dec) (now : Z) (e : OrderEmulator) : list EmulatorAction * OrderEmulator :=
  let st := fold_left (tick_order mid now) (hm_iter (orders e)) (mkTickState (orders e) [] [] []) in
  (t_out st, mkEmulator (remove_all (t_siblings st) (remove_all (t_triggered st) (t_orders st))) (next_id e)).

(** ** Runs *)
Inductive EmulatorCall := CallRegister (o : EmulatorOrder) | CallCancel (id : EmulatorOrderId) | CallTick (mid : dec) (now : Z).

Definition emulator_call (c : EmulatorCall) (e : OrderEmulator) : list EmulatorAction * OrderEmulator :=
  match c with
  | CallRegister o => ([], (register o e).2)
  | CallCancel id => ([], cancel_emulated id e)
  | CallTick mid now => emulator_on_tick mid now e
  end.

Fixpoint emulator_run (cs : list EmulatorCall) (e : OrderEmulator) : list EmulatorAction * OrderEmulator :=
  match cs with
  | [] => ([], e)
  | c :: cs => let '(a, e) := emulator_call c e in let '(a', e) := emulator_run cs e in (a ++ a', e)
  end.
End Emulator.

(** ** What a tick does *)
Section Tick.
Context {D : Decimal} {I : HashMapIter} (mid : dec) (now : Z).
Implicit Types m : gmap EmulatorOrderId EmulatorOrder.
Abbreviation fires := (λ x : EmulatorOrderId * EmulatorOrder, (order_tick mid now x.1 x.2).2).
Abbreviation ticked := (λ (id : EmulatorOrderId) o, (order_tick mid now id o).1).

(** The actions of the orders that fire, and the legs their siblings cancel. *)
Definition tick_actions (l : list (EmulatorOrderId * EmulatorOrder)) : list EmulatorAction := omap fires l.
Definition fired_ids (l : list (EmulatorOrderId * EmulatorOrder)) : list EmulatorOrderId := action_id <$> tick_actions l.
Definition dropped_siblings (l : list (EmulatorOrderId * EmulatorOrder)) : list EmulatorOrderId :=
  omap (λ x, fires x ≫= λ _, sibling_of x.2) l.

Lemma fires_id id o a : (order_tick mid now id o).2 = Some a → action_id a = id.
Proof. intros H. destruct o; cbn in H; repeat case_match; by simplify_eq. Qed.

Lemma remove_all_lookup ids m id : remove_all ids m !! id = if decide (id ∈ ids) then None else m !! id.
Proof.
  unfold remove_all. revert m. induction ids as [|i ids IH]; intros m; [done|]. cbn. rewrite IH.
  destruct (decide (id ∈ ids)), (decide (id ∈ i :: ids)); try done; try set_solver.
  - assert (id = i) as -> by set_solver. by rewrite lookup_delete_eq.
  - rewrite lookup_delete_ne; [done|]. intros ->. set_solver.
Qed.

Lemma tick_fold l : NoDup l.*1 → ∀ st,
  let st' := fold_left (tick_order mid now) l st in
  t_out st' = t_out st ++ tick_actions l ∧ t_triggered st' = t_triggered st ++ fired_ids l ∧
  t_siblings st' = t_siblings st ++ dropped_siblings l ∧
  ∀ id, t_orders st' !! id = match list_to_map (M := gmap _ _) l !! id with
                             | Some o => Some (ticked id o) | None => t_orders st !! id end.
Proof.
  induction l as [|[id o] l IH]; intros Hnd st; cbn zeta.
  { cbn. rewrite !app_nil_r. done. }
  apply NoDup_cons in Hnd as [Hni Hnd]. cbn [fold_left]. specialize (IH Hnd (tick_order mid now st (id, o))).
  destruct IH as (E1 & E2 & E3 & E4). rewrite E1, E2, E3. unfold tick_order, tick_actions, fired_ids, dropped_siblings in *.
  rewrite list_to_map_cons. cbn [omap list_omap fst snd]. split; [|split; [|split]].
  - destruct (order_tick mid now id o) as [o' [a|]] eqn:Eo; cbn; rewrite ?Eo; cbn; by rewrite <- ?app_assoc, ?app_nil_r.
  - destruct (order_tick mid now id o) as [o' [a|]] eqn:Eo; cbn; rewrite ?Eo; cbn; rewrite <- ?app_assoc; [|done].
    by rewrite (fires_id id o a) by by rewrite Eo.
  - destruct (order_tick mid now id o) as [o' [a|]] eqn:Eo; cbn; rewrite ?Eo; cbn; rewrite <- ?app_assoc; [|done].
    by destruct (sibling_of o).
  - intros i. rewrite E4. destruct (decide (i = id)) as [->|Hne].
    + rewrite lookup_insert_eq, (proj1 (not_elem_of_list_to_map l id)) by done.
      destruct (order_tick mid now id o) as [o' [a|]]; cbn; by rewrite lookup_insert_eq.
    + rewrite lookup_insert_ne by done. destruct (list_to_map l !! i); [done|].
      destruct (order_tick mid now id o) as [o' [a|]]; cbn; by rewrite lookup_insert_ne.
Qed.

Lemma iter_map m : list_to_map (M := gmap _ _) (hm_iter m) = m.
Proof.
  rewrite <- (list_to_map_to_list m) at 2. apply list_to_map_proper; [apply hm_keys_NoDup | apply hm_iter_perm].
Qed.

(** The actions, and what is left of each order. *)
Lemma on_tick_spec e :
  (emulator_on_tick mid now e).1 = tick_actions (hm_iter (orders e)) ∧
  next_id (emulator_on_tick mid now e).2 = next_id e ∧
  ∀ id, orders (emulator_on_tick mid now e).2 !! id =
    if decide (id ∈ fired_ids (hm_iter (orders e)) ∨ id ∈ dropped_siblings (hm_iter (orders e))) then None
    else ticked id <$> orders e !! id.
Proof.
  unfold emulator_on_tick. cbn [fst snd orders next_id].
  destruct (tick_fold (hm_iter (orders e)) (hm_keys_NoDup (orders e)) (mkTickState (orders e) [] [] [])) as (-> & -> & -> & E).
  cbn [t_out t_triggered t_siblings app]. split; [done|]. split; [done|]. intros id.
  rewrite !remove_all_lookup, E, iter_map. cbn.
  set (xs := hm_iter (orders e)). repeat case_decide; try done; try tauto. by destruct (orders e !! id).
Qed.
End Tick.

(** ** No order fires twice *)
Section Once.
Context {D : Decimal} {I : HashMapIter}.

Definition ids_below (e : OrderEmulator) : Prop := ∀ id, is_Some (orders e !! id) → (1 ≤ id < next_id e)%Z.

Definition registers (cs : list EmulatorCall) : nat :=
  length (List.filter (λ c, match c with CallRegister _ => true | _ => false end) cs).

Lemma fired_ids_elem mid now m id : id ∈ fired_ids mid now (hm_iter m) ↔
  ∃ o a, m !! id = Some o ∧ (order_tick mid now id o).2 = Some a.
Proof.
  unfold fired_ids, tick_actions. rewrite list_elem_of_fmap. split.
  - intros (a & -> & ([i o] & Hin & Ha)%list_elem_of_omap). apply hm_iter_elem in Hin.
    cbn in Ha. rewrite (fires_id _ _ _ _ _ Ha). by exists o, a.
  - intros (o & a & Hm & Ha). exists a. split; [symmetry; by eapply fires_id|]. apply list_elem_of_omap.
    exists (id, o). split; [by apply hm_iter_elem|done].
Qed.

Lemma fired_ids_NoDup mid now (l : list (EmulatorOrderId * EmulatorOrder)) : NoDup l.*1 → NoDup (fired_ids mid now l).
Proof.
  unfold fired_ids, tick_actions. induction l as [|[id o] l IH]; [constructor|]. cbn [fmap list_fmap fst].
  intros [Hni Hnd]%NoDup_cons. cbn [omap list_omap fst snd].
  destruct (order_tick mid now id o) as [o' [a|]] eqn:E; cbn; [|by apply IH].
  apply NoDup_cons. split; [|by apply IH]. rewrite (fires_id mid now id o a) by by rewrite E.
  intros (b & -> & ([i o2] & Hin & Hb)%list_elem_of_omap)%list_elem_of_fmap. cbn in Hb.
  rewrite (fires_id _ _ _ _ _ Hb) in Hni. apply Hni. by apply (list_elem_of_fmap_2 fst) in Hin.
Qed.

(** What one call does to the ids: those it fires were live and no longer are,
    and only registering makes one live. *)
Lemma call_ids c e : ids_below e → (next_id e + 1 < 2 ^ 64)%Z → (1 ≤ next_id e)%Z →
  let r := emulator_call c e in
  ids_below r.2 ∧ next_id r.2 = (next_id e + Z.of_nat (registers [c]))%Z ∧ NoDup (action_id <$> r.1) ∧
  (∀ id, id ∈ action_id <$> r.1 → is_Some (orders e !! id) ∧ orders r.2 !! id = None) ∧
  (∀ id, (id < next_id e)%Z → orders e !! id = None → orders r.2 !! id = None).
Proof.
  intros Hb Hlt H1. destruct c as [o|i|mid now]; cbn zeta.
  - cbn. unfold wrap_u64. rewrite Z.mod_small by lia. split; [|split; [lia|split; [constructor|split]]].
    + intros id. cbn. destruct (decide (id = next_id e)) as [->|Hne]; [lia|].
      rewrite lookup_insert_ne by done. intros H%Hb. lia.
    + by intros id ?%elem_of_nil.
    + intros id Hid Hno. rewrite lookup_insert_ne; [done|lia].
  - cbn. split; [|split; [lia|split; [constructor|split]]].
    + intros id. cbn. rewrite lookup_delete_is_Some. intros [_ H%Hb]. done.
    + by intros id ?%elem_of_nil.
    + intros id _ Hno. by apply lookup_delete_None; right.
  - destruct (on_tick_spec mid now e) as (E1 & E2 & E3). cbn [emulator_call]. rewrite E1, E2.
    fold (fired_ids mid now (hm_iter (orders e))). split; [|split; [cbn; lia|split; [|split]]].
    + intros id. rewrite E3, E2. case_decide as Hdec; [by intros [? ?]|]. intros [? Ho]. apply Hb.
      by destruct (orders e !! id); [eexists|].
    + apply fired_ids_NoDup, hm_keys_NoDup.
    + intros id Hid. split; [|rewrite E3; by rewrite decide_True by by left].
      apply fired_ids_elem in Hid as (o & a & -> & _). by eexists.
    + intros id _ Hno. rewrite E3, Hno. by case_decide.
Qed.

(** Over any sequence of registrations, cancellations and ticks, in
    whatever order the map is walked, no emulated order acts twice, and none
    acts that was not registered. *)
Theorem fires_at_most_once cs : (Z.of_nat (registers cs) < 2 ^ 64 - 2)%Z →
  let actions := action_id <$> (emulator_run cs emulator_new).1 in
  NoDup actions ∧ ∀ id, id ∈ actions → (1 ≤ id ≤ Z.of_nat (registers cs))%Z.
Proof.
  assert (Hgen : ∀ cs e, ids_below e → (1 ≤ next_id e)%Z → (next_id e + Z.of_nat (registers cs) + 1 < 2 ^ 64)%Z →
    NoDup (action_id <$> (emulator_run cs e).1) ∧ ∀ id, id ∈ action_id <$> (emulator_run cs e).1 →
      (1 ≤ id < next_id e + Z.of_nat (registers cs))%Z ∧ ((id < next_id e)%Z → is_Some (orders e !! id))).
  { clear cs. induction cs as [|c cs IH]; intros e Hb H1 Hlt; [split; [constructor|by intros id ?%elem_of_nil]|].
    assert (Er : registers (c :: cs) = registers [c] + registers cs)
      by (unfold registers; cbn; by destruct c).
    destruct (call_ids c e Hb ltac:(lia) H1) as (Hb' & Hn & Hnd & Hlive & Hdead). cbn [emulator_run].
    destruct (emulator_call c e) as [a e']. cbn [fst snd] in *.
    destruct (IH e' Hb' ltac:(lia) ltac:(lia)) as [Hnd' Hin]. destruct (emulator_run cs e') as [a' e'']. cbn [fst] in *.
    rewrite fmap_app. split.
    - apply NoDup_app. split; [done|]. split; [|done]. intros id Hid Hid'. destruct (Hlive id Hid) as [Hs Hno].
      destruct (Hin id Hid') as [_ H]. rewrite Hno in H. destruct H as [? ?]; [|done]. apply Hb in Hs. lia.
    - intros id [Hid|Hid]%elem_of_app.
      + destruct (Hlive id Hid) as [Hs _]. split; [|done]. apply Hb in Hs. lia.
      + destruct (Hin id Hid) as [Hr Hs]. split; [lia|]. intros Hlt'. destruct (orders e !! id) eqn:E; [by eexists|].
        destruct Hs as [? Hs]; [lia|]. by rewrite (Hdead id Hlt' E) in Hs. }
  intros Hc. destruct (Hgen cs emulator_new) as [Hnd Hin]; [|cbn; lia..|].
  - intros id [? Ho]. cbn in Ho. by rewrite lookup_empty in Ho.
  - split; [done|]. intros id Hid. destruct (Hin id Hid) as [H _]. cbn in H. lia.
Qed.
End Once.

(** ** Trailing stops *)
Section Trailing.
Context {D : Decimal} {I : HashMapIter}.

(** The highest mid for a sell, the lowest for a buy, from the registered mark on. *)
Definition extreme (side : Side) (watermark : dec) (mids : list dec) : dec :=
  fold_left (λ w mid, trail_watermark side mid w) mids watermark.

Lemma extreme_elem side w ms : extreme side w ms ∈ w :: ms.
Proof.
  revert w. induction ms as [|m ms IH]; intros w; [by left|]. cbn [extreme fold_left].
  specialize (IH (trail_watermark side m w)). fold (extreme side (trail_watermark side m w) ms).
  apply elem_of_cons in IH as [->|H]; [|by right; right]. unfold trail_watermark. destruct side, (dltb _ _); set_solver.
Qed.

Lemma extreme_bound {L : DecimalLaws D} side w ms x : x ∈ w :: ms →
  match side with Sell => dle x (extreme side w ms) | Buy => dle (extreme side w ms) x end.
Proof.
  revert w x. induction ms as [|m ms IH]; intros w x Hx.
  { apply list_elem_of_singleton in Hx as ->. destruct side; apply dle_refl. }
  cbn [extreme fold_left]. fold (extreme side (trail_watermark side m w) ms). set (w' := trail_watermark side m w).
  assert (Hw : match side with Sell => dle w w' ∧ dle m w' | Buy => dle w' w ∧ dle w' m end).
  { unfold w', trail_watermark. destruct side; destruct (dltb _ _) eqn:E; dec_to_Q; split; lra. }
  assert (H' := IH w' w' ltac:(by left)).
  apply elem_of_cons in Hx as [->|[->|Hx]%elem_of_cons].
  - destruct side, Hw as [H1 _]; eapply dle_trans; eauto.
  - destruct side, Hw as [_ H1]; eapply dle_trans; eauto.
  - apply IH. by right.
Qed.

Definition no_sibling (id : EmulatorOrderId) (e : OrderEmulator) : Prop :=
  ∀ i o, orders e !! i = Some o → sibling_of o ≠ Some id.

Lemma tick_sibling mid now id o : sibling_of (order_tick mid now id o).1 = sibling_of o.
Proof. by destruct o. Qed.

Lemma tick_no_sibling mid now id e : no_sibling id e → no_sibling id (emulator_on_tick mid now e).2.
Proof.
  intros H i o. destruct (on_tick_spec mid now e) as (_ & _ & E). rewrite E. case_decide; [done|].
  intros (o' & Ho' & ->)%fmap_Some. rewrite tick_sibling. by eapply H.
Qed.

Lemma not_dropped mid now id e : no_sibling id e → id ∉ dropped_siblings mid now (hm_iter (orders e)).
Proof.
  intros H ([i o] & Hin & Hs)%list_elem_of_omap. cbn in Hs. destruct (order_tick mid now i o).2; [|done].
  apply hm_iter_elem in Hin. by apply (H i o Hin).
Qed.

(** A trailing stop that no bracket cancels acts exactly at the first tick
    whose mid has retraced from the best mid so far (the registered mark
    included) by the trail amount, whatever other orders are registered. *)
Theorem trailing_stop_exact e id side trail qty w ticks :
  orders e !! id = Some (TrailingStop side trail qty w) → no_sibling id e →
  id ∈ action_id <$> (emulator_run ((λ x, CallTick x.1 x.2) <$> ticks) e).1 ↔
  ∃ before mid after, ticks.*1 = before ++ mid :: after ∧
    trail_triggered side mid (extreme side w (before ++ [mid])) trail = true ∧
    extreme side w (before ++ [mid]) ∈ w :: before ++ [mid].
Proof.
  revert e w. induction ticks as [|[mid now] ticks IH]; intros e w Ho Hn; cbn [fmap list_fmap emulator_run fst snd].
  { split; [by intros ?%elem_of_nil|]. intros (b & m & a & E & _). by destruct b. }
  destruct (on_tick_spec mid now e) as (E1 & _ & E3). cbn [emulator_call].
  pose proof (tick_no_sibling mid now id e Hn) as Hn'. pose proof (not_dropped mid now id e Hn) as Hd.
  destruct (emulator_on_tick mid now e) as [a e']. cbn [fst snd] in *.
  destruct (emulator_run _ e') as [a' e''] eqn:Er. cbn [fst]. rewrite fmap_app, elem_of_app, E1.
  fold (fired_ids mid now (hm_iter (orders e))). rewrite fired_ids_elem, Ho. specialize (E3 id). rewrite Ho in E3.
  set (w' := trail_watermark side mid w) in *.
  destruct (trail_triggered side mid w' trail) eqn:Et.
  - split; [|intros _; left; eexists _, _; split; [done|]; cbn; fold w'; by rewrite Et].
    intros _. exists [], mid, ticks.*1. split; [done|]. cbn [app]. change (extreme side w [mid]) with w'.
    split; [done|]. apply (extreme_elem side w [mid]).
  - assert (Hnf : id ∉ fired_ids mid now (hm_iter (orders e))).
    { rewrite fired_ids_elem, Ho. intros (o & x & [= <-] & Hx). cbn in Hx. fold w' in Hx. by rewrite Et in Hx. }
    rewrite decide_False in E3 by tauto. cbn in E3. fold w' in E3.
    specialize (IH e' w' E3 Hn'). rewrite Er in IH. cbn [fst] in IH. rewrite IH. split.
    + intros [(o & x & [= <-] & Hx)|(b & m & af & -> & Hm & _)]; [cbn in Hx; fold w' in Hx; by rewrite Et in Hx|].
      exists (mid :: b), m, af. split; [done|]. split; [exact Hm|]. apply (extreme_elem side w (mid :: b ++ [m])).
    + intros (b & m & af & Eq & Hm & _). destruct b as [|m' b].
      { injection Eq as <- _. change (extreme side w ([] ++ [mid])) with w' in Hm. congruence. }
      injection Eq as <- Eq. right. exists b, m, af. split; [done|]. split; [exact Hm|]. apply extreme_elem.
Qed.
End Trailing.

(** The legs of a bracket whose triggers one tick crosses both act. *)
Example oco_double_fire :
  let '(_, e) := register (D := Qc_decimal) (OcoLeg Sell (dlit 90 0) (dlit 1 0) 2) emulator_new in
  let '(_, e) := register (OcoLeg Sell (dlit 80 0) (dlit 1 0) 1) e in
  length (emulator_on_tick (dlit 70 0) 0 e).1 = 2.
Proof. vm_compute. reflexivity. Qed.

Lemma trailing_stop_exact_witness :
  let e := (register (D := Qc_decimal) (TrailingStop Sell (dlit 5 0) (dlit 1 0) (dlit 100 0)) emulator_new).2 in
  1%Z ∈ action_id <$> (emulator_run ((λ x, CallTick x.1 x.2) <$> [(dlit 110 0, 0%Z); (dlit 106 0, 1%Z); (dlit 105 0, 2%Z)]) e).1.
Proof.
  cbn zeta. refine (proj2 (trailing_stop_exact _ 1 Sell (dlit 5 0) (dlit 1 0) (dlit 100 0) _ _ _) _).
  - vm_compute. reflexivity.
  - intros i o H. cbn in H. apply lookup_insert_Some in H as [[<- <-]|[_ H]]; [discriminate|]. by rewrite lookup_empty in H.
  - exists [dlit 110 0; dlit 106 0], (dlit 105 0), []. split; [reflexivity|]. split; [vm_compute; reflexivity|].
    apply extreme_elem.
Defined.

Lemma fires_at_most_once_witness :
  let cs := [CallRegister (D := Qc_decimal) (StopMarket Sell (dlit 90 0) (dlit 1 0)); CallTick (dlit 80 0) 0; CallTick (dlit 70 0) 1] in
  action_id <$> (emulator_run cs emulator_new).1 = [1%Z] ∧ NoDup (action_id <$> (emulator_run cs emulator_new).1).
Proof.
  cbn zeta. split; [vm_compute; reflexivity|]. refine (proj1 (fires_at_most_once _ _)). vm_compute. reflexivity.
Defined.
