(* ===== verification/Dca.v ===== *)
(** * Position schedules ([crates/risk/src/dca.rs])

    The slices that take a position to a target: a weight per slice, sizes
    rounded down to the lot with the residual on the last slice, and a
    reduce-only mark judged against the simulated position. Durations are
    nanoseconds; a product of a duration that overflows panics. *)
From stdpp Require Import base list strings.
From Stdlib Require Import ZArith QArith Qabs Lqa Lia.
From S2P Require Import Prelude Decimal Types KillSwitch.
Local Open Scope nat_scope.

Section Dca.
Context {D : Decimal}.

Inductive SizeCurve := Flat | Linear (slope : dec) | Accelerated.
Inductive SizeCurveSpec := SpecFlat | SpecLinear (slope : dec) | SpecAccelerated.

Definition curve_of_spec (s : SizeCurveSpec) : SizeCurve :=
  match s with SpecFlat => Flat | SpecLinear slope => Linear slope | SpecAccelerated => Accelerated end.

Record DcaRequest := mkDcaRequest {
  current : dec;
  target : dec;
  num_slices : nat;
  interval : Z;
  lot_size : dec;
  curve : SizeCurve;
}.

Record DcaSlice := mkDcaSlice { offset : Z; delta : dec; reduce_only : bool }.

Record DcaSpec := mkDcaSpec { spec_target : dec; spec_num_slices : nat; interval_secs : Z; spec_curve : SizeCurveSpec }.

Definition to_request (s : DcaSpec) (current lot_size : dec) : DcaRequest :=
  mkDcaRequest current (spec_target s) (spec_num_slices s) (interval_secs s * 10 ^ 9) lot_size
    (curve_of_spec (spec_curve s)).

Definition defaults_for_level (l : KillLevel) : nat * SizeCurve :=
  match l with
  | Normal => (10, Flat)
  | WidenSpreads => (6, Flat)
  | StopNewOrders => (5, Flat)
  | CancelAll => (5, Accelerated)
  | FlattenAll => (3, Accelerated)
  | Disconnect => (1, Flat)
  end.

Definition weight (c : SizeCurve) (i : nat) : dec :=
  match c with
  | Flat => dec1
  | Linear slope => dmax (dadd dec1 (dmul slope (dlit (Z.of_nat i) 0))) dec0
  | Accelerated => let k := dlit (Z.of_nat (i + 1)) 0 in dmul k k
  end.

Definition weights (req : DcaRequest) : list dec := weight (curve req) <$> seq 0 (num_slices req).

Definition slice_reduces_running_position (running d : dec) : bool :=
  if is_zero running then false
  else if Bool.eqb (dltb dec0 running) (dltb dec0 d) then false
  else dleb (dabs d) (dabs running).

(** [Duration * u32] *)
Definition duration_mul (d : Z) (k : Z) : outcome Z :=
  if (d * k <=? u64_max * 10 ^ 9 + 999999999)%Z then Done (d * k)%Z else Panicked.

(** One pass of the loop; [accounted] and [running] are its accumulators. *)
Fixpoint slices_from (req : DcaRequest) (sign total_abs weight_sum : dec) (i : nat) (ws : list dec)
    (accounted running : dec) : outcome (list DcaSlice) :=
  match ws with
  | [] => Done []
  | w :: ws =>
      let raw := ddiv (dmul total_abs w) weight_sum in
      let rounded := dmul (dfloor (ddiv raw (lot_size req))) (lot_size req) in
      let size := if i + 1 =? num_slices req then dsub total_abs accounted else rounded in
      let accounted := dadd accounted size in
      if dleb size dec0 then slices_from req sign total_abs weight_sum (S i) ws accounted running
      else
        let d := dmul sign size in
        let reduces := slice_reduces_running_position running d in
        match duration_mul (interval req) (wrap_u32 (Z.of_nat i)) with
        | Panicked => Panicked
        | Done off =>
            match slices_from req sign total_abs weight_sum (S i) ws accounted (dadd running d) with
            | Panicked => Panicked
            | Done rest => Done (mkDcaSlice off d reduces :: rest)
            end
        end
  end.

(** The two [assert!]s come first. *)
Definition dca_plan (req : DcaRequest) : outcome (list DcaSlice) :=
  if (num_slices req =? 0) || dleb (lot_size req) dec0 then Panicked
  else
    let total_delta := dsub (target req) (current req) in
    if is_zero total_delta then Done []
    else
      let sign := if dltb dec0 total_delta then dec1 else dneg dec1 in
      let weight_sum := dsum (weights req) in
      if dleb weight_sum dec0 then Done []
      else slices_from req sign (dabs total_delta) weight_sum 0 (weights req) dec0 (current req).
End Dca.

(** ** The schedule reaches the target *)
Section Reach.
Context {D : Decimal} {L : DecimalExact D}.

Definition deltas (l : list DcaSlice) : list dec := delta <$> l.

(** A signed step that moves a position toward zero and not past it. *)
Definition reduces (position step : Q) : Prop := (position * step < 0 ∧ Qabs step <= Qabs position)%Q.

#[local] Instance reduces_proper : Proper (Qeq ==> Qeq ==> iff) reduces.
Proof. intros p p' Hp d d' Hd. unfold reduces. by rewrite Hp, Hd. Qed.

Lemma reducing_spec running d : ¬ (dval d == 0)%Q →
  slice_reduces_running_position running d = true ↔ reduces (dval running) (dval d).
Proof.
  intros Hd. unfold slice_reduces_running_position, reduces. pose proof dec0_val as H0.
  destruct (is_zero running) eqn:Ez.
  { apply is_zero_val in Ez. split; [done|]. intros [H _]. rewrite Ez in H. lra. }
  apply is_zero_false in Ez.
  assert (Habs : dleb (dabs d) (dabs running) = true ↔ (Qabs (dval d) <= Qabs (dval running))%Q)
    by (rewrite dleb_le; unfold dle; by rewrite !dabs_val).
  rewrite <- Habs. destruct (dltb dec0 running) eqn:E1, (dltb dec0 d) eqn:E2; cbn [Bool.eqb]; dec_to_Q;
    rewrite H0 in *; split; try done; try (by intros [? _]; nra); try (by intros H; split; [nra|]); try (by intros [_ ?]).
Qed.

(** What the loop appends, from slice [i] on. *)
Record loop_spec (sign : dec) (rest : Q) (running : Q) (slices : list DcaSlice) : Prop := {
  lp_sum : (qsum (vals (deltas slices)) == dval sign * rest)%Q;
  lp_sign : Forall (λ s, (0 < dval sign * dval (delta s))%Q) slices;
  lp_reduce pre s post : slices = pre ++ s :: post →
    reduce_only s = true ↔ reduces (running + qsum (vals (deltas pre))) (dval (delta s));
}.

Lemma loop_cons sign rest running s slices size : (dval sign * dval sign == 1)%Q → (0 < dval size)%Q →
  delta s = dmul sign size → (reduce_only s = true ↔ reduces (dval running) (dval (delta s))) →
  loop_spec sign rest (dval (dadd running (delta s))) slices →
  loop_spec sign (rest + dval size) (dval running) (s :: slices).
Proof.
  intros Hsign Hsize Hd Hr [H1 H2 H3]. assert (Ed : (dval (delta s) == dval sign * dval size)%Q) by (rewrite Hd; apply dmul_exact).
  split.
  - cbn [deltas fmap list_fmap]. rewrite qsum_vals_cons. fold (deltas slices). rewrite H1, Ed. ring.
  - constructor; [|done]. rewrite Ed. nra.
  - intros [|s' pre] s1 post E.
    + injection E as <- <-. cbn. by rewrite Hr, Qplus_0_r.
    + injection E as <- E. rewrite (H3 pre s1 post E). cbn [deltas fmap list_fmap]. rewrite qsum_vals_cons.
      by rewrite dadd_exact, Qplus_assoc.
Qed.

Lemma loop_skip sign rest rest' running slices : (rest == rest')%Q →
  loop_spec sign rest running slices → loop_spec sign rest' running slices.
Proof. intros E [H1 H2 H3]. split; [by rewrite <- E|done..]. Qed.

Context (req : DcaRequest) (Hlot : (0 < dval (lot_size req))%Q) (Hn : 0 < num_slices req).
Context (Hint : (0 ≤ interval req)%Z) (Hfit : (interval req * Z.of_nat (num_slices req) ≤ u64_max * 10 ^ 9)%Z).
Context (Hsmall : (Z.of_nat (num_slices req) < 2 ^ 32)%Z).

Lemma offset_fits i : i < num_slices req → duration_mul (interval req) (wrap_u32 (Z.of_nat i)) = Done (interval req * Z.of_nat i)%Z.
Proof.
  intros Hi. unfold duration_mul. rewrite wrap_u32_id by (unfold is_u32, u32_max; lia).
  destruct (Z.leb_spec (interval req * Z.of_nat i) (u64_max * 10 ^ 9 + 999999999)); [done|nia].
Qed.

(** The loop returns; it appends slices for what is left of the total. *)
Lemma loop_reaches sign total wsum ws : (dval sign * dval sign == 1)%Q → (0 < dval wsum)%Q → (0 <= dval total)%Q →
  Forall (λ w, (0 <= dval w)%Q) ws → ∀ i accounted running,
  i + length ws = num_slices req → ws ≠ [] →
  (dval accounted + dval total * qsum (vals ws) / dval wsum <= dval total)%Q →
  ∃ slices, slices_from req sign total wsum i ws accounted running = Done slices ∧ length slices ≤ length ws ∧
    loop_spec sign (dval total - dval accounted) (dval running) slices.
Proof.
  intros Hsign Hw Ht. induction 1 as [|w ws Hw0 Hws IH]; intros i accounted running Hi Hne Hle; [done|].
  cbn [slices_from]. set (raw := ddiv (dmul total w) wsum).
  assert (Hraw : (dval raw == dval total * dval w / dval wsum)%Q) by (unfold raw; rewrite ddiv_exact, dmul_exact by lra; done).
  assert (Hraw0 : (0 <= dval raw)%Q) by (rewrite Hraw; apply Qle_shift_div_l; nra).
  pose proof (floor_lot_bounds raw (lot_size req) Hlot Hraw0) as [Hr0 Hr1].
  set (rounded := dmul _ (lot_size req)) in *. clearbody rounded raw.
  pose proof (qsum_nonneg ws Hws) as Hs0.
  assert (Hsplit : (dval total * qsum (vals (w :: ws)) / dval wsum == dval raw + dval total * qsum (vals ws) / dval wsum)%Q)
    by (rewrite qsum_vals_cons, Hraw; field; lra).
  assert (Htail : (0 <= dval total * qsum (vals ws) / dval wsum)%Q) by (apply Qle_shift_div_l; nra).
  set (size := if i + 1 =? num_slices req then dsub total accounted else rounded).
  assert (Hsize : (0 <= dval size)%Q).
  { unfold size. destruct (_ =? _); [rewrite dsub_exact|]; lra. }
  assert (Hrest : ∀ running', ∃ slices, slices_from req sign total wsum (S i) ws (dadd accounted size) running' = Done slices ∧
    length slices ≤ length ws ∧ loop_spec sign (dval total - dval accounted - dval size) (dval running') slices).
  { intros running'. destruct ws as [|w' ws'].
    - exists []. cbn. split; [done|]. split; [done|]. cbn in Hi. assert (Hsz : size = dsub total accounted)
        by (unfold size; by rewrite (proj2 (Nat.eqb_eq (i + 1) (num_slices req)) Hi)).
      split; [cbn; rewrite Hsz, dsub_exact; ring | constructor | by intros []].
    - destruct (IH (S i) (dadd accounted size) running') as (slices & E & Hl & Hspec); [cbn in *; lia|done| |].
      + cbn in Hi. assert (Hsz : size = rounded) by (unfold size; rewrite (proj2 (Nat.eqb_neq (i + 1) (num_slices req))); [done|lia]).
        rewrite Hsz, dadd_exact. lra.
      + exists slices. split; [done|]. split; [done|]. eapply loop_skip; [|exact Hspec]. rewrite dadd_exact. ring. }
  pose proof dec0_val as H0. destruct (dleb size dec0) eqn:Ez.
  - dec_to_Q. rewrite H0 in Ez. destruct (Hrest running) as (slices & -> & Hl & Hspec). exists slices. split; [done|].
    split; [cbn; lia|]. eapply loop_skip; [|exact Hspec]. lra.
  - dec_to_Q. rewrite H0 in Ez. cbn in Hi. rewrite offset_fits by lia.
    destruct (Hrest (dadd running (dmul sign size))) as (slices & -> & Hl & Hspec). eexists. split; [done|].
    split; [cbn; lia|]. eapply loop_skip; [|eapply (loop_cons sign _ running _ slices size); [done|exact Ez|done| |exact Hspec]];
      [ring|]. cbn [reduce_only delta]. apply reducing_spec. rewrite dmul_exact. nra.
Qed.

Lemma weight_nonneg c i : (Z.of_nat (i + 1) < 2 ^ 96)%Z → (0 <= dval (weight c i))%Q.
Proof.
  intros Hi. pose proof dec0_val. pose proof dec1_val. destruct c as [|slope|]; cbn [weight]; [lra| |].
  - pose proof (dmax_ge_r (dadd dec1 (dmul slope (dlit (Z.of_nat i) 0))) dec0) as Hm. unfold dle in Hm. lra.
  - rewrite dmul_exact. nra.
Qed.

Lemma weight_first c : (0 < dval (weight c 0))%Q.
Proof.
  pose proof dec1_val as H1. destruct c as [|slope|]; cbn [weight]; [lra| |].
  - assert (E : (dval (dadd dec1 (dmul slope (dlit (Z.of_nat 0) 0))) == 1)%Q)
      by (rewrite dadd_exact, dmul_exact, H1, dlit_int by done; cbn; ring).
    unfold dmax. destruct (dleb _ dec0) eqn:Ed; dec_to_Q; rewrite ?dec0_val in *; lra.
  - change (Z.of_nat (0 + 1)) with 1%Z. rewrite dmul_exact, dlit_int by done. reflexivity.
Qed.

Lemma weights_spec : Forall (λ w, (0 <= dval w)%Q) (weights req) ∧ (0 < qsum (vals (weights req)))%Q ∧
  length (weights req) = num_slices req ∧ weights req ≠ [].
Proof.
  assert (Hall : Forall (λ w, (0 <= dval w)%Q) (weights req)).
  { apply Forall_forall. intros w (i & -> & Hi)%list_elem_of_fmap. apply elem_of_seq in Hi. apply weight_nonneg. lia. }
  split; [done|]. unfold weights in *. destruct (num_slices req) as [|n] eqn:E; [lia|]. cbn [seq fmap list_fmap] in *.
  apply Forall_cons in Hall as [_ Hall]. rewrite qsum_vals_cons. pose proof (weight_first (curve req)).
  pose proof (qsum_nonneg _ Hall). split; [lra|]. split; [cbn; by rewrite length_fmap, length_seq|done].
Qed.

(** A schedule for a positive lot and at least one slice (whose last offset
    a duration can hold) is planned without a panic and takes the position to
    the target: the steps sum to exactly the difference, all in its direction,
    at most as many as requested, and a step is marked reduce-only exactly when
    it moves the position it will find toward zero and not past it. *)
Theorem dca_reaches_target : ∃ slices, dca_plan req = Done slices ∧ length slices ≤ num_slices req ∧
  (qsum (vals (deltas slices)) == dval (target req) - dval (current req))%Q ∧
  Forall (λ s, (0 < dval (delta s) * (dval (target req) - dval (current req)))%Q) slices ∧
  ∀ pre s post, slices = pre ++ s :: post →
    reduce_only s = true ↔ reduces (dval (current req) + qsum (vals (deltas pre))) (dval (delta s)).
Proof.
  unfold dca_plan. rewrite (proj2 (Nat.eqb_neq (num_slices req) 0)) by lia. pose proof dec0_val as H0. pose proof dec1_val as H1.
  assert (Hl : dleb (lot_size req) dec0 = false) by (dec_to_Q; lra). rewrite Hl. cbn [orb].
  set (total := dsub (target req) (current req)).
  assert (Htot : (dval total == dval (target req) - dval (current req))%Q) by apply dsub_exact.
  destruct (is_zero total) eqn:Ez.
  { apply is_zero_val in Ez. exists []. split; [done|]. split; [cbn; lia|]. split; [cbn; lra|]. split; [constructor|by intros []]. }
  apply is_zero_false in Ez. destruct weights_spec as (Hw & Hsum & Hlen & Hne).
  assert (Hws : dleb (dsum (weights req)) dec0 = false) by (dec_to_Q; rewrite dsum_val; lra). rewrite Hws.
  set (sign := if dltb dec0 total then dec1 else dneg dec1).
  assert (Hs : (dval sign * dval sign == 1)%Q ∧ (dval sign * dval (dabs total) == dval total)%Q ∧ (0 < dval sign * dval total)%Q).
  { unfold sign. rewrite dabs_val. destruct (dltb dec0 total) eqn:E; dec_to_Q; rewrite H0 in E.
    - rewrite H1, Qabs_pos by lra. split; [reflexivity|]. split; [ring|lra].
    - rewrite dneg_val, H1, Qabs_neg by lra. split; [reflexivity|]. split; [ring|lra]. }
  destruct Hs as (Hs1 & Hs2 & Hs3).
  assert (Habs : (0 <= dval (dabs total))%Q) by (rewrite dabs_val; apply Qabs_nonneg).
  destruct (loop_reaches sign (dabs total) (dsum (weights req)) (weights req) Hs1 ltac:(rewrite dsum_val; lra) Habs Hw
    0 dec0 (current req)) as (slices & -> & Hls & [E1 E2 E3]); [by rewrite Hlen|done| |].
  { rewrite dsum_val, H0. apply Qle_lteq. right. field. lra. }
  exists slices. split; [done|]. split; [lia|]. split; [rewrite E1, H0, <- Htot, <- Hs2; ring|]. split; [|done].
  eapply Forall_impl; [exact E2|]. intros s Hd. cbn in Hd |- *. rewrite <- Htot. clear -Hs1 Hs3 Hd. nra.
Qed.
End Reach.

(** From two to minus one in four slices. *)
Definition demo_dca : DcaRequest (D := Qc_decimal) :=
  mkDcaRequest (dlit 2 0) (dlit (-1) 0) 4 60000000000 (dlit 1 1) Accelerated.

Lemma dca_reaches_target_witness : ∃ slices, dca_plan demo_dca = Done slices ∧ length slices ≤ 4 ∧
  (qsum (vals (deltas slices)) == - (3))%Q ∧ last (reduce_only <$> slices) = Some false.
Proof.
  assert (Hl : match dca_plan demo_dca with Done l => last (reduce_only <$> l) | _ => None end = Some false) by (vm_compute; reflexivity).
  destruct (dca_reaches_target demo_dca) as (slices & E & Hn & Hs & _);
    [reflexivity | vm_compute; repeat constructor | discriminate | discriminate | reflexivity |].
  exists slices. rewrite E in Hl. split; [exact E|]. split; [exact Hn|]. split; [exact Hs | exact Hl].
Defined.
