(* ===== verification/Balance.v ===== *)
(** * The balance cache ([crates/engine/src/balance_cache.rs])

    Balances per asset and wallet as the venue last reported them, with the
    local reservations for pending orders. *)
From stdpp Require Import base gmap list strings.
From Stdlib Require Import ZArith QArith Qabs Qminmax Lqa Lia.
From S2P Require Import Prelude Decimal Types.
Local Open Scope nat_scope.

Section Balance.
Context {D : Decimal}.

Record AssetBalance := mkAssetBalance { total : dec; locked : dec; reserved : dec }.

(** [AssetBalance::available] *)
Definition asset_available (b : AssetBalance) : dec :=
  dmax (dsub (dsub (total b) (locked b)) (reserved b)) dec0.

Record BalanceCache := mkBalanceCache {
  balances : gmap (string * WalletType) AssetBalance;
  configured_wallet : WalletType;
  bc_paper_mode : bool;
}.

Definition new_for (wallet : WalletType) : BalanceCache := mkBalanceCache ∅ wallet false.
Definition new_paper_for (wallet : WalletType) : BalanceCache := mkBalanceCache ∅ wallet true.

Definition with_balances (m : gmap (string * WalletType) AssetBalance) (c : BalanceCache) : BalanceCache :=
  mkBalanceCache m (configured_wallet c) (bc_paper_mode c).

Definition update_balance (m : gmap (string * WalletType) AssetBalance) (b : Balance) :
    gmap (string * WalletType) AssetBalance :=
  let key := (b_asset b, b_wallet b) in
  let entry := default (mkAssetBalance dec0 dec0 dec0) (m !! key) in
  <[key := mkAssetBalance (b_total b) (b_locked b) (reserved entry)]> m.

Definition update_from_exchange (bs : list Balance) (c : BalanceCache) : BalanceCache :=
  with_balances (fold_left update_balance bs (balances c)) c.

Definition available_in (c : BalanceCache) (asset : string) (wallet : WalletType) : dec :=
  match balances c !! (asset, wallet) with Some b => asset_available b | None => dec0 end.
Definition available (c : BalanceCache) (asset : string) : dec := available_in c asset (configured_wallet c).

Definition total_in (c : BalanceCache) (asset : string) (wallet : WalletType) : dec :=
  match balances c !! (asset, wallet) with Some b => total b | None => dec0 end.

Definition can_afford_in (c : BalanceCache) (side : Side) (price qty : dec) (base quote : string)
    (wallet : WalletType) : bool :=
  if bc_paper_mode c then true
  else
    match side with
    | Buy => dleb (dmul price qty) (available_in c quote wallet)
    | Sell => dleb qty (available_in c base wallet)
    end.
Definition can_afford (c : BalanceCache) (side : Side) (price qty : dec) (base quote : string) : bool :=
  can_afford_in c side price qty base quote (configured_wallet c).

(** The asset an order spends and how much of it. *)
Definition spends (side : Side) (price qty : dec) (base quote : string) : string * dec :=
  match side with Buy => (quote, dmul price qty) | Sell => (base, qty) end.

Definition reserve_in (side : Side) (price qty : dec) (base quote : string) (wallet : WalletType)
    (c : BalanceCache) : bool * BalanceCache :=
  if bc_paper_mode c then (true, c)
  else
    let '(asset, amount) := spends side price qty base quote in
    match balances c !! (asset, wallet) with
    | Some b =>
        if dleb amount (asset_available b) then
          (true, with_balances (<[(asset, wallet) :=
            mkAssetBalance (total b) (locked b) (dadd (reserved b) amount)]> (balances c)) c)
        else (false, c)
    | None => (false, c)
    end.
Definition reserve (side : Side) (price qty : dec) (base quote : string) (c : BalanceCache) :=
  reserve_in side price qty base quote (configured_wallet c) c.

Definition release_in (side : Side) (price qty : dec) (base quote : string) (wallet : WalletType)
    (c : BalanceCache) : BalanceCache :=
  let '(asset, amount) := spends side price qty base quote in
  match balances c !! (asset, wallet) with
  | Some b =>
      with_balances (<[(asset, wallet) :=
        mkAssetBalance (total b) (locked b) (dmax (dsub (reserved b) amount) dec0)]> (balances c)) c
  | None => c
  end.
Definition release (side : Side) (price qty : dec) (base quote : string) (c : BalanceCache) :=
  release_in side price qty base quote (configured_wallet c) c.

Definition reset_reservations (c : BalanceCache) : BalanceCache :=
  with_balances ((λ b, mkAssetBalance (total b) (locked b) dec0) <$> balances c) c.
End Balance.

(** ** Order flow against the cache

    Amounts on a grid of [10 ^ -s], [s] at most 28 (the asset's smallest unit),
    small enough for the 96-bit coefficient: what the engine computes on them
    is then exact. *)
Section Facts.
Context {D : Decimal} {L : DecimalLaws D}.

Record OrderRef := mkOrderRef {
  o_side : Side;
  o_price : dec;
  o_qty : dec;
  o_base : string;
  o_quote : string;
  o_wallet : WalletType;
}.

Definition spends_of (o : OrderRef) : string * dec :=
  spends (o_side o) (o_price o) (o_qty o) (o_base o) (o_quote o).
Definition key_of (o : OrderRef) : string * WalletType := ((spends_of o).1, o_wallet o).
Definition reserve_order (o : OrderRef) : BalanceCache → bool * BalanceCache :=
  reserve_in (o_side o) (o_price o) (o_qty o) (o_base o) (o_quote o) (o_wallet o).
Definition release_order (o : OrderRef) : BalanceCache → BalanceCache :=
  release_in (o_side o) (o_price o) (o_qty o) (o_base o) (o_quote o) (o_wallet o).

Definition amount (o : OrderRef) : Q := dval (spends_of o).2.

(** Requests in order, each granted or refused. *)
Fixpoint reserve_all (os : list OrderRef) (c : BalanceCache) : list bool * BalanceCache :=
  match os with
  | [] => ([], c)
  | o :: os =>
      let '(ok, c) := reserve_order o c in
      let '(oks, c) := reserve_all os c in
      (ok :: oks, c)
  end.

(** The orders granted are released again, in order. *)
Fixpoint release_granted (os : list OrderRef) (oks : list bool) (c : BalanceCache) : BalanceCache :=
  match os, oks with
  | o :: os, ok :: oks => release_granted os oks (if ok : bool then release_order o c else c)
  | _, _ => c
  end.

(** The total granted on a balance. *)
Fixpoint granted (k : string * WalletType) (os : list OrderRef) (oks : list bool) : Q :=
  match os, oks with
  | o :: os, ok :: oks =>
      ((if ok && bool_decide (key_of o = k) then amount o else 0) + granted k os oks)%Q
  | _, _ => 0%Q
  end.

(** A balance whose figures are whole units of [10 ^ -s], with room for their
    sums and differences in the 96-bit coefficient. *)
Definition balance_ok (s : nat) (b : AssetBalance) : Prop :=
  gridded s (dval (total b)) ∧ gridded s (dval (locked b)) ∧ gridded s (dval (reserved b)) ∧
  (2 * (Qabs (dval (total b)) + Qabs (dval (locked b))) < room s)%Q ∧
  (2 * Qabs (dval (reserved b)) < room s)%Q.

(** The order spends a whole number of units, none or more. *)
Definition order_ok (s : nat) (o : OrderRef) : Prop := gridded s (amount o) ∧ (0 <= amount o)%Q.

Lemma dmax_0 a : (dval (dmax a dec0) == Qmax (dval a) 0)%Q.
Proof. by rewrite dmax_val, dec0_val. Qed.

Lemma Qabs_bounds q : (- Qabs q <= q <= Qabs q)%Q.
Proof. apply Qabs_case; intros; lra. Qed.

Lemma available_val s b : s ≤ 28 → balance_ok s b →
  (dval (asset_available b) == Qmax (dval (total b) - dval (locked b) - dval (reserved b)) 0)%Q.
Proof.
  intros Hs (Ht & Hl & Hr & Hb & Hb'). unfold asset_available. rewrite dmax_0.
  pose proof (Qabs_bounds (dval (total b))). pose proof (Qabs_bounds (dval (locked b))).
  pose proof (Qabs_bounds (dval (reserved b))). pose proof (Qabs_nonneg (dval (reserved b))).
  assert (E1 : (dval (dsub (total b) (locked b)) == dval (total b) - dval (locked b))%Q).
  { apply (gsub_val s); [done..|]. lra. }
  rewrite (gsub_val s); [by rewrite E1|done|rewrite E1; by apply gridded_sub|done|rewrite E1; lra].
Qed.

(** The balance an order reserved [x] on. *)
Definition reserves (b b1 : AssetBalance) (x : Q) : Prop :=
  total b1 = total b ∧ locked b1 = locked b ∧ (dval (reserved b1) == dval (reserved b) + x)%Q.

Lemma reserve_fits s b a : s ≤ 28 → balance_ok s b → gridded s (dval a) →
  (0 <= dval a <= dval (asset_available b))%Q →
  let b1 := mkAssetBalance (total b) (locked b) (dadd (reserved b) a) in
  reserves b b1 (dval a) ∧ balance_ok s b1.
Proof.
  intros Hs Hok Ha [Ha0 Hav]. rewrite (available_val s) in Hav by done. destruct Hok as (Ht & Hl & Hr & Hb & Hb').
  pose proof (Qabs_bounds (dval (total b))). pose proof (Qabs_bounds (dval (locked b))).
  pose proof (Qabs_bounds (dval (reserved b))).
  assert (Hsum : (- room s < 2 * (dval (reserved b) + dval a) < room s)%Q).
  { revert Hav. apply Q.max_case_strong; [by intros ?? ->|intros; lra..]. }
  assert (E1 : (dval (dadd (reserved b) a) == dval (reserved b) + dval a)%Q) by (apply (gadd_val s); [done..|lra]).
  unfold reserves, balance_ok. cbn [total locked reserved]. split_and!; try done.
  - rewrite E1. by apply gridded_add.
  - rewrite E1. apply Qabs_case; intros; lra.
Qed.

(** One request: what it does to each balance. *)
Lemma reserve_order_spec s o c ok c1 : s ≤ 28 → order_ok s o → bc_paper_mode c = false →
  reserve_order o c = (ok, c1) →
  bc_paper_mode c1 = false ∧
  ∀ k b, balances c !! k = Some b → balance_ok s b →
    let x := if ok && bool_decide (key_of o = k) then amount o else 0%Q in
    ∃ b1, balances c1 !! k = Some b1 ∧ reserves b b1 x ∧ balance_ok s b1 ∧
      (0 <= x <= dval (asset_available b))%Q.
Proof.
  unfold reserve_order, reserve_in, order_ok. intros Hs [Hog Ho] Hp. rewrite Hp. fold (spends_of o).
  assert (Hkey : key_of o = ((spends_of o).1, o_wallet o)) by done.
  assert (Ham : amount o = dval (spends_of o).2) by done.
  destruct (spends_of o) as [asset a]. cbn [fst snd] in Hkey, Ham. rewrite <- Hkey. rewrite Ham in *.
  assert (Hno : ∀ k b, balances c !! k = Some b → balance_ok s b →
    ∃ b1, balances c !! k = Some b1 ∧ reserves b b1 0 ∧ balance_ok s b1 ∧
      (0 <= 0 <= dval (asset_available b))%Q).
  { intros k b Hb Hok. exists b. rewrite (available_val s) by done. unfold reserves.
    split_and!; try done; [lra|apply Q.le_max_r]. }
  destruct (balances c !! key_of o) as [b0|] eqn:Eb; [|intros [= <- <-]; split; [done|]; intros; by apply Hno].
  destruct (dleb a (asset_available b0)) eqn:Ea; [|intros [= <- <-]; split; [done|]; intros; by apply Hno].
  intros [= <- <-]. split; [done|]. intros k b Hb Hok. cbn [balances with_balances andb].
  apply dleb_le in Ea. unfold dle in Ea.
  destruct (decide (key_of o = k)) as [<-|Hne].
  - rewrite lookup_insert_eq, bool_decide_eq_true_2 by done. assert (b0 = b) as -> by congruence.
    destruct (reserve_fits s b a Hs Hok Hog) as [? ?]; [done|]. eexists. by split_and!.
  - rewrite lookup_insert_ne, bool_decide_eq_false_2 by done. by apply Hno.
Qed.

Lemma release_order_spec s o c k b : s ≤ 28 → order_ok s o → balances c !! k = Some b → balance_ok s b →
  (bool_decide (key_of o = k) = true → amount o <= dval (reserved b))%Q →
  ∃ b1, balances (release_order o c) !! k = Some b1 ∧
    reserves b b1 (- if bool_decide (key_of o = k) then amount o else 0) ∧ balance_ok s b1.
Proof.
  unfold release_order, release_in, order_ok. intros Hs [Hog Ho]. fold (spends_of o).
  assert (Hkey : key_of o = ((spends_of o).1, o_wallet o)) by done.
  assert (Ham : amount o = dval (spends_of o).2) by done.
  destruct (spends_of o) as [asset a]. cbn [fst snd] in Hkey, Ham. rewrite <- Hkey. rewrite Ham in *.
  intros Hb Hok Hle. destruct (decide (key_of o = k)) as [<-|Hne].
  - rewrite Hb. cbn [balances with_balances]. rewrite lookup_insert_eq. rewrite bool_decide_eq_true_2 in * by done.
    specialize (Hle eq_refl). destruct Hok as (Ht & Hl & Hr & Hb1 & Hb2).
    pose proof (Qabs_bounds (dval (reserved b))).
    assert (E1 : (dval (dsub (reserved b) a) == dval (reserved b) - dval a)%Q) by (apply (gsub_val s); [done..|lra]).
    assert (E2 : (dval (dmax (dsub (reserved b) a) dec0) == dval (reserved b) - dval a)%Q).
    { rewrite dmax_0, E1, Q.max_l by lra. reflexivity. }
    eexists. split; [done|]. unfold reserves, balance_ok. cbn [total locked reserved].
    split_and!; try done; rewrite E2; [by apply gridded_sub|]. apply Qabs_case; intros; lra.
  - rewrite bool_decide_eq_false_2 by done. exists b. unfold reserves. split_and!; try done; [|lra].
    destruct (balances c !! key_of o); [|done]. cbn [balances with_balances]. by rewrite lookup_insert_ne.
Qed.

Lemma granted_nonneg s k os oks : Forall (order_ok s) os → (0 <= granted k os oks)%Q.
Proof.
  intros H. revert oks. induction H as [|o os [_ Ho] Hos IH]; intros oks; simpl; [lra|].
  destruct oks as [|ok oks]; [lra|]. specialize (IH oks). destruct (ok && _); lra.
Qed.

Lemma release_granted_spec s os : s ≤ 28 → Forall (order_ok s) os → ∀ oks c k b,
  balances c !! k = Some b → balance_ok s b → (granted k os oks <= dval (reserved b))%Q →
  ∃ b1, balances (release_granted os oks c) !! k = Some b1 ∧ reserves b b1 (- granted k os oks).
Proof.
  intros Hs. unfold reserves. induction 1 as [|o os Ho Hos IH]; intros oks c k b Hb Hok Hg.
  { exists b. simpl. split_and!; try done. lra. }
  destruct oks as [|ok oks]; simpl in *.
  { exists b. split_and!; try done. lra. }
  pose proof (granted_nonneg s k os oks Hos) as Hn. destruct ok; cbn [andb] in *.
  - destruct (release_order_spec s o c k b Hs Ho Hb Hok) as (b1 & Hb1 & (Ht & Hl & Hr) & Hok1).
    { intros E. rewrite E in Hg. lra. }
    destruct (IH oks (release_order o c) k b1 Hb1 Hok1) as (b2 & Hb2 & Ht2 & Hl2 & Hr2).
    { destruct (bool_decide _); lra. }
    exists b2. split_and!; [done|congruence..|]. destruct (bool_decide _); lra.
  - destruct (IH oks c k b Hb Hok) as (b2 & Hb2 & Ht2 & Hl2 & Hr2); [lra|].
    exists b2. split_and!; [done|congruence..|]. lra.
Qed.

Lemma reserve_all_spec s os oks c c' : s ≤ 28 → Forall (order_ok s) os → bc_paper_mode c = false →
  reserve_all os c = (oks, c') → ∀ k b, balances c !! k = Some b → balance_ok s b →
  (granted k os oks <= dval (asset_available b))%Q ∧
  ∃ b', balances c' !! k = Some b' ∧ reserves b b' (granted k os oks) ∧ balance_ok s b'.
Proof.
  intros Hs Hpos. revert c oks. induction Hpos as [|o os Ho Hos IH]; intros c oks Hlive H k b Hb Hok; simpl in H.
  { simplify_eq. simpl. rewrite (available_val s) by done. split; [apply Q.le_max_r|].
    exists b. unfold reserves. split_and!; try done. lra. }
  destruct (reserve_order o c) as [ok c1] eqn:Eo. destruct (reserve_all os c1) as [oks1 c2] eqn:Es.
  simplify_eq. destruct (reserve_order_spec s o c ok c1 Hs Ho Hlive Eo) as [Hlive1 Hspec].
  destruct (Hspec k b Hb Hok) as (b1 & Hb1 & (Ht & Hl & Hr) & Hok1 & Ha0 & Ha).
  destruct (IH c1 oks1 Hlive1 Es k b1 Hb1 Hok1) as (Hg & b2 & Hb2 & (Ht2 & Hl2 & Hr2) & Hok2). simpl.
  set (x := if ok && bool_decide (key_of o = k) then amount o else 0%Q) in *. split.
  - rewrite (available_val s) in Hg, Ha |- * by done. rewrite Ht, Hl, Hr in Hg.
    revert Hg Ha. apply Q.max_case_strong; [by intros ?? ->| |];
      apply Q.max_case_strong; try (by intros ?? ->); intros; lra.
  - exists b2. unfold reserves. split_and!; [done|congruence..| |done]. lra.
Qed.

(** C14: whatever reservations are requested, in amounts that are whole units
    of the balance ([10 ^ -s]; the amount of a buy is the product as the code
    computes it) and with the balance's figures below half the coefficient's
    range: those granted on it never add up to more than was available before
    the first, the reserved amount grows by exactly that sum while the venue's
    figures stay, and releasing the granted orders gives the reserved amount
    back. *)
Theorem reservations_within_funds s os c oks c' (Hs : s ≤ 28) (Hlive : bc_paper_mode c = false)
  (Hpos : Forall (order_ok s) os) (H : reserve_all os c = (oks, c')) k b
  (Hb : balances c !! k = Some b) (Hok : balance_ok s b) :
  (granted k os oks <= dval (asset_available b))%Q ∧
  ∃ b', balances c' !! k = Some b' ∧ total b' = total b ∧ locked b' = locked b ∧
    (dval (reserved b') == dval (reserved b) + granted k os oks)%Q ∧
    ((0 <= dval (reserved b))%Q → ∃ b'', balances (release_granted os oks c') !! k = Some b'' ∧
      total b'' = total b ∧ locked b'' = locked b ∧ (dval (reserved b'') == dval (reserved b))%Q).
Proof.
  destruct (reserve_all_spec s os oks c c' Hs Hpos Hlive H k b Hb Hok)
    as (Hg & b' & Hb' & (Ht & Hl & Hr) & Hok'). split; [done|]. exists b'. split_and!; try done. intros Hr0.
  destruct (release_granted_spec s os Hs Hpos oks c' k b' Hb' Hok') as (b2 & H2 & Ht2 & Hl2 & Hr2); [lra|].
  exists b2. split_and!; [done|congruence..|lra].
Qed.
End Facts.

(** ** Witnesses *)
Definition demo_cache : BalanceCache :=
  update_from_exchange [mkBalance "USDT" Spot (dlit 1000 0) dec0 (dlit 1000 0)] (new_for Spot).

(** 500 and 400 of 1000 are granted, the next 500 are not. *)
Lemma reservations_within_funds_witness :
  let os := (λ q, mkOrderRef Buy (dlit 100 0) (dlit q 0) "BTC" "USDT" Spot) <$> [5; 4; 5]%Z in
  let oks := (reserve_all os demo_cache).1 in
  oks = [true; true; false] ∧ (granted ("USDT"%string, Spot) os oks <= 1000)%Q.
Proof.
  intros os oks. split; [vm_compute; reflexivity|].
  destruct (reservations_within_funds 8 os demo_cache oks (reserve_all os demo_cache).2 ltac:(lia) eq_refl)
    with (k := ("USDT"%string, Spot)) (b := mkAssetBalance (dlit 1000 0) dec0 dec0) as [H _].
  - repeat constructor; try (vm_compute; discriminate);
      [exists 50000000000%Z|exists 40000000000%Z|exists 50000000000%Z]; vm_compute; reflexivity.
  - by apply surjective_pairing.
  - reflexivity.
  - unfold balance_ok. split_and!; [exists 100000000000%Z|exists 0%Z|exists 0%Z| |]; vm_compute; reflexivity.
  - eapply Qle_trans; [exact H|]. vm_compute. discriminate.
Defined.
