(* ===== verification/QuoteGate.v ===== *)
(** * The gates before quoting ([crates/engine/src/market_maker.rs], [refresh_quotes])

    A refresh scales the order size once, then consults, in this order, the protections, the emulated orders
    and scheduled slices, the client's loss circuit, the lifecycle, the
    stale-book watchdog, the kill switch, the margin projection, the circuit
    breaker with the risk gate, and the book itself, and quotes only when none
    stops it. A gate may act on the venue; [Effect] lists what it does there.
    Left out: the audit and incident records, the bundle sweeps, the periodic
    order-to-trade snapshot. The clocks are read once per refresh. *)
From stdpp Require Import base gmap list strings.
From Stdlib Require Import ZArith Lia.
From S2P Require Import Prelude Decimal Types KillSwitch OrderBook Inventory BookKeeper Risk MarginGuard Protections Emulator Dca.
Local Open Scope string_scope.
Local Open Scope nat_scope.
Local Open Scope list_scope.

Section Gate.
Context {D : Decimal} {C : Clock} {I : HashMapIter} (instant_floor : Z).

(** [EffCancelAll] is [cancel_all] followed by [reset_reservations]. *)
Inductive Effect :=
| EffEmulator (a : EmulatorAction)
| EffDca (s : DcaSlice)
| EffCancelAll.

Record Engine := mkEngine {
  eng_symbol : string;
  client_id : option string;
  eng_protections : option Protections;
  protections_last_kill_level : KillLevel;
  order_emulator : OrderEmulator;
  pending_dca : list DcaSlice;
  dca_started_at : option Z;
  per_client_trip_noted : bool;
  lifecycle_paused : bool;
  stale_book_paused : bool;
  kill_switch : KillSwitch;
  asset_class_level : option KillLevel;
  margin_guard : option MarginGuard;
  margin_leverage : Z;
  risk : Risk.Gate;
  book_keeper : BookKeeper;
  inventory_manager : InventoryManager;
  risk_config : RiskConfig;
  order_size : dec;
  eng_product : ProductSpec;
  auto_scaled_order_size : bool;
}.

(** What the refresh reads from outside: [Instant::now()] in nanoseconds, the
    wall clock, the profit tracker's total, the client circuit shared by the
    engines, and the venue's answer to a resync request. *)
Record RefreshInput := mkRefreshInput {
  at_ns : Z;
  at_utc : instant;
  total_equity_now : dec;
  circuit : option (gmap string ClientBook);
  resync_answer : option (list PriceLevel * list PriceLevel * Z);
}.

Definition upd_protections p (s : Engine) : Engine :=
  mkEngine (eng_symbol s) (client_id s) p (protections_last_kill_level s) (order_emulator s) (pending_dca s)
    (dca_started_at s) (per_client_trip_noted s) (lifecycle_paused s) (stale_book_paused s) (kill_switch s)
    (asset_class_level s) (margin_guard s) (margin_leverage s) (risk s) (book_keeper s) (inventory_manager s)
    (risk_config s) (order_size s) (eng_product s) (auto_scaled_order_size s).
Definition upd_emulator e (s : Engine) : Engine :=
  mkEngine (eng_symbol s) (client_id s) (eng_protections s) (protections_last_kill_level s) e (pending_dca s)
    (dca_started_at s) (per_client_trip_noted s) (lifecycle_paused s) (stale_book_paused s) (kill_switch s)
    (asset_class_level s) (margin_guard s) (margin_leverage s) (risk s) (book_keeper s) (inventory_manager s)
    (risk_config s) (order_size s) (eng_product s) (auto_scaled_order_size s).
Definition upd_dca l started (s : Engine) : Engine :=
  mkEngine (eng_symbol s) (client_id s) (eng_protections s) (protections_last_kill_level s) (order_emulator s) l
    started (per_client_trip_noted s) (lifecycle_paused s) (stale_book_paused s) (kill_switch s)
    (asset_class_level s) (margin_guard s) (margin_leverage s) (risk s) (book_keeper s) (inventory_manager s)
    (risk_config s) (order_size s) (eng_product s) (auto_scaled_order_size s).
Definition upd_client noted ks (s : Engine) : Engine :=
  mkEngine (eng_symbol s) (client_id s) (eng_protections s) (protections_last_kill_level s) (order_emulator s)
    (pending_dca s) (dca_started_at s) noted (lifecycle_paused s) (stale_book_paused s) ks
    (asset_class_level s) (margin_guard s) (margin_leverage s) (risk s) (book_keeper s) (inventory_manager s)
    (risk_config s) (order_size s) (eng_product s) (auto_scaled_order_size s).
Definition upd_stale b (s : Engine) : Engine :=
  mkEngine (eng_symbol s) (client_id s) (eng_protections s) (protections_last_kill_level s) (order_emulator s)
    (pending_dca s) (dca_started_at s) (per_client_trip_noted s) (lifecycle_paused s) b (kill_switch s)
    (asset_class_level s) (margin_guard s) (margin_leverage s) (risk s) (book_keeper s) (inventory_manager s)
    (risk_config s) (order_size s) (eng_product s) (auto_scaled_order_size s).
Definition upd_risk g (s : Engine) : Engine :=
  mkEngine (eng_symbol s) (client_id s) (eng_protections s) (protections_last_kill_level s) (order_emulator s)
    (pending_dca s) (dca_started_at s) (per_client_trip_noted s) (lifecycle_paused s) (stale_book_paused s)
    (kill_switch s) (asset_class_level s) (margin_guard s) (margin_leverage s) g (book_keeper s)
    (inventory_manager s) (risk_config s) (order_size s) (eng_product s) (auto_scaled_order_size s).
Definition upd_keeper k (s : Engine) : Engine :=
  mkEngine (eng_symbol s) (client_id s) (eng_protections s) (protections_last_kill_level s) (order_emulator s)
    (pending_dca s) (dca_started_at s) (per_client_trip_noted s) (lifecycle_paused s) (stale_book_paused s)
    (kill_switch s) (asset_class_level s) (margin_guard s) (margin_leverage s) (risk s) k
    (inventory_manager s) (risk_config s) (order_size s) (eng_product s) (auto_scaled_order_size s).
Definition upd_order_size size (s : Engine) : Engine :=
  mkEngine (eng_symbol s) (client_id s) (eng_protections s) (protections_last_kill_level s) (order_emulator s)
    (pending_dca s) (dca_started_at s) (per_client_trip_noted s) (lifecycle_paused s) (stale_book_paused s)
    (kill_switch s) (asset_class_level s) (margin_guard s) (margin_leverage s) (risk s) (book_keeper s)
    (inventory_manager s) (risk_config s) size (eng_product s) true.
Definition upd_last_level p l (s : Engine) : Engine :=
  mkEngine (eng_symbol s) (client_id s) p l (order_emulator s)
    (pending_dca s) (dca_started_at s) (per_client_trip_noted s) (lifecycle_paused s) (stale_book_paused s)
    (kill_switch s) (asset_class_level s) (margin_guard s) (margin_leverage s) (risk s) (book_keeper s)
    (inventory_manager s) (risk_config s) (order_size s) (eng_product s) (auto_scaled_order_size s).

(** A stage: what it does at the venue, the engine afterwards, and whether the
    refresh goes on. *)
Abbreviation Stage := (Engine → list Effect * Engine * bool).

Definition then_stage (a b : Stage) : Stage := λ s,
  match a s with
  | (out, s, false) => (out, s, false)
  | (out, s, true) => let '(out', s, go) := b s in (out ++ out', s, go)
  end.

Definition book_mid (s : Engine) : option dec := mid_price (book (book_keeper s)).

(** [Decimal::ceil] *)
Definition dceil (a : dec) : dec := dneg (dfloor (dneg a)).

(** Once, at the first mid price: an order size too small for the venue's
    minimum notional is raised to 1.2 times it, in whole lots. *)
Definition auto_scale_order_size (s : Engine) : Engine :=
  if auto_scaled_order_size s then s
  else
    match book_mid s with
    | None => s
    | Some mid =>
        if is_zero mid || is_zero (Types.min_notional (eng_product s)) then upd_order_size (order_size s) s
        else
          let current := order_size s in
          let wanted := dmul (Types.min_notional (eng_product s)) (dlit 12 1) in
          if dleb wanted (dmul current mid) then upd_order_size current s
          else
            let raw := ddiv wanted mid in
            let lot := dmax (Types.lot_size (eng_product s)) (dlit 1 8) in
            let rounded := if is_zero lot then raw else dmul (dceil (ddiv raw lot)) lot in
            upd_order_size (dmax rounded current) s
    end.
Definition scale_stage : Stage := λ s, ([], auto_scale_order_size s, true).

Context (x : RefreshInput).

Definition protections_stage : Stage := λ s,
  match eng_protections s with
  | None => ([], s, true)
  | Some p =>
      let p := protections_update_equity (eng_symbol s) (total_equity_now x) (at_ns x) p in
      ([], upd_protections (Some p) s, negb (status_is_locked (is_locked (eng_symbol s) (at_ns x) p)))
  end.

Definition emulator_stage : Stage := λ s,
  match book_mid s with
  | Some mid =>
      if decide (orders (order_emulator s) = ∅) then ([], s, true)
      else let '(actions, e) := emulator_on_tick mid (at_ns x) (order_emulator s) in
           (EffEmulator <$> actions, upd_emulator e s, true)
  | None => ([], s, true)
  end.

(** [dispatch_due_dca_slices]: the slices due from the front of the schedule. *)
Fixpoint due_slices (elapsed : Z) (l : list DcaSlice) : list DcaSlice * list DcaSlice :=
  match l with
  | s :: l' => if (elapsed <? offset s)%Z then ([], l)
               else let '(due, rest) := due_slices elapsed l' in (s :: due, rest)
  | [] => ([], [])
  end.

Definition dca_stage : Stage := λ s,
  match pending_dca s, dca_started_at s with
  | [], _ => ([], s, true)
  | _, None => ([], upd_dca [] None s, true)
  | l, Some started =>
      let '(due, rest) := due_slices (Z.max 0 (at_ns x - started)) l in
      (EffDca <$> due, upd_dca rest (match rest with [] => None | _ => Some started end) s, true)
  end.

Definition client_stage : Stage := λ s,
  match client_id s, circuit x with
  | Some c, Some m =>
      if client_is_tripped c m then
        if per_client_trip_noted s then ([], s, true)
        else ([], upd_client true (manual_trigger CancelAll "per-client loss circuit" (at_utc x) (kill_switch s)) s, true)
      else ([], if per_client_trip_noted s then upd_client false (kill_switch s) s else s, true)
  | _, _ => ([], s, true)
  end.

Definition lifecycle_stage : Stage := λ s, ([], s, negb (lifecycle_paused s)).

(** [last.elapsed().as_secs() >= stale_book_timeout_secs] *)
Definition watchdog_stale (s : Engine) : bool :=
  match last_update (book_keeper s) with
  | None => false
  | Some last => (stale_book_timeout_secs (risk_config s) <=? Z.max 0 (at_ns x - last) / 10 ^ 9)%Z
  end.

Definition stale_stage : Stage := λ s,
  match last_update (book_keeper s) with
  | None => ([], s, true)
  | Some _ =>
      if watchdog_stale s then
        if stale_book_paused s then ([], s, false) else ([EffCancelAll], upd_stale true s, false)
      else ([], upd_stale false s, true)
  end.

Definition kill_stage : Stage := λ s,
  if allow_new_orders (kill_switch s) then ([], s, true)
  else (if level_ltb (current_level (kill_switch s)) CancelAll then [] else [EffCancelAll], s, false).

Definition margin_stage : Stage := λ s,
  ([], s, match margin_guard s with
          | None => true
          | Some g => margin_gate (book_mid s) (order_size s) (margin_leverage s) g
          end).

Definition risk_stage : Stage := λ s,
  let '(r, g) := risk_gate (at_utc x) (risk_config s) (book (book_keeper s)) (inventory_manager s) (risk s) in
  match r with
  | SkipQuoting => ([], upd_risk g s, false)
  | CancelAllOrders => ([EffCancelAll], upd_risk g s, false)
  | Proceed => ([], upd_risk g s, true)
  end.

Definition ready_stage : Stage := λ s, ([], s, is_ready (book_keeper s)).

Definition resync_stage : Stage := λ s,
  if needs_resync (book_keeper s) then
    match resync_answer x with
    | Some (bids, asks, seq) =>
        ([], upd_keeper (on_event (at_ns x) (at_utc x) (BookSnapshot bids asks seq) (book_keeper s)).2 s, true)
    | None => ([], s, false)
    end
  else ([], s, true).

Definition mid_stage : Stage := λ s, ([], s, bool_decide (is_Some (book_mid s))).

Definition effective_kill_level (s : Engine) : KillLevel :=
  match asset_class_level s with
  | Some l => level_max (current_level (kill_switch s)) l
  | None => current_level (kill_switch s)
  end.

(** A rise of the effective level to a stop or more is a stop event. *)
Definition edge_stage : Stage := λ s,
  let l := effective_kill_level s in
  let rise := level_ltb (protections_last_kill_level s) l && negb (level_ltb l StopNewOrders) in
  ([], upd_last_level (if rise then record_stop instant_floor (eng_symbol s) (at_ns x) <$> eng_protections s
                       else eng_protections s) l s, true).

Definition book_stages : Stage :=
  then_stage ready_stage (then_stage resync_stage (then_stage mid_stage edge_stage)).

Definition refresh_gate : Stage :=
  then_stage scale_stage (then_stage protections_stage (then_stage emulator_stage (then_stage dca_stage
  (then_stage client_stage (then_stage lifecycle_stage (then_stage stale_stage (then_stage kill_stage
  (then_stage margin_stage (then_stage risk_stage book_stages))))))))).
End Gate.

(** ** When a refresh quotes *)
Section Quotes.
Context {D : Decimal} {C : Clock} {I : HashMapIter} (instant_floor : Z) (x : RefreshInput).
Implicit Types s : Engine.

Lemma then_stage_go (a b : Engine → list Effect * Engine * bool) s :
  (then_stage a b s).2 = (a s).2 && (b (a s).1.2).2.
Proof. unfold then_stage. destruct (a s) as [[out s'] []]; [|done]. cbn. by destruct (b s') as [[? ?] ?]. Qed.

(** What the gates up to the circuit breaker leave as it was. *)
Record frame s s' : Prop := {
  fr_lifecycle : lifecycle_paused s' = lifecycle_paused s;
  fr_keeper : book_keeper s' = book_keeper s;
  fr_config : risk_config s' = risk_config s;
  fr_guard : margin_guard s' = margin_guard s;
  fr_leverage : margin_leverage s' = margin_leverage s;
  fr_size : order_size s' = order_size s;
  fr_inventory : inventory_manager s' = inventory_manager s;
  fr_risk : risk s' = risk s;
}.

#[local] Instance frame_preorder : PreOrder frame.
Proof.
  split; [done|]. intros s1 s2 s3 [] []. split; etransitivity; eauto.
Qed.

Ltac stage_cases := repeat case_match; simplify_eq; done.

Lemma frame_protections s : frame s (protections_stage x s).1.2.
Proof. unfold protections_stage. stage_cases. Qed.
Lemma frame_emulator s : frame s (emulator_stage x s).1.2.
Proof. unfold emulator_stage. stage_cases. Qed.
Lemma frame_dca s : frame s (dca_stage x s).1.2.
Proof. unfold dca_stage. stage_cases. Qed.
Lemma frame_client s : frame s (client_stage x s).1.2.
Proof. unfold client_stage. stage_cases. Qed.
Lemma frame_stale s : frame s (stale_stage x s).1.2.
Proof. unfold stale_stage. stage_cases. Qed.

(** The scaling changes the order size only. *)
Lemma scale_keeps s : ∃ size scaled, auto_scale_order_size s =
  mkEngine (eng_symbol s) (client_id s) (eng_protections s) (protections_last_kill_level s) (order_emulator s)
    (pending_dca s) (dca_started_at s) (per_client_trip_noted s) (lifecycle_paused s) (stale_book_paused s)
    (kill_switch s) (asset_class_level s) (margin_guard s) (margin_leverage s) (risk s) (book_keeper s)
    (inventory_manager s) (risk_config s) size (eng_product s) scaled.
Proof.
  unfold auto_scale_order_size, upd_order_size. destruct s; cbn. repeat case_match; do 2 eexists; reflexivity.
Qed.

(** The stages before the client's circuit leave the kill switch alone. *)
Definition same_switch s s' : Prop :=
  kill_switch s' = kill_switch s ∧ client_id s' = client_id s ∧ per_client_trip_noted s' = per_client_trip_noted s.

#[local] Instance same_switch_preorder : PreOrder same_switch.
Proof.
  split; [done|]. intros s1 s2 s3 (?&?&?) (?&?&?). repeat split; congruence.
Qed.

Lemma switch_protections s : same_switch s (protections_stage x s).1.2.
Proof. unfold protections_stage, same_switch. stage_cases. Qed.
Lemma switch_emulator s : same_switch s (emulator_stage x s).1.2.
Proof. unfold emulator_stage, same_switch. stage_cases. Qed.
Lemma switch_dca s : same_switch s (dca_stage x s).1.2.
Proof. unfold dca_stage, same_switch. stage_cases. Qed.
Lemma switch_stale s : kill_switch (stale_stage x s).1.2 = kill_switch s.
Proof. unfold stale_stage. stage_cases. Qed.

(** The client's circuit is tripped and the engine has not acted on it yet. *)
Definition client_trips s : bool :=
  match client_id s, circuit x with
  | Some c, Some m => client_is_tripped c m && negb (per_client_trip_noted s)
  | _, _ => false
  end.

Lemma client_switch s : allow_new_orders (kill_switch (client_stage x s).1.2) =
  allow_new_orders (kill_switch s) && negb (client_trips s).
Proof.
  unfold client_stage, client_trips. destruct (client_id s) as [c|], (circuit x) as [m|]; cbn; rewrite ?andb_true_r; try done.
  destruct (client_is_tripped c m), (per_client_trip_noted s); cbn; rewrite ?andb_true_r, ?andb_false_r; done.
Qed.

Definition protections_hold s : bool :=
  match eng_protections s with
  | None => false
  | Some p => status_is_locked (is_locked (eng_symbol s) (at_ns x)
                (protections_update_equity (eng_symbol s) (total_equity_now x) (at_ns x) p))
  end.

Definition margin_allows s : bool :=
  match margin_guard s with
  | None => true
  | Some g => margin_gate (book_mid s) (order_size s) (margin_leverage s) g
  end.

Definition risk_proceeds s : bool :=
  match (risk_gate (at_utc x) (risk_config s) (book (book_keeper s)) (inventory_manager s) (risk s)).1 with
  | Proceed => true | _ => false end.

(** The book the refresh ends up with, when it gets one. *)
Definition synced_book s : option LocalOrderBook :=
  if needs_resync (book_keeper s) then
    (λ a, book (on_event (at_ns x) (at_utc x) (BookSnapshot a.1.1 a.1.2 a.2) (book_keeper s)).2) <$> resync_answer x
  else Some (book (book_keeper s)).

Lemma go_protections s : (protections_stage x s).2 = negb (protections_hold s).
Proof. unfold protections_stage, protections_hold. by destruct (eng_protections s). Qed.
Lemma go_emulator s : (emulator_stage x s).2 = true.
Proof. unfold emulator_stage. stage_cases. Qed.
Lemma go_dca s : (dca_stage x s).2 = true.
Proof. unfold dca_stage. stage_cases. Qed.
Lemma go_client s : (client_stage x s).2 = true.
Proof. unfold client_stage. stage_cases. Qed.
Lemma go_stale s : (stale_stage x s).2 = negb (watchdog_stale x s).
Proof. unfold stale_stage, watchdog_stale. repeat case_match; simplify_eq; done. Qed.
Lemma go_kill s : (kill_stage s).2 = allow_new_orders (kill_switch s).
Proof. unfold kill_stage. by destruct (allow_new_orders _). Qed.
Lemma kill_keeps s : (kill_stage s).1.2 = s.
Proof. unfold kill_stage. by destruct (allow_new_orders _). Qed.
Lemma go_risk s : (risk_stage x s).2 = risk_proceeds s.
Proof. unfold risk_stage, risk_proceeds. by destruct (risk_gate _ _ _ _ _) as [[] g]. Qed.
Lemma risk_keeps s : book_keeper (risk_stage x s).1.2 = book_keeper s.
Proof. unfold risk_stage. by destruct (risk_gate _ _ _ _ _) as [[] g]. Qed.

Lemma client_trips_same s s' : same_switch s s' → client_trips s' = client_trips s.
Proof. intros (_ & Hc & Hn). unfold client_trips. by rewrite Hc, Hn. Qed.

Lemma frame_watchdog s s' : frame s s' → watchdog_stale x s' = watchdog_stale x s.
Proof. intros []. unfold watchdog_stale. by rewrite fr_keeper0, fr_config0. Qed.
Lemma frame_margin s s' : frame s s' → margin_allows s' = margin_allows s.
Proof.
  intros []. unfold margin_allows, book_mid. rewrite fr_guard0.
  by rewrite fr_keeper0, fr_size0, fr_leverage0.
Qed.
Lemma frame_gate s s' : frame s s' → risk_proceeds s' = risk_proceeds s.
Proof. intros []. unfold risk_proceeds. by rewrite fr_keeper0, fr_config0, fr_inventory0, fr_risk0. Qed.
Lemma synced_same s s' : book_keeper s' = book_keeper s → synced_book s' = synced_book s.
Proof. intros E. unfold synced_book. by rewrite E. Qed.

(** The stages on the book, last of all. *)
Lemma go_book s :
  (book_stages instant_floor x s).2 = true ↔
  is_ready (book_keeper s) = true ∧ ∃ b, synced_book s = Some b ∧ is_Some (mid_price b).
Proof.
  unfold book_stages. rewrite !then_stage_go, !andb_true_iff. apply and_iff_compat_l. cbn.
  unfold resync_stage, synced_book, mid_stage. cbn. rewrite bool_decide_eq_true.
  destruct (needs_resync (book_keeper s)); [destruct (resync_answer x) as [[[bids asks] seq]|]|]; cbn; naive_solver.
Qed.

(** The gates after the order size was scaled. *)
Lemma gates_after_scaling s :
  (then_stage (protections_stage x) (then_stage (emulator_stage x) (then_stage (dca_stage x)
    (then_stage (client_stage x) (then_stage lifecycle_stage (then_stage (stale_stage x) (then_stage kill_stage
    (then_stage margin_stage (then_stage (risk_stage x) (book_stages instant_floor x))))))))) s).2 = true ↔
  protections_hold s = false ∧ client_trips s = false ∧ lifecycle_paused s = false ∧ watchdog_stale x s = false ∧
  allow_new_orders (kill_switch s) = true ∧ margin_allows s = true ∧ risk_proceeds s = true ∧
  is_ready (book_keeper s) = true ∧ ∃ b, synced_book s = Some b ∧ is_Some (mid_price b).
Proof.
  rewrite !then_stage_go, !andb_true_iff.
  rewrite go_protections, go_emulator, go_dca, go_client, go_stale, go_kill, kill_keeps, go_risk, go_book.
  set (s1 := (protections_stage x s).1.2). set (s2 := (emulator_stage x s1).1.2).
  set (s3 := (dca_stage x s2).1.2). set (s4 := (client_stage x s3).1.2).
  change (lifecycle_stage s4).1.2 with s4. change (lifecycle_stage s4).2 with (negb (lifecycle_paused s4)).
  set (s5 := (stale_stage x s4).1.2).
  change (margin_stage s5).1.2 with s5. change (margin_stage s5).2 with (margin_allows s5).
  assert (F4 : frame s s4) by (etransitivity; [apply frame_protections|]; etransitivity; [apply frame_emulator|];
    etransitivity; [apply frame_dca|apply frame_client]).
  assert (F5 : frame s s5) by (etransitivity; [exact F4|apply frame_stale]).
  assert (W3 : same_switch s s3) by (etransitivity; [apply switch_protections|]; etransitivity;
    [apply switch_emulator|apply switch_dca]).
  replace (kill_switch s5) with (kill_switch s4) by (symmetry; apply switch_stale).
  unfold s4 at 3. rewrite client_switch, (client_trips_same _ _ W3), (proj1 W3).
  rewrite (fr_lifecycle _ _ F4), (frame_watchdog _ _ F4), (frame_margin _ _ F5), (frame_gate _ _ F5).
  assert (K : book_keeper (risk_stage x s5).1.2 = book_keeper s) by (rewrite risk_keeps; apply (fr_keeper _ _ F5)).
  rewrite (synced_same _ _ K), K, andb_true_iff, !negb_true_iff. tauto.
Qed.

(** Nothing stops the refresh, for the engine [s] whose order size the margin
    projection of the refresh reads from [auto_scale_order_size s]. *)
Definition may_quote s : Prop :=
  protections_hold s = false ∧ lifecycle_paused s = false ∧ watchdog_stale x s = false ∧
  allow_new_orders (kill_switch s) = true ∧ margin_allows (auto_scale_order_size s) = true ∧ risk_proceeds s = true ∧
  is_ready (book_keeper s) = true ∧ ∃ b, synced_book s = Some b ∧ is_Some (mid_price b).

Lemma goes_on_iff s : (refresh_gate instant_floor x s).2 = true ↔ client_trips s = false ∧ may_quote s.
Proof.
  unfold refresh_gate. rewrite then_stage_go. change ((scale_stage s).2) with true. rewrite andb_true_l.
  change (scale_stage s).1.2 with (auto_scale_order_size s). rewrite gates_after_scaling. unfold may_quote.
  set (m := margin_allows (auto_scale_order_size s)). clearbody m. destruct (scale_keeps s) as (size & scaled & ->). destruct s.
  unfold protections_hold, client_trips, watchdog_stale, risk_proceeds, synced_book. cbn. tauto.
Qed.

(** The client's circuit is tripped. *)
Definition client_tripped s : bool :=
  match client_id s, circuit x with Some c, Some m => client_is_tripped c m | _, _ => false end.

(** A trip the engine has noted still holds its kill switch: nobody reset the
    switch before the client. *)
Definition trip_holds s : Prop :=
  client_tripped s = true → per_client_trip_noted s = true → allow_new_orders (kill_switch s) = false.


(** A pair held by the protections does nothing else on the refresh: the
    emulated stops do not fire, a slice that is due waits, and the cancels of
    the later stages are not sent either. *)
Lemma held_pair_does_nothing s : protections_hold s = true →
  ∃ p, refresh_gate instant_floor x s = ([], upd_protections (Some p) (auto_scale_order_size s), false).
Proof.
  unfold protections_hold, refresh_gate, scale_stage, protections_stage. cbn [then_stage].
  destruct (scale_keeps s) as (size & scaled & ->). unfold then_stage. cbn.
  destruct (eng_protections s) as [p|]; [|done]. intros ->. cbn. by eexists.
Qed.

(** Only the first refresh that sees the client's circuit tripped stops the
    quotes: once noted, a kill switch the operators reset quotes again, the
    circuit still tripped. *)
Lemma noted_trip_is_ignored s : per_client_trip_noted s = true → client_trips s = false.
Proof. intros E. unfold client_trips. rewrite E. by repeat case_match; rewrite ?andb_false_r. Qed.

End Quotes.

(** ** A refresh that quotes, and one the protections hold *)
Definition demo_product : ProductSpec (D := Qc_decimal) :=
  mkProductSpec "BTCUSDT" "BTC" "USDT" (dlit 1 2) (dlit 1 3) (dlit 10 0) dec0 dec0 Trading.

Definition demo_engine : Engine (D := Qc_decimal) :=
  mkEngine "BTCUSDT" (Some "acme") (Some (protections_new (mkProtectionsConfig (Some (mkStoplossConfig (60 * 10 ^ 9) 1 (300 * 10 ^ 9))) None None None)))
    Normal emulator_new [mkDcaSlice 0 (dlit 1 0) true; mkDcaSlice (30 * 10 ^ 9) (dlit 1 0) true] (Some 0%Z) true false false
    (KillSwitch.new KillSwitchConfig_default (sec 0)) (Some StopNewOrders) None 1
    (mkGate breaker_new (exposure_new dec0))
    (keeper_run [(0%Z, sec 0, BookSnapshot [lvl 9990 2] [lvl 10010 1] 7)] (keeper_new "BTCUSDT")) inventory_new
    demo_config (dlit 1 4) demo_product false.

(** At [t] seconds, the client's circuit being tripped. *)
Definition demo_refresh (t : Z) : RefreshInput (D := Qc_decimal) :=
  mkRefreshInput (t * 10 ^ 9) (sec t) dec0 (Some {[ "acme" := mkClientBook (Some dec0) ∅ true ]}) None.

(** The engine has noted the client's trip before, so it quotes; the level of
    the asset class counts as a stop, and five seconds later the protections
    hold the pair, its slice still pending. *)
Example quote_then_hold :
  let r := refresh_gate 0 (demo_refresh 1) demo_engine in
  r.2 = true ∧ length (r.1.1) = 1%nat ∧
  (refresh_gate 0 (demo_refresh 6) r.1.2).2 = false.
Proof. vm_compute. repeat split. Qed.

