(* ===== verification/Venues.v ===== *)
(** * What the order router knows of the venues ([crates/engine/src/sor])

    [cost.rs], [venue_state.rs] and [trade_rate.rs]: the state the engine keeps
    per venue, product and symbol, the snapshots it collects from it, the rate of
    the trades seen, and the cost of a leg. [sort_by_key] on a C-like enum sorts
    by its discriminant, [venue_ord] and [product_ord] here. *)
From stdpp Require Import base gmap sets list strings sorting.
From Stdlib Require Import ZArith QArith Lqa Lia.
From S2P Require Import Prelude Decimal Types.
Local Open Scope nat_scope.

(** ** [crates/exchange/core/src/connector.rs] *)
Inductive VenueId := Custom | Binance | Bybit | Okx | Kraken | Coinbase | HyperLiquid.

Inductive VenueProduct :=
| ProductSpot | LinearPerp | InversePerp | UsdMarginedFuture | CoinMarginedFuture | ProductOption.

Definition default_wallet (p : VenueProduct) : WalletType :=
  match p with
  | ProductSpot => Spot
  | LinearPerp | UsdMarginedFuture => UsdMarginedFutures
  | InversePerp | CoinMarginedFuture => CoinMarginedFutures
  | ProductOption => UsdMarginedFutures
  end.

Definition has_funding (p : VenueProduct) : bool :=
  match p with LinearPerp | InversePerp => true | _ => false end.

(** [as u8] *)
Definition venue_ord (v : VenueId) : Z :=
  match v with
  | Custom => 0 | Binance => 1 | Bybit => 2 | Okx => 3 | Kraken => 4 | Coinbase => 5 | HyperLiquid => 6
  end.
Definition product_ord (p : VenueProduct) : Z :=
  match p with
  | ProductSpot => 0 | LinearPerp => 1 | InversePerp => 2 | UsdMarginedFuture => 3 | CoinMarginedFuture => 4
  | ProductOption => 5
  end.

#[export] Instance VenueId_eq_dec : EqDecision VenueId.
Proof. solve_decision. Defined.
#[export] Instance VenueProduct_eq_dec : EqDecision VenueProduct.
Proof. solve_decision. Defined.

Definition venue_of_ord (z : Z) : option VenueId :=
  find (λ v, (venue_ord v =? z)%Z) [Custom; Binance; Bybit; Okx; Kraken; Coinbase; HyperLiquid].
Definition product_of_ord (z : Z) : option VenueProduct :=
  find (λ p, (product_ord p =? z)%Z)
    [ProductSpot; LinearPerp; InversePerp; UsdMarginedFuture; CoinMarginedFuture; ProductOption].

#[export] Instance VenueId_countable : Countable VenueId.
Proof. apply (inj_countable venue_ord venue_of_ord). by intros []. Defined.
#[export] Instance VenueProduct_countable : Countable VenueProduct.
Proof. apply (inj_countable product_ord product_of_ord). by intros []. Defined.

Section Venues.
Context {D : Decimal}.

(** ** [venue_state.rs] *)
Record VenueSnapshot := mkVenueSnapshot {
  vs_venue : VenueId;
  vs_symbol : string;
  available_qty : dec;
  rate_limit_remaining : Z;
  maker_fee_bps : dec;
  taker_fee_bps : dec;
  vs_best_bid : dec;
  vs_best_ask : dec;
  queue_wait_secs : dec;
  slippage_bps_per_unit : dec;
}.

Definition snapshot_mid (s : VenueSnapshot) : dec :=
  if is_zero (vs_best_bid s) || is_zero (vs_best_ask s) then dec0
  else ddiv (dadd (vs_best_bid s) (vs_best_ask s)) (dlit 2 0).

Definition is_available (s : VenueSnapshot) : bool :=
  dltb dec0 (available_qty s) && (0 <? rate_limit_remaining s)%Z.

Record VenueSeed := mkVenueSeed {
  seed_symbol : string;
  seed_product : ProductSpec;
  venue_product : VenueProduct;
  seed_available : dec;
  seed_queue_wait : dec;
  seed_best_bid : dec;
  seed_best_ask : dec;
}.

Definition seed_new (symbol : string) (product : ProductSpec) (available : dec) : VenueSeed :=
  mkVenueSeed symbol product ProductSpot available dec0 dec0 dec0.
Definition with_venue_product (p : VenueProduct) (s : VenueSeed) : VenueSeed :=
  mkVenueSeed (seed_symbol s) (seed_product s) p (seed_available s) (seed_queue_wait s) (seed_best_bid s) (seed_best_ask s).
Definition with_book (bid ask : dec) (s : VenueSeed) : VenueSeed :=
  mkVenueSeed (seed_symbol s) (seed_product s) (venue_product s) (seed_available s) (seed_queue_wait s) bid ask.
Definition with_fees (maker taker : dec) (s : VenueSeed) : VenueSeed :=
  let p := seed_product s in
  mkVenueSeed (seed_symbol s)
    (mkProductSpec (ps_symbol p) (base_asset p) (quote_asset p) (tick_size p) (lot_size p) (min_notional p) maker taker
      (trading_status p))
    (venue_product s) (seed_available s) (seed_queue_wait s) (seed_best_bid s) (seed_best_ask s).
Definition with_queue_wait (secs : dec) (s : VenueSeed) : VenueSeed :=
  mkVenueSeed (seed_symbol s) (seed_product s) (venue_product s) (seed_available s) secs (seed_best_bid s) (seed_best_ask s).

Definition VenueSlot : Type := VenueId * VenueProduct * string.
Definition VenueStateAggregator : Type := gmap VenueSlot VenueSeed.

Context {I : HashMapIter}.

Definition register_venue (venue : VenueId) (seed : VenueSeed) (a : VenueStateAggregator) : VenueStateAggregator :=
  <[(venue, venue_product seed, seed_symbol seed) := seed]> a.

Definition slots (a : VenueStateAggregator) : list VenueSlot := hm_keys a.

(** The first symbol of a venue in the order of strings. *)
Definition first_symbol_on (venue : VenueId) (a : VenueStateAggregator) : option string :=
  head (sort_by string_leb (omap (λ k, if decide (k.1.1 = venue) then Some k.2 else None) (slots a))).

Definition find_slot_key (venue : VenueId) (symbol : string) (a : VenueStateAggregator) : option VenueSlot :=
  head (sort_by (λ x y, (product_ord x.1.2 <=? product_ord y.1.2)%Z)
          (filter (λ k, k.1.1 = venue ∧ k.2 = symbol) (slots a))).

Definition update_seed_for (venue : VenueId) (symbol : string) (f : VenueSeed → VenueSeed) (a : VenueStateAggregator) :
    VenueStateAggregator :=
  match find_slot_key venue symbol a with Some key => alter f key a | None => a end.

Definition update_book_for venue symbol bid ask := update_seed_for venue symbol (with_book bid ask).
Definition update_fees_for venue symbol maker taker := update_seed_for venue symbol (with_fees maker taker).
Definition update_queue_wait_for venue symbol secs := update_seed_for venue symbol (with_queue_wait secs).
Definition update_book_for_slot (venue : VenueId) (p : VenueProduct) (symbol : string) (bid ask : dec)
    (a : VenueStateAggregator) : VenueStateAggregator :=
  alter (with_book bid ask) (venue, p, symbol) a.

Definition on_first_symbol (venue : VenueId) (f : string → VenueStateAggregator → VenueStateAggregator)
    (a : VenueStateAggregator) : VenueStateAggregator :=
  match first_symbol_on venue a with Some symbol => f symbol a | None => a end.

Definition update_book venue bid ask := on_first_symbol venue (λ symbol, update_book_for venue symbol bid ask).
Definition update_fees venue maker taker := on_first_symbol venue (λ symbol, update_fees_for venue symbol maker taker).
Definition update_queue_wait venue secs := on_first_symbol venue (λ symbol, update_queue_wait_for venue symbol secs).

Definition seed_for (venue : VenueId) (symbol : string) (a : VenueStateAggregator) : option VenueSeed :=
  key ← find_slot_key venue symbol a; a !! key.
Definition seed_for_slot (venue : VenueId) (p : VenueProduct) (symbol : string) (a : VenueStateAggregator) :
    option VenueSeed := a !! (venue, p, symbol).
Definition seed_of (venue : VenueId) (a : VenueStateAggregator) : option VenueSeed :=
  symbol ← first_symbol_on venue a; seed_for venue symbol a.

Definition slot_leb (x y : VenueSlot) : bool :=
  if (venue_ord x.1.1 =? venue_ord y.1.1)%Z then
    if (product_ord x.1.2 =? product_ord y.1.2)%Z then string_leb x.2 y.2
    else (product_ord x.1.2 <=? product_ord y.1.2)%Z
  else (venue_ord x.1.1 <=? venue_ord y.1.1)%Z.

Definition venue_slots (a : VenueStateAggregator) : list VenueSlot := sort_by slot_leb (slots a).
Definition venues (a : VenueStateAggregator) : list VenueId :=
  sort_by (λ x y, (venue_ord x <=? venue_ord y)%Z) (elements (list_to_set (C := gset VenueId) (slots a).*1.*1)).

(** Without a book the coefficient is zero. *)
Definition derive_slippage_coef (s : VenueSeed) : dec :=
  if dleb (seed_best_bid s) dec0 || dleb (seed_best_ask s) dec0 then dec0
  else if dleb (seed_available s) dec0 then dec0
  else
    let mid := ddiv (dadd (seed_best_bid s) (seed_best_ask s)) (dlit 2 0) in
    if dleb mid dec0 then dec0
    else ddiv (dmul (ddiv (dsub (seed_best_ask s) (seed_best_bid s)) mid) (dlit 10000 0)) (seed_available s).

Definition snapshot_from_seed (venue : VenueId) (s : VenueSeed) (remaining : Z) : VenueSnapshot :=
  mkVenueSnapshot venue (seed_symbol s) (seed_available s) remaining
    (dmul (maker_fee (seed_product s)) (dlit 10000 0)) (dmul (taker_fee (seed_product s)) (dlit 10000 0))
    (seed_best_bid s) (seed_best_ask s) (seed_queue_wait s) (derive_slippage_coef s).

(** One pass per connector, given its venue, its product and what
    [rate_limit_remaining] answers. *)
Definition collect (connectors : list (VenueId * VenueProduct * Z)) (a : VenueStateAggregator) : list VenueSnapshot :=
  c ← connectors;
  omap (λ x, if decide (x.1.1.1 = c.1.1 ∧ x.1.1.2 = c.1.2) then Some (snapshot_from_seed c.1.1 x.2 c.2) else None)
    (hm_iter a).
End Venues.

(** ** [trade_rate.rs] *)
Section TradeRate.
Context {D : Decimal}.

Definition MIN_SAMPLES : nat := 5.

Record TradeRateEstimator := mkTradeRate { window_ns : Z; samples : list (Z * dec); total_qty : dec }.

Definition trade_rate_new (window_secs : Z) : TradeRateEstimator :=
  mkTradeRate (wrap_i64 (wrap_i64 (Z.max window_secs 1) * 1000000000)) [] dec0.

Fixpoint prune_samples (window now_ns : Z) (l : list (Z * dec)) (total : dec) : list (Z * dec) * dec :=
  match l with
  | [] => ([], total)
  | (ts, qty) :: l' =>
      if (now_ns - ts <=? window)%Z then (l, total) else prune_samples window now_ns l' (dsub total qty)
  end.

Definition rate_prune (now_ns : Z) (e : TradeRateEstimator) : TradeRateEstimator :=
  let '(l, total) := prune_samples (window_ns e) now_ns (samples e) (total_qty e) in
  mkTradeRate (window_ns e) l (if dltb total dec0 then dec0 else total).

Definition rate_record (now_ns : Z) (qty : dec) (e : TradeRateEstimator) : TradeRateEstimator :=
  rate_prune now_ns (mkTradeRate (window_ns e) (samples e ++ [(now_ns, qty)]) (dadd (total_qty e) qty)).

Definition rate_per_sec (now_ns : Z) (e : TradeRateEstimator) : option dec * TradeRateEstimator :=
  let e := rate_prune now_ns e in
  if length (samples e) <? MIN_SAMPLES then (None, e)
  else
    let window_secs := dlit (Z.quot (window_ns e) 1000000000) 0 in
    if dleb window_secs dec0 then (None, e) else (Some (ddiv (total_qty e) window_secs), e).

Definition expected_queue_wait_secs (now_ns : Z) (depth_qty : dec) (e : TradeRateEstimator) :
    option dec * TradeRateEstimator :=
  match rate_per_sec now_ns e with
  | (None, e) => (None, e)
  | (Some rate, e) => (if dleb rate dec0 then None else Some (ddiv (dabs depth_qty) rate), e)
  end.
End TradeRate.

(** ** [cost.rs] *)
Section Cost.
Context {D : Decimal}.

Record RouteCost := mkRouteCost {
  rc_venue : VenueId;
  taker_cost_bps : dec;
  maker_cost_bps : dec;
  effective_cost_bps : dec;
}.

Record VenueCostModel := mkCostModel { queue_wait_bps_per_sec : dec }.

Definition cost_model_new (bps : dec) : VenueCostModel := mkCostModel (dmax bps dec0).
Definition default_v1 : VenueCostModel := cost_model_new dec1.

Definition clamp_urgency (u : dec) : dec := dmin (dmax u dec0) dec1.

Definition price (m : VenueCostModel) (s : VenueSnapshot) (side : Side) (urgency : dec) : RouteCost :=
  let urgency := clamp_urgency urgency in
  let taker := taker_fee_bps s in
  let maker := dadd (maker_fee_bps s) (dmul (queue_wait_bps_per_sec m) (queue_wait_secs s)) in
  mkRouteCost (vs_venue s) taker maker (dadd (dmul urgency taker) (dmul (dsub dec1 urgency) maker)).
End Cost.

(** ** The trade rate is the volume of the window over its length *)
Section RateFacts.
Context {D : Decimal} {L : DecimalExact D}.

Definition volume (l : list (Z * dec)) : Q := qsum (vals l.*2).
Definition within (window now : Z) (l : list (Z * dec)) : list (Z * dec) := List.filter (λ x, (now - x.1 <=? window)%Z) l.
Definition time_order (l : list (Z * dec)) : Prop := StronglySorted (λ x y, (x.1 ≤ y.1)%Z) l.
Definition nonneg_volumes (l : list (Z * dec)) : Prop := Forall (λ x, 0 <= dval x.2)%Q l.

Lemma volume_nonneg l : nonneg_volumes l → (0 <= volume l)%Q.
Proof. intros H. unfold volume. apply qsum_nonneg. by apply Forall_fmap. Qed.

Lemma within_all window now l : Forall (λ x, (now - x.1 ≤ window)%Z) l → within window now l = l.
Proof.
  unfold within. induction 1 as [|x l Hx _ IH]; [done|]. cbn [List.filter].
  rewrite (proj2 (Z.leb_le _ _) Hx). by rewrite IH.
Qed.

Lemma within_twice window t now l : (t ≤ now)%Z → within window now (within window t l) = within window now l.
Proof.
  intros Ht. unfold within. induction l as [|x l IH]; [done|]. cbn [List.filter].
  destruct (t - x.1 <=? window)%Z eqn:E; cbn [List.filter].
  - by rewrite IH.
  - rewrite IH. apply Z.leb_gt in E. by rewrite (proj2 (Z.leb_gt (now - x.1) window)) by lia.
Qed.

Lemma prune_samples_spec window now l : time_order l → ∀ total, (dval total == volume l)%Q →
  (prune_samples window now l total).1 = within window now l ∧
  (dval (prune_samples window now l total).2 == volume (within window now l))%Q.
Proof.
  induction 1 as [|[ts q] l Hs IH Hl]; intros total Ht; cbn [prune_samples]; [done|].
  destruct (now - ts <=? window)%Z eqn:E.
  - apply Z.leb_le in E. rewrite within_all; [done|]. constructor; [done|]. eapply Forall_impl; [exact Hl|].
    cbn. intros x Hx. lia.
  - unfold within. cbn [List.filter fst]. rewrite E. apply IH. rewrite dsub_exact, Ht. unfold volume. cbn [fmap list_fmap snd].
    rewrite qsum_vals_cons. cbn. ring.
Qed.

Lemma wrap_i64_id z : (- 2 ^ 63 ≤ z < 2 ^ 63)%Z → wrap_i64 z = z.
Proof. intros H. unfold wrap_i64. rewrite Z.mod_small; lia. Qed.

Lemma trade_rate_window window_secs : (window_secs < 2 ^ 33)%Z →
  trade_rate_new window_secs = mkTradeRate (Z.max window_secs 1 * 1000000000) [] dec0.
Proof. intros H. unfold trade_rate_new. by rewrite !wrap_i64_id by (rewrite ?wrap_i64_id by lia; lia). Qed.

(** The samples kept at any time, and their total. *)
Definition rate_state (window_secs : Z) (hist : list (Z * dec)) (now : Z) (e : TradeRateEstimator) : Prop :=
  window_ns e = (Z.max window_secs 1 * 1000000000)%Z ∧ samples e = within (window_ns e) now hist ∧
  (dval (total_qty e) == volume (samples e))%Q.

Lemma time_order_within window now l : time_order l → time_order (within window now l).
Proof.
  unfold within. induction 1 as [|x l Hs IH Hl]; [constructor|]. cbn [List.filter]. destruct (_ <=? _)%Z; [|done].
  constructor; [done|]. apply Forall_forall. intros y Hy. apply list_elem_of_In, filter_In in Hy as [Hy _].
  rewrite Forall_forall in Hl. by apply Hl, list_elem_of_In.
Qed.
Lemma nonneg_within window now l : nonneg_volumes l → nonneg_volumes (within window now l).
Proof.
  unfold within, nonneg_volumes. induction 1 as [|x l Hx _ IH]; [constructor|]. cbn [List.filter].
  destruct (_ <=? _)%Z; [by constructor|done].
Qed.

Lemma rate_prune_state window_secs hist t now e : time_order hist → nonneg_volumes hist → (t ≤ now)%Z →
  rate_state window_secs hist t e → rate_state window_secs hist now (rate_prune now e).
Proof.
  intros Hs Hn Hle (Hw & He & Ht). unfold rate_prune.
  destruct (prune_samples_spec (window_ns e) now (samples e) ltac:(rewrite He; by apply time_order_within) (total_qty e) Ht) as [E1 E2].
  destruct (prune_samples _ _ _ _) as [l total]. cbn in E1, E2. subst l. rewrite He, within_twice in * by done.
  split; [exact Hw|]. split; [done|]. cbn [total_qty samples]. pose proof dec0_val as H0.
  pose proof (volume_nonneg _ (nonneg_within (window_ns e) now hist Hn)). destruct (dltb total dec0) eqn:E; dec_to_Q; lra.
Qed.

Lemma volume_app l1 l2 : (volume (l1 ++ l2) == volume l1 + volume l2)%Q.
Proof. unfold volume, vals. rewrite fmap_app, fmap_app. apply qsum_app. Qed.

Lemma record_state window_secs hist t x e : time_order (hist ++ [x]) → nonneg_volumes (hist ++ [x]) → (t ≤ x.1)%Z →
  rate_state window_secs hist t e → rate_state window_secs (hist ++ [x]) x.1 (rate_record x.1 x.2 e).
Proof.
  intros Hs Hn Hle (Hw & He & Ht). apply (rate_prune_state _ _ t); [done..|]. split; [done|]. cbn [window_ns samples total_qty].
  split.
  - unfold within. rewrite List.filter_app, He. cbn [List.filter]. rewrite (proj2 (Z.leb_le _ _)) by lia. by destruct x.
  - rewrite dadd_exact, volume_app, Ht. unfold volume at 3. cbn. ring.
Qed.

Lemma recorded_state window_secs hist : (window_secs < 2 ^ 33)%Z → ∀ now, time_order hist → nonneg_volumes hist → Forall (λ x, (x.1 ≤ now)%Z) hist →
  ∃ t, (t ≤ now)%Z ∧ rate_state window_secs hist t (fold_left (λ e x, rate_record x.1 x.2 e) hist (trade_rate_new window_secs)).
Proof.
  intros Hw. induction hist as [|x hist IH] using rev_ind; intros now Hs Hn Hnow.
  { exists now. rewrite trade_rate_window by done. split; [done|]. split; [done|]. split; [done|]. cbn. apply dec0_val. }
  apply Forall_app in Hnow as [_ Hx]. apply Forall_inv in Hx. pose proof Hn as [Hn' _]%Forall_app.
  destruct (IH x.1 (StronglySorted_app_1_l _ _ _ Hs) Hn') as (t & Hle & Ht).
  { apply Forall_forall. intros y Hy. apply (StronglySorted_app_1_elem_of _ _ _ y x Hs); [done|by left]. }
  exists x.1. split; [done|]. rewrite fold_left_app. by apply (record_state _ _ t).
Qed.

(** After trades recorded in the order of time, an estimator with at least five
    of them in its window gives their volume over the window's seconds, which a
    decimal holds. *)
Lemma rate_is_windowed_volume window_secs hist now :
  time_order hist → nonneg_volumes hist → Forall (λ x, (x.1 ≤ now)%Z) hist → (window_secs < 2 ^ 33)%Z →
  let e := fold_left (λ e x, rate_record x.1 x.2 e) hist (trade_rate_new window_secs) in
  let recent := within (Z.max window_secs 1 * 1000000000) now hist in
  match (rate_per_sec now e).1 with
  | Some r => 5 ≤ length recent ∧ (dval r == volume recent / inject_Z (Z.max window_secs 1))%Q
  | None => length recent < 5
  end.
Proof.
  intros Hs Hn Hnow Hbig e recent. destruct (recorded_state window_secs hist Hbig now Hs Hn Hnow) as (t & Ht & He).
  fold e in He. destruct (rate_prune_state _ _ t now e Hs Hn Ht He) as (Hw & Hsm & Htot).
  unfold rate_per_sec. set (e' := rate_prune now e) in *. rewrite Hw in Hsm. fold recent in Hsm.
  assert (Hq : Z.quot (window_ns e') 1000000000 = Z.max window_secs 1) by (rewrite Hw; apply Z.quot_mul; lia).
  assert (Hv : (dval (dlit (Z.max window_secs 1) 0) == inject_Z (Z.max window_secs 1))%Q) by (apply dlit_int; lia).
  assert (Hpos : (0 < inject_Z (Z.max window_secs 1))%Q) by (unfold Qlt; cbn; lia).
  destruct (Nat.ltb_spec (length (samples e')) MIN_SAMPLES) as [Hlt|Hge]; unfold MIN_SAMPLES in *; [by rewrite Hsm in Hlt|].
  rewrite Hq. pose proof dec0_val. destruct (dleb _ dec0) eqn:E; [exfalso; dec_to_Q; lra|]. cbn [fst].
  split; [by rewrite <- Hsm|]. by rewrite ddiv_exact, Hv, Htot, Hsm by lra.
Qed.
End RateFacts.
