(* ===== verification/Router.v ===== *)
(** * The order router ([crates/engine/src/sor/router.rs], [dispatch.rs])

    Both routers over the snapshots of [Venues]: the greedy one, whose split is
    shown to be the cheapest there is at constant unit costs, and the
    water-filling one, whose split at a multiplier is, in ideal arithmetic, the
    cheapest of its total under quadratic slippage. The dispatch of the legs takes the connectors'
    answers as functions on a world of their own. *)
From stdpp Require Import base gmap sets list strings sorting.
From Stdlib Require Import ZArith QArith Qabs Qminmax Lqa Lia.
From S2P Require Import Prelude Decimal Types OrderManager OrderExec Venues.
Local Open Scope string_scope.
Local Open Scope nat_scope.
Local Open Scope list_scope.

Section Router.
Context {D : Decimal}.

Record RouteLeg := mkRouteLeg {
  leg_venue : VenueId;
  leg_product : option VenueProduct;
  leg_qty : dec;
  is_taker : bool;
  expected_cost_bps : dec;
}.

Record RouteDecision := mkRouteDecision {
  target_side : Side;
  target_qty : dec;
  filled_qty : dec;
  is_complete : bool;
  legs : list RouteLeg;
}.

Definition decision_empty (side : Side) : RouteDecision := mkRouteDecision side dec0 dec0 true [].

Definition total_expected_cost_bps (d : RouteDecision) : dec :=
  dsum ((λ l, dmul (expected_cost_bps l) (leg_qty l)) <$> legs d).

Definition TAKER_THRESHOLD : dec := dlit 5 1.

(** ** The greedy router *)
Definition cost_leb (a b : VenueSnapshot * RouteCost) : bool :=
  if deqb (effective_cost_bps a.2) (effective_cost_bps b.2) then (venue_ord (vs_venue a.1) <=? venue_ord (vs_venue b.1))%Z
  else dleb (effective_cost_bps a.2) (effective_cost_bps b.2).

Fixpoint greedy_fill (target : dec) (taker : bool) (priced : list (VenueSnapshot * RouteCost)) (filled : dec) :
    list RouteLeg * dec :=
  match priced with
  | [] => ([], filled)
  | (snap, cost) :: priced =>
      if dleb target filled then ([], filled)
      else
        let take := dmin (available_qty snap) (dsub target filled) in
        if dleb take dec0 then greedy_fill target taker priced filled
        else
          let '(ls, filled) := greedy_fill target taker priced (dadd filled take) in
          (mkRouteLeg (vs_venue snap) None take taker (effective_cost_bps cost) :: ls, filled)
  end.

Definition price_available (m : VenueCostModel) (side : Side) (urgency : dec) (snapshots : list VenueSnapshot) :
    list (VenueSnapshot * RouteCost) :=
  (λ s, (s, price m s side urgency)) <$> List.filter is_available snapshots.

Definition greedy_route (m : VenueCostModel) (side : Side) (target urgency : dec) (snapshots : list VenueSnapshot) :
    RouteDecision :=
  if dleb target dec0 then decision_empty side
  else
    let urgency := clamp_urgency urgency in
    let priced := sort_by cost_leb (price_available m side urgency snapshots) in
    let '(ls, filled) := greedy_fill target (dleb TAKER_THRESHOLD urgency) priced dec0 in
    mkRouteDecision side target filled (dleb target filled) ls.

(** ** The convex router: a row is the snapshot, its fee and its slippage *)
Record ConvexRouter := mkConvexRouter { cost_model : VenueCostModel; bisect_tol : dec; max_iter : nat }.

Definition convex_new (m : VenueCostModel) : ConvexRouter := mkConvexRouter m (dlit 1 8) 50.

Definition Row : Type := VenueSnapshot * dec * dec.

Definition qty_at_lambda (fee slip cap lambda : dec) : dec :=
  if dleb slip dec0 then (if dltb fee lambda then cap else dec0)
  else dmin (dmax (ddiv (dsub lambda fee) slip) dec0) cap.

Definition row_qty (lambda : dec) (r : Row) : dec := qty_at_lambda r.1.2 r.2 (available_qty r.1.1) lambda.

Definition allocation_total (rows : list Row) (lambda : dec) : dec := dsum (row_qty lambda <$> rows).

Definition dec_max : dec := dlit (2 ^ 96 - 1) 0.

Definition lambda_lo (rows : list Row) : dec :=
  fold_left (λ acc v, if dltb v acc then v else acc) ((λ r, r.1.2) <$> rows) dec_max.
Definition lambda_hi (rows : list Row) : dec :=
  fold_left (λ acc v, if dltb acc v then v else acc)
    ((λ r, dadd r.1.2 (dmul r.2 (available_qty r.1.1))) <$> rows) (dneg dec_max).

Fixpoint bisect (n : nat) (rows : list Row) (target tol lo hi : dec) : dec * dec :=
  match n with
  | 0 => (lo, hi)
  | S n =>
      let mid := ddiv (dadd lo hi) (dlit 2 0) in
      let total := allocation_total rows mid in
      if dleb (dabs (dsub total target)) tol then (mid, mid)
      else if dltb target total then bisect n rows target tol lo mid
      else bisect n rows target tol mid hi
  end.

Definition row_leb (a b : Row) : bool :=
  if deqb a.1.2 b.1.2 then (venue_ord (vs_venue a.1.1) <=? venue_ord (vs_venue b.1.1))%Z else dleb a.1.2 b.1.2.

Fixpoint convex_fill (target lambda : dec) (taker : bool) (rows : list Row) (filled : dec) : list RouteLeg * dec :=
  match rows with
  | [] => ([], filled)
  | (snap, fee, slip) :: rows =>
      if dleb target filled then ([], filled)
      else
        let q := qty_at_lambda fee slip (available_qty snap) lambda in
        if dleb q dec0 then convex_fill target lambda taker rows filled
        else
          let take := dmin q (dsub target filled) in
          if dleb take dec0 then convex_fill target lambda taker rows filled
          else
            let avg := dadd fee (ddiv (dmul slip take) (dlit 2 0)) in
            let '(ls, filled) := convex_fill target lambda taker rows (dadd filled take) in
            (mkRouteLeg (vs_venue snap) None take taker avg :: ls, filled)
  end.

Definition convex_rows (m : VenueCostModel) (side : Side) (urgency : dec) (snapshots : list VenueSnapshot) : list Row :=
  (λ s, (s, effective_cost_bps (price m s side urgency), slippage_bps_per_unit s)) <$> List.filter is_available snapshots.

(** The target the capacity allows, and the multiplier the bisection ends at. *)
Definition effective_target (rows : list Row) (target : dec) : dec :=
  dmin target (dsum ((λ r : Row, available_qty r.1.1) <$> rows)).

Definition convex_lambda (r : ConvexRouter) (rows : list Row) (target : dec) : dec :=
  let lo := lambda_lo rows in
  let hi := lambda_hi rows in
  let hi := if dleb hi lo then dadd lo dec1 else hi in
  let '(lo, hi) := bisect (max_iter r) rows target (bisect_tol r) lo hi in
  ddiv (dadd lo hi) (dlit 2 0).

Definition convex_route (r : ConvexRouter) (side : Side) (target urgency : dec) (snapshots : list VenueSnapshot) :
    RouteDecision :=
  if dleb target dec0 then decision_empty side
  else
    let u := clamp_urgency urgency in
    match convex_rows (cost_model r) side u snapshots with
    | [] => mkRouteDecision side target dec0 false []
    | rows =>
        if forallb (λ r : Row, dleb r.2 dec0) rows then greedy_route (cost_model r) side target urgency snapshots
        else
          let goal := effective_target rows target in
          let '(ls, filled) :=
            convex_fill goal (convex_lambda r rows goal) (dleb TAKER_THRESHOLD u) (sort_by row_leb rows) dec0 in
          mkRouteDecision side target filled (dleb target filled) ls
    end.
End Router.

(** ** The greedy split is the cheapest *)
Section Greedy.
Context {D : Decimal} {L : DecimalLaws D}.

(** Quantities whose sums and differences up to the target are exact: those of a
    grid, and all of them in ideal arithmetic. *)
Record exact_below (P : dec → Prop) (target : dec) : Prop := {
  eb_zero : P dec0;
  eb_sub f : P f → (0 <= dval f <= dval target)%Q →
    P (dsub target f) ∧ (dval (dsub target f) == dval target - dval f)%Q;
  eb_add f a : P f → P a → (0 <= dval f)%Q → (0 <= dval a)%Q → (dval f + dval a <= dval target)%Q →
    P (dadd f a) ∧ (dval (dadd f a) == dval f + dval a)%Q;
}.

Definition on_unit (s : nat) (x : dec) : Prop := gridded s (dval x).

Lemma grid_below s target : s ≤ 28 → on_unit s target → (dval target < room s)%Q → exact_below (on_unit s) target.
Proof.
  unfold on_unit. intros Hs Ht Hr. split.
  - rewrite dec0_val. apply gridded_0.
  - intros f Hf H. assert (E : (dval (dsub target f) == dval target - dval f)%Q) by (apply (gsub_val s); [done..|lra]).
    split; [|done]. rewrite E. by apply gridded_sub.
  - intros f a Hf Ha H1 H2 H3. assert (E : (dval (dadd f a) == dval f + dval a)%Q) by (apply (gadd_val s); [done..|lra]).
    split; [|done]. rewrite E. by apply gridded_add.
Qed.

(** What a list of amounts taken from snapshots costs. *)
Abbreviation Priced := (VenueSnapshot * RouteCost)%type.
Definition unit_cost (x : Priced) : Q := dval (effective_cost_bps x.2).
Definition capacity (x : Priced) : Q := dval (available_qty x.1).
Definition cost_of (split : list (Priced * Q)) : Q := qsum ((λ y, y.2 * unit_cost y.1)%Q <$> split).
Definition feasible (split : list (Priced * Q)) : Prop := Forall (λ y, 0 <= y.2 /\ y.2 <= capacity y.1)%Q split.
Definition legs_cost (ls : list RouteLeg) : Q := qsum ((λ l, dval (expected_cost_bps l) * dval (leg_qty l))%Q <$> ls).
Definition legs_qty (ls : list RouteLeg) : Q := qsum ((λ l, dval (leg_qty l)) <$> ls).

(** A leg is a positive part of what a snapshot has, at its unit cost. *)
Definition leg_of (taker : bool) (l : RouteLeg) (x : Priced) : Prop :=
  leg_venue l = vs_venue x.1 ∧ leg_product l = None ∧ is_taker l = taker ∧
  expected_cost_bps l = effective_cost_bps x.2 ∧ (0 < dval (leg_qty l) /\ dval (leg_qty l) <= capacity x)%Q.

Lemma cost_floor (c : Q) split : Forall (λ x, c <= unit_cost x)%Q split.*1 → feasible split →
  (qsum split.*2 * c <= cost_of split)%Q.
Proof.
  intros Hc Hf. induction split as [|[x q] split IH]; [cbn; lra|].
  apply Forall_cons in Hc as [Hx Hc]. apply Forall_cons in Hf as [Hq Hf]. unfold cost_of in *. cbn in *.
  specialize (IH Hc Hf). nra.
Qed.

Lemma capacity_nonneg priced : Forall (λ x, 0 < capacity x)%Q priced → (0 <= qsum (capacity <$> priced))%Q.
Proof. induction 1 as [|x l Hx _ IH]; cbn; lra. Qed.

Lemma split_nonneg split : feasible split → (0 <= qsum split.*2)%Q.
Proof. induction 1 as [|y split Hy _ IH]; cbn; lra. Qed.

(** The step of the exchange argument: [t] is taken from the cheapest snapshot
    where the other split takes [q]. *)
Lemma exchange_step (c c1 t q rest s r cost : Q) :
  (c <= c1)%Q → (t + r <= q + s)%Q → (rest + (s - r) * c1 <= cost)%Q →
  (c1 * t + rest + (q + s - (t + r)) * c <= q * c1 + cost)%Q.
Proof. intros. nra. Qed.

(** Whatever lies above what the greedy pass takes costs at least the floor. *)
Lemma greedy_fill_spec P target taker priced : exact_below P target → ∀ filled, P filled →
  (0 <= dval filled <= dval target)%Q → Forall (λ x, (0 < capacity x)%Q ∧ P (available_qty x.1)) priced →
  StronglySorted (λ x y, unit_cost x <= unit_cost y)%Q priced →
  let '(ls, f) := greedy_fill target taker priced filled in
  (dval f == dval filled + legs_qty ls)%Q ∧
  (legs_qty ls == Qmin (dval target - dval filled) (qsum (capacity <$> priced)))%Q ∧
  (∃ used rest, priced = used ++ rest ∧ Forall2 (leg_of taker) ls used) ∧
  ∀ c split, split.*1 = priced → feasible split → Forall (λ x, c <= unit_cost x)%Q priced →
    (legs_qty ls <= qsum split.*2)%Q →
    (legs_cost ls + (qsum split.*2 - legs_qty ls) * c <= cost_of split)%Q.
Proof.
  intros HP. induction priced as [|[snap cost] priced IH]; intros filled Hfilled Hle Hcap Hs; cbn [greedy_fill].
  { split; [cbn; lra|]. split; [cbn; rewrite Q.min_r; lra|]. split; [by exists [], []|].
    intros c split E Hf _ _. destruct split; [|done]. cbn. lra. }
  apply Forall_cons in Hcap as [[Hx HPx] Hcap]. apply StronglySorted_inv in Hs as [Hs Hhd]. cbn in Hx, HPx.
  assert (Hsum : (0 <= qsum (capacity <$> priced))%Q).
  { apply capacity_nonneg. eapply Forall_impl; [exact Hcap|]. by intros y [Hy _]. } unfold capacity in Hx. cbn [fst] in Hx.
  destruct (dleb target filled) eqn:Et.
  { dec_to_Q. split; [cbn; lra|]. split; [|split; [by exists [], ((snap, cost) :: priced)|]].
    - rewrite Q.min_l; change (qsum (capacity <$> (snap, cost) :: priced)) with (dval (available_qty snap) + qsum (capacity <$> priced))%Q; change (legs_qty []) with 0%Q; lra.
    - intros c split E Hf Hc _. rewrite <- E in Hc. pose proof (cost_floor c split Hc Hf). cbn. lra. }
  pose proof (dmin_val (available_qty snap) (dsub target filled)) as Htake.
  destruct (eb_sub _ _ HP filled Hfilled Hle) as [HPs Esub].
  assert (HPt : P (dmin (available_qty snap) (dsub target filled))) by (unfold dmin; destruct (dleb (available_qty snap) (dsub target filled)); assumption).
  set (take := dmin _ _) in *. rewrite Esub in Htake. dec_to_Q.
  destruct (dleb take dec0) eqn:E0; dec_to_Q; rewrite ?dec0_val in *.
  { exfalso. destruct (Q.min_spec (dval (available_qty snap)) (dval target - dval filled)) as [[? ?]|[? ?]]; lra. }
  assert (Ht : (dval take <= dval (available_qty snap) /\ dval take <= dval target - dval filled)%Q).
  { rewrite Htake. split; [apply Q.le_min_l|apply Q.le_min_r]. }
  destruct (eb_add _ _ HP filled take Hfilled HPt ltac:(lra) ltac:(lra) ltac:(lra)) as [HPa Eadd].
  specialize (IH (dadd filled take) HPa). rewrite Eadd in IH. specialize (IH ltac:(lra) Hcap Hs).
  destruct (greedy_fill target taker priced (dadd filled take)) as [ls f].
  destruct IH as (Hf & Hq & (used & rest & E & Hlegs) & Hopt). rewrite Eadd in Hf, Hq.
  change (legs_qty (_ :: ls)) with (dval take + legs_qty ls)%Q. cbn [fmap list_fmap qsum].
  change (capacity (snap, cost)) with (dval (available_qty snap)). split; [lra|]. split; [|split].
  - destruct (Q.min_spec (dval (available_qty snap)) (dval target - dval filled)) as [[? ?]|[? ?]],
      (Q.min_spec (dval target - (dval filled + dval take)) (qsum (capacity <$> priced))) as [[? ?]|[? ?]],
      (Q.min_spec (dval target - dval filled) (dval (available_qty snap) + qsum (capacity <$> priced))) as [[? ?]|[? ?]]; lra.
  - exists ((snap, cost) :: used), rest. split; [by rewrite E|]. constructor; [|done]. unfold leg_of, capacity. cbn.
    split_and!; try done; lra.
  - intros c split Es Hfe Hc Hge. destruct split as [|[y q] split]; [done|]. injection Es as -> Es.
    apply Forall_cons in Hfe as [[Hq0 Hqc] Hfe]. apply Forall_cons in Hc as [Hc1 Hc].
    unfold capacity in Hqc. cbn in Hq0, Hqc, Hc1, Hge |- *.
    change (legs_cost (_ :: ls)) with (unit_cost (snap, cost) * dval take + legs_cost ls)%Q.
    change (cost_of (_ :: split)) with (q * unit_cost (snap, cost) + cost_of split)%Q.
    apply exchange_step; [done|done|]. apply Hopt; [done..|].
    pose proof (split_nonneg _ Hfe). destruct (Q.min_spec (dval (available_qty snap)) (dval target - dval filled)) as [[? ?]|[? ?]];
      [lra|].
    pose proof (Q.le_min_l (dval target - (dval filled + dval take)) (qsum (capacity <$> priced))). lra.
Qed.

(** The sorted list is in the order of the unit costs. *)
Lemma cost_leb_total x y : cost_leb x y = true ∨ cost_leb y x = true.
Proof.
  unfold cost_leb, deqb. do 2 case_bool_decide; try congruence; rewrite ?Z.leb_le; [lia|].
  destruct (dleb (effective_cost_bps x.2) (effective_cost_bps y.2)) eqn:E; [by left|]. right. dec_order.
Qed.
Lemma cost_leb_trans x y z : cost_leb x y = true → cost_leb y z = true → cost_leb x z = true.
Proof.
  unfold cost_leb, deqb. repeat case_bool_decide; rewrite ?Z.leb_le; try congruence; intros; dec_to_Q; try lia.
  all: try (rewrite <- ?H in *; dec_order).
  exfalso. apply H0, dval_inj. rewrite H1 in H2. lra.
Qed.

Lemma sorted_costs priced : StronglySorted (λ x y, unit_cost x <= unit_cost y)%Q (sort_by cost_leb priced).
Proof.
  pose proof (sort_by_sorted _ cost_leb_total cost_leb_trans priced) as H.
  induction H as [|x l Hl IH Hx]; constructor; [done|]. eapply Forall_impl; [exact Hx|]. intros y.
  unfold cost_leb, deqb, unit_cost. case_bool_decide as E; [rewrite E; lra|]. intros. dec_order.
Qed.

Lemma floor_exists priced : ∃ c, Forall (λ x, c <= unit_cost x)%Q priced.
Proof.
  induction priced as [|x l [c IH]]; [by exists 0%Q|]. exists (Qmin c (unit_cost x)). constructor; [apply Q.le_min_r|].
  eapply Forall_impl; [exact IH|]. intros y. cbn. pose proof (Q.le_min_l c (unit_cost x)). lra.
Qed.

Lemma sorted_capacity P m side urgency snapshots : Forall (λ s, P (available_qty s)) snapshots →
  Forall (λ x, (0 < capacity x)%Q ∧ P (available_qty x.1)) (sort_by cost_leb (price_available m side urgency snapshots)).
Proof.
  intros HP. rewrite sort_by_perm. unfold price_available. apply Forall_fmap, Forall_forall. intros s Hs.
  apply list_elem_of_In, filter_In in Hs as [Hin Hs]. unfold is_available in Hs. apply andb_prop in Hs as [Hs _].
  apply list_elem_of_In in Hin. rewrite Forall_forall in HP. unfold capacity. cbn. pose proof dec0_val. dec_to_Q. split; [lra|by apply HP].
Qed.

(** What a dispatch of the route relies on. *)
Lemma greedy_route_within P m side target urgency snapshots : exact_below P target → Forall (λ s, P (available_qty s)) snapshots →
  (0 < dval target)%Q →
  let r := greedy_route m side target urgency snapshots in
  target_side r = side ∧ target_qty r = target ∧ (legs_qty (legs r) <= dval target)%Q ∧
  Forall (λ l, 0 < dval (leg_qty l))%Q (legs r).
Proof.
  intros HP Hsn Ht r. unfold r, greedy_route. pose proof dec0_val as H0.
  destruct (dleb target dec0) eqn:E0; [exfalso; dec_to_Q; lra|]. set (taker := dleb TAKER_THRESHOLD _).
  set (sorted := sort_by cost_leb _).
  pose proof (greedy_fill_spec P target taker sorted HP dec0 (eb_zero _ _ HP) ltac:(lra) (sorted_capacity _ _ _ _ _ Hsn) (sorted_costs _)) as H.
  destruct (greedy_fill target taker sorted dec0) as [ls f]. destruct H as (_ & Hq & (used & rest & _ & Hlegs) & _). cbn [target_side target_qty legs].
  split; [done|]. split; [done|]. split.
  - pose proof (Q.le_min_l (dval target - dval dec0) (qsum (capacity <$> sorted))). lra.
  - clear -Hlegs. induction Hlegs as [|l x ls xs (_ & _ & _ & _ & ? & _) _ IH]; constructor; done.
Qed.

(** C16: for a positive target and available quantities that are whole units of
    [10 ^ -s], the target within the coefficient's range, the greedy route
    takes as much of the target as the available snapshots hold, is complete
    exactly when that is all of it, gives each leg to a snapshot of its own and
    within what that has, and no other split of the same quantity over the
    available snapshots costs less at the unit costs the model gives them, the
    cost of the legs being the exact sum of quantity times unit cost. *)
Theorem greedy_route_cheapest s m side target urgency snapshots (Hs : s ≤ 28) (Htu : on_unit s target)
    (Hroom : (dval target < room s)%Q) (Hsn : Forall (λ v, on_unit s (available_qty v)) snapshots) (Ht : (0 < dval target)%Q) :
  let r := greedy_route m side target urgency snapshots in
  let avail := price_available m side (clamp_urgency urgency) snapshots in
  (dval (filled_qty r) == Qmin (dval target) (qsum (capacity <$> avail)))%Q ∧
  (dval (filled_qty r) == legs_qty (legs r))%Q ∧
  (is_complete r = true ↔ (dval target <= qsum (capacity <$> avail))%Q) ∧
  (∃ used, used ⊆+ avail ∧ Forall2 (leg_of (dleb TAKER_THRESHOLD (clamp_urgency urgency))) (legs r) used) ∧
  ∀ split, split.*1 = avail → feasible split → (qsum split.*2 == dval (filled_qty r))%Q →
    (legs_cost (legs r) <= cost_of split)%Q.
Proof.
  intros r avail. pose proof (grid_below s target Hs Htu Hroom) as HP. unfold r, greedy_route. pose proof dec0_val as H0.
  destruct (dleb target dec0) eqn:E0; [exfalso; dec_to_Q; lra|].
  fold avail. set (taker := dleb TAKER_THRESHOLD _). set (sorted := sort_by cost_leb avail).
  assert (Hp : sorted ≡ₚ avail) by apply sort_by_perm.
  pose proof (greedy_fill_spec _ target taker sorted HP dec0 (eb_zero _ _ HP) ltac:(lra) (sorted_capacity _ _ _ _ _ Hsn) (sorted_costs avail)) as H.
  destruct (greedy_fill target taker sorted dec0) as [ls f]. cbn [filled_qty is_complete legs].
  destruct H as (Hf & Hq & (used & rest & E & Hlegs) & Hopt). rewrite H0 in Hf, Hq.
  assert (Hsum : (qsum (capacity <$> sorted) == qsum (capacity <$> avail))%Q) by by apply qsum_perm; rewrite Hp.
  assert (Hfq : (dval f == Qmin (dval target) (qsum (capacity <$> avail)))%Q).
  { rewrite Hf, Hq, Hsum. destruct (Q.min_spec (dval target - 0) (qsum (capacity <$> avail))) as [[? ?]|[? ?]],
      (Q.min_spec (dval target) (qsum (capacity <$> avail))) as [[? ?]|[? ?]]; lra. }
  split; [done|]. split; [lra|]. split; [|split].
  - rewrite dleb_le. unfold dle. destruct (Q.min_spec (dval target) (qsum (capacity <$> avail))) as [[? ?]|[? ?]]; split; lra.
  - exists used. split; [|done]. rewrite <- Hp, E. apply submseteq_inserts_r. done.
  - intros split Es Hfe Hsum'.
    assert (Ep : sorted ≡ₚ map fst split) by (rewrite Hp, <- Es; done).
    apply Permutation_map_inv in Ep as (split' & Es' & Hp').
    destruct (floor_exists sorted) as [c Hc].
    assert (Hfe' : feasible split') by (unfold feasible in *; by rewrite <- Hp').
    assert (E2 : (qsum split'.*2 == qsum split.*2)%Q) by by apply qsum_perm; rewrite Hp'.
    specialize (Hopt c split' (eq_sym Es') Hfe' Hc ltac:(lra)).
    assert (E3 : (cost_of split' == cost_of split)%Q) by by apply qsum_perm; rewrite Hp'.
    nra.
Qed.
End Greedy.

(** ** The water-filling split *)
Section Convex.
Context {D : Decimal} {L : DecimalExact D}.

Lemma ideal_below target : exact_below (λ _, True) target.
Proof. split; [done|..]; intros; (split; [done|]); by rewrite ?dsub_exact, ?dadd_exact. Qed.

Lemma total_cost_val d : (dval (total_expected_cost_bps d) == legs_cost (legs d))%Q.
Proof.
  unfold total_expected_cost_bps, legs_cost. rewrite dsum_val. induction (legs d) as [|l ls IH]; [done|].
  cbn [fmap list_fmap qsum]. rewrite qsum_vals_cons, dmul_exact. by rewrite <- IH.
Qed.


Definition row_fee (r : Row) : Q := dval r.1.2.
Definition row_slip (r : Row) : Q := dval r.2.
Definition row_cap (r : Row) : Q := dval (available_qty r.1.1).

(** The integrated cost of [q] units on a row. *)
Definition row_cost (r : Row) (q : Q) : Q := (row_fee r * q + row_slip r * q * q / 2)%Q.
Definition row_ok (r : Row) : Prop := (0 <= row_slip r /\ 0 < row_cap r)%Q.

Definition split_cost (split : list (Row * Q)) : Q := qsum ((λ y, row_cost y.1 y.2) <$> split).
Definition fits_rows (split : list (Row * Q)) : Prop := Forall (λ y, 0 <= y.2 /\ y.2 <= row_cap y.1)%Q split.

Lemma row_qty_range lambda r : row_ok r → (0 <= dval (row_qty lambda r) /\ dval (row_qty lambda r) <= row_cap r)%Q.
Proof.
  intros [Hs Hc]. unfold row_qty, qty_at_lambda, row_slip, row_cap in *. pose proof dec0_val as H0.
  destruct (dleb r.2 dec0); [destruct (dltb _ _); lra|]. rewrite dmin_val. split; [|apply Q.le_min_r].
  apply Q.min_glb; [|lra]. unfold dmax. destruct (dleb _ dec0) eqn:E; dec_to_Q; lra.
Qed.

Lemma linear_minimal (f s lam x q : Q) : (s == 0)%Q → (0 <= (q - x) * (f - lam))%Q →
  (f * x + s * x * x / 2 - lam * x <= f * q + s * q * q / 2 - lam * q)%Q.
Proof.
  intros E H. assert (E1 : (s * x * x / 2 == 0)%Q) by (rewrite E; field).
  assert (E2 : (s * q * q / 2 == 0)%Q) by (rewrite E; field). rewrite E1, E2. nra.
Qed.

Lemma convex_minimal (f s lam d x q : Q) : (0 <= s)%Q → (d * s == lam - f)%Q → (0 <= (q - x) * (x - d))%Q →
  (f * x + s * x * x / 2 - lam * x <= f * q + s * q * q / 2 - lam * q)%Q.
Proof.
  intros Hs Hd H.
  assert (E : (f * q + s * q * q / 2 - lam * q - (f * x + s * x * x / 2 - lam * x) ==
    s * ((q - x) * (q - x) * (1 # 2) + (q - x) * (x - d)))%Q).
  { assert (Ef : (f == lam - d * s)%Q) by lra. rewrite Ef. field. }
  assert (Hsq : (0 <= (q - x) * (q - x))%Q) by (destruct (Qlt_le_dec q x); nra).
  assert (H2 : (0 <= s * ((q - x) * (q - x) * (1 # 2) + (q - x) * (x - d)))%Q) by (apply Qmult_le_0_compat; [done|lra]). lra.
Qed.

(** The amount at the multiplier minimises the cost of the row less the
    multiplier's price for it. *)
Lemma row_qty_minimal lambda r q : row_ok r → (0 <= q /\ q <= row_cap r)%Q →
  let x := dval (row_qty lambda r) in
  (row_cost r x - dval lambda * x <= row_cost r q - dval lambda * q)%Q.
Proof.
  intros [Hs Hc] [Hq Hqc] x. unfold row_cost, x, row_qty, qty_at_lambda in *.
  fold (row_cap r) in *. unfold row_fee, row_slip, row_cap in *. pose proof dec0_val as H0.
  destruct (dleb r.2 dec0) eqn:Es; dec_to_Q.
  - assert (E : (dval r.2 == 0)%Q) by lra. destruct (dltb r.1.2 lambda) eqn:El; dec_to_Q;
      apply linear_minimal; rewrite ?H0; try done; nra.
  - assert (Ed : (dval (ddiv (dsub lambda r.1.2) r.2) * dval r.2 == dval lambda - dval r.1.2)%Q).
    { rewrite ddiv_exact, dsub_exact by lra. field. lra. }
    eapply convex_minimal; [|exact Ed|]; [lra|]. unfold dmin, dmax.
    destruct (dleb (ddiv _ _) dec0) eqn:E0.
    + rewrite (proj2 (dleb_le _ _)) by (unfold dle; lra). dec_to_Q. rewrite H0 in *. nra.
    + destruct (dleb _ (available_qty r.1.1)) eqn:E1; dec_to_Q; nra.
Qed.
Definition allocated (lambda : dec) (rows : list Row) : Q := qsum ((λ r, dval (row_qty lambda r)) <$> rows).
Definition allocated_cost (lambda : dec) (rows : list Row) : Q :=
  qsum ((λ r, row_cost r (dval (row_qty lambda r))) <$> rows).

Lemma allocated_cons lambda r rows : allocated lambda (r :: rows) = (dval (row_qty lambda r) + allocated lambda rows)%Q.
Proof. done. Qed.
Lemma allocated_cost_cons lambda r rows :
  allocated_cost lambda (r :: rows) = (row_cost r (dval (row_qty lambda r)) + allocated_cost lambda rows)%Q.
Proof. done. Qed.

Definition row_leg (taker : bool) (l : RouteLeg) (r : Row) : Prop :=
  leg_venue l = vs_venue r.1.1 ∧ is_taker l = taker ∧ (0 < dval (leg_qty l) /\ dval (leg_qty l) <= row_cap r)%Q ∧
  (dval (expected_cost_bps l) * dval (leg_qty l) == row_cost r (dval (leg_qty l)))%Q.

Lemma allocated_nonneg lambda rows : Forall row_ok rows → (0 <= allocated lambda rows)%Q.
Proof.
  unfold allocated. induction 1 as [|r rows Hr _ IH]; cbn; [lra|]. pose proof (row_qty_range lambda r Hr). lra.
Qed.

Lemma row_cost_zero r q : (q == 0)%Q → (row_cost r q == 0)%Q.
Proof. intros E. unfold row_cost. rewrite E. field. Qed.

(** From [x] up to [y] units a row costs its fee at least. *)
Lemma row_cost_step c r x y : row_ok r → (c <= row_fee r)%Q → (0 <= x /\ x <= y)%Q →
  (row_cost r x + c * (y - x) <= row_cost r y)%Q.
Proof.
  intros [Hs _] Hc [Hx Hy]. assert (H : (row_cost r y - row_cost r x == (y - x) * (row_fee r + row_slip r * (x + y) * (1 # 2)))%Q).
  { unfold row_cost. field. }
  assert (H2 : (0 <= row_slip r * (x + y))%Q) by (apply Qmult_le_0_compat; lra).
  assert (H3 : (0 <= (y - x) * (row_fee r - c + row_slip r * (x + y) * (1 # 2)))%Q) by (apply Qmult_le_0_compat; lra). lra.
Qed.

Lemma allocated_floor c lambda rows : Forall row_ok rows → Forall (λ r, c <= row_fee r)%Q rows →
  (c * allocated lambda rows <= allocated_cost lambda rows)%Q.
Proof.
  induction 1 as [|r rows Hr Hok IH]; intros Hc; [cbn; lra|]. apply Forall_cons in Hc as [Hcr Hc]. specialize (IH Hc).
  pose proof (row_qty_range lambda r Hr) as Hx. pose proof (row_cost_step c r 0 (dval (row_qty lambda r)) Hr Hcr ltac:(lra)) as H.
  rewrite (row_cost_zero r 0) in H by done.
  rewrite allocated_cons, allocated_cost_cons. lra.
Qed.

Lemma avg_cost r (x : dec) : (dval (dadd r.1.2 (ddiv (dmul r.2 x) (dlit 2 0))) * dval x == row_cost r (dval x))%Q.
Proof.
  assert (E2 : (dval (dlit 2 0) == 2)%Q) by by apply dlit_int.
  rewrite dadd_exact, ddiv_exact by (rewrite E2; lra). rewrite dmul_exact, E2.
  unfold row_cost, row_fee, row_slip. field.
Qed.

Lemma convex_fill_spec goal lambda taker rows : ∀ filled, (dval filled <= dval goal)%Q → Forall row_ok rows →
  let '(ls, f) := convex_fill goal lambda taker rows filled in
  (dval f == dval filled + legs_qty ls)%Q ∧
  (legs_qty ls == Qmin (dval goal - dval filled) (allocated lambda rows))%Q ∧
  (∃ used, used ⊆+ rows ∧ Forall2 (row_leg taker) ls used) ∧
  ∀ c, Forall (λ r, c <= row_fee r)%Q rows →
    (legs_cost ls + c * (allocated lambda rows - legs_qty ls) <= allocated_cost lambda rows)%Q.
Proof.
  induction rows as [|[[snap fee] slip] rows IH]; intros filled Hle Hok; cbn [convex_fill].
  { split; [cbn; lra|]. split; [cbn; rewrite Q.min_r; lra|]. split; [by exists []|]. intros c _. cbn. lra. }
  apply Forall_cons in Hok as [Hr Hok]. set (r := (snap, fee, slip)) in *.
  pose proof (row_qty_range lambda r Hr) as Hx. pose proof (allocated_nonneg lambda rows Hok) as Hn.
  rewrite allocated_cons, allocated_cost_cons.
  change (qty_at_lambda fee slip (available_qty snap) lambda) with (row_qty lambda r).
  set (q := row_qty lambda r) in *. pose proof dec0_val as H0.
  destruct (dleb goal filled) eqn:Eg; dec_to_Q.
  { split; [cbn; lra|]. split; [rewrite Q.min_l; cbn; lra|]. split; [exists []; split; [apply submseteq_nil_l|constructor]|].
    intros c Hc. change (legs_cost []) with 0%Q. change (legs_qty []) with 0%Q.
    pose proof (allocated_floor c lambda (r :: rows) ltac:(by constructor) Hc) as H.
    change (c * (dval q + allocated lambda rows) <= row_cost r (dval q) + allocated_cost lambda rows)%Q in H. lra. }
  destruct (dleb q dec0) eqn:Eq; dec_to_Q.
  { assert (Eq0 : (dval q == 0)%Q) by lra. specialize (IH filled Hle Hok).
    destruct (convex_fill goal lambda taker rows filled) as [ls f]. destruct IH as (Hf & Hq & (used & Hu & Hl) & Hc).
    split; [done|]. split; [rewrite Hq; apply Q.min_compat; lra|]. split; [exists used; split; [by apply submseteq_cons|done]|].
    intros c [_ Hcs]%Forall_cons. specialize (Hc c Hcs). rewrite (row_cost_zero r (dval q)), Eq0 by done. lra. }
  pose proof (dmin_val q (dsub goal filled)) as Ht. rewrite dsub_exact in Ht. set (take := dmin _ _) in *.
  destruct (dleb take dec0) eqn:E0; dec_to_Q.
  { exfalso. destruct (Q.min_spec (dval q) (dval goal - dval filled)) as [[? ?]|[? ?]]; lra. }
  specialize (IH (dadd filled take)). destruct (convex_fill goal lambda taker rows (dadd filled take)) as [ls f].
  rewrite H0 in E0.
  assert (Hts : (dval take <= dval q /\ dval take <= dval goal - dval filled)%Q).
  { rewrite Ht. split; [apply Q.le_min_l|apply Q.le_min_r]. }
  destruct IH as (Hf & Hq & (used & Hu & Hl) & Hc); [rewrite dadd_exact; lra|done|]. rewrite dadd_exact in Hf, Hq.
  change (legs_qty (_ :: ls)) with (dval take + legs_qty ls)%Q.
  pose proof (avg_cost r take) as Havg.
  change (legs_cost (_ :: ls)) with (dval (dadd r.1.2 (ddiv (dmul r.2 take) (dlit 2 0))) * dval take + legs_cost ls)%Q.
  split; [lra|]. split; [|split].
  - rewrite Hq. destruct (Q.min_spec (dval q) (dval goal - dval filled)) as [[? ?]|[? ?]],
      (Q.min_spec (dval goal - (dval filled + dval take)) (allocated lambda rows)) as [[? ?]|[? ?]],
      (Q.min_spec (dval goal - dval filled) (dval q + allocated lambda rows)) as [[? ?]|[? ?]]; lra.
  - exists (r :: used). split; [by apply submseteq_skip|]. constructor; [|done]. unfold row_leg. cbn [leg_venue is_taker leg_qty expected_cost_bps].
    split; [done|]. split; [done|]. split; [lra|exact Havg].
  - intros c [Hcr Hcs]%Forall_cons. specialize (Hc c Hcs). rewrite Havg.
    pose proof (row_cost_step c r (dval take) (dval q) Hr Hcr ltac:(lra)). lra.
Qed.

(** No split beats the amounts at a multiplier, priced by it. *)
Lemma allocated_minimal lambda split : Forall row_ok split.*1 → fits_rows split →
  (allocated_cost lambda split.*1 - dval lambda * allocated lambda split.*1 <=
   split_cost split - dval lambda * qsum split.*2)%Q.
Proof.
  intros Hok Hf. induction split as [|[r q] split IH]; [cbn; lra|].
  apply Forall_cons in Hok as [Hr Hok]. apply Forall_cons in Hf as [Hq Hf]. specialize (IH Hok Hf).
  pose proof (row_qty_minimal lambda r q Hr Hq) as H. cbn [fmap list_fmap fst snd] in *.
  rewrite allocated_cons, allocated_cost_cons.
  change (split_cost ((r, q) :: split)) with (row_cost r q + split_cost split)%Q. cbn [qsum]. lra.
Qed.

(** *** The bisection *)
Definition steep (r : Row) : Prop := (0 < row_slip r /\ 0 < row_cap r)%Q.
Definition slope (rows : list Row) : Q := qsum ((λ r, / row_slip r)%Q <$> rows).

Lemma steep_ok rows : Forall steep rows → Forall row_ok rows.
Proof. intros H. eapply Forall_impl; [exact H|]. intros r [? ?]. split; lra. Qed.

(** What a row takes grows with the multiplier, by at most its slope. *)
Lemma row_qty_slope r l1 l2 : steep r → (dval l1 <= dval l2)%Q →
  (0 <= dval (row_qty l2 r) - dval (row_qty l1 r))%Q ∧
  (dval (row_qty l2 r) - dval (row_qty l1 r) <= (dval l2 - dval l1) * / row_slip r)%Q.
Proof.
  intros [Hs Hc] Hl. unfold row_qty, qty_at_lambda, row_slip, row_cap in *. pose proof dec0_val as H0.
  destruct (dleb r.2 dec0) eqn:Es; [exfalso; dec_to_Q; lra|].
  assert (Hv : ∀ l, (dval (ddiv (dsub l r.1.2) r.2) == (dval l - dval r.1.2) * / dval r.2)%Q).
  { intros l. by rewrite ddiv_exact, dsub_exact by lra. }
  assert (Hd : (0 <= (dval l2 - dval l1) * / dval r.2)%Q).
  { apply Qmult_le_0_compat; [lra|]. apply Qlt_le_weak, Qinv_lt_0_compat. lra. }
  assert (E : (dval (ddiv (dsub l2 r.1.2) r.2) == dval (ddiv (dsub l1 r.1.2) r.2) + (dval l2 - dval l1) * / dval r.2)%Q).
  { rewrite !Hv. ring. }
  set (d1 := ddiv (dsub l1 r.1.2) r.2) in *. set (d2 := ddiv (dsub l2 r.1.2) r.2) in *. clearbody d1 d2.
  set (w := ((dval l2 - dval l1) * / dval r.2)%Q) in *. clearbody w. unfold dmin, dmax.
  destruct (dleb d1 dec0) eqn:?, (dleb d2 dec0) eqn:?;
    repeat match goal with |- context [dleb ?a ?b] => destruct (dleb a b) eqn:? end; dec_to_Q; lra.
Qed.

Lemma allocated_slope rows l1 l2 : Forall steep rows → (dval l1 <= dval l2)%Q →
  (0 <= allocated l2 rows - allocated l1 rows)%Q ∧
  (allocated l2 rows - allocated l1 rows <= (dval l2 - dval l1) * slope rows)%Q.
Proof.
  intros Hr Hl. induction Hr as [|r rows Hr _ IH]; [cbn; lra|]. pose proof (row_qty_slope r l1 l2 Hr Hl) as H.
  rewrite !allocated_cons. change (slope (r :: rows)) with (/ row_slip r + slope rows)%Q. lra.
Qed.

Lemma allocation_total_val rows lambda : (dval (allocation_total rows lambda) == allocated lambda rows)%Q.
Proof. unfold allocation_total. rewrite dsum_val. unfold allocated, vals. by rewrite <- list_fmap_compose. Qed.

Definition midpoint (lo hi : dec) : dec := ddiv (dadd lo hi) (dlit 2 0).

Lemma midpoint_val lo hi : (dval (midpoint lo hi) == (dval lo + dval hi) * (1 # 2))%Q.
Proof.
  assert (E2 : (dval (dlit 2 0) == 2)%Q) by by apply dlit_int.
  unfold midpoint. rewrite ddiv_exact, dadd_exact, E2 by (rewrite E2; lra). field.
Qed.

(** The midpoint of what [n] rounds leave misses the goal by the tolerance or
    by what the halved bracket can hold. *)
Lemma bisect_close n rows goal tol : Forall steep rows → ∀ lo hi, (dval lo <= dval hi)%Q →
  (allocated lo rows <= dval goal <= allocated hi rows)%Q →
  let b := bisect n rows goal tol lo hi in
  let miss := (allocated (midpoint b.1 b.2) rows - dval goal)%Q in
  (Qabs miss <= dval tol)%Q ∨ (Qabs miss * inject_Z (2 ^ Z.of_nat n) <= (dval hi - dval lo) * slope rows)%Q.
Proof.
  intros Hr. induction n as [|n IH]; intros lo hi Hle Hg; cbn [bisect].
  - right. cbn [fst snd]. pose proof (midpoint_val lo hi) as Hm.
    pose proof (allocated_slope rows lo (midpoint lo hi) Hr ltac:(lra)) as H1.
    pose proof (allocated_slope rows (midpoint lo hi) hi Hr ltac:(lra)) as H2.
    pose proof (allocated_slope rows lo hi Hr Hle) as H3. change (inject_Z (2 ^ Z.of_nat 0)) with 1%Q.
    rewrite Qmult_1_r. apply Qabs_Qle_condition. lra.
  - fold (midpoint lo hi). set (mid := midpoint lo hi). pose proof (midpoint_val lo hi) as Hm. fold mid in Hm.
    destruct (dleb (dabs _) tol) eqn:Et.
    + left. cbn [fst snd]. assert (E : midpoint mid mid = mid) by (apply dval_inj; rewrite midpoint_val; ring).
      rewrite E. dec_to_Q. rewrite dabs_val, dsub_exact, allocation_total_val in Et. done.
    + assert (Hpow : (inject_Z (2 ^ Z.of_nat (S n)) == 2 * inject_Z (2 ^ Z.of_nat n))%Q).
      { rewrite Nat2Z.inj_succ, Z.pow_succ_r, inject_Z_mult by lia. reflexivity. }
      destruct (dltb goal _) eqn:Eg; dec_to_Q; rewrite allocation_total_val in Eg.
      * destruct (IH lo mid ltac:(lra) ltac:(lra)) as [H|H]; [by left|right]. rewrite Hpow, Hm in *. lra.
      * destruct (IH mid hi ltac:(lra) ltac:(lra)) as [H|H]; [by left|right]. rewrite Hpow, Hm in *. lra.
Qed.

Lemma bisect_range n rows goal tol : ∀ lo hi, (dval lo <= dval hi)%Q →
  let b := bisect n rows goal tol lo hi in (dval lo <= dval (midpoint b.1 b.2) <= dval hi)%Q.
Proof.
  induction n as [|n IH]; intros lo hi Hle; cbn [bisect]; pose proof (midpoint_val lo hi) as Hm; [cbn; lra|].
  fold (midpoint lo hi). set (mid := midpoint lo hi) in *.
  destruct (dleb _ tol); [cbn [fst snd]; rewrite midpoint_val; lra|].
  destruct (dltb goal _); [specialize (IH lo mid ltac:(lra))|specialize (IH mid hi ltac:(lra))]; cbn in *; lra.
Qed.

Lemma lambda_lo_le rows r : r ∈ rows → (dval (lambda_lo rows) <= row_fee r)%Q.
Proof.
  unfold lambda_lo, row_fee. assert (H : ∀ l a, (dval (fold_left (λ acc v, if dltb v acc then v else acc) l a) <= dval a)%Q ∧
    ∀ v, v ∈ l → (dval (fold_left (λ acc v, if dltb v acc then v else acc) l a) <= dval v)%Q).
  { induction l as [|v l IH]; intros a; cbn [fold_left]; [split; [lra|by intros v ?%elem_of_nil]|].
    destruct (IH (if dltb v a then v else a)) as [H1 H2]. destruct (dltb v a) eqn:E; dec_to_Q.
    - split; [lra|]. intros u [->|Hu]%elem_of_cons; [done|auto].
    - split; [lra|]. intros u [->|Hu]%elem_of_cons; [lra|auto]. }
  intros Hr. apply H. by apply (list_elem_of_fmap_2 (λ r : Row, r.1.2)).
Qed.

Lemma lambda_hi_ge rows r : r ∈ rows → (row_fee r + row_slip r * row_cap r <= dval (lambda_hi rows))%Q.
Proof.
  unfold lambda_hi, row_fee, row_slip, row_cap.
  assert (H : ∀ l a, (dval a <= dval (fold_left (λ acc v, if dltb acc v then v else acc) l a))%Q ∧
    ∀ v, v ∈ l → (dval v <= dval (fold_left (λ acc v, if dltb acc v then v else acc) l a))%Q).
  { induction l as [|v l IH]; intros a; cbn [fold_left]; [split; [lra|by intros v ?%elem_of_nil]|].
    destruct (IH (if dltb a v then v else a)) as [H1 H2]. destruct (dltb a v) eqn:E; dec_to_Q.
    - split; [lra|]. intros u [->|Hu]%elem_of_cons; [done|auto].
    - split; [lra|]. intros u [->|Hu]%elem_of_cons; [lra|auto]. }
  intros Hr. rewrite <- dmul_exact, <- dadd_exact. apply H.
  by apply (list_elem_of_fmap_2 (λ r : Row, dadd r.1.2 (dmul r.2 (available_qty r.1.1)))).
Qed.

(** The bracket's ends allocate nothing and everything. *)
Lemma allocated_lo rows : Forall steep rows → (allocated (lambda_lo rows) rows == 0)%Q.
Proof.
  intros Hr. pose proof (λ r, lambda_lo_le rows r) as Hlo. generalize (lambda_lo rows) Hlo. clear Hlo.
  induction Hr as [|r rows [Hs Hc] _ IH]; intros lo Hlo; [done|]. rewrite allocated_cons, IH by (intros; apply Hlo; by right).
  specialize (Hlo r ltac:(by left)). pose proof dec0_val as H0.
  unfold row_qty, qty_at_lambda, row_fee, row_slip, row_cap in *. destruct (dleb r.2 dec0) eqn:Es; [exfalso; dec_to_Q; lra|].
  assert (Hd : (dval (ddiv (dsub lo r.1.2) r.2) <= 0)%Q).
  { rewrite ddiv_exact, dsub_exact by lra. apply Qle_shift_div_r; lra. }
  set (d := ddiv _ _) in *. clearbody d. unfold dmin, dmax. destruct (dleb d dec0) eqn:E;
    [destruct (dleb dec0 (available_qty r.1.1)) eqn:E1|destruct (dleb d (available_qty r.1.1)) eqn:E1]; dec_to_Q; lra.
Qed.

Lemma allocated_hi rows : Forall steep rows → (allocated (lambda_hi rows) rows == qsum (row_cap <$> rows))%Q.
Proof.
  intros Hr. pose proof (λ r, lambda_hi_ge rows r) as Hhi. generalize (lambda_hi rows) Hhi. clear Hhi.
  induction Hr as [|r rows [Hs Hc] _ IH]; intros hi Hhi; [done|]. rewrite allocated_cons, IH by (intros; apply Hhi; by right).
  specialize (Hhi r ltac:(by left)). pose proof dec0_val as H0.
  unfold row_qty, qty_at_lambda, row_fee, row_slip, row_cap in *. destruct (dleb r.2 dec0) eqn:Es; [exfalso; dec_to_Q; lra|].
  assert (Hd : (dval (available_qty r.1.1) <= dval (ddiv (dsub hi r.1.2) r.2))%Q).
  { rewrite ddiv_exact, dsub_exact by lra. apply Qle_shift_div_l; lra. }
  set (d := ddiv _ _) in *. clearbody d. unfold dmin, dmax. cbn [fmap list_fmap qsum]. destruct (dleb d dec0) eqn:E;
    [exfalso; dec_to_Q; lra|destruct (dleb d (available_qty r.1.1)) eqn:E1]; dec_to_Q; lra.
Qed.

Lemma bracket_open rows : rows ≠ [] → Forall steep rows → (dval (lambda_lo rows) < dval (lambda_hi rows))%Q.
Proof.
  intros Hne Hr. destruct rows as [|r rows]; [done|]. apply Forall_cons in Hr as [[Hs Hc] _].
  pose proof (lambda_lo_le (r :: rows) r ltac:(by left)). pose proof (lambda_hi_ge (r :: rows) r ltac:(by left)).
  assert (0 < row_slip r * row_cap r)%Q by (apply Qmult_lt_0_compat; lra). lra.
Qed.

Lemma convex_lambda_close cr rows goal : rows ≠ [] → Forall steep rows →
  (0 <= dval goal <= qsum (row_cap <$> rows))%Q →
  let lambda := convex_lambda cr rows goal in
  let width := (dval (lambda_hi rows) - dval (lambda_lo rows))%Q in
  let miss := (allocated lambda rows - dval goal)%Q in
  (dval (lambda_lo rows) <= dval lambda <= dval (lambda_hi rows))%Q ∧
  ((Qabs miss <= dval (bisect_tol cr))%Q ∨
   (Qabs miss * inject_Z (2 ^ Z.of_nat (max_iter cr)) <= width * slope rows)%Q).
Proof.
  intros Hne Hr Hg. pose proof (bracket_open rows Hne Hr) as Hw. unfold convex_lambda.
  rewrite (proj2 (dleb_gt (lambda_hi rows) (lambda_lo rows))) by exact Hw.
  pose proof (bisect_range (max_iter cr) rows goal (bisect_tol cr) (lambda_lo rows) (lambda_hi rows) ltac:(lra)) as H1.
  pose proof (bisect_close (max_iter cr) rows goal (bisect_tol cr) Hr (lambda_lo rows) (lambda_hi rows) ltac:(lra)) as H2.
  rewrite allocated_lo, allocated_hi in H2 by done. specialize (H2 Hg).
  destruct (bisect _ _ _ _ _ _) as [lo hi]. split; [exact H1|exact H2].
Qed.

Lemma effective_target_val rows target : (dval (effective_target rows target) == Qmin (dval target) (qsum (row_cap <$> rows)))%Q.
Proof. unfold effective_target. rewrite dmin_val, dsum_val. unfold vals. by rewrite <- list_fmap_compose. Qed.

Lemma convex_route_steep cr side target urgency snapshots :
  let u := clamp_urgency urgency in
  let rows := convex_rows (cost_model cr) side u snapshots in
  let goal := effective_target rows target in
  dleb target dec0 = false → rows ≠ [] → Forall steep rows →
  convex_route cr side target urgency snapshots =
    let '(ls, f) := convex_fill goal (convex_lambda cr rows goal) (dleb TAKER_THRESHOLD u) (sort_by row_leb rows) dec0 in
    mkRouteDecision side target f (dleb target f) ls.
Proof.
  intros u rows goal E0 Hne Hr. unfold convex_route. rewrite E0. fold u. change (convex_rows _ _ _ _) with rows.
  subst goal. destruct rows as [|x l]; [done|].
  assert (Hf0 : forallb (λ r : Row, dleb r.2 dec0) (x :: l) = false); [|by rewrite Hf0].
  apply Forall_cons in Hr as [[Hx _] _]. cbn. unfold row_slip in Hx. pose proof dec0_val.
  destruct (dleb x.2 dec0) eqn:E; [exfalso; dec_to_Q; lra|done].
Qed.

(** In ideal arithmetic, when every available snapshot has slippage, the convex
    route of a positive target falls short of what the target and the capacity allow by at
    most [miss], which is within the tolerance or within what the halved bracket
    can hold, gives each leg to a snapshot of its own within what that has, and
    costs no more than any split of the same quantity but for the [miss] at the
    price of the bracket's width. *)
Theorem convex_route_near_optimal cr side target urgency snapshots :
  let rows := convex_rows (cost_model cr) side (clamp_urgency urgency) snapshots in
  let r := convex_route cr side target urgency snapshots in
  let goal := Qmin (dval target) (qsum (row_cap <$> rows)) in
  let width := (dval (lambda_hi rows) - dval (lambda_lo rows))%Q in
  (0 < dval target)%Q → rows ≠ [] → Forall steep rows →
  (dval (filled_qty r) == legs_qty (legs r))%Q ∧
  (∃ used, used ⊆+ rows ∧ Forall2 (row_leg (dleb TAKER_THRESHOLD (clamp_urgency urgency))) (legs r) used) ∧
  ∃ miss, (0 <= miss)%Q ∧
    ((miss <= dval (bisect_tol cr))%Q ∨ (miss * inject_Z (2 ^ Z.of_nat (max_iter cr)) <= width * slope rows)%Q) ∧
    (goal - miss <= dval (filled_qty r) <= goal)%Q ∧
    ∀ split, split.*1 = rows → fits_rows split → (qsum split.*2 == dval (filled_qty r))%Q →
      (dval (total_expected_cost_bps r) <= split_cost split + width * miss)%Q.
Proof.
  intros rows r goal width Ht Hne Hr. pose proof dec0_val as H0.
  destruct (dleb target dec0) eqn:E0; [exfalso; dec_to_Q; lra|].
  unfold r. rewrite (convex_route_steep cr side target urgency snapshots E0 Hne Hr). fold rows.
  pose proof (effective_target_val rows target) as Hgoal. fold goal in Hgoal.
  assert (Hcaps : (0 <= qsum (row_cap <$> rows))%Q).
  { clear -Hr. induction Hr as [|x l [_ Hx] _ IH]; cbn; lra. }
  assert (Hg : (0 <= dval (effective_target rows target) <= qsum (row_cap <$> rows))%Q).
  { rewrite Hgoal. unfold goal. split; [apply Q.min_glb; lra|apply Q.le_min_r]. }
  destruct (convex_lambda_close cr rows (effective_target rows target) Hne Hr Hg) as [Hlam Hmiss].
  set (lambda := convex_lambda cr rows _) in *. set (taker := dleb TAKER_THRESHOLD _).
  assert (Hp : sort_by row_leb rows ≡ₚ rows) by apply sort_by_perm.
  pose proof (steep_ok rows Hr) as Hok.
  pose proof (convex_fill_spec (effective_target rows target) lambda taker (sort_by row_leb rows) dec0 ltac:(lra)
    ltac:(by rewrite Hp)) as H.
  destruct (convex_fill _ _ _ _ _) as [ls f]. cbn [filled_qty legs].
  destruct H as (Hf & Hq & (used & Hu & Hlegs) & Hopt).
  assert (Ea : (allocated lambda (sort_by row_leb rows) == allocated lambda rows)%Q) by by apply qsum_perm; rewrite Hp.
  assert (Ec : (allocated_cost lambda (sort_by row_leb rows) == allocated_cost lambda rows)%Q) by by apply qsum_perm; rewrite Hp.
  rewrite Ea in Hq. rewrite H0 in Hf, Hq. rewrite Hgoal in Hq, Hmiss.
  split; [lra|]. split; [exists used; split; [by rewrite <- Hp|done]|].
  exists (Qabs (allocated lambda rows - goal)). split; [apply Qabs_nonneg|]. split; [exact Hmiss|].
  assert (Hmin : (Qabs (allocated lambda rows - goal) == allocated lambda rows - goal /\ legs_qty ls == goal /\ goal <= allocated lambda rows \/
    Qabs (allocated lambda rows - goal) == goal - allocated lambda rows /\ legs_qty ls == allocated lambda rows /\ allocated lambda rows <= goal)%Q).
  { destruct (Q.min_spec (goal - 0) (allocated lambda rows)) as [[Hlt Em]|[Hge Em]].
    - left. split; [apply Qabs_pos; lra|lra].
    - right. split; [rewrite Qabs_neg by lra; ring|lra]. }
  clearbody goal lambda. split; [destruct Hmin as [(? & ? & ?)|(? & ? & ?)]; lra|].
  intros split Es Hfit Hs. rewrite total_cost_val. cbn [legs].
  assert (Hc : Forall (λ r, dval (lambda_lo rows) <= row_fee r)%Q (sort_by row_leb rows)).
  { apply Forall_forall. intros x Hx. apply lambda_lo_le. by rewrite <- Hp. }
  specialize (Hopt _ Hc). rewrite Ea, Ec in Hopt. rewrite <- Es in Hok.
  pose proof (allocated_minimal lambda split Hok Hfit) as Hm. rewrite Es in Hm.
  assert (Hs' : (qsum split.*2 == legs_qty ls)%Q) by lra. rewrite Hs' in Hm. unfold width.
  assert (Hstep : (legs_cost ls <= split_cost split + (dval lambda - dval (lambda_lo rows)) * (allocated lambda rows - legs_qty ls))%Q) by lra.
  assert (Hm1 : (0 <= (dval (lambda_hi rows) - dval lambda) * Qabs (allocated lambda rows - goal))%Q)
    by (apply Qmult_le_0_compat; [lra|apply Qabs_nonneg]).
  assert (Hm2 : (0 <= (dval lambda - dval (lambda_lo rows)) * Qabs (allocated lambda rows - goal))%Q)
    by (apply Qmult_le_0_compat; [lra|apply Qabs_nonneg]).
  destruct Hmin as [(E & El & _)|(E & El & _)]; rewrite El in Hstep; [rewrite E in *; lra|].
  assert (Ez : (allocated lambda rows - allocated lambda rows == 0)%Q) by ring. rewrite Ez in Hstep. lra.
Qed.
End Convex.

(** ** Witnesses *)
Definition demo_snapshot (v : VenueId) (qty taker slip : Z) : VenueSnapshot (D := Qc_decimal) :=
  mkVenueSnapshot v "BTCUSDT" (dlit qty 0) 5 dec0 (dlit taker 0) dec0 dec0 dec0 (dlit slip 0).

(** Two units at 2 and one at 5 cost 9; one at 2 and two at 5 cost 12. *)
Lemma greedy_route_cheapest_witness :
  let snaps := [demo_snapshot Bybit 4 5 0; demo_snapshot Binance 2 2 0] in
  let r := greedy_route default_v1 Buy (dlit 3 0) dec1 snaps in
  (dval (filled_qty r) == 3 /\ legs_cost (legs r) <= 12)%Q.
Proof.
  intros snaps r.
  destruct (greedy_route_cheapest 0 default_v1 Buy (dlit 3 0) dec1 snaps ltac:(lia)) as (Hf & _ & _ & _ & Hopt).
  - by exists 3%Z.
  - by vm_compute.
  - repeat constructor; [by exists 4%Z|by exists 2%Z].
  - by vm_compute.
  - split; [eapply Qeq_trans; [exact Hf|by vm_compute]|].
    set (avail := price_available default_v1 Buy (clamp_urgency dec1) snaps) in *.
    eapply Qle_trans; [apply (Hopt (zip avail [2%Q; 1%Q]))|]; [done| |by vm_compute|by vm_compute].
    repeat constructor; by vm_compute.
Defined.

(** Two venues of equal capacity, slippage 1 and 3: the split is 3 to 1. *)
Lemma convex_route_near_optimal_witness :
  let snaps := [demo_snapshot Bybit 10 0 1; demo_snapshot Binance 10 0 3] in
  let r := convex_route (convex_new default_v1) Buy (dlit 4 0) dec1 snaps in
  (dval (filled_qty r) <= 4)%Q.
Proof.
  intros snaps r.
  destruct (convex_route_near_optimal (convex_new default_v1) Buy (dlit 4 0) dec1 snaps) as (_ & _ & miss & _ & _ & Hf & _);
    [by vm_compute|done|repeat constructor; by vm_compute|].
  eapply Qle_trans; [apply Hf|]. by vm_compute.
Defined.

(** Next to a venue with slippage, a venue without any whose fee is the highest
    bound of the bracket is never used: the bisection stays below its fee, and
    two of five units are routed although twelve are available. *)
Example linear_venue_starved :
  let r := convex_route (convex_new default_v1) Buy (dlit 5 0) dec1
    [demo_snapshot Bybit 10 5 0; demo_snapshot Binance 2 0 1] in
  (leg_venue <$> legs r, Qeq_bool (dval (filled_qty r)) 2, is_complete r) = ([Binance], true, false).
Proof. vm_compute. reflexivity. Qed.
