(* ===== verification/SorDispatch.v ===== *)
(** * Dispatching a route ([crates/engine/src/sor/dispatch.rs] and the SOR tick
    of [crates/engine/src/market_maker.rs])

    The connectors of the bundle work on a world of their own, in the monad of
    [Prelude]: [conn_unwind] is [OrderManager::execute_unwind_slice] on the
    connector ([OrderExec]), the rest are its methods. The tick turns the excess
    inventory or the hedge basket into a target, routes it over the snapshots
    collected from the connectors, and dispatches the legs. *)
From stdpp Require Import base gmap sets list strings sorting.
From Stdlib Require Import ZArith QArith Qabs Qminmax Qround Lqa Lia.
From S2P Require Import Prelude Decimal Types OrderManager OrderExec Venues Router.
Local Open Scope string_scope.
Local Open Scope nat_scope.
Local Open Scope list_scope.
Local Open Scope prog_scope.

Section Dispatch.
Context {D : Decimal} {I : HashMapIter} {W : Type}.

Record Connector := mkConnector {
  conn_venue : VenueId;
  conn_product : VenueProduct;
  conn_remaining : M W Z;
  conn_orderbook : string → M W (option (list PriceLevel * list PriceLevel));
  conn_unwind : string → Quote → ProductSpec → M W (result unit string);
  conn_post : NewOrder → M W (result OrderId string);
}.

(** [ConnectorBundle::all_connectors]: the primary, the hedge, the extras. *)
Record ConnectorBundle := mkBundle { primary : Connector; hedge : option Connector; extra : list Connector }.
Definition all_connectors (b : ConnectorBundle) : list Connector := primary b :: option_list (hedge b) ++ extra b.

Record LegOutcome := mkLegOutcome {
  lg_venue : VenueId;
  lg_target : dec;
  dispatched_qty : dec;
  lg_is_taker : bool;
  lg_cost : dec;
  lg_error : option string;
}.

Record DispatchOutcome := mkDispatchOutcome {
  do_side : Side;
  total_target_qty : dec;
  total_dispatched_qty : dec;
  do_legs : list LegOutcome;
  do_errors : list string;
}.

Definition leg_succeeded (o : LegOutcome) : bool := is_none (lg_error o) && deqb (dispatched_qty o) (lg_target o).
Definition is_fully_dispatched (o : DispatchOutcome) : bool :=
  match do_errors o with [] => deqb (total_dispatched_qty o) (total_target_qty o) | _ => false end.
Definition dispatch_empty (side : Side) (target : dec) : DispatchOutcome := mkDispatchOutcome side target dec0 [] [].

Definition connector_for (b : ConnectorBundle) (venue : VenueId) (product : option VenueProduct) : option Connector :=
  find (λ c, bool_decide (conn_venue c = venue) &&
    match product with Some p => bool_decide (conn_product c = p) | None => true end) (all_connectors b).

Definition venue_debug (v : VenueId) : string :=
  match v with
  | Custom => "Custom" | Binance => "Binance" | Bybit => "Bybit" | Okx => "Okx" | Kraken => "Kraken"
  | Coinbase => "Coinbase" | HyperLiquid => "HyperLiquid"
  end.

Definition pick_reference_price (c : Connector) (symbol : string) (side : Side) : M W (option dec) :=
  let! book := conn_orderbook c symbol in
  mret (match book with
        | Some (bids, asks) => pl_price <$> head (match side with Buy => asks | Sell => bids end)
        | None => None
        end).

Definition leg_failed (l : RouteLeg) (taker : bool) (why : string) : LegOutcome :=
  mkLegOutcome (leg_venue l) (leg_qty l) dec0 taker (expected_cost_bps l) (Some why).
Definition leg_done (l : RouteLeg) (taker : bool) (qty : dec) : LegOutcome :=
  mkLegOutcome (leg_venue l) (leg_qty l) qty taker (expected_cost_bps l) None.

Definition dispatch_single_leg (l : RouteLeg) (side : Side) (b : ConnectorBundle) (product : ProductSpec)
    (symbol : string) : M W LegOutcome :=
  match connector_for b (leg_venue l) (leg_product l) with
  | None => mret (leg_failed l (is_taker l) ("bundle has no connector for " +:+ venue_debug (leg_venue l)))
  | Some c =>
      let! ref_price := pick_reference_price c symbol side in
      let qty := round_qty product (leg_qty l) in
      if is_zero qty then mret (leg_failed l (is_taker l) "rounded qty is zero")
      else
        match ref_price with
        | None => mret (leg_failed l (is_taker l) "no top-of-book reference price on venue")
        | Some p =>
            let price := round_price product p in
            if is_taker l then
              let! r := conn_unwind c symbol (mkQuote side price qty) product in
              mret (match r with Ok _ => leg_done l true qty | Err e => leg_failed l true e end)
            else
              let! r := conn_post c (mkNewOrder symbol side Limit (Some price) qty (Some PostOnly) None false) in
              mret (match r with Ok _ => leg_done l false qty | Err e => leg_failed l false e end)
        end
  end.

Definition dispatch_route (d : RouteDecision) (b : ConnectorBundle) (product : ProductSpec) (symbol : string) :
    M W DispatchOutcome :=
  match legs d with
  | [] => mret (dispatch_empty (target_side d) (target_qty d))
  | ls =>
      let! outs := mmap_M (λ l, dispatch_single_leg l (target_side d) b product symbol) ls in
      mret (mkDispatchOutcome (target_side d) (target_qty d) (fold_left (λ acc o, dadd acc (dispatched_qty o)) outs dec0)
              outs (omap lg_error outs))
  end.

(** ** The tick *)
Inductive SorTargetSource := InventoryExcess | HedgeBudget.

Definition inventory_target (inv threshold : dec) : option (Side * dec) :=
  let excess := dsub (dabs inv) (dabs threshold) in
  if dleb excess dec0 then None else Some (if dltb dec0 inv then Sell else Buy, excess).

Definition hedge_target (symbol : string) (basket : list (string * dec)) : option (Side * dec) :=
  match find (λ e, bool_decide (e.1 = symbol)) basket with
  | Some (_, qty) => if is_zero qty then None else Some (if dltb dec0 qty then Buy else Sell, dabs qty)
  | None => None
  end.

(** [collect]: every connector is asked for its remaining budget in turn. *)
Definition collect_snapshots (b : ConnectorBundle) (a : VenueStateAggregator) : M W (list VenueSnapshot) :=
  let! answers := mmap_M (λ c, let! remaining := conn_remaining c in mret (conn_venue c, conn_product c, remaining)) (all_connectors b) in
  mret (collect answers a).

Definition recommend_route (side : Side) (qty urgency : dec) (b : ConnectorBundle) (a : VenueStateAggregator) :
    M W RouteDecision :=
  let! snapshots := collect_snapshots b a in
  mret (greedy_route default_v1 side qty urgency snapshots).

Definition run_sor_dispatch_tick (source : SorTargetSource) (inv threshold urgency : dec) (basket : list (string * dec))
    (b : ConnectorBundle) (a : VenueStateAggregator) (product : ProductSpec) (symbol : string) :
    M W (option DispatchOutcome) :=
  match (match source with InventoryExcess => inventory_target inv threshold | HedgeBudget => hedge_target symbol basket end) with
  | None => mret None
  | Some (side, qty) =>
      let! d := recommend_route side qty urgency b a in
      let! o := dispatch_route d b product symbol in
      mret (Some o)
  end.
End Dispatch.

(** ** A tick never moves the inventory past its threshold *)
Section Tick.
Context {D : Decimal} {L : DecimalExact D} {I : HashMapIter} {W : Type}.
Implicit Types (b : ConnectorBundle (W := W)) (w : W).

(** Every call of the connector returns. *)
Definition answers (c : Connector (W := W)) : Prop :=
  (∀ w, ∃ a w', conn_remaining c w = Done (a, w')) ∧ (∀ s w, ∃ a w', conn_orderbook c s w = Done (a, w')) ∧
  (∀ s q p w, ∃ a w', conn_unwind c s q p w = Done (a, w')) ∧ (∀ o w, ∃ a w', conn_post c o w = Done (a, w')).

(** The run returns a value in [R], from any world. *)
Definition returns {A} (m : M W A) (R : A → Prop) : Prop := triple (λ _, True) m (λ a _, R a).

Lemma returns_ret {A} (a : A) (R : A → Prop) : R a → returns (mret a) R.
Proof. intros H. by apply triple_ret. Qed.
Lemma returns_bind {A B} (m : M W A) (f : A → M W B) (R : A → Prop) (R' : B → Prop) :
  returns m R → (∀ a, R a → returns (f a) R') → returns (mbind_M m f) R'.
Proof.
  intros Hm Hf w _. destruct (Hm w Logic.I) as (a & w' & E & Ha). destruct (Hf a Ha w' Logic.I) as (b' & w'' & E' & Hb).
  exists b', w''. unfold mbind_M. by rewrite E.
Qed.
Lemma returns_mmap {A B} (f : A → M W B) (R : A → B → Prop) l :
  (∀ x, x ∈ l → returns (f x) (R x)) → returns (mmap_M f l) (λ ys, Forall2 R l ys).
Proof.
  induction l as [|x l IH]; intros H; cbn [mmap_M]; [apply returns_ret; constructor|].
  eapply returns_bind; [apply H; by left|]. intros y Hy. eapply returns_bind; [apply IH; intros; apply H; by right|].
  intros ys Hys. apply returns_ret. by constructor.
Qed.

(** What a leg dispatches: nothing with an error, or its quantity rounded down
    to the lot. *)
Definition leg_within (l : RouteLeg) (o : LegOutcome) : Prop :=
  lg_venue o = leg_venue l ∧ lg_target o = leg_qty l ∧
  (0 <= dval (dispatched_qty o) /\ dval (dispatched_qty o) <= dval (leg_qty l))%Q ∧
  (is_Some (lg_error o) → dispatched_qty o = dec0).

Lemma round_qty_within p q : (0 < dval (lot_size p))%Q → (0 <= dval q)%Q →
  (0 <= dval (round_qty p q) /\ dval (round_qty p q) <= dval q)%Q.
Proof.
  intros Hl Hq. unfold round_qty. rewrite dmul_exact, dfloor_val, ddiv_exact by lra.
  pose proof (Qfloor_le (dval q / dval (lot_size p))) as H.
  assert (H0 : (0 <= dval q / dval (lot_size p))%Q) by (apply Qle_shift_div_l; lra).
  assert (Hf : (0 <= inject_Z (Qfloor (dval q / dval (lot_size p))))%Q).
  { change 0%Q with (inject_Z 0). rewrite <- Zle_Qle. change 0%Z with (Qfloor 0). by apply Qfloor_resp_le. }
  split; [apply Qmult_le_0_compat; lra|].
  assert (E : (dval q == dval q / dval (lot_size p) * dval (lot_size p))%Q) by (field; lra).
  rewrite E at 2. apply Qmult_le_compat_r; lra.
Qed.

Lemma single_leg_within b l side product symbol : Forall answers (all_connectors b) →
  (0 < dval (lot_size product))%Q → (0 < dval (leg_qty l))%Q →
  returns (dispatch_single_leg l side b product symbol) (leg_within l).
Proof.
  intros Hb Hlot Hq. pose proof dec0_val as H0. unfold dispatch_single_leg.
  assert (Hfail : ∀ t why, leg_within l (leg_failed l t why)).
  { intros t why. unfold leg_within. cbn. split_and!; try done; lra. }
  assert (Hdone : ∀ t, leg_within l (leg_done l t (round_qty product (leg_qty l)))).
  { intros t. unfold leg_within. cbn. pose proof (round_qty_within product (leg_qty l) Hlot ltac:(lra)).
    split_and!; try done; lra. }
  destruct (connector_for b _ _) as [c|] eqn:Ec; [|by apply returns_ret].
  assert (Hc : answers c).
  { unfold connector_for in Ec. apply find_some in Ec as [Hin _]. rewrite Forall_forall in Hb.
    by apply Hb, list_elem_of_In. }
  destruct Hc as (_ & Hbook & Hunw & Hpost).
  apply (returns_bind _ _ (λ _, True)).
  { intros w _. destruct (Hbook symbol w) as (a & w' & E). unfold pick_reference_price. rewrite (bind_done _ _ _ _ _ E). by do 2 eexists. }
  intros ref _. destruct (is_zero _); [by apply returns_ret|]. destruct ref as [p|]; [|by apply returns_ret].
  destruct (is_taker l); apply (returns_bind _ _ (λ _, True)).
  - intros w _. destruct (Hunw symbol (mkQuote side (round_price product p) (round_qty product (leg_qty l))) product w) as (a & w' & E).
    by exists a, w'.
  - intros [] _; by apply returns_ret.
  - intros w _. destruct (Hpost (mkNewOrder symbol side Limit (Some (round_price product p)) (round_qty product (leg_qty l))
      (Some PostOnly) None false) w) as (a & w' & E). by exists a, w'.
  - intros [] _; by apply returns_ret.
Qed.

Lemma collect_returns b a : Forall answers (all_connectors b) → returns (collect_snapshots b a) (λ _, True).
Proof.
  intros Hb. unfold collect_snapshots. apply (returns_bind _ _ (λ _, True)); [|intros ? _; by apply returns_ret].
  intros w _. destruct (returns_mmap (λ c : Connector, mbind_M (conn_remaining c) (λ n, mret (conn_venue c, conn_product c, n)))
    (λ _ _, True) (all_connectors b)) with (s := w) as (ys & w' & E & _); [|done|by exists ys, w'].
  intros c Hc. rewrite Forall_forall in Hb. destruct (Hb c Hc) as (H & _).
  intros w1 _. destruct (H w1) as (n & w2 & E). rewrite (bind_done _ _ _ _ _ E). by do 2 eexists.
Qed.

(** A dispatch reports every leg, and as its total their sum. *)
Definition dispatch_within (d : RouteDecision) (o : DispatchOutcome) : Prop :=
  do_side o = target_side d ∧ total_target_qty o = target_qty d ∧ Forall2 leg_within (legs d) (do_legs o) ∧
  do_errors o = omap lg_error (do_legs o) ∧
  (dval (total_dispatched_qty o) == qsum (vals (dispatched_qty <$> do_legs o)))%Q.

Lemma dispatched_sum outs : (dval (fold_left (λ acc o, dadd acc (dispatched_qty o)) outs dec0) ==
  qsum (vals (dispatched_qty <$> outs)))%Q.
Proof.
  rewrite <- dsum_val. unfold dsum. generalize dec0. induction outs as [|o outs IH]; intros a; [done|]. apply IH.
Qed.

Lemma dispatch_returns d b product symbol : Forall answers (all_connectors b) → (0 < dval (lot_size product))%Q →
  Forall (λ l, 0 < dval (leg_qty l))%Q (legs d) → returns (dispatch_route d b product symbol) (dispatch_within d).
Proof.
  intros Hb Hlot Hq. unfold dispatch_route. assert (H : ∀ ls, ls = legs d → returns
    (mbind_M (mmap_M (λ l, dispatch_single_leg l (target_side d) b product symbol) ls) (λ outs,
      mret (mkDispatchOutcome (target_side d) (target_qty d) (fold_left (λ acc o, dadd acc (dispatched_qty o)) outs dec0)
        outs (omap lg_error outs)))) (dispatch_within d)).
  { intros ls ->. eapply returns_bind; [apply (returns_mmap _ leg_within)|].
    - intros l Hl. apply single_leg_within; [done..|]. rewrite Forall_forall in Hq. by apply Hq.
    - intros outs Ho. apply returns_ret. split_and!; try done. apply dispatched_sum. }
  specialize (H _ eq_refl). destruct (legs d) as [|l ls] eqn:E; [|exact H]. apply returns_ret. unfold dispatch_within.
  rewrite E. split_and!; try done. cbn. apply dec0_val.
Qed.

Lemma within_total d o : dispatch_within d o → (0 <= dval (total_dispatched_qty o) /\
  dval (total_dispatched_qty o) <= legs_qty (legs d))%Q.
Proof.
  intros (_ & _ & Hl & _ & E). rewrite E. clear E. unfold legs_qty.
  induction Hl as [|l x ls xs (_ & _ & Hx & _) _ IH]; cbn; [lra|]. unfold vals in IH. lra.
Qed.

Definition inventory_after (inv : dec) (o : DispatchOutcome) : Q :=
  match do_side o with
  | Buy => (dval inv + dval (total_dispatched_qty o))%Q
  | Sell => (dval inv - dval (total_dispatched_qty o))%Q
  end.

Lemma reduce_long (i t d : Q) : (0 < i)%Q → (0 <= d)%Q → (d <= Qabs i - Qabs t)%Q →
  (Qabs t <= Qabs (i - d))%Q ∧ (Qabs (i - d) <= Qabs i)%Q ∧ (0 <= (i - d) * i)%Q.
Proof.
  intros Hi Hd Hle. rewrite (Qabs_pos i) in * by lra. pose proof (Qabs_nonneg t). rewrite (Qabs_pos (i - d)) by lra.
  split; [lra|]. split; [lra|]. apply Qmult_le_0_compat; lra.
Qed.

(** In the inventory mode a tick always returns, acts exactly when the
    inventory exceeds the threshold, and whatever the venues answer and the
    router splits, the quantity it dispatches leaves the inventory, once filled,
    between the threshold and where it was, on its side of zero. *)
Theorem tick_stays_past_threshold inv threshold urgency basket b a product symbol w :
  Forall answers (all_connectors b) → (0 < dval (lot_size product))%Q →
  ∃ r w', run_sor_dispatch_tick InventoryExcess inv threshold urgency basket b a product symbol w = Done (r, w') ∧
    (is_Some r ↔ (Qabs (dval threshold) < Qabs (dval inv))%Q) ∧
    ∀ o, r = Some o →
      (Qabs (dval threshold) <= Qabs (inventory_after inv o) /\ Qabs (inventory_after inv o) <= Qabs (dval inv) /\
       0 <= inventory_after inv o * dval inv)%Q ∧
      Forall (λ l, 0 <= dval (dispatched_qty l) /\ dval (dispatched_qty l) <= dval (lg_target l))%Q (do_legs o).
Proof.
  intros Hb Hlot. unfold run_sor_dispatch_tick, inventory_target. pose proof dec0_val as H0.
  assert (Ex : (dval (dsub (dabs inv) (dabs threshold)) == Qabs (dval inv) - Qabs (dval threshold))%Q)
    by by rewrite dsub_exact, !dabs_val.
  set (excess := dsub _ _) in *. destruct (dleb excess dec0) eqn:E; dec_to_Q.
  { exists None, w. split; [done|]. split; [|done]. split; [by intros [? ?]|]. intros. exfalso. lra. }
  set (side := if dltb dec0 inv then Sell else Buy).
  assert (Hr : returns (mbind_M (recommend_route side excess urgency b a) (λ d,
    mbind_M (dispatch_route d b product symbol) (λ o, mret (Some o)))) (λ r, ∃ o, r = Some o ∧ do_side o = side ∧
      (0 <= dval (total_dispatched_qty o) /\ dval (total_dispatched_qty o) <= dval excess)%Q ∧
      Forall (λ l, 0 <= dval (dispatched_qty l) /\ dval (dispatched_qty l) <= dval (lg_target l))%Q (do_legs o))).
  { apply (returns_bind _ _ (λ d, target_side d = side ∧ (legs_qty (legs d) <= dval excess)%Q ∧
      Forall (λ l, 0 < dval (leg_qty l))%Q (legs d))).
    - unfold recommend_route. eapply returns_bind; [apply (collect_returns b a Hb)|]. intros snaps _.
      apply returns_ret. destruct (greedy_route_within (λ _, True) default_v1 side excess urgency snaps (ideal_below _) ltac:(by apply Forall_true) ltac:(lra)) as (? & _ & ? & ?). done.
    - intros d (Hs & Hq & Hl). eapply returns_bind; [by apply dispatch_returns|]. intros o Ho. apply returns_ret.
      exists o. split; [done|]. pose proof (within_total d o Ho). destruct Ho as (-> & _ & Ho & _ & _). split; [done|].
      split; [lra|]. clear -Ho. induction Ho as [|l x ls xs (_ & Et & Hx & _) _ IH]; constructor; [by rewrite Et|done]. }
  destruct (Hr w Logic.I) as (r & w' & Er & o & -> & Hside & Htot & Hlegs). exists (Some o), w'. split; [exact Er|].
  split; [split; [intros _; lra|by eexists]|]. intros o' [= <-]. split; [|done]. unfold inventory_after. rewrite Hside. unfold side.
  destruct (dltb dec0 inv) eqn:Ei; dec_to_Q.
  - apply reduce_long; lra.
  - assert (Hi : (dval inv < 0)%Q).
    { destruct (Qlt_le_dec (dval inv) 0) as [|Hge]; [done|]. rewrite (Qabs_pos (dval inv)) in Ex by done.
      pose proof (Qabs_nonneg (dval threshold)). lra. }
    pose proof (reduce_long (- dval inv) (dval threshold) (dval (total_dispatched_qty o))) as H.
    rewrite Qabs_opp in H. specialize (H ltac:(lra) ltac:(lra) ltac:(lra)).
    assert (En : (- dval inv - dval (total_dispatched_qty o) == - (dval inv + dval (total_dispatched_qty o)))%Q) by ring.
    rewrite En, Qabs_opp in H. split; [lra|]. split; [lra|]. lra.
Qed.
End Tick.

(** ** Two products of one venue

    The world is the log of what was placed where. *)
Definition demo_connector (v : VenueId) (p : VenueProduct) : Connector (D := Qc_decimal) (W := list (VenueProduct * Q)) :=
  mkConnector v p (mret 10%Z) (λ _, mret (Some ([mkPriceLevel (dlit 99 0) dec1], [mkPriceLevel (dlit 101 0) dec1])))
    (λ _ q _ w, Done (Ok tt, w ++ [(p, dval (q_qty q))])) (λ o w, Done (Ok 1%N, w ++ [(p, dval (no_qty o))])).
Definition demo_product (taker_bps : Z) : ProductSpec (D := Qc_decimal) :=
  mkProductSpec "BTCUSDT" "BTC" "USDT" (dlit 1 2) (dlit 1 3) dec0 (dlit 1 4) (dlit taker_bps 4) Trading.
Definition demo_bundle := mkBundle (demo_connector Binance ProductSpot) (Some (demo_connector Binance LinearPerp)) [].
Definition demo_venues : VenueStateAggregator (D := Qc_decimal) :=
  register_venue Binance (with_venue_product LinearPerp (seed_new "BTCUSDT" (demo_product 5) (dlit 2 0)))
    (register_venue Binance (seed_new "BTCUSDT" (demo_product 10) (dlit 3 0)) ∅).

(** The route takes two units from the perpetual and one from spot; no leg names
    its product, so both are dispatched to the first connector of the venue. *)
Example legs_lose_product :
  match run_sor_dispatch_tick InventoryExcess (dlit 5 0) (dlit 2 0) dec1 [] demo_bundle demo_venues (demo_product 10)
          "BTCUSDT" [] with
  | Done (Some o, log) => (bool_decide (log.*1 = [ProductSpot; ProductSpot]), Qeq_bool (qsum log.*2) 3)
  | _ => (false, false)
  end = (true, true).
Proof. vm_compute. reflexivity. Qed.

Lemma tick_stays_past_threshold_witness : ∃ o w',
  run_sor_dispatch_tick InventoryExcess (dlit (-5) 0) (dlit 2 0) dec1 [] demo_bundle demo_venues (demo_product 10)
    "BTCUSDT" [] = Done (Some o, w') ∧ (2 <= Qabs (inventory_after (dlit (-5) 0) o))%Q.
Proof.
  assert (Ha : Forall answers (all_connectors demo_bundle)).
  { repeat constructor; intros; by do 2 eexists. }
  destruct (tick_stays_past_threshold (dlit (-5) 0) (dlit 2 0) dec1 [] demo_bundle demo_venues (demo_product 10) "BTCUSDT" []
    Ha ltac:(by vm_compute)) as (r & w' & E & Hr & Ho).
  destruct (proj2 Hr ltac:(by vm_compute)) as [o ->]. exists o, w'. split; [exact E|].
  destruct (Ho o eq_refl) as [(H & _ & _) _]. exact H.
Defined.
