(* ===== verification/Unwind.v ===== *)
(** * Unwinding a position ([crates/strategy/src/twap.rs], [paired_unwind.rs] and
    their use in [crates/engine/src/market_maker.rs])

    The time-sliced executors the kill switch starts at [FlattenAll]. The wall
    clock is a number of nanoseconds; [num_seconds] truncates towards zero, and
    the casts to [u64] and [u32] wrap as the code's do. *)
From stdpp Require Import base gmap sets list strings.
From Stdlib Require Import ZArith QArith Qabs Qminmax Qround Lqa Lia.
From S2P Require Import Prelude Decimal Types KillSwitch OrderManager OrderExec.
Local Open Scope string_scope.
Local Open Scope nat_scope.
Local Open Scope list_scope.
Local Open Scope prog_scope.

Section Unwind.
Context {D : Decimal}.

Definition num_seconds (ns : Z) : Z := Z.quot ns (10 ^ 9).

(** The slice that should have been reached by [now]. *)
Definition expected_slice (now started_at duration_secs num_slices : Z) : Z :=
  let elapsed := wrap_u64 (num_seconds (now - started_at)) in
  wrap_u32 (if (duration_secs =? 0)%Z then num_slices else wrap_u64 (elapsed * num_slices) / duration_secs).

Definition aggressive_price (side : Side) (mid bps : dec) : dec :=
  let offset := ddiv (dmul mid bps) (dlit 10000 0) in
  match side with Buy => dadd mid offset | Sell => dsub mid offset end.

(** ** [TwapExecutor] *)
Record TwapExecutor := mkTwap {
  tw_target_qty : dec;
  tw_side : Side;
  tw_symbol : string;
  duration_secs : Z;
  num_slices : Z;
  slice_qty : dec;
  executed_qty : dec;
  current_slice : Z;
  started_at : Z;
  aggressiveness_bps : dec;
  tw_active : bool;
}.

Definition twap_new (now : Z) (symbol : string) (side : Side) (target : dec) (duration slices : Z) (bps : dec) :
    TwapExecutor :=
  mkTwap target side symbol duration slices (ddiv target (dlit (Z.max slices 1) 0)) dec0 0 now bps true.

Definition with_start_delay (secs : Z) (t : TwapExecutor) : TwapExecutor :=
  mkTwap (tw_target_qty t) (tw_side t) (tw_symbol t) (duration_secs t) (num_slices t) (slice_qty t) (executed_qty t)
    (current_slice t) (if (0 <? secs)%Z then started_at t + secs * 10 ^ 9 else started_at t)%Z (aggressiveness_bps t)
    (tw_active t).

Definition twap_set (executed : dec) (slice : Z) (active : bool) (t : TwapExecutor) : TwapExecutor :=
  mkTwap (tw_target_qty t) (tw_side t) (tw_symbol t) (duration_secs t) (num_slices t) (slice_qty t) executed slice
    (started_at t) (aggressiveness_bps t) active.

Definition twap_is_complete (t : TwapExecutor) : bool := dleb (tw_target_qty t) (executed_qty t).

Definition twap_next_slice (now : Z) (mid : dec) (t : TwapExecutor) : option Quote * TwapExecutor :=
  if negb (tw_active t) || twap_is_complete t then (None, t)
  else
    let expected := expected_slice now (started_at t) (duration_secs t) (num_slices t) in
    if (expected <=? current_slice t)%Z then (None, t)
    else
      let remaining := dsub (tw_target_qty t) (executed_qty t) in
      let qty := dmin (slice_qty t) remaining in
      if dleb qty dec0 then (None, twap_set (executed_qty t) expected false t)
      else
        (Some (mkQuote (tw_side t) (aggressive_price (tw_side t) mid (aggressiveness_bps t)) qty),
         twap_set (executed_qty t) expected (tw_active t) t).

Definition twap_on_fill (qty : dec) (t : TwapExecutor) : TwapExecutor :=
  let t := twap_set (dadd (executed_qty t) qty) (current_slice t) (tw_active t) t in
  if twap_is_complete t then twap_set (executed_qty t) (current_slice t) false t else t.

Definition twap_progress (t : TwapExecutor) : dec :=
  if is_zero (tw_target_qty t) then dec1 else dmin (ddiv (executed_qty t) (tw_target_qty t)) dec1.

Definition twap_cancel (t : TwapExecutor) : TwapExecutor := twap_set (executed_qty t) (current_slice t) false t.

(** ** [PairedUnwindExecutor] *)
Record InstrumentPair := mkInstrumentPair {
  primary_symbol : string;
  hedge_symbol : string;
  multiplier : dec;
  funding_interval_secs : option Z;
  basis_threshold_bps : dec;
}.

Record SlicePair := mkSlicePair { sp_primary : option Quote; sp_hedge : option Quote }.
Definition slice_pair_empty : SlicePair := mkSlicePair None None.
Definition slice_pair_is_empty (s : SlicePair) : bool := is_none (sp_primary s) && is_none (sp_hedge s).

Record PairedUnwindExecutor := mkPaired {
  pu_pair : InstrumentPair;
  primary_side : Side;
  hedge_side : Side;
  target_primary : dec;
  target_hedge : dec;
  slice_primary : dec;
  slice_hedge : dec;
  executed_primary : dec;
  executed_hedge : dec;
  total_slices : Z;
  pu_current_slice : Z;
  pu_started_at : Z;
  pu_duration_secs : Z;
  pu_aggressiveness_bps : dec;
  pu_active : bool;
}.

Definition paired_new (now : Z) (pair : InstrumentPair) (side hside : Side) (qty : dec) (duration slices : Z) (bps : dec) :
    PairedUnwindExecutor :=
  let hedge_qty := dmul qty (multiplier pair) in
  let n := dlit (Z.max slices 1) 0 in
  mkPaired pair side hside qty hedge_qty (ddiv qty n) (ddiv hedge_qty n) dec0 dec0 slices 0 now duration bps true.

Definition paired_set (ep eh : dec) (slice start : Z) (active : bool) (u : PairedUnwindExecutor) : PairedUnwindExecutor :=
  mkPaired (pu_pair u) (primary_side u) (hedge_side u) (target_primary u) (target_hedge u) (slice_primary u) (slice_hedge u)
    ep eh (total_slices u) slice start (pu_duration_secs u) (pu_aggressiveness_bps u) active.

Definition paired_with_start_delay (secs : Z) (u : PairedUnwindExecutor) : PairedUnwindExecutor :=
  paired_set (executed_primary u) (executed_hedge u) (pu_current_slice u)
    (if (0 <? secs)%Z then pu_started_at u + secs * 10 ^ 9 else pu_started_at u)%Z (pu_active u) u.

Definition paired_is_complete (u : PairedUnwindExecutor) : bool :=
  dleb (target_primary u) (executed_primary u) && dleb (target_hedge u) (executed_hedge u).

Definition paired_progress (u : PairedUnwindExecutor) : dec :=
  let p := if is_zero (target_primary u) then dec1 else dmin (ddiv (executed_primary u) (target_primary u)) dec1 in
  let h := if is_zero (target_hedge u) then dec1 else dmin (ddiv (executed_hedge u) (target_hedge u)) dec1 in
  ddiv (dadd p h) (dlit 2 0).

Definition residual_delta (u : PairedUnwindExecutor) : dec :=
  let primary_remaining := dsub (target_primary u) (executed_primary u) in
  let hedge_remaining := dsub (target_hedge u) (executed_hedge u) in
  dsub primary_remaining
    (if is_zero (multiplier (pu_pair u)) then hedge_remaining else ddiv hedge_remaining (multiplier (pu_pair u))).

Definition leg_quote (side : Side) (mid bps qty : dec) : option Quote :=
  if dltb dec0 qty then Some (mkQuote side (aggressive_price side mid bps) qty) else None.

Definition paired_next_slice (now : Z) (primary_mid hedge_mid : dec) (u : PairedUnwindExecutor) :
    SlicePair * PairedUnwindExecutor :=
  if negb (pu_active u) || paired_is_complete u then (slice_pair_empty, u)
  else
    let expected := expected_slice now (pu_started_at u) (pu_duration_secs u) (total_slices u) in
    if (expected <=? pu_current_slice u)%Z then (slice_pair_empty, u)
    else
      let pq := dmin (slice_primary u) (dsub (target_primary u) (executed_primary u)) in
      let hq := dmin (slice_hedge u) (dsub (target_hedge u) (executed_hedge u)) in
      let u' active := paired_set (executed_primary u) (executed_hedge u) expected (pu_started_at u) active u in
      if dleb pq dec0 && dleb hq dec0 then (slice_pair_empty, u' false)
      else
        (mkSlicePair (leg_quote (opposite (primary_side u)) primary_mid (pu_aggressiveness_bps u) pq)
           (leg_quote (opposite (hedge_side u)) hedge_mid (pu_aggressiveness_bps u) hq), u' (pu_active u)).

Definition paired_finish (u : PairedUnwindExecutor) : PairedUnwindExecutor :=
  if paired_is_complete u
  then paired_set (executed_primary u) (executed_hedge u) (pu_current_slice u) (pu_started_at u) false u else u.
Definition on_primary_fill (qty : dec) (u : PairedUnwindExecutor) : PairedUnwindExecutor :=
  paired_finish (paired_set (dadd (executed_primary u) qty) (executed_hedge u) (pu_current_slice u) (pu_started_at u)
    (pu_active u) u).
Definition on_hedge_fill (qty : dec) (u : PairedUnwindExecutor) : PairedUnwindExecutor :=
  paired_finish (paired_set (executed_primary u) (dadd (executed_hedge u) qty) (pu_current_slice u) (pu_started_at u)
    (pu_active u) u).
Definition paired_cancel (u : PairedUnwindExecutor) : PairedUnwindExecutor :=
  paired_set (executed_primary u) (executed_hedge u) (pu_current_slice u) (pu_started_at u) false u.

(** ** The engine's part *)
Definition WATERFALL_STAGGER_SECS : Z := 3.

(** [rank] is the pair's place in the dashboard's waterfall, zero without one. *)
Definition flatten_executor (now : Z) (symbol : string) (inv : dec) (rank : Z) (duration slices : Z) (bps : dec) :
    TwapExecutor :=
  with_start_delay (rank * WATERFALL_STAGGER_SECS)
    (twap_new now symbol (if dltb dec0 inv then Sell else Buy) (dabs inv) duration slices bps).

Definition flatten_pair (now : Z) (pair : InstrumentPair) (inv : dec) (rank : Z) : PairedUnwindExecutor :=
  let side := if dltb dec0 inv then Buy else Sell in
  paired_with_start_delay (rank * WATERFALL_STAGGER_SECS)
    (paired_new now pair side (opposite side) (dabs inv) 60 10 (dlit 5 0)).

Inductive Unwinding := Single (t : TwapExecutor) | Paired (u : PairedUnwindExecutor).

(** At [FlattenAll] and with no unwinding under way, a position starts one. *)
Definition start_flatten (now : Z) (level : KillLevel) (symbol : string) (inv : dec) (rank : Z) (pair : option InstrumentPair)
    (duration slices : Z) (bps : dec) (running : option Unwinding) : option Unwinding :=
  if level_ltb level FlattenAll then running
  else
    match running with
    | Some _ => running
    | None =>
        if is_zero inv then None
        else Some (match pair with
                   | Some p => Paired (flatten_pair now p inv rank)
                   | None => Single (flatten_executor now symbol inv rank duration slices bps)
                   end)
    end.

(** A fill on the primary venue. *)
Definition unwinding_on_fill (qty : dec) (running : option Unwinding) : option Unwinding :=
  match running with
  | Some (Single t) => let t := twap_on_fill qty t in if twap_is_complete t then None else Some (Single t)
  | Some (Paired u) => let u := on_primary_fill qty u in if pu_active u then Some (Paired u) else None
  | None => None
  end.
End Unwind.

(** The slice of a tick goes to the venue, reduce-only on a perpetual. *)
Definition twap_tick {D : Decimal} {C : Clock} {X : Exchange} (now : Z) (mid : dec) (is_perp : bool) (product : ProductSpec)
    (t : TwapExecutor) : M Sys (option (result unit x_error) * TwapExecutor) :=
  match twap_next_slice now mid t with
  | (None, t) => mret (None, t)
  | (Some q, t) =>
      let! r := (if is_perp then execute_reduce_slice else execute_unwind_slice) (tw_symbol t) q product in
      mret (Some r, t)
  end.

(** ** An executor without a delay flattens the position in its duration *)
Section Flatten.
Context {D : Decimal} {L : DecimalLaws D}.

(** What the venue is sent of a slice: price and quantity rounded down to the
    tick and the lot, nothing when no lot is left. *)
Definition sent_slice (product : ProductSpec) (q : Quote) : option Quote :=
  let qty := round_qty product (q_qty q) in
  if is_zero qty then None else Some (mkQuote (q_side q) (round_price product (q_price q)) qty).

Lemma unwind_slice_sends {C : Clock} {X : Exchange} symbol q product reduce :
  execute_unwind_slice_flagged symbol q product reduce =
    match sent_slice product q with
    | None => mret (Ok tt)
    | Some o =>
        let! paper := is_paper in
        if (paper : bool) then let! id := call new_uuid in do! track_quote symbol o id in mret (Ok tt)
        else
          let! r := call (x_place_order (mkNewOrder symbol (q_side o) Limit (Some (q_price o)) (q_qty o) (Some Ioc) None reduce)) in
          match r with Ok id => do! track_quote symbol o id in mret (Ok tt) | Err e => mret (Err e) end
    end.
Proof. unfold execute_unwind_slice_flagged, sent_slice. by destruct (is_zero _). Qed.

(** A tick whose slice, as it is sent, is filled in full. *)
Definition filled_tick (product : ProductSpec) (st : list Quote * TwapExecutor) (x : Z * dec) : list Quote * TwapExecutor :=
  match twap_next_slice x.1 x.2 st.2 with
  | (None, t) => (st.1, t)
  | (Some q, t) =>
      match sent_slice product q with
      | None => (st.1, t)
      | Some o => (st.1 ++ [o], twap_on_fill (q_qty o) t)
      end
  end.

(** A position of [n] slices of [k] lots, in units of [10 ^ -g]. *)
Record whole_lots (g : nat) (product : ProductSpec) (position : dec) (n k l : Z) : Prop := {
  wl_scale : g ≤ 28;
  wl_lot : on_grid g (lot_size product) l;
  wl_position : on_grid g position (n * (k * l));
  wl_pos : (0 < k)%Z ∧ (0 < l)%Z;
  wl_small : small (n * (k * l));
}.

(** Whole lots survive the rounding. *)
Lemma round_whole g product q k l : g ≤ 28 → on_grid g (lot_size product) l → (0 < l)%Z → (0 < k)%Z → small (k * l) →
  on_grid g q (k * l) → round_qty product q = q.
Proof.
  unfold on_grid. intros Hg Hlot Hl Hk Hsm Hq. apply dval_inj. unfold round_qty.
  assert (Hl0 : (0 < dval (lot_size product))%Q).
  { rewrite Hlot, scaled_inject. apply Qlt_shift_div_l; [apply pow10_pos|]. rewrite Qmult_0_l. change 0%Q with (inject_Z 0).
    by rewrite <- Zlt_Qlt. }
  assert (Eq : (dval q / dval (lot_size product) == inject_Z k)%Q).
  { rewrite Hq, Hlot, !scaled_inject, inject_Z_mult. pose proof (pow10_pos g). assert (~ (inject_Z l == 0)%Q).
    { intros E. change 0%Q with (inject_Z 0) in E. apply (inj inject_Z) in E || (unfold Qeq in E; cbn in E); lia. }
    field. split; [lra|done]. }
  assert (Hdiv : (dval (ddiv q (lot_size product)) == inject_Z k)%Q).
  { rewrite ddiv_val; [done|lra|]. exists k, 0. split; [unfold small in Hsm; nia|]. split; [lia|]. by rewrite Eq, scaled_0. }
  assert (Hfl : (dval (dfloor (ddiv q (lot_size product))) == inject_Z k)%Q) by by rewrite dfloor_val, Hdiv, Qfloor_Z.
  assert (Hprod : (inject_Z k * dval (lot_size product) == dval q)%Q) by (rewrite <- Eq; field; lra).
  rewrite dmul_val; rewrite Hfl; [done|]. exists (k * l)%Z, g. split; [done|]. split; [done|]. by rewrite Hprod.
Qed.

(** After [c] slices of [n], filled. *)
Record flatten_state (g : nat) (target : dec) (side : Side) (duration n start unit : Z) (c : nat) (qs : list Quote) (t : TwapExecutor) :
    Prop := {
  fs_target : tw_target_qty t = target;
  fs_side : tw_side t = side;
  fs_duration : duration_secs t = duration;
  fs_slices : num_slices t = n;
  fs_start : started_at t = start;
  fs_slice : on_grid g (slice_qty t) unit;
  fs_executed : on_grid g (executed_qty t) (Z.of_nat c * unit);
  fs_current : current_slice t = Z.of_nat c;
  fs_active : tw_active t = negb (Z.of_nat c =? n)%Z;
  fs_count : length qs = c;
  fs_quotes : Forall (λ q, q_side q = side ∧ on_grid g (q_qty q) unit) qs;
}.

(** The schedule, counted in whole seconds since the start. *)
Lemma expected_slice_exact now start duration n i : (1 ≤ n)%Z → (n ≤ duration)%Z → (duration * n < 2 ^ 64)%Z → (n < 2 ^ 32)%Z →
  num_seconds (now - start) = i → (0 ≤ i ≤ duration)%Z →
  expected_slice now start duration n = (i * n / duration)%Z.
Proof.
  intros Hn Hnd Hw Hn32 Hi Hr. unfold expected_slice. rewrite Hi, (proj2 (Z.eqb_neq duration 0)) by lia.
  rewrite (wrap_u64_id i) by (unfold is_u64, u64_max; nia). rewrite wrap_u64_id by (unfold is_u64, u64_max; nia).
  apply wrap_u32_id. unfold is_u32, u32_max. split; [apply Z.div_pos; nia|].
  assert (i * n / duration ≤ n)%Z; [|lia]. apply Z.div_le_upper_bound; nia.
Qed.

Lemma flatten_step g product target side duration n k l start i c qs t now mid :
  whole_lots g product target n k l → (1 ≤ n)%Z → (n ≤ duration)%Z → (duration * n < 2 ^ 64)%Z → (n < 2 ^ 32)%Z →
  flatten_state g target side duration n start (k * l) c qs t → Z.of_nat c = (i * n / duration)%Z →
  num_seconds (now - start) = (i + 1)%Z → (0 ≤ i)%Z → (i < duration)%Z →
  ∃ c', Z.of_nat c' = ((i + 1) * n / duration)%Z ∧
    flatten_state g target side duration n start (k * l) c' (filled_tick product (qs, t) (now, mid)).1
      (filled_tick product (qs, t) (now, mid)).2.
Proof.
  intros [Hg Hlot Hpos [Hk Hl] Hsm] Hn Hnd Hw Hn32 H Hc Hs Hi Hlt. destruct H.
  assert (Hexp : expected_slice now start duration n = ((i + 1) * n / duration)%Z) by (apply expected_slice_exact; lia).
  assert (Hcn : (Z.of_nat c < n)%Z) by (rewrite Hc; apply Z.div_lt_upper_bound; nia).
  assert (Hstep : (Z.of_nat c ≤ (i + 1) * n / duration ≤ Z.of_nat c + 1)%Z).
  { rewrite Hc. split; [apply Z.div_le_mono; nia|].
    apply Z.lt_succ_r. apply Z.div_lt_upper_bound; [lia|]. pose proof (Z.mul_succ_div_gt (i * n) duration ltac:(lia)). nia. }
  set (u := (k * l)%Z) in *. assert (Hu : (0 < u)%Z) by (unfold u; nia). unfold small in Hsm.
  unfold filled_tick, twap_next_slice. cbn [fst snd]. rewrite fs_active0. unfold twap_is_complete.
  rewrite (proj2 (Z.eqb_neq (Z.of_nat c) n)) by lia. cbn [negb orb].
  rewrite fs_target0, fs_start0, fs_duration0, fs_slices0, fs_current0, Hexp.
  rewrite (grid_leb g _ _ _ _ Hpos fs_executed0), (proj2 (Z.leb_gt _ _)) by nia.
  destruct (Z.leb_spec ((i + 1) * n / duration) (Z.of_nat c)) as [Hle|Hgt].
  { exists c. split; [lia|]. by split. }
  assert (Hrem : on_grid g (dsub target (executed_qty t)) (n * u - Z.of_nat c * u)) by (apply grid_sub; [done..|unfold small; nia]).
  assert (Hq : dmin (slice_qty t) (dsub target (executed_qty t)) = slice_qty t).
  { unfold dmin. by rewrite (grid_leb g _ _ _ _ fs_slice0 Hrem), (proj2 (Z.leb_le _ _)) by nia. }
  rewrite Hq, (grid_leb g _ _ _ _ fs_slice0 (grid_zero g)), (proj2 (Z.leb_gt _ _)) by lia.
  exists (S c). rewrite Nat2Z.inj_succ. split; [lia|].
  unfold sent_slice. cbn [q_qty q_side q_price].
  assert (Hround : round_qty product (slice_qty t) = slice_qty t) by (apply (round_whole g product _ k l); [done..|unfold small; fold u; nia|done]).
  rewrite Hround. assert (Hz : is_zero (slice_qty t) = false).
  { destruct (is_zero (slice_qty t)) eqn:E; [|done]. apply deqb_eq in E. exfalso.
    assert (Hf : dleb (slice_qty t) dec0 = false) by (rewrite (grid_leb g _ _ _ _ fs_slice0 (grid_zero g)); apply Z.leb_gt; lia).
    rewrite E in Hf. by rewrite (proj2 (dleb_le _ _) (dle_refl _)) in Hf. }
  rewrite Hz.
  assert (Hv : on_grid g (dadd (executed_qty t) (slice_qty t)) (Z.succ (Z.of_nat c) * u)).
  { replace (Z.succ (Z.of_nat c) * u)%Z with (Z.of_nat c * u + u)%Z by lia. apply grid_add; [done..|unfold small; nia]. }
  assert (Hdone : dleb target (dadd (executed_qty t) (slice_qty t)) = (Z.succ (Z.of_nat c) =? n)%Z).
  { rewrite (grid_leb g _ _ _ _ Hpos Hv). apply eq_true_iff_eq. rewrite Z.leb_le, Z.eqb_eq. nia. }
  cbn [fst snd q_qty]. unfold twap_on_fill. cbn. unfold twap_is_complete. cbn. rewrite fs_target0, Hdone.
  destruct (Z.succ (Z.of_nat c) =? n)%Z eqn:E; split; cbn [tw_target_qty tw_side duration_secs num_slices started_at slice_qty executed_qty
    current_slice tw_active twap_set]; try done; rewrite ?Nat2Z.inj_succ, ?E; try done;
    rewrite ?length_app, ?fs_count0; cbn [length]; try lia; (apply Forall_app; split; [done|]; repeat constructor; done).
Qed.

(** Once every slice is out nothing more is sent. *)
Lemma flatten_idle g product target side duration n start u c qs t x : Z.of_nat c = n →
  flatten_state g target side duration n start u c qs t → filled_tick product (qs, t) x = (qs, t).
Proof.
  intros Hc []. unfold filled_tick, twap_next_slice. cbn [fst snd]. rewrite fs_active0. by rewrite (proj2 (Z.eqb_eq _ _) Hc).
Qed.

Lemma flatten_start g product symbol inv duration n k l bps start : whole_lots g product (dabs inv) n k l → (1 ≤ n)%Z → (n < 2 ^ 32)%Z →
  flatten_state g (dabs inv) (if dltb dec0 inv then Sell else Buy) duration n start (k * l) 0 []
    (flatten_executor start symbol inv 0 duration n bps).
Proof.
  intros [Hg Hlot Hpos [Hk Hl] Hsm] Hn Hn32.
  assert (En : (dval (dlit (Z.max n 1) 0) == inject_Z n)%Q) by (rewrite Z.max_l by lia; apply dlit_int; lia).
  assert (HnQ : (1 <= inject_Z n)%Q) by (change 1%Q with (inject_Z 1); rewrite <- Zle_Qle; lia).
  assert (Eq : (dval (dabs inv) / dval (dlit (Z.max n 1) 0) == scaled (k * l) g)%Q).
  { unfold on_grid in Hpos. rewrite Hpos, En, !scaled_inject, inject_Z_mult. pose proof (pow10_pos g). field. split; lra. }
  split; cbn; try done.
  - unfold on_grid. rewrite ddiv_val; [done|rewrite En; lra|]. rewrite Eq. exists (k * l)%Z, g. unfold small in Hsm.
    split; [nia|]. by split.
  - apply grid_zero.
  - by destruct n.
Qed.

Lemma flatten_run g product target side duration n k l start t : whole_lots g product target n k l →
  (1 ≤ n)%Z → (n ≤ duration)%Z → (duration * n < 2 ^ 64)%Z → (n < 2 ^ 32)%Z →
  flatten_state g target side duration n start (k * l) 0 [] t → ∀ ticks,
  (λ x : Z * dec, num_seconds (x.1 - start)) <$> ticks = seqZ 1 (Z.of_nat (length ticks)) →
  ∃ c, Z.of_nat c = (Z.min (Z.of_nat (length ticks)) duration * n / duration)%Z ∧
    flatten_state g target side duration n start (k * l) c (fold_left (filled_tick product) ticks ([], t)).1
      (fold_left (filled_tick product) ticks ([], t)).2.
Proof.
  intros Ht Hn Hnd Hw Hn32 H0. induction ticks as [|[now mid] ticks IH] using rev_ind; intros Hticks.
  { exists 0. split; [|exact H0]. cbn. rewrite Z.min_l, Z.mul_0_l, Z.div_0_l by lia. done. }
  rewrite fmap_app, length_app, Nat2Z.inj_add, seqZ_app in Hticks by lia. cbn [length fmap list_fmap fst] in Hticks.
  change (seqZ (1 + Z.of_nat (length ticks)) (Z.of_nat 1)) with [(1 + Z.of_nat (length ticks))%Z] in Hticks.
  apply app_inj_tail in Hticks as [Hticks Hnow]. destruct (IH Hticks) as (c & Hc & Hf). rewrite fold_left_app. cbn [fold_left].
  destruct (fold_left (filled_tick product) ticks ([], t)) as [qs t'] eqn:E. cbn [fst snd] in Hf.
  rewrite length_app, Nat2Z.inj_add. cbn [length].
  destruct (Z.lt_ge_cases (Z.of_nat (length ticks)) duration) as [Hlt|Hge].
  - rewrite Z.min_l in Hc by lia. rewrite Z.min_l by lia.
    by apply (flatten_step g product target side duration n k l start (Z.of_nat (length ticks)) c); [..|lia|lia|lia].
  - rewrite Z.min_r in Hc by lia. rewrite Z.min_r by lia. exists c. split; [done|].
    rewrite (flatten_idle g product target side duration n start (k * l) c); [done| |done]. rewrite Hc, Z.mul_comm, Z.div_mul by lia. done.
Qed.

End Flatten.

(** ** The legs of a pair stay in proportion *)
Section PairedLegs.
Context {D : Decimal} {L : DecimalExact D}.

Definition fill_leg (fill : dec → PairedUnwindExecutor → PairedUnwindExecutor) (q : option Quote) u :=
  match q with Some q => fill (q_qty q) u | None => u end.

(** A tick whose slices are filled in full. *)
Definition filled_pair (st : list SlicePair * PairedUnwindExecutor) (x : Z * dec * dec) :
    list SlicePair * PairedUnwindExecutor :=
  let '(s, u) := paired_next_slice x.1.1 x.1.2 x.2 st.2 in
  (if slice_pair_is_empty s then st.1 else st.1 ++ [s],
   fill_leg on_hedge_fill (sp_hedge s) (fill_leg on_primary_fill (sp_primary s) u)).

(** Both legs at once, against the position, the hedge's in proportion. *)
Definition slice_balanced (side : Side) (m : Q) (s : SlicePair) : Prop :=
  ∃ p h, s = mkSlicePair (Some p) (Some h) ∧ q_side p = opposite side ∧ q_side h = side ∧
    (0 < dval (q_qty p))%Q ∧ (dval (q_qty h) == m * dval (q_qty p))%Q.

Record paired_state (pair : InstrumentPair) (side : Side) (target : Q) (ss : list SlicePair) (u : PairedUnwindExecutor) :
    Prop := {
  ps_pair : pu_pair u = pair;
  ps_side : primary_side u = side;
  ps_hedge : hedge_side u = opposite side;
  ps_target : (dval (target_primary u) == target)%Q;
  ps_target_h : (dval (target_hedge u) == dval (multiplier pair) * target)%Q;
  ps_slice : (0 < dval (slice_primary u))%Q;
  ps_slice_h : (dval (slice_hedge u) == dval (multiplier pair) * dval (slice_primary u))%Q;
  ps_executed : (0 <= dval (executed_primary u) /\ dval (executed_primary u) <= target)%Q;
  ps_executed_h : (dval (executed_hedge u) == dval (multiplier pair) * dval (executed_primary u))%Q;
  ps_slices : Forall (slice_balanced side (dval (multiplier pair))) ss;
}.

(** Only the executed amounts matter. *)
Lemma paired_state_set pair side target ss u ep eh slice start active :
  paired_state pair side target ss u → (0 <= dval ep /\ dval ep <= target)%Q →
  (dval eh == dval (multiplier pair) * dval ep)%Q → paired_state pair side target ss (paired_set ep eh slice start active u).
Proof. intros [] He Hh. by split. Qed.

Lemma paired_finish_state pair side target ss u : paired_state pair side target ss u →
  paired_state pair side target ss (paired_finish u).
Proof. intros H. unfold paired_finish. destruct (paired_is_complete u); [|done]. destruct H. by split. Qed.

(** The fill of a whole slice pair. *)
Lemma fill_both p h u : ∃ a, fill_leg on_hedge_fill (Some h) (fill_leg on_primary_fill (Some p) u) =
  paired_set (dadd (executed_primary u) (q_qty p)) (dadd (executed_hedge u) (q_qty h)) (pu_current_slice u) (pu_started_at u) a u.
Proof.
  cbn [fill_leg]. unfold on_hedge_fill, on_primary_fill, paired_finish.
  destruct (paired_is_complete (paired_set _ _ _ _ _ u)); cbn; destruct (paired_is_complete _); eexists; reflexivity.
Qed.

Lemma filled_pair_state pair side target ss u x : (0 < dval (multiplier pair))%Q → paired_state pair side target ss u →
  paired_state pair side target (filled_pair (ss, u) x).1 (filled_pair (ss, u) x).2.
Proof.
  intros Hm H. pose proof H as []. unfold filled_pair, paired_next_slice. cbn [fst snd].
  destruct (negb (pu_active u) || paired_is_complete u); [done|].
  set (expected := expected_slice _ _ _ _). destruct (expected <=? pu_current_slice u)%Z; [done|].
  set (pq := dmin (slice_primary u) _). set (hq := dmin (slice_hedge u) _). set (m := dval (multiplier pair)) in *.
  assert (Hpq : (dval pq <= target - dval (executed_primary u) /\ dval pq <= dval (slice_primary u))%Q).
  { unfold pq, dmin. destruct (dleb _ _) eqn:E; dec_to_Q; rewrite dsub_exact in *; lra. }
  assert (Hhq : (dval hq == m * dval pq)%Q).
  { unfold hq, pq, dmin. destruct (dleb (slice_hedge u) _) eqn:E1, (dleb (slice_primary u) _) eqn:E2; dec_to_Q;
      rewrite ?dsub_exact in *; try rewrite ps_slice_h0 in *; try rewrite ps_target_h0 in *; try rewrite ps_executed_h0 in *;
      try rewrite ps_target0 in *; nra. }
  pose proof dec0_val as H0.
  destruct (dleb pq dec0) eqn:Ep.
  - assert (Eh : dleb hq dec0 = true) by (dec_to_Q; nra). rewrite Eh. cbn. by apply paired_state_set.
  - assert (Eh : dleb hq dec0 = false) by (dec_to_Q; nra). rewrite Eh. cbn [andb]. unfold leg_quote, dltb. rewrite Ep, Eh.
    cbn [negb]. rewrite ps_side0, ps_hedge0. unfold slice_pair_is_empty. cbn [sp_primary sp_hedge is_none andb].
    match goal with |- context [fill_leg on_hedge_fill (Some ?h) (fill_leg on_primary_fill (Some ?p) ?u')] =>
      destruct (fill_both p h u') as [a ->] end. cbn [fst snd q_qty].
    dec_to_Q. cbn. split; cbn; try done.
    + rewrite dadd_exact. lra.
    + rewrite !dadd_exact, Hhq, ps_executed_h0. fold m. ring.
    + apply Forall_app. split; [done|]. apply Forall_singleton. do 2 eexists. split; [done|]. cbn.
      split; [done|]. split; [by destruct side|]. split; [lra|exact Hhq].
Qed.

(** Whatever the ticks, their times and the prices, a paired unwind whose
    slices are filled sends both legs at once, each against its side of the
    position, with quantities in the pair's proportion, so that the residual
    delta is zero after every slice and the primary never unwinds more than the
    position. *)
Theorem paired_stays_balanced now pair inv rank ticks : (0 < dval (multiplier pair))%Q → is_zero inv = false →
  let m := dval (multiplier pair) in
  let side := if dltb dec0 inv then Buy else Sell in
  let '(ss, u) := fold_left filled_pair ticks ([], flatten_pair now pair inv rank) in
  Forall (slice_balanced side m) ss ∧ (dval (residual_delta u) == 0)%Q ∧
  (dval (executed_hedge u) == m * dval (executed_primary u))%Q ∧
  (0 <= dval (executed_primary u) /\ dval (executed_primary u) <= Qabs (dval inv))%Q.
Proof.
  intros Hm Hinv m side.
  assert (H : ∀ ticks st, paired_state pair side (Qabs (dval inv)) st.1 st.2 →
    paired_state pair side (Qabs (dval inv)) (fold_left filled_pair ticks st).1 (fold_left filled_pair ticks st).2).
  { clear ticks. induction ticks as [|x ticks IH]; intros [ss u] H; [done|]. cbn [fold_left]. by apply IH, filled_pair_state. }
  specialize (H ticks ([], flatten_pair now pair inv rank)). destruct (fold_left _ _ _) as [ss u].
  destruct H as [].
  - pose proof dec0_val as H0. assert (E10 : (dval (dlit (Z.max 10 1) 0) == 10)%Q) by by apply dlit_int.
    apply is_zero_false in Hinv. assert (Hi : (0 < Qabs (dval inv))%Q).
    { destruct (Qlt_le_dec 0 (Qabs (dval inv))) as [|Hle]; [done|]. exfalso. apply Hinv. apply Qabs_Qle_condition in Hle. lra. }
    split; cbn; try done; rewrite ?ddiv_exact, ?dmul_exact, ?dabs_val, ?E10, ?H0 by (rewrite E10; lra).
    + done.
    + ring.
    + apply Qlt_shift_div_l; lra.
    + field.
    + lra.
    + ring.
  - split; [done|]. split; [|by split]. unfold residual_delta. cbn [snd] in *. rewrite ps_pair0.
    rewrite (proj2 (is_zero_false _)) by lra. rewrite !dsub_exact, ddiv_exact, dsub_exact by lra.
    rewrite ps_target0, ps_target_h0, ps_executed_h0. field. lra.
Qed.
End PairedLegs.

(** ** A position of fewer lots than slices *)
Section SmallPosition.
Context {D : Decimal} {L : DecimalExact D} {C : Clock} {X : Exchange}.

(** A slice below the lot is rounded to nothing and reported as done, so no tick
    of such an executor ever reaches the venue. *)
Lemma small_slice_places_nothing now mid is_perp product t s : (0 < dval (lot_size product))%Q →
  (dval (slice_qty t) < dval (lot_size product))%Q →
  ∃ r t', twap_tick now mid is_perp product t s = Done ((r, t'), s) ∧ slice_qty t' = slice_qty t.
Proof.
  intros Hl Hs. unfold twap_tick, twap_next_slice.
  destruct (negb _ || _); [by do 2 eexists|]. destruct (_ <=? _)%Z; [by do 2 eexists|].
  set (qty := dmin _ _). pose proof dec0_val as H0.
  assert (Hq : (dval qty <= dval (slice_qty t))%Q) by (unfold qty, dmin; destruct (dleb _ _) eqn:E; dec_to_Q; lra).
  clearbody qty. destruct (dleb qty dec0) eqn:E0; [by do 2 eexists|].
  assert (Hz : is_zero (round_qty product qty) = true).
  { apply is_zero_val. unfold round_qty. rewrite dmul_exact, dfloor_val, ddiv_exact by lra. dec_to_Q.
    assert (Ef : Qfloor (dval qty / dval (lot_size product)) = 0%Z).
    { apply Z.le_antisymm.
      - apply Z.lt_succ_r. rewrite Zlt_Qlt. eapply Qle_lt_trans; [apply Qfloor_le|]. apply Qlt_shift_div_r; [done|].
        change (inject_Z (Z.succ 0)) with 1%Q. lra.
      - change 0%Z with (Qfloor 0) at 1. apply Qfloor_resp_le, Qle_shift_div_l; lra. }
    rewrite Ef. change (inject_Z 0) with 0%Q. ring. }
  unfold execute_reduce_slice, execute_unwind_slice, execute_unwind_slice_flagged. cbn [q_qty].
  destruct is_perp; cbn [q_qty]; rewrite Hz; by do 2 eexists.
Qed.
End SmallPosition.

(** ** Witnesses *)
Definition second_ticks (n : nat) : list (Z * dec (Decimal := Qc_decimal)) :=
  (λ i, (Z.of_nat i * 10 ^ 9, dlit 100 0))%Z <$> seq 1 n.

Definition lot_product : ProductSpec (D := Qc_decimal) :=
  mkProductSpec "BTCUSDT" "BTC" "USDT" (dlit 1 2) (dlit 1 3) (dlit 10 0) dec0 dec0 Trading.


(** Second in the waterfall, with the default settings: the executor sends two of
    its ten slices while it should still wait, and none in the next five minutes. *)
Example delayed_start_stalls :
  let '(qs, t) := fold_left (filled_tick lot_product) (second_ticks 300) ([], flatten_executor 0 "BTCUSDT" (dlit 10 0) 1 60 10 (dlit 5 0)) in
  (length qs, twap_is_complete t, (10 <? current_slice t)%Z) = (2, false, true).
Proof. vm_compute. reflexivity. Qed.

Definition demo_pair : InstrumentPair (D := Qc_decimal) := mkInstrumentPair "BTCUSDT" "BTC-CONTRACT" (dlit 10 0) None (dlit 50 0).

Lemma paired_stays_balanced_witness :
  let '(ss, u) := fold_left filled_pair ((λ x, (x, x.2)) <$> second_ticks 20) ([], flatten_pair 0 demo_pair (dlit 2 0) 0) in
  (dval (executed_hedge u) == 10 * dval (executed_primary u))%Q.
Proof.
  pose proof (paired_stays_balanced 0 demo_pair (dlit 2 0) 0 ((λ x, (x, x.2)) <$> second_ticks 20) ltac:(by vm_compute) eq_refl) as H.
  cbv zeta in H. destruct (fold_left _ _ _) as [ss u]. destruct H as (_ & _ & H & _). exact H.
Defined.
