(* ===== verification/ExecAlgo.v ===== *)
(** * Execution algorithms ([crates/strategy/src/exec_algo.rs])

    The trait [ExecAlgorithm] with its four implementations. An [Instant] and a
    [Duration] are numbers of nanoseconds. The identifier a [Place] carries is
    drawn by [Uuid::new_v4]: it is an argument of the tick. The panics of the
    durations are modelled; those of a decimal that overflows are not, and the
    lemmas on what the slices sum to are in ideal arithmetic ([DecimalExact]). *)
From stdpp Require Import base gmap sets list strings.
From Stdlib Require Import ZArith QArith Qabs Qminmax Qround Lqa Lia.
From S2P Require Import Prelude Decimal Types.
Local Open Scope nat_scope.
Local Open Scope list_scope.
Local Open Scope prog_scope.

(** ** [Duration] *)
Definition dur_max : Z := (2 ^ 64 - 1) * 10 ^ 9 + (10 ^ 9 - 1).

(** [Duration / u32] and [Duration * u32]. *)
Definition dur_div {S} (d n : Z) : M S Z := if (n =? 0)%Z then mpanic else mret (d / n)%Z.
Definition dur_mul {S} (d n : Z) : M S Z := if (d * n <=? dur_max)%Z then mret (d * n)%Z else mpanic.

(** [saturating_duration_since] *)
Definition since (now start : Z) : Z := Z.max 0 (now - start).

Section Exec.
Context {D : Decimal}.

Record ExecContext := mkExecContext {
  ec_now : Z;
  best_bid : dec;
  best_ask : dec;
  recent_volume : dec;
  ec_lot_size : dec;
}.

Inductive ExecAction := Place (client_order_id : OrderId) (quote : Quote) | Cancel (client_order_id : OrderId) | Hold | AlgoDone.

(** The trait. *)
Class ExecAlgorithm (A : Type) := {
  algo_on_fill : OrderId → dec → dec → A → A;
  algo_tick : ExecContext → OrderId → M A (list ExecAction);
  algo_filled : A → dec;
  algo_remaining : A → dec;
  algo_is_finished : A → bool;
}.

(** The far touch, where a child order trades at once. *)
Definition touch_price (side : Side) (ctx : ExecContext) : dec :=
  match side with Buy => best_ask ctx | Sell => best_bid ctx end.

(** Rounded down to whole lots. *)
Definition floor_lot (qty lot : dec) : dec := dmul (dfloor (ddiv qty lot)) lot.

Definition done_or_hold (total filled : dec) : list ExecAction := [if dleb total filled then AlgoDone else Hold].

(** ** TWAP *)
Record TwapConfig := mkTwapConfig { tc_side : Side; tc_total_qty : dec; tc_duration : Z; tc_num_slices : Z }.

Record TwapAlgo := mkTwapAlgo {
  ta_config : TwapConfig;
  ta_start : option Z;
  ta_slice_qty : dec;
  ta_slices_sent : Z;
  ta_filled : dec;
  ta_pending : list OrderId;
}.

Definition twap_algo_new (c : TwapConfig) (lot : dec) : outcome TwapAlgo :=
  if (0 <? tc_num_slices c)%Z
  then Done (mkTwapAlgo c None (floor_lot (ddiv (tc_total_qty c) (dlit (tc_num_slices c) 0)) lot) 0 dec0 [])
  else Panicked.

Definition next_slice_offset (a : TwapAlgo) : M TwapAlgo Z :=
  let! d := dur_div (tc_duration (ta_config a)) (wrap_u32 (tc_num_slices (ta_config a))) in
  dur_mul d (wrap_u32 (ta_slices_sent a)).

Definition target_qty_for_slice (i : Z) (a : TwapAlgo) : dec :=
  let c := ta_config a in
  if (i + 1 =? tc_num_slices c)%Z
  then dsub (tc_total_qty c) (dmul (ta_slice_qty a) (dlit (tc_num_slices c - 1) 0)) else ta_slice_qty a.

Definition twap_started (now : Z) (a : TwapAlgo) : TwapAlgo :=
  mkTwapAlgo (ta_config a) (Some (default now (ta_start a))) (ta_slice_qty a) (ta_slices_sent a) (ta_filled a) (ta_pending a).
Definition twap_sent (ids : list OrderId) (a : TwapAlgo) : TwapAlgo :=
  mkTwapAlgo (ta_config a) (ta_start a) (ta_slice_qty a) (ta_slices_sent a + 1) (ta_filled a) (ta_pending a ++ ids).
Definition twap_algo_fill (id : OrderId) (price qty : dec) (a : TwapAlgo) : TwapAlgo :=
  mkTwapAlgo (ta_config a) (ta_start a) (ta_slice_qty a) (ta_slices_sent a) (dadd (ta_filled a) qty) (ta_pending a).

Definition twap_algo_tick (ctx : ExecContext) (cloid : OrderId) : M TwapAlgo (list ExecAction) :=
  do! mmodify (twap_started (ec_now ctx)) in
  let! a := mget in
  let c := ta_config a in
  if (tc_num_slices c <=? ta_slices_sent a)%Z then mret (done_or_hold (tc_total_qty c) (ta_filled a))
  else
    let! offset := next_slice_offset a in
    if (since (ec_now ctx) (default (ec_now ctx) (ta_start a)) <? offset)%Z then mret [Hold]
    else
      let qty := target_qty_for_slice (ta_slices_sent a) a in
      if dleb qty dec0 then do! mmodify (twap_sent []) in mret [Hold]
      else
        do! mmodify (twap_sent [cloid]) in
        mret [Place cloid (mkQuote (tc_side c) (touch_price (tc_side c) ctx) qty)].

#[export] Instance twap_algorithm : ExecAlgorithm TwapAlgo := {|
  algo_on_fill := twap_algo_fill;
  algo_tick := twap_algo_tick;
  algo_filled := ta_filled;
  algo_remaining a := dmax (dsub (tc_total_qty (ta_config a)) (ta_filled a)) dec0;
  algo_is_finished a :=
    (tc_num_slices (ta_config a) <=? ta_slices_sent a)%Z && dleb (tc_total_qty (ta_config a)) (ta_filled a);
|}.

(** ** VWAP *)
Record VwapConfig := mkVwapConfig {
  vc_side : Side;
  vc_total_qty : dec;
  volume_profile : list dec;
  slice_interval : Z;
}.

Record VwapAlgo := mkVwapAlgo {
  va_config : VwapConfig;
  va_start : option Z;
  va_slices_sent : nat;
  va_filled : dec;
  normalised : list dec;
}.

Definition vwap_algo_new (c : VwapConfig) : outcome VwapAlgo :=
  match volume_profile c with
  | [] => Panicked
  | profile =>
      let total := dsum profile in
      Done (mkVwapAlgo c None 0 dec0
              (if dltb dec0 total then (λ w, ddiv w total) <$> profile
               else replicate (length profile) (ddiv dec1 (dlit (Z.of_nat (length profile)) 0))))
  end.

Definition vwap_set (start : option Z) (sent : nat) (filled : dec) (a : VwapAlgo) : VwapAlgo :=
  mkVwapAlgo (va_config a) start sent filled (normalised a).

Definition vwap_algo_fill (id : OrderId) (price qty : dec) (a : VwapAlgo) : VwapAlgo :=
  vwap_set (va_start a) (va_slices_sent a) (dadd (va_filled a) qty) a.

Definition vwap_algo_tick (ctx : ExecContext) (cloid : OrderId) : M VwapAlgo (list ExecAction) :=
  do! mmodify (λ a, vwap_set (Some (default (ec_now ctx) (va_start a))) (va_slices_sent a) (va_filled a) a) in
  let! a := mget in
  let c := va_config a in
  if length (volume_profile c) <=? va_slices_sent a then mret (done_or_hold (vc_total_qty c) (va_filled a))
  else
    let! need := dur_mul (slice_interval c) (wrap_u32 (Z.of_nat (va_slices_sent a))) in
    if (since (ec_now ctx) (default (ec_now ctx) (va_start a)) <? need)%Z then mret [Hold]
    else
      match normalised a !! va_slices_sent a with
      | None => mpanic
      | Some weight =>
          let slice_qty := floor_lot (dmul (vc_total_qty c) weight) (ec_lot_size ctx) in
          do! mmodify (λ a, vwap_set (va_start a) (S (va_slices_sent a)) (va_filled a) a) in
          if dleb slice_qty dec0 then mret [Hold]
          else mret [Place cloid (mkQuote (vc_side c) (touch_price (vc_side c) ctx) slice_qty)]
      end.

#[export] Instance vwap_algorithm : ExecAlgorithm VwapAlgo := {|
  algo_on_fill := vwap_algo_fill;
  algo_tick := vwap_algo_tick;
  algo_filled := va_filled;
  algo_remaining a := dmax (dsub (vc_total_qty (va_config a)) (va_filled a)) dec0;
  algo_is_finished a :=
    (length (volume_profile (va_config a)) <=? va_slices_sent a) && dleb (vc_total_qty (va_config a)) (va_filled a);
|}.

(** ** Percent of volume *)
Record PovConfig := mkPovConfig { pc_side : Side; pc_total_qty : dec; participation : dec }.
Record PovAlgo := mkPovAlgo { pa_config : PovConfig; pa_filled : dec }.

Definition pov_new (c : PovConfig) : outcome PovAlgo :=
  if dleb dec0 (participation c) && dleb (participation c) dec1 then Done (mkPovAlgo c dec0) else Panicked.

Definition pov_fill (id : OrderId) (price qty : dec) (a : PovAlgo) : PovAlgo := mkPovAlgo (pa_config a) (dadd (pa_filled a) qty).

Definition pov_tick (ctx : ExecContext) (cloid : OrderId) : M PovAlgo (list ExecAction) :=
  let! a := mget in
  let c := pa_config a in
  if dleb (pc_total_qty c) (pa_filled a) then mret [AlgoDone]
  else
    let raw := dmul (recent_volume ctx) (participation c) in
    let slice_qty := floor_lot (dmin raw (dsub (pc_total_qty c) (pa_filled a))) (ec_lot_size ctx) in
    if dleb slice_qty dec0 then mret [Hold]
    else mret [Place cloid (mkQuote (pc_side c) (touch_price (pc_side c) ctx) slice_qty)].

#[export] Instance pov_algorithm : ExecAlgorithm PovAlgo := {|
  algo_on_fill := pov_fill;
  algo_tick := pov_tick;
  algo_filled := pa_filled;
  algo_remaining a := dmax (dsub (pc_total_qty (pa_config a)) (pa_filled a)) dec0;
  algo_is_finished a := dleb (pc_total_qty (pa_config a)) (pa_filled a);
|}.

(** ** Iceberg *)
Record IcebergConfig := mkIcebergConfig { ic_side : Side; ic_total_qty : dec; display_qty : dec; limit_price : dec }.
Record IcebergAlgo := mkIcebergAlgo { ia_config : IcebergConfig; ia_filled : dec; active : option (OrderId * dec) }.

Definition iceberg_new (c : IcebergConfig) : IcebergAlgo := mkIcebergAlgo c dec0 None.

Definition iceberg_fill (id : OrderId) (price qty : dec) (a : IcebergAlgo) : IcebergAlgo :=
  mkIcebergAlgo (ia_config a) (dadd (ia_filled a) qty)
    (match active a with
     | Some (i, remaining) =>
         if (i =? id)%N then
           let remaining := dsub remaining qty in
           if dleb remaining dec0 then None else Some (i, remaining)
         else active a
     | None => None
     end).

Definition iceberg_tick (ctx : ExecContext) (cloid : OrderId) : M IcebergAlgo (list ExecAction) :=
  let! a := mget in
  let c := ia_config a in
  if dleb (ic_total_qty c) (ia_filled a) then mret [AlgoDone]
  else
    match active a with
    | Some _ => mret [Hold]
    | None =>
        let remaining := dsub (ic_total_qty c) (ia_filled a) in
        let slice_qty := floor_lot (dmin remaining (display_qty c)) (ec_lot_size ctx) in
        if dleb slice_qty dec0 then mret [Hold]
        else
          do! mmodify (λ a, mkIcebergAlgo (ia_config a) (ia_filled a) (Some (cloid, slice_qty))) in
          mret [Place cloid (mkQuote (ic_side c) (limit_price c) slice_qty)]
    end.

#[export] Instance iceberg_algorithm : ExecAlgorithm IcebergAlgo := {|
  algo_on_fill := iceberg_fill;
  algo_tick := iceberg_tick;
  algo_filled := ia_filled;
  algo_remaining a := dmax (dsub (ic_total_qty (ia_config a)) (ia_filled a)) dec0;
  algo_is_finished a := dleb (ic_total_qty (ia_config a)) (ia_filled a);
|}.
End Exec.

(** ** What a caller may rely on

    The caller owns the clock and the venue: it ticks an algorithm, places what
    the tick emits and reports the fills. *)
Section Driver.
Context {D : Decimal} {L : DecimalExact D}.

Class ExecAlgorithmLaws {A} (X : ExecAlgorithm A) : Prop := {
  on_fill_adds id p q a : (dval (algo_filled (algo_on_fill id p q a)) == dval (algo_filled a) + dval q)%Q;
  tick_keeps_filled ctx id a acts a' : algo_tick ctx id a = Done (acts, a') → algo_filled a' = algo_filled a;
  remaining_nonneg a : (0 <= dval (algo_remaining a))%Q;
  finished_remaining a : algo_is_finished a = true → (dval (algo_remaining a) == 0)%Q;
  finished_done ctx id a : algo_is_finished a = true →
    ∃ a', algo_tick ctx id a = Done ([AlgoDone], a') ∧ algo_is_finished a' = true;
  finished_on_fill id p q a : (0 <= dval q)%Q → algo_is_finished a = true → algo_is_finished (algo_on_fill id p q a) = true;
}.

Inductive ExecEvent := EvTick (ctx : ExecContext) (id : OrderId) | EvFill (id : OrderId) (price qty : dec).

Definition placed (acts : list ExecAction) : list Quote := omap (λ x, match x with Place _ q => Some q | _ => None end) acts.

Context {A : Type} {X : ExecAlgorithm A}.

(** The quotes placed over a run. *)
Fixpoint drive (evs : list ExecEvent) : M A (list Quote) :=
  match evs with
  | [] => mret []
  | EvTick ctx id :: evs => let! acts := algo_tick ctx id in let! qs := drive evs in mret (placed acts ++ qs)
  | EvFill id p q :: evs => do! mmodify (algo_on_fill id p q) in drive evs
  end.

Definition fills (evs : list ExecEvent) : list dec := omap (λ e, match e with EvFill _ _ q => Some q | _ => None end) evs.

Context {XL : ExecAlgorithmLaws X}.

(** What an algorithm reports as filled is what was reported to it. *)
Lemma drive_filled evs a qs a' : drive evs a = Done (qs, a') →
  (dval (algo_filled a') == dval (algo_filled a) + qsum (vals (fills evs)))%Q.
Proof.
  revert a qs. induction evs as [|[ctx id|id p q] evs IH]; intros a qs; cbn [drive].
  - intros [= <- <-]. cbn. ring.
  - unfold mbind_M. destruct (algo_tick ctx id a) as [[acts a1]|] eqn:E; [|done].
    destruct (drive evs a1) as [[qs1 a2]|] eqn:Ed; [|done]. intros [= <- <-].
    rewrite (IH _ _ Ed). by rewrite (tick_keeps_filled _ _ _ _ _ E).
  - intros E. rewrite (IH _ _ E), on_fill_adds. change (fills (EvFill id p q :: evs)) with (q :: fills evs).
    rewrite qsum_vals_cons. ring.
Qed.

(** A finished algorithm places nothing more, whatever the market. *)
Lemma finished_places_nothing evs a : algo_is_finished a = true → Forall (λ q, (0 <= dval q)%Q) (fills evs) →
  ∃ a', drive evs a = Done ([], a') ∧ algo_is_finished a' = true.
Proof.
  revert a. induction evs as [|[ctx id|id p q] evs IH]; intros a Ha Hf; cbn [drive].
  - by exists a.
  - destruct (finished_done ctx id a Ha) as (a1 & E & Ha1). destruct (IH a1 Ha1 Hf) as (a2 & E2 & Ha2).
    exists a2. unfold mbind_M. by rewrite E, E2.
  - change (fills (EvFill id p q :: evs)) with (q :: fills evs) in Hf. apply Forall_cons in Hf as [Hq Hf]. apply IH; [|done]. by apply finished_on_fill.
Qed.
End Driver.

(** Every path of a tick in turn. *)
Ltac tick_cases :=
  unfold mbind_M, mret, mpanic, mget, mmodify, done_or_hold; cbn; repeat (case_match; cbn; try done); intros; by simplify_eq.

Section Laws.
Context {D : Decimal} {L : DecimalExact D}.

Lemma remaining_pos t f : (0 <= dval (dmax (dsub t f) dec0))%Q.
Proof. rewrite dmax_val, dec0_val. apply Q.le_max_r. Qed.

Lemma remaining_zero t f : dleb t f = true → (dval (dmax (dsub t f) dec0) == 0)%Q.
Proof. intros H. dec_to_Q. rewrite dmax_val, dsub_exact, dec0_val. apply Q.max_r. lra. Qed.

Lemma filled_enough t f q : (0 <= dval q)%Q → dleb t f = true → dleb t (dadd f q) = true.
Proof. intros Hq H. dec_to_Q. rewrite dadd_exact. lra. Qed.

#[export] Instance twap_algorithm_laws : ExecAlgorithmLaws twap_algorithm.
Proof.
  split; cbn.
  - intros. apply dadd_exact.
  - intros ctx id a acts a'. unfold twap_algo_tick, next_slice_offset, dur_div, dur_mul. tick_cases.
  - intros. apply remaining_pos.
  - intros a [_ H]%andb_true_iff. by apply remaining_zero.
  - intros ctx id a H. apply andb_true_iff in H as H'. destruct H' as [Hs Hf]. unfold twap_algo_tick, mbind_M. cbn.
    rewrite Hs. unfold done_or_hold. rewrite Hf. eexists. split; [reflexivity|]. cbn. exact H.
  - intros id p q a Hq [-> Hf]%andb_true_iff. by apply filled_enough.
Qed.

#[export] Instance vwap_algorithm_laws : ExecAlgorithmLaws vwap_algorithm.
Proof.
  split; cbn.
  - intros. apply dadd_exact.
  - intros ctx id a acts a'. unfold vwap_algo_tick, dur_mul. tick_cases.
  - intros. apply remaining_pos.
  - intros a [_ H]%andb_true_iff. by apply remaining_zero.
  - intros ctx id a H. apply andb_true_iff in H as H'. destruct H' as [Hs Hf]. unfold vwap_algo_tick, mbind_M. cbn.
    rewrite Hs. unfold done_or_hold. rewrite Hf. eexists. split; [reflexivity|]. cbn. exact H.
  - intros id p q a Hq [-> Hf]%andb_true_iff. by apply filled_enough.
Qed.

#[export] Instance pov_algorithm_laws : ExecAlgorithmLaws pov_algorithm.
Proof.
  split; cbn.
  - intros. apply dadd_exact.
  - intros ctx id a acts a'. unfold pov_tick. tick_cases.
  - intros. apply remaining_pos.
  - intros a H. by apply remaining_zero.
  - intros ctx id a H. unfold pov_tick, mbind_M. cbn. rewrite H. by eexists.
  - intros id p q a Hq Hf. by apply filled_enough.
Qed.

#[export] Instance iceberg_algorithm_laws : ExecAlgorithmLaws iceberg_algorithm.
Proof.
  split; cbn.
  - intros. apply dadd_exact.
  - intros ctx id a acts a'. unfold iceberg_tick. tick_cases.
  - intros. apply remaining_pos.
  - intros a H. by apply remaining_zero.
  - intros ctx id a H. unfold iceberg_tick, mbind_M. cbn. rewrite H. by eexists.
  - intros id p q a Hq Hf. by apply filled_enough.
Qed.
End Laws.

(** ** A time-weighted schedule sends its total *)
Section TwapSchedule.
Context {D : Decimal} {L : DecimalExact D}.
Implicit Types a : TwapAlgo.

(** Durations a [Duration] holds, slice counts a [u32] holds. *)
Definition twap_config_ok (c : TwapConfig) : Prop :=
  (1 ≤ tc_num_slices c < 2 ^ 32)%Z ∧ (0 ≤ tc_duration c ≤ dur_max)%Z ∧ (0 <= dval (tc_total_qty c))%Q.

(** What the first [k] slices come to. *)
Definition first_slices (c : TwapConfig) (slice : dec) (k : Z) : Q :=
  if (k =? tc_num_slices c)%Z then dval (tc_total_qty c) else (dval slice * inject_Z k)%Q.

Definition slice_offset (c : TwapConfig) (k : Z) : Z := (tc_duration c / tc_num_slices c * k)%Z.

(** The instant of the first tick, from which the schedule counts. *)
Fixpoint first_tick (evs : list ExecEvent) : option Z :=
  match evs with
  | [] => None
  | EvTick ctx _ :: _ => Some (ec_now ctx)
  | EvFill _ _ _ :: evs => first_tick evs
  end.
Definition start_of (start : option Z) (evs : list ExecEvent) : option Z :=
  match start with Some t => Some t | None => first_tick evs end.

(** The ticks past the whole duration, and whether all are before slice [j]. *)
Definition late_tick (c : TwapConfig) (t0 : Z) (e : ExecEvent) : nat :=
  match e with EvTick ctx _ => if (tc_duration c <=? since (ec_now ctx) t0)%Z then 1 else 0 | _ => 0 end.
Definition late_ticks (c : TwapConfig) (t0 : Z) (evs : list ExecEvent) : nat := sum_list_with (late_tick c t0) evs.
Definition ticks_before (c : TwapConfig) (t0 j : Z) (e : ExecEvent) : Prop :=
  match e with EvTick ctx _ => (since (ec_now ctx) t0 < slice_offset c j)%Z | _ => True end.

Record twap_ready (c : TwapConfig) a : Prop := {
  tr_config : ta_config a = c;
  tr_sent : (0 ≤ ta_slices_sent a ≤ tc_num_slices c)%Z;
  tr_slice : (0 <= dval (ta_slice_qty a))%Q;
  tr_fits : (dval (ta_slice_qty a) * inject_Z (tc_num_slices c) <= dval (tc_total_qty c))%Q;
}.

Lemma slice_offset_bound c k : twap_config_ok c → (0 ≤ k ≤ tc_num_slices c)%Z → (0 ≤ slice_offset c k ≤ tc_duration c)%Z.
Proof.
  intros (Hn & Hd & _) Hk. unfold slice_offset. pose proof (Z.div_pos (tc_duration c) (tc_num_slices c)).
  pose proof (Z.mul_div_le (tc_duration c) (tc_num_slices c)). nia.
Qed.

(** The offset is computed without a panic. *)
Lemma next_slice_offset_ok c a s : twap_config_ok c → twap_ready c a →
  next_slice_offset a s = Done (slice_offset c (ta_slices_sent a), s).
Proof.
  intros Hc []. pose proof (slice_offset_bound c _ Hc tr_sent0) as Hb. destruct Hc as (Hn & Hd & _).
  unfold next_slice_offset, dur_div, dur_mul, mbind_M. rewrite tr_config0, !wrap_u32_id by (unfold is_u32, u32_max; lia).
  rewrite (proj2 (Z.eqb_neq _ _)) by lia. cbn. fold (slice_offset c (ta_slices_sent a)). by rewrite (proj2 (Z.leb_le _ _)) by lia.
Qed.

Lemma target_qty_exact c a : twap_config_ok c → twap_ready c a → (ta_slices_sent a < tc_num_slices c)%Z →
  (dval (target_qty_for_slice (ta_slices_sent a) a) ==
    first_slices c (ta_slice_qty a) (ta_slices_sent a + 1) - first_slices c (ta_slice_qty a) (ta_slices_sent a))%Q ∧
  (0 <= dval (target_qty_for_slice (ta_slices_sent a) a))%Q.
Proof.
  intros (Hn & _) [] Hlt. unfold target_qty_for_slice, first_slices. rewrite tr_config0, (proj2 (Z.eqb_neq (ta_slices_sent a) _)) by lia.
  assert (En : (inject_Z (tc_num_slices c - 1) == inject_Z (tc_num_slices c) - 1)%Q).
  { unfold Z.sub. by rewrite inject_Z_plus. }
  destruct (ta_slices_sent a + 1 =? tc_num_slices c)%Z eqn:E.
  - apply Z.eqb_eq in E. rewrite dsub_exact, dmul_exact, dlit_int by lia.
    replace (ta_slices_sent a) with (tc_num_slices c - 1)%Z by lia. rewrite En. split; [ring|]. nra.
  - rewrite inject_Z_plus. split; [ring|done].
Qed.

(** One tick. *)
Lemma twap_algo_step c a ctx id : twap_config_ok c → twap_ready c a →
  let t0 := default (ec_now ctx) (ta_start a) in
  let sent := ta_slices_sent a in
  ∃ acts a', algo_tick ctx id a = Done (acts, a') ∧ twap_ready c a' ∧ ta_slice_qty a' = ta_slice_qty a ∧
    ta_start a' = Some t0 ∧ Forall (λ q, q_side q = tc_side c ∧ (0 < dval (q_qty q))%Q) (placed acts) ∧
    (qsum (vals (q_qty <$> placed acts)) ==
      first_slices c (ta_slice_qty a) (ta_slices_sent a') - first_slices c (ta_slice_qty a) sent)%Q ∧
    ta_slices_sent a' =
      if decide ((sent < tc_num_slices c)%Z ∧ (slice_offset c sent ≤ since (ec_now ctx) t0)%Z) then (sent + 1)%Z else sent.
Proof.
  intros Hc Ha t0 sent. pose proof Ha as []. cbn. unfold twap_algo_tick, mbind_M, mmodify, mget. cbn. rewrite tr_config0.
  set (a1 := twap_started (ec_now ctx) a). assert (Ha1 : twap_ready c a1) by by split. fold sent. fold t0.
  destruct (Z.leb_spec (tc_num_slices c) sent) as [Hge|Hlt].
  { exists (done_or_hold (tc_total_qty c) (ta_filled a)), a1. rewrite decide_False by lia.
    split; [done|]. do 3 (split; [done|]). unfold done_or_hold. destruct (dleb _ _); (split; [constructor|]; split; [cbn; fold sent; ring|done]). }
  rewrite (next_slice_offset_ok c a1) by done. fold sent. change (ta_slices_sent a1) with sent.
  destruct (Z.ltb_spec (since (ec_now ctx) t0) (slice_offset c sent)) as [Hearly|Hdue].
  { exists [Hold], a1. rewrite decide_False by lia. split; [done|]. do 3 (split; [done|]). split; [constructor|].
    split; [cbn; fold sent; ring|done]. }
  rewrite decide_True by done. destruct (target_qty_exact c a1 Hc Ha1 Hlt) as [Hq Hpos]. change (ta_slices_sent a1) with sent in Hq, Hpos.
  pose proof dec0_val as H0.
  assert (Hready : ∀ ids, twap_ready c (twap_sent ids a1)) by (intros ids; split; cbn; try done; fold sent; lia).
  set (q := target_qty_for_slice sent a1) in *. clearbody q. destruct (dleb q dec0) eqn:E.
  - exists [Hold], (twap_sent [] a1). split; [done|]. split; [done|]. do 2 (split; [done|]). split; [constructor|]. split; [|done].
    dec_to_Q. transitivity (dval q); [cbn; lra|exact Hq].
  - eexists _, (twap_sent [id] a1). split; [reflexivity|]. split; [done|]. do 2 (split; [done|]).
    dec_to_Q. split; [repeat constructor; cbn; lra|]. split; [|done]. transitivity (dval q); [cbn; lra|exact Hq].
Qed.

Lemma twap_algo_run c evs a : twap_config_ok c → twap_ready c a →
  ∃ qs a', drive evs a = Done (qs, a') ∧ twap_ready c a' ∧ ta_slice_qty a' = ta_slice_qty a ∧
    Forall (λ q, q_side q = tc_side c ∧ (0 < dval (q_qty q))%Q) qs ∧
    (qsum (vals (q_qty <$> qs)) ==
      first_slices c (ta_slice_qty a) (ta_slices_sent a') - first_slices c (ta_slice_qty a) (ta_slices_sent a))%Q ∧
    ∀ t0, start_of (ta_start a) evs = Some t0 →
      (∀ j, Forall (ticks_before c t0 j) evs → (ta_slices_sent a' ≤ Z.max j (ta_slices_sent a))%Z) ∧
      (Z.min (tc_num_slices c) (ta_slices_sent a + Z.of_nat (late_ticks c t0 evs)) ≤ ta_slices_sent a')%Z.
Proof.
  intros Hc. revert a. induction evs as [|[ctx id|id p q] evs IH]; intros a Ha.
  - exists [], a. split; [done|]. do 3 (split; [done|]). split; [cbn; ring|]. intros t0 _.
    pose proof (tr_sent _ _ Ha). split; [lia|]. unfold late_ticks. cbn. lia.
  - destruct (twap_algo_step c a ctx id Hc Ha) as (acts & a1 & E & Ha1 & Es & Est & Hq & Hsum & Hsent).
    destruct (IH a1 Ha1) as (qs & a2 & E2 & Ha2 & Es2 & Hq2 & Hsum2 & Htime).
    exists (placed acts ++ qs), a2. cbn [drive]. unfold mbind_M, mret. rewrite E, E2. split; [done|]. split; [done|].
    split; [congruence|]. split; [by apply Forall_app|].
    split. { rewrite fmap_app, vals_app, Hsum, Hsum2, Es. ring. }
    intros t0 Et. assert (Et0 : default (ec_now ctx) (ta_start a) = t0) by (unfold start_of in Et; destruct (ta_start a); cbn in *; congruence).
    rewrite Et0 in *. destruct (Htime t0) as [Hb Hl]; [by rewrite Est|]. pose proof (tr_sent _ _ Ha) as Hr.
    pose proof (slice_offset_bound c (ta_slices_sent a) Hc Hr) as Ho. split.
    + intros j [Hj Hall]%Forall_cons. specialize (Hb j Hall). cbn in Hj. rewrite Hsent in Hb. case_decide as Hd; [|lia].
      assert (ta_slices_sent a < j)%Z; [|lia]. destruct Hd as [_ Hd]. unfold slice_offset in *.
      destruct Hc as (Hn & Hdur & _). pose proof (Z.div_pos (tc_duration c) (tc_num_slices c)). nia.
    + unfold late_ticks in *. cbn [sum_list_with late_tick]. rewrite Hsent in Hl.
      destruct (Z.leb_spec (tc_duration c) (since (ec_now ctx) t0)); case_decide; lia.
  - destruct (IH (twap_algo_fill id p q a)) as (qs & a2 & E2 & Ha2 & Es2 & Hq2 & Hsum2 & Htime).
    { destruct Ha. by split. }
    exists qs, a2. do 5 (split; [done|]). intros t0 Et. destruct (Htime t0) as [Hb Hl].
    { exact Et. }
    split; [intros j [_ Hall]%Forall_cons; by apply Hb|done].
Qed.

(** In ideal arithmetic, whatever the market and the fills in between, the
    duration arithmetic of a time-weighted execution never panics, and it sends on its side only, no slice before its offset from the
    first tick, the first [k] slices for exactly the sum they are meant to have,
    and as soon as as many ticks as there are slices came after the whole
    duration, its quotes sum to exactly the total quantity. *)
Theorem twap_algo_sends_total c lot evs : twap_config_ok c → (0 < dval lot)%Q →
  ∃ a qs a', twap_algo_new c lot = Done a ∧ drive evs a = Done (qs, a') ∧
    Forall (λ q, q_side q = tc_side c ∧ (0 < dval (q_qty q))%Q) qs ∧
    (0 ≤ ta_slices_sent a' ≤ tc_num_slices c)%Z ∧
    (qsum (vals (q_qty <$> qs)) == first_slices c (ta_slice_qty a) (ta_slices_sent a'))%Q ∧
    ∀ t0, first_tick evs = Some t0 →
      (∀ j, (0 ≤ j)%Z → Forall (ticks_before c t0 j) evs → (ta_slices_sent a' ≤ j)%Z) ∧
      ((tc_num_slices c ≤ Z.of_nat (late_ticks c t0 evs))%Z → (qsum (vals (q_qty <$> qs)) == dval (tc_total_qty c))%Q).
Proof.
  intros Hc Hl. pose proof Hc as (Hn & _ & Ht). unfold twap_algo_new. rewrite (proj2 (Z.ltb_lt _ _)) by lia.
  eexists. match goal with |- ∃ qs a', Done ?a = _ ∧ _ => set (a0 := a) end.
  assert (HnQ : (1 <= inject_Z (tc_num_slices c))%Q) by (change 1%Q with (inject_Z 1); rewrite <- Zle_Qle; lia).
  assert (Ha0 : twap_ready c a0).
  { assert (Eq : (dval (ddiv (tc_total_qty c) (dlit (tc_num_slices c) 0)) == dval (tc_total_qty c) / inject_Z (tc_num_slices c))%Q).
    { rewrite ddiv_exact; rewrite dlit_int by lia; [done|lra]. }
    destruct (floor_lot_bounds (ddiv (tc_total_qty c) (dlit (tc_num_slices c) 0)) lot Hl) as [Hlo Hhi].
    { rewrite Eq. apply Qle_shift_div_l; lra. }
    split; cbn; [done|lia|done|]. fold (floor_lot (ddiv (tc_total_qty c) (dlit (tc_num_slices c) 0)) lot) in Hhi. rewrite Eq in Hhi.
    assert (E : (dval (tc_total_qty c) == dval (tc_total_qty c) / inject_Z (tc_num_slices c) * inject_Z (tc_num_slices c))%Q)
      by (field; lra). rewrite E. apply Qmult_le_compat_r; lra. }
  destruct (twap_algo_run c evs a0 Hc Ha0) as (qs & a' & E & Hr & Hs & Hq & Hsum & Htime).
  assert (E0 : (first_slices c (ta_slice_qty a0) (ta_slices_sent a0) == 0)%Q).
  { unfold first_slices. change (ta_slices_sent a0) with 0%Z. rewrite (proj2 (Z.eqb_neq 0 _)) by lia.
    change (inject_Z 0) with 0%Q. ring. }
  assert (Hsum' : (qsum (vals (q_qty <$> qs)) == first_slices c (ta_slice_qty a0) (ta_slices_sent a'))%Q).
  { rewrite Hsum, E0. ring. }
  exists qs, a'. split; [done|]. split; [done|]. split; [done|]. split; [apply Hr|]. split; [done|].
  intros t0 Et. destruct (Htime t0 Et) as [Hbefore Hlate]. split.
  - intros j Hj Hall. specialize (Hbefore j Hall). cbn [ta_slices_sent a0] in Hbefore. lia.
  - intros Hn'. cbn [ta_slices_sent a0] in Hlate. assert (Ha' : ta_slices_sent a' = tc_num_slices c).
    { pose proof (tr_sent _ _ Hr). lia. }
    rewrite Hsum', Ha'. unfold first_slices. by rewrite Z.eqb_refl.
Qed.
End TwapSchedule.

(** ** An iceberg shows a slice at a time and never overshoots *)
Section Iceberg.
Context {D : Decimal} {L : DecimalExact D}.
Implicit Types a : IcebergAlgo.

(** What rests at the venue. *)
Definition resting a : Q := match active a with Some (_, r) => dval r | None => 0 end.

(** A venue fills the resting order only, and no more than rests of it. *)
Fixpoint venue_fills a (evs : list ExecEvent) : Prop :=
  match evs with
  | [] => True
  | EvTick ctx id :: evs =>
      (0 < dval (ec_lot_size ctx))%Q ∧
      match algo_tick ctx id a with Done (_, a') => venue_fills a' evs | Panicked => False end
  | EvFill id p q :: evs =>
      (0 < dval q /\ dval q <= resting a)%Q ∧ (∃ r, active a = Some (id, r)) ∧ venue_fills (algo_on_fill id p q a) evs
  end.

Record iceberg_ok (c : IcebergConfig) a : Prop := {
  io_config : ia_config a = c;
  io_active : ∀ i r, active a = Some (i, r) → (0 < dval r)%Q;
  io_bound : (dval (ia_filled a) + resting a <= dval (ic_total_qty c))%Q;
}.

Lemma iceberg_fill_ok c a id p q : iceberg_ok c a → (0 < dval q /\ dval q <= resting a)%Q → (∃ r, active a = Some (id, r)) →
  iceberg_ok c (iceberg_fill id p q a) ∧
  (dval (ia_filled (iceberg_fill id p q a)) + resting (iceberg_fill id p q a) == dval (ia_filled a) + resting a)%Q.
Proof.
  intros [] Hq [r Hr]. unfold resting in *. rewrite Hr in *. unfold iceberg_fill. rewrite Hr, N.eqb_refl. cbn. pose proof dec0_val as H0.
  destruct (dleb (dsub r q) dec0) eqn:E; cbn; rewrite dadd_exact; dec_to_Q; rewrite dsub_exact in *.
  - assert (dval r == dval q)%Q by lra. split; [|lra]. split; cbn; [done|done|]. unfold resting. cbn. rewrite dadd_exact. lra.
  - split; [|ring]. split; cbn; [done| |].
    + intros i r' [= <- <-]. rewrite dsub_exact. lra.
    + unfold resting. cbn. rewrite dadd_exact, dsub_exact. lra.
Qed.

(** A tick of an unfinished iceberg with nothing at the venue. *)
Lemma iceberg_tick_idle ctx id a : active a = None → (dval (ia_filled a) < dval (ic_total_qty (ia_config a)))%Q →
  let q := floor_lot (dmin (dsub (ic_total_qty (ia_config a)) (ia_filled a)) (display_qty (ia_config a))) (ec_lot_size ctx) in
  algo_tick ctx id a =
    if dleb q dec0 then Done ([Hold], a)
    else Done ([Place id (mkQuote (ic_side (ia_config a)) (limit_price (ia_config a)) q)],
               mkIcebergAlgo (ia_config a) (ia_filled a) (Some (id, q))).
Proof.
  intros Ha Hf q. cbn. unfold iceberg_tick, mbind_M, mget, mret, mmodify. rewrite Ha.
  rewrite (proj2 (dleb_gt _ _)) by done. fold q. by destruct (dleb q dec0).
Qed.

Lemma iceberg_tick_ok c a ctx id : (0 <= dval (display_qty c))%Q → (0 < dval (ec_lot_size ctx))%Q → iceberg_ok c a →
  ∃ acts a', algo_tick ctx id a = Done (acts, a') ∧ iceberg_ok c a' ∧ ia_filled a' = ia_filled a ∧
    Forall (λ q, q_side q = ic_side c ∧ q_price q = limit_price c ∧ active a = None ∧
      (0 < dval (q_qty q))%Q ∧ (dval (q_qty q) <= dval (display_qty c))%Q ∧
      (dval (ia_filled a) + dval (q_qty q) <= dval (ic_total_qty c))%Q) (placed acts) ∧
    (qsum (vals (q_qty <$> placed acts)) == resting a' - resting a)%Q.
Proof.
  intros Hd Hl Ha. pose proof Ha as []. destruct (dleb (ic_total_qty c) (ia_filled a)) eqn:Ef.
  { exists [AlgoDone], a. cbn. unfold iceberg_tick, mbind_M, mget, mret. rewrite io_config0, Ef. split; [done|]. split; [done|]. split; [done|].
    split; [constructor|cbn; ring]. }
  destruct (active a) as [[i r]|] eqn:Ea.
  { exists [Hold], a. cbn. unfold iceberg_tick, mbind_M, mget, mret. rewrite io_config0, Ef, Ea. split; [done|].
    do 2 (split; [done|]). split; [constructor|cbn; ring]. }
  rewrite iceberg_tick_idle; [|done|rewrite io_config0; by dec_to_Q]. rewrite io_config0.
  set (m := dmin _ _). dec_to_Q. assert (Hm : (0 <= dval m /\ dval m <= dval (display_qty c) /\
    dval m <= dval (ic_total_qty c) - dval (ia_filled a))%Q).
  { unfold m. rewrite dmin_val, dsub_exact. destruct (Q.min_spec (dval (ic_total_qty c) - dval (ia_filled a)) (dval (display_qty c)))
      as [[? ->]|[? ->]]; lra. }
  destruct (floor_lot_bounds m (ec_lot_size ctx) Hl ltac:(lra)) as [_ Hq].
  fold (floor_lot m (ec_lot_size ctx)) in Hq. set (q := floor_lot _ _) in *. clearbody q m.
  pose proof dec0_val as H0. destruct (dleb q dec0) eqn:Eq; [exists [Hold], a; do 3 (split; [done|]); split; [constructor|cbn; ring]|]. dec_to_Q.
  do 2 eexists. split; [reflexivity|]. split; [|split; [done|split]].
  - split; cbn; [done| |unfold resting; cbn; lra]. intros j r [= <- <-]. lra.
  - repeat constructor; cbn; try done; lra.
  - unfold resting. rewrite Ea. cbn. ring.
Qed.

Lemma iceberg_run c evs a : (0 <= dval (display_qty c))%Q → iceberg_ok c a → venue_fills a evs →
  ∃ qs a', drive evs a = Done (qs, a') ∧ iceberg_ok c a' ∧
    (qsum (vals (q_qty <$> qs)) == dval (ia_filled a') + resting a' - (dval (ia_filled a) + resting a))%Q ∧
    Forall (λ q, q_side q = ic_side c ∧ q_price q = limit_price c ∧
      (0 < dval (q_qty q) /\ dval (q_qty q) <= dval (display_qty c))%Q) qs.
Proof.
  intros Hd. revert a. induction evs as [|[ctx id|id p q] evs IH]; intros a Ha; cbn [venue_fills drive].
  - intros _. exists [], a. split; [done|]. split; [done|]. split; [cbn; ring|constructor].
  - intros [Hl Hv]. destruct (iceberg_tick_ok c a ctx id Hd Hl Ha) as (acts & a1 & E & Ha1 & Hf & Hq & Hsum). rewrite E in Hv.
    destruct (IH a1 Ha1 Hv) as (qs & a2 & E2 & Ha2 & Hsum2 & Hq2). exists (placed acts ++ qs), a2.
    unfold mbind_M, mret. rewrite E, E2. split; [done|]. split; [done|]. split.
    + rewrite fmap_app, vals_app, Hsum, Hsum2, Hf. ring.
    + apply Forall_app. split; [|done]. eapply Forall_impl; [exact Hq|]. cbn. naive_solver.
  - intros (Hq & Hr & Hv). destruct (iceberg_fill_ok c a id p q Ha Hq Hr) as [Ha1 Hsame].
    destruct (IH _ Ha1 Hv) as (qs & a2 & E2 & Ha2 & Hsum2 & Hq2). exists qs, a2. split; [done|]. split; [done|].
    split; [|done]. rewrite Hsum2. cbn [algo_on_fill iceberg_algorithm]. rewrite Hsame. ring.
Qed.

(** An iceberg whose venue fills no more than what rests never has more than
    its total filled and resting together, never rests two orders at once, and
    shows each of its quotes on its side, at its limit, of at most its display
    quantity and of no more than is left to fill. *)
Theorem iceberg_never_overshoots c evs : (0 <= dval (ic_total_qty c))%Q → (0 <= dval (display_qty c))%Q →
  venue_fills (iceberg_new c) evs →
  ∃ qs a', drive evs (iceberg_new c) = Done (qs, a') ∧
    (dval (ia_filled a') + resting a' <= dval (ic_total_qty c))%Q ∧ (0 <= resting a')%Q ∧
    (qsum (vals (q_qty <$> qs)) == dval (ia_filled a') + resting a')%Q ∧
    Forall (λ q, q_side q = ic_side c ∧ q_price q = limit_price c ∧
      (0 < dval (q_qty q) /\ dval (q_qty q) <= dval (display_qty c))%Q) qs.
Proof.
  intros Ht Hd Hv. assert (H0 : iceberg_ok c (iceberg_new c)).
  { split; cbn; [done|done|]. unfold resting. cbn. rewrite dec0_val. lra. }
  destruct (iceberg_run c evs (iceberg_new c) Hd H0 Hv) as (qs & a' & E & Ha' & Hsum & Hq). exists qs, a'.
  split; [done|]. split; [apply Ha'|]. split; [|split; [|done]].
  - unfold resting. destruct (active a') as [[i r]|] eqn:Er; [|lra]. pose proof (io_active _ _ Ha' _ _ Er). lra.
  - rewrite Hsum. unfold resting at 2. cbn. rewrite dec0_val. ring.
Qed.
End Iceberg.

(** ** Closed instances *)
Definition at_sec (s : Z) : ExecContext (D := Qc_decimal) :=
  mkExecContext (s * 10 ^ 9)%Z (dlit 99 0) (dlit 101 0) (dlit 20 0) (dlit 1 1).

Definition demo_twap : TwapConfig (D := Qc_decimal) := mkTwapConfig Buy (dlit 1 0) (30 * 10 ^ 9)%Z 3.
Definition twap_evs : list (ExecEvent (D := Qc_decimal)) :=
  [EvTick (at_sec 0) 1; EvTick (at_sec 5) 2; EvFill 1 (dlit 101 0) (dlit 3 1)] ++
  ((λ i, EvTick (at_sec (Z.of_nat i)) (N.of_nat i)) <$> seq 40 3).

Lemma twap_algo_sends_total_witness :
  is_none (first_tick twap_evs) = false ∧
  ∃ qs a', drive twap_evs (mkTwapAlgo demo_twap None (dlit 3 1) 0 dec0 []) = Done (qs, a') ∧
    (qsum (vals (q_qty <$> qs)) == 1)%Q.
Proof.
  split; [reflexivity|].
  destruct (twap_algo_sends_total demo_twap (dlit 1 1) twap_evs) as (a & qs & a' & Ea & E & _ & _ & _ & H).
  - split; [|split]; by vm_compute.
  - by vm_compute.
  - exists qs, a'. destruct (H 0%Z eq_refl) as [_ Hs]. split.
    + rewrite <- E. f_equal. injection Ea as <-. f_equal.
    + apply Hs. by vm_compute.
Defined.

Definition demo_iceberg : IcebergConfig (D := Qc_decimal) := mkIcebergConfig Sell (dlit 25 1) (dlit 1 0) (dlit 100 0).
Definition iceberg_evs : list (ExecEvent (D := Qc_decimal)) :=
  [EvTick (at_sec 0) 1; EvFill 1 (dlit 100 0) (dlit 4 1); EvTick (at_sec 1) 2; EvFill 1 (dlit 100 0) (dlit 6 1);
   EvTick (at_sec 2) 3].

Lemma iceberg_never_overshoots_witness :
  ∃ qs a', drive iceberg_evs (iceberg_new demo_iceberg) = Done (qs, a') ∧
    (qsum (vals (q_qty <$> qs)) == dval (ia_filled a') + resting a')%Q.
Proof.
  destruct (iceberg_never_overshoots demo_iceberg iceberg_evs) as (qs & a' & E & _ & _ & H & _).
  - by vm_compute.
  - by vm_compute.
  - repeat (split; try done; try (eexists; reflexivity)); by vm_compute.
  - exists qs, a'. by split.
Defined.

(** Every slice of a volume-weighted execution is rounded down, so one unit over
    three equal buckets of a tenth's lot stops at nine tenths: filled in full
    it still holds, and is never done. *)
Definition demo_vwap : VwapConfig (D := Qc_decimal) := mkVwapConfig Buy (dlit 1 0) [dec1; dec1; dec1] (10 ^ 9)%Z.
Example vwap_never_done :
  match vwap_algo_new demo_vwap with
  | Done a =>
      match drive ((λ i, EvTick (at_sec (Z.of_nat i)) (N.of_nat i)) <$> seq 1 9) a with
      | Done (qs, a) =>
          let a := fold_left (λ a q, vwap_algo_fill 0 (q_price q) (q_qty q) a) qs a in
          (length qs, deqb (va_filled a) (dlit 9 1), algo_is_finished a)
      | Panicked => (0, false, false)
      end
  | Panicked => (0, false, false)
  end = (3, true, false).
Proof. vm_compute. reflexivity. Qed.

(** A percent-of-volume execution counts only what was filled: ticks before the
    first fill place the total again. *)
Example pov_overplaces :
  match pov_new (mkPovConfig Buy (dlit 1 0) (dlit 5 1)) with
  | Done a =>
      match drive [EvTick (at_sec 1) 1; EvTick (at_sec 2) 2] a with
      | Done (qs, _) => deqb (dsum (q_qty <$> qs)) (dlit 2 0)
      | Panicked => false
      end
  | Panicked => false
  end = true.
Proof. vm_compute. reflexivity. Qed.
