(* ===== verification/FundingArb.v ===== *)
(** * Funding arbitrage

    The decision core ([crates/persistence/src/funding.rs]), the dispatcher of
    order pairs ([crates/strategy/src/funding_arb.rs]), the driver that
    composes them ([funding_arb_driver.rs]) and the part of the engine that runs
    the driver ([crates/engine/src/market_maker.rs]: the arm of the main loop,
    [handle_driver_event], the fills). Every placement is recorded with what it
    returned, so that the theorems can speak of the orders the venues took. *)
From stdpp Require Import base gmap list strings.
From Stdlib Require Import ZArith QArith Qabs Lqa Lia.
From S2P Require Import Prelude Decimal Types KillSwitch OrderExec Unwind.
Local Open Scope nat_scope.
Local Open Scope prog_scope.

Section Funding.
Context {D : Decimal} (dec_text : dec → string).

(** ** The decision core *)
Record FundingArbState := mkArbState {
  fa_symbol : string;
  spot_position : dec;
  perp_position : dec;
  net_delta : dec;
  entry_basis : dec;
  accumulated_funding : dec;
  basis_pnl : dec;
  funding_periods : Z;
  last_funding_at : option Z;
}.

Definition arb_state_new (symbol : string) : FundingArbState :=
  mkArbState symbol dec0 dec0 dec0 dec0 dec0 dec0 0 None.

Definition arb_total_pnl (s : FundingArbState) : dec := dadd (accumulated_funding s) (basis_pnl s).
Definition arb_is_open (s : FundingArbState) : bool := negb (is_zero (spot_position s)) || negb (is_zero (perp_position s)).

Record FundingArbConfig := mkArbConfig {
  min_rate_annual_pct : dec;
  max_position : dec;
  max_basis_bps : dec;
  arb_enabled : bool;
  per_pair_min_rate_annual_pct : gmap string dec;
  transfer_latency_cost_bps : dec;
}.

Definition arb_config_default : FundingArbConfig :=
  mkArbConfig (dlit 10 0) (dlit 1 1) (dlit 50 0) false ∅ (dlit 8 0).

Definition threshold_for (symbol : string) (c : FundingArbConfig) : dec :=
  default (min_rate_annual_pct c) (per_pair_min_rate_annual_pct c !! symbol).

Inductive SpotAction := SpotBuy | SpotSell.
Inductive PerpAction := PerpLong | PerpShort.
Inductive FundingSignal :=
| SigEnter (spot_side : SpotAction) (perp_side : PerpAction) (size : dec)
| SigExit (reason : string)
| SigHold.

Record FundingArbEngine := mkArbEngine { arb_state : FundingArbState; arb_config : FundingArbConfig }.

(** The division by the spot price panics when it is zero. *)
Definition evaluate (funding_rate spot_price perp_price : dec) (e : FundingArbEngine) : outcome FundingSignal :=
  let c := arb_config e in
  if negb (arb_enabled c) then Done SigHold
  else if is_zero spot_price then Panicked
  else
    let annual_rate := dmul (dmul funding_rate (dlit 1095 0)) (dlit 100 0) in
    let basis_bps := dmul (ddiv (dabs (dsub perp_price spot_price)) spot_price) (dlit 10000 0) in
    Done
      (if arb_is_open (arb_state e) then
         if dltb (max_basis_bps c) basis_bps then SigExit ("basis too wide: " +:+ dec_text basis_bps +:+ " bps")
         else if dltb (dabs annual_rate) (dlit 2 0) then SigExit "funding rate too low to hold"
         else SigHold
       else if dleb (min_rate_annual_pct c) (dabs annual_rate) then
         if dltb (dlit 0 0) funding_rate then SigEnter SpotBuy PerpShort (max_position c)
         else SigEnter SpotSell PerpLong (max_position c)
       else SigHold).

Definition set_positions (spot perp basis : dec) (s : FundingArbState) : FundingArbState :=
  mkArbState (fa_symbol s) spot perp (dadd spot perp) basis (accumulated_funding s) (basis_pnl s) (funding_periods s)
    (last_funding_at s).

Definition on_funding_payment (now : Z) (amount : dec) (s : FundingArbState) : FundingArbState :=
  mkArbState (fa_symbol s) (spot_position s) (perp_position s) (net_delta s) (entry_basis s)
    (dadd (accumulated_funding s) amount) (basis_pnl s) (wrap_u64 (funding_periods s + 1)) (Some now).

Definition update_basis (spot_price perp_price : dec) (s : FundingArbState) : FundingArbState :=
  if arb_is_open s then
    mkArbState (fa_symbol s) (spot_position s) (perp_position s) (dadd (spot_position s) (perp_position s)) (entry_basis s)
      (accumulated_funding s) (dmul (dsub (entry_basis s) (dsub perp_price spot_price)) (dabs (spot_position s)))
      (funding_periods s) (last_funding_at s)
  else s.

Definition on_entry (spot_qty perp_qty spot_price perp_price : dec) (s : FundingArbState) : FundingArbState :=
  set_positions spot_qty perp_qty (dsub perp_price spot_price) s.

Definition on_exit (s : FundingArbState) : FundingArbState :=
  mkArbState (fa_symbol s) (dlit 0 0) (dlit 0 0) (dlit 0 0) (entry_basis s) (accumulated_funding s) (basis_pnl s)
    (funding_periods s) (last_funding_at s).

Definition apply_spot_fill (signed_qty : dec) (s : FundingArbState) : FundingArbState :=
  set_positions (dadd (spot_position s) signed_qty) (perp_position s) (entry_basis s) s.

Definition apply_perp_fill (signed_qty : dec) (s : FundingArbState) : FundingArbState :=
  set_positions (spot_position s) (dadd (perp_position s) signed_qty) (entry_basis s) s.

(** ** The two venues *)
Inductive FundingRateError := NotSupported | OtherError (reason : string).

(** The connectors of the legs, and the sleep between retries. *)
Class PairVenues := {
  pworld : Type;
  primary_place : NewOrder → pworld → result OrderId string * pworld;
  hedge_place : NewOrder → pworld → result OrderId string * pworld;
  primary_book : string → pworld → result (list PriceLevel * list PriceLevel) string * pworld;
  hedge_book : string → pworld → result (list PriceLevel * list PriceLevel) string * pworld;
  hedge_funding : string → pworld → result dec FundingRateError * pworld;
  sleep_ms : Z → pworld → pworld;
}.
Context {PV : PairVenues}.

Inductive Leg := PrimaryLeg | PerpLeg.

(** A placement: where, what, and whether the venue took it. *)
Record Attempt := mkAttempt { at_leg : Leg; at_order : NewOrder; at_ok : bool }.

Record PairSys := mkPairSys { ps_world : pworld; attempts : list Attempt }.

Definition place (leg : Leg) (o : NewOrder) : M PairSys (result OrderId string) := λ s,
  let '(r, w) := match leg with PrimaryLeg => primary_place o (ps_world s) | PerpLeg => hedge_place o (ps_world s) end in
  Done (r, mkPairSys w (attempts s ++ [mkAttempt leg o (is_ok r)])).

Definition ask {A} (f : pworld → A * pworld) : M PairSys A := λ s,
  let '(a, w) := f (ps_world s) in Done (a, mkPairSys w (attempts s)).

Definition pause (ms : Z) : M PairSys unit := mmodify (λ s, mkPairSys (sleep_ms ms (ps_world s)) (attempts s)).

(** ** The dispatcher *)
Inductive PairLegError := TakerRejectedErr (reason : string) | PairBreakErr (reason : string) (compensated : bool).

Record PairDispatchOutcome := mkDispatch {
  taker_order_id : OrderId;
  maker_order_id : OrderId;
  pd_spot_side : Side;
  pd_perp_side : Side;
  pd_size : dec;
}.

Definition retry_one (retry : M PairSys bool) (r : result OrderId string) : M PairSys bool :=
  match r with Ok _ => mret true | Err _ => retry end.

Fixpoint retry_after (backoff : list Z) (o : NewOrder) : M PairSys bool :=
  match backoff with
  | [] => mret false
  | delay :: rest => do! pause delay in let! r := place PerpLeg o in retry_one (retry_after rest o) r
  end.

Definition place_with_retry (o : NewOrder) (backoff : list Z) : M PairSys bool :=
  let! r := place PerpLeg o in retry_one (retry_after backoff o) r.

Definition taker_order (pair : InstrumentPair) (side : Side) (qty : dec) (reduce_only : bool) : NewOrder :=
  mkNewOrder (hedge_symbol pair) side Market None qty (Some Ioc) None reduce_only.

Definition maker_order (pair : InstrumentPair) (side : Side) (qty : dec) : NewOrder :=
  mkNewOrder (primary_symbol pair) side Limit None qty (Some PostOnly) None false.

Definition pair_dispatch (pair : InstrumentPair) (spot_side perp_side : Side) (size : dec) :
    M PairSys (result PairDispatchOutcome PairLegError) :=
  let hedge_size := dmul size (multiplier pair) in
  let! taker := place PerpLeg (taker_order pair perp_side hedge_size false) in
  match taker with
  | Err e => mret (Err (TakerRejectedErr e))
  | Ok taker_id =>
      let! maker := place PrimaryLeg (maker_order pair spot_side size) in
      match maker with
      | Ok maker_id => mret (Ok (mkDispatch taker_id maker_id spot_side perp_side size))
      | Err e =>
          let! compensated := place_with_retry (taker_order pair (opposite perp_side) hedge_size true) [100; 200; 400]%Z in
          mret (Err (PairBreakErr e compensated))
      end
  end.

Definition spot_action_to_side (a : SpotAction) : Side := match a with SpotBuy => Buy | SpotSell => Sell end.
Definition perp_action_to_side (a : PerpAction) : Side := match a with PerpLong => Buy | PerpShort => Sell end.

Definition arb_enter (pair : InstrumentPair) (signal : FundingSignal) : M PairSys (result PairDispatchOutcome PairLegError) :=
  match signal with
  | SigEnter spot perp size => pair_dispatch pair (spot_action_to_side spot) (perp_action_to_side perp) size
  | _ => mret (Err (TakerRejectedErr "non-enter signal passed to enter()"))
  end.

Definition arb_exit (pair : InstrumentPair) (open_spot open_perp : Side) (size : dec) :
    M PairSys (result PairDispatchOutcome PairLegError) :=
  pair_dispatch pair (opposite open_spot) (opposite open_perp) size.

(** ** The driver *)
Inductive DriverEvent :=
| DrvEntered (o : PairDispatchOutcome)
| DrvExited (o : PairDispatchOutcome) (reason : string)
| DrvTakerRejected (reason : string)
| DrvPairBreak (reason : string) (compensated : bool)
| DrvHold
| DrvInputUnavailable (reason : string).

Record OpenSides := mkOpenSides { os_spot : Side; os_perp : Side; os_size : dec }.

Record FundingArbDriver := mkDriver {
  fd_engine : FundingArbEngine;
  open_sides : option OpenSides;
  fd_pair : InstrumentPair;
}.

Definition driver_new (pair : InstrumentPair) (c : FundingArbConfig) : FundingArbDriver :=
  mkDriver (mkArbEngine (arb_state_new (primary_symbol pair)) c) None pair.

Definition set_arb_state (f : FundingArbState → FundingArbState) (d : FundingArbDriver) : FundingArbDriver :=
  mkDriver (mkArbEngine (f (arb_state (fd_engine d))) (arb_config (fd_engine d))) (open_sides d) (fd_pair d).
Definition set_open_sides (o : option OpenSides) (d : FundingArbDriver) : FundingArbDriver :=
  mkDriver (fd_engine d) o (fd_pair d).

Definition mid_of (bids asks : list PriceLevel) : option dec :=
  bid ← head bids; ask ← head asks; Some (ddiv (dadd (pl_price bid) (pl_price ask)) (dlit 2 0)).

Definition sample_mids (pair : InstrumentPair) : M PairSys (option (dec * dec)) :=
  let! p := ask (primary_book (primary_symbol pair)) in
  match p with
  | Err _ => mret None
  | Ok (pb, pa) =>
      let! h := ask (hedge_book (hedge_symbol pair)) in
      match h with
      | Err _ => mret None
      | Ok (hb, ha) => mret (pm ← mid_of pb pa; hm ← mid_of hb ha; Some (pm, hm))
      end
  end.

Definition signed_size (s : Side) (size : dec) : dec := match s with Buy => size | Sell => dneg size end.
Definition signed_hedge (s : Side) (size m : dec) : dec := match s with Buy => dmul size m | Sell => dmul (dneg size) m end.

Definition break_event (e : PairLegError) : DriverEvent :=
  match e with TakerRejectedErr r => DrvTakerRejected r | PairBreakErr r c => DrvPairBreak r c end.

Definition entered (spot_mid perp_mid size : dec) (spot perp : Side) (o : PairDispatchOutcome) (d : FundingArbDriver) : FundingArbDriver :=
  let spot_qty := signed_size (pd_spot_side o) size in
  let perp_qty := signed_hedge (pd_perp_side o) size (multiplier (fd_pair d)) in
  set_open_sides (Some (mkOpenSides spot perp size)) (set_arb_state (on_entry spot_qty perp_qty spot_mid perp_mid) d).

Definition run_signal (signal : FundingSignal) (spot_mid perp_mid : dec) (d : FundingArbDriver) :
    M PairSys (DriverEvent * FundingArbDriver) :=
  match signal with
  | SigHold => mret (DrvHold, d)
  | SigEnter spot perp size =>
      let! r := arb_enter (fd_pair d) signal in
      match r with
      | Ok o => mret (DrvEntered o, entered spot_mid perp_mid size (spot_action_to_side spot) (perp_action_to_side perp) o d)
      | Err e => mret (break_event e, d)
      end
  | SigExit reason =>
      match open_sides d with
      | None => mret (DrvHold, d)
      | Some s =>
          let! r := arb_exit (fd_pair d) (os_spot s) (os_perp s) (os_size s) in
          match r with
          | Ok o => mret (DrvExited o reason, set_open_sides None (set_arb_state on_exit d))
          | Err e => mret (break_event e, d)
          end
      end
  end.

Definition decide_signal (rate spot perp : dec) (d : FundingArbDriver) : M PairSys FundingSignal := λ s,
  match evaluate rate spot perp (fd_engine d) with Done sig => Done (sig, s) | Panicked => Panicked end.

Definition tick_once (d : FundingArbDriver) : M PairSys (DriverEvent * FundingArbDriver) :=
  let! mids := sample_mids (fd_pair d) in
  match mids with
  | None => mret (DrvInputUnavailable "primary or hedge book empty", d)
  | Some (spot_mid, perp_mid) =>
      let! rate := ask (hedge_funding (hedge_symbol (fd_pair d))) in
      match rate with
      | Err NotSupported => mret (DrvInputUnavailable "hedge connector does not support get_funding_rate", d)
      | Err (OtherError e) => mret (DrvInputUnavailable e, d)
      | Ok rate => let! signal := decide_signal rate spot_mid perp_mid d in run_signal signal spot_mid perp_mid d
      end
  end.

(** ** The engine around the driver *)
Context {C : Clock}.

Record ArbHost := mkHost { ah_driver : option FundingArbDriver; ah_kill : KillSwitch }.

Definition handle_driver_event (now : instant) (ev : DriverEvent) (h : ArbHost) : ArbHost :=
  match ev with
  | DrvPairBreak _ false =>
      mkHost None (manual_trigger StopNewOrders "uncompensated funding arb pair break" now (ah_kill h))
  | _ => h
  end.

(** The arm of the main loop. *)
Definition funding_arb_arm (now : instant) (h : ArbHost) : M PairSys ArbHost :=
  match ah_driver h with
  | None => mret h
  | Some d => let! (ev, d) := tick_once d in mret (handle_driver_event now ev (mkHost (Some d) (ah_kill h)))
  end.

(** A fill of a leg, as [handle_ws_event] and [handle_hedge_event] pass it on. *)
Definition leg_fill (leg : Leg) (side : Side) (qty : dec) (h : ArbHost) : ArbHost :=
  let q := signed_size side qty in
  mkHost (set_arb_state (match leg with PrimaryLeg => apply_spot_fill q | PerpLeg => apply_perp_fill q end) <$> ah_driver h)
    (ah_kill h).

(** [ArbKill]: the rest of the engine and the operators change the kill switch
    as they like. *)
Inductive ArbEvent :=
| ArbTick (now : instant)
| ArbFill (leg : Leg) (side : Side) (qty : dec)
| ArbKill (k : KillSwitch).

Definition arb_step (ev : ArbEvent) (h : ArbHost) : M PairSys ArbHost :=
  match ev with
  | ArbTick now => funding_arb_arm now h
  | ArbFill leg side qty => mret (leg_fill leg side qty h)
  | ArbKill k => mret (mkHost (ah_driver h) k)
  end.

Fixpoint arb_run (evs : list ArbEvent) (h : ArbHost) : M PairSys ArbHost :=
  match evs with
  | [] => mret h
  | ev :: evs => let! h := arb_step ev h in arb_run evs h
  end.
End Funding.

(** ** What the venues took *)
Section Exposure.
Context {D : Decimal} {PV : PairVenues}.
Local Open Scope Q_scope.

Definition signedQ (s : Side) (q : Q) : Q := match s with Buy => q | Sell => - q end.

Definition same_leg (a b : Leg) : bool :=
  match a, b with PrimaryLeg, PrimaryLeg | PerpLeg, PerpLeg => true | _, _ => false end.

(** The signed quantity of an attempt on a leg: nothing when it was refused. *)
Definition taken (leg : Leg) (a : Attempt) : Q :=
  if at_ok a && same_leg (at_leg a) leg then signedQ (no_side (at_order a)) (dval (no_qty (at_order a))) else 0.

Definition net (leg : Leg) (l : list Attempt) : Q := qsum (taken leg <$> l).

Lemma net_app leg l1 l2 : net leg (l1 ++ l2) == net leg l1 + net leg l2.
Proof. unfold net. rewrite fmap_app. apply qsum_app. Qed.

Lemma net_refused leg l o n : net leg (replicate n (mkAttempt l o false)) == 0.
Proof. unfold net. induction n as [|n IH]; [done|]. cbn [replicate fmap list_fmap qsum]. rewrite IH. unfold taken. cbn. ring. Qed.

Lemma place_done leg o (s : PairSys) : ∃ r w, place leg o s = Done (r, mkPairSys w (attempts s ++ [mkAttempt leg o (is_ok r)])).
Proof. unfold place. destruct (match leg with PrimaryLeg => _ | PerpLeg => _ end) as [r w]. eauto. Qed.

(** The retries stop at the first order taken. *)
Lemma retry_spec backoff o : ∀ s : PairSys, ∃ (b : bool) w n,
  retry_after backoff o s =
    Done (b, mkPairSys w (attempts s ++ replicate n (mkAttempt PerpLeg o false) ++ (if b then [mkAttempt PerpLeg o true] else []))) ∧
  if b then (n < length backoff)%nat else n = length backoff.
Proof.
  induction backoff as [|delay rest IH]; intros s.
  - destruct s as [w l]. exists false, w, 0%nat. cbn. by rewrite app_nil_r.
  - cbn [retry_after]. unfold pause, mmodify, mbind_M at 1. set (s1 := mkPairSys (sleep_ms delay (ps_world s)) (attempts s)).
    destruct (place_done PerpLeg o s1) as (r & w & Hp). unfold mbind_M. rewrite Hp. destruct r as [id|e]; cbn [retry_one is_ok].
    + exists true, w, 0%nat. cbn. split; [done|lia].
    + destruct (IH (mkPairSys w (attempts s1 ++ [mkAttempt PerpLeg o false]))) as (b & w' & n & Hr & Hn).
      exists b, w', (S n). rewrite Hr. cbn [attempts s1 replicate]. split; [by rewrite <- app_assoc|]. destruct b; cbn; lia.
Qed.

Lemma with_retry_spec o (s : PairSys) : ∃ (b : bool) w l,
  place_with_retry o [100; 200; 400]%Z s = Done (b, mkPairSys w (attempts s ++ l)) ∧
  if b then ∃ n, (n <= 3)%nat ∧ l = replicate n (mkAttempt PerpLeg o false) ++ [mkAttempt PerpLeg o true]
  else l = replicate 4 (mkAttempt PerpLeg o false).
Proof.
  unfold place_with_retry. destruct (place_done PerpLeg o s) as (r & w & Hp). rewrite (bind_done _ _ _ _ _ Hp).
  destruct r as [id|e]; cbn [is_ok].
  - exists true, w, [mkAttempt PerpLeg o true]. split; [done|]. exists 0%nat. split; [lia|done].
  - destruct (retry_spec [100; 200; 400]%Z o (mkPairSys w (attempts s ++ [mkAttempt PerpLeg o false]))) as (b & w' & n & Hr & Hn).
    cbn [retry_one]. rewrite Hr. cbn [attempts]. rewrite <- app_assoc. eexists b, w', _. split; [reflexivity|]. destruct b; cbn in Hn.
    + exists (S n). split; [lia|done].
    + subst n. done.
Qed.

(** Exactly what a dispatch sends, by what it returns. *)
Definition sent (pair : InstrumentPair) (spot perp : Side) (size : dec) (r : result PairDispatchOutcome PairLegError)
    (l : list Attempt) : Prop :=
  let q := dmul size (multiplier pair) in
  let taker := mkAttempt PerpLeg (taker_order pair perp q false) in
  let maker := mkAttempt PrimaryLeg (maker_order pair spot size) in
  let back := mkAttempt PerpLeg (taker_order pair (opposite perp) q true) in
  match r with
  | Ok o => l = [taker true; maker true] ∧ pd_spot_side o = spot ∧ pd_perp_side o = perp ∧ pd_size o = size
  | Err (TakerRejectedErr _) => l = [taker false]
  | Err (PairBreakErr _ true) => ∃ n, (n <= 3)%nat ∧ l = [taker true; maker false] ++ replicate n (back false) ++ [back true]
  | Err (PairBreakErr _ false) => l = [taker true; maker false] ++ replicate 4 (back false)
  end.

Lemma dispatch_sent pair spot perp size (s : PairSys) : ∃ r w l,
  pair_dispatch pair spot perp size s = Done (r, mkPairSys w (attempts s ++ l)) ∧ sent pair spot perp size r l.
Proof.
  unfold pair_dispatch. set (q := dmul size (multiplier pair)).
  destruct (place_done PerpLeg (taker_order pair perp q false) s) as (r & w & Hp). rewrite (bind_done _ _ _ _ _ Hp).
  destruct r as [id|e]; cbn [is_ok].
  2: { eexists (Err (TakerRejectedErr e)), w, _. split; [reflexivity|]. done. }
  set (s1 := mkPairSys w (attempts s ++ [mkAttempt PerpLeg (taker_order pair perp q false) true])).
  destruct (place_done PrimaryLeg (maker_order pair spot size) s1) as (r & w1 & Hp1). rewrite (bind_done _ _ _ _ _ Hp1).
  destruct r as [mid|e]; cbn [is_ok].
  { eexists (Ok _), w1, _. split; [unfold mret, s1; cbn [attempts]; rewrite <- app_assoc; reflexivity|]. done. }
  destruct (with_retry_spec (taker_order pair (opposite perp) q true)
    (mkPairSys w1 (attempts s1 ++ [mkAttempt PrimaryLeg (maker_order pair spot size) false]))) as (b & w2 & l & Hr & Hl).
  rewrite (bind_done _ _ _ _ _ Hr). eexists (Err (PairBreakErr e b)), w2, _.
  split; [unfold mret, s1; cbn [attempts]; rewrite <- !app_assoc; reflexivity|].
  destruct b; [destruct Hl as (n & Hn & ->); exists n; split; [lia|done]|subst l; done].
Qed.

(** The position a dispatch leaves on each leg. *)
Lemma sent_exposure pair spot perp size r l : sent pair spot perp size r l →
  let q := dval (dmul size (multiplier pair)) in
  match r with
  | Ok _ => net PerpLeg l == signedQ perp q ∧ net PrimaryLeg l == signedQ spot (dval size)
  | Err (PairBreakErr _ false) => net PerpLeg l == signedQ perp q ∧ net PrimaryLeg l == 0
  | _ => net PerpLeg l == 0 ∧ net PrimaryLeg l == 0
  end.
Proof.
  unfold sent. cbv zeta. generalize (dmul size (multiplier pair)). intros q Hs. destruct r as [o|[e|e [|]]]; cbn in Hs.
  - destruct Hs as [-> _]. unfold net, taken. cbn. split; ring.
  - subst l. unfold net, taken. cbn. split; ring.
  - destruct Hs as (n & _ & ->). match goal with |- context [?a :: ?b :: ?t] => change (a :: b :: t) with ([a; b] ++ t) end.
    rewrite !net_app, !net_refused. unfold net, taken. cbn. destruct perp; cbn; split; ring.
  - subst l. unfold net, taken. cbn. split; ring.
Qed.

(** A dispatch always returns; it sends the taker order, the maker order
    only when that was taken, and the reversal, at most four times and until
    it is taken, only when the maker was refused; and by what it reports, the
    legs hold both sides of the pair, nothing, or, after an uncompensated
    break, the perpetual side alone. *)
Lemma dispatch_exposed pair spot perp size (s : PairSys) : ∃ r w l,
  pair_dispatch pair spot perp size s = Done (r, mkPairSys w (attempts s ++ l)) ∧ sent pair spot perp size r l ∧
  let q := dval (dmul size (multiplier pair)) in
  match r with
  | Ok _ => net PerpLeg l == signedQ perp q ∧ net PrimaryLeg l == signedQ spot (dval size)
  | Err (PairBreakErr _ false) => net PerpLeg l == signedQ perp q ∧ net PrimaryLeg l == 0
  | _ => net PerpLeg l == 0 ∧ net PrimaryLeg l == 0
  end.
Proof.
  destruct (dispatch_sent pair spot perp size s) as (r & w & l & Hd & Hs). exists r, w, l. split; [exact Hd|].
  split; [exact Hs|]. by apply sent_exposure.
Qed.
End Exposure.

(** ** Runs of the engine around the driver *)
Section Runs.
Context {D : Decimal} {L : DecimalLaws D} {PV : PairVenues} {C : Clock} (dec_text : dec → string).
Local Open Scope Q_scope.

(** What the venues took is the position the driver believes open. *)
Definition matched (m : dec) (o : option OpenSides) (l : list Attempt) : Prop :=
  match o with
  | Some x => net PerpLeg l == signedQ (os_perp x) (dval (dmul (os_size x) m)) ∧
      net PrimaryLeg l == signedQ (os_spot x) (dval (os_size x))
  | None => net PerpLeg l == 0 ∧ net PrimaryLeg l == 0
  end.

(** One leg of a pair stands alone. *)
Definition one_legged (m : dec) (l : list Attempt) : Prop :=
  ∃ side size, (net PerpLeg l == signedQ side (dval (dmul size m)) ∧ net PrimaryLeg l == 0) ∨
               (net PerpLeg l == 0 ∧ net PrimaryLeg l == signedQ side (dval size)).

(** The perpetual position the driver records is on the side of the position
    it believes open. *)
Definition on_open_side (d : FundingArbDriver) : bool :=
  match open_sides d with
  | Some x => match os_perp x with
              | Buy => dltb dec0 (perp_position (arb_state (fd_engine d)))
              | Sell => dltb (perp_position (arb_state (fd_engine d))) dec0
              end
  | None => true
  end.

(** A fill of the perpetual leg leaves it there. *)
Definition fair (ev : ArbEvent) (h : ArbHost) : bool :=
  match ev with
  | ArbFill PerpLeg side qty => match ah_driver (leg_fill PerpLeg side qty h) with Some d => on_open_side d | None => true end
  | _ => true
  end.

Inductive arb_reach (pair : InstrumentPair) (c : FundingArbConfig) : ArbHost → PairSys → Prop :=
| reach_start w k : arb_reach pair c (mkHost (Some (driver_new pair c)) k) (mkPairSys w [])
| reach_step h s ev h' s' : arb_reach pair c h s → fair ev h = true → arb_step dec_text ev h s = Done (h', s') →
    arb_reach pair c h' s'.

(** The driver's view: its pair and configuration, a size that can be traded,
    the books, and a perpetual position on the open side. *)
Record driver_ok (pair : InstrumentPair) (c : FundingArbConfig) (d : FundingArbDriver) (l : list Attempt) : Prop := {
  ok_pair : fd_pair d = pair;
  ok_config : arb_config (fd_engine d) = c;
  ok_matched : matched (multiplier pair) (open_sides d) l;
  ok_side x : open_sides d = Some x → 0 < signedQ (os_perp x) (dval (perp_position (arb_state (fd_engine d))));
}.

Lemma on_open_side_spec d x : on_open_side d = true → open_sides d = Some x →
  0 < signedQ (os_perp x) (dval (perp_position (arb_state (fd_engine d)))).
Proof. unfold on_open_side. intros H Ho. rewrite Ho in H. destruct (os_perp x); apply dltb_lt in H; unfold dlt in H; rewrite dec0_val in H; cbn; lra. Qed.

(** The quantity of the perpetual leg is positive as computed, and its opposite
    negative, when their product is not rounded. *)
Lemma hedge_sign side size m : 0 < dval size → 0 < dval m → fits (dval size * dval m) →
  0 < signedQ side (dval (signed_hedge side size m)).
Proof.
  intros Hs Hm Hf. assert (Hp : 0 < dval size * dval m) by nra. destruct side; cbn; unfold signed_hedge.
  - by rewrite dmul_val.
  - assert (Hn : fits (dval (dneg size) * dval m)).
    { destruct Hf as (z & s & Hz & Hs28 & E). exists (- z)%Z, s. split; [lia|]. split; [done|].
      rewrite dneg_val, <- scaled_opp, <- E. ring. }
    rewrite dmul_val, dneg_val by done. lra.
Qed.

Lemma ask_done {A} (f : pworld → A * pworld) (s : PairSys) : ∃ a w, ask f s = Done (a, mkPairSys w (attempts s)).
Proof. unfold ask. destruct (f (ps_world s)) as [a w]. eauto. Qed.

Lemma sample_done pair (s : PairSys) : ∃ r w, sample_mids pair s = Done (r, mkPairSys w (attempts s)).
Proof.
  unfold sample_mids. destruct (ask_done (primary_book (primary_symbol pair)) s) as (p & w & Hp). rewrite (bind_done _ _ _ _ _ Hp).
  destruct p as [[pb pa]|e]; [|eexists _, _; reflexivity].
  destruct (ask_done (hedge_book (hedge_symbol pair)) (mkPairSys w (attempts s))) as (h & w1 & Hh). rewrite (bind_done _ _ _ _ _ Hh).
  destruct h as [[hb ha]|e]; eexists _, _; reflexivity.
Qed.

(** A tick does nothing, or acts on a signal. *)
Lemma tick_cases d (s : PairSys) ev d' s' : tick_once dec_text d s = Done ((ev, d'), s') →
  (d' = d ∧ attempts s' = attempts s ∧ ∃ r, ev = DrvInputUnavailable r) ∨
  ∃ rate spot perp sig w, evaluate dec_text rate spot perp (fd_engine d) = Done sig ∧
    run_signal sig spot perp d (mkPairSys w (attempts s)) = Done ((ev, d'), s').
Proof.
  unfold tick_once. destruct (sample_done (fd_pair d) s) as (mids & w & Hm). rewrite (bind_done _ _ _ _ _ Hm).
  destruct mids as [[spot perp]|].
  2: { intros [= <- <- <-]. left. eauto. }
  destruct (ask_done (hedge_funding (hedge_symbol (fd_pair d))) (mkPairSys w (attempts s))) as (r & w1 & Hr).
  rewrite (bind_done _ _ _ _ _ Hr). destruct r as [rate|[|e]].
  2, 3: intros [= <- <- <-]; left; eauto.
  unfold decide_signal, mbind_M. destruct (evaluate dec_text rate spot perp (fd_engine d)) as [sig|] eqn:Hs; [|done].
  intros H. right. exists rate, spot, perp, sig, w1. done.
Qed.

(** Positions enter the decision only through the state: an entry needs a flat one. *)
Lemma enter_when_flat rate spot perp e a b size : evaluate dec_text rate spot perp e = Done (SigEnter a b size) →
  arb_is_open (arb_state e) = false ∧ size = max_position (arb_config e).
Proof.
  unfold evaluate. destruct (negb (arb_enabled (arb_config e))); [done|]. destruct (is_zero spot); [done|].
  destruct (arb_is_open (arb_state e)).
  - by repeat destruct (dltb _ _).
  - destruct (dleb _ _); [|done]. destruct (dltb _ _); intros [= _ _ <-]; done.
Qed.

Lemma flat_perp s : arb_is_open s = false → dval (perp_position s) == 0.
Proof. unfold arb_is_open. intros H. apply orb_false_iff in H. destruct H as [_ H]. apply negb_false_iff in H. by apply is_zero_val. Qed.

Definition event_ok (pair : InstrumentPair) (c : FundingArbConfig) (ev : DriverEvent) (d : FundingArbDriver) (l : list Attempt) : Prop :=
  match ev with DrvPairBreak _ false => one_legged (multiplier pair) l | _ => driver_ok pair c d l end.

Lemma enter_ok pair c d (s : PairSys) spot perp a b size ev d' s' :
  0 < dval (multiplier pair) → 0 < dval size → fits (dval size * dval (multiplier pair)) →
  arb_is_open (arb_state (fd_engine d)) = false → driver_ok pair c d (attempts s) →
  run_signal (SigEnter a b size) spot perp d s = Done ((ev, d'), s') → event_ok pair c ev d' (attempts s').
Proof.
  intros Hm Hsz Hfit Hflat [Hp Hc Hma Hs]. cbn [run_signal arb_enter]. rewrite Hp.
  assert (Ho : open_sides d = None).
  { destruct (open_sides d) as [x|]; [|done]. specialize (Hs x eq_refl). pose proof (flat_perp _ Hflat). destruct (os_perp x); cbn in Hs; lra. }
  rewrite Ho in Hma. cbn in Hma. destruct Hma as [H1 H2].
  destruct (dispatch_exposed pair (spot_action_to_side a) (perp_action_to_side b) size s) as (r & w & l & Hd & Hsent & Hx).
  rewrite (bind_done _ _ _ _ _ Hd). destruct r as [o|e].
  - intros [= <- <- <-]. cbn [event_ok attempts]. destruct Hsent as (_ & Hos & Hop & _). destruct Hx as [Hx1 Hx2]. split.
    + exact Hp.
    + exact Hc.
    + cbn. rewrite !net_app, H1, H2, Hx1, Hx2. split; ring.
    + intros x [= <-]. cbn. rewrite Hop, Hp. by apply hedge_sign.
  - intros [= <- <- <-]. destruct e as [e|e [|]]; cbn [event_ok break_event attempts].
    1, 2: split; [exact Hp|exact Hc| |exact Hs]; rewrite Ho; cbn; rewrite !net_app, H1, H2, (proj1 Hx), (proj2 Hx); split; ring.
    exists (perp_action_to_side b), size. left. rewrite !net_app, H1, H2, (proj1 Hx), (proj2 Hx). split; ring.
Qed.

Lemma exit_ok pair c d (s : PairSys) spot perp reason ev d' s' : driver_ok pair c d (attempts s) →
  run_signal (SigExit reason) spot perp d s = Done ((ev, d'), s') → event_ok pair c ev d' (attempts s').
Proof.
  intros Hok. assert (Hok' := Hok). destruct Hok as [Hp Hc Hma Hs]. cbn [run_signal].
  destruct (open_sides d) as [x|] eqn:Ho.
  2: { intros [= <- <- <-]. exact Hok'. }
  cbn in Hma. destruct Hma as [H1 H2]. unfold arb_exit. rewrite Hp.
  destruct (dispatch_exposed pair (opposite (os_spot x)) (opposite (os_perp x)) (os_size x) s) as (r & w & l & Hd & _ & Hx).
  rewrite (bind_done _ _ _ _ _ Hd). destruct r as [o|e].
  - intros [= <- <- <-]. cbn [event_ok attempts]. split; [exact Hp|exact Hc| |done]. cbn.
    rewrite !net_app, H1, H2, (proj1 Hx), (proj2 Hx). destruct (os_perp x), (os_spot x); cbn; split; ring.
  - intros [= <- <- <-]. destruct e as [e|e [|]]; cbn [event_ok break_event attempts].
    1, 2: split; [exact Hp|exact Hc| |by rewrite Ho]; rewrite Ho; cbn; rewrite !net_app, H1, H2, (proj1 Hx), (proj2 Hx); split; ring.
    exists (os_spot x), (os_size x). right. rewrite !net_app, H1, H2, (proj1 Hx), (proj2 Hx).
    destruct (os_perp x); cbn; split; ring.
Qed.

Lemma fill_ok pair c d k l leg side qty : fair (ArbFill leg side qty) (mkHost (Some d) k) = true → driver_ok pair c d l →
  driver_ok pair c (set_arb_state (match leg with PrimaryLeg => apply_spot_fill (signed_size side qty)
                                    | PerpLeg => apply_perp_fill (signed_size side qty) end) d) l.
Proof.
  intros Hf [Hp Hc Hma Hs]. split; [exact Hp|exact Hc|exact Hma|]. intros x Hx. destruct leg; [exact (Hs x Hx)|].
  by apply on_open_side_spec.
Qed.

Definition host_ok (pair : InstrumentPair) (c : FundingArbConfig) (h : ArbHost) (l : list Attempt) : Prop :=
  match ah_driver h with
  | Some d => driver_ok pair c d l
  | None => one_legged (multiplier pair) l
  end.

Lemma arm_ok pair c now h (s : PairSys) h' s' : 0 < dval (multiplier pair) → 0 < dval (max_position c) →
  fits (dval (max_position c) * dval (multiplier pair)) → host_ok pair c h (attempts s) → funding_arb_arm dec_text now h s = Done (h', s') → host_ok pair c h' (attempts s').
Proof.
  intros Hm Hz Hfit Hok. unfold funding_arb_arm. unfold host_ok in Hok. destruct (ah_driver h) as [d|] eqn:Hd.
  2: { intros [= <- <-]. unfold host_ok. by rewrite Hd. }
  unfold mbind_M. destruct (tick_once dec_text d s) as [[[ev d'] s1]|] eqn:Ht; [|done]. intros [= <- <-].
  assert (Hev : event_ok pair c ev d' (attempts s1)).
  { destruct (tick_cases _ _ _ _ _ Ht) as [(-> & -> & r & ->)|(rate & spot & perp & sig & w & Hsig & Hrun)]; [exact Hok|].
    destruct sig as [a b size|reason|].
    - destruct (enter_when_flat _ _ _ _ _ _ _ Hsig) as [Hflat ->]. rewrite (ok_config _ _ _ _ Hok) in Hrun.
      exact (enter_ok pair c d (mkPairSys w (attempts s)) _ _ _ _ _ _ _ _ Hm Hz Hfit Hflat Hok Hrun).
    - exact (exit_ok pair c d (mkPairSys w (attempts s)) _ _ _ _ _ _ Hok Hrun).
    - injection Hrun as <- <- <-. exact Hok. }
  destruct ev as [o|o r|r|r [|]| |r]; cbn in *; exact Hev.
Qed.

(** The driver goes away at an uncompensated break only, which sets the level. *)
Lemma arm_breaks now h (s : PairSys) h' s' d : ah_driver h = Some d → funding_arb_arm dec_text now h s = Done (h', s') →
  ah_driver h' = None → current_level (ah_kill h') = StopNewOrders.
Proof.
  unfold funding_arb_arm. intros ->. unfold mbind_M. destruct (tick_once dec_text d s) as [[[ev d'] s1]|]; [|done].
  intros [= <- <-]. by destruct ev as [o|o r|r|r [|]| |r].
Qed.

(** C21: at every moment of every run, where the kill switch may change at any
    time, as long as the driver is there what the two venues took of its orders
    is the position it believes open, on both legs, and a tick that removes it
    leaves the switch at StopNewOrders; once it is gone, by an uncompensated
    break, one leg stands alone. The position the configuration asks for is
    positive and its hedge quantity is not rounded, and the fills of the
    perpetual leg leave the position the driver records on the open side
    ([fair]; [exit_fills_lock] shows what becomes of the recorded position
    otherwise). *)
Theorem pair_stays_matched pair c h (s : PairSys) (Hm : 0 < dval (multiplier pair)) (Hz : 0 < dval (max_position c))
    (Hfit : fits (dval (max_position c) * dval (multiplier pair))) (Hr : arb_reach pair c h s) :
  match ah_driver h with
  | Some d => matched (multiplier pair) (open_sides d) (attempts s) ∧
      ∀ now h' s', funding_arb_arm dec_text now h s = Done (h', s') → ah_driver h' = None →
        current_level (ah_kill h') = StopNewOrders
  | None => one_legged (multiplier pair) (attempts s)
  end.
Proof.
  assert (Hok : host_ok pair c h (attempts s)).
  { induction Hr as [w k|h s ev h' s' _ IH Hf Hstep].
    - unfold host_ok. cbn. split; cbn; [done|done|split; unfold net; cbn; ring|done].
    - destruct ev as [now|leg side qty|k]; cbn [arb_step] in Hstep; [by apply (arm_ok pair c now h s)| |].
      + injection Hstep as <- <-. unfold host_ok, leg_fill in *. cbn. destruct h as [[d|] k]; cbn in *; [|exact IH].
        by apply (fill_ok pair c d k).
      + injection Hstep as <- <-. exact IH. }
  unfold host_ok in Hok. destruct (ah_driver h) as [d|] eqn:Hd; [|exact Hok]. split; [apply Hok|].
  intros now h' s'. by apply (arm_breaks now h s h' s' d).
Qed.

(** *** Where the code departs from its comments *)

(** The maker order carries no price: where a limit order needs one, no
    dispatch ever succeeds. *)
Lemma unpriced_maker_refused pair spot perp size (s : PairSys)
    (Hprice : ∀ o w, no_order_type o = Limit → no_price o = None → is_ok (primary_place o w).1 = false) :
  ∃ e s', pair_dispatch pair spot perp size s = Done (Err e, s').
Proof.
  destruct (dispatch_sent pair spot perp size s) as (r & w & l & Hd & Hs). destruct r as [o|e]; [|eauto]. exfalso.
  revert Hd. unfold pair_dispatch, mbind_M at 1. destruct (place PerpLeg _ s) as [[[tid|e] s1]|]; [|done|done].
  unfold mbind_M, place. specialize (Hprice (maker_order pair spot size) (ps_world s1) eq_refl eq_refl).
  destruct (primary_place _ _) as [[mid|e] w1]; [done|]. cbn.
  destruct (place_with_retry _ _ _) as [[b s2]|]; done.
Qed.

(** The reversal is reduce-only. After the perpetual leg of an exit was
    closed, a venue that honours the flag takes no such order: the break of an
    exit is never compensated. *)
Lemma exit_break_uncompensated pair spot perp size (s : PairSys) reason b s'
    (Hflat : ∀ o w, no_reduce_only o = true → is_ok (hedge_place o w).1 = false) :
  arb_exit pair spot perp size s = Done (Err (PairBreakErr reason b), s') → b = false.
Proof.
  unfold arb_exit. destruct (dispatch_sent pair (opposite spot) (opposite perp) size s) as (r & w & l & Hd & Hs).
  intros H. rewrite Hd in H. injection H as -> <-. destruct b; [|done]. exfalso. clear Hs. revert Hd.
  unfold pair_dispatch, mbind_M at 1. destruct (place PerpLeg _ s) as [[[tid|e] s1]|]; [|done|done].
  unfold mbind_M at 1. destruct (place PrimaryLeg _ s1) as [[[mid|e] s2]|]; [done| |done].
  set (o := taker_order _ _ _ true). assert (Hn : ∀ st r st', place PerpLeg o st = Done (r, st') → is_ok r = false).
  { intros st r st'. unfold place. specialize (Hflat o (ps_world st) eq_refl). destruct (hedge_place o (ps_world st)) as [r0 w0].
    by intros [= <- <-]. }
  assert (Hretry : ∀ bs st r st', retry_after bs o st = Done (r, st') → r = false).
  { induction bs as [|d bs IH]; intros st r st'; cbn [retry_after]; [by intros [= <- _]|].
    unfold pause, mmodify, mbind_M at 1. unfold mbind_M. destruct (place PerpLeg o _) as [[r1 st1]|] eqn:Hp; [|done].
    specialize (Hn _ _ _ Hp). destruct r1; [done|]. cbn. apply IH. }
  unfold mbind_M at 1. unfold place_with_retry, mbind_M. destruct (place PerpLeg o s2) as [[r1 st1]|] eqn:Hp; [|done].
  specialize (Hn _ _ _ Hp). destruct r1; [done|]. cbn [retry_one]. destruct (retry_after _ o st1) as [[b st2]|] eqn:Hr; [|done].
  apply Hretry in Hr. subst b. done.
Qed.

(** An entry writes the position down, and its fills add it again. *)
Lemma entry_fills_double spot perp a b s : fits (dval spot + dval spot) →
  dval (spot_position (apply_spot_fill spot (on_entry spot perp a b s))) == 2 * dval spot.
Proof. intros Hf. cbn. rewrite dadd_val by done. ring. Qed.

(** An exit writes zero, and its fills leave the opposite position: from then
    on the core believes a position open, and never enters again. *)
Lemma exit_fills_lock c s q rate spot perp sig : ¬ dval q == 0 → fits (dval q) →
  evaluate dec_text rate spot perp (mkArbEngine (apply_spot_fill q (on_exit s)) c) = Done sig →
  ∀ a b size, sig ≠ SigEnter a b size.
Proof.
  intros Hq Hf He a b size ->. apply enter_when_flat in He. destruct He as [He _]. unfold arb_is_open in He.
  apply orb_false_iff in He. destruct He as [He _]. apply negb_false_iff, is_zero_val in He. cbn in He.
  assert (H0 : dval (dlit 0 0) == 0) by (apply (dlit_int 0); lia).
  assert (E0 : dval (dlit 0 0) + dval q == dval q) by (rewrite H0; ring).
  rewrite dadd_val, E0 in He by by rewrite E0. done.
Qed.

(** The arm does not look at the kill switch. *)
Lemma arm_ignores_kill now d k1 k2 (s : PairSys) :
  match funding_arb_arm dec_text now (mkHost (Some d) k1) s, funding_arb_arm dec_text now (mkHost (Some d) k2) s with
  | Done (_, s1), Done (_, s2) => s1 = s2
  | Panicked, Panicked => True
  | _, _ => False
  end.
Proof. unfold funding_arb_arm, mbind_M. cbn. by destruct (tick_once dec_text d s) as [[[ev d'] s1]|]. Qed.

(** A break sets the level, a higher one too. *)
Lemma break_lowers_level now reason h : current_level (ah_kill (handle_driver_event now (DrvPairBreak reason false) h)) = StopNewOrders.
Proof. done. Qed.

(** The thresholds per pair are not read. *)
Lemma pair_threshold_ignored rate spot perp st m mp b en t p1 p2 :
  evaluate dec_text rate spot perp (mkArbEngine st (mkArbConfig m mp b en p1 t)) =
  evaluate dec_text rate spot perp (mkArbEngine st (mkArbConfig m mp b en p2 t)).
Proof. done. Qed.
End Runs.

(** ** Witnesses *)
Section Scripts.
Context {D : Decimal}.

(** Venues that take or refuse placements by a script, then take them all; the
    books and the rate are fixed. *)
Definition scripted_place (o : NewOrder) (w : list bool) : result OrderId string * list bool :=
  match w with
  | false :: w => (Err "refused"%string, w)
  | true :: w => (Ok 1%N, w)
  | [] => (Ok 1%N, [])
  end.

Definition scripted (rate : dec) : PairVenues := {|
  pworld := list bool;
  primary_place := scripted_place;
  hedge_place := scripted_place;
  primary_book _ w := (Ok ([mkPriceLevel (dlit 99 0) (dlit 1 0)], [mkPriceLevel (dlit 101 0) (dlit 1 0)]), w);
  hedge_book _ w := (Ok ([mkPriceLevel (dlit 99 0) (dlit 1 0)], [mkPriceLevel (dlit 101 0) (dlit 1 0)]), w);
  hedge_funding _ w := (Ok rate, w);
  sleep_ms _ w := w;
|}.

Definition is_done {A} (o : outcome A) : bool := match o with Done _ => true | Panicked => false end.
Definition done_or {A} (a : A) (o : outcome A) : A := match o with Done x => x | Panicked => a end.
End Scripts.

Section ScriptRuns.
Context {D : Decimal} {PV : PairVenues} {C : Clock}.

Definition next_state (st : ArbHost * PairSys) (ev : ArbEvent) : ArbHost * PairSys :=
  done_or st (arb_step (λ _, ""%string) ev st.1 st.2).

Lemma reach_next pair c st ev : arb_reach (λ _, ""%string) pair c st.1 st.2 → fair ev st.1 = true →
  is_done (arb_step (λ _, ""%string) ev st.1 st.2) = true →
  arb_reach (λ _, ""%string) pair c (next_state st ev).1 (next_state st ev).2.
Proof.
  intros Hr Hf Hd. apply (reach_step _ _ _ _ _ ev _ _ Hr Hf). unfold next_state.
  destruct (arb_step _ ev st.1 st.2) as [[h s]|]; done.
Qed.
End ScriptRuns.

#[export] Instance demo_venues : PairVenues := scripted (D := Qc_decimal) (dlit 1 3).

Definition demo_arb_pair : InstrumentPair (D := Qc_decimal) := mkInstrumentPair "BTCUSDT" "BTC-PERP" (dlit 10 0) None (dlit 50 0).
Definition demo_arb_config : FundingArbConfig (D := Qc_decimal) := mkArbConfig (dlit 10 0) (dlit 1 1) (dlit 50 0) true ∅ (dlit 8 0).

(** The maker leg is refused, the reversal is taken at the second attempt; the
    next tick enters, an operator raises the kill switch, and the perpetual leg
    fills. *)
Definition arb_start : ArbHost (D := Qc_decimal) * PairSys (D := Qc_decimal) :=
  (mkHost (Some (driver_new demo_arb_pair demo_arb_config)) (KillSwitch.new KillSwitchConfig_default (sec 0)),
   mkPairSys [true; false; false; true] []).
Definition arb_broken := next_state arb_start (ArbTick (sec 60)).
Definition arb_entered := next_state arb_broken (ArbTick (sec 120)).
Definition arb_raised := next_state arb_entered (ArbKill (manual_trigger CancelAll "operator" (sec 125) (ah_kill arb_entered.1))).
Definition arb_filled := next_state arb_raised (ArbFill PerpLeg Sell (dlit 1 0)).

Lemma pair_stays_matched_witness :
  let o := d ← ah_driver arb_filled.1; open_sides d in
  ((λ x, (os_spot x, os_perp x)) <$> o = Some (Buy, Sell)) ∧
  matched (multiplier demo_arb_pair) o (attempts arb_filled.2).
Proof.
  split; [vm_compute; reflexivity|].
  assert (hedge_fits : fits (dval (max_position demo_arb_config) * dval (multiplier demo_arb_pair))).
  { exists 1%Z, 0%nat. split; [lia|]. split; [lia|]. vm_compute. reflexivity. }
  assert (Hr : arb_reach (λ _, ""%string) demo_arb_pair demo_arb_config arb_filled.1 arb_filled.2).
  { apply reach_next; [|vm_compute; reflexivity|vm_compute; reflexivity].
    do 2 (apply reach_next; [|vm_compute; reflexivity|vm_compute; reflexivity]).
    apply reach_next; [|vm_compute; reflexivity|vm_compute; reflexivity]. apply reach_start. }
  pose proof (pair_stays_matched (λ _, ""%string) demo_arb_pair demo_arb_config arb_filled.1 arb_filled.2
    ltac:(vm_compute; reflexivity) ltac:(vm_compute; reflexivity) hedge_fits Hr) as H.
  assert (Hd : is_Some (ah_driver arb_filled.1)) by (vm_compute; eauto). destruct (ah_driver arb_filled.1) as [d|]; [exact (proj1 H)|by destruct Hd].
Defined.
