(* ===== verification/Listing.v ===== *)
(** * Listings ([crates/engine/src/pair_lifecycle.rs], [listing_sniper.rs])

    The lifecycle of the engine's own pair: the state machine, and the poll of
    the engine that drives it ([crates/engine/src/market_maker.rs]). The
    discovery of new listings on the venues, with the entries of the sniper.
    Instants are nanoseconds, one for each
    round of scans and one for each round of entries. Audit rows and alerts are left out; every order
    of the sniper is recorded with the ask it was sized on and whether the
    venue took it. *)
From stdpp Require Import base gmap sets list strings.
From Stdlib Require Import ZArith QArith Qround Lqa Lia.
From S2P Require Import Prelude Decimal Types OrderManager OrderExec Venues.
Local Open Scope nat_scope.
Local Open Scope prog_scope.

#[export] Instance TradingStatus_eq_dec : EqDecision TradingStatus.
Proof. solve_decision. Defined.

(** ** The lifecycle of a pair *)
Section Lifecycle.
Context {D : Decimal}.

Inductive PairLifecycleEvent :=
| LcListed
| LcDelisted
| LcHalted (from to : TradingStatus)
| LcResumed (from : TradingStatus)
| LcTickLotChanged (old_tick new_tick old_lot new_lot : dec)
| LcMinNotionalChanged (old new : dec).

Record PairLifecycleManager := mkLifecycle { last_spec : option ProductSpec; delisted_latched : bool }.

Definition lifecycle_new : PairLifecycleManager := mkLifecycle None false.

Definition status_event (prev fresh : TradingStatus) : list PairLifecycleEvent :=
  if decide (prev = fresh) then []
  else if decide (fresh = Trading) then [LcResumed prev] else [LcHalted prev fresh].

Definition tick_lot_moved (prev fresh : ProductSpec) : bool :=
  negb (deqb (tick_size prev) (tick_size fresh)) || negb (deqb (lot_size prev) (lot_size fresh)).

Definition lifecycle_diff (fresh : ProductSpec) (m : PairLifecycleManager) : list PairLifecycleEvent * PairLifecycleManager :=
  if delisted_latched m then ([], m)
  else
    (match last_spec m with
     | None => [LcListed]
     | Some prev =>
         status_event (trading_status prev) (trading_status fresh)
         ++ (if tick_lot_moved prev fresh
             then [LcTickLotChanged (tick_size prev) (tick_size fresh) (lot_size prev) (lot_size fresh)] else [])
         ++ (if negb (deqb (min_notional prev) (min_notional fresh))
             then [LcMinNotionalChanged (min_notional prev) (min_notional fresh)] else [])
     end, mkLifecycle (Some fresh) (delisted_latched m)).

Definition on_delisted (m : PairLifecycleManager) : list PairLifecycleEvent * PairLifecycleManager :=
  if delisted_latched m then ([], m) else ([LcDelisted], mkLifecycle (last_spec m) true).

(** ** The engine's poll *)
Record LifecycleEngine := mkLcEngine {
  le_manager : option PairLifecycleManager;
  le_product : ProductSpec;
  le_paused : bool;
}.

Definition set_paused (b : bool) (e : LifecycleEngine) : LifecycleEngine := mkLcEngine (le_manager e) (le_product e) b.

Definition handle_lifecycle_event (e : LifecycleEngine) (ev : PairLifecycleEvent) : LifecycleEngine :=
  match ev with
  | LcHalted _ _ | LcDelisted => set_paused true e
  | LcResumed _ => set_paused false e
  | _ => e
  end.

Definition needs_cancel (ev : PairLifecycleEvent) : bool := match ev with LcHalted _ _ | LcDelisted => true | _ => false end.

(** The product follows the poll: the status and the smallest notional always,
    the tick and the lot when they moved since the last poll. *)
Definition follow_product (prev : option ProductSpec) (spec p : ProductSpec) : ProductSpec :=
  let moved := match prev with Some prev => tick_lot_moved prev spec | None => false end in
  mkProductSpec (ps_symbol p) (base_asset p) (quote_asset p) (if moved then tick_size spec else tick_size p)
    (if moved then lot_size spec else lot_size p) (min_notional spec) (maker_fee p) (taker_fee p) (trading_status spec).

(** What the poll says: a specification, or an error. *)
Definition poll_events (r : option ProductSpec) (m : PairLifecycleManager) (e : LifecycleEngine) :
    list PairLifecycleEvent * LifecycleEngine :=
  match r with
  | Some spec =>
      let '(evts, m') := lifecycle_diff spec m in
      (evts, mkLcEngine (Some m') (follow_product (last_spec m) spec (le_product e)) (le_paused e))
  | None => let '(evts, m') := on_delisted m in (evts, mkLcEngine (Some m') (le_product e) (le_paused e))
  end.

(** The engine after a poll, and whether its orders are cancelled. *)
Definition lifecycle_poll (r : option ProductSpec) (e : LifecycleEngine) : LifecycleEngine * bool :=
  match le_manager e with
  | None => (e, false)
  | Some m => let '(evts, e) := poll_events r m e in (fold_left handle_lifecycle_event evts e, existsb needs_cancel evts)
  end.

Section Poll.
Context {C : Clock} {I : HashMapIter} {X : Exchange} (get_product_spec : string → world → result ProductSpec x_error * world).

Definition refresh_pair_lifecycle (symbol : string) (e : LifecycleEngine) : M Sys LifecycleEngine :=
  match le_manager e with
  | None => mret e
  | Some _ =>
      let! r := call (get_product_spec symbol) in
      let '(e, cancel) := lifecycle_poll (match r with Ok spec => Some spec | Err _ => None end) e in
      if cancel then do! cancel_all symbol in mret e else mret e
  end.
End Poll.

(** [ConfigOverride::PauseQuoting] and [ResumeQuoting]. *)
Definition pause_quoting : LifecycleEngine → LifecycleEngine := set_paused true.
Definition resume_quoting : LifecycleEngine → LifecycleEngine := set_paused false.

(** ** What the venue says of the pair *)

(** The status after polls: gone once a poll failed, the last one otherwise. *)
Inductive VenueStatus := Gone | Status (s : TradingStatus).

Definition venue_status (st : VenueStatus) (r : option ProductSpec) : VenueStatus :=
  match st, r with
  | Gone, _ | _, None => Gone
  | Status _, Some spec => Status (trading_status spec)
  end.

Definition trades (st : VenueStatus) : bool := match st with Status Trading => true | _ => false end.

(** The engine agrees with a status. *)
Definition agrees (st : VenueStatus) (e : LifecycleEngine) : Prop :=
  ∃ m, le_manager e = Some m ∧ le_paused e = negb (trades st) ∧
  match st with
  | Gone => delisted_latched m = true
  | Status s => delisted_latched m = false ∧ ∃ prev, last_spec m = Some prev ∧ trading_status prev = s
  end.

Lemma fold_paused evts : ∀ e, le_paused (fold_left handle_lifecycle_event evts e) =
  fold_left (λ b ev, match ev with LcHalted _ _ | LcDelisted => true | LcResumed _ => false | _ => b end) evts (le_paused e).
Proof. induction evts as [|ev evts IH]; intros e; [done|]. cbn. rewrite IH. by destruct ev. Qed.

Lemma fold_product evts : ∀ e, le_product (fold_left handle_lifecycle_event evts e) = le_product e.
Proof. induction evts as [|ev evts IH]; intros e; [done|]. cbn. rewrite IH. by destruct ev. Qed.

Lemma fold_manager evts : ∀ e, le_manager (fold_left handle_lifecycle_event evts e) = le_manager e.
Proof. induction evts as [|ev evts IH]; intros e; [done|]. cbn. rewrite IH. by destruct ev. Qed.

(** The events after the status leave the flag alone. *)
Lemma diff_paused prev fresh m evts m' b : last_spec m = Some prev → delisted_latched m = false →
  lifecycle_diff fresh m = (evts, m') → b = negb (bool_decide (trading_status prev = Trading)) →
  fold_left (λ b ev, match ev with LcHalted _ _ | LcDelisted => true | LcResumed _ => false | _ => b end) evts b =
    negb (bool_decide (trading_status fresh = Trading)) ∧
  existsb needs_cancel evts =
    negb (bool_decide (trading_status fresh = trading_status prev)) && negb (bool_decide (trading_status fresh = Trading)).
Proof.
  intros Hl Hd He ->. unfold lifecycle_diff in He. rewrite Hd, Hl in He. injection He as <- <-. unfold status_event.
  destruct (tick_lot_moved prev fresh), (negb (deqb (min_notional prev) (min_notional fresh)));
    by destruct (trading_status prev), (trading_status fresh).
Qed.

Lemma poll_agrees st r e : agrees st e → agrees (venue_status st r) (lifecycle_poll r e).1 ∧
  (lifecycle_poll r e).2 =
    match st, r with
    | Gone, _ => false
    | Status _, None => true
    | Status s, Some spec => negb (bool_decide (trading_status spec = s)) && negb (bool_decide (trading_status spec = Trading))
    end.
Proof.
  intros (m & Hm & Hp & Hst). unfold lifecycle_poll. rewrite Hm. unfold poll_events. destruct st as [|s].
  - destruct r as [spec|]; cbn.
    + unfold lifecycle_diff. rewrite Hst. cbn. split; [|done]. exists m. done.
    + unfold on_delisted. rewrite Hst. cbn. split; [|done]. exists m. done.
  - destruct Hst as (Hd & prev & Hl & <-). destruct r as [spec|]; cbn.
    + destruct (lifecycle_diff spec m) as [evts m'] eqn:E. cbn.
      assert (Hpaused : le_paused e = negb (bool_decide (trading_status prev = Trading))).
      { rewrite Hp. cbn. by destruct (trading_status prev). }
      destruct (diff_paused prev spec m evts m' _ Hl Hd E Hpaused) as [Hf Hc]. split; [|exact Hc].
      exists m'. rewrite fold_manager, fold_paused. cbn. split; [done|]. split.
      * rewrite Hf. by destruct (trading_status spec).
      * unfold lifecycle_diff in E. rewrite Hd, Hl in E. injection E as <- <-. cbn. eauto.
    + unfold on_delisted. rewrite Hd. cbn. split; [|done]. exists (mkLifecycle (last_spec m) true). done.
Qed.

Definition polls_run (rs : list (option ProductSpec)) (e : LifecycleEngine) : LifecycleEngine :=
  fold_left (λ e r, (lifecycle_poll r e).1) rs e.

Lemma polls_agree rs : ∀ st e, agrees st e → agrees (fold_left venue_status rs st) (polls_run rs e).
Proof. induction rs as [|r rs IH]; intros st e H; [done|]. cbn. apply IH. by apply poll_agrees. Qed.

(** *** A run of answered polls *)
(** The engine's product has the figures of a specification. *)
Definition same_figures (spec p : ProductSpec) : Prop :=
  trading_status p = trading_status spec ∧ min_notional p = min_notional spec ∧
  tick_size p = tick_size spec ∧ lot_size p = lot_size spec.

(** The engine has taken in [now], the last answer of the venue. *)
Definition follows (now : ProductSpec) (e : LifecycleEngine) : Prop :=
  le_manager e = Some (mkLifecycle (Some now) false) ∧
  le_paused e = negb (bool_decide (trading_status now = Trading)) ∧
  same_figures now (le_product e).

Lemma tick_lot_still prev spec : tick_lot_moved prev spec = false →
  tick_size prev = tick_size spec ∧ lot_size prev = lot_size spec.
Proof.
  unfold tick_lot_moved. intros [H1 H2]%orb_false_iff. apply negb_false_iff, bool_decide_eq_true_1 in H1, H2. done.
Qed.

Lemma answered_poll now spec e : follows now e →
  follows spec (lifecycle_poll (Some spec) e).1 ∧
  (lifecycle_poll (Some spec) e).2 =
    negb (bool_decide (trading_status spec = trading_status now)) && negb (bool_decide (trading_status spec = Trading)).
Proof.
  intros (Hm & Hp & Hs & Hn & Ht & Hl). unfold lifecycle_poll. rewrite Hm. cbn [poll_events].
  destruct (lifecycle_diff spec (mkLifecycle (Some now) false)) as [evts m'] eqn:Ed. cbn [fst snd].
  destruct (diff_paused now spec (mkLifecycle (Some now) false) evts m' _ eq_refl eq_refl Ed Hp) as [Hf Hc]. split; [|exact Hc].
  split; [rewrite fold_manager; cbn in *; by injection Ed as _ <-|].
  split; [rewrite fold_paused; exact Hf|]. rewrite fold_product. cbn [le_product last_spec].
  unfold follow_product, same_figures. cbn. split; [done|]. split; [done|].
  destruct (tick_lot_moved now spec) eqn:Em; [done|]. destruct (tick_lot_still _ _ Em) as [<- <-]. done.
Qed.

Lemma last_answer specs : ∀ spec now : ProductSpec, List.last (spec :: specs) now = List.last specs spec.
Proof.
  induction specs as [|x specs IH]; intros spec now; [done|].
  change (List.last (x :: specs) now = List.last (x :: specs) spec). by rewrite !IH.
Qed.

Lemma answered_run specs : ∀ now e, follows now e → follows (List.last specs now) (polls_run (Some <$> specs) e).
Proof.
  induction specs as [|spec specs IH]; intros now e H; [done|].
  change (polls_run (Some <$> spec :: specs) e) with (polls_run (Some <$> specs) (lifecycle_poll (Some spec) e).1).
  rewrite last_answer. apply IH. by apply (answered_poll now).
Qed.

(** Once latched, a failed poll changes nothing. *)
Lemma failing_run k e : agrees Gone e → agrees Gone (polls_run (replicate k None) e).
Proof.
  intros H. pose proof (polls_agree (replicate k None) Gone e H) as Ha.
  replace (fold_left venue_status (replicate k None) Gone) with Gone in Ha; [done|]. clear. induction k as [|k IH]; [done|exact IH].
Qed.

(** C22: an engine whose first poll finds its pair trading, with the tick and
    the lot it started from, and whose later polls are answered, quotes exactly
    while the last answer says the pair trades; its product has the status, the
    smallest notional, the tick and the lot of that answer; and a poll cancels
    its orders exactly when it finds a new status that is not trading. When
    from then on the venue no longer knows the symbol, so that every poll
    fails, the first of them cancels the orders, no other does, and the engine
    stays paused. Overrides of the operator, which write the same flag, are not
    part of the run; a failure the venue recovers from is the subject of
    [one_error_is_final]. *)
Theorem lifecycle_follows_venue first specs e (Hm : le_manager e = Some lifecycle_new) (Hp : le_paused e = false)
    (Ht : trading_status first = Trading)
    (Htick : tick_size (le_product e) = tick_size first) (Hlot : lot_size (le_product e) = lot_size first) :
  let now := List.last specs first in
  let e' := polls_run (Some <$> first :: specs) e in
  le_paused e' = negb (bool_decide (trading_status now = Trading)) ∧
  same_figures now (le_product e') ∧
  (∀ spec, (lifecycle_poll (Some spec) e').2 =
     negb (bool_decide (trading_status spec = trading_status now)) && negb (bool_decide (trading_status spec = Trading))) ∧
  (lifecycle_poll None e').2 = true ∧
  ∀ k, let removed := polls_run (replicate (S k) None) e' in
    le_paused removed = true ∧ (lifecycle_poll None removed).2 = false.
Proof.
  intros now e'. assert (Hf : follows now e').
  { unfold now, e'. apply (answered_run specs first). unfold lifecycle_poll. rewrite Hm. cbn.
    split; [done|]. cbn. rewrite Ht, Hp. done. }
  split; [by destruct Hf as (_ & Hpa & _)|]. split; [by destruct Hf as (_ & _ & Hfig)|].
  split; [intros spec; by apply answered_poll|].
  assert (Ha : agrees (Status (trading_status now)) e').
  { destruct Hf as (Hm' & Hpa & _). exists (mkLifecycle (Some now) false). rewrite Hpa.
    split; [done|]. split; [by destruct (trading_status now)|]. eauto. }
  destruct (poll_agrees _ None e' Ha) as [Hg Hc]. split; [exact Hc|]. intros k removed.
  pose proof (failing_run k _ Hg) as Hr. change (agrees Gone removed) in Hr.
  split; [by destruct Hr as (m & _ & Hpa & _)|]. by apply (poll_agrees Gone None).
Qed.
(** A pair that is halted at the first poll is reported as listed: the engine
    is not paused, until the pair trades and halts again. *)
Lemma halted_at_start_quotes spec e : le_manager e = Some lifecycle_new → le_paused e = false →
  (lifecycle_poll (Some spec) e).2 = false ∧ le_paused (lifecycle_poll (Some spec) e).1 = false.
Proof. intros Hm Hp. unfold lifecycle_poll. rewrite Hm. cbn. by rewrite Hp. Qed.

(** The first poll sets the reference for the tick and the lot and leaves the
    product's own: what moved between the start and it is never applied. *)
Lemma first_poll_tick_ignored spec e : le_manager e = Some lifecycle_new →
  tick_size (le_product (lifecycle_poll (Some spec) e).1) = tick_size (le_product e).
Proof. intros Hm. unfold lifecycle_poll. rewrite Hm. reflexivity. Qed.

(** One failed poll is final: no later answer of the venue lifts it. *)
Lemma one_error_is_final rs e m : le_manager e = Some m → delisted_latched m = false →
  le_paused (polls_run (None :: rs) e) = true.
Proof.
  intros Hm Hd. assert (Ha : agrees Gone (lifecycle_poll None e).1).
  { unfold lifecycle_poll. rewrite Hm. cbn. unfold on_delisted. rewrite Hd. cbn. by exists (mkLifecycle (last_spec m) true). }
  assert (Hg : ∀ rs, fold_left venue_status rs Gone = Gone) by (intros l; induction l as [|[|] l IH]; auto).
  pose proof (polls_agree rs _ _ Ha) as (m' & _ & Hp & _). rewrite Hg in Hp. exact Hp.
Qed.

(** The operator's resume and the venue share the flag: it lifts a halt and a
    delisting. *)
Lemma resume_lifts_delisting e : le_paused (resume_quoting (lifecycle_poll None e).1) = false.
Proof. done. Qed.
End Lifecycle.

(** ** Discovery *)
Section Sniper.
Context {D : Decimal} {I : HashMapIter}.

(** The connectors by their place in the list: the listing, the top of a book,
    an order; and the source of identifiers. *)
Class SniperVenues := {
  sworld : Type;
  list_symbols : nat → sworld → result (list ProductSpec) string * sworld;
  sn_book : nat → string → sworld → result (list PriceLevel * list PriceLevel) string * sworld;
  sn_place : nat → NewOrder → sworld → bool * sworld;
  sn_uuid : sworld → string * sworld;
}.
Context {SV : SniperVenues}.

Record ListingSniper := mkSniper { known : gmap VenueId (gset string); seeded : gset VenueId }.
Definition sniper_new : ListingSniper := mkSniper ∅ ∅.

Inductive ListingEvent :=
| Discovered (venue : VenueId) (symbol : string) (spec : ProductSpec)
| Removed (venue : VenueId) (symbol : string).

(** The first specification of each symbol. *)
Definition by_symbol (specs : list ProductSpec) : gmap string ProductSpec :=
  fold_left (λ m spec, match m !! ps_symbol spec with Some _ => m | None => <[ps_symbol spec := spec]> m end) specs ∅.

Definition sorted_set (s : gset string) : list string := sort_by string_leb (elements s).

Definition scan_events (venue : VenueId) (known : gset string) (m : gmap string ProductSpec) : list ListingEvent :=
  let current := dom m in
  omap (λ s, Discovered venue s <$> m !! s) (sorted_set (current ∖ known))
  ++ (Removed venue <$> sorted_set (known ∖ current)).

(** The scan of a listing that arrived. *)
Definition scan (venue : VenueId) (specs : list ProductSpec) (s : ListingSniper) : list ListingEvent * ListingSniper :=
  let m := by_symbol specs in
  if decide (venue ∈ seeded s) then
    (scan_events venue (default ∅ (known s !! venue)) m, mkSniper (<[venue := dom m]> (known s)) (seeded s))
  else ([], mkSniper (<[venue := dom m]> (known s)) ({[venue]} ∪ seeded s)).

Definition forget (venue : VenueId) (s : ListingSniper) : ListingSniper :=
  mkSniper (delete venue (known s)) (seeded s ∖ {[venue]}).

(** ** The runner *)
Record ListingSniperEntryConfig := mkEntryConfig {
  enter_on_discovery : bool;
  max_notional_usd : dec;
  quarantine_secs : Z;
  max_active_entries : Z;
  require_trading_status : bool;
}.

Definition entry_config_default : ListingSniperEntryConfig := mkEntryConfig false (dlit 50 0) 30 3 true.

Record PendingEntry := mkPending { first_seen : Z; pe_spec : ProductSpec }.

Record ListingSniperRunner := mkRunner {
  sr_sniper : ListingSniper;
  sr_connectors : list VenueId;
  entry_cfg : option ListingSniperEntryConfig;
  pending_entries : gmap (VenueId * string) PendingEntry;
  active_entries : Z;
}.

Definition runner_new (connectors : list VenueId) (cfg : option ListingSniperEntryConfig) : ListingSniperRunner :=
  mkRunner sniper_new connectors cfg ∅ 0.

Definition set_pending (p : gmap (VenueId * string) PendingEntry) (r : ListingSniperRunner) : ListingSniperRunner :=
  mkRunner (sr_sniper r) (sr_connectors r) (entry_cfg r) p (active_entries r).

Definition handle_listing (now : Z) (r : ListingSniperRunner) (ev : ListingEvent) : ListingSniperRunner :=
  match ev with
  | Discovered venue symbol spec =>
      if is_none (entry_cfg r) then r else set_pending (<[(venue, symbol) := mkPending now spec]> (pending_entries r)) r
  | Removed venue symbol => set_pending (delete (venue, symbol) (pending_entries r)) r
  end.

(** An order of the sniper: the pending entry it came from, when, the ask it
    was sized on, and whether it was taken. *)
Record Entry := mkEntry {
  en_venue : VenueId; en_pending : PendingEntry; en_at : Z; en_order : NewOrder; en_ask : dec; en_taken : bool;
}.

Record SniperSys := mkSniperSys { sn_runner : ListingSniperRunner; sn_world : sworld; sn_entries : list Entry }.

Definition with_runner (f : ListingSniperRunner → ListingSniperRunner) (s : SniperSys) : SniperSys :=
  mkSniperSys (f (sn_runner s)) (sn_world s) (sn_entries s).

Definition scan_venue (now : Z) (s : SniperSys) (iv : nat * VenueId) : SniperSys :=
  let '(i, venue) := iv in
  let '(r, w) := list_symbols i (sn_world s) in
  let s := mkSniperSys (sn_runner s) w (sn_entries s) in
  match r with
  | Err _ => s
  | Ok specs =>
      let '(evts, sn) := scan venue specs (sr_sniper (sn_runner s)) in
      with_runner (λ r, fold_left (handle_listing now) evts
        (mkRunner sn (sr_connectors r) (entry_cfg r) (pending_entries r) (active_entries r))) s
  end.

Definition scan_all_venues (now : Z) (s : SniperSys) : SniperSys :=
  fold_left (scan_venue now) (imap pair (sr_connectors (sn_runner s))) s.

(** The price of the order: the ask and a tenth of a percent, on the tick. *)
Definition entry_limit (spec : ProductSpec) (ask : dec) : dec := round_price spec (dadd ask (ddiv ask (dlit 1000 0))).

Definition entry_order (symbol : string) (spec : ProductSpec) (ask qty : dec) (id : string) : NewOrder :=
  mkNewOrder symbol Buy Limit (Some (entry_limit spec ask)) qty (Some Ioc) (Some id) false.

(** The quantity at an ask, when it is worth an order. *)
Definition entry_qty (cfg : ListingSniperEntryConfig) (spec : ProductSpec) (ask : dec) : option dec :=
  if dleb ask dec0 then None
  else
    let qty := round_qty spec (ddiv (max_notional_usd cfg) ask) in
    if dleb qty dec0 then None else if dltb (dmul qty ask) (min_notional spec) then None else Some qty.

Definition connector_of (venue : VenueId) (r : ListingSniperRunner) : option nat :=
  fst <$> list_find (λ v, v = venue) (sr_connectors r).

(** The guards before the book is asked for. *)
Definition entry_allowed (cfg : ListingSniperEntryConfig) (spec : ProductSpec) (active : Z) : bool :=
  enter_on_discovery cfg && negb (require_trading_status cfg && negb (bool_decide (trading_status spec = Trading)))
  && (active <? max_active_entries cfg)%Z.

Definition place_entry (now : Z) (i : nat) (venue : VenueId) (symbol : string) (pe : PendingEntry) (ask qty : dec)
    (s : SniperSys) : SniperSys :=
  let '(id, w) := sn_uuid (sn_world s) in
  let o := entry_order symbol (pe_spec pe) ask qty id in
  let '(taken, w) := sn_place i o w in
  let r := sn_runner s in
  mkSniperSys
    (mkRunner (sr_sniper r) (sr_connectors r) (entry_cfg r) (pending_entries r)
       (if taken then Z.min u32_max (active_entries r + 1) else active_entries r))
    w (sn_entries s ++ [mkEntry venue pe now o ask taken]).

Definition execute_one (cfg : ListingSniperEntryConfig) (now : Z) (s : SniperSys)
    (e : (VenueId * string) * PendingEntry) : SniperSys :=
  let '((venue, symbol), pe) := e in
  let s := with_runner (λ r, set_pending (delete (venue, symbol) (pending_entries r)) r) s in
  if negb (entry_allowed cfg (pe_spec pe) (active_entries (sn_runner s))) then s
  else
    match connector_of venue (sn_runner s) with
    | None => s
    | Some i =>
        let '(book, w) := sn_book i symbol (sn_world s) in
        let s := mkSniperSys (sn_runner s) w (sn_entries s) in
        match book with
        | Ok (_, lvl :: _) =>
            match entry_qty cfg (pe_spec pe) (pl_price lvl) with
            | Some qty => place_entry now i venue symbol pe (pl_price lvl) qty s
            | None => s
            end
        | _ => s
        end
    end.

Definition quarantined (cfg : ListingSniperEntryConfig) (now : Z) (pe : PendingEntry) : bool :=
  (Z.max 0 (now - first_seen pe) <? quarantine_secs cfg * 1000000000)%Z.

Definition try_execute_pending (now : Z) (s : SniperSys) : SniperSys :=
  match entry_cfg (sn_runner s) with
  | None => s
  | Some cfg =>
      fold_left (execute_one cfg now)
        (List.filter (λ e, negb (quarantined cfg now e.2)) (hm_iter (pending_entries (sn_runner s)))) s
  end.

(** One tick of the loop: when it scans, and when it executes. *)
Definition sniper_tick (s : SniperSys) (t : Z * Z) : SniperSys :=
  let s := scan_all_venues t.1 s in
  if is_none (entry_cfg (sn_runner s)) then s else try_execute_pending t.2 s.
End Sniper.

Section SniperFacts.
Context {D : Decimal} {E : DecimalExact D} {I : HashMapIter} {SV : SniperVenues}.

Definition taken_entries (l : list Entry) : Z := Z.of_nat (length (List.filter en_taken l)).

(** An entry that the policy allows, of a listing discovered at one of the scans. *)
Definition entry_good (cfg : ListingSniperEntryConfig) (scans : list Z) (e : Entry) : Prop :=
  let spec := pe_spec (en_pending e) in
  enter_on_discovery cfg = true ∧ (require_trading_status cfg = true → trading_status spec = Trading) ∧
  quarantined cfg (en_at e) (en_pending e) = false ∧ first_seen (en_pending e) ∈ scans ∧
  ∃ symbol qty id, entry_qty cfg spec (en_ask e) = Some qty ∧ en_order e = entry_order symbol spec (en_ask e) qty id.

Record sniper_ok (cfg : ListingSniperEntryConfig) (scans : list Z) (s : SniperSys) : Prop := {
  so_cfg : entry_cfg (sn_runner s) = Some cfg;
  so_active : active_entries (sn_runner s) = taken_entries (sn_entries s);
  so_cap : (active_entries (sn_runner s) <= max_active_entries cfg)%Z;
  so_good : Forall (entry_good cfg scans) (sn_entries s);
  so_pending k pe : pending_entries (sn_runner s) !! k = Some pe → first_seen pe ∈ scans;
}.

Lemma entry_good_mono cfg scans scans' e : (∀ t, t ∈ scans → t ∈ scans') → entry_good cfg scans e → entry_good cfg scans' e.
Proof. intros Hs (H1 & H2 & H3 & H4 & H5). repeat split; auto. Qed.

Lemma ok_mono cfg scans scans' s : (∀ t, t ∈ scans → t ∈ scans') → sniper_ok cfg scans s → sniper_ok cfg scans' s.
Proof.
  intros Hs [H1 H2 H3 H4 H5]. split; auto.
  - eapply Forall_impl; [exact H4|]. intros e. by apply entry_good_mono.
  - intros k pe Hk. apply Hs. eauto.
Qed.

(** The runner changed in its cache and its pending entries only. *)
Lemma ok_runner cfg scans s r w : sniper_ok cfg scans s → entry_cfg r = entry_cfg (sn_runner s) →
  active_entries r = active_entries (sn_runner s) → (∀ k pe, pending_entries r !! k = Some pe → first_seen pe ∈ scans) →
  sniper_ok cfg scans (mkSniperSys r w (sn_entries s)).
Proof. intros [H1 H2 H3 H4 H5] Hc Ha Hp. split; cbn; auto; congruence. Qed.

Lemma listing_fold now (scans : list Z) evts : now ∈ scans → ∀ r : ListingSniperRunner,
  (∀ (k : VenueId * string) (pe : PendingEntry), pending_entries r !! k = Some pe → first_seen pe ∈ scans) →
  let r' := fold_left (handle_listing now) evts r in
  entry_cfg r' = entry_cfg r ∧ active_entries r' = active_entries r ∧ sr_connectors r' = sr_connectors r ∧
  ∀ (k : VenueId * string) (pe : PendingEntry), pending_entries r' !! k = Some pe → first_seen pe ∈ scans.
Proof.
  intros Hn. induction evts as [|ev evts IH]; intros r Hr; [done|]. cbn [fold_left].
  assert (Hr' : ∀ k pe, pending_entries (handle_listing now r ev) !! k = Some pe → first_seen pe ∈ scans).
  { intros k pe. destruct ev as [v sym spec|v sym]; cbn.
    - destruct (is_none (entry_cfg r)); [apply Hr|]. cbn. intros H. apply lookup_insert_Some in H.
      destruct H as [[_ <-]|[_ H]]; [exact Hn|by eapply Hr].
    - intros H. apply lookup_delete_Some in H. destruct H as [_ H]. by eapply Hr. }
  destruct (IH _ Hr') as (H1 & H2 & H3 & H4). cbn. rewrite H1, H2, H3. split; [|split; [|split; [|exact H4]]];
    (destruct ev as [v sym spec|v sym]; cbn; [by destruct (is_none (entry_cfg r))|done]).
Qed.

Lemma scan_ok cfg scans now ivs : now ∈ scans → ∀ s, sniper_ok cfg scans s → sniper_ok cfg scans (fold_left (scan_venue now) ivs s).
Proof.
  intros Hn. induction ivs as [|[i v] ivs IH]; intros s Hs; [done|]. cbn [fold_left]. apply IH. unfold scan_venue.
  destruct (list_symbols i (sn_world s)) as [[specs|e] w].
  - destruct (scan v specs _) as [evts sn]. unfold with_runner. cbn [sn_runner sn_world sn_entries].
    match goal with |- context [fold_left (handle_listing now) evts ?r] =>
      destruct (listing_fold now scans evts Hn r) as (H1 & H2 & _ & H4); [apply (so_pending _ _ _ Hs)|] end.
    by apply ok_runner.
  - apply ok_runner; try done. apply (so_pending _ _ _ Hs).
Qed.

Lemma execute_ok cfg scans now s k pe : (max_active_entries cfg <= u32_max)%Z → quarantined cfg now pe = false →
  first_seen pe ∈ scans → sniper_ok cfg scans s → sniper_ok cfg scans (execute_one cfg now s (k, pe)).
Proof.
  intros Hmax Hq Hseen Hs. destruct k as [venue symbol]. unfold execute_one.
  set (s1 := with_runner _ s). assert (H1 : sniper_ok cfg scans s1).
  { apply ok_runner; try done. cbn. intros k pe' H. apply lookup_delete_Some in H. destruct H as [_ H]. by apply (so_pending _ _ _ Hs _ _ H). }
  clearbody s1. clear Hs. destruct (entry_allowed _ _ _) eqn:Ha; cbn [negb]; [|done].
  unfold entry_allowed in Ha. rewrite !andb_true_iff in Ha. destruct Ha as [[He Hst] Hact]. apply Z.ltb_lt in Hact.
  destruct (connector_of venue (sn_runner s1)) as [i|]; [|done]. destruct (sn_book i symbol (sn_world s1)) as [book w].
  assert (H2 : sniper_ok cfg scans (mkSniperSys (sn_runner s1) w (sn_entries s1))).
  { apply ok_runner; try done. apply (so_pending _ _ _ H1). }
  destruct book as [[bids [|lvl asks]]|e]; try exact H2.
  destruct (entry_qty cfg (pe_spec pe) (pl_price lvl)) as [qty|] eqn:Eq; [|exact H2].
  unfold place_entry. cbn [sn_world sn_runner sn_entries]. destruct (sn_uuid w) as [id w1].
  destruct (sn_place i _ w1) as [taken w2]. destruct H1 as [G1 G2 G3 G4 G5]. split; cbn.
  - exact G1.
  - unfold taken_entries in *. rewrite List.filter_app. cbn. rewrite length_app. destruct taken; cbn; lia.
  - destruct taken; lia.
  - apply Forall_app. split; [exact G4|]. apply Forall_singleton. split; [exact He|]. split; [|split; [exact Hq|]].
    + cbn. intros Hr. rewrite Hr in Hst. apply negb_true_iff, negb_false_iff, bool_decide_eq_true in Hst. exact Hst.
    + split; [exact Hseen|]. cbn. eauto.
  - exact G5.
Qed.

Lemma execute_fold cfg scans now es : (max_active_entries cfg <= u32_max)%Z →
  Forall (λ e, quarantined cfg now e.2 = false ∧ first_seen e.2 ∈ scans) es →
  ∀ s, sniper_ok cfg scans s → sniper_ok cfg scans (fold_left (execute_one cfg now) es s).
Proof.
  intros Hmax. induction 1 as [|[k pe] es [Hq Hs] _ IH]; intros s Hok; [done|]. cbn [fold_left]. apply IH. by apply execute_ok.
Qed.

Lemma tick_ok cfg scans s t : (max_active_entries cfg <= u32_max)%Z → sniper_ok cfg scans s →
  sniper_ok cfg (t.1 :: scans) (sniper_tick s t).
Proof.
  intros Hmax Hs. unfold sniper_tick, scan_all_venues.
  assert (H1 : sniper_ok cfg (t.1 :: scans) (fold_left (scan_venue t.1) (imap pair (sr_connectors (sn_runner s))) s)).
  { apply scan_ok; [apply elem_of_cons; auto|]. eapply ok_mono; [|exact Hs]. intros x Hx. apply elem_of_cons. auto. }
  set (s1 := fold_left _ _ s) in *. clearbody s1. rewrite (so_cfg _ _ _ H1). cbn [is_none]. unfold try_execute_pending.
  rewrite (so_cfg _ _ _ H1). apply execute_fold; [done| |exact H1]. apply Forall_forall. intros [k pe] H.
  apply list_elem_of_In, List.filter_In in H. destruct H as [Hin Hq]. apply negb_true_iff in Hq. split; [exact Hq|].
  apply list_elem_of_In, hm_iter_elem in Hin. by apply (so_pending _ _ _ H1 _ _ Hin).
Qed.

Lemma ticks_ok cfg ts : (max_active_entries cfg <= u32_max)%Z → ∀ scans s, sniper_ok cfg scans s →
  ∃ scans', (∀ t, t ∈ scans' → t ∈ scans ∨ t ∈ ts.*1) ∧ sniper_ok cfg scans' (fold_left sniper_tick ts s).
Proof.
  intros Hmax. induction ts as [|t ts IH]; intros scans s Hs; [exists scans; auto|]. cbn [fold_left].
  destruct (IH _ _ (tick_ok cfg scans s t Hmax Hs)) as (scans' & Hin & Hok). exists scans'. split; [|exact Hok].
  intros x Hx. destruct (Hin x Hx) as [H|H]; [apply elem_of_cons in H; destruct H as [->|H]; [|auto]|].
  - right. cbn. apply elem_of_cons. auto.
  - right. cbn. apply elem_of_cons. auto.
Qed.

(** The quantity of an entry is worth no more than the notional at the ask. *)
Lemma entry_qty_bounds cfg spec ask qty : (0 < dval (lot_size spec))%Q → entry_qty cfg spec ask = Some qty →
  (0 < dval qty ∧ dval qty * dval ask <= dval (max_notional_usd cfg) ∧ dval (min_notional spec) <= dval qty * dval ask)%Q.
Proof.
  intros Hl. unfold entry_qty. set (q := round_qty spec (ddiv (max_notional_usd cfg) ask)).
  destruct (dleb ask dec0) eqn:Ea; [done|]. destruct (dleb q dec0) eqn:Eq; [done|].
  destruct (dltb (dmul q ask) (min_notional spec)) eqn:En; [done|]. intros [= <-]. dec_to_Q. rewrite dec0_val in Ea, Eq. rewrite dmul_exact in En.
  assert (Hd : (dval (ddiv (max_notional_usd cfg) ask) == dval (max_notional_usd cfg) / dval ask)%Q) by (apply ddiv_exact; lra).
  assert (Hf : (dval q <= dval (max_notional_usd cfg) / dval ask)%Q).
  { unfold q, round_qty. rewrite <- Hd. rewrite floor_lot_val by done.
    pose proof (Qfloor_le (dval (ddiv (max_notional_usd cfg) ask) / dval (lot_size spec))) as Hfl.
    assert (Ex : (dval (ddiv (max_notional_usd cfg) ask) ==
      dval (ddiv (max_notional_usd cfg) ask) / dval (lot_size spec) * dval (lot_size spec))%Q) by (field; lra).
    rewrite Ex at 2. apply Qmult_le_compat_r; lra. }
  split; [lra|]. split; [|lra]. assert (Em : (dval (max_notional_usd cfg) == dval (max_notional_usd cfg) / dval ask * dval ask)%Q) by (field; lra).
  rewrite Em. apply Qmult_le_compat_r; lra.
Qed.

(** However the venues list symbols, answer and take orders, the sniper has
    never more orders taken than its cap; and each of its orders is an
    immediate limit buy for a listing that a scan discovered at least the
    quarantine before, at most the configured notional at the ask and not less
    than the venue's smallest. *)
Theorem sniper_entries_bounded cfg connectors w ts (Hmax : (0 <= max_active_entries cfg <= u32_max)%Z) :
  let s := fold_left sniper_tick ts (mkSniperSys (runner_new connectors (Some cfg)) w []) in
  (taken_entries (sn_entries s) <= max_active_entries cfg)%Z ∧
  Forall (λ e,
    no_side (en_order e) = Buy ∧ no_time_in_force (en_order e) = Some Ioc ∧
    (quarantine_secs cfg * 1000000000 <= Z.max 0 (en_at e - first_seen (en_pending e)))%Z ∧
    first_seen (en_pending e) ∈ ts.*1 ∧
    ((0 < dval (lot_size (pe_spec (en_pending e))))%Q →
     (0 < dval (no_qty (en_order e)) ∧ dval (no_qty (en_order e)) * dval (en_ask e) <= dval (max_notional_usd cfg) ∧
      dval (min_notional (pe_spec (en_pending e))) <= dval (no_qty (en_order e)) * dval (en_ask e))%Q)) (sn_entries s).
Proof.
  intros s. assert (H0 : sniper_ok cfg [] (mkSniperSys (runner_new connectors (Some cfg)) w [])).
  { split; cbn; [done|done|lia|constructor|]. intros k pe H. by rewrite lookup_empty in H. }
  destruct (ticks_ok cfg ts (proj2 Hmax) [] _ H0) as (scans & Hin & [H1 H2 H3 H4 H5]). fold s in H1, H2, H3, H4, H5.
  split; [lia|]. eapply Forall_impl; [exact H4|]. intros e (_ & _ & Hq & Hs & symbol & qty & id & Eq & Eo). rewrite Eo. cbn.
  split; [done|]. split; [done|]. split; [unfold quarantined in Hq; apply Z.ltb_ge in Hq; exact Hq|].
  split; [destruct (Hin _ Hs) as [H|H]; [by apply elem_of_nil in H|exact H]|]. intros Hl. by apply (entry_qty_bounds cfg _ _ _ Hl).
Qed.

(** *** Where the code departs from its comments *)

(** At the cap a ready listing is not kept waiting: it leaves the queue
    without an order, and nothing ever lowers the count. *)
Lemma capped_listing_dropped cfg now s venue symbol pe : (max_active_entries cfg <= active_entries (sn_runner s))%Z →
  pending_entries (sn_runner (execute_one cfg now s ((venue, symbol), pe))) = delete (venue, symbol) (pending_entries (sn_runner s)) ∧
  sn_entries (execute_one cfg now s ((venue, symbol), pe)) = sn_entries s.
Proof.
  intros Hc. unfold execute_one, entry_allowed. cbn [with_runner sn_runner active_entries set_pending].
  rewrite (proj2 (Z.ltb_ge _ _) Hc), andb_false_r. done.
Qed.

(** The status that counts is the one at discovery: a listing announced before
    it trades is dropped after the quarantine, though it trades by then. *)
Lemma announced_listing_dropped cfg now s venue symbol pe : require_trading_status cfg = true →
  trading_status (pe_spec pe) = PreTrading →
  pending_entries (sn_runner (execute_one cfg now s ((venue, symbol), pe))) = delete (venue, symbol) (pending_entries (sn_runner s)) ∧
  sn_entries (execute_one cfg now s ((venue, symbol), pe)) = sn_entries s.
Proof.
  intros Hr Ht. unfold execute_one, entry_allowed. rewrite Hr, Ht. by rewrite andb_false_r.
Qed.
End SniperFacts.

(** ** On concrete inputs *)
Section Demo.
Local Existing Instance Qc_decimal.

Definition demo_spec (st : TradingStatus) (lot_digits : nat) : ProductSpec :=
  mkProductSpec "NEWUSDT" "NEW" "USDT" (dlit 1 2) (dlit 1 lot_digits) (dlit 5 0) (dlit 0 0) (dlit 1 3) st.

Definition demo_lc : LifecycleEngine := mkLcEngine (Some lifecycle_new) (demo_spec Trading 2) false.

Definition demo_polls : list ProductSpec := [demo_spec Trading 3; demo_spec Halted 3; demo_spec Trading 3].

(** A venue whose listing grows by one symbol at the second scan and that takes
    every order; its world counts the calls for listings. *)
Local Instance demo_venues : SniperVenues := {|
  sworld := nat;
  list_symbols _ w := (Ok (if w =? 0 then [] else [demo_spec Trading 2]), S w);
  sn_book _ _ w := (Ok ([], [mkPriceLevel (dlit 2 0) (dlit 100 0)]), w);
  sn_place _ _ w := (true, w);
  sn_uuid w := ("id"%string, w);
|}.

Definition demo_entry_cfg : ListingSniperEntryConfig := mkEntryConfig true (dlit 50 0) 30 1 true.

Definition second (n : Z) : Z * Z := (n * 1000000000, n * 1000000000)%Z.

Definition demo_sniper : SniperSys :=
  fold_left sniper_tick [second 0; second 10; second 30; second 40; second 50]
    (mkSniperSys (runner_new [Binance] (Some demo_entry_cfg)) 0 []).

(** Discovered at ten seconds, bought at forty. *)
Example sniper_enters : (λ e, (en_at e, no_symbol (en_order e))) <$> sn_entries demo_sniper = [(40000000000%Z, "NEWUSDT"%string)].
Proof. vm_compute. reflexivity. Qed.
End Demo.

Lemma lifecycle_follows_venue_witness :
  let e' := polls_run (Some <$> demo_spec Trading 2 :: demo_polls) demo_lc in
  le_paused e' = false ∧ lot_size (le_product e') = lot_size (demo_spec Trading 3) ∧
  (lifecycle_poll (Some (demo_spec Break 3)) e').2 = true ∧ (lifecycle_poll None e').2 = true ∧
  le_paused (polls_run (replicate 3 None) e') = true.
Proof.
  destruct (lifecycle_follows_venue (demo_spec Trading 2) demo_polls demo_lc ltac:(reflexivity) ltac:(reflexivity)
    ltac:(reflexivity) ltac:(reflexivity) ltac:(reflexivity)) as (Hp & (_ & _ & _ & Hl) & Hc & Hn & Hk).
  split; [exact Hp|]. split; [exact Hl|]. split; [exact (Hc (demo_spec Break 3))|]. split; [exact Hn|]. apply (Hk 2).
Defined.
