(* ===== verification/Queue.v ===== *)
(** * Queue positions ([crates/common/src/queue_model.rs],
      [crates/engine/src/queue_tracker.rs])

    The position of a resting order in the queue of its price level, the
    tracker that routes trades and depth changes to the orders of a level, what
    the engine feeds it, and the gate of the paper fills on it. The probability
    that a departure was behind the order is computed on floats and is a
    parameter, its value after the clamp and the conversion to a decimal; the
    trade rate and the estimate of the fill probability, floats as well, are
    left out. *)
From stdpp Require Import base gmap sets list strings.
From Stdlib Require Import ZArith QArith Qminmax Lqa Lia.
From S2P Require Import Prelude Decimal Types OrderManager OrderBook BookKeeper.
Local Open Scope nat_scope.

(** [Probability::prob], clamped to the unit interval, as a decimal: none when
    the conversion fails. *)
Class QueueProb {D : Decimal} := {
  queue_prob : dec → dec → option dec;
  queue_prob_unit front back p : queue_prob front back = Some p → (0 <= dval p <= 1)%Q;
}.

Section Queue.
Context {D : Decimal} {P : QueueProb}.

(** ** One order *)
Record QueuePos := mkQueuePos { front_q_qty : dec; cum_trade_qty : dec }.

Definition queue_pos_new (book_qty_at_price : dec) : QueuePos := mkQueuePos (dmax book_qty_at_price dec0) dec0.

Definition pos_on_trade (trade_qty : dec) (p : QueuePos) : QueuePos :=
  if dleb trade_qty dec0 then p else mkQueuePos (dsub (front_q_qty p) trade_qty) (dadd (cum_trade_qty p) trade_qty).

(** The split of a departure between the front and the back. *)
Definition estimated_front (prev_qty chg front prob : dec) : dec :=
  let back := dmax (dsub prev_qty front) dec0 in
  let overflow := dmin (dsub back (dmul prob chg)) dec0 in
  dadd (dsub front (dmul (dsub dec1 prob) chg)) overflow.

Definition pos_on_depth_change (prev_qty new_qty : dec) (p : QueuePos) : QueuePos :=
  let chg := dsub (dsub prev_qty new_qty) (cum_trade_qty p) in
  let front := front_q_qty p in
  if dleb chg dec0 then mkQueuePos (if dltb new_qty front then new_qty else front) dec0
  else
    match queue_prob front (dmax (dsub prev_qty front) dec0) with
    | None => let front := dsub front chg in mkQueuePos (if dltb new_qty front then new_qty else front) dec0
    | Some prob => mkQueuePos (dmin (estimated_front prev_qty chg front prob) new_qty) dec0
    end.

Definition is_at_front (p : QueuePos) : bool := dleb (front_q_qty p) dec0.

Definition consume_fill (p : QueuePos) : dec * QueuePos :=
  if dltb (front_q_qty p) dec0 then (dneg (front_q_qty p), mkQueuePos dec0 (cum_trade_qty p)) else (dec0, p).

(** ** The tracker *)
Abbreviation Level := (string * Side * dec)%type.

Record OrderTrack := mkTrack { ot_symbol : string; ot_side : Side; ot_price : dec; queue_pos : QueuePos }.
Definition level_of (t : OrderTrack) : Level := (ot_symbol t, ot_side t, ot_price t).

Record QueueTracker := mkTracker {
  q_orders : gmap OrderId OrderTrack;
  by_level : gmap Level (list OrderId);
  last_book_qty : gmap Level dec;
}.

Definition tracker_new : QueueTracker := mkTracker ∅ ∅ ∅.

Definition on_order_placed (order_id : OrderId) (symbol : string) (side : Side) (price book_qty_at_price : dec)
    (t : QueueTracker) : QueueTracker :=
  let key := (symbol, side, price) in
  mkTracker (<[order_id := mkTrack symbol side price (queue_pos_new book_qty_at_price)]> (q_orders t))
    (<[key := default [] (by_level t !! key) ++ [order_id]]> (by_level t)) (<[key := book_qty_at_price]> (last_book_qty t)).

Definition on_order_cancelled (order_id : OrderId) (t : QueueTracker) : QueueTracker :=
  match q_orders t !! order_id with
  | None => t
  | Some track =>
      let key := level_of track in
      let orders := delete order_id (q_orders t) in
      match by_level t !! key with
      | None => mkTracker orders (by_level t) (last_book_qty t)
      | Some ids =>
          match List.filter (λ id, negb (bool_decide (id = order_id))) ids with
          | [] => mkTracker orders (delete key (by_level t)) (delete key (last_book_qty t))
          | ids => mkTracker orders (<[key := ids]> (by_level t)) (last_book_qty t)
          end
      end
  end.

Definition on_order_amended (order_id : OrderId) (new_price new_book_qty_at_price : dec) (t : QueueTracker) : QueueTracker :=
  match q_orders t !! order_id with
  | None => t
  | Some track =>
      on_order_placed order_id (ot_symbol track) (ot_side track) new_price new_book_qty_at_price (on_order_cancelled order_id t)
  end.

Definition set_pos (f : QueuePos → QueuePos) (track : OrderTrack) : OrderTrack :=
  mkTrack (ot_symbol track) (ot_side track) (ot_price track) (f (queue_pos track)).

(** The orders of a list, each if it is tracked. *)
Definition update_ids (f : QueuePos → QueuePos) (ids : list OrderId) (orders : gmap OrderId OrderTrack) :
    gmap OrderId OrderTrack :=
  fold_left (λ m id, alter (set_pos f) id m) ids orders.

Definition on_order_filled (order_id : OrderId) (t : QueueTracker) : dec * QueueTracker :=
  match q_orders t !! order_id with
  | None => (dec0, t)
  | Some track =>
      ((consume_fill (queue_pos track)).1,
       mkTracker (alter (set_pos (λ p, (consume_fill p).2)) order_id (q_orders t)) (by_level t) (last_book_qty t))
  end.

(** The side of the taker is not looked at. *)
Definition queue_on_trade (symbol : string) (price qty : dec) (t : QueueTracker) : QueueTracker :=
  let at_side orders side :=
    match by_level t !! (symbol, side, price) with Some ids => update_ids (pos_on_trade qty) ids orders | None => orders end in
  mkTracker (fold_left at_side [Buy; Sell] (q_orders t)) (by_level t) (last_book_qty t).

Definition on_depth_change (symbol : string) (side : Side) (price new_qty : dec) (t : QueueTracker) : QueueTracker :=
  let key := (symbol, side, price) in
  match by_level t !! key with
  | None => t
  | Some ids =>
      let prev_qty := default new_qty (last_book_qty t !! key) in
      mkTracker (update_ids (pos_on_depth_change prev_qty new_qty) ids (q_orders t)) (by_level t)
        (<[key := new_qty]> (last_book_qty t))
  end.

Definition queue_pos_of (order_id : OrderId) (t : QueueTracker) : option QueuePos := queue_pos <$> q_orders t !! order_id.

Section Engine.
Context {C : Clock} {I : HashMapIter}.

Definition best_price_on (symbol : string) (side : Side) (t : QueueTracker) : option dec :=
  fold_left (λ acc p, match acc with
                      | None => Some p
                      | Some cur => Some (match side with Buy => dmax cur p | Sell => dmin cur p end)
                      end)
    (ot_price <$> List.filter (λ o, bool_decide (ot_symbol o = symbol) && bool_decide (ot_side o = side)) (hm_values (q_orders t)))
    None.

(** ** What the engine feeds it *)
Definition book_qty (b : LocalOrderBook) (side : Side) (price : dec) : dec :=
  default dec0 (match side with Buy => bids b !! price | Sell => asks b !! price end).

Definition live_levels (om : OrderManager) : gmap OrderId (Side * dec) :=
  hm_collect ((λ o, (lo_order_id o, (lo_side o, lo_price o))) <$> hm_values (live_orders om)).

Definition feed_levels (symbol : string) (side : Side) (lvls : list PriceLevel) (t : QueueTracker) : QueueTracker :=
  fold_left (λ t l, on_depth_change symbol side (pl_price l) (pl_qty l) t) lvls t.

(** A delta tells its levels; a snapshot, the level of every live order in the
    book it left. *)
Definition queue_book_event (symbol : string) (om : OrderManager) (b : LocalOrderBook) (ev : MarketEvent) (t : QueueTracker) :
    QueueTracker :=
  match ev with
  | BookDelta bs as_ _ => feed_levels symbol Sell as_ (feed_levels symbol Buy bs t)
  | BookSnapshot _ _ _ =>
      fold_left (λ t o, on_depth_change symbol (lo_side o) (lo_price o) (book_qty b (lo_side o) (lo_price o)) t)
        (hm_values (live_orders om)) t
  | OtherEvent => t
  end.

(** After a fill was booked in the order manager. *)
Definition queue_fill (om : OrderManager) (order_id : OrderId) (t : QueueTracker) : QueueTracker :=
  let t := (on_order_filled order_id t).2 in
  match live_orders om !! order_id with Some _ => t | None => on_order_cancelled order_id t end.

(** After the orders of a refresh were placed. *)
Definition queue_after_refresh (symbol : string) (pre post : gmap OrderId (Side * dec)) (pre_book_qty : gmap (Side * dec) dec)
    (t : QueueTracker) : QueueTracker :=
  let t := fold_left (λ t e, let '(oid, (side, price)) := e in
    let qty := default dec0 (pre_book_qty !! (side, price)) in
    match pre !! oid with
    | None => on_order_placed oid symbol side price qty t
    | Some (_, old_price) => if decide (old_price = price) then t else on_order_amended oid price qty t
    end) (hm_iter post) t in
  fold_left (λ t oid, match post !! oid with Some _ => t | None => on_order_cancelled oid t end) (hm_keys pre) t.

(** The probabilistic filler. The draws of a trade are part of it: whether the
    candidate's first draw is at most the fill probability and its second below
    the slippage probability. A trade asks for each candidate at most once. *)
Record ProbabilisticFiller := mkFiller {
  lucky : OrderId → bool;
  slipped : OrderId → bool;
  slippage_bps : dec;
}.

(** The price of the fill, none when the quote is not filled. *)
Definition try_fill (f : ProbabilisticFiller) (id : OrderId) (side : Side) (price best_bid best_ask : dec) : option dec :=
  if negb (match side with Buy => dleb best_ask price | Sell => dleb price best_bid end) then None
  else if negb (lucky f id) then None
  else if slipped f id then
    let adjust := ddiv (dmul price (slippage_bps f)) (dlit 10000 0) in
    Some (match side with Buy => dadd price adjust | Sell => dsub price adjust end)
  else Some price.

(** The gate of the paper fills. *)
Definition paper_gate (filler : option ProbabilisticFiller) (b : LocalOrderBook) (om : OrderManager) (t : QueueTracker)
    (id : OrderId) : option dec :=
  match queue_pos_of id t with
  | Some pos =>
      if dleb (front_q_qty pos) dec0 then
        match live_levels om !! id with
        | None => None
        | Some (side, price) =>
            match filler with
            | Some f => try_fill f id side price (default dec0 (best_bid b)) (default dec0 (best_ask b))
            | None => Some price
            end
        end
      else None
  | None => None
  end.

(** A trade on paper: the positions, the fills, and each fill on the positions. *)
Definition paper_trade (now : instant) (symbol : string) (price qty : dec) (taker_side : Side)
    (filler : option ProbabilisticFiller) (b : LocalOrderBook) (om : OrderManager) (ctr : Z)
    (t : QueueTracker) : (OrderManager * Z * list Fill) * QueueTracker :=
  let t := queue_on_trade symbol price qty t in
  let r := paper_match_trade_filtered now price taker_side (paper_gate filler b om t) om ctr in
  (r, fold_left (λ t f, queue_fill (on_fill now (f_order_id f) (f_qty f) r.1.1) (f_order_id f) t) r.2 t).
End Engine.
End Queue.

(** ** The queue ahead of an order *)
Section QueueFacts.
Context {D : Decimal} {L : DecimalLaws D} {C : Clock} {P : QueueProb}.
Abbreviation Level := (string * Side * dec)%type.

(** What happened at an order's level since it was placed. *)
Inductive LevelEvent := LTrade (qty : dec) | LDepth (new_qty : dec) | LFill.

Definition trace_step (st : QueuePos * dec) (ev : LevelEvent) : QueuePos * dec :=
  match ev with
  | LTrade qty => (pos_on_trade qty st.1, st.2)
  | LDepth new_qty => (pos_on_depth_change st.2 new_qty st.1, new_qty)
  | LFill => ((consume_fill st.1).2, st.2)
  end.
Definition trace_run (q0 : dec) (evs : list LevelEvent) : QueuePos * dec := fold_left trace_step evs (queue_pos_new q0, q0).

(** What left the level, by trades or otherwise: the depth of the last book, the
    trades since it and the total so far. *)
Definition left_step (c : Q * Q * Q) (ev : LevelEvent) : Q * Q * Q :=
  let '(last, traded, gone) := c in
  match ev with
  | LTrade qty => (last, traded + Qmax (dval qty) 0, gone + Qmax (dval qty) 0)%Q
  | LDepth new_qty => (dval new_qty, 0, gone + Qmax (last - dval new_qty - traded) 0)%Q
  | LFill => c
  end.
Definition left_level (q0 : dec) (evs : list LevelEvent) : Q := (fold_left left_step evs (dval q0, 0, 0)%Q).2.

Definition is_fill (ev : LevelEvent) : bool := match ev with LFill => true | _ => false end.

(** *** Nothing is rounded

    The results a depth change computes all fit a decimal. *)
Definition chg_of (prev new : dec) (p : QueuePos) : dec := dsub (dsub prev new) (cum_trade_qty p).
Definition back_of (prev : dec) (p : QueuePos) : dec := dmax (dsub prev (front_q_qty p)) dec0.

Definition departed_fits (prev chg prob : dec) (p : QueuePos) : Prop :=
  let f := dval (front_q_qty p) in
  let rest := (dval prob * dval chg)%Q in
  let ahead := ((1 - dval prob) * dval chg)%Q in
  let overflow := Qmin (dval (back_of prev p) - rest) 0 in
  fits rest ∧ fits (1 - dval prob)%Q ∧ fits ahead ∧ fits (dval (back_of prev p) - rest)%Q ∧
  fits (f - ahead)%Q ∧ fits (f - ahead + overflow)%Q.

Definition depth_fits (prev new : dec) (p : QueuePos) : Prop :=
  fits (dval prev - dval new)%Q ∧ fits (dval prev - dval new - dval (cum_trade_qty p))%Q ∧
  fits (dval prev - dval (front_q_qty p))%Q ∧
  match queue_prob (front_q_qty p) (back_of prev p) with
  | Some prob => departed_fits prev (chg_of prev new p) prob p
  | None => fits (dval (front_q_qty p) - dval (chg_of prev new p))%Q
  end.

Definition step_fits (st : QueuePos * dec) (ev : LevelEvent) : Prop :=
  match ev with
  | LTrade qty => fits (dval (front_q_qty st.1) - dval qty)%Q ∧ fits (dval (cum_trade_qty st.1) + dval qty)%Q
  | LDepth new_qty => depth_fits st.2 new_qty st.1
  | LFill => True
  end.

Fixpoint run_fits (st : QueuePos * dec) (evs : list LevelEvent) : Prop :=
  match evs with [] => True | ev :: evs => step_fits st ev ∧ run_fits (trace_step st ev) evs end.
Definition trace_fits (q0 : dec) (evs : list LevelEvent) : Prop := run_fits (queue_pos_new q0, q0) evs.

Lemma run_fits_snoc evs : ∀ st ev, run_fits st (evs ++ [ev]) → run_fits st evs ∧ step_fits (fold_left trace_step evs st) ev.
Proof.
  induction evs as [|e evs IH]; intros st ev; cbn; [tauto|]. intros [H1 H2]. by destruct (IH _ _ H2).
Qed.

Lemma chg_val prev new p : depth_fits prev new p →
  (dval (chg_of prev new p) == dval prev - dval new - dval (cum_trade_qty p))%Q.
Proof.
  intros (H1 & H2 & _). unfold chg_of. pose proof (dsub_val prev new H1) as E. rewrite dsub_val; by rewrite E.
Qed.

Lemma estimated_front_val prev chg prob p : fits (dval prev - dval (front_q_qty p))%Q → departed_fits prev chg prob p →
  (dval (estimated_front prev chg (front_q_qty p) prob) ==
   dval (front_q_qty p) - (1 - dval prob) * dval chg +
   Qmin (Qmax (dval prev - dval (front_q_qty p)) 0 - dval prob * dval chg) 0)%Q.
Proof.
  intros Hb (H1 & H2 & H3 & H4 & H5 & H6). unfold estimated_front, back_of in *.
  set (back := dmax (dsub prev (front_q_qty p)) dec0) in *.
  assert (Eb : (dval back == Qmax (dval prev - dval (front_q_qty p)) 0)%Q) by (unfold back; by rewrite dmax_val, dsub_val, dec0_val).
  assert (E1 : (dval (dmul prob chg) == dval prob * dval chg)%Q) by (by apply dmul_val).
  assert (E2 : (dval (dsub dec1 prob) == 1 - dval prob)%Q) by (rewrite dsub_val; rewrite dec1_val; done).
  assert (E3 : (dval (dmul (dsub dec1 prob) chg) == (1 - dval prob) * dval chg)%Q) by (rewrite dmul_val; by rewrite E2).
  assert (E4 : (dval (dsub back (dmul prob chg)) == dval back - dval prob * dval chg)%Q) by (rewrite dsub_val; by rewrite E1).
  assert (E5 : (dval (dsub (front_q_qty p) (dmul (dsub dec1 prob) chg)) == dval (front_q_qty p) - (1 - dval prob) * dval chg)%Q)
    by (rewrite dsub_val; by rewrite E3).
  rewrite dadd_val; rewrite E5, dmin_val, dec0_val, E4; [by rewrite Eb|done].
Qed.

(** One departure: the order advances by at most what left, never back, and
    stays within the book. *)
Lemma depth_change_bounds prev new p : depth_fits prev new p →
  (dval (front_q_qty p) + dval (cum_trade_qty p) <= dval prev)%Q → (0 <= dval (cum_trade_qty p))%Q →
  let p' := pos_on_depth_change prev new p in
  (dval (front_q_qty p) - Qmax (dval prev - dval new - dval (cum_trade_qty p)) 0 <= dval (front_q_qty p'))%Q ∧
  (dval (front_q_qty p') <= dval (front_q_qty p))%Q ∧ (dval (front_q_qty p') <= dval new)%Q ∧ (dval (cum_trade_qty p') == 0)%Q.
Proof.
  intros Hfit Hinv Hc. pose proof (chg_val prev new p Hfit) as Hchg. destruct Hfit as (_ & _ & Hf & Hdep).
  unfold pos_on_depth_change. fold (chg_of prev new p). fold (back_of prev p). set (chg := chg_of prev new p) in *.
  rewrite <- Hchg. destruct (dleb chg dec0) eqn:Ec; dec_to_Q; rewrite dec0_val in Ec.
  - rewrite Q.max_r by done. cbn [front_q_qty cum_trade_qty]. rewrite dec0_val.
    destruct (dltb new (front_q_qty p)) eqn:El; dec_to_Q; lra.
  - rewrite Q.max_l by lra. destruct (queue_prob _ _) as [pr|] eqn:Ep.
    + apply queue_prob_unit in Ep. cbn [front_q_qty cum_trade_qty]. rewrite dec0_val, dmin_val, estimated_front_val by done.
      set (c := dval chg) in *. set (q := dval pr) in *. set (f := dval (front_q_qty p)) in *. set (l := dval prev) in *.
      set (n := dval new) in *. assert (0 <= q * c)%Q by (apply Qmult_le_0_compat; lra).
      assert (0 <= (1 - q) * c)%Q by (apply Qmult_le_0_compat; lra).
      assert (Hs : ((1 - q) * c == c - q * c)%Q) by ring. set (qc := (q * c)%Q) in *. set (rc := ((1 - q) * c)%Q) in *.
      destruct (Q.max_spec (l - f) 0) as [[? Hm]|[? Hm]]; rewrite Hm;
        match goal with |- context [Qmin (?x - qc) 0] => destruct (Q.min_spec (x - qc) 0) as [[? Hn]|[? Hn]]; rewrite Hn end;
        match goal with |- context [Qmin ?x n] => destruct (Q.min_spec x n) as [[? Hk]|[? Hk]]; rewrite !Hk end; lra.
    + cbn [front_q_qty cum_trade_qty]. rewrite dec0_val. pose proof (dsub_val _ _ Hdep) as Es.
      destruct (dltb new (dsub (front_q_qty p) chg)) eqn:El; dec_to_Q; rewrite Es in *; lra.
Qed.

(** Along a trace without fills. *)
Lemma trace_bounds q0 evs : (0 <= dval q0)%Q → forallb (λ ev, negb (is_fill ev)) evs = true → trace_fits q0 evs →
  let '(pos, last) := trace_run q0 evs in
  let '(l, traded, gone) := fold_left left_step evs (dval q0, 0, 0)%Q in
  l = dval last ∧ (traded == dval (cum_trade_qty pos))%Q ∧ (0 <= traded)%Q ∧ (0 <= gone)%Q ∧
  (dval (front_q_qty pos) + traded <= dval last)%Q ∧ (dval q0 - gone <= dval (front_q_qty pos) <= dval q0)%Q.
Proof.
  intros Hq. induction evs as [|ev evs IH] using rev_ind; intros Hf Hfit.
  - cbn. rewrite dmax_val, dec0_val. rewrite Q.max_l by done. repeat split; lra.
  - rewrite forallb_app in Hf. apply andb_true_iff in Hf. destruct Hf as [Hf Hev].
    apply run_fits_snoc in Hfit. destruct Hfit as [Hfit Hstep]. specialize (IH Hf Hfit).
    unfold trace_run in *. rewrite !fold_left_app. cbn [fold_left].
    destruct (fold_left trace_step evs _) as [pos last]. destruct (fold_left left_step evs _) as [[l traded] gone].
    destruct IH as (-> & Ht & Ht0 & Hl0 & Hinv & Hb). destruct ev as [qty|new|]; [| |done]; cbn [trace_step left_step fst snd].
    + unfold pos_on_trade. destruct (dleb qty dec0) eqn:Eq; dec_to_Q; rewrite dec0_val in Eq.
      * rewrite Q.max_r by done. repeat split; lra.
      * rewrite Q.max_l by lra. cbn [front_q_qty cum_trade_qty]. destruct Hstep as [Hs1 Hs2]. cbn [fst] in Hs1, Hs2.
        pose proof (dsub_val _ _ Hs1). pose proof (dadd_val _ _ Hs2). repeat split; lra.
    + assert (Hc : (0 <= dval (cum_trade_qty pos))%Q) by (by rewrite <- Ht).
      assert (Hi : (dval (front_q_qty pos) + dval (cum_trade_qty pos) <= dval last)%Q) by (by rewrite <- Ht).
      destruct (depth_change_bounds last new pos Hstep Hi Hc) as (H1 & H2 & H3 & H4). cbn zeta in *.
      rewrite <- Ht in H1. pose proof (Q.le_max_r (dval last - dval new - traded) 0).
      split; [done|]. split; [by rewrite H4|]. split; [lra|]. split; [lra|]. split; lra.
Qed.

(** *** The tracker follows every order's trace *)
Section Tracker.
Context (symbol : string).

Inductive QueueOp :=
| QPlaced (id : OrderId) (side : Side) (price qty : dec)
| QAmended (id : OrderId) (price qty : dec)
| QCancelled (id : OrderId)
| QFilled (id : OrderId)
| QTrade (price qty : dec)
| QDepth (side : Side) (price new_qty : dec).

Definition queue_step (t : QueueTracker) (op : QueueOp) : QueueTracker :=
  match op with
  | QPlaced id side price qty => on_order_placed id symbol side price qty t
  | QAmended id price qty => on_order_amended id price qty t
  | QCancelled id => on_order_cancelled id t
  | QFilled id => (on_order_filled id t).2
  | QTrade price qty => queue_on_trade symbol price qty t
  | QDepth side price new_qty => on_depth_change symbol side price new_qty t
  end.

(** A placement reports the book: at a level that is tracked, the quantity last
    seen there. *)
Definition placed_at (t : QueueTracker) (key : Level) (qty : dec) : Prop :=
  last_book_qty t !! key = None ∨ last_book_qty t !! key = Some qty.

Definition op_ok (t : QueueTracker) (op : QueueOp) : Prop :=
  match op with
  | QPlaced id side price qty => q_orders t !! id = None ∧ placed_at t (symbol, side, price) qty
  | QAmended id price qty =>
      ∀ track, q_orders t !! id = Some track → placed_at (on_order_cancelled id t) (symbol, ot_side track, price) qty
  | _ => True
  end.

(** The traces: the side and price of every order, the quantity ahead of it when
    it was placed, and the events at its level since. *)
Definition Trace : Type := Side * dec * dec * list LevelEvent.

Definition add_event (p : Side → dec → bool) (ev : LevelEvent) (tr : Trace) : Trace :=
  let '(side, price, q0, evs) := tr in if p side price then (side, price, q0, evs ++ [ev]) else tr.

Definition ghost_step (g : gmap OrderId Trace) (op : QueueOp) : gmap OrderId Trace :=
  match op with
  | QPlaced id side price qty => <[id := (side, price, qty, [])]> g
  | QAmended id price qty =>
      match g !! id with Some (side, _, _, _) => <[id := (side, price, qty, [])]> g | None => g end
  | QCancelled id => delete id g
  | QFilled id => alter (add_event (λ _ _, true) LFill) id g
  | QTrade price qty => add_event (λ _ p, bool_decide (p = price)) (LTrade qty) <$> g
  | QDepth side price new_qty => add_event (λ s p, bool_decide (s = side) && bool_decide (p = price)) (LDepth new_qty) <$> g
  end.

Inductive queue_reach : QueueTracker → gmap OrderId Trace → Prop :=
| queue_start : queue_reach tracker_new ∅
| queue_next t g op : queue_reach t g → op_ok t op → queue_reach (queue_step t op) (ghost_step g op).

Record queue_wf (t : QueueTracker) : Prop := {
  qw_index id k : (∃ ids, by_level t !! k = Some ids ∧ id ∈ ids) ↔ (∃ tr, q_orders t !! id = Some tr ∧ level_of tr = k);
  qw_lists k ids : by_level t !! k = Some ids → NoDup ids ∧ ids ≠ [];
  qw_last k : is_Some (by_level t !! k) ↔ is_Some (last_book_qty t !! k);
}.

Definition follows_trace (t : QueueTracker) (id : OrderId) (tr : Trace) : Prop :=
  let '(side, price, q0, evs) := tr in
  q_orders t !! id = Some (mkTrack symbol side price (trace_run q0 evs).1) ∧
  last_book_qty t !! (symbol, side, price) = Some (trace_run q0 evs).2.

Definition follows (t : QueueTracker) (g : gmap OrderId Trace) : Prop :=
  (∀ id tr, g !! id = Some tr → follows_trace t id tr) ∧ (∀ id, g !! id = None → q_orders t !! id = None).

Lemma update_ids_lookup f ids : NoDup ids → ∀ m id,
  update_ids f ids m !! id = if bool_decide (id ∈ ids) then set_pos f <$> m !! id else m !! id.
Proof.
  unfold update_ids. induction 1 as [|i ids Hi Hnd IH]; intros m id; [done|]. cbn [fold_left]. rewrite IH.
  destruct (decide (id = i)) as [->|Hne].
  - rewrite lookup_alter_eq. rewrite (bool_decide_eq_false_2 (i ∈ ids)), (bool_decide_eq_true_2 (i ∈ i :: ids)) by set_solver. done.
  - rewrite lookup_alter_ne by done. destruct (decide (id ∈ ids)).
    + rewrite !bool_decide_eq_true_2 by set_solver. done.
    + rewrite !bool_decide_eq_false_2 by set_solver. done.
Qed.

(** Changing positions only keeps the index. *)
Lemma wf_positions t orders last : queue_wf t →
  (∀ id, level_of <$> orders !! id = level_of <$> q_orders t !! id) →
  (∀ k, is_Some (last !! k) ↔ is_Some (last_book_qty t !! k)) → queue_wf (mkTracker orders (by_level t) last).
Proof.
  intros [H1 H2 H3] Ho Hl. split; cbn; [|exact H2|].
  - intros id k. rewrite H1. specialize (Ho id). destruct (orders !! id) as [a|], (q_orders t !! id) as [b|]; cbn in Ho; try done.
    + assert (Hab : level_of a = level_of b) by congruence. split; intros (tr & [= <-] & Hk); eexists; split; try done; congruence.
  - intros k. by rewrite H3, Hl.
Qed.


(** Updating the list of a level updates the orders at it. *)
Lemma at_level_lookup f key t orders id : queue_wf t → (∀ i, level_of <$> orders !! i = level_of <$> q_orders t !! i) →
  (match by_level t !! key with Some ids => update_ids f ids orders | None => orders end) !! id =
  (λ tr, if bool_decide (level_of tr = key) then set_pos f tr else tr) <$> orders !! id.
Proof.
  intros Hwf Ho. pose proof (qw_index _ Hwf id key) as Hi. specialize (Ho id).
  assert (Hat : ∀ tr, orders !! id = Some tr → level_of tr = key ↔ ∃ ids, by_level t !! key = Some ids ∧ id ∈ ids).
  { intros tr Et. rewrite Et in Ho. cbn [fmap option_fmap option_map] in Ho. rewrite Hi.
    destruct (q_orders t !! id) as [tr'|]; [|done]. apply (inj Some) in Ho. rewrite Ho. split; [by exists tr'|].
    intros (x & Ex & Hx). congruence. }
  destruct (by_level t !! key) as [ids|] eqn:Eb.
  - rewrite update_ids_lookup by apply (qw_lists _ Hwf _ _ Eb). destruct (orders !! id) as [tr|]; [|by destruct (bool_decide _)].
    specialize (Hat tr eq_refl). destruct (decide (id ∈ ids)) as [Hin|Hin].
    + rewrite (bool_decide_eq_true_2 (id ∈ ids)) by done. cbn [fmap option_fmap option_map].
      rewrite bool_decide_eq_true_2; [done|]. apply Hat. eauto.
    + rewrite (bool_decide_eq_false_2 (id ∈ ids)) by done. cbn [fmap option_fmap option_map].
      rewrite bool_decide_eq_false_2; [done|]. rewrite Hat. intros (x & Ex & Hx). congruence.
  - destruct (orders !! id) as [tr|]; [|done]. cbn [fmap option_fmap option_map]. rewrite bool_decide_eq_false_2; [done|].
    rewrite (Hat tr eq_refl). intros (x & Ex & Hx). congruence.
Qed.

Lemma at_level_levels f key t orders : queue_wf t → (∀ i, level_of <$> orders !! i = level_of <$> q_orders t !! i) → ∀ i,
  level_of <$> (match by_level t !! key with Some ids => update_ids f ids orders | None => orders end) !! i = level_of <$> q_orders t !! i.
Proof.
  intros Hwf Ho i. rewrite (at_level_lookup f key t orders i Hwf Ho). rewrite <- Ho. destruct (orders !! i) as [tr|]; [|done].
  cbn. by destruct (bool_decide _).
Qed.

(** The positions after a trade: those of the level on either side. *)
Lemma on_trade_lookup price qty t id : queue_wf t →
  q_orders (queue_on_trade symbol price qty t) !! id =
  (λ tr, if bool_decide (ot_symbol tr = symbol) && bool_decide (ot_price tr = price) then set_pos (pos_on_trade qty) tr else tr)
    <$> q_orders t !! id.
Proof.
  intros Hwf. unfold queue_on_trade. cbn [q_orders fold_left].
  rewrite (at_level_lookup _ _ t) by (done || by apply at_level_levels). rewrite (at_level_lookup _ _ t) by done.
  destruct (q_orders t !! id) as [[sy sd px pos]|]; [|done]. unfold level_of.
  destruct sd; cbn; repeat (case_bool_decide; simplify_eq/=; try done).
Qed.

Lemma on_trade_wf price qty t : queue_wf t → queue_wf (queue_on_trade symbol price qty t).
Proof.
  intros Hwf. unfold queue_on_trade. cbn [fold_left]. apply wf_positions; [done| |done].
  apply at_level_levels; [done|]. by apply at_level_levels.
Qed.

Lemma on_depth_lookup side price new t id : queue_wf t →
  q_orders (on_depth_change symbol side price new t) !! id =
  (λ tr, if bool_decide (level_of tr = (symbol, side, price))
         then set_pos (pos_on_depth_change (default new (last_book_qty t !! (symbol, side, price))) new) tr else tr)
    <$> q_orders t !! id.
Proof.
  intros Hwf. rewrite <- (at_level_lookup _ _ t) by done. unfold on_depth_change. by destruct (by_level t !! _).
Qed.

Lemma on_depth_wf side price new t : queue_wf t → queue_wf (on_depth_change symbol side price new t).
Proof.
  intros Hwf. unfold on_depth_change. pose proof (qw_last _ Hwf (symbol, side, price)) as Hl.
  pose proof (at_level_levels (pos_on_depth_change (default new (last_book_qty t !! (symbol, side, price))) new) (symbol, side, price)
    t (q_orders t) Hwf ltac:(done)) as Hlv.
  destruct (by_level t !! _) as [ids|]; [|done]. apply wf_positions; [done|exact Hlv|].
  intros k. destruct (decide (k = (symbol, side, price))) as [->|Hk]; [|by rewrite lookup_insert_ne].
  rewrite lookup_insert_eq. split; [intros _; apply Hl; eauto|eauto].
Qed.

Lemma on_filled_wf id t : queue_wf t → queue_wf (on_order_filled id t).2.
Proof.
  intros Hwf. unfold on_order_filled. destruct (q_orders t !! id) as [tr|] eqn:Et; [|done]. cbn [snd].
  apply wf_positions; [done| |done]. intros i. destruct (decide (i = id)) as [->|Hi]; [|by rewrite lookup_alter_ne].
  rewrite lookup_alter_eq, Et. done.
Qed.

Lemma on_placed_wf id side price qty t : queue_wf t → q_orders t !! id = None →
  queue_wf (on_order_placed id symbol side price qty t).
Proof.
  intros Hwf Hn. destruct Hwf as [H1 H2 H3]. set (key := (symbol, side, price)).
  assert (Hnot : ∀ k ids, by_level t !! k = Some ids → id ∉ ids).
  { intros k ids Hk Hin. destruct (proj1 (H1 id k)) as (tr & Et & _); [eauto|congruence]. }
  split; cbn; fold key.
  - intros i k. destruct (decide (k = key)) as [->|Hk].
    + rewrite lookup_insert_eq. destruct (decide (i = id)) as [->|Hi].
      * rewrite lookup_insert_eq. split; intros _; [by eexists|]. eexists. split; [done|]. apply elem_of_app. right. by apply list_elem_of_singleton.
      * rewrite lookup_insert_ne by done. rewrite <- H1. split.
        -- intros (ids & [= <-] & Hin). apply elem_of_app in Hin. destruct Hin as [Hin|Hin]; [|by apply list_elem_of_singleton in Hin].
           destruct (by_level t !! key) as [ids|]; [by exists ids|by apply elem_of_nil in Hin].
        -- intros (ids & -> & Hin). eexists. split; [done|]. apply elem_of_app. by left.
    + rewrite lookup_insert_ne by done. destruct (decide (i = id)) as [->|Hi].
      * rewrite lookup_insert_eq. split.
        -- intros (ids & Hb & Hin). by destruct (Hnot _ _ Hb).
        -- intros (tr & [= <-] & He). by destruct Hk.
      * rewrite lookup_insert_ne by done. apply H1.
  - intros k ids. destruct (decide (k = key)) as [->|Hk]; [|rewrite lookup_insert_ne by done; apply H2].
    rewrite lookup_insert_eq. intros [= <-]. split; [|by destruct (default _ _)]. apply NoDup_app. split; [|split].
    + destruct (by_level t !! key) as [ids|] eqn:Eb; [by destruct (H2 _ _ Eb)|constructor].
    + intros x Hx Hin. apply list_elem_of_singleton in Hin as ->. destruct (by_level t !! key) as [ids|] eqn:Eb; [|by apply elem_of_nil in Hx].
      by destruct (Hnot _ _ Eb).
    + apply NoDup_singleton.
  - intros k. destruct (decide (k = key)) as [->|Hk]; [rewrite !lookup_insert_eq; split; eauto|]. by rewrite !lookup_insert_ne.
Qed.

Lemma on_cancelled_orders id t : q_orders (on_order_cancelled id t) = delete id (q_orders t).
Proof.
  unfold on_order_cancelled. destruct (q_orders t !! id) eqn:Et; [|by rewrite delete_id].
  destruct (by_level t !! _) as [ids|]; [|done]. by destruct (List.filter _ ids).
Qed.

Definition others (id : OrderId) (ids : list OrderId) : list OrderId := List.filter (λ i, negb (bool_decide (i = id))) ids.

Lemma others_elem id ids i : i ∈ others id ids ↔ i ≠ id ∧ i ∈ ids.
Proof.
  unfold others. rewrite !list_elem_of_In, List.filter_In. rewrite negb_true_iff, bool_decide_eq_false. tauto.
Qed.

(** What a cancellation of a tracked order leaves at a level. *)
Lemma on_cancelled_levels id t tr : queue_wf t → q_orders t !! id = Some tr → ∃ ids, by_level t !! level_of tr = Some ids ∧
  ∀ k, by_level (on_order_cancelled id t) !! k =
         (if decide (k = level_of tr) then (if decide (others id ids = []) then None else Some (others id ids)) else by_level t !! k) ∧
       last_book_qty (on_order_cancelled id t) !! k =
         (if decide (k = level_of tr) then (if decide (others id ids = []) then None else last_book_qty t !! k) else last_book_qty t !! k).
Proof.
  intros Hwf Et. destruct (proj2 (qw_index _ Hwf id (level_of tr))) as (ids & Eb & Hin); [eauto|]. exists ids. split; [done|].
  intros k. unfold on_order_cancelled. rewrite Et, Eb. fold (others id ids). destruct (others id ids) as [|x l] eqn:Ef; cbn.
  - destruct (decide (k = level_of tr)) as [->|Hk]; [by rewrite !lookup_delete_eq|]. by rewrite !lookup_delete_ne by done.
  - destruct (decide (k = level_of tr)) as [->|Hk]; [by rewrite lookup_insert_eq|]. by rewrite lookup_insert_ne by done.
Qed.

Lemma on_cancelled_wf id t : queue_wf t → queue_wf (on_order_cancelled id t).
Proof.
  intros Hwf. destruct (q_orders t !! id) as [tr|] eqn:Et; [|by unfold on_order_cancelled; rewrite Et].
  destruct (on_cancelled_levels id t tr Hwf Et) as (ids & Eb & Hl). pose proof (qw_lists _ Hwf _ _ Eb) as [Hnd _].
  split.
  - intros i k. rewrite on_cancelled_orders. destruct (Hl k) as [-> _]. destruct (decide (i = id)) as [->|Hi].
    + rewrite lookup_delete_eq. split; [|by intros (x & [=] & _)]. intros (l & Hb & Hin). exfalso.
      destruct (decide (k = level_of tr)) as [->|Hk].
      * destruct (decide _); [done|]. injection Hb as <-. apply others_elem in Hin. tauto.
      * destruct (proj1 (qw_index _ Hwf id k)) as (x & Ex & Hx); [eauto|]. congruence.
    + rewrite lookup_delete_ne by done. rewrite <- (qw_index _ Hwf i k). destruct (decide (k = level_of tr)) as [->|Hk]; [|done].
      rewrite Eb. split.
      * intros (l & Hb & Hin). destruct (decide _); [done|]. injection Hb as <-. apply others_elem in Hin. naive_solver.
      * intros (l & [= <-] & Hin). assert (Ho : i ∈ others id ids) by (by apply others_elem).
        destruct (decide _) as [He|_]; [rewrite He in Ho; by apply elem_of_nil in Ho|by eexists].
  - intros k l. destruct (Hl k) as [-> _]. destruct (decide (k = level_of tr)) as [->|Hk]; [|apply (qw_lists _ Hwf)].
    destruct (decide _) as [He|He]; [done|]. intros [= <-]. split; [|done]. apply NoDup_ListNoDup, List.NoDup_filter. by apply NoDup_ListNoDup.
  - intros k. destruct (Hl k) as [-> ->]. pose proof (qw_last _ Hwf k) as Hk. destruct (decide (k = level_of tr)) as [->|Hne]; [|done].
    destruct (decide _); [done|]. rewrite <- Hk, Eb. split; eauto.
Qed.

(** The levels of the other orders keep their last quantity. *)
Lemma on_cancelled_last id t i tr : queue_wf t → i ≠ id → q_orders t !! i = Some tr →
  last_book_qty (on_order_cancelled id t) !! level_of tr = last_book_qty t !! level_of tr.
Proof.
  intros Hwf Hi Ei. destruct (q_orders t !! id) as [tr'|] eqn:Et; [|by unfold on_order_cancelled; rewrite Et].
  destruct (on_cancelled_levels id t tr' Hwf Et) as (ids & Eb & Hl). destruct (Hl (level_of tr)) as [_ ->].
  destruct (decide (level_of tr = level_of tr')) as [He|He]; [|done]. destruct (decide _) as [Hn|]; [|done]. exfalso.
  destruct (proj2 (qw_index _ Hwf i (level_of tr))) as (l & El & Hin); [eauto|]. rewrite He, Eb in El. injection El as <-.
  assert (Ho : i ∈ others id ids) by (by apply others_elem). rewrite Hn in Ho. by apply elem_of_nil in Ho.
Qed.

Lemma placed_follows t g id side price qty : follows t g → q_orders t !! id = None → placed_at t (symbol, side, price) qty →
  follows (on_order_placed id symbol side price qty t) (<[id := (side, price, qty, [])]> g).
Proof.
  intros [Hf Hn] Hid Hp. split.
  - intros i tr. destruct (decide (i = id)) as [->|Hi].
    + rewrite lookup_insert_eq. intros [= <-]. split; cbn; by rewrite lookup_insert_eq.
    + rewrite lookup_insert_ne by done. intros Hg. specialize (Hf i tr Hg). destruct tr as [[[sd px] q0] evs].
      destruct Hf as [H1 H2]. split; cbn; [by rewrite lookup_insert_ne|].
      destruct (decide ((symbol, side, price) = (symbol, sd, px))) as [He|He]; [|by rewrite lookup_insert_ne].
      rewrite He, lookup_insert_eq. rewrite He in Hp. destruct Hp as [Hp|Hp]; congruence.
  - intros i. destruct (decide (i = id)) as [->|Hi]; [by rewrite lookup_insert_eq|]. rewrite lookup_insert_ne by done.
    cbn. rewrite lookup_insert_ne by done. apply Hn.
Qed.

Lemma cancelled_follows t g id : queue_wf t → follows t g → follows (on_order_cancelled id t) (delete id g).
Proof.
  intros Hwf [Hf Hn]. split.
  - intros i tr Hg. apply lookup_delete_Some in Hg. destruct Hg as [Hi Hg]. specialize (Hf i tr Hg).
    destruct tr as [[[sd px] q0] evs]. destruct Hf as [H1 H2]. split; [by rewrite on_cancelled_orders, lookup_delete_ne|].
    rewrite <- H2. apply (on_cancelled_last id t i _ Hwf ltac:(done) H1).
  - intros i Hg. rewrite on_cancelled_orders. destruct (decide (i = id)) as [->|Hi]; [by rewrite lookup_delete_eq|].
    rewrite lookup_delete_ne in Hg by done. rewrite lookup_delete_ne by done. by apply Hn.
Qed.

Lemma trace_snoc q0 evs ev : trace_run q0 (evs ++ [ev]) = trace_step (trace_run q0 evs) ev.
Proof. unfold trace_run. by rewrite fold_left_app. Qed.

Lemma follows_step t g op : queue_wf t → follows t g → op_ok t op → follows (queue_step t op) (ghost_step g op).
Proof.
  intros Hwf Hfol Hok. pose proof Hfol as [Hf Hn].
  destruct op as [id side price qty|id price qty|id|id|price qty|side price new]; cbn [queue_step ghost_step op_ok] in *.
  - destruct Hok. by apply placed_follows.
  - unfold on_order_amended. destruct (g !! id) as [[[[sd px] q0] evs]|] eqn:Eg.
    + destruct (Hf _ _ Eg) as [H1 _]. rewrite H1. cbn [ot_symbol ot_side]. rewrite <- insert_delete_eq.
      apply placed_follows; [by apply cancelled_follows|by rewrite on_cancelled_orders, lookup_delete_eq|apply (Hok _ H1)].
    + by rewrite (Hn _ Eg).
  - by apply cancelled_follows.
  - unfold on_order_filled. destruct (g !! id) as [[[[sd px] q0] evs]|] eqn:Eg.
    + destruct (Hf _ _ Eg) as [H1 H2]. rewrite H1. cbn [snd]. split.
      * intros i tr. destruct (decide (i = id)) as [->|Hi].
        -- rewrite lookup_alter_eq, Eg. intros [= <-]. split; cbn [q_orders last_book_qty]; rewrite trace_snoc; [|exact H2].
           by rewrite lookup_alter_eq, H1.
        -- rewrite lookup_alter_ne by done. intros Hg. specialize (Hf i tr Hg). destruct tr as [[[sd' px'] q0'] evs'].
           destruct Hf. split; [|done]. cbn. by rewrite lookup_alter_ne.
      * intros i Hg. cbn. destruct (decide (i = id)) as [->|Hi]; [by rewrite lookup_alter_eq, Eg in Hg|].
        rewrite lookup_alter_ne in Hg by done. rewrite lookup_alter_ne by done. by apply Hn.
    + rewrite (Hn _ Eg). rewrite alter_id; [done|]. intros x Hx. congruence.
  - split.
    + intros i tr. rewrite lookup_fmap. destruct (g !! i) as [[[[sd px] q0] evs]|] eqn:Eg; [|done]. cbn. intros [= <-].
      destruct (Hf _ _ Eg) as [H1 H2]. pose proof (on_trade_lookup price qty t i Hwf) as Hi. rewrite H1 in Hi. cbn in Hi.
      rewrite bool_decide_eq_true_2 in Hi by done. cbn in Hi.
      destruct (bool_decide (px = price)); split; rewrite ?trace_snoc; [exact Hi|exact H2|exact Hi|exact H2].
    + intros i. rewrite lookup_fmap. destruct (g !! i) eqn:Eg; [done|]. intros _. by rewrite on_trade_lookup, (Hn _ Eg).
  - split.
    + intros i tr. rewrite lookup_fmap. destruct (g !! i) as [[[[sd px] q0] evs]|] eqn:Eg; [|done]. cbn. intros [= <-].
      destruct (Hf _ _ Eg) as [H1 H2]. destruct (bool_decide (sd = side) && bool_decide (px = price)) eqn:Ep.
      * apply andb_true_iff in Ep. rewrite !bool_decide_eq_true in Ep. destruct Ep as [-> ->].
        split; [rewrite on_depth_lookup, H1 by done; cbn|].
        -- unfold level_of. cbn. rewrite bool_decide_eq_true_2, H2, trace_snoc by done. done.
        -- rewrite trace_snoc. cbn. unfold on_depth_change. destruct (proj2 (qw_last _ Hwf (symbol, side, price))) as [ids Eb]; [eauto|].
           rewrite Eb. cbn. by rewrite lookup_insert_eq.
      * assert (Hne : (symbol, sd, px) ≠ (symbol, side, price)).
        { intros [= -> ->]. by rewrite !bool_decide_eq_true_2 in Ep. }
        split; [rewrite on_depth_lookup, H1 by done; cbn; unfold level_of; cbn; by rewrite bool_decide_eq_false_2|].
        rewrite <- H2. unfold on_depth_change. destruct (by_level t !! _); [|done]. cbn. by rewrite lookup_insert_ne.
    + intros i. rewrite lookup_fmap. destruct (g !! i) eqn:Eg; [done|]. intros _. by rewrite on_depth_lookup, (Hn _ Eg).
Qed.

Lemma reach_follows t g : queue_reach t g → queue_wf t ∧ follows t g.
Proof.
  induction 1 as [|t g op _ [Hwf Hf] Hok].
  - split; [split|split]; cbn.
    + intros id k. rewrite !lookup_empty. split; intros (x & [=] & _).
    + intros k ids. by rewrite lookup_empty.
    + intros k. by rewrite !lookup_empty.
    + intros id tr. by rewrite lookup_empty.
    + done.
  - split; [|by apply follows_step]. destruct op; cbn [queue_step op_ok] in *.
    + destruct Hok. by apply on_placed_wf.
    + unfold on_order_amended. destruct (q_orders t !! id) as [tr|] eqn:Et; [|done].
      destruct (g !! id) as [[[[sd px] q0] evs]|] eqn:Eg; [|by rewrite (proj2 Hf _ Eg) in Et].
      destruct (proj1 Hf _ _ Eg) as [H1 _]. rewrite Et in H1. injection H1 as ->. cbn [ot_symbol ot_side].
      apply on_placed_wf; [by apply on_cancelled_wf|by rewrite on_cancelled_orders, lookup_delete_eq].
    + by apply on_cancelled_wf.
    + by apply on_filled_wf.
    + by apply on_trade_wf.
    + by apply on_depth_wf.
Qed.

(** C24: whatever orders are placed, moved, cancelled and filled and whatever
    trades and depths arrive (a placement at a level that is tracked reports
    the quantity last seen there, [op_ok]), an order that was not filled, and
    whose level's arithmetic did not have to round ([trace_fits]), has its
    position computed from the events of its own level, never behind where it
    was placed and ahead of it by no more than what left the level since; so
    the gate of the paper fills, with or without the probabilistic filler,
    opens only when trades and departures have covered the whole queue that
    stood before the order. *)
Theorem paper_fill_after_queue {I : HashMapIter} filler b om t g id side price q0 evs (Hr : queue_reach t g)
    (Hg : g !! id = Some (side, price, q0, evs)) (Hq : (0 <= dval q0)%Q)
    (Hf : forallb (λ ev, negb (is_fill ev)) evs = true) (Hfit : trace_fits q0 evs) :
  (∃ pos, queue_pos_of id t = Some pos ∧
     (dval q0 - left_level q0 evs <= dval (front_q_qty pos) <= dval q0)%Q) ∧
  (is_Some (paper_gate filler b om t id) → (dval q0 <= left_level q0 evs)%Q).
Proof.
  destruct (reach_follows t g Hr) as [_ [Ho _]]. destruct (Ho _ _ Hg) as [H1 _]. pose proof (trace_bounds q0 evs Hq Hf Hfit) as Hb.
  assert (Hpos : queue_pos_of id t = Some (trace_run q0 evs).1) by (unfold queue_pos_of; by rewrite H1).
  unfold left_level. destruct (trace_run q0 evs) as [pos last]. destruct (fold_left left_step evs _) as [[l traded] gone].
  destruct Hb as (_ & _ & _ & _ & _ & Hb). cbn [fst snd] in *. split; [by exists pos|].
  unfold paper_gate. rewrite Hpos. destruct (dleb (front_q_qty pos) dec0) eqn:Ed; [|by intros [? ?]]. intros _.
  dec_to_Q. rewrite dec0_val in Ed. lra.
Qed.

(** *** Where the code departs from what it means *)

(** A trade through the price of an order does not advance it: with a queue
    ahead, the order stays unfilled although the market traded past it. *)
Lemma trade_through_ignored {I : HashMapIter} filler b om price qty t id tr : queue_wf t → q_orders t !! id = Some tr → ot_price tr ≠ price →
  (0 < dval (front_q_qty (queue_pos tr)))%Q → paper_gate filler b om (queue_on_trade symbol price qty t) id = None.
Proof.
  intros Hwf Et Hp Hq. unfold paper_gate, queue_pos_of. rewrite on_trade_lookup, Et by done. cbn.
  rewrite (bool_decide_eq_false_2 (ot_price tr = price)), andb_false_r by done.
  destruct (dleb (front_q_qty (queue_pos tr)) dec0) eqn:Ed; [|done]. dec_to_Q. rewrite dec0_val in Ed. lra.
Qed.

(** An order that was cancelled outside the refresh, by a kill level, a halt or
    a reconciliation, is in neither snapshot: its position stays for good. *)
Lemma outside_cancel_remains {I : HashMapIter} pre post qtys t id : pre !! id = None → post !! id = None →
  q_orders (queue_after_refresh symbol pre post qtys t) !! id = q_orders t !! id.
Proof.
  intros Hpre Hpost. unfold queue_after_refresh.
  assert (Hdel : ∀ l t, id ∉ l →
    q_orders (fold_left (λ t oid, match post !! oid with Some _ => t | None => on_order_cancelled oid t end) l t) !! id = q_orders t !! id).
  { intros l. induction l as [|i l IH]; intros t' Hni; [done|]. cbn [fold_left]. rewrite IH by set_solver.
    destruct (post !! i); [done|]. rewrite on_cancelled_orders, lookup_delete_ne by set_solver. done. }
  rewrite Hdel.
  - assert (Hadd : ∀ l t, id ∉ l.*1 → q_orders (fold_left (λ t e, let '(oid, (side, price)) := e in
        match pre !! oid with
        | None => on_order_placed oid symbol side price (default dec0 (qtys !! (side, price))) t
        | Some (_, old_price) => if decide (old_price = price) then t
                                 else on_order_amended oid price (default dec0 (qtys !! (side, price))) t
        end) l t) !! id = q_orders t !! id).
    { intros l. induction l as [|[i [sd px]] l IH]; intros t' Hni; [done|]. cbn [fold_left]. rewrite IH by set_solver.
      destruct (pre !! i) as [[? old]|]; [|by cbn; rewrite lookup_insert_ne by set_solver]. destruct (decide _); [done|].
      unfold on_order_amended. destruct (q_orders t' !! i); [|done]. cbn. rewrite lookup_insert_ne by set_solver.
      rewrite on_cancelled_orders, lookup_delete_ne by set_solver. done. }
    apply Hadd. intros Hin. apply list_elem_of_fmap in Hin. destruct Hin as ([i v] & -> & Hin). apply hm_iter_elem in Hin. cbn in *. congruence.
  - intros Hin. unfold hm_keys in Hin. apply list_elem_of_fmap in Hin. destruct Hin as ([i v] & -> & Hin).
    apply hm_iter_elem in Hin. cbn in *. congruence.
Qed.
End Tracker.
End QueueFacts.

(** ** On concrete inputs *)
Section Demo.
Local Existing Instance Qc_decimal.
Local Existing Instance sec_clock.

#[export] Instance half_prob : QueueProb.
Proof.
  refine {| queue_prob _ _ := Some (dlit 5 1) |}. intros front back p [= <-]. split; vm_compute; discriminate.
Defined.

Definition queue_ops : list QueueOp :=
  [QPlaced 1%N Buy (dlit 100 0) (dlit 5 0); QTrade (dlit 100 0) (dlit 3 0); QDepth Buy (dlit 100 0) (dlit 1 0);
   QTrade (dlit 101 0) (dlit 9 0); QTrade (dlit 100 0) (dlit 1 0)].

Definition queue_demo : QueueTracker := fold_left (queue_step "BTCUSDT") queue_ops tracker_new.
Definition traces_demo : gmap OrderId Trace := fold_left ghost_step queue_ops ∅.

Definition queue_om : OrderManager :=
  mkOrderManager {[1%N := mkLiveOrder 1%N "BTCUSDT" Buy (dlit 100 0) (dlit 2 0) (dlit 0 0) Open 0%Z]} ∅ true None.
End Demo.

(** The filler draws luck and no slippage for every candidate. *)
Definition lucky_filler : ProbabilisticFiller (D := Qc_decimal) := mkFiller (λ _, true) (λ _, false) (dlit 1 0).
Definition queue_book : LocalOrderBook (D := Qc_decimal) :=
  mkLocalOrderBook "BTCUSDT" {[dlit 99 0 := dlit 2 0]} {[dlit 100 0 := dlit 1 0]} 0 0.

Lemma paper_fill_after_queue_witness :
  let q0 : dec (Decimal := Qc_decimal) := dlit 5 0 in
  let evs := [LTrade (dlit 3 0); LDepth (dlit 1 0); LTrade (dlit 1 0)] in
  bool_decide (is_Some (paper_gate (Some lucky_filler) queue_book queue_om queue_demo 1%N)) = true ∧ (dval q0 <= left_level q0 evs)%Q.
Proof.
  intros q0 evs. assert (Hg : is_Some (paper_gate (Some lucky_filler) queue_book queue_om queue_demo 1%N)) by (vm_compute; eauto).
  split; [by apply bool_decide_eq_true_2|].
  assert (Hr : queue_reach (D := Qc_decimal) (P := half_prob) "BTCUSDT" queue_demo traces_demo).
  { unfold queue_demo, traces_demo, queue_ops. cbn [fold_left].
    do 5 (apply queue_next; [|vm_compute; auto]). apply queue_start. }
  assert (Hfit : trace_fits (P := half_prob) q0 evs).
  { repeat split; match goal with |- fits ?q => let z := eval vm_compute in (Qnum (Qred (q * 10)%Q)) in exists z, 1%nat end;
      (split; [vm_compute; reflexivity|split; [lia|vm_compute; reflexivity]]). }
  exact (proj2 (paper_fill_after_queue (D := Qc_decimal) (P := half_prob) "BTCUSDT" (Some lucky_filler) queue_book queue_om queue_demo traces_demo
    1%N Buy (dlit 100 0) q0 evs Hr ltac:(vm_compute; reflexivity) ltac:(vm_compute; discriminate) ltac:(reflexivity) Hfit) Hg).
Defined.
