(* ===== verification/Pnl.v ===== *)
(** * Profit attribution ([crates/risk/src/pnl.rs])

    The engine's breakdown of its profit: what the fills captured against the
    mid, the inventory's mark to market, fees and rebates, funding and the cost
    of loans. Instants and durations are nanoseconds. The theorem says what the
    sum of the parts is: the cash flow with the position at the last mark, plus
    every fill's quantity at the drift of the mid since the last mark. *)
From stdpp Require Import base list.
From Stdlib Require Import ZArith QArith Lqa Lia.
From S2P Require Import Prelude Decimal Types Inventory Unwind.
Local Open Scope nat_scope.

Section Pnl.
Context {D : Decimal} {C : Clock}.

Record PnlAttribution := mkAttribution {
  spread_pnl : dec;
  inventory_pnl : dec;
  rebate_income : dec;
  fees_paid : dec;
  loan_cost_amortized : dec;
  funding_pnl_realised : dec;
  funding_pnl_mtm : dec;
  round_trips : Z;
  fill_count : Z;
  total_volume : dec;
}.

Definition attribution_default : PnlAttribution :=
  mkAttribution dec0 dec0 dec0 dec0 dec0 dec0 dec0 0 0 dec0.

Definition attribution_total (a : PnlAttribution) : dec :=
  dsub (dsub (dadd (dadd (dadd (spread_pnl a) (inventory_pnl a)) (rebate_income a)) (funding_pnl_realised a))
    (fees_paid a)) (loan_cost_amortized a).

Definition pnl_per_volume (a : PnlAttribution) : dec :=
  if is_zero (total_volume a) then dec0 else ddiv (attribution_total a) (total_volume a).

Record PnlTracker := mkPnlTracker {
  attribution : PnlAttribution;
  last_mid : dec;
  pnl_inventory : dec;
  pt_maker_fee : dec;
  pt_taker_fee : dec;
  loan_daily_cost : dec;
  funding_rate : option dec;
  next_funding_time : option Z;
  period_start : option Z;
  funding_interval : option Z;
}.

Definition pnl_new (maker taker : dec) : PnlTracker :=
  mkPnlTracker attribution_default dec0 dec0 maker taker dec0 None None None None.

Definition with_attribution (a : PnlAttribution) (t : PnlTracker) : PnlTracker :=
  mkPnlTracker a (last_mid t) (pnl_inventory t) (pt_maker_fee t) (pt_taker_fee t) (loan_daily_cost t)
    (funding_rate t) (next_funding_time t) (period_start t) (funding_interval t).
Definition with_inventory (q : dec) (t : PnlTracker) : PnlTracker :=
  mkPnlTracker (attribution t) (last_mid t) q (pt_maker_fee t) (pt_taker_fee t) (loan_daily_cost t)
    (funding_rate t) (next_funding_time t) (period_start t) (funding_interval t).
Definition with_mid (m : dec) (t : PnlTracker) : PnlTracker :=
  mkPnlTracker (attribution t) m (pnl_inventory t) (pt_maker_fee t) (pt_taker_fee t) (loan_daily_cost t)
    (funding_rate t) (next_funding_time t) (period_start t) (funding_interval t).
Definition with_period (next start : option Z) (t : PnlTracker) : PnlTracker :=
  mkPnlTracker (attribution t) (last_mid t) (pnl_inventory t) (pt_maker_fee t) (pt_taker_fee t) (loan_daily_cost t)
    (funding_rate t) next start (funding_interval t).

Definition set_fee_rates (maker taker : dec) (t : PnlTracker) : PnlTracker :=
  mkPnlTracker (attribution t) (last_mid t) (pnl_inventory t) maker taker (loan_daily_cost t)
    (funding_rate t) (next_funding_time t) (period_start t) (funding_interval t).

(** What a fill captures against the mid. *)
Definition spread_capture (f : Fill) (mid : dec) : dec :=
  match f_side f with
  | Buy => dmul (dsub mid (f_price f)) (f_qty f)
  | Sell => dmul (dsub (f_price f) mid) (f_qty f)
  end.

(** The rebates and the fees after a fill of a value. *)
Definition charge_fee (maker_rate taker_rate : dec) (f : Fill) (value : dec) (rebates fees : dec) : dec * dec :=
  if f_is_maker f then
    let fee := dmul value maker_rate in
    if dltb fee dec0 then (dadd rebates (dabs fee), fees) else (rebates, dadd fees fee)
  else (rebates, dadd fees (dmul value taker_rate)).

Definition pnl_on_fill (f : Fill) (mid : dec) (t : PnlTracker) : PnlTracker :=
  let a := attribution t in
  let value := dmul (f_price f) (f_qty f) in
  let '(rebates, fees) := charge_fee (pt_maker_fee t) (pt_taker_fee t) f value (rebate_income a) (fees_paid a) in
  let inv := match f_side f with
             | Buy => dadd (pnl_inventory t) (f_qty f)
             | Sell => dsub (pnl_inventory t) (f_qty f)
             end in
  let trips :=
    if (is_zero inv || (dltb dec0 inv && bool_decide (f_side f = Sell)) || (dltb inv dec0 && bool_decide (f_side f = Buy)))
       && is_zero inv
    then wrap_u64 (round_trips a + 1) else round_trips a in
  with_inventory inv (with_attribution
    (mkAttribution (dadd (spread_pnl a) (spread_capture f mid)) (inventory_pnl a) rebates fees
      (loan_cost_amortized a) (funding_pnl_realised a) (funding_pnl_mtm a) trips
      (wrap_u64 (fill_count a + 1)) (dadd (total_volume a) value)) t).

Definition add_inventory_pnl (delta : dec) (a : PnlAttribution) : PnlAttribution :=
  mkAttribution (spread_pnl a) (dadd (inventory_pnl a) delta) (rebate_income a) (fees_paid a)
    (loan_cost_amortized a) (funding_pnl_realised a) (funding_pnl_mtm a) (round_trips a) (fill_count a) (total_volume a).

Definition mark_to_market (mid : dec) (t : PnlTracker) : PnlTracker :=
  with_mid mid
    (if negb (is_zero (last_mid t)) && negb (is_zero (pnl_inventory t))
     then with_attribution (add_inventory_pnl (dmul (pnl_inventory t) (dsub mid (last_mid t))) (attribution t)) t
     else t).

Definition set_loan_daily_cost (daily : dec) (t : PnlTracker) : PnlTracker :=
  mkPnlTracker (attribution t) (last_mid t) (pnl_inventory t) (pt_maker_fee t) (pt_taker_fee t) daily
    (funding_rate t) (next_funding_time t) (period_start t) (funding_interval t).

Definition amortize_loan_cost (elapsed_days : dec) (t : PnlTracker) : PnlTracker :=
  let a := attribution t in
  with_attribution
    (mkAttribution (spread_pnl a) (inventory_pnl a) (rebate_income a) (fees_paid a)
      (dadd (loan_cost_amortized a) (dmul (loan_daily_cost t) elapsed_days)) (funding_pnl_realised a)
      (funding_pnl_mtm a) (round_trips a) (fill_count a) (total_volume a)) t.

Definition on_funding_update (rate : dec) (next interval : Z) (t : PnlTracker) : PnlTracker :=
  let t := mkPnlTracker (attribution t) (last_mid t) (pnl_inventory t) (pt_maker_fee t) (pt_taker_fee t)
    (loan_daily_cost t) (Some rate) (next_funding_time t) (period_start t) (Some interval) in
  match next_funding_time t with
  | None => with_period (Some next) (Some (next - interval)%Z) t
  | Some prev => if (prev <? next)%Z then with_period (Some next) (Some (next - interval)%Z) t else t
  end.

Definition set_mtm (x : dec) (a : PnlAttribution) : PnlAttribution :=
  mkAttribution (spread_pnl a) (inventory_pnl a) (rebate_income a) (fees_paid a) (loan_cost_amortized a)
    (funding_pnl_realised a) x (round_trips a) (fill_count a) (total_volume a).

(** The seconds of the funding period gone at [now]. *)
Definition elapsed_secs (now next interval : Z) : Z :=
  let period := Z.max (num_seconds interval) 1 in
  (period - Z.min (Z.max (num_seconds (next - now)) 0) period)%Z.

Definition accrue_funding_mtm (now : Z) (mark : dec) (t : PnlTracker) : PnlTracker :=
  with_attribution (set_mtm
    (match funding_rate t, next_funding_time t, period_start t, funding_interval t with
     | Some rate, Some next, Some _, Some interval =>
         if is_zero (pnl_inventory t) then dec0
         else
           let fraction := ddiv (dlit (elapsed_secs now next interval) 0) (dlit (Z.max (num_seconds interval) 1) 0) in
           dmul (dmul (dmul (dneg (pnl_inventory t)) mark) rate) fraction
     | _, _, _, _ => dec0
     end) (attribution t)) t.

Definition settle_funding (now : Z) (mark : dec) (t : PnlTracker) : option dec * PnlTracker :=
  match funding_rate t, next_funding_time t, funding_interval t with
  | Some rate, Some next, Some interval =>
      if (now <? next)%Z then (None, t)
      else
        let delta := dmul (dmul (dneg (pnl_inventory t)) mark) rate in
        let a := attribution t in
        (Some delta,
         with_period (Some (next + interval)%Z) (Some next) (with_attribution
           (mkAttribution (spread_pnl a) (inventory_pnl a) (rebate_income a) (fees_paid a) (loan_cost_amortized a)
             (dadd (funding_pnl_realised a) delta) dec0 (round_trips a) (fill_count a) (total_volume a)) t))
  | _, _, _ => (None, t)
  end.

Definition set_inventory_for_funding (q : dec) (t : PnlTracker) : PnlTracker := with_inventory q t.

(** ** Runs *)
Inductive PnlEvent :=
| PFill (f : Fill) (mid : dec)
| PMark (mid : dec)
| PAmortize (days : dec)
| PFundingUpdate (rate : dec) (next interval : Z)
| PAccrue (now : Z) (mark : dec)
| PSettle (now : Z) (mark : dec)
| PFees (maker taker : dec).

Definition pnl_step (t : PnlTracker) (e : PnlEvent) : PnlTracker :=
  match e with
  | PFill f mid => pnl_on_fill f mid t
  | PMark mid => mark_to_market mid t
  | PAmortize days => amortize_loan_cost days t
  | PFundingUpdate rate next interval => on_funding_update rate next interval t
  | PAccrue now mark => accrue_funding_mtm now mark t
  | PSettle now mark => (settle_funding now mark t).2
  | PFees maker taker => set_fee_rates maker taker t
  end.

Definition pnl_run (es : list PnlEvent) (t : PnlTracker) : PnlTracker := fold_left pnl_step es t.
End Pnl.

(** ** What the parts add up to *)
Section Identity.
Context {D : Decimal} {C : Clock} {E : DecimalExact D}.

(** The fee of a fill at the rates in force: negative for a rebate. *)
Definition fee_of (f : Fill) (t : PnlTracker) : Q :=
  (dval (f_price f) * dval (f_qty f) * dval (if f_is_maker f then pt_maker_fee t else pt_taker_fee t))%Q.

(** The money an event moves: the cash of a fill less its fee, the cost of a
    loan, the funding booked. *)
Definition money (t : PnlTracker) (e : PnlEvent) : Q :=
  match e with
  | PFill f _ => - signed f * dval (f_price f) - fee_of f t
  | PAmortize days => - (dval (loan_daily_cost t) * dval days)
  | PSettle now mark => from_option dval 0 (settle_funding now mark t).1
  | _ => 0
  end%Q.

(** The position at the last mark. *)
Definition worth (t : PnlTracker) : Q := (dval (pnl_inventory t) * dval (last_mid t))%Q.

(** What the attribution adds to them: a fill's quantity at the distance
    between the mid it is compared with and the mark the position stands at. *)
Definition drift (t : PnlTracker) (e : PnlEvent) : Q :=
  match e with
  | PFill f mid => signed f * (dval mid - dval (last_mid t))
  | _ => 0
  end%Q.

Fixpoint total_of (g : PnlTracker → PnlEvent → Q) (es : list PnlEvent) (t : PnlTracker) : Q :=
  match es with
  | [] => 0%Q
  | e :: es => (g t e + total_of g es (pnl_step t e))%Q
  end.

Lemma spread_capture_val f mid :
  (dval (spread_capture f mid) == signed f * (dval mid - dval (f_price f)))%Q.
Proof. unfold spread_capture, signed. destruct (f_side f); rewrite dmul_exact, dsub_exact; lra. Qed.

Lemma charge_fee_val mr tr f v r p :
  let rate := if f_is_maker f then mr else tr in
  let x := charge_fee mr tr f v r p in
  (dval x.1 - dval x.2 == dval r - dval p - dval v * dval rate)%Q.
Proof.
  intros rate x. unfold x, charge_fee, rate. destruct (f_is_maker f); [|cbn; rewrite dadd_exact, dmul_exact; lra].
  destruct (dltb _ _) eqn:El; cbn [fst snd].
  - apply dltb_0_r in El. rewrite dadd_exact, dabs_nonpos by lra. rewrite dmul_exact. lra.
  - rewrite dadd_exact, dmul_exact. lra.
Qed.

Definition total_val (t : PnlTracker) : Q := dval (attribution_total (attribution t)).

Lemma attribution_total_val a : (dval (attribution_total a) ==
  dval (spread_pnl a) + dval (inventory_pnl a) + (dval (rebate_income a) - dval (fees_paid a))
  + dval (funding_pnl_realised a) - dval (loan_cost_amortized a))%Q.
Proof. unfold attribution_total. rewrite !dsub_exact, !dadd_exact. lra. Qed.

Definition marked (t : PnlTracker) : Prop := ¬ (dval (last_mid t) == 0)%Q.
Definition mark_ok (e : PnlEvent) : Prop := match e with PMark mid => ¬ (dval mid == 0)%Q | _ => True end.

Lemma step_marked t e : marked t → mark_ok e → marked (pnl_step t e).
Proof.
  unfold marked. destruct e; cbn [pnl_step mark_ok]; intros Ht He; try done.
  - unfold pnl_on_fill. by destruct (charge_fee _ _ _ _ _ _).
  - unfold on_funding_update. destruct (next_funding_time _); [by destruct (_ <? _)%Z|done].
  - unfold settle_funding. destruct (funding_rate t), (next_funding_time t), (funding_interval t); try done.
    by destruct (_ <? _)%Z.
Qed.

Lemma step_total t e : marked t →
  (total_val (pnl_step t e) - worth (pnl_step t e) == total_val t - worth t + money t e + drift t e)%Q.
Proof.
  unfold marked, total_val, worth. intros Hm. rewrite !attribution_total_val.
  destruct e as [f mid|mid|days|rate next iv|now mark|now mark|mk tk]; cbn [pnl_step money drift].
  - unfold pnl_on_fill, fee_of.
    pose proof (charge_fee_val (pt_maker_fee t) (pt_taker_fee t) f (dmul (f_price f) (f_qty f))
      (rebate_income (attribution t)) (fees_paid (attribution t))) as Hc. cbv zeta in Hc.
    destruct (charge_fee _ _ _ _ _ _) as [r p]. cbn in *. rewrite dmul_exact in Hc.
    rewrite dadd_exact, spread_capture_val. unfold signed.
    destruct (f_side f); rewrite ?dadd_exact, ?dsub_exact; lra.
  - unfold mark_to_market. rewrite (proj2 (is_zero_false _) Hm). cbn [negb andb].
    destruct (is_zero (pnl_inventory t)) eqn:Ez; cbn.
    + apply is_zero_val in Ez. rewrite Ez. lra.
    + rewrite dadd_exact, dmul_exact, dsub_exact. lra.
  - cbn. rewrite dadd_exact, dmul_exact. lra.
  - unfold on_funding_update. destruct (next_funding_time _); [destruct (_ <? _)%Z|]; cbn; lra.
  - cbn. lra.
  - unfold settle_funding. destruct (funding_rate t), (next_funding_time t), (funding_interval t); cbn; try lra.
    destruct (_ <? _)%Z; cbn; rewrite ?dadd_exact; lra.
  - cbn. lra.
Qed.

Lemma run_total es : ∀ t, marked t → Forall mark_ok es →
  (total_val (pnl_run es t) - worth (pnl_run es t) ==
    total_val t - worth t + total_of money es t + total_of drift es t)%Q.
Proof.
  induction es as [|e es IH]; intros t Hm Hes; [cbn; lra|].
  apply Forall_cons in Hes as [He Hes]. cbn [pnl_run fold_left total_of].
  fold (pnl_run es (pnl_step t e)). rewrite IH, step_total by (done || by apply step_marked). lra.
Qed.

Definition fills_of (es : list PnlEvent) : list Fill :=
  omap (λ e, match e with PFill f _ => Some f | _ => None end) es.

Lemma fills_of_app es fs : fills_of (es ++ fs) = fills_of es ++ fills_of fs.
Proof. apply omap_app. Qed.

Lemma step_inventory t e : (dval (pnl_inventory (pnl_step t e)) ==
  dval (pnl_inventory t) + base_flow (fills_of [e]))%Q.
Proof.
  destruct e; cbn; try lra.
  - unfold pnl_on_fill, signed. destruct (charge_fee _ _ _ _ _ _). cbn.
    destruct (f_side f); rewrite ?dadd_exact, ?dsub_exact; lra.
  - unfold mark_to_market. destruct (_ && _); cbn; lra.
  - unfold on_funding_update. destruct (next_funding_time _); [destruct (_ <? _)%Z|]; cbn; lra.
  - unfold settle_funding. destruct (funding_rate t), (next_funding_time t), (funding_interval t); cbn; try lra.
    destruct (_ <? _)%Z; cbn; lra.
Qed.

Lemma base_flow_app fs gs : (base_flow (fs ++ gs) == base_flow fs + base_flow gs)%Q.
Proof.
  unfold base_flow. induction fs as [|f fs IH]; cbn [foldr app]; [lra|]. rewrite IH. lra.
Qed.

Lemma run_inventory es : ∀ t, (dval (pnl_inventory (pnl_run es t)) ==
  dval (pnl_inventory t) + base_flow (fills_of es))%Q.
Proof.
  induction es as [|e es IH]; intros t; [cbn; lra|].
  cbn [pnl_run fold_left]. fold (pnl_run es (pnl_step t e)). rewrite IH, step_inventory.
  change (e :: es) with ([e] ++ es). rewrite fills_of_app, base_flow_app. lra.
Qed.

Lemma fresh_tracker mid mk tk : mark_to_market mid (pnl_new mk tk) = with_mid mid (pnl_new mk tk).
Proof. unfold mark_to_market, pnl_new. cbn. by rewrite (proj2 (is_zero_val dec0) dec0_val). Qed.

Lemma fresh_worth mid mk tk :
  (total_val (mark_to_market mid (pnl_new mk tk)) - worth (mark_to_market mid (pnl_new mk tk)) == 0)%Q.
Proof. rewrite fresh_tracker. unfold total_val, worth. rewrite attribution_total_val. cbn. rewrite dec0_val. ring. Qed.

(** Every fill is compared with the mark the position stands at. *)
Fixpoint fresh_mids (es : list PnlEvent) (t : PnlTracker) : Prop :=
  match es with
  | [] => True
  | e :: es => (match e with PFill _ mid => dval mid == dval (last_mid t) | _ => True end)%Q ∧
      fresh_mids es (pnl_step t e)
  end.

Lemma fresh_no_drift es : ∀ t, fresh_mids es t → (total_of drift es t == 0)%Q.
Proof.
  induction es as [|e es IH]; intros t H; [done|]. destruct H as [He H]. cbn [total_of]. rewrite IH by done.
  destruct e; cbn; try lra. rewrite He. lra.
Qed.

(** In exact arithmetic, from a first mark on, the attribution adds up to
    the money that moved (the cash of the fills less fees net of rebates, the
    funding booked, less the loan cost) plus the position at the last mark,
    plus an error: each fill's signed quantity at the distance between the mid
    of the fill and the mark before it. The position is the base bought less
    the base sold. So the total is the engine's profit when every fill sees the
    mid that was last marked, and exactly that error off when not. *)
Theorem attribution_is_cash_flow es mk tk mid0 (Hmid : ¬ (dval mid0 == 0)%Q) (Hmarks : Forall mark_ok es) :
  let t0 := mark_to_market mid0 (pnl_new mk tk) in
  let t := pnl_run es t0 in
  (dval (pnl_inventory t) == base_flow (fills_of es))%Q ∧
  (dval (attribution_total (attribution t)) ==
    total_of money es t0 + base_flow (fills_of es) * dval (last_mid t) + total_of drift es t0)%Q ∧
  (fresh_mids es t0 → total_of drift es t0 == 0)%Q.
Proof.
  intros t0 t. pose proof (run_inventory es t0) as Hi. fold t in Hi.
  assert (Ht0 : t0 = with_mid mid0 (pnl_new mk tk)) by apply fresh_tracker.
  rewrite Ht0 in Hi at 1. cbn in Hi. rewrite dec0_val in Hi.
  assert (Hi' : (dval (pnl_inventory t) == base_flow (fills_of es))%Q) by lra.
  split; [done|]. split; [|apply fresh_no_drift].
  pose proof (run_total es t0 ltac:(by rewrite Ht0) Hmarks) as H. fold t in H.
  pose proof (fresh_worth mid0 mk tk) as H0. fold t0 in H0.
  unfold total_val, worth in *. rewrite Hi' in H. lra.
Qed.

(** ** Funding *)
Lemma elapsed_bounds now next interval :
  (0 ≤ elapsed_secs now next interval ≤ Z.max (num_seconds interval) 1)%Z.
Proof. unfold elapsed_secs. lia. Qed.

(** At the settlement instant the estimate is the amount the settlement books. *)
Lemma mtm_meets_settlement now mark t rate next start interval delta t' :
  funding_rate t = Some rate → next_funding_time t = Some next → period_start t = Some start →
  funding_interval t = Some interval → (Z.max (num_seconds interval) 1 < 2 ^ 96)%Z →
  settle_funding now mark t = (Some delta, t') →
  (dval (funding_pnl_mtm (attribution (accrue_funding_mtm now mark t))) == dval delta)%Q.
Proof.
  intros Hr Hn Hs Hi Hb. unfold settle_funding, accrue_funding_mtm. rewrite Hr, Hn, Hs, Hi.
  destruct (now <? next)%Z eqn:El; intros [= <- <-]. cbn. apply Z.ltb_ge in El.
  assert (Hel : elapsed_secs now next interval = Z.max (num_seconds interval) 1).
  { unfold elapsed_secs. enough (num_seconds (next - now) ≤ 0)%Z by lia.
    unfold num_seconds. apply Z.quot_le_upper_bound; lia. }
  rewrite Hel. destruct (is_zero (pnl_inventory t)) eqn:Ez.
  - apply is_zero_val in Ez. rewrite !dmul_exact, dneg_val, Ez, dec0_val. lra.
  - assert (Hd : (dval (dlit (Z.max (num_seconds interval) 1) 0) == inject_Z (Z.max (num_seconds interval) 1))%Q)
      by (apply dlit_int; lia).
    assert (Hnz : ¬ (inject_Z (Z.max (num_seconds interval) 1) == 0)%Q)
      by (unfold inject_Z, Qeq; cbn; lia).
    rewrite !dmul_exact, ddiv_exact by (by rewrite Hd). rewrite Hd. field. done.
Qed.

(** A settlement moves the next one by the interval, so a period is booked once. *)
Lemma settles_once now mark t delta t' interval : settle_funding now mark t = (Some delta, t') →
  funding_interval t = Some interval → ∀ now' mark', (∃ next, next_funding_time t = Some next ∧
    (now' < next + interval)%Z) → (settle_funding now' mark' t').1 = None.
Proof.
  unfold settle_funding. intros H Hi now' mark' (next & Hn & Hl). rewrite Hn, Hi in H.
  destruct (funding_rate t) as [rate|] eqn:Er; [|done]. destruct (now <? next)%Z; [done|].
  injection H as <- <-. cbn. rewrite Er, Hi. by apply Z.ltb_lt in Hl as ->.
Qed.
End Identity.

(** ** Witnesses *)
Definition demo_pnl : list (PnlEvent (D := Qc_decimal)) :=
  [PFill (demo_fill Buy 99 2) (dlit 100 0); PMark (dlit 104 0);
   PFill (demo_fill Sell 105 2) (dlit 104 0); PMark (dlit 104 0)].

Lemma attribution_is_cash_flow_witness :
  (dval (attribution_total (attribution (pnl_run demo_pnl (mark_to_market (dlit 100 0) (pnl_new dec0 dec0))))) == 12)%Q.
Proof.
  destruct (attribution_is_cash_flow demo_pnl dec0 dec0 (dlit 100 0)) as (_ & H & _).
  - vm_compute. congruence.
  - repeat constructor; vm_compute; congruence.
  - rewrite H. vm_compute. reflexivity.
Defined.

(** The mid moves from 100 to 110 between two marks and a fill buys at the new
    mid: nothing is gained, and the next mark books a profit of 10. *)
Example stale_mark_invents_profit :
  let t := pnl_run [PFill (demo_fill Buy 110 1) (dlit 110 0); PMark (dlit 110 0)]
             (mark_to_market (dlit 100 0) (pnl_new dec0 dec0)) in
  (dval (attribution_total (attribution t)) == 10)%Q ∧
  (dval (total_pnl (on_fills [demo_fill Buy 110 1] inventory_new) (dlit 110 0)) == 0)%Q.
Proof. split; vm_compute; reflexivity. Qed.
