(* ===== verification/Portfolio.v ===== *)
(** * The multi-currency portfolio ([crates/portfolio/src])

    Positions by symbol with their average entry and realised profit, the
    snapshot in the reporting currency, the profit per strategy and the deltas
    per asset ([lib.rs]), and the inventory of every venue's leg
    ([cross_venue.rs]). The theorem ties the snapshot to the fills: the equity
    is the cash flow plus the positions at their marks. *)
From stdpp Require Import base gmap list strings sorting.
From Stdlib Require Import ZArith QArith Qabs Qminmax Lqa Lia.
From S2P Require Import Prelude Decimal Types.
Local Open Scope nat_scope.

(** ** Sums over a map *)
Section MapSum.
Context {K A : Type} `{Countable K}.

Definition msum (f : K → A → Q) (m : gmap K A) : Q := qsum ((λ kv, f kv.1 kv.2) <$> map_to_list m).

Lemma msum_empty f : msum f ∅ = 0%Q.
Proof. unfold msum. by rewrite map_to_list_empty. Qed.

Lemma msum_delete f m k a : m !! k = Some a → (msum f m == f k a + msum f (delete k m))%Q.
Proof.
  intros Hk. unfold msum. pose proof (map_to_list_delete m k a Hk) as Hp.
  by rewrite <- (qsum_perm _ _ (fmap_Permutation (λ kv : K * A, f kv.1 kv.2) _ _ Hp)).
Qed.

Lemma msum_insert f m k a :
  (msum f (<[k := a]> m) == msum f m + f k a - from_option (f k) 0 (m !! k))%Q.
Proof.
  rewrite (msum_delete f _ k a) by apply lookup_insert_eq. rewrite delete_insert_eq.
  destruct (m !! k) as [b|] eqn:Ek; cbn.
  - rewrite (msum_delete f m k b) by done. lra.
  - rewrite delete_id by done. lra.
Qed.

Lemma msum_ext f g m : (∀ k a, m !! k = Some a → (f k a == g k a)%Q) → (msum f m == msum g m)%Q.
Proof.
  intros Hfg. unfold msum.
  assert (Hl : ∀ kv, kv ∈ map_to_list m → (f kv.1 kv.2 == g kv.1 kv.2)%Q)
    by (intros [k a] Hkv%elem_of_map_to_list; by apply Hfg).
  induction (map_to_list m) as [|kv l IH]; cbn; [done|]. rewrite Hl, IH by set_solver. done.
Qed.

Lemma msum_iter {I : HashMapIter} f m : (qsum ((λ kv, f kv.1 kv.2) <$> hm_iter m) == msum f m)%Q.
Proof. apply qsum_perm, fmap_Permutation, hm_iter_perm. Qed.
End MapSum.

Section Portfolio.
Context {D : Decimal} {I : HashMapIter}.

Record Position := mkPosition { pos_qty : dec; avg_entry : dec; realised_pnl_native : dec }.

Definition position_default : Position := mkPosition dec0 dec0 dec0.

Definition apply_fill (fill_qty fill_price : dec) (p : Position) : Position :=
  let q := pos_qty p in
  let new_qty := dadd q fill_qty in
  let same_sign := negb (is_zero q) && Bool.eqb (dltb dec0 q) (dltb dec0 fill_qty) in
  let '(avg, realised) :=
    if is_zero q || same_sign then
      let total_cost := dadd (dmul (avg_entry p) (dabs q)) (dmul fill_price (dabs fill_qty)) in
      let total_qty := dadd (dabs q) (dabs fill_qty) in
      (if dltb dec0 total_qty then ddiv total_cost total_qty else dec0, realised_pnl_native p)
    else
      let closed := dmin (dabs fill_qty) (dabs q) in
      let direction := if dltb dec0 q then dec1 else dneg dec1 in
      let pnl := dmul (dmul direction (dsub fill_price (avg_entry p))) closed in
      (if dltb (dabs q) (dabs fill_qty) then fill_price else avg_entry p, dadd (realised_pnl_native p) pnl) in
  mkPosition new_qty (if is_zero new_qty then dec0 else avg) realised.

Record AttributionSnap := mkAttributionSnap {
  as_spread_pnl : dec;
  as_inventory_pnl : dec;
  as_rebate_income : dec;
  as_fees_paid : dec;
  as_funding_pnl_realised : dec;
  as_loan_cost_amortized : dec;
}.

Definition attribution_snap_default : AttributionSnap := mkAttributionSnap dec0 dec0 dec0 dec0 dec0 dec0.

Definition attribution_snap_total (a : AttributionSnap) : dec :=
  dsub (dsub (dadd (dadd (dadd (as_spread_pnl a) (as_inventory_pnl a)) (as_rebate_income a)) (as_funding_pnl_realised a))
    (as_fees_paid a)) (as_loan_cost_amortized a).

Definition snap_add (t s : AttributionSnap) : AttributionSnap :=
  mkAttributionSnap (dadd (as_spread_pnl t) (as_spread_pnl s)) (dadd (as_inventory_pnl t) (as_inventory_pnl s))
    (dadd (as_rebate_income t) (as_rebate_income s)) (dadd (as_fees_paid t) (as_fees_paid s))
    (dadd (as_funding_pnl_realised t) (as_funding_pnl_realised s))
    (dadd (as_loan_cost_amortized t) (as_loan_cost_amortized s)).

Record Portfolio := mkPortfolio {
  reporting_currency : string;
  positions : gmap string Position;
  marks_native : gmap string dec;
  fx_to_reporting : gmap string dec;
  symbol_assets : gmap string (string * string);
  per_strategy_pnl : gmap string dec;
  attribution_by_symbol : gmap string AttributionSnap;
  dust_threshold : dec;
}.

Definition portfolio_new (currency : string) : Portfolio :=
  mkPortfolio currency ∅ ∅ ∅ ∅ ∅ ∅ (dlit 1 8).

Definition with_positions (ps : gmap string Position) (st : gmap string dec) (pf : Portfolio) : Portfolio :=
  mkPortfolio (reporting_currency pf) ps (marks_native pf) (fx_to_reporting pf) (symbol_assets pf) st
    (attribution_by_symbol pf) (dust_threshold pf).

Definition record_attribution (symbol : string) (snap : AttributionSnap) (pf : Portfolio) : Portfolio :=
  mkPortfolio (reporting_currency pf) (positions pf) (marks_native pf) (fx_to_reporting pf) (symbol_assets pf)
    (per_strategy_pnl pf) (<[symbol := snap]> (attribution_by_symbol pf)) (dust_threshold pf).

Definition consolidated_attribution (pf : Portfolio) : AttributionSnap :=
  fold_left snap_add (hm_values (attribution_by_symbol pf)) attribution_snap_default.

Definition asset_of (pf : Portfolio) (symbol : string) : string :=
  from_option fst "unknown" (symbol_assets pf !! symbol).

Definition attribution_by_asset (pf : Portfolio) : gmap string AttributionSnap :=
  fold_left (λ out kv,
    let key := asset_of pf kv.1 in
    <[key := snap_add (default attribution_snap_default (out !! key)) kv.2]> out)
    (hm_iter (attribution_by_symbol pf)) ∅.

Definition register_symbol (symbol base quote : string) (pf : Portfolio) : Portfolio :=
  mkPortfolio (reporting_currency pf) (positions pf) (marks_native pf) (fx_to_reporting pf)
    (<[symbol := (base, quote)]> (symbol_assets pf)) (per_strategy_pnl pf) (attribution_by_symbol pf) (dust_threshold pf).

Definition fx_of (pf : Portfolio) (symbol : string) : dec := default dec1 (fx_to_reporting pf !! symbol).

Definition portfolio_on_fill (symbol : string) (qty price : dec) (class : string) (pf : Portfolio) : Portfolio :=
  let pos := default position_default (positions pf !! symbol) in
  let pos' := apply_fill qty price pos in
  let delta := dsub (realised_pnl_native pos') (realised_pnl_native pos) in
  let st := per_strategy_pnl pf in
  with_positions (<[symbol := pos']> (positions pf))
    (if is_zero delta then st
     else <[class := dadd (default dec0 (st !! class)) (dmul delta (fx_of pf symbol))]> st) pf.

Definition mark_price (symbol : string) (price : dec) (pf : Portfolio) : Portfolio :=
  mkPortfolio (reporting_currency pf) (positions pf) (<[symbol := price]> (marks_native pf)) (fx_to_reporting pf)
    (symbol_assets pf) (per_strategy_pnl pf) (attribution_by_symbol pf) (dust_threshold pf).

Definition set_fx (symbol : string) (factor : dec) (pf : Portfolio) : Portfolio :=
  mkPortfolio (reporting_currency pf) (positions pf) (marks_native pf) (<[symbol := factor]> (fx_to_reporting pf))
    (symbol_assets pf) (per_strategy_pnl pf) (attribution_by_symbol pf) (dust_threshold pf).

Record AssetSnapshot := mkAssetSnapshot {
  sn_qty : dec;
  sn_avg_entry : dec;
  sn_mark_price : dec;
  sn_realised_pnl_native : dec;
  sn_realised_pnl_reporting : dec;
  sn_unrealised_pnl_native : dec;
  sn_unrealised_pnl_reporting : dec;
  sn_fx_to_reporting : dec;
}.

Record PortfolioSnapshot := mkPortfolioSnapshot {
  sn_reporting_currency : string;
  total_equity : dec;
  total_realised_pnl : dec;
  total_unrealised_pnl : dec;
  per_asset : gmap string AssetSnapshot;
  per_factor : list (string * dec);
  per_strategy : list (string * dec);
}.

Definition mark_of (pf : Portfolio) (symbol : string) (pos : Position) : dec :=
  default (avg_entry pos) (marks_native pf !! symbol).

Definition asset_snapshot (pf : Portfolio) (symbol : string) (pos : Position) : AssetSnapshot :=
  let mark := mark_of pf symbol pos in
  let fx := fx_of pf symbol in
  let unrealised := dmul (dsub mark (avg_entry pos)) (pos_qty pos) in
  mkAssetSnapshot (pos_qty pos) (avg_entry pos) mark (realised_pnl_native pos) (dmul (realised_pnl_native pos) fx)
    unrealised (dmul unrealised fx) fx.

Definition factor_delta (pf : Portfolio) (asset : string) : dec :=
  fold_left (λ total kv,
    match symbol_assets pf !! kv.1 with
    | None => total
    | Some (base, quote) =>
        let total := if String.eqb base asset then dadd total (pos_qty kv.2) else total in
        if String.eqb quote asset then dsub total (dmul (pos_qty kv.2) (mark_of pf kv.1 kv.2)) else total
    end) (hm_iter (positions pf)) dec0.

(** The distinct assets of the registered symbols, in the order they are met. *)
Definition add_asset (assets : list string) (a : string) : list string :=
  if existsb (String.eqb a) assets then assets else assets ++ [a].

Definition registered_assets (pf : Portfolio) : list string :=
  fold_left (λ assets bq, add_asset (add_asset assets bq.1) bq.2) (hm_values (symbol_assets pf)) [].

Definition by_name {A} (a b : string * A) : bool := string_leb a.1 b.1.

Definition factors (pf : Portfolio) : list (string * dec) :=
  sort_by by_name
    (List.filter (λ ad, dleb (dust_threshold pf) (dabs ad.2))
      ((λ a, (a, factor_delta pf a)) <$> registered_assets pf)).

Definition per_strategy_sorted (pf : Portfolio) : list (string * dec) := sort_by by_name (hm_iter (per_strategy_pnl pf)).

Definition snapshot (pf : Portfolio) : PortfolioSnapshot :=
  let entries := (λ kv, (kv.1, asset_snapshot pf kv.1 kv.2)) <$> hm_iter (positions pf) in
  let realised := dsum ((λ e, sn_realised_pnl_reporting e.2) <$> entries) in
  let unrealised := dsum ((λ e, sn_unrealised_pnl_reporting e.2) <$> entries) in
  mkPortfolioSnapshot (reporting_currency pf) (dadd realised unrealised) realised unrealised (hm_collect entries)
    (factors pf) (per_strategy_sorted pf).

(** ** Every venue's leg *)
Record VenueInventory := mkVenueInventory {
  vi_symbol : string;
  vi_venue : string;
  vi_base_asset : string;
  vi_inventory : dec;
  vi_mark_price : option dec;
  vi_notional_quote : option dec;
  vi_updated_at : Z;
}.

Record AssetAggregate := mkAssetAggregate {
  aa_base : string;
  aa_net_delta : dec;
  aa_net_notional_quote : dec;
  aa_legs : list VenueInventory;
}.

Definition is_boundary (c : Ascii.ascii) : bool :=
  let n := Ascii.nat_of_ascii c in
  ((48 <=? n) && (n <=? 57)) || (n =? 45) || (n =? 95) || (n =? 47).

(** Up to the first digit or separator ([-], [_], [/]): a symbol of ASCII
    characters. *)
Fixpoint infer_base_asset (symbol : string) : string :=
  match symbol with
  | EmptyString => EmptyString
  | String c s => if is_boundary c then EmptyString else String c (infer_base_asset s)
  end.

Definition publish (now : Z) (symbol venue : string) (inv : dec) (mark : option dec) (cv : gmap (string * string) VenueInventory) :
    gmap (string * string) VenueInventory :=
  <[(symbol, venue) := mkVenueInventory symbol venue (infer_base_asset symbol) inv mark (dmul inv <$> mark) now]> cv.

Definition legs_of (base : string) (cv : gmap (string * string) VenueInventory) : list VenueInventory :=
  List.filter (λ e, String.eqb (vi_base_asset e) base) (hm_values cv).

Definition net_delta (base : string) (cv : gmap (string * string) VenueInventory) : dec := dsum (vi_inventory <$> legs_of base cv).
Definition net_notional_quote (base : string) (cv : gmap (string * string) VenueInventory) : dec :=
  dsum (omap vi_notional_quote (legs_of base cv)).

Definition leg_leb (a b : VenueInventory) : bool :=
  if String.eqb (vi_venue a) (vi_venue b) then string_leb (vi_symbol a) (vi_symbol b)
  else string_leb (vi_venue a) (vi_venue b).

Definition by_asset (cv : gmap (string * string) VenueInventory) : list AssetAggregate :=
  (λ base,
    let legs := sort_by leg_leb (legs_of base cv) in
    mkAssetAggregate base (dsum (vi_inventory <$> legs)) (dsum (omap vi_notional_quote legs)) legs)
  <$> sort_dedup (vi_base_asset <$> hm_values cv).

(** ** Runs *)
Inductive PortfolioEvent :=
| EvFill (symbol : string) (qty price : dec) (class : string)
| EvMark (symbol : string) (price : dec)
| EvRegister (symbol base quote : string)
| EvAttribution (symbol : string) (snap : AttributionSnap)
| EvFx (symbol : string) (factor : dec).

Definition portfolio_step (pf : Portfolio) (e : PortfolioEvent) : Portfolio :=
  match e with
  | EvFill symbol qty price class => portfolio_on_fill symbol qty price class pf
  | EvMark symbol price => mark_price symbol price pf
  | EvRegister symbol base quote => register_symbol symbol base quote pf
  | EvAttribution symbol snap => record_attribution symbol snap pf
  | EvFx symbol factor => set_fx symbol factor pf
  end.

Definition portfolio_run (es : list PortfolioEvent) (pf : Portfolio) : Portfolio := fold_left portfolio_step es pf.
End Portfolio.

(** ** Positions and fills *)
Section Accounts.
Context {D : Decimal} {I : HashMapIter} {E : DecimalExact D}.

Definition pos_accounts (base cash : Q) (p : Position) : Prop :=
  (dval (pos_qty p) == base)%Q ∧ (dval (realised_pnl_native p) == cash + base * dval (avg_entry p))%Q.

Lemma dabs_pos_val a : (0 <= dval a)%Q → (dval (dabs a) == dval a)%Q.
Proof. intros. by rewrite dabs_val, Qabs_pos. Qed.
Lemma dabs_neg_val a : (dval a <= 0)%Q → (dval (dabs a) == - dval a)%Q.
Proof. intros. by rewrite dabs_val, Qabs_neg. Qed.

Lemma dpos_iff a : dltb dec0 a = true ↔ (0 < dval a)%Q.
Proof. rewrite dltb_lt. unfold dlt. by rewrite dec0_val. Qed.
Lemma dnpos_iff a : dltb dec0 a = false ↔ (dval a <= 0)%Q.
Proof. rewrite dltb_ge. unfold dle. by rewrite dec0_val. Qed.

Lemma is_zero_cases a : (is_zero a = true ∧ (dval a == 0)%Q) ∨
  (is_zero a = false ∧ dltb dec0 a = true ∧ (0 < dval a)%Q) ∨ (is_zero a = false ∧ dltb dec0 a = false ∧ (dval a < 0)%Q).
Proof.
  destruct (is_zero a) eqn:Ez; [left|right].
  - by apply is_zero_val in Ez.
  - apply is_zero_false in Ez. destruct (dltb dec0 a) eqn:Ep; [left; by apply dpos_iff in Ep|right].
    apply dnpos_iff in Ep. repeat split; lra.
Qed.

(** Opening or adding: the entry carries the cost of both. *)
Lemma add_entry q f p a : (0 <= dval q * dval f)%Q →
  let total_qty := dadd (dabs q) (dabs f) in
  let avg := if dltb dec0 total_qty then ddiv (dadd (dmul a (dabs q)) (dmul p (dabs f))) total_qty else dec0 in
  ((dval q + dval f) * dval avg == dval q * dval a + dval f * dval p)%Q.
Proof.
  intros Hqf total avg. unfold avg.
  assert (Ht : (dval total == Qabs (dval q) + Qabs (dval f))%Q) by (unfold total; by rewrite dadd_exact, !dabs_val).
  pose proof (Qabs_nonneg (dval q)). pose proof (Qabs_nonneg (dval f)).
  destruct (dltb dec0 total) eqn:El.
  - apply dpos_iff in El. rewrite ddiv_exact by lra. rewrite dadd_exact, !dmul_exact, !dabs_val, Ht.
    assert (Hs : (0 <= dval q ∧ 0 <= dval f ∨ dval q <= 0 ∧ dval f <= 0)%Q) by nra.
    destruct Hs as [[Hq Hf]|[Hq Hf]]; rewrite ?(Qabs_pos (dval q)), ?(Qabs_pos (dval f)),
      ?(Qabs_neg (dval q)), ?(Qabs_neg (dval f)) in * by done; field; lra.
  - apply dnpos_iff in El. rewrite dec0_val.
    assert (Hz : ∀ x, (Qabs x <= 0 → x == 0)%Q)
      by (intros x Hx; destruct (Qlt_le_dec x 0); [rewrite Qabs_neg in Hx|rewrite Qabs_pos in Hx]; lra).
    assert (Hq : (dval q == 0)%Q) by (apply Hz; lra).
    assert (Hf : (dval f == 0)%Q) by (apply Hz; lra).
    rewrite Hq, Hf. ring.
Qed.

(** Reducing or flipping: the part that is closed, with the sign of the position. *)
Lemma closed_part q f : is_zero q = false → Bool.eqb (dltb dec0 q) (dltb dec0 f) = false →
  let closed := dmul (if dltb dec0 q then dec1 else dneg dec1) (dmin (dabs f) (dabs q)) in
  (dval closed == if dltb (dabs q) (dabs f) then dval q else - dval f)%Q ∧
  (dltb (dabs q) (dabs f) = true → ¬ dval q + dval f == 0)%Q.
Proof.
  intros Ez Hs closed. unfold closed. rewrite dmul_exact, dmin_val, !dabs_val.
  assert (Hlt : dltb (dabs q) (dabs f) = true ↔ (Qabs (dval q) < Qabs (dval f))%Q)
    by (rewrite dltb_lt; unfold dlt; by rewrite !dabs_val).
  destruct (is_zero_cases q) as [[E0 _]|[(_ & Ep & Hp)|(_ & Ep & Hp)]]; [congruence| |]; rewrite Ep in *;
    destruct (dltb dec0 f) eqn:Ef; try done; rewrite ?dneg_val, ?dec1_val.
  - apply dnpos_iff in Ef. rewrite (Qabs_neg (dval f)), (Qabs_pos (dval q)) in * by lra.
    destruct (dltb (dabs q) (dabs f)).
    + rewrite Q.min_r by (destruct Hlt as [Hlt _]; specialize (Hlt eq_refl); lra).
      split; [lra|]. intros _. destruct Hlt as [Hlt _]. specialize (Hlt eq_refl). lra.
    + rewrite Q.min_l by (apply Qnot_lt_le; intros ?%Hlt; done). split; [lra|done].
  - apply dpos_iff in Ef. rewrite (Qabs_pos (dval f)), (Qabs_neg (dval q)) in * by lra.
    destruct (dltb (dabs q) (dabs f)).
    + rewrite Q.min_r by (destruct Hlt as [Hlt _]; specialize (Hlt eq_refl); lra).
      split; [lra|]. intros _. destruct Hlt as [Hlt _]. specialize (Hlt eq_refl). lra.
    + rewrite Q.min_l by (apply Qnot_lt_le; intros ?%Hlt; done). split; [lra|done].
Qed.

(** Whatever the price and the sign, a fill keeps the accounts: what is realised
    is the cash flow plus the position at its entry. *)
Lemma apply_fill_accounts base cash p f price : pos_accounts base cash p →
  pos_accounts (base + dval f) (cash - dval f * dval price) (apply_fill f price p).
Proof.
  intros [Hb Hr]. unfold apply_fill.
  assert (Hn : (dval (dadd (pos_qty p) f) == base + dval f)%Q) by (rewrite dadd_exact; lra).
  set (new := dadd (pos_qty p) f) in *.
  destruct (is_zero (pos_qty p) || _) eqn:Eo; (split; cbn [pos_qty avg_entry realised_pnl_native]; [done|]).
  - assert (Hs : (0 <= dval (pos_qty p) * dval f)%Q).
    { destruct (is_zero_cases (pos_qty p)) as [[_ ->]|[(Ez & Ep & Hp)|(Ez & Ep & Hp)]]; [lra| |];
        rewrite Ez, Ep in Eo; cbn in Eo.
      - destruct (dltb dec0 f) eqn:Ef; [apply dpos_iff in Ef; nra|done].
      - destruct (dltb dec0 f) eqn:Ef; [done|apply dnpos_iff in Ef; nra]. }
    pose proof (add_entry (pos_qty p) f price (avg_entry p) Hs) as Ha. cbv zeta in Ha. rewrite Hb in Ha, Hs.
    destruct (is_zero new) eqn:Ez; [apply is_zero_val in Ez; rewrite dec0_val; nra|]. rewrite Hr, Ha. lra.
  - apply orb_false_iff in Eo as [Ezq Eo]. rewrite Ezq in Eo. cbn [negb andb] in Eo.
    destruct (closed_part (pos_qty p) f Ezq Eo) as [Hc Hf]. cbv zeta in Hc. rewrite dmul_exact in Hc.
    rewrite dadd_exact, !dmul_exact, dsub_exact, Hr.
    match goal with |- context [(?x * (?p - ?a) * ?y)%Q] =>
      assert (Hx : (x * (p - a) * y == x * y * (p - a))%Q) by ring; rewrite Hx, Hc end.
    destruct (is_zero new) eqn:Ez.
    + apply is_zero_val in Ez. rewrite dec0_val.
      destruct (dltb (dabs (pos_qty p)) (dabs f)); [exfalso; apply Hf; [done|lra]|].
      assert (Hf' : (dval f == - base)%Q) by lra. rewrite Hf'. ring.
    + destruct (dltb (dabs (pos_qty p)) (dabs f)); rewrite ?Hb; ring.
Qed.

(** ** Runs *)

(** What the fills of a symbol bring in, in its base and in its quote. *)
Definition on_symbol (symbol : string) (g : dec → dec → Q) (es : list PortfolioEvent) : Q :=
  qsum ((λ e, match e with
              | EvFill s qty price _ => if String.eqb s symbol then g qty price else 0
              | _ => 0
              end)%Q <$> es).
Definition base_of (symbol : string) := on_symbol symbol (λ qty _, dval qty).
Definition cash_of (symbol : string) := on_symbol symbol (λ qty price, - (dval qty * dval price))%Q.

Definition position_of (pf : Portfolio) (symbol : string) : Position :=
  default position_default (positions pf !! symbol).

Lemma step_position pf e symbol base cash : pos_accounts base cash (position_of pf symbol) →
  pos_accounts (base + base_of symbol [e]) (cash + cash_of symbol [e]) (position_of (portfolio_step pf e) symbol).
Proof.
  intros Hp. unfold base_of, cash_of, on_symbol.
  destruct e as [s qty price class| | | |]; cbn [portfolio_step fmap list_fmap qsum];
    try (change (position_of _ symbol) with (position_of pf symbol); destruct Hp as [Hb Hr];
      split; [rewrite Hb|rewrite Hr]; ring).
  assert (Ep : positions (portfolio_on_fill s qty price class pf) =
    <[s := apply_fill qty price (position_of pf s)]> (positions pf)) by done.
  unfold position_of at 1. rewrite Ep. destruct (String.eqb_spec s symbol) as [<-|Hne].
  - rewrite lookup_insert_eq. destruct (apply_fill_accounts _ _ _ qty price Hp) as [Hb Hr].
    split; cbn [default from_option id]; [rewrite Hb|rewrite Hr]; ring.
  - rewrite lookup_insert_ne by done. destruct Hp as [Hb Hr].
    split; [rewrite Hb; ring|]. unfold position_of in Hr. rewrite Hr. ring.
Qed.

Lemma on_symbol_app symbol g es fs : (on_symbol symbol g (es ++ fs) == on_symbol symbol g es + on_symbol symbol g fs)%Q.
Proof. unfold on_symbol. rewrite fmap_app. apply qsum_app. Qed.

Lemma run_positions es symbol : ∀ pf base cash, pos_accounts base cash (position_of pf symbol) →
  pos_accounts (base + base_of symbol es) (cash + cash_of symbol es) (position_of (portfolio_run es pf) symbol).
Proof.
  induction es as [|e es IH]; intros pf base cash Hp.
  - destruct Hp as [Hb Hr]. split; cbn; [rewrite Hb|rewrite Hr]; ring.
  - cbn [portfolio_run fold_left]. fold (portfolio_run es (portfolio_step pf e)).
    destruct (IH _ _ _ (step_position pf e symbol base cash Hp)) as [Hb Hr].
    unfold base_of, cash_of in *. change (e :: es) with ([e] ++ es).
    split; rewrite !on_symbol_app; [rewrite Hb|rewrite Hr]; ring.
Qed.

Definition is_fx (e : PortfolioEvent) : bool := match e with EvFx _ _ => true | _ => false end.

Definition realised_in (pf : Portfolio) : Q :=
  msum (λ s p, dval (realised_pnl_native p) * dval (fx_of pf s))%Q (positions pf).
Definition strategies_in (pf : Portfolio) : Q := msum (λ _ x, dval x) (per_strategy_pnl pf).

Lemma step_strategies pf e : is_fx e = false → (strategies_in pf == realised_in pf)%Q →
  (strategies_in (portfolio_step pf e) == realised_in (portfolio_step pf e))%Q.
Proof.
  destruct e as [s qty price class| | | |]; try done. intros _ H. cbn [portfolio_step].
  unfold strategies_in, realised_in, portfolio_on_fill in *. cbn [with_positions positions per_strategy_pnl].
  set (pos := default position_default (positions pf !! s)).
  set (pos' := apply_fill qty price pos).
  set (delta := dsub (realised_pnl_native pos') (realised_pnl_native pos)).
  assert (Hd : (dval delta == dval (realised_pnl_native pos') - dval (realised_pnl_native pos))%Q) by apply dsub_exact.
  change (λ s p, dval (realised_pnl_native p) * dval (fx_of (with_positions _ _ pf) s))%Q
    with (λ s p, dval (realised_pnl_native p) * dval (fx_of pf s))%Q.
  rewrite msum_insert. cbv beta.
  assert (Hp : (from_option (λ p, dval (realised_pnl_native p) * dval (fx_of pf s)) 0 (positions pf !! s) ==
    dval (realised_pnl_native pos) * dval (fx_of pf s))%Q).
  { unfold pos. destruct (positions pf !! s); cbn; [done|]. rewrite dec0_val. ring. }
  rewrite Hp. destruct (is_zero delta) eqn:Ez.
  - apply is_zero_val in Ez. rewrite H. rewrite Ez in Hd.
    assert (Hr : (dval (realised_pnl_native pos') == dval (realised_pnl_native pos))%Q) by lra. rewrite Hr. ring.
  - rewrite msum_insert. rewrite H, dadd_exact, dmul_exact, Hd.
    destruct (per_strategy_pnl pf !! class); cbn; rewrite ?dec0_val; ring.
Qed.

Lemma run_strategies es : ∀ pf, Forall (λ e, is_fx e = false) es → (strategies_in pf == realised_in pf)%Q →
  (strategies_in (portfolio_run es pf) == realised_in (portfolio_run es pf))%Q.
Proof.
  induction es as [|e es IH]; intros pf Hes H; [done|]. apply Forall_cons in Hes as [He Hes].
  cbn [portfolio_run fold_left]. apply IH; [done|]. by apply step_strategies.
Qed.

Lemma total_realised_val pf : (dval (total_realised_pnl (snapshot pf)) == realised_in pf)%Q.
Proof.
  unfold snapshot, realised_in. cbn [total_realised_pnl]. rewrite dsum_val, <- msum_iter. unfold vals.
  induction (hm_iter (positions pf)) as [|kv l IH]; cbn; [done|]. rewrite IH, dmul_exact. done.
Qed.

Lemma total_equity_val pf : (dval (total_equity (snapshot pf)) ==
  msum (λ s p, dval (fx_of pf s) * (dval (realised_pnl_native p) +
    (dval (mark_of pf s p) - dval (avg_entry p)) * dval (pos_qty p))) (positions pf))%Q.
Proof.
  unfold snapshot. cbn [total_equity]. rewrite dadd_exact, !dsum_val, <- msum_iter. unfold vals.
  induction (hm_iter (positions pf)) as [|kv l IH]; cbn [fmap list_fmap qsum fst snd]; [cbn; ring|].
  rewrite <- IH. cbn. rewrite !dmul_exact, dsub_exact. ring.
Qed.

(** In exact arithmetic, after any fills, marks and registrations of a new
    portfolio, a symbol's position is the base its fills brought in, the
    snapshot's equity is the sum, over the symbols, of the cash flow of the
    fills plus the position at its mark, converted at the symbol's factor, and,
    when no conversion factor changes after the first fill, the profits of the
    strategies add up to the realised profit of the snapshot. *)
Theorem equity_is_cash_flow currency fxs es (Hfxs : Forall (λ e, is_fx e = true) fxs)
    (Hes : Forall (λ e, is_fx e = false) es) :
  let pf := portfolio_run es (portfolio_run fxs (portfolio_new currency)) in
  (∀ symbol, dval (pos_qty (position_of pf symbol)) == base_of symbol es)%Q ∧
  (dval (total_equity (snapshot pf)) ==
    msum (λ s p, dval (fx_of pf s) * (cash_of s es + base_of s es * dval (mark_of pf s p))) (positions pf))%Q ∧
  (qsum (dval <$> (per_strategy_sorted pf).*2) == dval (total_realised_pnl (snapshot pf)))%Q.
Proof.
  intros pf.
  assert (H0 : positions (portfolio_run fxs (portfolio_new currency)) = ∅ ∧
               per_strategy_pnl (portfolio_run fxs (portfolio_new currency)) = ∅).
  { assert (Hg : ∀ pf, positions pf = ∅ ∧ per_strategy_pnl pf = ∅ →
      positions (portfolio_run fxs pf) = ∅ ∧ per_strategy_pnl (portfolio_run fxs pf) = ∅); [|by apply Hg].
    clear pf. induction Hfxs as [|e fxs He _ IH]; intros pf Hpf; [done|]. cbn [portfolio_run fold_left]. apply IH.
    by destruct e. }
  destruct H0 as [Hp0 Hs0].
  assert (Hacc : ∀ s, pos_accounts (base_of s es) (cash_of s es) (position_of pf s)).
  { intros s. destruct (run_positions es s (portfolio_run fxs (portfolio_new currency)) 0 0) as [Hb Hr].
    - unfold position_of. rewrite Hp0. split; cbn; rewrite ?dec0_val; ring.
    - split; fold pf in Hb, Hr; [rewrite Hb|rewrite Hr]; ring. }
  split; [intros s; apply Hacc|]. split.
  - rewrite total_equity_val. apply msum_ext. intros s p Hp. destruct (Hacc s) as [Hb Hr].
    unfold position_of in Hb, Hr. rewrite Hp in Hb, Hr. cbn in Hb, Hr. rewrite Hr, Hb. ring.
  - rewrite total_realised_val. unfold pf. rewrite <- run_strategies; [|done|].
    + unfold strategies_in. rewrite <- msum_iter. fold pf. apply qsum_perm. unfold per_strategy_sorted.
      rewrite sort_by_perm. rewrite <- list_fmap_compose. done.
    + unfold strategies_in, realised_in. by rewrite Hp0, Hs0, !msum_empty.
Qed.
End Accounts.

(** A leg's delta is counted once, and publishing again replaces it. *)
Lemma republish_replaces {D : Decimal} (now now' : Z) (symbol venue : string) (inv inv' : dec) (mark mark' : option dec) (cv : gmap (string * string) VenueInventory) :
  publish now' symbol venue inv' mark' (publish now symbol venue inv mark cv) = publish now' symbol venue inv' mark' cv.
Proof. unfold publish. by rewrite insert_insert_eq. Qed.

Lemma net_delta_val {D : Decimal} {I : HashMapIter} {E : DecimalExact D} (base : string) (cv : gmap (string * string) VenueInventory) :
  (dval (net_delta base cv) ==
    msum (λ _ e, if String.eqb (vi_base_asset e) base then dval (vi_inventory e) else 0) cv)%Q.
Proof.
  unfold net_delta, legs_of. rewrite dsum_val, <- msum_iter. unfold vals, hm_values.
  induction (hm_iter cv) as [|[k e] l IH]; cbn; [done|]. destruct (String.eqb _ _); cbn in *; rewrite IH; ring.
Qed.

(** ** Witnesses *)
Definition demo_book : list (PortfolioEvent (D := Qc_decimal)) :=
  [EvRegister "ETHBTC" "ETH" "BTC"; EvFill "ETHBTC" (dlit 4 0) (dlit 5 2) "grid"; EvMark "ETHBTC" (dlit 6 2);
   EvFill "ETHBTC" (dlit (-6) 0) (dlit 7 2) "grid"; EvFill "BTCUSDT" (dlit 1 0) (dlit 60000 0) "basis"].

Lemma equity_is_cash_flow_witness :
  let pf := portfolio_run demo_book (portfolio_run [EvFx "ETHBTC" (dlit 50000 0)] (portfolio_new "USDT")) in
  (dval (total_equity (snapshot pf)) == 5000)%Q ∧
  (qsum (dval <$> (per_strategy_sorted pf).*2) == 4000)%Q.
Proof.
  intros pf.
  destruct (equity_is_cash_flow "USDT" [EvFx "ETHBTC" (dlit 50000 0)] demo_book) as (_ & H1 & H2); [repeat constructor..|].
  split; [rewrite H1|rewrite H2]; vm_compute; reflexivity.
Defined.

(** The comment of [infer_base_asset] groups [BTCUSDT] with [BTC-USDT] under
    [BTC]; a symbol without a separator is its own base. *)
Example undelimited_symbol_stands_alone :
  infer_base_asset "BTCUSDT" = "BTCUSDT" ∧ infer_base_asset "BTC-USDT" = "BTC" ∧
  infer_base_asset "1000PEPEUSDT" = "" ∧
  let cv := publish 0 "BTC-USDT" "bybit" (dlit 2 0) None (publish 0 "BTCUSDT" "binance" (dlit 3 0) None ∅) in
  (dval (net_delta (I := hm_iter_default) "BTC" cv) == 2)%Q.
Proof. repeat split; vm_compute; reflexivity. Qed.
