(* ===== verification/Ledgers.v ===== *)
(** * The books a fill goes through ([crates/engine/src/market_maker.rs])

    What the engine does with one of its own fills ([handle_ws_event],
    [MarketEvent::Fill]) and with a second of its timer ([tick_second], the
    accounting half): the inventory, the live orders, the kill switch, the
    volume caps, the portfolio, the reserved balances, the profit attribution,
    the protections and the unwind in progress. The theorem is that the three
    books of the position agree ([positions_agree], in the arithmetic of 96
    bits); that their profits agree as well is a lemma of ideal arithmetic
    ([books_agree]), since the prices are averaged by division. Left out: the audit and
    dashboard records, the tuners, the surveillance and queue trackers, the
    hedging executors, and what the balances of the venue say. *)
From stdpp Require Import base gmap list strings.
From Stdlib Require Import ZArith QArith Qabs Lqa Lia.
From S2P Require Import Prelude Decimal Types KillSwitch OrderManager Inventory Risk Balance Protections Unwind Pnl Portfolio.
Local Open Scope nat_scope.

Section Ledgers.
Context {D : Decimal} {C : Clock} {I : HashMapIter} (instant_floor : Z).
Context (symbol : string) (product : ProductSpec).

Record Ledgers := mkLedgers {
  lg_inventory : InventoryManager;
  pending_own_fills : list (string * Fill);
  lg_orders : OrderManager.OrderManager;
  near_touch_fills : Z;
  lg_kill : KillSwitch.KillSwitch;
  lg_volume : VolumeLimitTracker;
  lg_portfolio : option Portfolio;
  lg_cache : BalanceCache;
  lg_pnl : PnlTracker;
  lg_protections : option Protections;
  var_guard_last_total_pnl : dec;
  lg_unwinding : option Unwinding;
}.

(** The buffer of the graph's own-fill source keeps the last 32. *)
Definition push_own_fill (venue : string) (f : Fill) (l : list (string * Fill)) : list (string * Fill) :=
  (if 32 <=? length l then tail l else l) ++ [(venue, f)].

Definition near_touch (mid : option dec) (f : Fill) : bool :=
  let mid := default dec0 mid in
  dltb dec0 mid && dleb (ddiv (dabs (dsub (f_price f) mid)) mid) (dlit 5 4).

(** The profit and the protections of a fill, with the mid of the book. *)
Definition fill_profit (t : Z) (f : Fill) (mid : dec) (base : dec) (pnl : PnlTracker) (p : option Protections) :
    PnlTracker * option Protections :=
  let pnl := pnl_on_fill f mid pnl in
  (pnl,
   match p with
   | Some p =>
       let delta := dsub (spread_pnl (attribution pnl)) base in
       Some (if is_zero delta then p else record_trade_pnl instant_floor symbol delta t p)
   | None => None
   end).

Definition own_fill (now : instant) (t : Z) (venue class : string) (mid : option dec) (f : Fill) (s : Ledgers) : Ledgers :=
  let '(pnl, prot) :=
    match mid with
    | Some mid => fill_profit t f mid (var_guard_last_total_pnl s) (lg_pnl s) (lg_protections s)
    | None => (lg_pnl s, lg_protections s)
    end in
  mkLedgers
    (inventory_on_fill f (lg_inventory s))
    (push_own_fill venue f (pending_own_fills s))
    (OrderManager.on_fill now (f_order_id f) (f_qty f) (lg_orders s))
    (if near_touch mid f then near_touch_fills s + 1 else near_touch_fills s)%Z
    (KillSwitch.on_fill now (lg_kill s))
    (Risk.on_trade t (dmul (f_price f) (f_qty f)) (lg_volume s))
    (portfolio_on_fill symbol (signed_qty f) (f_price f) class <$> lg_portfolio s)
    (release (f_side f) (f_price f) (f_qty f) (base_asset product) (quote_asset product) (lg_cache s))
    pnl prot (var_guard_last_total_pnl s)
    (unwinding_on_fill (f_qty f) (lg_unwinding s)).

(** The funding of a tick: the position is pushed into the tracker, a poll is
    taken in when there is one, the estimate and the settlement follow. *)
Definition funding_tick (t : Z) (mid : dec) (inv : dec) (poll : option (dec * Z * Z)) (p : PnlTracker) : PnlTracker :=
  let p := set_inventory_for_funding inv p in
  let p := match poll with Some (rate, next, interval) => on_funding_update rate next interval p | None => p end in
  (settle_funding t mid (accrue_funding_mtm t mid p)).2.

(** [sampled]: the value-at-risk guard takes its sample this second. *)
Definition account_tick (now : instant) (t : Z) (mid : option dec) (sampled has_funding : bool)
    (poll : option (dec * Z * Z)) (s : Ledgers) : Ledgers :=
  let kill := KillSwitch.tick_second now (lg_kill s) in
  let base := if sampled then attribution_total (attribution (lg_pnl s)) else var_guard_last_total_pnl s in
  match mid with
  | None =>
      mkLedgers (lg_inventory s) (pending_own_fills s) (lg_orders s) (near_touch_fills s) kill (lg_volume s)
        (lg_portfolio s) (lg_cache s) (lg_pnl s) (lg_protections s) base (lg_unwinding s)
  | Some mid =>
      let pnl := mark_to_market mid (lg_pnl s) in
      let inv := inventory (lg_inventory s) in
      let kill := KillSwitch.update_pnl (attribution_total (attribution pnl)) now kill in
      let kill := KillSwitch.update_position_value (dmul (dabs inv) mid) now kill in
      mkLedgers (lg_inventory s) (pending_own_fills s) (lg_orders s) (near_touch_fills s) kill (lg_volume s)
        (mark_price symbol mid <$> lg_portfolio s) (lg_cache s)
        (if has_funding then funding_tick t mid inv poll pnl else pnl)
        (lg_protections s) base (lg_unwinding s)
  end.

Inductive LedgerEvent :=
| LFill (now : instant) (t : Z) (venue class : string) (mid : option dec) (f : Fill)
| LTick (now : instant) (t : Z) (mid : option dec) (sampled has_funding : bool) (poll : option (dec * Z * Z)).

Definition ledger_step (s : Ledgers) (e : LedgerEvent) : Ledgers :=
  match e with
  | LFill now t venue class mid f => own_fill now t venue class mid f s
  | LTick now t mid sampled has_funding poll => account_tick now t mid sampled has_funding poll s
  end.

Definition ledger_run (es : list LedgerEvent) (s : Ledgers) : Ledgers := fold_left ledger_step es s.
End Ledgers.

(** ** The books agree *)
Section Agreement.
Context {D : Decimal} {C : Clock} {I : HashMapIter} {E : DecimalExact D}.
Context (instant_floor : Z) (symbol : string) (product : ProductSpec).

(** The fills of the events, and what the attribution is fed by them. *)
Definition fills_in (es : list LedgerEvent) : list Fill :=
  omap (λ e, match e with LFill _ _ _ _ _ f => Some f | _ => None end) es.

Definition pnl_events (e : LedgerEvent) : list PnlEvent :=
  match e with
  | LFill _ _ _ _ (Some mid) f => [PFill f mid]
  | LTick _ t (Some mid) _ has_funding poll =>
      PMark mid ::
      (if has_funding then
         match poll with Some (rate, next, interval) => [PFundingUpdate rate next interval] | None => [] end
         ++ [PAccrue t mid; PSettle t mid]
       else [])
  | _ => []
  end.

(** The book has a mid, above zero, when the event arrives. *)
Definition has_mid (e : LedgerEvent) : Prop :=
  match e with
  | LFill _ _ _ _ mid _ | LTick _ _ mid _ _ _ => ∃ m, mid = Some m ∧ (0 < dval m)%Q
  end.

Definition fair_event (e : LedgerEvent) : Prop :=
  match e with LFill _ _ _ _ _ f => fair_fill f | _ => True end.

(** The position is [base] and was paid for with [cash] in every book. *)
Record agree (base cash : Q) (s : Ledgers) : Prop := {
  ag_inventory : accounts base cash (lg_inventory s);
  ag_pnl : (dval (pnl_inventory (lg_pnl s)) == base)%Q;
  ag_portfolio pf : lg_portfolio s = Some pf → pos_accounts base cash (position_of pf symbol);
}.

Lemma fill_agrees now t venue class mid f s base cash : has_mid (LFill now t venue class mid f) → fair_fill f →
  agree base cash s →
  agree (base + signed f) (cash - signed f * dval (f_price f)) (own_fill instant_floor symbol product now t venue class mid f s).
Proof.
  intros (m & -> & _) Hf [H1 H2 H3]. unfold own_fill. cbn. split; cbn.
  - by apply accounts_fill.
  - pose proof (step_inventory (lg_pnl s) (PFill f m)) as Hs. cbn [pnl_step] in Hs. rewrite Hs, H2. cbn. ring.
  - intros pf' Hpf. destruct (lg_portfolio s) as [pf|]; [|done]. injection Hpf as <-.
    destruct (step_position pf (EvFill symbol (signed_qty f) (f_price f) class) symbol base cash (H3 _ eq_refl)) as [Hb Hr].
    cbn in Hb, Hr. rewrite String.eqb_refl in Hb, Hr. pose proof (signed_qty_val f) as Hq. cbn [portfolio_step] in Hb, Hr.
    split; [rewrite Hb, Hq; ring|rewrite Hr, Hq; ring].
Qed.

Lemma funding_inventory t mid inv poll p : pnl_inventory (funding_tick t mid inv poll p) = inv.
Proof.
  unfold funding_tick, settle_funding. set (p' := accrue_funding_mtm _ _ _).
  assert (Hp : pnl_inventory p' = inv).
  { unfold p'. cbn. destruct poll as [[[rate next] iv]|]; [|done]. unfold on_funding_update. cbn.
    destruct (next_funding_time p); [by destruct (_ <? _)%Z|done]. }
  destruct (funding_rate p'), (next_funding_time p'), (funding_interval p'); try done. by destruct (_ <? _)%Z.
Qed.

Lemma tick_agrees now t mid sampled fnd poll s base cash : has_mid (LTick now t mid sampled fnd poll) →
  agree base cash s → agree base cash (account_tick symbol now t mid sampled fnd poll s).
Proof.
  intros (m & -> & _) [H1 H2 H3]. split; cbn; [done| |].
  - destruct fnd; [rewrite funding_inventory; apply H1|].
    pose proof (step_inventory (lg_pnl s) (PMark m)) as Hs. cbn [pnl_step] in Hs. rewrite Hs, H2. cbn. ring.
  - intros pf' Hpf. destruct (lg_portfolio s) as [pf|]; [|done]. injection Hpf as <-. exact (H3 pf eq_refl).
Qed.

(** Pushing the position into the tracker changes nothing while they agree. *)
Lemma push_noop base cash s : agree base cash s → ∀ p, pnl_inventory p = pnl_inventory (lg_pnl s) →
  set_inventory_for_funding (inventory (lg_inventory s)) p = p.
Proof.
  intros [(Hi & _) Hp _] p Hpp. assert (Ei : inventory (lg_inventory s) = pnl_inventory p).
  { rewrite Hpp. apply dval_inj. by rewrite Hi, Hp. }
  unfold set_inventory_for_funding, with_inventory. rewrite Ei. by destruct p.
Qed.

Lemma step_pnl e s base cash : has_mid e → agree base cash s →
  lg_pnl (ledger_step instant_floor symbol product s e) = pnl_run (pnl_events e) (lg_pnl s).
Proof.
  intros Hm Ha. destruct e as [now t venue class mid f|now t mid sampled fnd poll];
    cbn [ledger_step]; destruct Hm as (m & -> & _); [done|].
  cbn. destruct fnd; [|done]. unfold funding_tick.
  rewrite (push_noop base cash s Ha); [by destruct poll as [[[rate next] iv]|]|].
  unfold mark_to_market. by destruct (_ && _).
Qed.

Lemma step_agrees e s base cash : has_mid e → fair_event e → agree base cash s →
  agree (base + base_flow (fills_in [e])) (cash + cash_flow (fills_in [e]))
    (ledger_step instant_floor symbol product s e).
Proof.
  intros Hm Hf Ha. assert (Hw : ∀ b b' c c' s, (b == b')%Q → (c == c')%Q → agree b c s → agree b' c' s).
  { intros b b' c c' s' Eb Ec [H1 H2 H3]. split; [by eapply accounts_proper|by rewrite <- Eb|].
    intros pf Hpf. destruct (H3 pf Hpf) as [H4 H5]. split; by rewrite <- ?Eb, <- ?Ec. }
  destruct e as [now t venue class mid f|now t mid sampled fnd poll]; cbn.
  - eapply Hw; [..|apply fill_agrees; [exact Hm|exact Hf|exact Ha]]; ring.
  - eapply Hw; [..|apply tick_agrees; [exact Hm|exact Ha]]; ring.
Qed.

Lemma cash_flow_app fs gs : (cash_flow (fs ++ gs) == cash_flow fs + cash_flow gs)%Q.
Proof. unfold cash_flow. induction fs as [|f fs IH]; cbn [foldr app]; [lra|]. rewrite IH. lra. Qed.

Lemma run_agrees es : ∀ s base cash, Forall has_mid es → Forall fair_event es → agree base cash s →
  agree (base + base_flow (fills_in es)) (cash + cash_flow (fills_in es)) (ledger_run instant_floor symbol product es s) ∧
  lg_pnl (ledger_run instant_floor symbol product es s) = pnl_run (mjoin (pnl_events <$> es)) (lg_pnl s).
Proof.
  induction es as [|e es IH]; intros s base cash Hm Hf Ha.
  - split; [|done]. destruct Ha as [(Hb & Hr & Hp) H2 H3]. split.
    + eapply accounts_proper; [..|by split]; cbn; ring.
    + rewrite H2. cbn. ring.
    + intros pf Hpf. destruct (H3 pf Hpf) as [H4 H5]. split; [rewrite H4|rewrite H5]; cbn; ring.
  - apply Forall_cons in Hm as [Hme Hm], Hf as [Hfe Hf].
    pose proof (step_agrees e s base cash Hme Hfe Ha) as Hs.
    destruct (IH _ _ _ Hm Hf Hs) as [[(Hb & Hr & Hp) H2 H3] Hpnl].
    cbn [ledger_run fold_left]. fold (ledger_run instant_floor symbol product es (ledger_step instant_floor symbol product s e)).
    change (fills_in (e :: es)) with (fills_in ([e] ++ es)). unfold fills_in at 1 2. rewrite omap_app.
    fold (fills_in [e]) (fills_in es). split; [split|].
    + eapply accounts_proper; [..|by split]; rewrite ?base_flow_app, ?cash_flow_app; ring.
    + rewrite H2, base_flow_app. ring.
    + intros pf Hpf. destruct (H3 pf Hpf) as [H4 H5].
      split; [rewrite H4, base_flow_app; ring|rewrite H5, base_flow_app, cash_flow_app; ring].
    + rewrite Hpnl, (step_pnl e s base cash Hme Ha).
      change (mjoin (pnl_events <$> (e :: es))) with (pnl_events e ++ mjoin (pnl_events <$> es)).
      unfold pnl_run. by rewrite fold_left_app.
Qed.

(** The charges of an event: fees net of rebates, funding, the cost of loans. *)
Definition charge (t : PnlTracker) (e : PnlEvent) : Q :=
  match e with
  | PFill f _ => - fee_of f t
  | PAmortize days => - (dval (loan_daily_cost t) * dval days)
  | PSettle now mark => from_option dval 0 (settle_funding now mark t).1
  | _ => 0
  end%Q.

Lemma money_charge es : ∀ t, (total_of money es t == cash_flow (fills_of es) + total_of charge es t)%Q.
Proof.
  induction es as [|e es IH]; intros t; [cbn; ring|]. cbn [total_of]. rewrite IH.
  destruct e as [f mid| | | | | |]; cbn [money charge];
    [|match goal with |- context [fills_of (?e :: es)] => change (fills_of (e :: es)) with (fills_of es) end; ring..].
  change (fills_of (PFill f mid :: es)) with (f :: fills_of es).
  change (cash_flow (f :: fills_of es)) with (cash_flow (fills_of es) - signed f * dval (f_price f))%Q. ring.
Qed.

Lemma events_fills es : Forall has_mid es → fills_of (mjoin (pnl_events <$> es)) = fills_in es.
Proof.
  induction 1 as [|e es He _ IH]; [done|].
  change (mjoin (pnl_events <$> (e :: es))) with (pnl_events e ++ mjoin (pnl_events <$> es)).
  rewrite fills_of_app, IH.
  destruct e as [now t venue class mid f|now t mid sampled [] poll]; destruct He as (m & -> & _); cbn; try done.
  by destruct poll as [[[rate next] iv]|].
Qed.

Lemma events_marks es : Forall has_mid es → Forall mark_ok (mjoin (pnl_events <$> es)).
Proof.
  induction 1 as [|e es He _ IH]; [constructor|].
  change (mjoin (pnl_events <$> (e :: es))) with (pnl_events e ++ mjoin (pnl_events <$> es)).
  apply Forall_app. split; [|done].
  destruct e as [now t venue class mid f|now t mid sampled [] poll]; destruct He as (m & -> & Hm); cbn.
  - by repeat constructor.
  - constructor; [cbn; lra|]. destruct poll as [[[rate next] iv]|]; by repeat constructor.
  - constructor; [cbn; lra|constructor].
Qed.

(** The books of a symbol before its first fill, with a mark taken. *)
Record fresh (mid0 mk tk : dec) (s : Ledgers) : Prop := {
  fr_inventory : lg_inventory s = inventory_new;
  fr_pnl : lg_pnl s = mark_to_market mid0 (pnl_new mk tk);
  fr_portfolio pf : lg_portfolio s = Some pf → positions pf !! symbol = None;
}.

Lemma fresh_agrees mid0 mk tk s : fresh mid0 mk tk s → agree 0 0 s.
Proof.
  intros [H1 H2 H3]. split.
  - rewrite H1. apply accounts_new.
  - rewrite H2, fresh_tracker. apply dec0_val.
  - intros pf Hpf. unfold position_of. rewrite (H3 pf Hpf). split; cbn; rewrite ?dec0_val; ring.
Qed.

(** In ideal arithmetic ([DecimalExact]), from fresh books, whatever fills with positive
    prices and seconds of the timer the engine handles while the book has a
    mid, the inventory, the profit tracker and the portfolio hold the same
    position, the base bought less the base sold; the inventory and the
    portfolio report the same profit at every mark, the cash flow plus the
    position; and the attribution that feeds the kill switch is that profit at
    the last mark, less the fees and plus the funding, plus the fills'
    quantities at the drift of the mid since the mark before them. *)
Theorem books_agree es mid0 mk tk s0 (Hm0 : (0 < dval mid0)%Q) (Hfresh : fresh mid0 mk tk s0)
    (Hmids : Forall has_mid es) (Hfair : Forall fair_event es) :
  let s := ledger_run instant_floor symbol product es s0 in
  let base := base_flow (fills_in es) in
  let cash := cash_flow (fills_in es) in
  let ps := mjoin (pnl_events <$> es) in
  (dval (inventory (lg_inventory s)) == base)%Q ∧ (dval (pnl_inventory (lg_pnl s)) == base)%Q ∧
  (∀ mark, dval (total_pnl (lg_inventory s) mark) == cash + base * dval mark)%Q ∧
  (∀ pf, lg_portfolio s = Some pf →
     let p := position_of pf symbol in
     dval (pos_qty p) == base ∧
     ∀ mark, dval (realised_pnl_native p) + (mark - dval (avg_entry p)) * dval (pos_qty p) == cash + base * mark)%Q ∧
  (dval (attribution_total (attribution (lg_pnl s))) ==
     dval (total_pnl (lg_inventory s) (last_mid (lg_pnl s)))
     + total_of charge ps (lg_pnl s0) + total_of drift ps (lg_pnl s0))%Q.
Proof.
  intros s base cash ps.
  destruct (run_agrees es s0 0 0 Hmids Hfair (fresh_agrees _ _ _ _ Hfresh)) as [[Hacc Hpi Hpf] Hpnl].
  fold s base cash in Hacc, Hpi, Hpf, Hpnl. fold ps in Hpnl.
  assert (Hi : (dval (inventory (lg_inventory s)) == base)%Q) by (destruct Hacc as (-> & _); ring).
  assert (Hp' : (dval (pnl_inventory (lg_pnl s)) == base)%Q) by (rewrite Hpi; ring).
  assert (Ht : ∀ mark, (dval (total_pnl (lg_inventory s) mark) == cash + base * dval mark)%Q).
  { intros mark. rewrite (accounts_total _ _ _ mark Hacc). ring. }
  split; [done|]. split; [done|]. split; [done|]. split.
  - intros pf Hs p. destruct (Hpf pf Hs) as [Hq Hr]. fold p in Hq, Hr.
    split; [rewrite Hq; ring|]. intros mark. rewrite Hr, Hq. ring.
  - rewrite Ht. destruct Hfresh as [_ Hf2 _].
    assert (Hmk : marked (lg_pnl s0)).
    { rewrite Hf2, fresh_tracker. unfold marked. cbn. lra. }
    pose proof (run_total ps (lg_pnl s0) Hmk (events_marks es Hmids)) as H. rewrite <- Hpnl in H.
    rewrite money_charge in H. unfold ps in H at 1. rewrite (events_fills es Hmids) in H. fold cash in H.
    assert (H0 : (total_val (lg_pnl s0) - worth (lg_pnl s0) == 0)%Q).
    { rewrite Hf2. apply fresh_worth. }
    unfold total_val, worth in *. rewrite Hp' in H. lra.
Qed.
End Agreement.

(** ** One position in three books *)
Section Positions.
Context {D : Decimal} {C : Clock} {I : HashMapIter} {L : DecimalLaws D}.
Context (instant_floor : Z) (symbol : string) (product : ProductSpec).

(** A fill reaches the profit tracker when the book has a mid. *)
Definition attributed (e : LedgerEvent) : Prop :=
  match e with LFill _ _ _ _ mid _ => is_Some mid | LTick _ _ _ _ _ _ => True end.

Definition books_hold (b : Q) (s : Ledgers) : Prop :=
  (dval (inventory (lg_inventory s)) == b)%Q ∧
  (∀ pf, lg_portfolio s = Some pf → dval (pos_qty (position_of pf symbol)) == b)%Q.

(** The quantity traded over the fills. *)
Definition turnover (fs : list Fill) : Q := qsum (Qabs <$> vals (f_qty <$> fs)).

Lemma signed_qty_dval f : (dval (signed_qty f) == signed f)%Q.
Proof. unfold signed_qty, signed. destruct (f_side f); [done|by rewrite dneg_val]. Qed.

Lemma signed_gridded g f : gridded g (dval (f_qty f)) → gridded g (signed f).
Proof. unfold signed. destruct (f_side f); [done|apply gridded_opp]. Qed.

Lemma signed_abs f : (Qabs (signed f) == Qabs (dval (f_qty f)))%Q.
Proof. unfold signed. destruct (f_side f); [done|apply Qabs_opp]. Qed.

Lemma apply_fill_qty q price p : pos_qty (apply_fill q price p) = dadd (pos_qty p) q.
Proof. unfold apply_fill. cbv zeta. by destruct (_ || _). Qed.

Lemma fill_position q price class pf :
  pos_qty (position_of (portfolio_on_fill symbol q price class pf) symbol) = dadd (pos_qty (position_of pf symbol)) q.
Proof. unfold position_of, portfolio_on_fill. cbn [positions with_positions]. rewrite lookup_insert_eq. apply apply_fill_qty. Qed.

Lemma fill_inventory f m : inventory (inventory_on_fill f m) = dadd (inventory m) (signed_qty f).
Proof. unfold inventory_on_fill. by destruct (trade_stats _ _ _). Qed.

Lemma fill_tracker f mid t :
  pnl_inventory (pnl_on_fill f mid t) =
    match f_side f with Buy => dadd (pnl_inventory t) (f_qty f) | Sell => dsub (pnl_inventory t) (f_qty f) end.
Proof. unfold pnl_on_fill. by destruct (charge_fee _ _ _ _ _ _). Qed.

(** One fill moves a position of the grid by its signed quantity. *)
Section Step.
Context (g : nat) (Hg : g ≤ 28) (f : Fill) (b : Q).
Context (Hb : gridded g b) (Hf : gridded g (dval (f_qty f))) (Hr : (Qabs b + Qabs (dval (f_qty f)) < room g)%Q).

Lemma room_for_fill : (- room g < b + signed f < room g)%Q.
Proof.
  pose proof (Qabs_triangle b (signed f)) as Ht. rewrite signed_abs in Ht.
  apply Qabs_Qlt_condition. lra.
Qed.

Lemma moved a : (dval a == b)%Q → (dval (dadd a (signed_qty f)) == b + signed f)%Q.
Proof.
  pose proof room_for_fill. intros E.
  rewrite (gadd_val g), E, signed_qty_dval; [done|done|by rewrite E| |by rewrite E, signed_qty_dval].
  rewrite signed_qty_dval. by apply signed_gridded.
Qed.

Lemma tracker_moved mid t : (dval (pnl_inventory t) == b)%Q →
  (dval (pnl_inventory (pnl_on_fill f mid t)) == b + signed f)%Q.
Proof.
  pose proof room_for_fill as Hm. intros E. rewrite fill_tracker. unfold signed in *. destruct (f_side f).
  - rewrite (gadd_val g), E; [done|done|by rewrite E|done|by rewrite E].
  - rewrite (gsub_val g), E; [done|done|by rewrite E|done|]. rewrite E. split; [apply Hm|apply Hm].
Qed.
End Step.

Lemma own_fill_tracker now t venue class mid f s :
  lg_pnl (own_fill instant_floor symbol product now t venue class mid f s) =
    match mid with Some mid => pnl_on_fill f mid (lg_pnl s) | None => lg_pnl s end.
Proof. unfold own_fill. by destruct mid. Qed.

Lemma own_fill_books g now t venue class mid f s b : g ≤ 28 → gridded g b → gridded g (dval (f_qty f)) →
  (Qabs b + Qabs (dval (f_qty f)) < room g)%Q → books_hold b s →
  books_hold (b + signed f) (own_fill instant_floor symbol product now t venue class mid f s).
Proof.
  intros Hg Hb Hf Hr [H1 H2]. unfold own_fill.
  set (r := match mid with Some _ => _ | None => _ end). destruct r as [pnl prot]. split; cbn.
  - rewrite fill_inventory. by apply (moved g).
  - intros pf' Hpf. destruct (lg_portfolio s) as [pf|]; [|done]. injection Hpf as <-.
    rewrite fill_position. apply (moved g); [done..|]. by apply H2.
Qed.

Lemma tick_books now t mid sampled fnd poll s b : books_hold b s →
  books_hold b (account_tick symbol now t mid sampled fnd poll s).
Proof.
  intros [H1 H2]. destruct mid as [m|]; [|by split]. split; [done|]. cbn. intros pf' Hpf.
  destruct (lg_portfolio s) as [pf|]; [|done]. injection Hpf as <-. exact (H2 pf eq_refl).
Qed.

Lemma mark_tracker mid t : pnl_inventory (mark_to_market mid t) = pnl_inventory t.
Proof. unfold mark_to_market. by destruct (_ && _). Qed.

Lemma tick_tracker now t mid sampled fnd poll s b : books_hold b s →
  (dval (pnl_inventory (lg_pnl s)) == b)%Q →
  (dval (pnl_inventory (lg_pnl (account_tick symbol now t mid sampled fnd poll s))) == b)%Q.
Proof.
  intros [H1 _] H2. destruct mid as [m|]; [|done]. cbn. destruct fnd; [by rewrite funding_inventory|].
  by rewrite mark_tracker.
Qed.

Lemma flow_cons f fs : (base_flow (f :: fs) == signed f + base_flow fs)%Q.
Proof. unfold base_flow. cbn. ring. Qed.

Lemma turnover_nonneg fs : (0 <= turnover fs)%Q.
Proof.
  unfold turnover. induction fs as [|f fs IH]; [done|].
  change (0 <= Qabs (dval (f_qty f)) + qsum (Qabs <$> vals (f_qty <$> fs)))%Q.
  pose proof (Qabs_nonneg (dval (f_qty f))). lra.
Qed.

Lemma run_books g es : g ≤ 28 → ∀ s b, gridded g b → Forall (λ f, gridded g (dval (f_qty f))) (fills_in es) →
  (Qabs b + turnover (fills_in es) < room g)%Q → books_hold b s →
  let s' := ledger_run instant_floor symbol product es s in
  books_hold (b + base_flow (fills_in es)) s' ∧
  (Forall attributed es → (dval (pnl_inventory (lg_pnl s)) == b)%Q →
   (dval (pnl_inventory (lg_pnl s')) == b + base_flow (fills_in es))%Q).
Proof.
  intros Hg. induction es as [|e es IH]; intros s b Hb Hq Hr Hs.
  - assert (E : (b + base_flow (fills_in []) == b)%Q) by (cbn; ring).
    destruct Hs as [H1 H2]. split; [split; [by rewrite E|]|by intros; rewrite E].
    intros pf Hpf. rewrite E. by apply H2.
  - cbn [ledger_run fold_left]. fold (ledger_run instant_floor symbol product es (ledger_step instant_floor symbol product s e)).
    destruct e as [now t venue class mid f|now t mid sampled fnd poll].
    + change (fills_in (_ :: es)) with (f :: fills_in es) in *.
      change (turnover (f :: fills_in es)) with (Qabs (dval (f_qty f)) + turnover (fills_in es))%Q in Hr.
      apply Forall_cons in Hq as [Hf Hq].
      pose proof (turnover_nonneg (fills_in es)) as Ht.
      destruct (IH (own_fill instant_floor symbol product now t venue class mid f s) (b + signed f)%Q) as [[H1 H2] H3].
      * by apply gridded_add, signed_gridded.
      * done.
      * pose proof (Qabs_triangle b (signed f)) as Hx. rewrite signed_abs in Hx. lra.
      * apply (own_fill_books g); [done..| |done]. lra.
      * assert (E : (b + signed f + base_flow (fills_in es) == b + base_flow (f :: fills_in es))%Q)
          by (rewrite flow_cons; ring).
        split; [split; [by rewrite <- E|]|].
        -- intros pf Hpf. rewrite <- E. by apply H2.
        -- intros Ha Hp. apply Forall_cons in Ha as [[m ->] Ha]. rewrite <- E. apply H3; [done|].
           rewrite own_fill_tracker. apply (tracker_moved g); [done..| |done]. lra.
    + change (fills_in (_ :: es)) with (fills_in es) in *.
      destruct (IH (account_tick symbol now t mid sampled fnd poll s) b) as [H1 H2]; [done..|by apply tick_books|].
      split; [done|]. intros Ha Hp. apply Forall_cons in Ha as [_ Ha]. apply H2; [done|]. by apply tick_tracker.
Qed.

(** C12: from books that hold one position, whatever fills and seconds of the
    timer the engine handles, the inventory and the portfolio's position of the
    symbol are that position plus the base bought less the base sold, and so is
    the position of the profit tracker when every fill arrived while the book
    had a mid; and in any case a second of the timer with funding and a mid
    brings the tracker to it. The quantities are whole units of [10 ^ -g] that
    together fit 96 bits; the arithmetic is that of the decimal type. *)
Theorem positions_agree g es s0 b0 (Hg : g ≤ 28) (Hb0 : gridded g b0)
    (Hqty : Forall (λ f, gridded g (dval (f_qty f))) (fills_in es))
    (Hroom : (Qabs b0 + turnover (fills_in es) < room g)%Q) (Hbooks : books_hold b0 s0) :
  let s := ledger_run instant_floor symbol product es s0 in
  let position := (b0 + base_flow (fills_in es))%Q in
  (dval (inventory (lg_inventory s)) == position)%Q ∧
  (∀ pf, lg_portfolio s = Some pf → dval (pos_qty (position_of pf symbol)) == position)%Q ∧
  (Forall attributed es → (dval (pnl_inventory (lg_pnl s0)) == b0)%Q →
   (dval (pnl_inventory (lg_pnl s)) == position)%Q) ∧
  (∀ now t mid sampled poll,
     dval (pnl_inventory (lg_pnl (account_tick symbol now t (Some mid) sampled true poll s))) == position)%Q.
Proof.
  intros s position. destruct (run_books g es Hg s0 b0 Hb0 Hqty Hroom Hbooks) as [[H1 H2] H3].
  split; [exact H1|]. split; [exact H2|]. split; [exact H3|].
  intros now t mid sampled poll. cbn. rewrite funding_inventory. exact H1.
Qed.
End Positions.

Lemma own_fills_bounded {D : Decimal} {C : Clock} venue f l :
  length l ≤ 32 → length (push_own_fill venue f l) ≤ 32.
Proof.
  unfold push_own_fill. intros Hl. rewrite length_app. change (length [(venue, f)]) with 1.
  destruct (Nat.leb_spec 32 (length l)); [|lia]. destruct l; cbn [tail length] in *; lia.
Qed.

(** ** Witnesses *)
Definition demo_spec : ProductSpec (D := Qc_decimal) :=
  mkProductSpec "BTCUSDT" "BTC" "USDT" (dlit 1 2) (dlit 1 3) (dlit 10 0) (dlit (-1) 4) (dlit 5 4) Trading.

Definition demo_ledgers : Ledgers :=
  mkLedgers inventory_new [] OrderManager.new 0 (KillSwitch.new KillSwitchConfig_default (sec 0)) (volume_new dec0 dec0)
    (Some (portfolio_new "USDT")) (new_for Spot) (mark_to_market (dlit 100 0) (pnl_new (dlit (-1) 4) (dlit 5 4)))
    (Some (protections_new (mkProtectionsConfig None None None (Some (mkLowProfitConfig 3600 dec0 600 1))))) dec0 None.

Definition demo_second (n : Z) (mid : Z) (sampled : bool) : LedgerEvent :=
  LTick (sec n) (n * 10 ^ 9) (Some (dlit mid 0)) sampled false None.
Definition demo_own_fill (n : Z) (side : Side) (price qty mid : Z) : LedgerEvent :=
  LFill (sec n) (n * 10 ^ 9) "binance" "grid" (Some (dlit mid 0)) (demo_fill side price qty).

Definition demo_day : list LedgerEvent :=
  [demo_own_fill 1 Buy 100 10 100; demo_second 1 90 false; demo_second 2 90 true; demo_own_fill 3 Sell 91 4 90].

Lemma positions_agree_witness :
  let s := ledger_run 0 "BTCUSDT" demo_spec demo_day demo_ledgers in
  (dval (inventory (lg_inventory s)) == 6)%Q ∧ (dval (pnl_inventory (lg_pnl s)) == 6)%Q ∧
  is_Some (lg_portfolio s).
Proof.
  intros s. assert (Hq : ∀ z, (Z.abs z < 2 ^ 96)%Z → gridded 0 (dval (dlit z 0 : dec (Decimal := Qc_decimal)))).
  { intros z Hz. exists z. by apply dlit_val, fits_int. }
  destruct (positions_agree 0 "BTCUSDT" demo_spec 0 demo_day demo_ledgers 0) as (H1 & _ & H2 & _).
  - lia.
  - apply gridded_0.
  - repeat constructor; by apply Hq.
  - vm_compute. reflexivity.
  - split; [by vm_compute|]. intros pf [= <-]. by vm_compute.
  - split; [subst s; rewrite H1; by vm_compute|]. split; [|by eexists].
    subst s. rewrite H2; [by vm_compute| |by vm_compute]. repeat constructor; by eexists.
Defined.

(** A fill while a side of the book is empty never reaches the attribution: the
    tracker that feeds the kill switch misses the position from then on. *)
Example fill_without_mid_unattributed :
  let f := LFill (sec 1) 0 "binance" "grid" None (demo_fill Buy 100 10) in
  let s := ledger_run 0 "BTCUSDT" demo_spec [f; demo_second 1 50 false; demo_second 2 50 false] demo_ledgers in
  (dval (total_pnl (lg_inventory s) (dlit 50 0)) == - 500)%Q ∧
  (dval (attribution_total (attribution (lg_pnl s))) == 0)%Q ∧ fill_count (attribution (lg_pnl s)) = 0%Z.
Proof. repeat split; vm_compute; reflexivity. Qed.

(** What the protections are told of a fill is the spread captured so far less
    the total profit at the last sample. Here the position has lost 100 when it
    is sampled, and the sale that then realises a loss of 36 is recorded as a
    profit of 103.9. *)
Example loss_recorded_as_profit :
  let s := ledger_run 0 "BTCUSDT" demo_spec demo_day demo_ledgers in
  match lg_protections s with
  | Some p =>
      match low_profit_pairs p with
      | Some g => List.map (λ x, dval x.2) (default [] (lp_trades g !! "BTCUSDT"))
      | None => []
      end
  | None => []
  end = [1039 # 10]%Q.
Proof. vm_compute. reflexivity. Qed.
