(* ===== verification/Reconcile.v ===== *)
(** * Reconciliation with the venue

    The inventory-against-wallet drift check ([crates/risk/src/inventory_drift.rs]),
    the comparisons of [crates/risk/src/reconciliation.rs], and the engine's
    cycle over them ([refresh_balances], [reconcile] and
    [check_inventory_drift] of [crates/engine/src/market_maker.rs]). The theorem
    is what a cycle leaves: the tracked orders are the venue's, and the
    incidents are raised exactly when something differed. Left out: the audit
    lines, the balances published for the other venues, and the deltas kept for
    the surveillance detectors. *)
From stdpp Require Import base gmap list strings.
From Stdlib Require Import ZArith QArith Qabs Lqa Lia.
From S2P Require Import Prelude Decimal Types OrderManager OrderBook Inventory Risk Balance.
Local Open Scope nat_scope.

(** ** Sets with an unspecified order of iteration *)
Section HashSet.
Context {I : HashMapIter} {A : Type} `{Countable A}.

Definition hs_collect (l : list A) : gmap A unit := hm_collect ((λ x, (x, tt)) <$> l).
Definition hs_difference (s t : gmap A unit) : list A :=
  List.filter (λ x, negb (bool_decide (is_Some (t !! x)))) (hm_keys s).

Lemma hs_collect_elem l x : is_Some (hs_collect l !! x) ↔ x ∈ l.
Proof.
  unfold hs_collect, hm_collect.
  assert (Hg : ∀ m : gmap A unit, is_Some (fold_left (λ m e, <[e.1 := e.2]> m) ((λ x, (x, tt)) <$> l) m !! x) ↔
    is_Some (m !! x) ∨ x ∈ l).
  { induction l as [|y l IH]; intros m; cbn; [set_solver|]. rewrite IH, elem_of_cons.
    destruct (decide (x = y)) as [->|Hn]; [rewrite lookup_insert_eq; naive_solver|].
    rewrite lookup_insert_ne by done. naive_solver. }
  rewrite Hg, lookup_empty. rewrite is_Some_alt. naive_solver.
Qed.

Lemma hs_difference_elem s t x : x ∈ hs_difference s t ↔ is_Some (s !! x) ∧ t !! x = None.
Proof.
  unfold hs_difference. rewrite list_elem_of_In, filter_In, <- list_elem_of_In, hm_keys_elem.
  rewrite negb_true_iff, bool_decide_eq_false, <- eq_None_not_Some. done.
Qed.

Lemma hs_difference_NoDup s t : NoDup (hs_difference s t).
Proof. unfold hs_difference. apply NoDup_ListNoDup, List.NoDup_filter, NoDup_ListNoDup, hm_keys_NoDup. Qed.
End HashSet.

Section Drift.
Context {D : Decimal}.

(** ** [inventory_drift.rs] *)
Record DriftReport := mkDriftReport {
  dr_asset : string;
  dr_venue : string;
  dr_baseline_wallet : dec;
  dr_current_wallet : dec;
  dr_expected_inventory : dec;
  dr_tracked_inventory : dec;
  dr_drift : dec;
  dr_corrected : bool;
}.

Record InventoryDriftReconciler := mkDriftReconciler {
  ir_asset : string;
  baseline_wallet : option dec;
  tolerance : dec;
  auto_correct : bool;
  ir_venue : string;
}.

(** Panics on a negative tolerance. *)
Definition drift_new (asset : string) (tol : dec) (auto : bool) : outcome InventoryDriftReconciler :=
  if dleb dec0 tol then Done (mkDriftReconciler asset None tol auto "") else Panicked.

Definition drift_with_venue (venue : string) (r : InventoryDriftReconciler) : InventoryDriftReconciler :=
  mkDriftReconciler (ir_asset r) (baseline_wallet r) (tolerance r) (auto_correct r) venue.

Definition reset_baseline (b : dec) (r : InventoryDriftReconciler) : InventoryDriftReconciler :=
  mkDriftReconciler (ir_asset r) (Some b) (tolerance r) (auto_correct r) (ir_venue r).

Definition drift_check (current tracked : dec) (r : InventoryDriftReconciler) :
    option DriftReport * InventoryDriftReconciler :=
  match baseline_wallet r with
  | None => (None, reset_baseline current r)
  | Some baseline =>
      let expected := dsub current baseline in
      let drift := dsub expected tracked in
      if dleb (dabs drift) (tolerance r) then (None, r)
      else (Some (mkDriftReport (ir_asset r) (ir_venue r) baseline current expected tracked drift (auto_correct r)), r)
  end.

(** ** [reconciliation.rs] *)
Record PositionDeltaReport := mkPositionDelta {
  pd_reported_inventory : dec;
  pd_expected_inventory : dec;
  pd_delta : dec;
  pd_drifted : bool;
}.

Definition reconcile_position_delta (bought sold reported tol : dec) : PositionDeltaReport :=
  let expected := dsub bought sold in
  let delta := dsub reported expected in
  mkPositionDelta reported expected delta (dltb tol (dabs delta)).

Definition balance_mismatch (internal : gmap string dec) (tolerance_pct : dec) (b : Balance) :
    option (string * dec * dec) :=
  let internal_val := default dec0 (internal !! b_asset b) in
  let exchange_val := b_available b in
  if is_zero exchange_val && is_zero internal_val then None
  else
    let diff := dabs (dsub internal_val exchange_val) in
    let base := dmax internal_val exchange_val in
    let pct := if is_zero base then dlit 100 0 else dmul (ddiv diff base) (dlit 100 0) in
    if dltb tolerance_pct pct then Some (b_asset b, internal_val, exchange_val) else None.

Definition reconcile_balances (internal : gmap string dec) (exchange : list Balance) (tolerance_pct : dec) :
    list (string * dec * dec) := omap (balance_mismatch internal tolerance_pct) exchange.
End Drift.

Section Orders.
Context {D : Decimal} {C : Clock} {I : HashMapIter}.

Record ReconciliationResult := mkReconciliationResult {
  orphaned_orders : list OrderId;
  phantom_orders : list OrderId;
  rr_balance_mismatches : list (string * dec * dec);
  is_clean : bool;
}.

Definition is_empty {A} (l : list A) : bool := match l with [] => true | _ => false end.

Definition reconcile_orders (internal : gmap OrderId unit) (exchange : list LiveOrder) : ReconciliationResult :=
  let exchange_ids := hs_collect (lo_order_id <$> exchange) in
  let orphaned := hs_difference exchange_ids internal in
  let phantom := hs_difference internal exchange_ids in
  mkReconciliationResult orphaned phantom [] (is_empty orphaned && is_empty phantom).

(** ** The engine's cycle *)
Record ReconState := mkReconState {
  rc_symbol : string;
  rc_product : ProductSpec;
  rc_orders : OrderManager;
  rc_inventory : InventoryManager;
  rc_cache : BalanceCache;
  rc_exposure : ExposureManager;
  rc_drift : InventoryDriftReconciler;
  reconcile_counter : Z;
  inventory_drift_tolerance : dec;
}.

Inductive Incident :=
| GhostOrders (n : nat)
| PhantomOrders (n : nat)
| DriftIncident (r : DriftReport)
| PositionDelta (r : PositionDeltaReport).

Record ReconciliationSnapshot := mkReconSnapshot {
  rs_symbol : string;
  rs_cycle : Z;
  rs_internal_orders : nat;
  rs_venue_orders : nat;
  rs_ghost_orders : list OrderId;
  rs_phantom_orders : list OrderId;
  rs_balance_mismatches : list (string * dec * dec);
  rs_orders_fetch_failed : bool;
}.

Definition upd_rc (om : OrderManager) (inv : InventoryManager) (c : BalanceCache) (e : ExposureManager)
    (r : InventoryDriftReconciler) (n : Z) (s : ReconState) : ReconState :=
  mkReconState (rc_symbol s) (rc_product s) om inv c e r n (inventory_drift_tolerance s).

(** The primary's half of [refresh_balances]: [None] is a failed call. *)
Definition refresh_balances (bs : option (list Balance)) (s : ReconState) : ReconState :=
  match bs with
  | None => s
  | Some bs =>
      let quote := from_option b_available dec0
        (List.find (λ b, String.eqb (b_asset b) (quote_asset (rc_product s))) bs) in
      upd_rc (rc_orders s) (rc_inventory s) (update_from_exchange bs (rc_cache s)) (exposure_new quote)
        (rc_drift s) (reconcile_counter s) s
  end.

(** An order of the venue enters the tracker when it is a phantom. *)
Definition track_known (now : instant) (ps : list OrderId) (om : OrderManager) (vo : LiveOrder) : OrderManager :=
  if bool_decide (lo_order_id vo ∈ ps) then track_order now vo om else om.

(** Ghosts leave the tracker, phantoms enter it as the venue reports them. *)
Definition reconcile_live (now : instant) (venue_orders : list LiveOrder) (om : OrderManager) :
    list OrderId * list OrderId * OrderManager :=
  let internal := hs_collect (live_order_ids om) in
  let venue := hs_collect (lo_order_id <$> venue_orders) in
  let ghosts := hs_difference internal venue in
  let phantoms := hs_difference venue internal in
  let om := fold_left (λ om id, remove_order now id om) ghosts om in
  (ghosts, phantoms,
   fold_left (track_known now phantoms) venue_orders om).

Definition check_inventory_drift (s : ReconState) : option DriftReport * ReconState :=
  let wallet := total_in (rc_cache s) (base_asset (rc_product s)) Spot in
  let '(report, r) := drift_check wallet (inventory (rc_inventory s)) (rc_drift s) in
  let inv :=
    match report with
    | Some rep => if dr_corrected rep then force_reset_inventory_to (dr_expected_inventory rep) (rc_inventory s)
                  else rc_inventory s
    | None => rc_inventory s
    end in
  (report, upd_rc (rc_orders s) inv (rc_cache s) (rc_exposure s) r (reconcile_counter s) s).

Definition reconcile (now : instant) (bs : option (list Balance)) (open_orders : option (list LiveOrder)) (s : ReconState) :
    list Incident * ReconciliationSnapshot * ReconState :=
  let s := upd_rc (rc_orders s) (rc_inventory s) (rc_cache s) (rc_exposure s) (rc_drift s)
             (wrap_u64 (reconcile_counter s + 1)) s in
  let s := refresh_balances bs s in
  let internal := length (live_order_ids (rc_orders s)) in
  let '(ghosts, phantoms, om) :=
    match open_orders with
    | Some vos => reconcile_live now vos (rc_orders s)
    | None => ([], [], rc_orders s)
    end in
  let s := upd_rc om (rc_inventory s) (rc_cache s) (rc_exposure s) (rc_drift s) (reconcile_counter s) s in
  let '(report, s) := check_inventory_drift s in
  let inv := rc_inventory s in
  let delta := reconcile_position_delta (total_bought inv) (total_sold inv) (inventory inv)
                 (dmul (inventory_drift_tolerance s) (dlit 2 0)) in
  ((if is_empty ghosts then [] else [GhostOrders (length ghosts)])
   ++ (if is_empty phantoms then [] else [PhantomOrders (length phantoms)])
   ++ from_option (λ r, [DriftIncident r]) [] report
   ++ (if pd_drifted delta then [PositionDelta delta] else []),
   mkReconSnapshot (rc_symbol s) (reconcile_counter s) internal
     (from_option (λ vos, size (hs_collect (lo_order_id <$> vos))) 0 open_orders) ghosts phantoms
     (from_option (λ r, [(dr_asset r, dr_tracked_inventory r, dr_expected_inventory r)]) [] report)
     (is_none open_orders),
   s).
End Orders.

(** ** What a cycle leaves *)
Section CycleFacts.
Context {D : Decimal} {L : DecimalLaws D} {C : Clock} {I : HashMapIter}.
Implicit Types (om : OrderManager).

Lemma fold_remove_live now ids om id : live_orders (fold_left (λ om id, remove_order now id om) ids om) !! id =
  if bool_decide (id ∈ ids) then None else live_orders om !! id.
Proof.
  revert om. induction ids as [|i ids IH]; intros om; cbn [fold_left]; [done|]. rewrite IH, live_remove.
  destruct (decide (id = i)) as [->|Hn].
  - rewrite lookup_delete_eq. rewrite (bool_decide_true (i ∈ i :: ids)) by set_solver. by destruct (bool_decide _).
  - rewrite lookup_delete_ne by done. by rewrite (bool_decide_ext (id ∈ i :: ids) (id ∈ ids)) by set_solver.
Qed.

Lemma fold_remove_wf now ids om : wf om → wf (fold_left (λ om id, remove_order now id om) ids om).
Proof. revert om. induction ids as [|i ids IH]; intros om H; [done|]. by apply IH, wf_remove. Qed.

Lemma fold_track_live now ps vos id : NoDup (lo_order_id <$> vos) → ∀ om,
  live_orders (fold_left (track_known now ps) vos om) !! id =
    match List.find (λ vo, bool_decide (lo_order_id vo = id)) vos with
    | Some vo => if bool_decide (id ∈ ps) then Some vo else live_orders om !! id
    | None => live_orders om !! id
    end.
Proof.
  induction vos as [|vo vos IH]; intros Hnd om; [done|]. apply NoDup_cons in Hnd as [Hni Hnd].
  cbn [fold_left List.find]. rewrite IH by done. unfold track_known.
  destruct (decide (lo_order_id vo = id)) as [<-|Hn].
  - rewrite (bool_decide_true (_ = _)) by done.
    destruct (List.find _ vos) as [vo'|] eqn:Ef.
    { apply find_some in Ef as [Hin Hid%bool_decide_eq_true]. destruct Hni. rewrite <- Hid.
      apply list_elem_of_fmap_2. by apply list_elem_of_In. }
    destruct (bool_decide (lo_order_id vo ∈ ps)); [|done]. rewrite live_track. apply lookup_insert_eq.
  - rewrite (bool_decide_false (_ = _)) by done.
    assert (E : live_orders (if bool_decide (lo_order_id vo ∈ ps) then track_order now vo om else om) !! id = live_orders om !! id).
    { destruct (bool_decide (lo_order_id vo ∈ ps)); [|done]. rewrite live_track. by apply lookup_insert_ne. }
    by destruct (List.find _ vos); rewrite E.
Qed.

Lemma fold_track_wf now ps vos : NoDup (lo_order_id <$> vos) → NoDup (level <$> vos) → ∀ om, wf om →
  (∀ vo, vo ∈ vos → lo_order_id vo ∈ ps → live_orders om !! lo_order_id vo = None ∧
     ∀ id o, live_orders om !! id = Some o → level o ≠ level vo) →
  wf (fold_left (track_known now ps) vos om).
Proof.
  induction vos as [|vo vos IH]; intros Hni Hnl om Hwf Hfree; [done|].
  apply NoDup_cons in Hni as [Hi Hni], Hnl as [Hl Hnl]. cbn [fold_left]. unfold track_known at 2.
  destruct (bool_decide (lo_order_id vo ∈ ps)) eqn:Eb.
  2:{ apply IH; [done..|]. intros v Hv. apply Hfree. by right. }
  apply bool_decide_eq_true in Eb. destruct (Hfree vo ltac:(by left) Eb) as [Hno Hlv].
  apply IH; [done..| |].
  - apply wf_track; [done|done|]. apply eq_None_not_Some. intros [id (o & Ho & He)%wf_index]; [|done].
    by apply (Hlv id o Ho).
  - intros v Hv Hp. destruct (Hfree v ltac:(by right) Hp) as [H1 H2]. rewrite live_track. split.
    + rewrite lookup_insert_ne; [done|]. intros E. apply Hi. rewrite E. by apply list_elem_of_fmap_2.
    + intros id o [[<- <-]|[_ Ho]]%lookup_insert_Some; [|by eapply H2].
      intros E. apply Hl. rewrite E. by apply list_elem_of_fmap_2.
Qed.

Definition venue_order (vos : list LiveOrder) (id : OrderId) : option LiveOrder :=
  List.find (λ vo, bool_decide (lo_order_id vo = id)) vos.

Lemma venue_order_some vos id : is_Some (venue_order vos id) ↔ id ∈ lo_order_id <$> vos.
Proof.
  rewrite list_elem_of_fmap. unfold venue_order. split.
  - intros [vo [Hin Hid%bool_decide_eq_true]%find_some]. exists vo. by rewrite list_elem_of_In.
  - intros (vo & -> & Hin). destruct (List.find _ vos) eqn:Ef; [done|]. exfalso.
    by apply list_elem_of_In, (find_none _ _ Ef vo), bool_decide_eq_false in Hin.
Qed.

Lemma live_internal om id : is_Some (hs_collect (live_order_ids om) !! id) ↔ is_Some (live_orders om !! id).
Proof. rewrite hs_collect_elem. apply hm_keys_elem. Qed.

Lemma ghosts_elem om vos id : id ∈ hs_difference (hs_collect (live_order_ids om)) (hs_collect (lo_order_id <$> vos)) ↔
  is_Some (live_orders om !! id) ∧ venue_order vos id = None.
Proof.
  rewrite hs_difference_elem, live_internal, !eq_None_not_Some, hs_collect_elem, venue_order_some. done.
Qed.

Lemma phantoms_elem om vos id : id ∈ hs_difference (hs_collect (lo_order_id <$> vos)) (hs_collect (live_order_ids om)) ↔
  is_Some (venue_order vos id) ∧ live_orders om !! id = None.
Proof. rewrite hs_difference_elem, !eq_None_not_Some, live_internal, hs_collect_elem, venue_order_some. done. Qed.

(** After a cycle an order is tracked exactly when the venue reports it, as it
    was tracked before, or as the venue reports it when it was not. *)
Lemma reconcile_live_lookup now vos om id : NoDup (lo_order_id <$> vos) →
  live_orders (reconcile_live now vos om).2 !! id =
    match venue_order vos id with
    | Some vo => Some (default vo (live_orders om !! id))
    | None => None
    end.
Proof.
  intros Hnd. unfold reconcile_live. cbn [snd].
  rewrite (fold_track_live now _ vos id Hnd), fold_remove_live. fold (venue_order vos id).
  pose proof (ghosts_elem om vos id) as Hg. pose proof (phantoms_elem om vos id) as Hp.
  destruct (venue_order vos id) as [vo|] eqn:Ev, (live_orders om !! id) as [o|] eqn:Eo; cbn.
  - rewrite bool_decide_false by (rewrite Hp; naive_solver). by rewrite bool_decide_false by (rewrite Hg; naive_solver).
  - by rewrite bool_decide_true by (rewrite Hp; eauto).
  - by rewrite bool_decide_true by (rewrite Hg; eauto).
  - by destruct (bool_decide _).
Qed.

Lemma reconcile_live_wf now vos om : wf om → NoDup (lo_order_id <$> vos) → NoDup (level <$> vos) →
  (∀ vo id o, vo ∈ vos → live_orders om !! lo_order_id vo = None → live_orders om !! id = Some o →
     id ∈ lo_order_id <$> vos → level o ≠ level vo) →
  wf (reconcile_live now vos om).2.
Proof.
  intros Hwf Hni Hnl Hfree. unfold reconcile_live. cbn [snd].
  apply (fold_track_wf now _ vos Hni Hnl); [by apply fold_remove_wf|].
  intros vo Hvo Hp%phantoms_elem. destruct Hp as [_ Hno]. rewrite fold_remove_live, Hno.
  split; [by destruct (bool_decide _)|]. intros id o. rewrite fold_remove_live.
  destruct (bool_decide _) eqn:Eb; [done|]. apply bool_decide_eq_false in Eb. intros Ho.
  apply (Hfree vo id o Hvo Hno Ho). apply venue_order_some. apply not_eq_None_Some. intros Hn. apply Eb, ghosts_elem. eauto.
Qed.

Definition order_incident (i : Incident) : bool :=
  match i with GhostOrders _ | PhantomOrders _ => true | _ => false end.

Lemma is_empty_nil {A} (l : list A) : is_empty l = true ↔ l = [].
Proof. by destruct l. Qed.

Lemma reconcile_unfold now bs vos s :
  let om := rc_orders s in
  let x := reconcile_live now vos om in
  let y := reconcile now bs (Some vos) s in
  rc_orders y.2 = x.2 ∧
  List.filter order_incident y.1.1 =
    (if is_empty x.1.1 then [] else [GhostOrders (length x.1.1)]) ++
    (if is_empty x.1.2 then [] else [PhantomOrders (length x.1.2)]).
Proof.
  intros om x y. unfold y, reconcile.
  assert (Er : ∀ s', rc_orders (refresh_balances bs s') = rc_orders s') by (intros s'; by destruct bs).
  rewrite Er. cbn [upd_rc rc_orders]. fold om. fold x. destruct x as [[gs ps] om'] eqn:Ex.
  unfold check_inventory_drift. destruct (drift_check _ _ _) as [report r]. cbn.
  split; [done|]. rewrite !List.filter_app.
  destruct (is_empty gs), (is_empty ps), report; cbn; by destruct (dltb _ _).
Qed.

(** C13: when the venue answers with its open orders, without a repeated id, a
    cycle leaves tracked exactly those orders, each as it was tracked or else
    as the venue reports it; it raises an incident about orders exactly when
    the tracked ids differed from the venue's, and the next cycle with the same
    answer raises none; and the price index stays the inverse of the orders
    when no unknown order sits at the level of another one. *)
Theorem reconcile_tracks_venue now bs vos s (Hids : NoDup (lo_order_id <$> vos)) :
  let r := reconcile now bs (Some vos) s in
  (∀ id, live_orders (rc_orders r.2) !! id =
     (λ vo, default vo (live_orders (rc_orders s) !! id)) <$> venue_order vos id) ∧
  (List.filter order_incident r.1.1 = [] ↔
     ∀ id, is_Some (live_orders (rc_orders s) !! id) ↔ id ∈ lo_order_id <$> vos) ∧
  (∀ now' bs', List.filter order_incident (reconcile now' bs' (Some vos) r.2).1.1 = []) ∧
  (wf (rc_orders s) → NoDup (level <$> vos) →
   (∀ vo id o, vo ∈ vos → live_orders (rc_orders s) !! lo_order_id vo = None → live_orders (rc_orders s) !! id = Some o →
      id ∈ lo_order_id <$> vos → level o ≠ level vo) →
   wf (rc_orders r.2)).
Proof.
  intros r. destruct (reconcile_unfold now bs vos s) as [Eo Ei]. fold r in Eo, Ei.
  assert (Hlive : ∀ id, live_orders (rc_orders r.2) !! id =
     (λ vo, default vo (live_orders (rc_orders s) !! id)) <$> venue_order vos id).
  { intros id. rewrite Eo, reconcile_live_lookup by done. by destruct (venue_order vos id). }
  assert (Hinc : ∀ now bs s, List.filter order_incident (reconcile now bs (Some vos) s).1.1 = [] ↔
     ∀ id, is_Some (live_orders (rc_orders s) !! id) ↔ id ∈ lo_order_id <$> vos).
  { clear. intros now bs s. destruct (reconcile_unfold now bs vos s) as [_ ->].
    pose proof (ghosts_elem (rc_orders s) vos) as Hg. pose proof (phantoms_elem (rc_orders s) vos) as Hp.
    unfold reconcile_live. cbn [fst snd].
    set (gs := hs_difference (hs_collect (live_order_ids _)) _) in *.
    set (ps := hs_difference _ (hs_collect (live_order_ids _))) in *.
    clearbody gs ps. transitivity (gs = [] ∧ ps = []); [split; [by destruct gs, ps|by intros [-> ->]]|].
    setoid_rewrite <- venue_order_some. split.
    - intros [-> ->] id. specialize (Hg id). specialize (Hp id).
      destruct (live_orders _ !! id) eqn:E1, (venue_order vos id) eqn:E2; rewrite ?is_Some_alt; set_solver.
    - intros H. split; apply list.elem_of_nil_inv; intros id.
      + rewrite Hg, H. intros [[? ?] ?]. congruence.
      + rewrite Hp. intros [[? ?]%H ?]. congruence. }
  split; [done|]. split; [apply Hinc|]. split.
  - intros now' bs'. apply Hinc. intros id. rewrite Hlive, fmap_is_Some. apply venue_order_some.
  - intros Hwf Hl Hf. rewrite Eo. by apply reconcile_live_wf.
Qed.
End CycleFacts.

(** ** What the drift check finds *)
Section DriftFacts.
Context {D : Decimal} {C : Clock} {E : DecimalExact D}.

Lemma drift_check_some b cur tr r : baseline_wallet r = Some b →
  is_Some (drift_check cur tr r).1 ↔ (dval (tolerance r) < Qabs (dval cur - dval b - dval tr))%Q.
Proof.
  intros Hb. unfold drift_check. rewrite Hb.
  assert (Hv : (dval (dabs (dsub (dsub cur b) tr)) == Qabs (dval cur - dval b - dval tr))%Q)
    by (by rewrite dabs_val, !dsub_exact).
  destruct (dleb _ _) eqn:El; rewrite is_Some_alt; cbn.
  - apply dleb_le in El. unfold dle in El. rewrite Hv in El. split; [done|]. intros Hlt. by apply Qle_not_lt in El.
  - apply dleb_gt in El. unfold dlt in El. rewrite Hv in El. done.
Qed.

(** In exact arithmetic, once the baseline was taken with no fill behind it,
    and while the wallet moves with the fills alone, a check reports a drift
    exactly when the fills the engine missed net to more than the tolerance;
    the drift is their net quantity, and the expected inventory, to which an
    automatic correction sets the tracker, counts every fill. *)
Theorem drift_finds_missed_fills r b seen missed wallet (Hb : baseline_wallet r = Some b)
    (Hfair : Forall fair_fill seen)
    (Hwallet : (dval wallet == dval b + base_flow seen + base_flow missed)%Q) :
  let m := on_fills seen inventory_new in
  (is_Some (drift_check wallet (inventory m) r).1 ↔ (dval (tolerance r) < Qabs (base_flow missed))%Q) ∧
  ∀ rep, (drift_check wallet (inventory m) r).1 = Some rep →
    (dval (dr_drift rep) == base_flow missed)%Q ∧ dr_corrected rep = auto_correct r ∧
    (dval (inventory (force_reset_inventory_to (dr_expected_inventory rep) m)) == base_flow seen + base_flow missed)%Q.
Proof.
  intros m. pose proof (accounts_fills seen 0 0 inventory_new accounts_new Hfair) as (Hi & _). fold m in Hi.
  assert (Hd : (dval wallet - dval b - dval (inventory m) == base_flow missed)%Q) by (rewrite Hwallet, Hi; ring).
  split; [by rewrite (drift_check_some b), Hd|].
  intros rep. unfold drift_check. rewrite Hb. destruct (dleb _ _); [done|]. intros [= <-]. cbn.
  rewrite !dsub_exact, Hd, Hwallet. split; [done|]. split; [done|]. ring.
Qed.

(** An inventory that is in place when the baseline is taken, restored from a
    checkpoint or filled before the first cycle, is reported as drift by every
    later check, and the automatic correction erases it. *)
Lemma restored_inventory_erased b m0 r : baseline_wallet r = None → auto_correct r = true →
  (dval (tolerance r) < Qabs (dval (inventory m0)))%Q →
  let r1 := (drift_check b (inventory m0) r).2 in
  ∃ rep, (drift_check b (inventory m0) r1).1 = Some rep ∧
    (dval (inventory (force_reset_inventory_to (dr_expected_inventory rep) m0)) == 0)%Q.
Proof.
  intros Hb Ha Ht r1. unfold r1, drift_check. rewrite Hb. cbn.
  assert (El : dleb (dabs (dsub (dsub b b) (inventory m0))) (tolerance r) = false).
  { apply dleb_gt. unfold dlt. rewrite dabs_val, !dsub_exact.
    assert (Hz : (dval b - dval b - dval (inventory m0) == - dval (inventory m0))%Q) by ring.
    by rewrite Hz, Qabs_opp. }
  rewrite El. eexists. split; [done|]. cbn. rewrite dsub_exact. ring.
Qed.

(** The third comparison sees only what the tracker itself counted: whatever
    fills are missed, the tracker that was never set by hand shows no delta. *)
Lemma position_delta_blind seen tol : Forall fair_fill seen → (0 <= dval tol)%Q →
  let m := on_fills seen inventory_new in
  pd_drifted (reconcile_position_delta (total_bought m) (total_sold m) (inventory m) tol) = false.
Proof.
  intros Hf Ht m. cbn. apply dltb_ge. unfold dle. rewrite dabs_val, !dsub_exact.
  assert (Hb : ∀ fs m, (dval (total_bought (on_fills fs m)) - dval (total_sold (on_fills fs m)) ==
    dval (total_bought m) - dval (total_sold m) + base_flow fs)%Q).
  { induction fs as [|f fs IH]; intros m'; [cbn; ring|]. cbn [on_fills fold_left].
    fold (on_fills fs (inventory_on_fill f m')). rewrite IH. unfold inventory_on_fill.
    destruct (trade_stats _ _ _). unfold base_flow. cbn. unfold signed.
    destruct (f_side f); cbn; rewrite ?dadd_exact; ring. }
  specialize (Hb seen inventory_new). fold m in Hb.
  pose proof (accounts_fills seen 0 0 inventory_new accounts_new Hf) as (Hi & _). fold m in Hi.
  assert (Hz : (dval (inventory m) - (dval (total_bought m) - dval (total_sold m)) == 0)%Q).
  { rewrite Hi, Hb. cbn. rewrite dec0_val. ring. }
  rewrite Hz. cbn. done.
Qed.

(** ... and once it was corrected by hand, the correction is reported for ever. *)
Lemma position_delta_after_reset x m tol :
  (dval (pd_delta (reconcile_position_delta (total_bought (force_reset_inventory_to x m))
     (total_sold (force_reset_inventory_to x m)) (inventory (force_reset_inventory_to x m)) tol)) ==
   dval x - (dval (total_bought m) - dval (total_sold m)))%Q.
Proof. cbn. by rewrite !dsub_exact. Qed.

(** A balance refresh starts the drawdown at the wallet's quote balance, while
    the equity the gate compares with it is the profit since the start: the
    drawdown counts the funds as lost. *)
Lemma refresh_counts_funds_as_drawdown (balance pnl : dec) (config : RiskConfig) :
  (dval pnl <= dval balance)%Q →
  let em := update_equity pnl (exposure_new balance) in
  is_drawdown_breached em pnl config = true ↔ (dval (max_drawdown_quote config) < dval balance - dval pnl)%Q.
Proof.
  intros Hle em. unfold em, update_equity, is_drawdown_breached. cbn.
  assert (El : dltb balance pnl = false) by (apply dltb_ge; exact Hle). rewrite El.
  rewrite dltb_lt. unfold dlt, drawdown. cbn. by rewrite dsub_exact.
Qed.
End DriftFacts.

(** ** Witnesses *)
Definition demo_live (id : OrderId) (side : Side) (price : Z) : LiveOrder (D := Qc_decimal) :=
  mkLiveOrder id "BTCUSDT" side (dlit price 0) (dlit 1 0) dec0 Open (sec 0).

Definition demo_drift : InventoryDriftReconciler (D := Qc_decimal) :=
  mkDriftReconciler "BTC" None (dlit 1 1) true "binance".

Definition demo_recon : ReconState :=
  mkReconState "BTCUSDT" (mkProductSpec "BTCUSDT" "BTC" "USDT" (dlit 1 2) (dlit 1 3) (dlit 10 0) dec0 dec0 Trading)
    (track_order (sec 0) (demo_live 1 Buy 99) (track_order (sec 0) (demo_live 2 Buy 98) OrderManager.new))
    inventory_new (new_for Spot) (exposure_new dec0) demo_drift 0 (dlit 1 1).

Definition demo_venue : list LiveOrder := [demo_live 1 Buy 99; demo_live 3 Sell 101].

Lemma reconcile_tracks_venue_witness :
  let r := reconcile (sec 9) None (Some demo_venue) demo_recon in
  live_orders (rc_orders r.2) !! 3%N = Some (demo_live 3 Sell 101) ∧ live_orders (rc_orders r.2) !! 2%N = None ∧
  List.filter order_incident (reconcile (sec 19) None (Some demo_venue) r.2).1.1 = [].
Proof.
  intros r. destruct (reconcile_tracks_venue (sec 9) None demo_venue demo_recon) as (Hl & _ & Hn & _).
  - apply (bool_decide_unpack _). vm_compute. exact Logic.I.
  - split; [exact (Hl 3%N)|]. split; [exact (Hl 2%N)|]. exact (Hn (sec 19) None).
Defined.

Lemma drift_finds_missed_fills_witness :
  let m := on_fills [demo_fill Buy 100 2] inventory_new in
  is_Some (drift_check (dlit 8 0) (inventory m) (reset_baseline (dlit 5 0) demo_drift)).1.
Proof.
  intros m.
  apply (drift_finds_missed_fills (reset_baseline (dlit 5 0) demo_drift) (dlit 5 0) [demo_fill Buy 100 2] [demo_fill Buy 99 1] (dlit 8 0)).
  - reflexivity.
  - repeat constructor; vm_compute; congruence.
  - vm_compute. reflexivity.
  - vm_compute. reflexivity.
Defined.

(** In paper mode nothing rests on the venue: a cycle whose order query succeeds
    drops every simulated order. *)
Example paper_orders_are_ghosts :
  let s := mkReconState "BTCUSDT" (rc_product demo_recon)
    (track_order (sec 0) (demo_live 1 Buy 99) OrderManager.new_paper)
    inventory_new (new_paper_for Spot) (exposure_new dec0) demo_drift 0 (dlit 1 1) in
  let r := reconcile (sec 9) None (Some []) s in
  live_count (rc_orders r.2) = 0 ∧ r.1.1 = [GhostOrders 1].
Proof. split; vm_compute; reflexivity. Qed.
