(* ===== verification/AuditLog.v ===== *)
(** * The audit log ([crates/risk/src/audit.rs] and [audit_reader.rs])

    Rows of JSON text, each carrying the SHA-256 of the row before, in a file
    that a new day renames. The disk is a map from paths to contents; whether a
    rename, an open and each of the writes succeeds, and how much a failing
    write still puts on the disk, are inputs of each call. The
    compression and upload of a closed file run elsewhere and are left out. *)
From stdpp Require Import base gmap sets list strings countable.
From Stdlib Require Import ZArith Lia Ascii.
From S2P Require Import Prelude Decimal Types Bytes.
Local Open Scope string_scope.
Local Open Scope nat_scope.
Local Open Scope list_scope.

(** ** Event types *)
Inductive AuditEventType := OrderPlaced | OrderCancelled | OrderAmended | OrderFilled | OrderRejected |
  CircuitBreakerTripped | KillSwitchEscalated | KillSwitchReset | InventoryLimitHit | ExchangeConnected |
  ExchangeDisconnected | ExchangeReconnected | BookResync | EngineStarted | EngineShutdown | ConfigLoaded |
  CheckpointSaved | BalanceReconciled | SlaViolation | StrategyQuoteRefresh | RegimeChange |
  OrderToTradeRatioSnapshot | InventoryDriftDetected | ProtectionsLocked | ProtectionsCleared | XemmHedgeRejected |
  PairDispatchEntered | PairDispatchExited | PairTakerRejected | PairBreak | CrossVenueBasisEntered |
  CrossVenueBasisExited | PairLifecycleListed | PairLifecycleDelisted | PairLifecycleHalted | PairLifecycleResumed |
  PairLifecycleTickLotChanged | PairLifecycleMinNotionalChanged | HedgeBasketRecommended | VarGuardThrottleApplied |
  RouteDecisionEmitted | ListingEntered | ListingEntryRejected | CointegrationScreened | RouteDispatched |
  StatArbEntered | StatArbExited | OfiFeatureSnapshot | AsSpreadWidened | LeadLagTriggered | NewsRetreatActivated |
  NewsRetreatExpired | StrategyGraphDeployed | StrategyGraphRolledBack | StrategyGraphDeployRejected |
  StrategyGraphNodePatched | StrategyGraphRestrictedDeployAcked | StrategyGraphSinkFired | SurveillanceAlert |
  ListingDiscovered | ListingRemoved | LoanCreated | LoanUpdated | LoanReturnScheduled | LoanReturnCompleted |
  LoanUtilizationAlert | LoanStatusChanged | WithdrawRequested | WithdrawCompleted | InternalTransferRequested |
  InternalTransferCompleted | AutoRebalanceExecuted | ReportGenerated | LoginSucceeded | LoginFailed |
  LogoutSucceeded | PasswordResetIssued | PasswordResetCompleted | FundingAccrued.

Definition event_tag (t : AuditEventType) : nat :=
  match t with
  | OrderPlaced => 0 | OrderCancelled => 1 | OrderAmended => 2 | OrderFilled => 3 | OrderRejected => 4 |
  CircuitBreakerTripped => 5 | KillSwitchEscalated => 6 | KillSwitchReset => 7 | InventoryLimitHit => 8 |
  ExchangeConnected => 9 | ExchangeDisconnected => 10 | ExchangeReconnected => 11 | BookResync => 12 | EngineStarted
  => 13 | EngineShutdown => 14 | ConfigLoaded => 15 | CheckpointSaved => 16 | BalanceReconciled => 17 | SlaViolation
  => 18 | StrategyQuoteRefresh => 19 | RegimeChange => 20 | OrderToTradeRatioSnapshot => 21 | InventoryDriftDetected
  => 22 | ProtectionsLocked => 23 | ProtectionsCleared => 24 | XemmHedgeRejected => 25 | PairDispatchEntered => 26 |
  PairDispatchExited => 27 | PairTakerRejected => 28 | PairBreak => 29 | CrossVenueBasisEntered => 30 |
  CrossVenueBasisExited => 31 | PairLifecycleListed => 32 | PairLifecycleDelisted => 33 | PairLifecycleHalted => 34
  | PairLifecycleResumed => 35 | PairLifecycleTickLotChanged => 36 | PairLifecycleMinNotionalChanged => 37 |
  HedgeBasketRecommended => 38 | VarGuardThrottleApplied => 39 | RouteDecisionEmitted => 40 | ListingEntered => 41 |
  ListingEntryRejected => 42 | CointegrationScreened => 43 | RouteDispatched => 44 | StatArbEntered => 45 |
  StatArbExited => 46 | OfiFeatureSnapshot => 47 | AsSpreadWidened => 48 | LeadLagTriggered => 49 |
  NewsRetreatActivated => 50 | NewsRetreatExpired => 51 | StrategyGraphDeployed => 52 | StrategyGraphRolledBack =>
  53 | StrategyGraphDeployRejected => 54 | StrategyGraphNodePatched => 55 | StrategyGraphRestrictedDeployAcked => 56
  | StrategyGraphSinkFired => 57 | SurveillanceAlert => 58 | ListingDiscovered => 59 | ListingRemoved => 60 |
  LoanCreated => 61 | LoanUpdated => 62 | LoanReturnScheduled => 63 | LoanReturnCompleted => 64 |
  LoanUtilizationAlert => 65 | LoanStatusChanged => 66 | WithdrawRequested => 67 | WithdrawCompleted => 68 |
  InternalTransferRequested => 69 | InternalTransferCompleted => 70 | AutoRebalanceExecuted => 71 | ReportGenerated
  => 72 | LoginSucceeded => 73 | LoginFailed => 74 | LogoutSucceeded => 75 | PasswordResetIssued => 76 |
  PasswordResetCompleted => 77 | FundingAccrued => 78
  end.
Definition all_event_types : list AuditEventType :=
  [OrderPlaced; OrderCancelled; OrderAmended; OrderFilled; OrderRejected; CircuitBreakerTripped;
  KillSwitchEscalated; KillSwitchReset; InventoryLimitHit; ExchangeConnected; ExchangeDisconnected;
  ExchangeReconnected; BookResync; EngineStarted; EngineShutdown; ConfigLoaded; CheckpointSaved; BalanceReconciled;
  SlaViolation; StrategyQuoteRefresh; RegimeChange; OrderToTradeRatioSnapshot; InventoryDriftDetected;
  ProtectionsLocked; ProtectionsCleared; XemmHedgeRejected; PairDispatchEntered; PairDispatchExited;
  PairTakerRejected; PairBreak; CrossVenueBasisEntered; CrossVenueBasisExited; PairLifecycleListed;
  PairLifecycleDelisted; PairLifecycleHalted; PairLifecycleResumed; PairLifecycleTickLotChanged;
  PairLifecycleMinNotionalChanged; HedgeBasketRecommended; VarGuardThrottleApplied; RouteDecisionEmitted;
  ListingEntered; ListingEntryRejected; CointegrationScreened; RouteDispatched; StatArbEntered; StatArbExited;
  OfiFeatureSnapshot; AsSpreadWidened; LeadLagTriggered; NewsRetreatActivated; NewsRetreatExpired;
  StrategyGraphDeployed; StrategyGraphRolledBack; StrategyGraphDeployRejected; StrategyGraphNodePatched;
  StrategyGraphRestrictedDeployAcked; StrategyGraphSinkFired; SurveillanceAlert; ListingDiscovered; ListingRemoved;
  LoanCreated; LoanUpdated; LoanReturnScheduled; LoanReturnCompleted; LoanUtilizationAlert; LoanStatusChanged;
  WithdrawRequested; WithdrawCompleted; InternalTransferRequested; InternalTransferCompleted; AutoRebalanceExecuted;
  ReportGenerated; LoginSucceeded; LoginFailed; LogoutSucceeded; PasswordResetIssued; PasswordResetCompleted;
  FundingAccrued].

Lemma event_tag_lookup t : all_event_types !! event_tag t = Some t.
Proof. by destruct t. Qed.

#[export] Instance AuditEventType_eq_dec : EqDecision AuditEventType.
Proof.
  intros t u. destruct (decide (event_tag t = event_tag u)) as [E|E]; [left|right; congruence].
  apply (inj Some). by rewrite <- !event_tag_lookup, E.
Defined.
#[export] Instance AuditEventType_countable : Countable AuditEventType.
Proof. exact (inj_countable event_tag (λ n, all_event_types !! n) event_tag_lookup). Defined.

(** The rows that must be on the disk before [log] returns. *)
Definition is_critical (t : AuditEventType) : bool :=
  match t with
  | OrderFilled | KillSwitchEscalated | CircuitBreakerTripped | StrategyGraphDeployed | StrategyGraphRolledBack
  | StrategyGraphDeployRejected | StrategyGraphRestrictedDeployAcked | StrategyGraphNodePatched | StrategyGraphSinkFired
  | SurveillanceAlert | LoginSucceeded | LoginFailed | LogoutSucceeded | PasswordResetIssued | PasswordResetCompleted =>
      true
  | _ => false
  end.

(** ** Text files

    [str::lines]: lines end in a newline with an optional carriage return, the
    last one may lack both. *)
Definition newline : ascii := "010".
Definition carriage : ascii := "013".

Fixpoint strip_cr (s : string) : string :=
  match s with
  | "" => ""
  | String c "" => if decide (c = carriage) then "" else s
  | String c s' => String c (strip_cr s')
  end.

Fixpoint lines_of (l : list string) : list string :=
  match l with
  | [] => []
  | [x] => if decide (x = "") then [] else [x]
  | x :: l => strip_cr x :: lines_of l
  end.
Definition str_lines (s : string) : list string := lines_of (split_on newline s).

(** [Path]: the parent, the file stem and the extension. *)
Definition Path : Type := option string * option string * option string.
#[export] Instance Path_eq_dec : EqDecision Path.
Proof. unfold Path. apply _. Defined.
#[export] Instance Path_countable : Countable Path.
Proof. exact (prod_countable (A := option string * option string)). Defined.
#[export] Typeclasses Opaque Path.
Abbreviation Disk := (@gmap Path Path_eq_dec Path_countable string).

Definition read_to_string (d : Disk) (p : Path) : option string :=
  match d !! p with Some s => if utf8_valid s then Some s else None | None => None end.
Definition disk_append (p : Path) (data : string) (d : Disk) : Disk := <[p := default "" (d !! p) +:+ data]> d.
(** [OpenOptions::create(true).append(true).open] *)
Definition disk_create (p : Path) (d : Disk) : Disk := match d !! p with Some _ => d | None => <[p := ""]> d end.

(** [BufWriter::write_all] and [flush], with the default capacity. *)
Definition BUF_CAPACITY : Z := 8192.
(** The outcome of a write is [None] when everything is written, otherwise how
    many bytes are before the error. *)
Definition flush_buf (o : option nat) (w : Path * string) (d : Disk) : bool * (Path * string) * Disk :=
  match o with
  | None => (true, (w.1, ""), disk_append w.1 w.2 d)
  | Some k =>
      (bool_decide (String.length w.2 ≤ k), (w.1, String.substring k (String.length w.2 - k) w.2), disk_append w.1 (String.substring 0 k w.2) d)
  end.
(** [full]: the outcome of the flush of a full buffer; [direct]: that of text
    too large for it. *)
Definition write_all (full direct : option nat) (data : string) (w : Path * string) (d : Disk) : bool * (Path * string) * Disk :=
  if (str_len data <? BUF_CAPACITY - str_len w.2)%Z then (true, (w.1, w.2 +:+ data), d)
  else
    let '(ok, w, d) := if (BUF_CAPACITY - str_len w.2 <? str_len data)%Z then flush_buf full w d else (true, w, d) in
    if negb ok then (false, w, d)
    else if (BUF_CAPACITY <=? str_len data)%Z then
      match direct with
      | None => (true, w, disk_append w.1 data d)
      | Some k => (bool_decide (String.length data ≤ k), w, disk_append w.1 (String.substring 0 k data) d)
      end
    else (true, (w.1, w.2 +:+ data), d).

(** The date text of [chrono]'s "%Y-%m-%d". *)
Class DayText := { ymd : Z → string; ymd_inj :: Inj (=) (=) ymd }.
(** SHA-256 and HMAC-SHA256 in hexadecimal, of any text. *)
Class Digest := { sha256_hex : string → string; hmac_hex : string → string → string }.

Section Audit.
Context {D : Decimal} {C : Clock}.

(** ** Events *)
Record AuditEvent := mkAuditEvent {
  seq : Z;
  timestamp : instant;
  event_type : AuditEventType;
  ev_symbol : string;
  client_id : option string;
  ev_order_id : option OrderId;
  ev_side : option Side;
  ev_price : option dec;
  ev_qty : option dec;
  detail : option string;
  prev_hash : option string;
}.

(** [serde_json] on one event and on a list of them. *)
Class AuditCodec := {
  to_line : AuditEvent → option string;
  of_line : string → option AuditEvent;
  events_text : list AuditEvent → option string;
}.

(** Every event has a row; it parses back, and is one line of UTF-8 that is not
    blank. *)
Definition one_line (s : string) : bool :=
  free_of newline s && free_of carriage s && negb (is_blank s) && utf8_valid s.
Class AuditCodecLaws (AC : AuditCodec) : Prop := {
  to_line_total e : is_Some (to_line e);
  of_to_line e l : to_line e = Some l → of_line l = Some e;
  to_line_one e l : to_line e = Some l → one_line l = true;
}.

Context {AC : AuditCodec} {H : Digest} {T : DayText}.

Definition audit_archive_name (base_path : Path) (day : Z) : Path :=
  let '(parent, stem, ext) := base_path in
  (Some (default "." parent), Some (default "audit" stem +:+ "-" +:+ ymd day), Some (default "jsonl" ext)).

(** ** The log *)
Record AuditLog := mkAuditLog {
  writer : Path * string;          (** the open file and what is buffered for it *)
  base_path : Path;
  current_date : Z;
  last_hash : option string;
  sequence : Z;
}.

(** Whether a rename and an open succeed, and the outcomes of the writes: 0 the
    flush before a rotation, 1 to 4 the row and its newline, each the flush of a
    full buffer and the direct write, 5 the flush of a critical row, 6 the flush
    when the old file is dropped. *)
Record Io := mkIo { io_rename : bool; io_open : bool; io_write : nat → option nat }.

Definition log_set (w : Path * string) (date : Z) (hash : option string) (st : AuditLog) : AuditLog :=
  mkAuditLog w (base_path st) date hash (sequence st).

Definition seed_last_hash_from_file (d : Disk) (path : Path) : option string :=
  match read_to_string d path with
  | None => None
  | Some content => sha256_hex <$> head (filter (λ l, is_blank l = false) (reverse (str_lines content)))
  end.

Definition audit_new (path : Path) (now : instant) (d : Disk) : AuditLog * Disk :=
  (mkAuditLog (path, "") path (date_of now) (seed_last_hash_from_file d path) 1, disk_create path d).

Definition rotate_locked (io : Io) (today : Z) (st : AuditLog) (d : Disk) : AuditLog * Disk :=
  let '(ok, w, d) := flush_buf (io_write io 0) (writer st) d in
  let st := log_set w (current_date st) (last_hash st) st in
  let dropped st d := if ok then d else (flush_buf (io_write io 6) (writer st) d).2 in
  let reopen st d :=
    if io_open io then (log_set (base_path st, "") today None st, dropped st (disk_create (base_path st) d)) else (st, d) in
  match d !! base_path st with
  | Some content =>
      if io_rename io then
        let archived := audit_archive_name (base_path st) (current_date st) in
        reopen (log_set (if decide (w.1 = base_path st) then archived else w.1, w.2) (current_date st) (last_hash st) st)
          (<[archived := content]> (delete (base_path st) d))
      else (st, d)
  | None => reopen st d
  end.

(** The part of [log] before the lock is taken, and the part under it. *)
Definition with_stamp (n : Z) (now : instant) (e : AuditEvent) : AuditEvent :=
  mkAuditEvent n now (event_type e) (ev_symbol e) (client_id e) (ev_order_id e) (ev_side e) (ev_price e)
    (ev_qty e) (detail e) (prev_hash e).
Definition stamp (now : instant) (e : AuditEvent) (st : AuditLog) : AuditEvent * AuditLog :=
  (with_stamp (sequence st) now e,
   mkAuditLog (writer st) (base_path st) (current_date st) (last_hash st) (wrap_u64 (sequence st + 1))).

Definition with_prev_hash (h : option string) (e : AuditEvent) : AuditEvent :=
  mkAuditEvent (seq e) (timestamp e) (event_type e) (ev_symbol e) (client_id e) (ev_order_id e) (ev_side e) (ev_price e)
    (ev_qty e) (detail e) h.

(** The hash moves on before the row is written, and stays there when the
    write fails. *)
Definition append_row (io : Io) (e : AuditEvent) (st : AuditLog) (d : Disk) : AuditLog * Disk :=
  let e := with_prev_hash (last_hash st) e in
  match to_line e with
  | None => (st, d)
  | Some json =>
      let '(ok, w, d) := write_all (io_write io 1) (io_write io 2) json (writer st) d in
      let '(ok, w, d) := if ok then write_all (io_write io 3) (io_write io 4) (String newline "") w d else (ok, w, d) in
      let '(ok, w, d) := if is_critical (event_type e) then flush_buf (io_write io 5) w d else (ok, w, d) in
      (log_set w (current_date st) (Some (sha256_hex json)) st, d)
  end.

Definition log_locked (io : Io) (e : AuditEvent) (st : AuditLog) (d : Disk) : AuditLog * Disk :=
  let today := date_of (timestamp e) in
  let '(st, d) := if (today =? current_date st)%Z then (st, d) else rotate_locked io today st d in
  append_row io e st d.

Definition log (io : Io) (now : instant) (e : AuditEvent) (s : AuditLog * Disk) : AuditLog * Disk :=
  let '(e, st) := stamp now e s.1 in log_locked io e st s.2.

Definition audit_flush (o : option nat) (s : AuditLog * Disk) : AuditLog * Disk :=
  let '(_, w, d) := flush_buf o (writer s.1) s.2 in (log_set w (current_date s.1) (last_hash s.1) s.1, d).

(** ** The verifier *)
Inductive ChainVerifyError :=
| MalformedRow (n : nat)
| ChainBroken (row : nat) (expected got : option string).

Record ChainVerifyReport := mkReport { rows_checked : nat; rep_last_hash : option string }.

Fixpoint verify_rows (row : nat) (prev : option string) (rows : nat) (ls : list string) :
    result ChainVerifyReport ChainVerifyError :=
  match ls with
  | [] => Ok (mkReport rows prev)
  | l :: ls =>
      if is_blank l then verify_rows (S row) prev rows ls
      else
        match of_line l with
        | None => Err (MalformedRow row)
        | Some e =>
            if decide (prev_hash e = prev) then verify_rows (S row) (Some (sha256_hex l)) (S rows) ls
            else Err (ChainBroken row prev (prev_hash e))
        end
  end.

Definition verify_content (content : string) : result ChainVerifyReport ChainVerifyError :=
  verify_rows 1 None 0 (str_lines content).

Definition verify_chain (d : Disk) (path : Path) : result ChainVerifyReport ChainVerifyError :=
  match read_to_string d path with
  | None => Ok (mkReport 0 None)
  | Some content => verify_content content
  end.

(** ** The reader; [leb] orders instants *)
Context (leb : instant → instant → bool).

Definition read_audit_filtered (d : Disk) (path : Path) (from to : instant) (types : option (list AuditEventType))
    (symbol : option string) : option (list AuditEvent) :=
  content ← read_to_string d path;
  Some (filter (λ e,
    leb from (timestamp e) && leb (timestamp e) to
    && match types with None => true | Some ts => bool_decide (event_type e ∈ ts) end
    && match symbol with None => true | Some s => bool_decide (ev_symbol e = s) end = true)
    (omap of_line (str_lines content))).

Definition read_audit_range (d : Disk) (path : Path) (from to : instant) : option (list AuditEvent) :=
  content ← read_to_string d path;
  Some (filter (λ e, leb from (timestamp e) && leb (timestamp e) to = true) (omap of_line (str_lines content))).

Record SignedAuditExport := mkExport {
  ex_from : instant;
  ex_to : instant;
  event_count : nat;
  events : list AuditEvent;
  signature : string;
}.

Definition export_signed (evs : list AuditEvent) (from to : instant) (secret : string) : SignedAuditExport :=
  mkExport from to (length evs) evs (hmac_hex secret (default "" (events_text evs))).

(** ** What the callers log; [dec_text] is the text of a decimal *)
Context (dec_text : dec → string).

Definition audit_event (now : instant) (t : AuditEventType) (symbol : string) (d : option string) : AuditEvent :=
  mkAuditEvent 0 now t symbol None None None None None d None.
Definition order_event (now : instant) (t : AuditEventType) (symbol : string) (id : OrderId) (side : option Side)
    (price qty : option dec) (d : option string) : AuditEvent :=
  mkAuditEvent 0 now t symbol None (Some id) side price qty d None.

Section Callers.
Context (io : Io) (now : instant).

Definition order_placed (symbol : string) (id : OrderId) (side : Side) (price qty : dec) :=
  log io now (order_event now OrderPlaced symbol id (Some side) (Some price) (Some qty) None).
Definition order_filled (symbol : string) (id : OrderId) (side : Side) (price qty : dec) (is_maker : bool) :=
  log io now (order_event now OrderFilled symbol id (Some side) (Some price) (Some qty)
    (Some (if is_maker then "maker" else "taker"))).
Definition order_cancelled (symbol : string) (id : OrderId) :=
  log io now (order_event now OrderCancelled symbol id None None None None).
Definition order_to_trade_ratio_snapshot (symbol : string) (ratio : dec) (adds updates cancels trades : Z) :=
  log io now (audit_event now OrderToTradeRatioSnapshot symbol
    (Some ("ratio=" +:+ dec_text ratio +:+ " adds=" +:+ show_uint adds +:+ " updates=" +:+ show_uint updates +:+
       " cancels=" +:+ show_uint cancels +:+ " trades=" +:+ show_uint trades))).
Definition auth_event (t : AuditEventType) (d : string) := log io now (audit_event now t "" (Some d)).
Definition risk_event (symbol : string) (t : AuditEventType) (d : string) := log io now (audit_event now t symbol (Some d)).
Definition strategy_graph_deployed (graph hash scope operator : string) (recipients : Z) :=
  log io now (audit_event now StrategyGraphDeployed ""
    (Some ("graph=" +:+ graph +:+ " hash=" +:+ hash +:+ " scope=" +:+ scope +:+ " operator=" +:+ operator +:+
       " recipients=" +:+ show_uint recipients))).
Definition strategy_graph_rolled_back (graph from_hash to_hash operator : string) :=
  log io now (audit_event now StrategyGraphRolledBack ""
    (Some ("graph=" +:+ graph +:+ " from_hash=" +:+ from_hash +:+ " to_hash=" +:+ to_hash +:+ " operator=" +:+ operator))).
Definition strategy_graph_node_patched (graph from_hash to_hash node_id operator : string) :=
  log io now (audit_event now StrategyGraphNodePatched ""
    (Some ("graph=" +:+ graph +:+ " from_hash=" +:+ from_hash +:+ " to_hash=" +:+ to_hash +:+ " node_id=" +:+ node_id +:+
       " operator=" +:+ operator))).
Definition strategy_graph_restricted_deploy_acked (graph hash operator : string) (nodes : list string) :=
  log io now (audit_event now StrategyGraphRestrictedDeployAcked ""
    (Some ("graph=" +:+ graph +:+ " hash=" +:+ hash +:+ " operator=" +:+ operator +:+ " restricted_nodes=" +:+
       String.concat "," nodes))).
Definition strategy_graph_deploy_rejected (graph reason operator : string) :=
  log io now (audit_event now StrategyGraphDeployRejected ""
    (Some ("graph=" +:+ graph +:+ " reason=" +:+ reason +:+ " operator=" +:+ operator))).
Definition strategy_graph_sink_fired (symbol action hash : string) :=
  log io now (audit_event now StrategyGraphSinkFired symbol (Some ("action=" +:+ action +:+ " hash=" +:+ hash))).
Definition surveillance_alert (symbol pattern : string) (score : dec) (extra : string) :=
  log io now (audit_event now SurveillanceAlert symbol
    (Some ("pattern=" +:+ pattern +:+ " score=" +:+ dec_text score +:+ " " +:+ extra))).
End Callers.
End Audit.
Arguments AuditCodec {D C}.

(** ** Text of whole rows *)
Definition rows_text (ls : list string) : string := foldr (λ l s, l +:+ String newline s) "" ls.

Lemma rows_text_cons l ls : rows_text (l :: ls) = l +:+ String newline (rows_text ls).
Proof. done. Qed.

Lemma rows_text_snoc ls l : rows_text (ls ++ [l]) = rows_text ls +:+ l +:+ String newline "".
Proof.
  induction ls as [|x ls IH]; [done|]. change ((x :: ls) ++ [l]) with (x :: (ls ++ [l])).
  by rewrite !rows_text_cons, IH, str_app_assoc.
Qed.

Lemma one_line_spec l : one_line l = true →
  free_of newline l = true ∧ free_of carriage l = true ∧ is_blank l = false ∧ utf8_valid l = true.
Proof. unfold one_line. rewrite !andb_true_iff, negb_true_iff. tauto. Qed.

Lemma strip_cr_free l : free_of carriage l = true → strip_cr l = l.
Proof.
  induction l as [|c l IH]; [done|]. cbn [free_of]. intros [Hc Hl]%andb_true_iff. cbn [strip_cr].
  rewrite negb_true_iff, bool_decide_eq_false in Hc. destruct l as [|c' l']; [by rewrite decide_False|]. by rewrite IH.
Qed.

Lemma split_on_nonempty sep s : split_on sep s ≠ [].
Proof. destruct s; cbn; [done|]. destruct (decide _); [done|]. by destruct (split_on sep s). Qed.

Lemma lines_of_cons x l : l ≠ [] → lines_of (x :: l) = strip_cr x :: lines_of l.
Proof. by destruct l. Qed.

(** Whole rows read back line by line. *)
Lemma str_lines_rows ls : Forall (λ l, one_line l = true) ls → str_lines (rows_text ls) = ls.
Proof.
  unfold str_lines. induction 1 as [|l ls Hl _ IH]; [done|]. apply one_line_spec in Hl as (Hn & Hc & _).
  rewrite rows_text_cons, split_on_free, lines_of_cons by (done || apply split_on_nonempty).
  by rewrite strip_cr_free, IH.
Qed.

Lemma rows_text_utf8 ls : Forall (λ l, one_line l = true) ls → utf8_valid (rows_text ls) = true.
Proof.
  induction 1 as [|l ls Hl _ IH]; [done|]. apply one_line_spec in Hl as (_ & _ & _ & Hu). rewrite rows_text_cons.
  apply utf8_valid_app; [done|]. exact IH.
Qed.

(** ** The chain the log writes *)
Section Chain.
Context {D : Decimal} {C : Clock} {AC : AuditCodec} {H : Digest} {T : DayText} {L : AuditCodecLaws AC}.

Definition contents (w : Path * string) (d : Disk) : string := default "" (d !! w.1) +:+ w.2.

(** Writing only appends to the open file. *)
Definition writes (data : string) (w : Path * string) (d : Disk) (w' : Path * string) (d' : Disk) : Prop :=
  w'.1 = w.1 ∧ contents w' d' = contents w d +:+ data ∧ ∀ p, p ≠ w.1 → d' !! p = d !! p.

Lemma writes_refl w d : writes "" w d w d.
Proof. split; [done|]. by rewrite str_app_nil. Qed.

Lemma writes_trans a b w d w1 d1 w2 d2 : writes a w d w1 d1 → writes b w1 d1 w2 d2 → writes (a +:+ b) w d w2 d2.
Proof.
  intros (E1 & C1 & O1) (E2 & C2 & O2). split; [congruence|]. split; [by rewrite C2, C1, str_app_assoc|].
  intros p Hp. rewrite O2, O1; congruence.
Qed.

Lemma flush_writes ok w d w' d' : flush_buf None w d = (ok, w', d') →
  ok = true ∧ writes "" w d w' d' ∧ w'.2 = "" ∧ d' !! w'.1 = Some (contents w d).
Proof.
  intros [= <- <- <-]. split; [done|]. unfold writes, contents, disk_append. cbn [fst snd]. rewrite lookup_insert_eq. cbn [default from_option].
  rewrite str_app_nil. split; [|done]. split; [done|]. split; [by rewrite str_app_nil|]. intros p Hp. by rewrite lookup_insert_ne.
Qed.

Lemma write_all_writes data ok w d w' d' : write_all None None data w d = (ok, w', d') → ok = true ∧ writes data w d w' d'.
Proof.
  unfold write_all. destruct (_ <? _)%Z.
  { intros [= <- <- <-]. split; [done|]. split; [done|]. split; [|done]. unfold contents. cbn [fst snd]. by rewrite str_app_assoc. }
  assert (Hf : ∃ w1 d1, (if (BUF_CAPACITY - str_len w.2 <? str_len data)%Z then flush_buf None w d else (true, w, d)) = (true, w1, d1) ∧
    writes "" w d w1 d1 ∧ ((BUF_CAPACITY <=? str_len data)%Z = true → w1.2 = "")).
  { destruct (Z.ltb_spec (BUF_CAPACITY - str_len w.2) (str_len data)) as [|Hle].
    - destruct (flush_buf None w d) as [[ok1 w1] d1] eqn:E. apply flush_writes in E as (-> & Hw & E & _). by exists w1, d1.
    - exists w, d. split; [done|]. split; [apply writes_refl|]. intros Hc%Z.leb_le.
      destruct w as [p [|c b]]; [done|]. unfold str_len in *. cbn in *. lia. }
  destruct Hf as (w1 & d1 & -> & Hw & Hb). cbn [negb]. intros Hr.
  assert (ok = true) as -> by (destruct (_ <=? _)%Z; congruence). split; [done|].
  change data with ("" +:+ data). apply (writes_trans _ _ _ _ w1 d1); [done|].
  destruct (BUF_CAPACITY <=? str_len data)%Z; injection Hr as <- <-; unfold writes, contents, disk_append; cbn [fst snd].
  - split; [done|]. rewrite lookup_insert_eq. cbn [default from_option]. rewrite Hb, !str_app_nil by done. split; [done|].
    intros p Hp. by rewrite lookup_insert_ne.
  - by rewrite str_app_assoc.
Qed.

(** What one row changes. *)
Definition after_row (e : AuditEvent) (st : AuditLog) (d : Disk) (st' : AuditLog) (d' : Disk) : Prop :=
  ∃ json, to_line (with_prev_hash (last_hash st) e) = Some json ∧
    writes (json +:+ String newline "") (writer st) d (writer st') d' ∧
    st' = log_set (writer st') (current_date st) (Some (sha256_hex json)) st ∧
    (is_critical (event_type e) = true → (writer st').2 = "" ∧ is_Some (d' !! (writer st').1)).

(** All the writes of a call succeed. *)
Definition writes_done (io : Io) : Prop := ∀ n, io_write io n = None.

Lemma append_row_after io e st d : writes_done io → after_row e st d (append_row io e st d).1 (append_row io e st d).2.
Proof.
  intros Hio. unfold append_row. rewrite !Hio.
  destruct (to_line_total (with_prev_hash (last_hash st) e)) as [json Hj]. rewrite Hj. exists json. split; [done|].
  destruct (write_all _ _ json (writer st) d) as [[ok1 w1] d1] eqn:E1. apply write_all_writes in E1 as [-> E1].
  destruct (write_all _ _ (String newline "") w1 d1) as [[ok2 w2] d2] eqn:E2. apply write_all_writes in E2 as [-> E2].
  pose proof (writes_trans _ _ _ _ _ _ _ _ E1 E2) as E12.
  change (event_type (with_prev_hash (last_hash st) e)) with (event_type e). destruct (is_critical (event_type e)).
  - destruct (flush_buf _ w2 d2) as [[ok3 w3] d3] eqn:E3. apply flush_writes in E3 as (-> & E3 & Hb & Hd3). cbn.
    split; [|split; [done|]; intros _; rewrite Hd3; by split]. pose proof (writes_trans _ _ _ _ _ _ _ _ E12 E3) as E.
    by rewrite str_app_nil in E.
  - done.
Qed.

(** Whole rows that verify, with the hash after the last. *)
Definition verified (content : string) (h : option string) : Prop :=
  ∃ ls, content = rows_text ls ∧ Forall (λ l, one_line l = true) ls ∧ verify_rows 1 None 0 ls = Ok (mkReport (length ls) h).

Lemma verify_rows_app row prev n ls1 ls2 : verify_rows row prev n (ls1 ++ ls2) =
  match verify_rows row prev n ls1 with
  | Ok rep => verify_rows (row + length ls1) (rep_last_hash rep) (rows_checked rep) ls2
  | Err e => Err e
  end.
Proof.
  revert row prev n. induction ls1 as [|l ls1 IH]; intros row prev n; cbn [verify_rows app length]; [by rewrite Nat.add_0_r|].
  rewrite <- Nat.add_succ_comm. destruct (is_blank l); [apply IH|]. destruct (of_line l) as [e|]; [|done].
  destruct (decide _); [apply IH|done].
Qed.

Lemma verified_snoc content h e json : verified content h → to_line (with_prev_hash h e) = Some json →
  verified (content +:+ json +:+ String newline "") (Some (sha256_hex json)).
Proof.
  intros (ls & -> & Hl & Hv) Hj. exists (ls ++ [json]). split; [by rewrite rows_text_snoc|].
  pose proof (to_line_one _ _ Hj) as H1. split; [apply Forall_app; by repeat constructor|].
  rewrite verify_rows_app, Hv. cbn. apply one_line_spec in H1 as (_ & _ & -> & _). rewrite (of_to_line _ _ Hj).
  rewrite decide_True by done. by rewrite length_app, Nat.add_1_r.
Qed.

Lemma verified_content content h : verified content h →
  utf8_valid content = true ∧ ∃ n, verify_content content = Ok (mkReport n h).
Proof.
  intros (ls & -> & Hl & Hv). split; [by apply rows_text_utf8|]. exists (length ls). unfold verify_content. by rewrite str_lines_rows.
Qed.

(** The rows of every file on the disk verify, those of the open one with what is
    buffered for it. *)
Record log_ok (st : AuditLog) (d : Disk) : Prop := {
  lo_open : verified (contents (writer st) d) (last_hash st);
  lo_closed : ∀ p c, d !! p = Some c → p ≠ (writer st).1 → ∃ h, verified c h;
  lo_base : (writer st).1 = base_path st ∨ d !! base_path st = None;
}.

Lemma archive_ne_base base day : audit_archive_name base day ≠ base.
Proof.
  destruct base as [[parent [stem|]] ext]; [|done]. cbn. intros [= _ E _].
  apply (f_equal String.length) in E. rewrite !str_app_length in E. cbn in E. lia.
Qed.

Lemma empty_verified : verified "" None.
Proof. by exists []. Qed.

Lemma reopen_ok today (st : AuditLog) (d : Disk) : d !! base_path st = None → (writer st).2 = "" →
  log_ok st d → log_ok (log_set (base_path st, "") today None st) (disk_create (base_path st) d).
Proof.
  intros Hb Hbuf []. unfold disk_create. rewrite Hb. split; cbn.
  - unfold contents. cbn. rewrite lookup_insert_eq. apply empty_verified.
  - intros p c. destruct (decide (p = base_path st)) as [->|Hp]; [done|]. rewrite lookup_insert_ne by done. intros Hc _.
    destruct (decide (p = (writer st).1)) as [->|Hne]; [|by apply (lo_closed0 p)].
    unfold contents in lo_open0. rewrite Hc, Hbuf in lo_open0. cbn in lo_open0. rewrite str_app_nil in lo_open0. eauto.
  - by left.
Qed.

Lemma rotate_ok io today (st : AuditLog) d : writes_done io → log_ok st d → log_ok (rotate_locked io today st d).1 (rotate_locked io today st d).2.
Proof.
  intros Hio []. unfold rotate_locked. rewrite !Hio. destruct (flush_buf None (writer st) d) as [[ok w1] d1] eqn:E.
  apply flush_writes in E as (-> & (Ew & Ec & Eo) & Hb & Hd1). rewrite str_app_nil in Ec.
  set (st1 := log_set w1 (current_date st) (last_hash st) st).
  assert (Hst1 : log_ok st1 d1).
  { split; cbn; [by rewrite Ec| |].
    - intros p c. rewrite Ew. intros Hc Hp. rewrite Eo in Hc by done. by apply (lo_closed0 p).
    - rewrite Ew. destruct (decide ((writer st).1 = base_path st)) as [|Hne]; [by left|right].
      rewrite Eo by congruence. by destruct lo_base0. }
  change (base_path st1) with (base_path st). destruct (d1 !! base_path st) as [content|] eqn:Econt.
  2: { destruct (io_open io); [|done]. by apply (reopen_ok today st1). }
  destruct (io_rename io); [|done].
  assert (Ew1 : w1.1 = base_path st). { destruct Hst1 as [_ _ [Hw|Hw]]; cbn in Hw; [done|congruence]. }
  rewrite decide_True, Hb by done. set (archived := audit_archive_name _ _).
  pose proof (archive_ne_base (base_path st) (current_date st)) as Hne. fold archived in Hne.
  assert (Hst2 : log_ok (log_set (archived, "") (current_date st) (last_hash st) st1)
                   (<[archived:=content]> (delete (base_path st) d1))).
  { split; cbn.
    - unfold contents. cbn. rewrite lookup_insert_eq. cbn. rewrite str_app_nil. rewrite <- Ec in lo_open0. unfold contents in lo_open0.
      rewrite Ew1, Econt, Hb in lo_open0. cbn in lo_open0. by rewrite str_app_nil in lo_open0.
    - intros p c. intros Hc Hp. rewrite lookup_insert_ne in Hc by done. apply lookup_delete_Some in Hc as [Hp' Hc].
      rewrite Eo in Hc by congruence. apply (lo_closed0 p); congruence.
    - right. rewrite lookup_insert_ne by done. apply lookup_delete_eq. }
  destruct (io_open io); [|exact Hst2].
  apply (reopen_ok today (log_set (archived, "") (current_date st) (last_hash st) st1)); [|done|exact Hst2].
  cbn. rewrite lookup_insert_ne by done. apply lookup_delete_eq.
Qed.

Lemma rotate_fields io today (st : AuditLog) d :
  base_path (rotate_locked io today st d).1 = base_path st ∧ sequence (rotate_locked io today st d).1 = sequence st.
Proof. unfold rotate_locked. destruct (flush_buf (io_write io 0) _ _) as [[ok w] d1]. repeat (case_match; cbn; try done). Qed.

Lemma row_ok e st d st' d' : log_ok st d → after_row e st d st' d' → log_ok st' d'.
Proof.
  intros [] (json & Hj & (Ew & Ec & Eo) & -> & _). split; cbn in *.
  - rewrite Ec. by eapply verified_snoc.
  - intros p c Hc Hp. rewrite Ew in Hp. rewrite Eo in Hc by done. by apply (lo_closed0 p).
  - rewrite Ew. destruct (decide ((writer st).1 = base_path st)) as [|Hne]; [by left|right].
    rewrite Eo by congruence. by destruct lo_base0.
Qed.

(** A call, whatever the day and the outcome of a rotation. *)
Lemma log_ok_log io now e s : writes_done io → log_ok s.1 s.2 → log_ok (log io now e s).1 (log io now e s).2.
Proof.
  intros Hio Hok. unfold log, log_locked. cbn [stamp]. set (e' := with_stamp _ _ e). set (st := mkAuditLog _ _ _ _ _).
  assert (Hst : log_ok st s.2) by (destruct Hok; by split).
  destruct (_ =? _)%Z; [eapply row_ok; [exact Hst|by apply append_row_after]|].
  pose proof (rotate_ok io (date_of (timestamp e')) st s.2 Hio Hst) as Hr. destruct (rotate_locked _ _ _ _) as [st1 d1].
  eapply row_ok; [exact Hr|by apply append_row_after].
Qed.

(** ** Sessions *)
Definition logged (calls : list (Io * instant * AuditEvent)) (s : AuditLog * Disk) : AuditLog * Disk :=
  fold_left (λ s c, log c.1.1 c.1.2 c.2 s) calls s.

(** A process: the log is opened, written to and flushed. *)
Definition session (path : Path) (d : Disk) (x : instant * list (Io * instant * AuditEvent)) : AuditLog * Disk :=
  audit_flush None (logged x.2 (audit_new path x.1 d)).

Definition calls_done (calls : list (Io * instant * AuditEvent)) : Prop := Forall (λ c, writes_done c.1.1) calls.

Lemma logged_ok calls s : calls_done calls → log_ok s.1 s.2 → log_ok (logged calls s).1 (logged calls s).2.
Proof. intros Hc. revert s. induction Hc as [|c calls Hc _ IH]; intros s Hs; [done|]. apply IH. by apply log_ok_log. Qed.

Lemma verify_last row prev n ls rep : Forall (λ l, one_line l = true) ls → verify_rows row prev n ls = Ok rep →
  rep_last_hash rep = match list.last ls with Some l => Some (sha256_hex l) | None => prev end.
Proof.
  revert row prev n. induction ls as [|l ls IH]; intros row prev n Hl; cbn [verify_rows]; [by intros [= <-]|].
  apply Forall_cons_1 in Hl as [H1 Hl]. apply one_line_spec in H1 as (_ & _ & Hb & _). rewrite Hb. destruct (of_line l); [|done].
  destruct (decide _); [|done]. intros E. rewrite (IH _ _ _ Hl E). destruct ls as [|l' ls]; [done|].
  rewrite last_cons_cons. destruct (list.last (l' :: ls)) eqn:El; [done|]. by apply last_None in El.
Qed.

Lemma filter_not_blank ls : Forall (λ l, one_line l = true) ls → filter (λ l, is_blank l = false) ls = ls.
Proof.
  induction 1 as [|l ls Hl _ IH]; [done|]. apply one_line_spec in Hl as (_ & _ & Hb & _). by rewrite filter_cons_True, IH.
Qed.

(** A restart finds the hash the chain ended with. *)
Lemma seed_resumes d path content h : d !! path = Some content → verified content h → seed_last_hash_from_file d path = h.
Proof.
  intros Hd (ls & -> & Hl & Hv). unfold seed_last_hash_from_file, read_to_string. rewrite Hd, rows_text_utf8, str_lines_rows by done.
  assert (Hf : filter (λ l, is_blank l = false) (reverse ls) = reverse ls).
  { apply filter_not_blank. by apply Forall_reverse. }
  rewrite Hf, <- last_reverse, reverse_involutive. apply verify_last in Hv; [|done]. cbn in Hv. rewrite Hv. by destruct (list.last ls).
Qed.

Lemma audit_new_ok path now d : (∀ p c, d !! p = Some c → ∃ h, verified c h) →
  log_ok (audit_new path now d).1 (audit_new path now d).2.
Proof.
  intros Hd. split; cbn; [|unfold disk_create; intros p c|by left].
  - unfold contents, disk_create. cbn. rewrite str_app_nil. destruct (d !! path) as [content|] eqn:E; cbn.
    + rewrite E. cbn. destruct (Hd _ _ E) as [h Hh]. by rewrite (seed_resumes _ _ _ _ E Hh).
    + rewrite lookup_insert_eq. cbn. unfold seed_last_hash_from_file, read_to_string. rewrite E. apply empty_verified.
  - destruct (d !! path) eqn:E; [by intros ?%Hd|]. intros Hc Hp. rewrite lookup_insert_ne in Hc by done. by apply (Hd p).
Qed.

Lemma flush_ok s : log_ok s.1 s.2 → log_ok (audit_flush None s).1 (audit_flush None s).2 ∧
  (writer (audit_flush None s).1).2 = "" ∧ is_Some ((audit_flush None s).2 !! (writer (audit_flush None s).1).1).
Proof.
  destruct s as [st d]. intros []. unfold audit_flush. cbn [fst snd]. destruct (flush_buf None (writer st) d) as [[ok w] d'] eqn:E.
  apply flush_writes in E as (-> & (Ew & Ec & Eo) & Hb & Hd'). rewrite str_app_nil in Ec. cbn. split; [|by rewrite Hd'].
  split; cbn; [by rewrite Ec| |].
  - intros p c Hc Hp. rewrite Ew in Hp. rewrite Eo in Hc by done. by apply (lo_closed0 p).
  - rewrite Ew. destruct (decide ((writer st).1 = base_path st)) as [|Hne]; [by left|right].
    rewrite Eo by congruence. by destruct lo_base0.
Qed.

(** Every file of a flushed log verifies, the open one up to the last hash. *)
Lemma flushed_verified s p c : log_ok s.1 s.2 → (audit_flush None s).2 !! p = Some c →
  ∃ h, verified c h ∧ (p = (writer s.1).1 → h = last_hash s.1).
Proof.
  intros Hok Hc. destruct (flush_ok s Hok) as ([Ho Hcl _] & Hb & _).
  assert (Ew : (writer (audit_flush None s).1).1 = (writer s.1).1) by (destruct s; done).
  destruct (decide (p = (writer s.1).1)) as [->|Hp].
  - exists (last_hash s.1). split; [|done]. unfold contents in Ho. rewrite Ew, Hc, Hb in Ho. cbn in Ho. by rewrite str_app_nil in Ho.
  - destruct (Hcl p c Hc) as [h Hh]; [by rewrite Ew|]. by exists h.
Qed.

(** C18: whatever the processes that wrote to a log one after the other, the events,
    the days and the failures of the rotations, as long as their writes to the
    disk succeed and each flushed the log before it ended, every file they leave
    verifies from its first row to its last, and the file a process still had
    open does so up to the hash that the next row continues.
    [failed_write_breaks_chain] and [torn_row_breaks_chain] show what a failing
    write and a process that dies do. *)
Theorem chain_unbroken path sessions last_session (Hd : Forall (λ x, calls_done x.2) sessions) (Hlive : calls_done last_session.2) :
  let d := fold_left (λ d x, (session path d x).2) sessions ∅ in
  let s := session path d last_session in
  (∀ p c, s.2 !! p = Some c → ∃ n h, verify_chain s.2 p = Ok (mkReport n h)) ∧
  ∃ n, verify_chain s.2 (writer s.1).1 = Ok (mkReport n (last_hash s.1)).
Proof.
  assert (Hall : ∀ d x, calls_done x.2 → (∀ p c, d !! p = Some c → ∃ h, verified c h) →
    (∀ p c, (session path d x).2 !! p = Some c → ∃ h, verified c h ∧ (p = (writer (session path d x).1).1 →
      h = last_hash (session path d x).1))).
  { intros d x Hx Hd0 p c Hc. pose proof (audit_new_ok path x.1 d Hd0) as H0. apply (logged_ok x.2) in H0; [|done].
    unfold session in *. destruct (flushed_verified _ _ _ H0 Hc) as (h & Hh & Hlast). exists h. split; [done|].
    intros Hp. unfold audit_flush in *. cbn in *. by apply Hlast. }
  assert (Hbefore : ∀ d, (∀ p c, d !! p = Some c → ∃ h, verified c h) → ∀ p c,
    fold_left (λ d x, (session path d x).2) sessions d !! p = Some c → ∃ h, verified c h).
  { clear Hlive. induction Hd as [|x sessions Hx _ IH]; intros d Hd0; [done|]. apply IH. intros p c Hc.
    destruct (Hall d x Hx Hd0 p c Hc) as (h & Hh & _). eauto. }
  specialize (Hbefore ∅ ltac:(by intros p c; rewrite lookup_empty)). intros d.
  pose proof (Hall d last_session Hlive Hbefore) as Hd'. pose proof (audit_new_ok path last_session.1 d Hbefore) as H0.
  apply (logged_ok last_session.2) in H0; [|done].
  destruct (flush_ok _ H0) as (_ & _ & [c Hc]). fold (session path d last_session) in Hc. destruct (session path d last_session) as [st d'].
  cbn [fst snd] in *. assert (Hv : ∀ p c h, d' !! p = Some c → verified c h → ∃ n, verify_chain d' p = Ok (mkReport n h)).
  { intros p c' h Hp [Hu Hn]%verified_content. unfold verify_chain, read_to_string. by rewrite Hp, Hu. }
  split.
  - intros p c' Hp. destruct (Hd' p c' Hp) as (h & Hh & _). destruct (Hv _ _ _ Hp Hh) as [n Hn]. eauto.
  - destruct (Hd' _ c Hc) as (h & Hh & Hl). rewrite <- (Hl eq_refl). by eapply Hv.
Qed.
End Chain.

(** ** What the verifier detects *)
Section Tampering.
Context {D : Decimal} {C : Clock} {AC : AuditCodec} {H : Digest}.

(** The rows of a file: its lines that are not blank. *)
Definition rows_of (d : Disk) (p : Path) : list string :=
  filter (λ l, is_blank l = false) (str_lines (default "" (read_to_string d p))).

Inductive chained : list string → option string → Prop :=
| chained_nil : chained [] None
| chained_snoc ls h l e : chained ls h → of_line l = Some e → prev_hash e = h → chained (ls ++ [l]) (Some (sha256_hex l)).

Definition collision : Prop := ∃ x y, x ≠ y ∧ sha256_hex x = sha256_hex y.

Lemma verify_rows_chained row prev n ls pre rep : chained pre prev → n = length pre →
  verify_rows row prev n ls = Ok rep →
  chained (pre ++ filter (λ l, is_blank l = false) ls) (rep_last_hash rep) ∧
  rows_checked rep = length (pre ++ filter (λ l, is_blank l = false) ls).
Proof.
  revert row prev n pre. induction ls as [|l ls IH]; intros row prev n pre Hp Hn; cbn [verify_rows].
  { intros [= <-]. cbn. by rewrite app_nil_r. }
  destruct (is_blank l) eqn:Hb; [rewrite filter_cons_False by congruence; by apply IH|].
  rewrite filter_cons_True by done. destruct (of_line l) as [e|] eqn:E; [|done].
  destruct (decide (prev_hash e = prev)) as [He|]; [|done]. intros Hr. rewrite cons_middle, app_assoc.
  apply (IH (S row) (Some (sha256_hex l)) (S n)); [by econstructor|rewrite length_app; cbn; lia|done].
Qed.

Lemma verify_chain_chained d p rep : verify_chain d p = Ok rep →
  chained (rows_of d p) (rep_last_hash rep) ∧ rows_checked rep = length (rows_of d p).
Proof.
  unfold verify_chain, rows_of. destruct (read_to_string d p) as [c|]; cbn.
  - unfold verify_content. intros Hr. by apply (verify_rows_chained _ _ _ _ [] _ chained_nil eq_refl) in Hr.
  - intros [= <-]. split; [constructor|done].
Qed.

Lemma chained_unique l1 l2 h1 h2 : chained l1 h1 → chained l2 h2 → h1 = h2 → l1 = l2 ∨ collision.
Proof.
  intros H1. revert l2 h2. induction H1 as [|ls h l e H1 IH El Eh]; intros l2 h2 H2 E.
  - destruct H2; [by left|done].
  - destruct H2 as [|ls' h' l' e' H2 El' Eh']; [done|]. injection E as E.
    destruct (decide (l = l')) as [<-|Hne]; [|right; by exists l, l'].
    rewrite El in El'. injection El' as <-. destruct (IH _ _ H2) as [->|]; [congruence|by left|by right].
Qed.

(** C19: two files that verify with the same last hash have the same rows, in the
    same order, or two texts are known with the same digest; so a row that was
    inserted, removed, moved or changed anywhere shows against the last hash. *)
Theorem tamper_evident d1 p1 rep1 d2 p2 rep2 :
  verify_chain d1 p1 = Ok rep1 → verify_chain d2 p2 = Ok rep2 → rep_last_hash rep1 = rep_last_hash rep2 →
  (rows_of d1 p1 = rows_of d2 p2 ∧ rows_checked rep1 = rows_checked rep2) ∨ collision.
Proof.
  intros [H1 N1]%verify_chain_chained [H2 N2]%verify_chain_chained E. destruct (chained_unique _ _ _ _ H1 H2 E) as [Er|]; [left|by right].
  by rewrite N1, N2, Er.
Qed.

(** Rows cut off the end are not missed: what is left verifies. *)
Lemma truncation_verifies row prev n ls1 ls2 rep : verify_rows row prev n (ls1 ++ ls2) = Ok rep →
  ∃ rep', verify_rows row prev n ls1 = Ok rep'.
Proof. rewrite verify_rows_app. destruct (verify_rows row prev n ls1) as [rep'|]; [eauto|done]. Qed.
End Tampering.

(** ** What is on the disk and what is read back *)
Section Reading.
Context {D : Decimal} {C : Clock} {AC : AuditCodec} {H : Digest} {T : DayText} {L : AuditCodecLaws AC}.

(** When [log] returns from a critical event, the event's row, with the number
    the log gave it, is, when the writes succeed, the last of the file on the disk after everything that was
    written to that file before, and nothing is left in the buffer. *)
Theorem critical_durable io now e s : writes_done io → is_critical (event_type e) = true →
  let s' := log io now e s in
  (writer s'.1).2 = "" ∧
  ∃ before row h, s'.2 !! (writer s'.1).1 = Some (before +:+ row +:+ String newline "") ∧
    of_line row = Some (with_prev_hash h (with_stamp (sequence s.1) now e)) ∧
    (date_of now = current_date s.1 → before = contents (writer s.1) s.2 ∧ h = last_hash s.1).
Proof.
  intros Hio Hc s'. unfold s', log, log_locked. cbn [stamp]. set (e' := with_stamp _ _ e). set (st := mkAuditLog _ _ _ _ _).
  change (date_of (timestamp e')) with (date_of now). change (current_date st) with (current_date s.1).
  assert (Hrow : ∀ st1 d1, after_row e' st1 d1 (append_row io e' st1 d1).1 (append_row io e' st1 d1).2 →
    (writer (append_row io e' st1 d1).1).2 = "" ∧ ∃ row,
      (append_row io e' st1 d1).2 !! (writer (append_row io e' st1 d1).1).1 = Some (contents (writer st1) d1 +:+ row +:+ String newline "") ∧
      of_line row = Some (with_prev_hash (last_hash st1) e')).
  { intros st1 d1 (json & Hj & (_ & Ec & _) & _ & Hcr). destruct (Hcr Hc) as [Hb [c Hs]]. split; [done|]. exists json.
    unfold contents at 1 in Ec. rewrite Hs, Hb in Ec. cbn in Ec. rewrite str_app_nil in Ec. rewrite Hs, Ec. split; [done|].
    by apply of_to_line. }
  destruct (date_of now =? current_date s.1)%Z eqn:Ed.
  - destruct (Hrow st s.2 (append_row_after _ _ _ _ Hio)) as [Hb [row [Hd Hr]]]. split; [done|]. by exists (contents (writer s.1) s.2), row, (last_hash s.1).
  - apply Z.eqb_neq in Ed. destruct (rotate_locked io (date_of now) st s.2) as [st1 d1].
    destruct (Hrow st1 d1 (append_row_after _ _ _ _ Hio)) as [Hb [row [Hd Hr]]]. split; [done|].
    exists (contents (writer st1) d1), row, (last_hash st1). by do 2 (split; [done|]).
Qed.

(** The events of one day, as the log numbers them. *)
Definition numbered (n : Z) (calls : list (Io * instant * AuditEvent)) : list AuditEvent :=
  imap (λ i c, with_stamp (n + Z.of_nat i) c.1.2 c.2) calls.

(** The file has exactly the rows of [evs]. *)
Definition holds_rows (evs : list AuditEvent) (st : AuditLog) (d : Disk) : Prop :=
  ∃ ls, contents (writer st) d = rows_text ls ∧ Forall (λ l, one_line l = true) ls ∧ of_line <$> ls = Some <$> evs.

Lemma logged_rows calls st d evs : calls_done calls → Forall (λ c, date_of c.1.2 = current_date st) calls →
  (0 ≤ sequence st)%Z → (sequence st + Z.of_nat (length calls) < 2 ^ 64)%Z → holds_rows evs st d →
  ∃ new, holds_rows (evs ++ new) (logged calls (st, d)).1 (logged calls (st, d)).2 ∧
    with_prev_hash None <$> new = with_prev_hash None <$> numbered (sequence st) calls ∧
    (writer (logged calls (st, d)).1).1 = (writer st).1.
Proof.
  intros Hdone. revert st d evs. induction Hdone as [|[[io now] e] calls Hio _ IH]; intros st d evs Hd Hs0 Hs Hrows.
  { exists []. rewrite app_nil_r. by repeat split. }
  apply Forall_cons_1 in Hd as [Hd Hds]. cbn [fst snd] in Hd. cbn [length] in Hs. cbn [logged fold_left].
  unfold log at 2 4 6. cbn [stamp fst snd]. unfold log_locked. set (e' := with_stamp _ _ e). set (st1 := mkAuditLog _ _ _ _ _).
  change (date_of (timestamp e')) with (date_of now). change (current_date st1) with (current_date st).
  rewrite (proj2 (Z.eqb_eq _ _) Hd). destruct (append_row_after io e' st1 d Hio) as (json & Hj & (Ew & Ec & _) & Est & _).
  destruct (append_row io e' st1 d) as [st2 d2]. cbn [fst snd] in *.
  assert (Hseq : sequence st2 = (sequence st + 1)%Z).
  { rewrite Est. cbn. apply wrap_u64_id. unfold is_u64, u64_max. lia. }
  destruct (IH st2 d2 (evs ++ [with_prev_hash (last_hash st) e'])) as (new & Hnew & Hn & Hw).
  - rewrite Est. cbn. done.
  - lia.
  - lia.
  - destruct Hrows as (ls & Ec0 & Hl & Hev). exists (ls ++ [json]). rewrite Ec. change (writer st1) with (writer st).
    rewrite Ec0, rows_text_snoc. split; [done|]. split.
    + apply Forall_app. split; [done|]. apply Forall_singleton. by eapply to_line_one.
    + rewrite !fmap_app, Hev. cbn. by rewrite (of_to_line _ _ Hj).
  - exists (with_prev_hash (last_hash st) e' :: new). rewrite <- app_assoc in Hnew. split; [exact Hnew|]. split; [|etransitivity; [exact Hw|exact Ew]].
    unfold numbered. rewrite imap_cons. cbn [fmap list_fmap fst snd]. f_equal; [by rewrite Z.add_0_r|].
    rewrite Hn. unfold numbered. rewrite Hseq. f_equal. apply imap_ext. intros i c _. cbn. f_equal. lia.
Qed.

(** What a process logs on one day to a new file is what a reader finds in it
    afterwards: the events in the order of the calls, numbered from one, each with
    the moment of its call and otherwise as logged, those of the asked range and
    only those. *)
Theorem read_returns_logged leb path opened calls d from to : d !! path = None →
  calls_done calls → Forall (λ c, date_of c.1.2 = date_of opened) calls → (Z.of_nat (length calls) < 2 ^ 64 - 1)%Z →
  let d' := (session path d (opened, calls)).2 in
  ∃ evs, read_audit_range leb d' path from to = Some (filter (λ e, leb from (timestamp e) && leb (timestamp e) to = true) evs) ∧
    with_prev_hash None <$> evs = with_prev_hash None <$> numbered 1 calls.
Proof.
  intros Hd Hdone Hcalls Hn. unfold session. cbn [fst snd]. set (s0 := audit_new path opened d).
  destruct (logged_rows calls s0.1 s0.2 []) as (evs & (ls & Ec & Hl & Hev) & Hnum & Hw).
  - done.
  - done.
  - done.
  - cbn. lia.
  - exists []. unfold contents, s0, audit_new, disk_create. cbn. rewrite Hd, lookup_insert_eq. done.
  - rewrite <- surjective_pairing in *. change (sequence s0.1) with 1%Z in Hnum. change ((writer s0.1).1) with path in Hw.
    destruct (logged calls s0) as [st d1]. cbn [fst snd] in *. unfold audit_flush. cbn [fst snd].
    destruct (flush_buf None (writer st) d1) as [[ok w] d2] eqn:E. apply flush_writes in E as (-> & (Ew & _) & _ & Hd2).
    exists evs. split; [|done]. unfold read_audit_range, read_to_string. rewrite Ew, Hw in Hd2. cbn [fst snd]. rewrite Hd2, Ec, rows_text_utf8 by done.
    cbn. rewrite str_lines_rows by done. f_equal. f_equal. cbn in Hev. clear -Hev.
    revert evs Hev. induction ls as [|l ls IH]; intros [|e evs]; try done. cbn. intros [= -> Hev]. cbn. f_equal. by apply IH.
Qed.
End Reading.

(** ** Closed instances *)
Definition event_fields (e : AuditEvent (D := Qc_decimal) (C := sec_clock)) :=
  ((seq e, (timestamp e : Z), event_type e, ev_symbol e), (client_id e, ev_order_id e, ev_side e),
   (ev_price e, ev_qty e, detail e, prev_hash e)).
Definition event_of_fields (x : (Z * Z * AuditEventType * string) * (option string * option N * option Side) *
    (option (dec (Decimal := Qc_decimal)) * option (dec (Decimal := Qc_decimal)) * option string * option string)) :
    AuditEvent (D := Qc_decimal) (C := sec_clock) :=
  let '((n, t, ty, sym), (c, i, sd), (p, q, d, h)) := x in
  mkAuditEvent (D := Qc_decimal) (C := sec_clock) n t ty sym c i sd p q d h.

#[export] Instance event_fields_eq_dec : EqDecision (AuditEvent (D := Qc_decimal) (C := sec_clock)).
Proof.
  intros e1 e2. destruct (decide (event_fields e1 = event_fields e2)) as [E|E]; [left|right; congruence].
  destruct e1, e2. cbn in E. unfold event_fields in E. cbn in E. congruence.
Defined.
#[export] Instance event_fields_countable : Countable (AuditEvent (D := Qc_decimal) (C := sec_clock)).
Proof. refine (inj_countable' event_fields event_of_fields _). by intros []. Defined.

Lemma bits_one_line p : free_of newline (pos_to_str p) = true ∧ free_of carriage (pos_to_str p) = true ∧ utf8_valid (pos_to_str p) = true.
Proof. induction p as [p (? & ? & ?)|p (? & ? & ?)|]; cbn; done. Qed.

#[export] Instance bits_audit : AuditCodec (D := Qc_decimal) (C := sec_clock) :=
  {| to_line e := Some (bits_of e); of_line := of_bits; events_text evs := Some (bits_of evs) |}.
#[export] Instance bits_audit_laws : AuditCodecLaws bits_audit.
Proof.
  split; cbn.
  - eauto.
  - intros e l [= <-]. apply of_bits_of.
  - intros e l [= <-]. unfold one_line. rewrite bits_of_not_blank. unfold bits_of.
    destruct (bits_one_line (encode e)) as (Hn & Hc & Hu). cbn. by rewrite Hn, Hc, Hu.
Qed.
#[export] Instance bits_day : DayText.
Proof. refine {| ymd d := bits_of d |}. intros x y E. apply (inj Some). by rewrite <- !of_bits_of, E. Defined.
(** A digest small enough to compute with. *)
#[export] Instance length_digest : Digest := {| sha256_hex s := show_uint (str_len s); hmac_hex k s := show_uint (str_len (k +:+ s)) |}.

Definition demo_path : Path := (Some "data", Some "audit", Some "jsonl").
Definition fine : Io := mkIo true true (λ _, None).
Definition demo_event (t : AuditEventType) (symbol : string) : AuditEvent (D := Qc_decimal) (C := sec_clock) :=
  audit_event (C := sec_clock) (sec 0) t symbol None.
Definition demo_calls : list (Io * instant (Clock := sec_clock) * AuditEvent) :=
  [(fine, sec 1, demo_event OrderPlaced "BTCUSDT"); (fine, sec 2, demo_event OrderFilled "BTCUSDT");
   (fine, sec 3, demo_event OrderCancelled "BTCUSDT")].

Lemma demo_calls_done : calls_done demo_calls.
Proof. repeat constructor. Qed.

Lemma tamper_evident_witness :
  let d := (session demo_path ∅ (sec 0, demo_calls)).2 in
  let d2 := disk_append demo_path (String newline "") d in
  verify_chain d demo_path = verify_chain d2 demo_path ∧
  (rows_of d demo_path = rows_of d2 demo_path ∨ collision).
Proof.
  intros d d2. split; [vm_compute; reflexivity|].
  destruct (verify_chain d demo_path) as [rep|] eqn:E; [|exfalso; revert E; by vm_compute].
  destruct (tamper_evident d demo_path rep d2 demo_path rep E) as [[Hr _]|Hc].
  - rewrite <- E. vm_compute. reflexivity.
  - reflexivity.
  - by left.
  - by right.
Defined.

Lemma critical_durable_witness :
  let s' := log fine (sec 5) (demo_event OrderFilled "BTCUSDT") (audit_new demo_path (sec 0) ∅) in (writer s'.1).2 = "".
Proof. apply (critical_durable fine (sec 5) (demo_event OrderFilled "BTCUSDT")); [by intros n|reflexivity]. Defined.

Lemma read_returns_logged_witness :
  ∃ evs, with_prev_hash None <$> evs = with_prev_hash None <$> numbered (D := Qc_decimal) (C := sec_clock) 1 demo_calls.
Proof.
  destruct (read_returns_logged (C := sec_clock) Z.leb demo_path (sec 0) demo_calls ∅ (sec 2) (sec 9) (lookup_empty demo_path)
    demo_calls_done ltac:(repeat constructor) ltac:(cbn; lia)) as (evs & _ & E).
  exists evs. exact E.
Defined.

Lemma chain_unbroken_witness :
  let d := fold_left (λ d x, (session demo_path d x).2) [(sec 0, demo_calls)] ∅ in
  let s := session demo_path d (sec 86400, demo_calls) in
  ∃ n, verify_chain s.2 (writer s.1).1 = Ok (mkReport n (last_hash s.1)).
Proof.
  exact (proj2 (chain_unbroken demo_path [(sec 0, demo_calls)] (sec 86400, demo_calls)
    ltac:(repeat constructor; apply demo_calls_done) demo_calls_done)).
Defined.

(** A process that dies while a row is half on the disk: the next one appends its
    first row to the torn one, and the file no longer verifies. *)
Example torn_row_breaks_chain :
  let d := (session demo_path ∅ (sec 0, demo_calls)).2 in
  let torn := disk_append demo_path "{0101" d in
  verify_chain (session demo_path torn (sec 10, demo_calls)).2 demo_path = Err (MalformedRow 4).
Proof. vm_compute. reflexivity. Qed.

(** The direct write of a row too large for the buffer fails, the disk being
    full: the hash has moved on to the row that is not there, and the next row
    does not follow the one on the disk. *)
Example failed_write_breaks_chain :
  let full : Io := mkIo true true (λ _, Some 0) in
  let large : string := String.string_of_list_ascii (List.repeat "x"%char 1200) in
  let row io n symbol s := log io (sec n) (demo_event OrderFilled symbol) s in
  let s := row fine 3%Z "SOLUSDT" (row full 2%Z large (row fine 1%Z "BTCUSDT" (audit_new demo_path (sec 0) ∅))) in
  (is_ok (verify_chain s.2 demo_path), length (rows_of s.2 demo_path)) = (false, 2).
Proof. vm_compute. reflexivity. Qed.

(** Any reading error, a byte that is not UTF-8 included, is a clean report. *)
Example unreadable_is_clean :
  let d := (session demo_path ∅ (sec 0, demo_calls)).2 in
  verify_chain (disk_append demo_path (String "255" "") d) demo_path = Ok (mkReport 0 None).
Proof. vm_compute. reflexivity. Qed.

(** The last row is not covered by any hash: changed, it still verifies. *)
Example last_row_unprotected :
  let rows ty := rows_text (omap to_line [with_stamp (D := Qc_decimal) (C := sec_clock) 1 (sec 1) (demo_event ty "BTCUSDT")]) in
  (is_ok (verify_content (rows OrderFilled)), is_ok (verify_content (rows OrderCancelled))) = (true, true).
Proof. vm_compute. reflexivity. Qed.

(** Two threads at midnight: the first takes its timestamp before, the second after
    and gets the lock first. Each rotates to its own day, and when the second
    logs again its rotation renames the file of the late row over the archive of
    the day that ended: its rows are gone. *)
Example midnight_race_loses_archive :
  let s := logged demo_calls (audit_new demo_path (sec 0) ∅) in
  let day0 := audit_archive_name demo_path 0 in
  let '(late, st) := stamp (sec 86399) (demo_event OrderPlaced "late") s.1 in
  let s1 := log fine (sec 86400) (demo_event OrderPlaced "next") (st, s.2) in
  let s2 := log_locked fine late s1.1 s1.2 in
  let s3 := log fine (sec 86401) (demo_event OrderPlaced "next") s2 in
  (length (rows_of s1.2 day0), length (rows_of s3.2 day0), length (rows_of s3.2 (audit_archive_name demo_path 1))) = (3, 1, 1).
Proof. vm_compute. reflexivity. Qed.
