(* ===== verification/Checkpoint.v ===== *)
(** * Checkpoints and the replay of fills ([crates/persistence/src])

    The manager that keeps the latest state of every symbol in a signed file
    ([checkpoint.rs]), what the engine puts in it and takes from it
    ([crates/engine/src/market_maker.rs]), and the reconstruction of a position
    from the audit log ([fill_replay.rs]). A write to the disk or a rename may
    fail at any point, or the process may stop there; what the write left is an
    input. The state of strategies and subsystems is opaque JSON text. *)
From stdpp Require Import base gmap list strings.
From Stdlib Require Import ZArith QArith Qabs Lqa Lia.
From S2P Require Import Prelude Decimal Types Bytes Inventory AuditLog Pnl.
Local Open Scope nat_scope.

Section Checkpoint.
Context {D : Decimal}.

Record SymbolCheckpoint := mkSymbolCheckpoint {
  sc_symbol : string;
  sc_inventory : dec;
  sc_avg_entry_price : dec;
  sc_open_order_ids : list OrderId;
  sc_realized_pnl : dec;
  sc_total_volume : dec;
  sc_total_fills : Z;
  sc_inflight_atomic_bundles : list string;
  sc_strategy_state : option string;
  sc_engine_state : gmap string string;
}.

Record Checkpoint := mkCheckpoint {
  cp_timestamp : Z;
  cp_symbols : gmap string SymbolCheckpoint;
  cp_daily_pnl : dec;
  cp_total_realized_pnl : dec;
}.

Definition checkpoint_new (now : Z) : Checkpoint := mkCheckpoint now ∅ dec0 dec0.

Inductive CheckpointIssue :=
| FutureTimestamp
| InventoryWithoutEntry (symbol : string) (inventory : dec)
| NegativeEntry (symbol : string) (entry : dec)
| FillsWithoutVolume (symbol : string) (fills : Z).

Definition symbol_issues (kv : string * SymbolCheckpoint) : list CheckpointIssue :=
  let '(symbol, sc) := kv in
  (if negb (is_zero (sc_inventory sc)) && is_zero (sc_avg_entry_price sc)
   then [InventoryWithoutEntry symbol (sc_inventory sc)] else [])
  ++ (if dltb (sc_avg_entry_price sc) dec0 then [NegativeEntry symbol (sc_avg_entry_price sc)] else [])
  ++ (if (0 <? sc_total_fills sc)%Z && is_zero (sc_total_volume sc)
      then [FillsWithoutVolume symbol (sc_total_fills sc)] else []).

Definition checkpoint_validate {I : HashMapIter} (now : Z) (c : Checkpoint) : list CheckpointIssue :=
  (if (now <? cp_timestamp c)%Z then [FutureTimestamp] else []) ++ mjoin (symbol_issues <$> hm_iter (cp_symbols c)).

(** [serde_json] on the checkpoint and on its envelope. *)
Class CheckpointCodec := {
  encode_checkpoint : Checkpoint → string;
  decode_checkpoint : string → option Checkpoint;
  encode_envelope : Z → string → string → string;
  decode_envelope : string → option (Z * string * string);
}.

Class CheckpointLaws (CC : CheckpointCodec) : Prop := {
  checkpoint_roundtrip c : decode_checkpoint (encode_checkpoint c) = Some c;
  envelope_roundtrip v p s : decode_envelope (encode_envelope v p s) = Some (v, p, s);
  envelope_utf8 v p s : utf8_valid (encode_envelope v p s) = true;
}.

Context {CC : CheckpointCodec} {DG : Digest}.

Inductive LoadError := ReadFailed | BadVersion (v : Z) | HmacMismatch | ParseFailed.

(** [MM_CHECKPOINT_SECRET], or [MM_AUTH_SECRET]; an empty one counts as absent. *)
Definition nonempty (s : option string) : option string :=
  match s with Some s => if String.eqb s "" then None else Some s | None => None end.
Definition checkpoint_secret (checkpoint auth : option string) : option string :=
  match nonempty checkpoint with Some s => Some s | None => nonempty auth end.

Definition signature_ok (secret : option string) (payload signature : string) : bool :=
  match secret with
  | Some s => String.eqb signature "" || String.eqb signature (hmac_hex s payload)
  | None => true
  end.

Definition parse_checkpoint (text : string) : result Checkpoint LoadError :=
  match decode_checkpoint text with Some c => Ok c | None => Err ParseFailed end.

Definition load_from_disk (path : Path) (secret : option string) (d : Disk) : result Checkpoint LoadError :=
  match read_to_string d path with
  | None => Err ReadFailed
  | Some content =>
      match decode_envelope content with
      | Some (version, payload, signature) =>
          if negb (version =? 1)%Z then Err (BadVersion version)
          else if signature_ok secret payload signature then parse_checkpoint payload
          else Err HmacMismatch
      | None => parse_checkpoint content
      end
  end.

Record CheckpointManager := mkManager {
  cm_path : Path;
  cm_current : Checkpoint;
  write_count : Z;
  flush_every : Z;
  cm_secret : option string;
}.

Definition new_with_secret (now : Z) (path : Path) (every : Z) (secret : option string) (d : Disk) : CheckpointManager :=
  mkManager path
    (match load_from_disk path secret d with Ok c => c | Err _ => checkpoint_new now end) 0 every secret.

(** What becomes of a flush: the write fails and leaves some text in the
    temporary file, the rename fails, or both succeed. *)
Inductive FlushIo := IoWriteFails (partial : string) | IoRenameFails | IoOk.

Definition tmp_path (p : Path) : Path := (p.1, Some "tmp"%string).

Definition signed_text (m : CheckpointManager) : string :=
  let payload := encode_checkpoint (cm_current m) in
  encode_envelope 1 payload (from_option (λ s, hmac_hex s payload) ""%string (cm_secret m)).

Definition flush (io : FlushIo) (m : CheckpointManager) (d : Disk) : bool * Disk :=
  let tmp := tmp_path (cm_path m) in
  match io with
  | IoWriteFails partial => (false, <[tmp := partial]> d)
  | IoRenameFails => (false, <[tmp := signed_text m]> d)
  | IoOk => (true, <[cm_path m := signed_text m]> (delete tmp d))
  end.

Definition with_current (c : Checkpoint) (n : Z) (m : CheckpointManager) : CheckpointManager :=
  mkManager (cm_path m) c n (flush_every m) (cm_secret m).

(** [flushed]: whether this update wrote the file. *)
Definition update_symbol (now : Z) (io : FlushIo) (sc : SymbolCheckpoint) (m : CheckpointManager) (d : Disk) :
    bool * CheckpointManager * Disk :=
  let c := cm_current m in
  let c := mkCheckpoint now (<[sc_symbol sc := sc]> (cp_symbols c)) (cp_daily_pnl c) (cp_total_realized_pnl c) in
  let n := wrap_u64 (write_count m + 1) in
  let m := with_current c n m in
  if (flush_every m <=? n)%Z then
    let '(ok, d) := flush io m d in (ok, with_current c 0 m, d)
  else (false, m, d).

Definition checkpoint_update_pnl (daily realized : dec) (m : CheckpointManager) : CheckpointManager :=
  let c := cm_current m in
  with_current (mkCheckpoint (cp_timestamp c) (cp_symbols c) daily realized) (write_count m) m.

Definition get_symbol (symbol : string) (m : CheckpointManager) : option SymbolCheckpoint :=
  cp_symbols (cm_current m) !! symbol.

(** ** Runs *)
Inductive ManagerCall :=
| CallUpdate (now : Z) (io : FlushIo) (sc : SymbolCheckpoint)
| CallPnl (daily realized : dec)
| CallFlush (io : FlushIo).

(** The manager, the disk, and the checkpoint of the last flush that succeeded. *)
Definition manager_call (st : CheckpointManager * Disk * option Checkpoint) (c : ManagerCall) :
    CheckpointManager * Disk * option Checkpoint :=
  let '(m, d, last) := st in
  match c with
  | CallUpdate now io sc =>
      let '(flushed, m', d') := update_symbol now io sc m d in (m', d', if flushed then Some (cm_current m') else last)
  | CallPnl daily realized => (checkpoint_update_pnl daily realized m, d, last)
  | CallFlush io => let '(ok, d') := flush io m d in (m, d', if ok then Some (cm_current m) else last)
  end.

Definition manager_run (cs : list ManagerCall) (m : CheckpointManager) (d : Disk) : CheckpointManager * Disk * option Checkpoint :=
  fold_left manager_call cs (m, d, None).
End Checkpoint.

(** ** What a restart finds *)
Section Recovery.
Context {D : Decimal} {CC : CheckpointCodec} {L : CheckpointLaws CC} {DG : Digest}.

Lemma load_signed m d : d !! cm_path m = Some (signed_text m) →
  load_from_disk (cm_path m) (cm_secret m) d = Ok (cm_current m).
Proof.
  intros Hd. unfold load_from_disk, read_to_string. rewrite Hd. unfold signed_text.
  rewrite envelope_utf8, envelope_roundtrip. cbn. unfold parse_checkpoint. rewrite checkpoint_roundtrip.
  assert (Hs : signature_ok (cm_secret m) (encode_checkpoint (cm_current m))
    (from_option (λ s, hmac_hex s (encode_checkpoint (cm_current m))) ""%string (cm_secret m)) = true).
  { unfold signature_ok. destruct (cm_secret m); [|done]. cbn. rewrite String.eqb_refl. apply orb_true_r. }
  by rewrite Hs.
Qed.

Lemma flush_load io m d : tmp_path (cm_path m) ≠ cm_path m →
  let x := flush io m d in
  if x.1 then load_from_disk (cm_path m) (cm_secret m) x.2 = Ok (cm_current m)
  else ∀ secret, load_from_disk (cm_path m) secret x.2 = load_from_disk (cm_path m) secret d.
Proof.
  intros Ht. destruct io; cbn.
  - intros secret. unfold load_from_disk, read_to_string. by rewrite lookup_insert_ne.
  - intros secret. unfold load_from_disk, read_to_string. by rewrite lookup_insert_ne.
  - apply load_signed. apply lookup_insert_eq.
Qed.

(** The file of a manager holds what it last flushed, or what was there before. *)
Definition holds (path : Path) (secret : option string) (before : result Checkpoint LoadError)
    (st : CheckpointManager * Disk * option Checkpoint) : Prop :=
  cm_path st.1.1 = path ∧ cm_secret st.1.1 = secret ∧
  load_from_disk path secret st.1.2 = match st.2 with Some c => Ok c | None => before end.

Lemma call_holds path secret before st c : tmp_path path ≠ path → holds path secret before st →
  holds path secret before (manager_call st c).
Proof.
  intros Ht (<- & <- & Hl). destruct st as [[m d] last]. cbn in *. destruct c as [now io sc|daily realized|io]; cbn.
  - unfold update_symbol. set (m1 := with_current _ _ m). destruct (flush_every m1 <=? _)%Z; [|done].
    pose proof (flush_load io m1 d Ht) as Hf. destruct (flush io m1 d) as [ok d']. cbn in Hf.
    split; [done|]. split; [done|]. cbn. destruct ok; [exact Hf|]. rewrite Hf. exact Hl.
  - done.
  - pose proof (flush_load io m d Ht) as Hf. destruct (flush io m d) as [ok d']. cbn in Hf.
    split; [done|]. split; [done|]. cbn. destruct ok; [exact Hf|]. rewrite Hf. exact Hl.
Qed.

(** C20: whatever updates and flushes a manager runs, and wherever a write or a
    rename of theirs fails or stops half way, a manager started afterwards on
    the same file with the same secret begins with the checkpoint of the last
    flush that succeeded, whole, or, when none did, with what the file held
    before; and a flush is due after every [flush_every] updates. *)
Theorem restart_finds_last_flush now0 path every secret d0 cs now (Ht : tmp_path path ≠ path) :
  let m0 := new_with_secret now0 path every secret d0 in
  let st := manager_run cs m0 d0 in
  cm_current (new_with_secret now path every secret st.1.2) =
    match st.2 with
    | Some c => c
    | None => cm_current (new_with_secret now path every secret d0)
    end ∧
  (∀ now' io sc, (0 ≤ write_count st.1.1)%Z → (write_count st.1.1 < 2 ^ 64 - 1)%Z →
     let r := update_symbol now' io sc st.1.1 st.1.2 in
     ((every ≤ write_count st.1.1 + 1)%Z → write_count r.1.2 = 0%Z ∧ (r.1.1 = true ↔ io = IoOk)) ∧
     ((write_count st.1.1 + 1 < every)%Z → write_count r.1.2 = (write_count st.1.1 + 1)%Z ∧ r.2 = st.1.2)).
Proof.
  intros m0 st.
  assert (Hrun : ∀ cs st, holds path secret (load_from_disk path secret d0) st →
    holds path secret (load_from_disk path secret d0) (fold_left manager_call cs st)).
  { clear -Ht L. induction cs as [|c cs IH]; intros st Hst; [done|]. by apply IH, call_holds. }
  assert (Hev : ∀ cs st, flush_every st.1.1 = every → flush_every (fold_left manager_call cs st).1.1 = every).
  { clear. induction cs as [|c cs IH]; intros [[m d] last] Hst; [done|]. cbn [fold_left]. apply IH.
    destruct c as [now io sc|daily realized|io]; cbn; [|done|by destruct (flush io m d)].
    unfold update_symbol. cbn. destruct (_ <=? _)%Z; [|done]. by destruct (flush _ _ _). }
  destruct (Hrun cs (m0, d0, None)) as (_ & _ & Hl); [done|]. fold (manager_run cs m0 d0) in Hl. fold st in Hl.
  specialize (Hev cs (m0, d0, None) eq_refl). fold (manager_run cs m0 d0) in Hev. fold st in Hev.
  split; [cbn; rewrite Hl; by destruct st.2|].
  intros now' io sc H0 H1 r. unfold r, update_symbol. cbn. rewrite Hev.
  rewrite wrap_u64_id by (unfold is_u64, u64_max; lia). destruct (Z.leb_spec every (write_count st.1.1 + 1)); [|naive_solver lia].
  split; [intros _|lia]. destruct io; cbn; naive_solver.
Qed.

(** The signature protects nothing: with a secret configured, a file without a
    signature, or without an envelope, is loaded as it is. *)
Lemma unsigned_accepted path secret d c : d !! path = Some (encode_envelope 1 (encode_checkpoint c) "") →
  load_from_disk path (Some secret) d = Ok c.
Proof.
  intros Hd. unfold load_from_disk, read_to_string. rewrite Hd, envelope_utf8, envelope_roundtrip. cbn.
  unfold parse_checkpoint. by rewrite checkpoint_roundtrip.
Qed.
End Recovery.

(** ** What the engine stores and takes back *)
Section EngineState.
Context {D : Decimal} {C : Clock}.

(** [update_dashboard], every sixtieth tick. *)
Definition symbol_checkpoint (symbol : string) (m : InventoryManager) (ids : list OrderId) (p : PnlTracker)
    (bundles : list string) (strategy : option string) (subsystems : gmap string string) : SymbolCheckpoint :=
  mkSymbolCheckpoint symbol (inventory m) (avg_entry_price m) ids (spread_pnl (attribution p))
    (total_volume (attribution p)) (wrap_u64 (round_trips (attribution p) * 2)) bundles strategy subsystems.

Definition set_spread_pnl (x : dec) (a : PnlAttribution) : PnlAttribution :=
  mkAttribution x (inventory_pnl a) (rebate_income a) (fees_paid a) (loan_cost_amortized a) (funding_pnl_realised a)
    (funding_pnl_mtm a) (round_trips a) (fill_count a) (total_volume a).

(** The books after [with_checkpoint_restore]. *)
Definition checkpoint_restore (sc : SymbolCheckpoint) (m : InventoryManager) (p : PnlTracker) : InventoryManager * PnlTracker :=
  (force_reset_inventory_to (sc_inventory sc) m,
   with_attribution (set_spread_pnl (sc_realized_pnl sc) (attribution p)) p).

(** ** Replay *)
Record AuditEventSlim := mkSlim {
  sl_event_type : string;
  sl_side : option string;
  sl_price : option dec;
  sl_qty : option dec;
  sl_timestamp : option Z;
}.

(** [serde_json] on one line of the log. *)
Class SlimCodec := { decode_slim : string → option AuditEventSlim }.

Record FillReplayResult := mkReplay {
  rp_inventory : dec;
  rp_realized_pnl : dec;
  rp_fill_count : Z;
  rp_total_volume : dec;
  rp_last_fill_at : option Z;
}.

(** The accumulators of the loop, with the last price as the estimate of the mid. *)
Definition replay_event (st : FillReplayResult * dec) (e : AuditEventSlim) : FillReplayResult * dec :=
  let '(r, last_mid) := st in
  if negb (String.eqb (sl_event_type e) "order_filled") then st
  else
    match sl_side e, sl_price e, sl_qty e with
    | Some side, Some price, Some qty =>
        let buy := String.eqb side "Buy" in
        let sell := String.eqb side "Sell" in
        let capture := if buy then dmul (dsub last_mid price) qty
                       else if sell then dmul (dsub price last_mid) qty else dec0 in
        (mkReplay
           (if buy then dadd (rp_inventory r) qty else if sell then dsub (rp_inventory r) qty else rp_inventory r)
           (if dltb dec0 last_mid then dadd (rp_realized_pnl r) capture else rp_realized_pnl r)
           (wrap_u64 (rp_fill_count r + 1)) (dadd (rp_total_volume r) (dmul price qty)) (sl_timestamp e), price)
    | _, _, _ => st
    end.

Definition replay_events (es : list AuditEventSlim) : FillReplayResult * dec :=
  fold_left replay_event es (mkReplay dec0 dec0 0 dec0 None, dec0).

Definition replay_fills_from_audit {SC : SlimCodec} (content : option string) : option FillReplayResult :=
  match content with
  | None => None
  | Some text =>
      let r := (replay_events (omap decode_slim (str_lines text))).1 in
      if (rp_fill_count r =? 0)%Z then None else Some r
  end.

Inductive ReplayIssue :=
| InventoryMismatch (checkpoint replay diff : dec)
| FillCountMismatch (checkpoint replay : Z).

Definition validate_checkpoint_against_replay (c : SymbolCheckpoint) (r : FillReplayResult) (tol : dec) : list ReplayIssue :=
  let diff := dabs (dsub (sc_inventory c) (rp_inventory r)) in
  (if dltb tol diff then [InventoryMismatch (sc_inventory c) (rp_inventory r) diff] else [])
  ++ (if (sc_total_fills c =? rp_fill_count r)%Z then [] else [FillCountMismatch (sc_total_fills c) (rp_fill_count r)]).

(** The text of a side in a row of the log ([#[serde(rename)]] of
    [crates/common/src/types.rs]), and the row of a fill. *)
Definition side_text (s : Side) : string := match s with Buy => "buy" | Sell => "sell" end.

Definition logged_fill (f : Fill) (at_ : Z) : AuditEventSlim :=
  mkSlim "order_filled" (Some (side_text (f_side f))) (Some (f_price f)) (Some (f_qty f)) (Some at_).
End EngineState.

Section EngineFacts.
Context {D : Decimal} {C : Clock} {E : DecimalExact D}.

(** The replay looks for capitalised sides, and the log writes them in lower
    case: whatever was filled, the replay finds a flat position. *)
Lemma replay_of_log_is_flat fs : rp_inventory (replay_events ((λ f, logged_fill f 0) <$> fs)).1 = dec0.
Proof.
  unfold replay_events. assert (Hg : ∀ st : FillReplayResult * dec, rp_inventory st.1 = dec0 →
    rp_inventory (fold_left replay_event ((λ f, logged_fill f 0) <$> fs) st).1 = dec0).
  { induction fs as [|f fs IH]; intros [r mid] H; [done|]. cbn [fmap list_fmap fold_left]. apply IH.
    unfold replay_event, logged_fill, side_text. by destruct (f_side f). }
  by apply Hg.
Qed.

Definition replayed (e : AuditEventSlim) : Q :=
  if String.eqb (sl_event_type e) "order_filled" then
    match sl_side e, sl_price e, sl_qty e with
    | Some side, Some _, Some qty =>
        if String.eqb side "Buy" then dval qty else if String.eqb side "Sell" then - dval qty else 0
    | _, _, _ => 0
    end%Q
  else 0%Q.

(** On rows with capitalised sides the replay is the base bought less the base sold. *)
Lemma replay_inventory_val es :
  (dval (rp_inventory (replay_events es).1) == qsum (replayed <$> es))%Q.
Proof.
  unfold replay_events.
  assert (Hg : ∀ st : FillReplayResult * dec,
    (dval (rp_inventory (fold_left replay_event es st).1) == dval (rp_inventory st.1) + qsum (replayed <$> es))%Q).
  { induction es as [|e es IH]; intros [r mid]; [cbn; ring|]. cbn [fmap list_fmap fold_left qsum]. rewrite IH.
    enough (Hs : (dval (rp_inventory (replay_event (r, mid) e).1) == dval (rp_inventory r) + replayed e)%Q) by (rewrite Hs; cbn [fst]; ring).
    unfold replay_event, replayed. destruct (String.eqb _ "order_filled"); cbn [negb]; [|cbn; ring].
    destruct (sl_side e) as [side|], (sl_price e) as [price|], (sl_qty e) as [qty|]; cbn; try ring.
    destruct (String.eqb side "Buy"); [by rewrite dadd_exact|].
    destruct (String.eqb side "Sell"); [rewrite dsub_exact; ring|ring]. }
  rewrite Hg. cbn. rewrite dec0_val. ring.
Qed.

(** The number of fills a checkpoint holds is twice the completed round trips,
    and the replay counts rows: one fill that opens a position is a mismatch. *)
Lemma fill_counts_differ maker taker f mid (s : string) m ids bundles st sub (tol : dec) :
  ¬ (dval (f_qty f) == 0)%Q →
  FillCountMismatch 0 1 ∈ validate_checkpoint_against_replay
    (symbol_checkpoint s m ids (pnl_on_fill f mid (pnl_new maker taker)) bundles st sub)
    (replay_events [logged_fill f 0]).1 tol.
Proof.
  intros Hq. unfold symbol_checkpoint, pnl_on_fill. destruct (charge_fee _ _ _ _ _ _) as [r fe]. cbn.
  assert (Hz : is_zero match f_side f with Buy => dadd dec0 (f_qty f) | Sell => dsub dec0 (f_qty f) end = false).
  { apply is_zero_false. destruct (f_side f); rewrite ?dadd_exact, ?dsub_exact, dec0_val; lra. }
  rewrite Hz, andb_false_r. unfold validate_checkpoint_against_replay. apply elem_of_app. right.
  unfold logged_fill, side_text. by destruct (f_side f); apply list_elem_of_singleton.
Qed.

(** The restored inventory has no entry price: selling it books the whole
    proceeds as realised profit. *)
Lemma restored_sale_is_all_profit sc p0 (f : Fill) : (0 < dval (sc_inventory sc))%Q → f_side f = Sell →
  (dval (f_qty f) == dval (sc_inventory sc))%Q →
  (dval (realized_pnl (inventory_on_fill f (checkpoint_restore sc inventory_new p0).1)) ==
    dval (sc_inventory sc) * dval (f_price f))%Q.
Proof.
  intros Hi Hs Hq. destruct (on_fill_fields f (checkpoint_restore sc inventory_new p0).1) as (_ & _ & -> & _).
  destruct (realize_long (checkpoint_restore sc inventory_new p0).1 f) as (x & Hx & Hm).
  - exact Hi.
  - unfold signed. rewrite Hs. lra.
  - rewrite Hx. cbn in *. rewrite !dec0_val. unfold signed in Hm. rewrite Hs in Hm.
    assert (Hxv : (x == dval (sc_inventory sc))%Q) by (destruct Hm as [[H _]|[H _]]; lra). rewrite Hxv. ring.
Qed.
End EngineFacts.

(** ** Witnesses *)
#[export] Instance SymbolCheckpoint_eq_dec {D : Decimal} : EqDecision SymbolCheckpoint.
Proof. solve_decision. Defined.

#[export] Instance SymbolCheckpoint_countable {D : Decimal} : Countable SymbolCheckpoint.
Proof.
  refine (inj_countable'
    (λ s, (sc_symbol s, sc_inventory s, sc_avg_entry_price s, sc_open_order_ids s, sc_realized_pnl s,
           (sc_total_volume s, sc_total_fills s, sc_inflight_atomic_bundles s, sc_strategy_state s, sc_engine_state s)))
    (λ t, match t with (a, b, c, d, e, (f, g, h, i, j)) => mkSymbolCheckpoint a b c d e f g h i j end) _).
  by intros [].
Defined.

#[export] Instance Checkpoint_eq_dec {D : Decimal} : EqDecision Checkpoint.
Proof. solve_decision. Defined.

#[export] Instance Checkpoint_countable {D : Decimal} : Countable Checkpoint.
Proof.
  refine (inj_countable' (λ c, (cp_timestamp c, cp_symbols c, cp_daily_pnl c, cp_total_realized_pnl c))
    (λ t, match t with (a, b, c, d) => mkCheckpoint a b c d end) _).
  by intros [].
Defined.

#[export] Instance bit_checkpoint {D : Decimal} : CheckpointCodec := {|
  encode_checkpoint c := bits_of c;
  decode_checkpoint s := of_bits s;
  encode_envelope v p s := bits_of (v, p, s);
  decode_envelope s := of_bits s;
|}.

#[export] Instance bit_checkpoint_laws {D : Decimal} : CheckpointLaws bit_checkpoint.
Proof.
  split.
  - intros c. apply of_bits_of.
  - intros v p s. apply of_bits_of.
  - intros v p s. cbn. unfold bits_of. apply (utf8_valid_app "{"); [done|]. apply bits_one_line.
Qed.

Definition joined : Digest := {| sha256_hex s := s; hmac_hex k s := (k +:+ s)%string |}.

Definition demo_symbol (n : Z) : SymbolCheckpoint (D := Qc_decimal) :=
  mkSymbolCheckpoint "BTCUSDT" (dlit n 0) (dlit 100 0) [7%N] dec0 (dlit 300 0) 2 [] None ∅.

Definition demo_path : Path := (Some "data"%string, Some "checkpoint"%string, Some "json"%string).

Definition demo_calls : list (ManagerCall (D := Qc_decimal)) :=
  [CallUpdate 1 IoOk (demo_symbol 1); CallUpdate 2 IoOk (demo_symbol 2);
   CallUpdate 3 IoOk (demo_symbol 3); CallUpdate 4 (IoWriteFails "{01") (demo_symbol 4)].

(** Two updates are due for a flush, the second of which is cut short: the
    restart finds the second update. *)
Lemma restart_finds_last_flush_witness :
  let m0 := new_with_secret (DG := joined) 0 demo_path 2 (Some "key"%string) ∅ in
  let d := (manager_run (DG := joined) demo_calls m0 ∅).1.2 in
  sc_inventory <$> get_symbol "BTCUSDT" (new_with_secret (DG := joined) 9 demo_path 2 (Some "key"%string) d) = Some (dlit 2 0).
Proof.
  intros m0 d. unfold get_symbol, d, m0.
  rewrite (proj1 (restart_finds_last_flush (DG := joined) 0 demo_path 2 (Some "key"%string) ∅ demo_calls 9 ltac:(done))).
  vm_compute. reflexivity.
Defined.
