(* ===== verification/Base64.v ===== *)
(** * The token alphabet ([base64_encode] and [base64_decode] of
    [crates/dashboard/src/auth.rs])

    URL-safe base64 without padding; the decoder skips padding and accepts the
    standard alphabet too. A byte is a number below 256 and the shifts of [u8]
    drop what leaves it. *)
From stdpp Require Import base list strings.
From Stdlib Require Import ZArith Lia Ascii.
From S2P Require Import Prelude Bytes.
Local Open Scope string_scope.
Local Open Scope Z_scope.
Local Open Scope list_scope.

Definition CHARS : string := "ABCDEFGHIJKLMNOPQRSTUVWXYZabcdefghijklmnopqrstuvwxyz0123456789-_".

Definition bytes_of (s : string) : list Z := byte_of <$> String.list_ascii_of_string s.
Definition of_bytes (l : list Z) : string := String.string_of_list_ascii ((λ b, ascii_of_N (Z.to_N b)) <$> l).

(** [CHARS[i]]; the indices are below 64. *)
Definition char_at (i : Z) : Z := nth (Z.to_nat i) (bytes_of CHARS) 0.

(** [chunk[i]] where the code reads zero past the end. *)
Definition at_or_zero (l : list Z) (i : nat) : Z := nth i l 0.

(** One chunk of three bytes, the last possibly shorter. *)
Definition encode_chunk (chunk : list Z) : list Z :=
  let b0 := at_or_zero chunk 0 in
  let b1 := at_or_zero chunk 1 in
  let b2 := at_or_zero chunk 2 in
  [char_at (Z.shiftr b0 2); char_at (Z.lor (Z.shiftl (Z.land b0 3) 4) (Z.shiftr b1 4))]
  ++ (if (1 <? length chunk)%nat then [char_at (Z.lor (Z.shiftl (Z.land b1 15) 2) (Z.shiftr b2 6))] else [])
  ++ (if (2 <? length chunk)%nat then [char_at (Z.land b2 63)] else []).

Definition base64_encode (s : string) : string :=
  let buf := of_bytes (mjoin (encode_chunk <$> chunks 3 (bytes_of s))) in
  if utf8_valid buf then buf else "".

(** The [DECODE] table: 255 marks what is not in the alphabet. *)
Definition find_index (b : Z) : Z :=
  match list_find (λ c, c = b) (bytes_of CHARS) with Some (i, _) => Z.of_nat i | None => 255 end.
Definition DECODE (b : Z) : Z :=
  if b =? 43 then 62 else if b =? 47 then 63 else if b <? 128 then find_index b else 255.

Definition u8 (z : Z) : Z := z mod 256.

(** One chunk of four digits, the last possibly shorter. *)
Definition decode_chunk (chunk : list Z) : option (list Z) :=
  let vals := DECODE <$> chunk in
  if bool_decide (255 ∈ vals) then None
  else
    Some ([Z.lor (u8 (Z.shiftl (at_or_zero vals 0) 2)) (Z.shiftr (at_or_zero vals 1) 4)]
      ++ (if (2 <? length chunk)%nat then [Z.lor (u8 (Z.shiftl (at_or_zero vals 1) 4)) (Z.shiftr (at_or_zero vals 2) 2)] else [])
      ++ (if (3 <? length chunk)%nat then [Z.lor (u8 (Z.shiftl (at_or_zero vals 2) 6)) (at_or_zero vals 3)] else [])).

Definition base64_bytes (s : string) : option (list Z) :=
  mjoin <$> mapM decode_chunk (chunks 4 (filter (λ b, b ≠ 61) (bytes_of s))).

Definition base64_decode (s : string) : option string :=
  match base64_bytes s with
  | Some bytes => let t := of_bytes bytes in if utf8_valid t then Some t else None
  | None => None
  end.

(** ** Decoding inverts encoding *)
Definition is_byte (b : Z) : Prop := 0 ≤ b < 256.

Lemma bytes_of_bytes s : Forall is_byte (bytes_of s).
Proof. unfold bytes_of. apply Forall_fmap, Forall_true. intros c. apply byte_of_range. Qed.

Lemma of_bytes_of s : of_bytes (bytes_of s) = s.
Proof.
  unfold of_bytes, bytes_of. rewrite <- list_fmap_compose.
  rewrite (list_fmap_ext _ id), list_fmap_id; [apply String.string_of_list_ascii_of_string|].
  intros i c _. unfold compose, byte_of. by rewrite N2Z.id, ascii_N_embedding.
Qed.

Lemma bytes_of_of l : Forall is_byte l → bytes_of (of_bytes l) = l.
Proof.
  intros Hl. unfold of_bytes, bytes_of. rewrite String.list_ascii_of_string_of_list_ascii, <- list_fmap_compose.
  rewrite <- (list_fmap_id l) at 2. apply list_fmap_ext. intros i b Hb. rewrite Forall_forall in Hl.
  apply list_elem_of_lookup_2, Hl in Hb. unfold compose, byte_of. rewrite N_ascii_embedding by (unfold is_byte in Hb; lia).
  rewrite Z2N.id; [done|]. unfold is_byte in Hb. lia.
Qed.

(** Facts about all small numbers, by enumeration. *)
Definition below (n : Z) : list Z := seqZ 0 n.
Lemma below_elem n x : 0 ≤ x < n → x ∈ below n.
Proof. intros Hx. apply elem_of_seqZ. lia. Qed.
Lemma forall_below (P : Z → bool) n x : forallb P (below n) = true → 0 ≤ x < n → P x = true.
Proof. intros HP Hx. rewrite forallb_forall in HP. apply HP. apply list_elem_of_In. by apply below_elem. Qed.
Lemma forall_below2 (P : Z → Z → bool) n m x y :
  forallb (λ x, forallb (P x) (below m)) (below n) = true → 0 ≤ x < n → 0 ≤ y < m → P x y = true.
Proof. intros HP Hx Hy. apply (forall_below _ m); [|done]. by apply (forall_below (λ x, forallb (P x) (below m)) n). Qed.

(** A digit decodes to its value, is not padding and is plain ASCII. *)
Lemma digit_decodes i : 0 ≤ i < 64 →
  DECODE (char_at i) = i ∧ char_at i ≠ 61 ∧ char_at i ≠ 46 ∧ 32 ≤ char_at i < 127.
Proof.
  intros Hi. pose proof (forall_below (λ i, (DECODE (char_at i) =? i) && negb (char_at i =? 61) && negb (char_at i =? 46)
    && (32 <=? char_at i) && (char_at i <? 127)) 64 i ltac:(by vm_compute) Hi) as H. cbn beta in H.
  rewrite !andb_true_iff, !negb_true_iff, !Z.eqb_neq, Z.eqb_eq, Z.leb_le, Z.ltb_lt in H. tauto.
Qed.

Lemma high_bits b : is_byte b → 0 ≤ Z.shiftr b 2 < 64 ∧ 0 ≤ Z.land b 3 < 4 ∧ 0 ≤ Z.shiftr b 4 < 16 ∧ 0 ≤ Z.land b 15 < 16 ∧
  0 ≤ Z.shiftr b 6 < 4 ∧ 0 ≤ Z.land b 63 < 64.
Proof.
  intros Hb. pose proof (forall_below (λ b, (0 <=? Z.shiftr b 2) && (Z.shiftr b 2 <? 64) && (0 <=? Z.land b 3) && (Z.land b 3 <? 4)
    && (0 <=? Z.shiftr b 4) && (Z.shiftr b 4 <? 16) && (0 <=? Z.land b 15) && (Z.land b 15 <? 16)
    && (0 <=? Z.shiftr b 6) && (Z.shiftr b 6 <? 4) && (0 <=? Z.land b 63) && (Z.land b 63 <? 64)) 256 b ltac:(by vm_compute) Hb) as H.
  cbn beta in H. rewrite !andb_true_iff, !Z.leb_le, !Z.ltb_lt in H. tauto.
Qed.

(** The digits of a chunk, and the bytes the decoder puts together from them. *)
Definition digit1 (b0 b1 : Z) : Z := Z.lor (Z.shiftl (Z.land b0 3) 4) (Z.shiftr b1 4).
Definition digit2 (b1 b2 : Z) : Z := Z.lor (Z.shiftl (Z.land b1 15) 2) (Z.shiftr b2 6).

Lemma digit_ranges b0 b1 : is_byte b0 → is_byte b1 → 0 ≤ digit1 b0 b1 < 64 ∧ 0 ≤ digit2 b0 b1 < 64.
Proof.
  intros H0 H1. pose proof (forall_below2 (λ b0 b1, (0 <=? digit1 b0 b1) && (digit1 b0 b1 <? 64) && (0 <=? digit2 b0 b1)
    && (digit2 b0 b1 <? 64)) 256 256 b0 b1 ltac:(by vm_compute) H0 H1) as H.
  cbn beta in H. rewrite !andb_true_iff, !Z.leb_le, !Z.ltb_lt in H. tauto.
Qed.

Lemma byte0_back b0 b1 : is_byte b0 → is_byte b1 →
  Z.lor (u8 (Z.shiftl (Z.shiftr b0 2) 2)) (Z.shiftr (digit1 b0 b1) 4) = b0.
Proof.
  intros H0 H1. apply Z.eqb_eq.
  exact (forall_below2 (λ b0 b1, Z.lor (u8 (Z.shiftl (Z.shiftr b0 2) 2)) (Z.shiftr (digit1 b0 b1) 4) =? b0) 256 256 b0 b1
    ltac:(by vm_compute) H0 H1).
Qed.

(** The middle byte depends on two bits of each neighbour. *)
Lemma byte1_back b0 b1 b2 : is_byte b0 → is_byte b1 → is_byte b2 →
  Z.lor (u8 (Z.shiftl (digit1 b0 b1) 4)) (Z.shiftr (digit2 b1 b2) 2) = b1.
Proof.
  intros H0 H1 H2. destruct (high_bits b0 H0) as (_ & Hx & _), (high_bits b2 H2) as (_ & _ & _ & _ & Hy & _).
  unfold digit1, digit2. generalize dependent (Z.land b0 3). generalize dependent (Z.shiftr b2 6). intros y Hy x Hx.
  pose proof (forall_below2 (λ b1 x, forallb (λ y, Z.lor (u8 (Z.shiftl (Z.lor (Z.shiftl x 4) (Z.shiftr b1 4)) 4))
    (Z.shiftr (Z.lor (Z.shiftl (Z.land b1 15) 2) y) 2) =? b1) (below 4)) 256 4 b1 x ltac:(by vm_compute) H1 Hx) as H.
  cbn beta in H. apply Z.eqb_eq. exact (forall_below _ 4 y H Hy).
Qed.

Lemma byte2_back b1 b2 : is_byte b1 → is_byte b2 → Z.lor (u8 (Z.shiftl (digit2 b1 b2) 6)) (Z.land b2 63) = b2.
Proof.
  intros H1 H2. apply Z.eqb_eq.
  exact (forall_below2 (λ b1 b2, Z.lor (u8 (Z.shiftl (digit2 b1 b2) 6)) (Z.land b2 63) =? b2) 256 256 b1 b2
    ltac:(by vm_compute) H1 H2).
Qed.

Lemma not_255 vals : Forall (λ v, 0 ≤ v < 64) vals → bool_decide (255 ∈ vals) = false.
Proof. intros Hv. apply bool_decide_eq_false. intros Hin. rewrite Forall_forall in Hv. apply Hv in Hin. lia. Qed.

Lemma zero_byte : is_byte 0.
Proof. unfold is_byte. lia. Qed.

Ltac forall_list := repeat (apply Forall_cons_2; [assumption|]); apply Forall_nil_2.

(** A chunk of one to three bytes comes back. *)
Lemma chunk_roundtrip chunk : (1 ≤ length chunk ≤ 3)%nat → Forall is_byte chunk →
  decode_chunk (encode_chunk chunk) = Some chunk ∧ Forall (λ c, c ≠ 61 ∧ c ≠ 46 ∧ 32 ≤ c < 127) (encode_chunk chunk).
Proof.
  pose proof zero_byte as Hz. intros Hlen Hb. unfold encode_chunk.
  destruct chunk as [|b0 [|b1 [|b2 [|b3 l]]]]; cbn in Hlen; try lia; cbn [length Nat.ltb Nat.leb at_or_zero nth app];
    fold (digit1 b0 0) || fold (digit1 b0 b1); try fold (digit2 b1 0); try fold (digit2 b1 b2);
    repeat match goal with H : Forall is_byte (_ :: _) |- _ => apply Forall_cons in H as [? H] end.
  - destruct (high_bits b0) as (R0 & _); [done|]. destruct (digit_ranges b0 0) as [R1 _]; [done..|].
    destruct (digit_decodes _ R0) as (D0 & N0), (digit_decodes _ R1) as (D1 & N1). split; [|by forall_list].
    unfold decode_chunk. cbn [fmap list_fmap length Nat.ltb Nat.leb at_or_zero nth app]. rewrite D0, D1.
    rewrite not_255 by by forall_list. by rewrite byte0_back.
  - destruct (high_bits b0) as (R0 & _); [done|]. destruct (digit_ranges b0 b1) as [R1 _]; [done..|].
    destruct (digit_ranges b1 0) as [_ R2]; [done..|].
    destruct (digit_decodes _ R0) as (D0 & N0), (digit_decodes _ R1) as (D1 & N1), (digit_decodes _ R2) as (D2 & N2).
    split; [|by forall_list]. unfold decode_chunk. cbn [fmap list_fmap length Nat.ltb Nat.leb at_or_zero nth app].
    rewrite D0, D1, D2, not_255 by by forall_list. by rewrite byte0_back, byte1_back.
  - destruct (high_bits b0) as (R0 & _); [done|]. destruct (digit_ranges b0 b1) as [R1 _]; [done..|].
    destruct (digit_ranges b1 b2) as [_ R2]; [done..|]. destruct (high_bits b2) as (_ & _ & _ & _ & _ & R3); [done|].
    destruct (digit_decodes _ R0) as (D0 & N0), (digit_decodes _ R1) as (D1 & N1), (digit_decodes _ R2) as (D2 & N2),
      (digit_decodes _ R3) as (D3 & N3).
    split; [|by forall_list]. unfold decode_chunk. cbn [fmap list_fmap length Nat.ltb Nat.leb at_or_zero nth app].
    rewrite D0, D1, D2, D3, not_255 by by forall_list. by rewrite byte0_back, byte1_back, byte2_back.
Qed.

Section Chunks.
Context {A : Type}.
Implicit Types l c : list A.

Lemma chunks_cons n l : (0 < n)%nat → l ≠ [] → chunks n l = take n l :: chunks n (drop n l).
Proof.
  intros Hn Hl. unfold chunks. destruct l as [|x l]; [done|]. cbn [length chunks_fuel]. f_equal.
  assert (Hf : ∀ f1 f2 l', (length l' ≤ f1)%nat → (length l' ≤ f2)%nat → chunks_fuel f1 n l' = chunks_fuel f2 n l').
  { induction f1 as [|f1 IH]; intros f2 l' H1 H2; destruct l' as [|y l'], f2 as [|f2]; cbn in *; try done; try lia.
    destruct n; [lia|]. cbn. f_equal. apply IH; rewrite length_drop; lia. }
  apply Hf; rewrite length_drop; cbn; lia.
Qed.

Lemma chunks_app n c l : (0 < n)%nat → length c = n → chunks n (c ++ l) = c :: chunks n l.
Proof.
  intros Hn Hc. rewrite chunks_cons; [|done|by destruct c; cbn in *; [lia|]].
  by rewrite take_app_length', drop_app_length'.
Qed.

Lemma chunks_short n c : (0 < length c ≤ n)%nat → chunks n c = [c].
Proof. intros Hc. rewrite chunks_cons; [|lia|by destruct c; cbn in *; [lia|]]. by rewrite take_ge, drop_ge by lia. Qed.
End Chunks.

Lemma mjoin_concat {A} (ls : list (list A)) : mjoin ls = concat ls.
Proof. induction ls as [|l ls IH]; [done|]. cbn. by f_equal. Qed.

Definition encode_bytes (l : list Z) : list Z := mjoin (encode_chunk <$> chunks 3 l).

Lemma encode_chunk_length c : (1 ≤ length c)%nat → length (encode_chunk c) = (1 + Nat.min 3 (length c))%nat.
Proof. intros Hc. unfold encode_chunk. rewrite !length_app. cbn [length]. repeat case_match; cbn [length]; rewrite ?Nat.ltb_lt, ?Nat.ltb_ge in *; lia. Qed.

Lemma encode_bytes_roundtrip l : Forall is_byte l →
  mapM decode_chunk (chunks 4 (encode_bytes l)) = Some (chunks 3 l) ∧
  Forall (λ c, c ≠ 61 ∧ c ≠ 46 ∧ 32 ≤ c < 127) (encode_bytes l).
Proof.
  remember (length l) as n eqn:En. revert l En. induction (lt_wf n) as [n _ IH]. intros l -> Hl.
  destruct (decide (l = [])) as [->|Hne]; [by split|]. assert (Hpos : (0 < length l)%nat) by (destruct l; cbn; [done|lia]).
  assert (Hc : (1 ≤ length (take 3 l) ≤ 3)%nat) by (rewrite length_take; lia).
  destruct (chunk_roundtrip (take 3 l) Hc) as [Hd Hf]; [by apply Forall_take|].
  unfold encode_bytes. rewrite (chunks_cons 3 l) by (done || lia). cbn [fmap list_fmap mjoin list_join].
  fold (encode_bytes (drop 3 l)). pose proof (encode_chunk_length (take 3 l) ltac:(lia)) as Hlen. rewrite length_take in Hlen.
  destruct (IH (length (drop 3 l))) with (l := drop 3 l) as [Hd' Hf']; [rewrite length_drop; lia|done|by apply Forall_drop|].
  split; [|by apply Forall_app].
  destruct (decide (3 ≤ length l)%nat) as [Hge|Hlt].
  - rewrite chunks_app by lia. cbn [mapM]. rewrite Hd. cbn [mbind option_bind].
    change (mjoin (encode_chunk <$> chunks 3 (drop 3 l))) with (encode_bytes (drop 3 l)). by rewrite Hd'.
  - rewrite (drop_ge l 3) in * by lia. unfold encode_bytes. cbn [chunks chunks_fuel length fmap list_fmap mjoin list_join].
    rewrite app_nil_r, chunks_short by lia. cbn [mapM]. rewrite Hd. done.
Qed.

Lemma filter_no_padding l : Forall (λ c, c ≠ 61 ∧ c ≠ 46 ∧ 32 ≤ c < 127) l → filter (λ b, b ≠ 61) l = l.
Proof. induction 1 as [|x l [Hx _] _ IH]; [done|]. by rewrite filter_cons_True, IH. Qed.

Lemma ascii_text l : Forall (λ c, c ≠ 61 ∧ c ≠ 46 ∧ 32 ≤ c < 127) l → utf8_valid (of_bytes l) = true ∧ free_of "." (of_bytes l) = true.
Proof.
  induction 1 as [|x l (_ & Hdot & Hx) _ [IHu IHd]]; [done|].
  change (of_bytes (x :: l)) with (String (ascii_of_N (Z.to_N x)) (of_bytes l)).
  assert (Hb : byte_of (ascii_of_N (Z.to_N x)) = x) by (unfold byte_of; rewrite N_ascii_embedding; lia). split.
  - cbn [utf8_valid]. rewrite Hb, (proj2 (Z.ltb_lt x 128)) by lia. exact IHu.
  - cbn [free_of]. rewrite IHd, andb_true_r, negb_true_iff, bool_decide_eq_false. intros E. rewrite E in Hb. vm_compute in Hb. lia.
Qed.

Lemma base64_decode_encode s : utf8_valid s = true →
  base64_decode (base64_encode s) = Some s ∧ free_of "." (base64_encode s) = true.
Proof.
  intros Hs. destruct (encode_bytes_roundtrip (bytes_of s) (bytes_of_bytes s)) as [Hd Hf].
  destruct (ascii_text _ Hf) as [Hu Hdot]. unfold base64_encode. fold (encode_bytes (bytes_of s)). rewrite Hu.
  split; [|done]. unfold base64_decode, base64_bytes. rewrite bytes_of_of.
  - rewrite filter_no_padding, Hd by done. cbn. rewrite mjoin_concat, chunks_concat by lia. by rewrite of_bytes_of, Hs.
  - eapply Forall_impl; [exact Hf|]. cbn. unfold is_byte. lia.
Qed.
