(* ===== verification/Auth.v ===== *)
(** * Dashboard authentication ([crates/dashboard/src/auth.rs])

    Users with password, API key and second factor, the signed tokens, the
    request gates and the handlers. Argon2, the one-time codes, HMAC and the
    JSON texts of objects and of the user file are parameters; how the claims
    become objects and are read from them is modelled; [now] is in seconds; the identifier,
    salt and secret a handler draws and whether the file can be written are inputs. *)
From stdpp Require Import base gmap sets list strings.
From Stdlib Require Import ZArith Lia Ascii.
From S2P Require Import Prelude Bytes AuditLog Base64.
Local Open Scope string_scope.
Local Open Scope nat_scope.
Local Open Scope list_scope.
Local Open Scope prog_scope.

(** ** [str::trim] on valid UTF-8, and [strip_prefix] *)
Fixpoint trim_end (s : string) : string :=
  match s with "" => "" | String c s' => if is_blank s then "" else String c (trim_end s') end.

Fixpoint trim_start (s : string) : string :=
  match s with
  | "" => ""
  | String c s1 =>
      if in_range 9 13 c || in_range 32 32 c then trim_start s1
      else
        match s1 with
        | String c1 s2 =>
            if is_blank (String c (String c1 "")) then trim_start s2
            else
              match s2 with
              | String c2 s3 => if is_blank (String c (String c1 (String c2 ""))) then trim_start s3 else s
              | "" => s
              end
        | "" => s
        end
  end.
Definition trim (s : string) : string := trim_end (trim_start s).

Fixpoint strip_prefix (p s : string) : option string :=
  match p, s with
  | "", _ => Some s
  | String a p', String b s' => if decide (a = b) then strip_prefix p' s' else None
  | String _ _, "" => None
  end.

(** ** Roles and users *)
Inductive Role := Admin | Operator | Viewer | ClientReader.
#[export] Instance Role_eq_dec : EqDecision Role.
Proof. solve_decision. Defined.

Definition can_control (r : Role) : bool := bool_decide (r = Admin ∨ r = Operator).
Definition can_view_internals (r : Role) : bool := bool_decide (r = Admin ∨ r = Operator).
Definition is_tenant_scoped (r : Role) : bool := bool_decide (r = ClientReader).

Record ApiUser := mkApiUser {
  u_id : string;
  u_name : string;
  u_role : Role;
  u_api_key : string;
  password_hash : option string;
  totp_secret : option string;
  totp_pending : option string;
  created_at_ms : Z;
  allowed_symbols : option (list string);
  u_client_id : option string;
}.

Record TokenClaims := mkTokenClaims { tk_user_id : string; tk_role : Role; tk_client_id : option string; tk_exp : Z }.
Record InviteClaims := mkInviteClaims { invite_id : string; inv_client_id : string; inv_exp : Z }.
Record ResetClaims := mkResetClaims { reset_id : string; rs_user_id : string; rs_exp : Z }.

(** Argon2id: a password and a salt give a hash or an error; verifying is an
    error when the hash does not parse. The codes: whether a code is the current one
    of a secret, and the URI of an enrolment. *)
Class AuthCrypto := {
  hash_password : string → string → result string string;
  verify_password : string → string → result bool string;
  verify_totp : string → string → Z → result bool string;
  totp_url : string → string → string → result string string;
}.

(** ** The claims as JSON objects

    [serde_json] writes an object and reads one; a value that is not a string,
    an integer or null is read as [None]. And the text of the user file. *)
Inductive claim_value := CvString (s : string) | CvInt (z : Z) | CvNull.

Class ClaimsCodec := {
  object_text : list (string * claim_value) → string;
  parse_object : string → option (list (string * option claim_value));
  users_text : list ApiUser → string;
  parse_users : string → option (list ApiUser);
}.

(** An object is parsed back from its text; texts are UTF-8, the user file is
    not blank. *)
Class ClaimsLaws (CC : ClaimsCodec) : Prop := {
  object_parses fs : parse_object (object_text fs) = Some (prod_map id Some <$> fs);
  object_utf8 fs : utf8_valid (object_text fs) = true;
  users_roundtrip l : parse_users (users_text l) = Some l ∧ is_blank (users_text l) = false;
}.

(** [rename_all = "lowercase"] *)
Definition role_text (r : Role) : string :=
  match r with Admin => "admin" | Operator => "operator" | Viewer => "viewer" | ClientReader => "clientreader" end.
Definition role_of_text (s : string) : option Role :=
  List.find (λ r, String.eqb (role_text r) s) [Admin; Operator; Viewer; ClientReader].

(** The derived reading of a struct: a field that is there twice is an error,
    unknown fields are passed over; a missing [Option] with [default] is
    [None]. *)
Definition entries_of (k : string) (fs : list (string * option claim_value)) : list (option claim_value) :=
  omap (λ kv, if String.eqb kv.1 k then Some kv.2 else None) fs.
Definition string_field (k : string) (fs : list (string * option claim_value)) : option string :=
  match entries_of k fs with [Some (CvString s)] => Some s | _ => None end.
Definition option_field (k : string) (fs : list (string * option claim_value)) : option (option string) :=
  match entries_of k fs with
  | [] | [Some CvNull] => Some None
  | [Some (CvString s)] => Some (Some s)
  | _ => None
  end.
Definition is_i64 (z : Z) : bool := (- 2 ^ 63 <=? z)%Z && (z <? 2 ^ 63)%Z.
Definition i64_field (k : string) (fs : list (string * option claim_value)) : option Z :=
  match entries_of k fs with [Some (CvInt z)] => if is_i64 z then Some z else None | _ => None end.

Section Claims.
Context {CC : ClaimsCodec}.

Definition token_text (c : TokenClaims) : string :=
  object_text ([("user_id", CvString (tk_user_id c)); ("role", CvString (role_text (tk_role c)))]
    ++ match tk_client_id c with Some id => [("client_id", CvString id)] | None => [] end
    ++ [("exp", CvInt (tk_exp c))]).
Definition parse_token (text : string) : option TokenClaims :=
  fs ← parse_object text;
  user ← string_field "user_id" fs;
  role ← string_field "role" fs ≫= role_of_text;
  client ← option_field "client_id" fs;
  exp ← i64_field "exp" fs;
  Some (mkTokenClaims user role client exp).

Definition invite_text (c : InviteClaims) : string :=
  object_text [("invite_id", CvString (invite_id c)); ("client_id", CvString (inv_client_id c)); ("exp", CvInt (inv_exp c))].
Definition parse_invite (text : string) : option InviteClaims :=
  fs ← parse_object text;
  invite ← string_field "invite_id" fs;
  client ← string_field "client_id" fs;
  exp ← i64_field "exp" fs;
  Some (mkInviteClaims invite client exp).

Definition reset_text (c : ResetClaims) : string :=
  object_text [("reset_id", CvString (reset_id c)); ("user_id", CvString (rs_user_id c)); ("exp", CvInt (rs_exp c))].
Definition parse_reset (text : string) : option ResetClaims :=
  fs ← parse_object text;
  reset ← string_field "reset_id" fs;
  user ← string_field "user_id" fs;
  exp ← i64_field "exp" fs;
  Some (mkResetClaims reset user exp).

(** *** What is read of what was written *)
Context {CL : ClaimsLaws CC}.

Lemma token_reads c : parse_token (token_text c) = if is_i64 (tk_exp c) then Some c else None.
Proof.
  unfold parse_token, token_text. rewrite object_parses.
  destruct c as [user [] [client|] exp]; cbn; unfold i64_field; cbn; by destruct (is_i64 exp).
Qed.

Lemma invite_reads c : parse_invite (invite_text c) = if is_i64 (inv_exp c) then Some c else None.
Proof.
  unfold parse_invite, invite_text. rewrite object_parses. destruct c. cbn. unfold i64_field. cbn.
  by destruct (is_i64 _).
Qed.

Lemma reset_reads c : parse_reset (reset_text c) = if is_i64 (rs_exp c) then Some c else None.
Proof.
  unfold parse_reset, reset_text. rewrite object_parses. destruct c. cbn. unfold i64_field. cbn.
  by destruct (is_i64 _).
Qed.

(** An invite has no user, a reset no role; a session and a reset name no
    invite, a session and an invite no reset. *)
Lemma token_not_invite c : parse_token (invite_text c) = None.
Proof. unfold parse_token, invite_text. by rewrite object_parses. Qed.
Lemma token_not_reset c : parse_token (reset_text c) = None.
Proof. unfold parse_token, reset_text. by rewrite object_parses. Qed.
Lemma invite_not_token c : parse_invite (token_text c) = None.
Proof. unfold parse_invite, token_text. rewrite object_parses. by destruct (tk_client_id c). Qed.
Lemma invite_not_reset c : parse_invite (reset_text c) = None.
Proof. unfold parse_invite, reset_text. by rewrite object_parses. Qed.
Lemma reset_not_token c : parse_reset (token_text c) = None.
Proof. unfold parse_reset, token_text. rewrite object_parses. by destruct (tk_client_id c). Qed.
Lemma reset_not_invite c : parse_reset (invite_text c) = None.
Proof. unfold parse_reset, invite_text. by rewrite object_parses. Qed.
End Claims.

(** A digest in hexadecimal. *)
Class DigestLaws (H : Digest) : Prop := { hmac_no_dot k s : free_of "." (hmac_hex k s) = true }.

Section Auth.
Context {K : AuthCrypto} {CC : ClaimsCodec} {H : Digest} {I : HashMapIter}.

Record AuthState := mkAuthState {
  users : gmap string ApiUser;
  api_key_index : gmap string string;
  name_index : gmap string string;
  secret : string;
  totp_issuer : string;
  users_path : bool;               (** a file was configured *)
  users_file : option string;      (** its content *)
  used_invites : gset string;
  used_resets : gset string;
  require_totp_for_admin : bool;
}.

(** What a request draws from outside. *)
Record Env := mkEnv {
  now : Z;
  now_ms : Z;
  uuid : string;
  salt : string;
  fresh_secret : string;
  file_ok : bool;
}.

Definition auth_new (secret : string) : AuthState :=
  mkAuthState ∅ ∅ ∅ secret "MG | Market Maker" false None ∅ ∅ false.

Definition set_users (us : gmap string ApiUser) (keys names : gmap string string) (st : AuthState) : AuthState :=
  mkAuthState us keys names (secret st) (totp_issuer st) (users_path st) (users_file st) (used_invites st) (used_resets st)
    (require_totp_for_admin st).
Definition set_file (path : bool) (file : option string) (st : AuthState) : AuthState :=
  mkAuthState (users st) (api_key_index st) (name_index st) (secret st) (totp_issuer st) path file (used_invites st)
    (used_resets st) (require_totp_for_admin st).
Definition set_used (invites resets : gset string) (st : AuthState) : AuthState :=
  mkAuthState (users st) (api_key_index st) (name_index st) (secret st) (totp_issuer st) (users_path st) (users_file st)
    invites resets (require_totp_for_admin st).

Definition with_require_totp_for_admin (enabled : bool) (st : AuthState) : AuthState :=
  mkAuthState (users st) (api_key_index st) (name_index st) (secret st) (totp_issuer st) (users_path st) (users_file st)
    (used_invites st) (used_resets st) enabled.
Definition with_totp_issuer (issuer : string) (st : AuthState) : AuthState :=
  let trimmed := trim issuer in
  if decide (trimmed = "") then st
  else mkAuthState (users st) (api_key_index st) (name_index st) (secret st) trimmed (users_path st) (users_file st)
         (used_invites st) (used_resets st) (require_totp_for_admin st).

(** A user enters the map and both indexes. *)
Definition insert_user (u : ApiUser) (st : AuthState) : AuthState :=
  set_users (<[u_id u := u]> (users st))
    (if decide (u_api_key u = "") then api_key_index st else <[u_api_key u := u_id u]> (api_key_index st))
    (<[to_ascii_lowercase (u_name u) := u_id u]> (name_index st)) st.

(** The content of the file is an argument: an existing file that cannot be read
    is [Some None]. *)
Definition with_users_path (file : option (option string)) (st : AuthState) : result AuthState string :=
  match file with
  | None => Ok (set_file true None st)
  | Some None => Err "read"
  | Some (Some raw) =>
      if is_blank raw then Ok (set_file true (Some raw) st)
      else
        match parse_users raw with
        | None => Err "invalid data"
        | Some l => Ok (set_file true (Some raw) (fold_left (λ st u, insert_user u st) l st))
        end
  end.

Definition needs_bootstrap (st : AuthState) : bool := bool_decide (users st = ∅).
Definition any_admin_has_totp (st : AuthState) : bool :=
  existsb (λ u, bool_decide (u_role u = Admin) && negb (is_none (totp_secret u))) (hm_values (users st)).

Definition persist (env : Env) (st : AuthState) : AuthState :=
  if users_path st then
    if file_ok env then set_file true (Some (users_text (hm_values (users st)))) st else st
  else st.

Definition add_user (env : Env) (u : ApiUser) (st : AuthState) : AuthState := persist env (insert_user u st).

Definition remove_user (env : Env) (id : string) (st : AuthState) : bool * AuthState :=
  match users st !! id with
  | None => (false, st)
  | Some u =>
      (true, persist env (set_users (delete id (users st))
        (if decide (u_api_key u = "") then api_key_index st else delete (u_api_key u) (api_key_index st))
        (delete (to_ascii_lowercase (u_name u)) (name_index st)) st))
  end.

(** The checks and the record both kinds of password users share. *)
Definition new_password_user (env : Env) (check stored password : string) (role : Role) (client : option string)
    (st : AuthState) : result ApiUser string :=
  if (str_len password <? 8)%Z then Err "password must be at least 8 characters"
  else if is_blank check then Err "name must not be empty"
  else if negb (is_none (name_index st !! to_ascii_lowercase check)) then
    Err ("user '" +:+ check +:+ "' already exists")
  else
    let? hash := hash_password password (salt env) in
    Ok (mkApiUser ("u-" +:+ uuid env) stored role "" (Some hash) None None (now_ms env) None client).

Definition create_password_user (env : Env) (name password : string) (role : Role) (st : AuthState) :
    result ApiUser string * AuthState :=
  match new_password_user env name name password role None st with
  | Ok u => (Ok u, add_user env u st)
  | Err e => (Err e, st)
  end.
Definition create_client_reader (env : Env) (name password client_id : string) (st : AuthState) :
    result ApiUser string * AuthState :=
  match new_password_user env name (trim name) password ClientReader (Some client_id) st with
  | Ok u => (Ok u, add_user env u st)
  | Err e => (Err e, st)
  end.

Definition auth_by_key (key : string) (st : AuthState) : option ApiUser :=
  id ← api_key_index st !! key; users st !! id.

Definition DUMMY_HASH : string :=
  "$argon2id$v=19$m=19456,t=2,p=1$UHJvZHVjdGlvblNhbHQxMjM$KBeaCpMdCbA8HU3QJv6KKMSjOdFWkFmAaYvQJgyeOw4".

Definition auth_by_password (name password : string) (st : AuthState) : option ApiUser :=
  let user := id ← name_index st !! to_ascii_lowercase name; users st !! id in
  let hash := default DUMMY_HASH (u ← user; password_hash u) in
  match verify_password hash password with
  | Ok true => u ← user; if is_none (password_hash u) then None else Some u
  | _ => None
  end.

(** ** Tokens *)
Definition sign (payload : string) (st : AuthState) : string := hmac_hex (secret st) payload.
Definition seal (payload : string) (st : AuthState) : string := base64_encode payload +:+ "." +:+ sign payload st.

(** The payload of a token whose signature is right. *)
Definition open_token (token : string) (st : AuthState) : option string :=
  match split_on "." token with
  | [encoded; signature] =>
      payload ← base64_decode encoded;
      if decide (signature = sign payload st) then Some payload else None
  | _ => None
  end.

Definition generate_token (env : Env) (u : ApiUser) (st : AuthState) : string :=
  seal (token_text (mkTokenClaims (u_id u) (u_role u) (u_client_id u) (now env + 86400))) st.
Definition verify_token (now : Z) (token : string) (st : AuthState) : option TokenClaims :=
  payload ← open_token token st;
  claims ← parse_token payload;
  if (tk_exp claims <? now)%Z then None else Some claims.

Definition issue_invite (env : Env) (client_id : string) (st : AuthState) : string :=
  seal (invite_text (mkInviteClaims (uuid env) client_id (now env + 86400))) st.
Definition verify_invite (now : Z) (token : string) (st : AuthState) : option InviteClaims :=
  payload ← open_token token st;
  claims ← parse_invite payload;
  if (inv_exp claims <? now)%Z then None
  else if decide (invite_id claims ∈ used_invites st) then None else Some claims.
Definition consume_invite (id : string) (st : AuthState) : AuthState := set_used ({[id]} ∪ used_invites st) (used_resets st) st.

Definition issue_password_reset (env : Env) (user_id : string) (st : AuthState) : string :=
  seal (reset_text (mkResetClaims (uuid env) user_id (now env + 3600))) st.
Definition verify_password_reset (now : Z) (token : string) (st : AuthState) : option ResetClaims :=
  payload ← open_token token st;
  claims ← parse_reset payload;
  if (rs_exp claims <? now)%Z then None
  else if decide (reset_id claims ∈ used_resets st) then None else Some claims.
Definition consume_password_reset (id : string) (st : AuthState) : AuthState :=
  set_used (used_invites st) ({[id]} ∪ used_resets st) st.

(** ** Changes to one user *)
Definition alter_user (f : ApiUser → ApiUser) (id : string) (st : AuthState) : AuthState :=
  set_users (alter f id (users st)) (api_key_index st) (name_index st) st.
Definition set_hash (hash : string) (u : ApiUser) : ApiUser :=
  mkApiUser (u_id u) (u_name u) (u_role u) (u_api_key u) (Some hash) (totp_secret u) (totp_pending u) (created_at_ms u)
    (allowed_symbols u) (u_client_id u).
Definition set_totp (active pending : option string) (u : ApiUser) : ApiUser :=
  mkApiUser (u_id u) (u_name u) (u_role u) (u_api_key u) (password_hash u) active pending (created_at_ms u)
    (allowed_symbols u) (u_client_id u).

Definition set_password (env : Env) (user_id new_password : string) (st : AuthState) : result unit string * AuthState :=
  if (str_len new_password <? 8)%Z then (Err "new password must be at least 8 characters", st)
  else
    match users st !! user_id with
    | None => (Err "user not found", st)
    | Some _ =>
        match hash_password new_password (salt env) with
        | Err e => (Err e, st)
        | Ok h => (Ok tt, persist env (alter_user (set_hash h) user_id st))
        end
    end.

(** The password of a user, as [change_password] and [totp_disable] ask for it. *)
Definition check_password (wrong : string) (user_id password : string) (st : AuthState) : result unit string :=
  match users st !! user_id with
  | None => Err "user not found"
  | Some u =>
      match password_hash u with
      | None => Err "user has no password set"
      | Some h =>
          match verify_password h password with
          | Err e => Err ("corrupt hash: " +:+ e)
          | Ok false => Err wrong
          | Ok true => Ok tt
          end
      end
  end.

Definition change_password (env : Env) (user_id old_password new_password : string) (st : AuthState) :
    result unit string * AuthState :=
  if (str_len new_password <? 8)%Z then (Err "new password must be at least 8 characters", st)
  else
    match check_password "old password is wrong" user_id old_password st with
    | Err e => (Err e, st)
    | Ok _ =>
        match hash_password new_password (salt env) with
        | Err e => (Err e, st)
        | Ok h => (Ok tt, persist env (alter_user (set_hash h) user_id st))
        end
    end.

Definition totp_enroll (env : Env) (user_id issuer : string) (st : AuthState) : result (string * string) string * AuthState :=
  match users st !! user_id with
  | None => (Err "user not found", st)
  | Some u =>
      match totp_url (fresh_secret env) issuer (u_name u) with
      | Err e => (Err e, st)
      | Ok url =>
          (Ok (fresh_secret env, url),
           persist env (alter_user (λ u, set_totp (totp_secret u) (Some (fresh_secret env)) u) user_id st))
      end
  end.

Definition totp_verify (env : Env) (user_id code : string) (st : AuthState) : result unit string * AuthState :=
  match u ← users st !! user_id; totp_pending u with
  | None => (Err "no enrollment in progress", st)
  | Some pending =>
      match verify_totp pending code (now env) with
      | Err e => (Err e, st)
      | Ok false => (Err "code did not match", st)
      | Ok true => (Ok tt, persist env (alter_user (set_totp (Some pending) None) user_id st))
      end
  end.

Definition totp_disable (env : Env) (user_id password : string) (st : AuthState) : result unit string * AuthState :=
  match check_password "password is wrong" user_id password st with
  | Err e => (Err e, st)
  | Ok _ => (Ok tt, persist env (alter_user (set_totp None None) user_id st))
  end.

Definition verify_totp_for (now : Z) (user_id code : string) (st : AuthState) : bool :=
  match u ← users st !! user_id; totp_secret u with
  | None => false
  | Some s => match verify_totp s code now with Ok b => b | Err _ => false end
  end.

Definition list_users (st : AuthState) : list ApiUser := hm_values (users st).
Definition get_user_by_id (id : string) (st : AuthState) : option ApiUser :=
  snd <$> list_find (λ u, u_id u = id) (hm_values (users st)).

(** ** Requests *)
Record Headers := mkHeaders { authorization : option string; x_api_key : option string }.

Definition auth_middleware (now : Z) (h : Headers) (st : AuthState) : option TokenClaims :=
  match value ← authorization h; token ← strip_prefix "Bearer " value; verify_token now token st with
  | Some claims => Some claims
  | None =>
      key ← x_api_key h;
      u ← auth_by_key key st;
      Some (mkTokenClaims (u_id u) (u_role u) (u_client_id u) (now + 3600))
  end.

(** The status of a refused request, if it is. *)
Definition admin_middleware (claims : option TokenClaims) : option Z :=
  match claims with
  | Some c => if decide (tk_role c = Admin) then None else Some 403%Z
  | None => Some 401%Z
  end.
Definition internal_view_middleware (claims : option TokenClaims) : option Z :=
  match claims with
  | Some c => if can_view_internals (tk_role c) then None else Some 403%Z
  | None => Some 401%Z
  end.

Fixpoint client_segment (segments : list string) : option string :=
  match segments with
  | seg :: ((id :: _) as rest) =>
      if (bool_decide (seg = "client" ∨ seg = "clients")) && negb (bool_decide (id = "self")) then Some id
      else client_segment rest
  | _ => None
  end.
Definition segments_of (path : string) : list string := filter (λ s, s ≠ "") (split_on "/" path).
Definition extract_client_id_from_path (path : string) : option string := client_segment (segments_of path).

Definition is_self_alias (path : string) : bool :=
  negb (is_none (strip_prefix "/api/v1/client/self/" path)) || bool_decide (path = "/api/v1/client/self").

Definition tenant_scope_middleware (path : string) (claims : option TokenClaims) : option Z :=
  match claims with
  | None => Some 401%Z
  | Some c =>
      if is_none (tk_client_id c) && negb (is_tenant_scoped (tk_role c)) then None
      else
        match tk_client_id c, extract_client_id_from_path path with
        | Some tok, Some p => if decide (tok = p) then None else Some 403%Z
        | Some _, None => if is_self_alias path then None else Some 403%Z
        | None, _ => if is_tenant_scoped (tk_role c) then Some 403%Z else None
        end
  end.

Inductive Response :=
| RStatus (code : Z)
| RText (code : Z) (text : string)
| RLogin (token user_id name : string) (role : Role)
| RNeedsTotp
| RMustEnroll
| RBootstrap (needs : bool)
| RSealed (token url : string) (expires_at : Z)
| REnrollment (secret url : string)
| RMe (user_id name : string) (role : Role) (totp_enabled : bool) (created_at_ms : Z)
| RCreated (user_id name : string) (role : Role) (api_key : string).

(** What serves the request after the gates. *)
Definition login_response (env : Env) (u : ApiUser) (st : AuthState) : Response :=
  RLogin (generate_token env u st) (u_id u) (u_name u) (u_role u).

Record LoginRequest := mkLoginRequest {
  lr_name : option string;
  lr_password : option string;
  lr_api_key : option string;
  lr_totp_code : option string;
}.

(** The user the credentials name; [None] when there are no credentials. *)
Definition login_user (body : LoginRequest) (st : AuthState) : option (option ApiUser) :=
  match lr_name body, lr_password body, lr_api_key body with
  | Some name, Some password, _ => Some (auth_by_password name password st)
  | _, _, Some key => Some (auth_by_key key st)
  | _, _, None => None
  end.

Definition login_handler (env : Env) (body : LoginRequest) (st : AuthState) : Response :=
  match login_user body st with
  | None => RText 400 "provide name+password or api_key"
  | Some None => RStatus 401
  | Some (Some u) =>
      if require_totp_for_admin st && bool_decide (u_role u = Admin) && is_none (totp_secret u) then RMustEnroll
      else
        match totp_secret u with
        | None => login_response env u st
        | Some _ =>
            match lr_totp_code body with
            | None | Some "" => RNeedsTotp
            | Some code => if verify_totp_for (now env) (u_id u) code st then login_response env u st else RStatus 401
            end
        end
  end.

Definition auth_status_handler (st : AuthState) : Response := RBootstrap (needs_bootstrap st).

Definition bootstrap_handler (env : Env) (name password : string) (st : AuthState) : Response * AuthState :=
  if negb (needs_bootstrap st) then (RText 409 "bootstrap already completed — use /api/auth/login", st)
  else
    match create_password_user env name password Admin st with
    | (Err e, st) => (RText 400 e, st)
    | (Ok u, st) => (login_response env u st, st)
    end.

Definition create_invite_handler (env : Env) (client_id : string) (st : AuthState) : Response :=
  if is_blank client_id then RText 400 "client_id must not be empty"
  else
    let token := issue_invite env client_id st in
    RSealed token ("/client-signup/" +:+ token) (now env + 86400).

Definition client_signup_handler (env : Env) (token name password : string) (st : AuthState) : Response * AuthState :=
  match verify_invite (now env) token st with
  | None => (RText 401 "invalid or expired invite", st)
  | Some claims =>
      match create_client_reader env name password (inv_client_id claims) st with
      | (Err e, st) => (RText 400 e, st)
      | (Ok u, st) => let st := consume_invite (invite_id claims) st in (login_response env u st, st)
      end
  end.

Definition create_password_reset_handler (env : Env) (user_id : string) (st : AuthState) : Response :=
  if is_blank user_id then RText 400 "user_id must not be empty"
  else
    match get_user_by_id user_id st with
    | None => RText 404 "user not found"
    | Some _ =>
        let token := issue_password_reset env user_id st in
        RSealed token ("/password-reset/" +:+ token) (now env + 3600)
    end.

Definition password_reset_handler (env : Env) (token new_password : string) (st : AuthState) : Response * AuthState :=
  match verify_password_reset (now env) token st with
  | None => (RText 401 "invalid or expired reset token", st)
  | Some claims =>
      match set_password env (rs_user_id claims) new_password st with
      | (Ok _, st) => (RStatus 204, consume_password_reset (reset_id claims) st)
      | (Err e, st) => (RText 400 e, st)
      end
  end.

Definition me_handler (claims : option TokenClaims) (st : AuthState) : Response :=
  match claims with
  | None => RStatus 401
  | Some c =>
      match get_user_by_id (tk_user_id c) st with
      | None => RStatus 404
      | Some u => RMe (u_id u) (u_name u) (u_role u) (negb (is_none (totp_secret u))) (created_at_ms u)
      end
  end.

(** A body that was read and parsed, was too large ([None]) or did not parse. *)
Definition with_body {A} (claims : option TokenClaims) (body : result A (option string)) (st : AuthState)
    (f : TokenClaims → A → result unit string * AuthState) : Response * AuthState :=
  match claims with
  | None => (RStatus 401, st)
  | Some c =>
      match body with
      | Err None => (RStatus 400, st)
      | Err (Some e) => (RText 400 ("bad body: " +:+ e), st)
      | Ok a => match f c a with (Ok _, st) => (RStatus 204, st) | (Err e, st) => (RText 400 e, st) end
      end
  end.

Definition change_password_handler (env : Env) (claims : option TokenClaims) (body : result (string * string) (option string))
    (st : AuthState) : Response * AuthState :=
  with_body claims body st (λ c p, change_password env (tk_user_id c) p.1 p.2 st).
Definition totp_enroll_handler (env : Env) (claims : option TokenClaims) (st : AuthState) : Response * AuthState :=
  match claims with
  | None => (RStatus 401, st)
  | Some c =>
      match totp_enroll env (tk_user_id c) (totp_issuer st) st with
      | (Ok e, st) => (REnrollment e.1 e.2, st)
      | (Err e, st) => (RText 400 e, st)
      end
  end.
Definition totp_verify_handler (env : Env) (claims : option TokenClaims) (body : result string (option string)) (st : AuthState) :
    Response * AuthState :=
  with_body claims body st (λ c code, totp_verify env (tk_user_id c) code st).
Definition totp_disable_handler (env : Env) (claims : option TokenClaims) (body : result string (option string)) (st : AuthState) :
    Response * AuthState :=
  with_body claims body st (λ c password, totp_disable env (tk_user_id c) password st).

(** [POST /api/admin/users] of [server.rs]; the key is drawn by the handler. *)
Definition create_user (env : Env) (api_key name role : string) (symbols : list string) (st : AuthState) : Response * AuthState :=
  let role := if decide (role = "admin") then Admin else if decide (role = "operator") then Operator else Viewer in
  let u := mkApiUser (uuid env) name role api_key None None None (now_ms env)
             (match symbols with [] => None | _ => Some symbols end) None in
  (RCreated (u_id u) name role api_key, add_user env u st).

(** ** The routes *)
Inductive Request :=
| Login (body : LoginRequest)
| Bootstrap (name password : string)
| AuthStatus
| ClientSignup (token name password : string)
| PasswordReset (token new_password : string)
| Logout
| Me
| ChangePassword (body : result (string * string) (option string))
| TotpEnroll
| TotpVerify (body : result string (option string))
| TotpDisable (body : result string (option string))
| CreateInvite (client_id : string)
| CreateReset (user_id : string)
| CreateUser (api_key name role : string) (symbols : list string).

(** A route behind [auth_middleware]. *)
Definition authed (env : Env) (h : Headers) (st : AuthState) (f : TokenClaims → Response * AuthState) : Response * AuthState :=
  match auth_middleware (now env) h st with Some c => f c | None => (RStatus 401, st) end.
(** ... and [admin_middleware]. *)
Definition admin_route (env : Env) (h : Headers) (st : AuthState) (f : Response * AuthState) : Response * AuthState :=
  authed env h st (λ c, match admin_middleware (Some c) with Some code => (RStatus code, st) | None => f end).

Definition serve (env : Env) (h : Headers) (r : Request) (st : AuthState) : Response * AuthState :=
  match r with
  | Login body => (login_handler env body st, st)
  | Bootstrap name password => bootstrap_handler env name password st
  | AuthStatus => (auth_status_handler st, st)
  | ClientSignup token name password => client_signup_handler env token name password st
  | PasswordReset token new_password => password_reset_handler env token new_password st
  | Logout => authed env h st (λ _, (RStatus 204, st))
  | Me => authed env h st (λ c, (me_handler (Some c) st, st))
  | ChangePassword body => authed env h st (λ c, change_password_handler env (Some c) body st)
  | TotpEnroll => authed env h st (λ c, totp_enroll_handler env (Some c) st)
  | TotpVerify body => authed env h st (λ c, totp_verify_handler env (Some c) body st)
  | TotpDisable body => authed env h st (λ c, totp_disable_handler env (Some c) body st)
  | CreateInvite client_id => admin_route env h st (create_invite_handler env client_id st, st)
  | CreateReset user_id => admin_route env h st (create_password_reset_handler env user_id st, st)
  | CreateUser api_key name role symbols => admin_route env h st (create_user env api_key name role symbols st)
  end.
End Auth.

(** ** Tokens open to what they were sealed with *)
Section Tokens.
Context {K : AuthCrypto} {CC : ClaimsCodec} {H : Digest} {I : HashMapIter} {CL : ClaimsLaws CC} {HL : DigestLaws H}.

Lemma split_on_one sep s : free_of sep s = true → split_on sep s = [s].
Proof.
  induction s as [|c s IH]; cbn; [done|]. intros [Hc Hs]%andb_true_iff. rewrite negb_true_iff, bool_decide_eq_false in Hc.
  by rewrite decide_False, IH.
Qed.

(** The text of a token whose signature is that of its payload. *)
Definition sealed (st : AuthState) (token payload : string) : Prop :=
  ∃ encoded, free_of "." encoded = true ∧ base64_decode encoded = Some payload ∧
    token = encoded +:+ String "." (hmac_hex (secret st) payload).

Lemma split_on_pieces sep s : match split_on sep s with
  | [] => False
  | x :: l => free_of sep x = true ∧ match l with [] => s = x | y :: _ => ∃ rest, s = x +:+ String sep rest ∧ split_on sep rest = l end
  end.
Proof.
  induction s as [|c s IH]; [done|]. cbn [split_on]. destruct (decide (c = sep)) as [->|Hne].
  - split; [done|]. destruct (split_on sep s) as [|y l] eqn:E; [done|]. by exists s.
  - destruct (split_on sep s) as [|x l]; [done|]. destruct IH as [Hx Hl]. cbn. rewrite Hx.
    rewrite bool_decide_eq_false_2 by done. split; [done|]. destruct l as [|y l]; [by subst|].
    destruct Hl as (rest & -> & Er). by exists rest.
Qed.

Lemma open_sealed token st payload : open_token token st = Some payload → sealed st token payload.
Proof.
  unfold open_token. pose proof (split_on_pieces "." token) as Hp. destruct (split_on "." token) as [|e [|sg [|z l]]]; try done.
  destruct Hp as (He & rest & -> & Er). destruct (base64_decode e) as [p|] eqn:Ed; [|done]. cbn.
  destruct (decide (sg = sign p st)) as [->|]; [|done]. intros [= ->]. exists e. split; [done|]. split; [done|].
  pose proof (split_on_pieces "." rest) as Hr. rewrite Er in Hr. destruct Hr as [_ ->]. done.
Qed.

Lemma sealed_open token st payload : sealed st token payload → open_token token st = Some payload.
Proof.
  intros (e & He & Hd & ->). unfold open_token. rewrite (split_on_free _ _ _ He), split_on_one by apply hmac_no_dot.
  rewrite Hd. cbn. by rewrite decide_True.
Qed.

Lemma open_seal payload st st' : utf8_valid payload = true → secret st' = secret st →
  open_token (seal payload st) st' = Some payload.
Proof.
  intros Hu Hs. destruct (base64_decode_encode payload Hu) as [Hd Hdot]. unfold open_token, seal.
  change ("." +:+ sign payload st) with (String "." (sign payload st)).
  rewrite (split_on_free _ _ _ Hdot), (split_on_one _ (sign payload st)) by apply hmac_no_dot.
  rewrite Hd. cbn. rewrite decide_True; [done|]. unfold sign. by rewrite Hs.
Qed.

(** What the persisting of a change keeps. *)
Lemma persist_fields env st : users (persist env st) = users st ∧ name_index (persist env st) = name_index st ∧
  api_key_index (persist env st) = api_key_index st ∧ secret (persist env st) = secret st ∧
  used_invites (persist env st) = used_invites st ∧ used_resets (persist env st) = used_resets st.
Proof. unfold persist. by destruct (users_path st), (file_ok env). Qed.

Lemma persist_secret env st : secret (persist env st) = secret st.
Proof. apply persist_fields. Qed.
Lemma persist_used env st : used_invites (persist env st) = used_invites st ∧ used_resets (persist env st) = used_resets st.
Proof. pose proof (persist_fields env st). tauto. Qed.

(** No request changes the secret, and the sets of used identifiers grow. *)
Definition grows (st st' : AuthState) : Prop :=
  secret st' = secret st ∧ used_invites st ⊆ used_invites st' ∧ used_resets st ⊆ used_resets st'.

Lemma grows_refl st : grows st st.
Proof. done. Qed.
Lemma grows_persist env st st' : grows st st' → grows st (persist env st').
Proof. unfold grows. rewrite persist_secret. pose proof (persist_used env st') as [-> ->]. done. Qed.
Hint Resolve grows_refl grows_persist : core.

Lemma grows_create env check stored password role client st :
  grows st (match new_password_user env check stored password role client st with Ok u => add_user env u st | Err _ => st end).
Proof. destruct (new_password_user _ _ _ _ _ _ _); [|done]. by apply grows_persist. Qed.

Lemma grows_set_password env id password st : grows st (set_password env id password st).2.
Proof. unfold set_password. repeat (case_match; cbn; auto). by apply grows_persist. Qed.

Lemma serve_grows env h r st : grows st (serve env h r st).2.
Proof.
  destruct r; cbn [serve]; auto; unfold admin_route, authed; repeat (case_match; cbn [fst snd]; auto).
  - unfold bootstrap_handler, create_password_user. destruct (negb _); [done|].
    pose proof (grows_create env name name password Admin None st). by destruct (new_password_user _ _ _ _ _ _ _).
  - unfold client_signup_handler, create_client_reader. destruct (verify_invite _ _ _) as [c|]; [|done].
    pose proof (grows_create env name (trim name) password ClientReader (Some (inv_client_id c)) st) as Hg.
    destruct (new_password_user _ _ _ _ _ _ _); [|done]. cbn. destruct Hg as (? & ? & ?). split; [done|]. split; cbn; set_solver.
  - unfold password_reset_handler. destruct (verify_password_reset _ _ _) as [c|]; [|done].
    pose proof (grows_set_password env (rs_user_id c) new_password st) as Hg.
    destruct (set_password _ _ _ _) as [[] st1]; [|done]. cbn in *. destruct Hg as (? & ? & ?). split; [done|]. split; cbn; set_solver.
  - unfold change_password_handler, with_body, change_password. repeat (case_match; cbn; simplify_eq; auto). by apply grows_persist.
  - unfold totp_enroll_handler, totp_enroll. repeat (case_match; cbn; simplify_eq; auto). by apply grows_persist.
  - unfold totp_verify_handler, with_body, totp_verify. repeat (case_match; cbn; simplify_eq; auto). by apply grows_persist.
  - unfold totp_disable_handler, with_body, totp_disable. repeat (case_match; cbn; simplify_eq; auto). by apply grows_persist.
  - unfold create_user, add_user. cbn. by apply grows_persist.
Qed.

(** ** Runs *)
Record Served := mkServed { sv_env : Env; sv_request : Request; sv_before : AuthState; sv_response : Response }.

Fixpoint history (evs : list (Env * Headers * Request)) (st : AuthState) : list Served :=
  match evs with
  | [] => []
  | (env, h, r) :: evs => mkServed env r st (serve env h r st).1 :: history evs (serve env h r st).2
  end.
Definition after (evs : list (Env * Headers * Request)) (st : AuthState) : AuthState :=
  fold_left (λ st x, (serve x.1.1 x.1.2 x.2 st).2) evs st.

Lemma after_grows evs st : grows st (after evs st).
Proof.
  revert st. induction evs as [|[[env h] r] evs IH]; intros st; [done|].
  change (after ((env, h, r) :: evs) st) with (after evs (serve env h r st).2). destruct (serve_grows env h r st) as (Es & Hi & Hr), (IH (serve env h r st).2) as (Es' & Hi' & Hr').
  split; [by rewrite Es'|]. split; (etransitivity; [eassumption|done]).
Qed.

Lemma history_secret evs st s : s ∈ history evs st → secret (sv_before s) = secret st.
Proof.
  revert st. induction evs as [|[[env h] r] evs IH]; intros st; cbn [history]; [by intros ?%not_elem_of_nil|].
  intros [->|Hs]%elem_of_cons; [done|]. rewrite (IH _ Hs). apply serve_grows.
Qed.

(** The token a response discloses. *)
Definition response_token (r : Response) : option string :=
  match r with RLogin token _ _ _ | RSealed token _ _ => Some token | _ => None end.

(** ** What credentials are

    A name is the user's and the password matches the digest stored for him;
    a key is the user's. *)
Definition proves_password (st : AuthState) (name password : string) (u : ApiUser) : Prop :=
  ∃ h, name_index st !! to_ascii_lowercase name = Some (u_id u) ∧ users st !! u_id u = Some u ∧
    password_hash u = Some h ∧ verify_password h password = Ok true.
Definition proves_key (st : AuthState) (key : string) (u : ApiUser) : Prop :=
  api_key_index st !! key = Some (u_id u) ∧ users st !! u_id u = Some u.

(** A text of the service that invites a client, not expired and not used. *)
Definition proves_invite (now : Z) (st : AuthState) (token client : string) : Prop :=
  ∃ payload inv, sealed st token payload ∧ parse_invite payload = Some inv ∧ inv_client_id inv = client ∧
    (now <= inv_exp inv)%Z ∧ invite_id inv ∉ used_invites st.

(** Whose credentials the request carries: a name and its password or a key,
    and the code of an armed second factor; the first user of an empty store; a
    client that holds an invite, bound to its tenant. *)
Definition credentials_checked (env : Env) (r : Request) (st : AuthState) (u : ApiUser) : Prop :=
  match r with
  | Login body =>
      ((∃ name password, lr_name body = Some name ∧ lr_password body = Some password ∧ proves_password st name password u) ∨
       (∃ key, lr_api_key body = Some key ∧ proves_key st key u)) ∧
      (∀ s, totp_secret u = Some s → ∃ code, lr_totp_code body = Some code ∧ verify_totp s code (now env) = Ok true) ∧
      (require_totp_for_admin st = true → u_role u = Admin → totp_secret u ≠ None)
  | Bootstrap _ _ => users st = ∅ ∧ u_role u = Admin ∧ u_client_id u = None
  | ClientSignup token _ _ => u_role u = ClientReader ∧ ∃ client, u_client_id u = Some client ∧ proves_invite (now env) st token client
  | _ => False
  end.

(** Users are filed under their identifiers. *)
Definition filed (st : AuthState) : Prop := ∀ id u, users st !! id = Some u → u_id u = id.

Lemma filed_persist env st : filed st → filed (persist env st).
Proof. unfold filed. by rewrite (proj1 (persist_fields env st)). Qed.

Lemma filed_add env u st : filed st → filed (add_user env u st).
Proof.
  intros Hf. apply filed_persist. intros id u'. cbn. rewrite lookup_insert_Some. intros [[<- <-]|[_ Hu]]; [done|by apply Hf].
Qed.

Lemma filed_alter f id st : (∀ u, u_id (f u) = u_id u) → filed st → filed (alter_user f id st).
Proof.
  intros Hid Hf id' u'. cbn. rewrite lookup_alter_Some. intros [(-> & u & Hu & ->)|[_ Hu]]; [rewrite Hid|]; by apply Hf.
Qed.

Lemma filed_create env check stored password role client st : filed st →
  filed (match new_password_user env check stored password role client st with Ok u => add_user env u st | Err _ => st end).
Proof. intros Hf. destruct (new_password_user _ _ _ _ _ _ _); [by apply filed_add|done]. Qed.

Lemma filed_set_password env id password st : filed st → filed (set_password env id password st).2.
Proof. intros Hf. unfold set_password. repeat case_match; cbn; try done. by apply filed_persist, filed_alter. Qed.

Lemma serve_filed env h r st : filed st → filed (serve env h r st).2.
Proof.
  intros Hf. destruct r; cbn [serve]; auto; unfold admin_route, authed; repeat (case_match; cbn [fst snd]; auto).
  - unfold bootstrap_handler, create_password_user. destruct (negb _); [done|].
    pose proof (filed_create env name name password Admin None st Hf). by destruct (new_password_user _ _ _ _ _ _ _).
  - unfold client_signup_handler, create_client_reader. destruct (verify_invite _ _ _) as [c|]; [|done].
    pose proof (filed_create env name (trim name) password ClientReader (Some (inv_client_id c)) st Hf).
    by destruct (new_password_user _ _ _ _ _ _ _).
  - unfold password_reset_handler. destruct (verify_password_reset _ _ _) as [c|]; [|done].
    pose proof (filed_set_password env (rs_user_id c) new_password st Hf). by destruct (set_password _ _ _ _) as [[] st1].
  - unfold change_password_handler, with_body, change_password. repeat (case_match; cbn; simplify_eq; auto).
    by apply filed_persist, filed_alter.
  - unfold totp_enroll_handler, totp_enroll. repeat (case_match; cbn; simplify_eq; auto). by apply filed_persist, filed_alter.
  - unfold totp_verify_handler, with_body, totp_verify. repeat (case_match; cbn; simplify_eq; auto).
    by apply filed_persist, filed_alter.
  - unfold totp_disable_handler, with_body, totp_disable. repeat (case_match; cbn; simplify_eq; auto).
    by apply filed_persist, filed_alter.
  - by apply filed_add.
Qed.

Lemma history_filed evs st s : filed st → s ∈ history evs st → filed (sv_before s).
Proof.
  revert st. induction evs as [|[[env h] r] evs IH]; intros st Hf; cbn [history]; [by intros ?%not_elem_of_nil|].
  intros [->|Hs]%elem_of_cons; [done|]. eapply IH; [|done]. by apply serve_filed.
Qed.

Lemma password_proved name password u st : filed st → auth_by_password name password st = Some u →
  proves_password st name password u.
Proof.
  intros Hf. unfold auth_by_password, proves_password.
  destruct (name_index st !! to_ascii_lowercase name) as [id|]; cbn; [|by destruct (verify_password _ _) as [[]|]].
  destruct (users st !! id) as [u'|] eqn:Eu; cbn; [|by destruct (verify_password _ _) as [[]|]].
  destruct (password_hash u') as [hash|] eqn:Eh; cbn; [|by destruct (verify_password _ _) as [[]|]].
  destruct (verify_password hash password) as [[]|] eqn:Ev; try done. intros [= <-].
  rewrite (Hf _ _ Eu). exists hash. by rewrite Eu.
Qed.

Lemma key_proved key u st : filed st → auth_by_key key st = Some u → proves_key st key u.
Proof.
  intros Hf. unfold auth_by_key, proves_key. destruct (api_key_index st !! key) as [id|]; [|done]. cbn.
  intros Eu. by rewrite (Hf _ _ Eu).
Qed.

Lemma login_proved body u st : filed st → login_user body st = Some (Some u) →
  (∃ name password, lr_name body = Some name ∧ lr_password body = Some password ∧ proves_password st name password u) ∨
  (∃ key, lr_api_key body = Some key ∧ proves_key st key u).
Proof.
  intros Hf. unfold login_user. destruct (lr_name body) as [name|], (lr_password body) as [password|], (lr_api_key body) as [key|];
    try done; intros [= Hu]; ((left; exists name, password; by auto using password_proved) || (right; exists key; by auto using key_proved)).
Qed.

Lemma proved_user_filed body u st : filed st → login_user body st = Some (Some u) → users st !! u_id u = Some u.
Proof. intros Hf Hl. destruct (login_proved body u st Hf Hl) as [(? & ? & _ & _ & ? & _ & Hu & _)|(? & _ & _ & Hu)]; exact Hu. Qed.

Lemma invite_proved now token st inv : verify_invite now token st = Some inv →
  proves_invite now st token (inv_client_id inv).
Proof.
  unfold verify_invite. destruct (open_token token st) as [payload|] eqn:Eo; [|done]. cbn.
  destruct (parse_invite payload) as [inv'|] eqn:Ep; [|done]. cbn. destruct (_ <? _)%Z eqn:Ex; [done|].
  destruct (decide _) as [|Hu]; [done|]. intros [= ->]. exists payload, inv. apply Z.ltb_ge in Ex.
  split; [by apply open_sealed|]. done.
Qed.

Lemma generate_token_secret env u st st' : secret st' = secret st → generate_token env u st' = generate_token env u st.
Proof. unfold generate_token, seal, sign. by intros ->. Qed.

Lemma add_user_secret env u st : secret (add_user env u st) = secret st.
Proof. unfold add_user. by rewrite persist_secret. Qed.

Lemma login_checked env body st t : filed st → response_token (login_handler env body st) = Some t →
  ∃ u, t = generate_token env u st ∧ credentials_checked env (Login body) st u.
Proof.
  intros Hf. unfold login_handler, credentials_checked. destruct (login_user body st) as [[u|]|] eqn:El; [|done..].
  pose proof (login_proved _ _ _ Hf El) as Hp. pose proof (proved_user_filed _ _ _ Hf El) as Hu.
  destruct (_ && _) eqn:Eg; [done|]. assert (Hg : require_totp_for_admin st = true → u_role u = Admin → totp_secret u ≠ None).
  { intros Hr Ha Ht. rewrite Hr, Ht in Eg. cbn in Eg. rewrite bool_decide_eq_true_2 in Eg by done. done. }
  destruct (totp_secret u) as [sec|] eqn:Et.
  - destruct (lr_totp_code body) as [[|c code]|] eqn:Ec; [done| |done].
    destruct (verify_totp_for _ _ _ _) eqn:Ev; [|done]. intros [= <-]. exists u. split; [done|]. split; [done|].
    unfold verify_totp_for in Ev. rewrite Hu in Ev. cbn in Ev. rewrite Et in *. split; [|done]. intros s [= <-].
    exists (String c code). split; [done|]. by destruct (verify_totp _ _ _) as [[]|].
  - intros [= <-]. exists u. split; [done|]. split; [done|]. rewrite Et. done.
Qed.

Lemma new_user_fields env check stored password role client st u :
  new_password_user env check stored password role client st = Ok u →
  u_role u = role ∧ u_client_id u = client ∧ u_name u = stored ∧ u_id u = "u-" +:+ uuid env ∧ u_api_key u = "" ∧
  name_index st !! to_ascii_lowercase check = None.
Proof.
  unfold new_password_user, result_bind. destruct (_ <? _)%Z; [done|]. destruct (is_blank check); [done|].
  destruct (name_index st !! _) eqn:E; [done|]. cbn. destruct (hash_password _ _); [|done]. by intros [= <-].
Qed.

Lemma with_body_no_token {A} (claims : option TokenClaims) (body : result A (option string)) st f :
  response_token (with_body claims body st f).1 = None.
Proof. unfold with_body. destruct claims as [c|], body as [a|[e|]]; try done. by destruct (f c a) as [[] ?]. Qed.

(** Every token a response discloses is a login's, an invite's or a reset's. *)
Lemma serve_token env h r st t : filed st → response_token (serve env h r st).1 = Some t →
  (∃ u, t = generate_token env u st ∧ credentials_checked env r st u) ∨
  (∃ i, t = seal (invite_text i) st) ∨ (∃ c, t = seal (reset_text c) st).
Proof.
  intros Hf. destruct r; cbn [serve]; unfold admin_route, authed.
  - intros H0. left. by apply login_checked.
  - unfold bootstrap_handler, create_password_user. destruct (needs_bootstrap st) eqn:Eb; [|done]. cbn [negb].
    destruct (new_password_user _ _ _ _ _ _ _) as [u|] eqn:Eu; [|done]. intros [= <-]. left. exists u.
    apply new_user_fields in Eu as (Hr & Hc & _). split; [by apply generate_token_secret, add_user_secret|].
    split; [by apply bool_decide_eq_true in Eb|done].
  - done.
  - unfold client_signup_handler, create_client_reader. destruct (verify_invite _ _ _) as [inv|] eqn:Ev; [|done].
    destruct (new_password_user _ _ _ _ _ _ _) as [u|] eqn:Eu; [|done]. intros [= <-]. left. exists u.
    apply new_user_fields in Eu as (Hr & Hc & _). split; [by apply generate_token_secret, add_user_secret|].
    split; [done|]. exists (inv_client_id inv). split; [done|]. by apply invite_proved.
  - unfold password_reset_handler. destruct (verify_password_reset _ _ _); [|done]. by destruct (set_password _ _ _ _) as [[] ?].
  - by destruct (auth_middleware _ _ _).
  - destruct (auth_middleware _ _ _); [|done]. cbn. by destruct (get_user_by_id _ _).
  - destruct (auth_middleware _ _ _); [|done]. unfold change_password_handler. by rewrite with_body_no_token.
  - destruct (auth_middleware _ _ _); [|done]. unfold totp_enroll_handler. by destruct (totp_enroll _ _ _ _) as [[] ?].
  - destruct (auth_middleware _ _ _); [|done]. unfold totp_verify_handler. by rewrite with_body_no_token.
  - destruct (auth_middleware _ _ _); [|done]. unfold totp_disable_handler. by rewrite with_body_no_token.
  - destruct (auth_middleware _ _ _) as [c|]; [|done]. cbn [admin_middleware]. destruct (decide _); [|done].
    unfold create_invite_handler. destruct (is_blank _); [done|]. intros [= <-]. right. left. by eexists.
  - destruct (auth_middleware _ _ _) as [c|]; [|done]. cbn [admin_middleware]. destruct (decide _); [|done].
    unfold create_password_reset_handler. destruct (is_blank _); [done|]. destruct (get_user_by_id _ _); [|done].
    intros [= <-]. right. right. by eexists.
  - destruct (auth_middleware _ _ _) as [c|]; [|done]. cbn [admin_middleware]. by destruct (decide _).
Qed.

(** Signatures cannot be forged: a presented text that carries the signature of
    its payload has the payload of one the service disclosed. *)
Definition unforged (hist : list Served) (token : string) (st : AuthState) : Prop :=
  ∀ payload, sealed st token payload →
    ∃ s t, s ∈ hist ∧ response_token (sv_response s) = Some t ∧ sealed st t payload.

Lemma history_elem evs st s : s ∈ history evs st → ∃ h, sv_response s = (serve (sv_env s) h (sv_request s) (sv_before s)).1.
Proof.
  revert st. induction evs as [|[[env h] r] evs IH]; intros st; cbn [history]; [by intros ?%not_elem_of_nil|].
  intros [->|Hs]%elem_of_cons; [by exists h|by eapply IH].
Qed.

(** C37: when signatures cannot be forged, a bearer token is accepted only for the
    user, the role and the tenant of someone who proved himself in an earlier
    request no more than a day before: by a name and a password that matches the
    digest stored for it, or a key, and, if a second factor is armed, a code the
    factor's secret accepts then, with no administrator without one where that is
    required; as the first user of an empty store; or by an invite of the service
    for the tenant, neither expired nor used. *)
Theorem session_needs_credentials evs st0 now token c (Hfiled : filed st0) : let st := after evs st0 in
  unforged (history evs st0) token st → verify_token now token st = Some c →
  ∃ s u, s ∈ history evs st0 ∧ credentials_checked (sv_env s) (sv_request s) (sv_before s) u ∧
    tk_user_id c = u_id u ∧ tk_role c = u_role u ∧ tk_client_id c = u_client_id u ∧
    (now ≤ Auth.now (sv_env s) + 86400)%Z.
Proof.
  intros st Hun. unfold verify_token. destruct (open_token token st) as [payload|] eqn:Eo; [|done]. cbn.
  destruct (parse_token payload) as [c'|] eqn:Ep; [|done]. cbn. destruct (_ <? _)%Z eqn:Ex; [done|]. intros [= ->].
  destruct (Hun _ (open_sealed _ _ _ Eo)) as (s & t & Hs & Ht & Hopen%sealed_open).
  destruct (history_elem _ _ _ Hs) as [h Eh]. rewrite Eh in Ht.
  assert (Hsec : secret st = secret (sv_before s)).
  { rewrite (history_secret _ _ _ Hs). apply after_grows. }
  destruct (serve_token _ _ _ _ _ (history_filed _ _ _ Hfiled Hs) Ht) as [(u & -> & Hc)|[[i ->]|[r ->]]].
  - unfold generate_token in Hopen. rewrite open_seal in Hopen by (apply object_utf8 || done). injection Hopen as <-.
    rewrite token_reads in Ep. destruct (is_i64 _); [|done]. injection Ep as <-. exists s, u. apply Z.ltb_ge in Ex. by repeat split.
  - rewrite open_seal in Hopen by (apply object_utf8 || done). injection Hopen as <-. by rewrite token_not_invite in Ep.
  - rewrite open_seal in Hopen by (apply object_utf8 || done). injection Hopen as <-. by rewrite token_not_reset in Ep.
Qed.

Lemma i64_day t d : (0 ≤ t < 2 ^ 63 - 86400)%Z → (0 ≤ d ≤ 86400)%Z → is_i64 (t + d) = true.
Proof. intros. unfold is_i64. apply andb_true_iff. split; [apply Z.leb_le|apply Z.ltb_lt]; lia. Qed.

(** C39: in every later state of the service a session token verifies for the
    user it was made for until exactly a day after; an invite for its client until
    exactly a day after and a reset for its user until exactly an hour after,
    unless their identifiers were used; and none of the three passes for either of
    the others, each being read as the JSON object it was written as. *)
Theorem token_roundtrip env u st evs now (Hnow : (0 ≤ Auth.now env < 2 ^ 63 - 86400)%Z) : let st' := after evs st in
  verify_token now (generate_token env u st) st' =
    (if (now <=? Auth.now env + 86400)%Z
     then Some (mkTokenClaims (u_id u) (u_role u) (u_client_id u) (Auth.now env + 86400)) else None) ∧
  (∀ id, verify_invite now (issue_invite env id st) st' =
    if (now <=? Auth.now env + 86400)%Z && negb (bool_decide (uuid env ∈ used_invites st'))
    then Some (mkInviteClaims (uuid env) id (Auth.now env + 86400)) else None) ∧
  (∀ id, verify_password_reset now (issue_password_reset env id st) st' =
    if (now <=? Auth.now env + 3600)%Z && negb (bool_decide (uuid env ∈ used_resets st'))
    then Some (mkResetClaims (uuid env) id (Auth.now env + 3600)) else None) ∧
  verify_invite now (generate_token env u st) st' = None ∧ verify_password_reset now (generate_token env u st) st' = None ∧
  (∀ id, verify_token now (issue_invite env id st) st' = None ∧ verify_password_reset now (issue_invite env id st) st' = None) ∧
  (∀ id, verify_token now (issue_password_reset env id st) st' = None ∧
    verify_invite now (issue_password_reset env id st) st' = None).
Proof.
  intros st'. destruct (after_grows evs st) as (Hs & _). fold st' in Hs.
  assert (Hopen : ∀ fs, open_token (seal (object_text fs) st) st' = Some (object_text fs))
    by (intros fs; apply open_seal; [apply object_utf8|done]).
  unfold verify_token, verify_invite, verify_password_reset, generate_token, issue_invite, issue_password_reset.
  assert (Ht : ∀ c, open_token (seal (token_text c) st) st' = Some (token_text c)) by (intros c; apply Hopen).
  assert (Hi : ∀ c, open_token (seal (invite_text c) st) st' = Some (invite_text c)) by (intros c; apply Hopen).
  assert (Hr : ∀ c, open_token (seal (reset_text c) st) st' = Some (reset_text c)) by (intros c; apply Hopen).
  split; [|split; [|split; [|split; [|split; [|split]]]]].
  - rewrite Ht. cbn [mbind option_bind]. rewrite token_reads. cbn [tk_exp]. rewrite i64_day by lia. cbn.
    rewrite Z.ltb_antisym. by destruct (_ <=? _)%Z.
  - intros id. rewrite Hi. cbn [mbind option_bind]. rewrite invite_reads. cbn [inv_exp]. rewrite i64_day by lia. cbn.
    rewrite Z.ltb_antisym. destruct (_ <=? _)%Z; cbn; [|done].
    by destruct (decide _), (bool_decide_reflect (uuid env ∈ used_invites st')).
  - intros id. rewrite Hr. cbn [mbind option_bind]. rewrite reset_reads. cbn [rs_exp]. rewrite i64_day by lia. cbn.
    rewrite Z.ltb_antisym. destruct (_ <=? _)%Z; cbn; [|done].
    by destruct (decide _), (bool_decide_reflect (uuid env ∈ used_resets st')).
  - rewrite Ht. cbn [mbind option_bind]. by rewrite invite_not_token.
  - rewrite Ht. cbn [mbind option_bind]. by rewrite reset_not_token.
  - intros id. rewrite Hi. cbn [mbind option_bind]. by rewrite token_not_invite, reset_not_invite.
  - intros id. rewrite Hr. cbn [mbind option_bind]. by rewrite token_not_reset, invite_not_reset.
Qed.

End Tokens.

(** ** Tenants *)
Section Tenants.
Context {K : AuthCrypto} {CC : ClaimsCodec} {H : Digest} {I : HashMapIter}.

Lemma client_path_id id rest : id ≠ "" → id ≠ "self" → free_of "/" id = true →
  extract_client_id_from_path ("/api/v1/client/" +:+ id +:+ String "/" rest) = Some id.
Proof.
  intros Hne Hself Hf. unfold extract_client_id_from_path, segments_of.
  change ("/api/v1/client/" +:+ id +:+ String "/" rest) with
    ("" +:+ String "/" ("api" +:+ String "/" ("v1" +:+ String "/" ("client" +:+ String "/" (id +:+ String "/" rest))))).
  rewrite !split_on_free by done. rewrite filter_cons_False by tauto. rewrite !filter_cons_True by done. cbn [client_segment].
  rewrite (bool_decide_eq_false_2 (id = "self")) by done. done.
Qed.

(** C38: of the paths of one client, [/api/v1/client/{id}/...], a token bound to a
    tenant passes exactly those of its own, a client reader without one none, and
    a token of the house all. *)
Theorem tenant_isolation id rest c : id ≠ "" → id ≠ "self" → free_of "/" id = true →
  tenant_scope_middleware ("/api/v1/client/" +:+ id +:+ String "/" rest) (Some c) = None ↔
  tk_client_id c = Some id ∨ (tk_client_id c = None ∧ tk_role c ≠ ClientReader).
Proof.
  intros Hne Hself Hf. unfold tenant_scope_middleware. rewrite client_path_id by done. unfold is_tenant_scoped.
  destruct (tk_client_id c) as [tok|]; cbn.
  - destruct (decide (tok = id)) as [->|Hn]; split; try done; [by left|]. intros [[=]|[? _]]; done.
  - destruct (decide (tk_role c = ClientReader)) as [E|E].
    + rewrite (bool_decide_eq_true_2 _ E). cbn. split; [done|]. intros [?|[_ ?]]; done.
    + rewrite (bool_decide_eq_false_2 _ E). cbn. split; [by right|done].
Qed.

(** A path without a client passes only as the alias of the tenant itself. *)
Lemma tenant_without_client path c tok : tk_client_id c = Some tok → extract_client_id_from_path path = None →
  tenant_scope_middleware path (Some c) = None ↔ is_self_alias path = true.
Proof. intros Hc Hp. unfold tenant_scope_middleware. rewrite Hc, Hp. cbn. by destruct (is_self_alias path). Qed.
End Tenants.

(** ** Users survive a restart *)
Section Restart.
Context {K : AuthCrypto} {CC : ClaimsCodec} {H : Digest} {I : HashMapIter} {CL : ClaimsLaws CC}.

(** The indexes are those of the users, whose names and keys differ. *)
Record indexed (st : AuthState) : Prop := {
  ix_id : ∀ id u, users st !! id = Some u → u_id u = id;
  ix_name : ∀ n id, name_index st !! n = Some id ↔ ∃ u, users st !! id = Some u ∧ to_ascii_lowercase (u_name u) = n;
  ix_key : ∀ k id, api_key_index st !! k = Some id ↔ k ≠ "" ∧ ∃ u, users st !! id = Some u ∧ u_api_key u = k;
}.

Lemma indexed_names st id1 id2 u1 u2 : indexed st → users st !! id1 = Some u1 → users st !! id2 = Some u2 →
  to_ascii_lowercase (u_name u1) = to_ascii_lowercase (u_name u2) → id1 = id2.
Proof.
  intros [] H1 H2 E. assert (E1 := proj2 (ix_name0 (to_ascii_lowercase (u_name u1)) id1) ltac:(eauto)).
  assert (E2 := proj2 (ix_name0 (to_ascii_lowercase (u_name u1)) id2) ltac:(eauto)). congruence.
Qed.

(** What a load of [l] leaves in the three maps. *)
Lemma load_users l st : let st' := fold_left (λ st u, insert_user u st) l st in
  (∀ id, users st' !! id = from_option Some (users st !! id) (last (filter (λ u, u_id u = id) l))) ∧
  (∀ n, name_index st' !! n = from_option (λ u, Some (u_id u)) (name_index st !! n)
    (last (filter (λ u, to_ascii_lowercase (u_name u) = n) l))) ∧
  (∀ k, api_key_index st' !! k = from_option (λ u, Some (u_id u)) (api_key_index st !! k)
    (last (filter (λ u, u_api_key u ≠ "" ∧ u_api_key u = k) l))).
Proof.
  induction l as [|u l IH] using rev_ind; [done|]. cbv zeta in *. rewrite fold_left_app. cbn [fold_left].
  destruct IH as (Hu & Hn & Hk). set (st1 := fold_left _ l st) in *. unfold insert_user, set_users. cbn [users name_index api_key_index].
  split; [|split].
  - intros id. rewrite filter_app. destruct (decide (u_id u = id)) as [<-|Hne].
    + rewrite lookup_insert_eq, (filter_cons_True (λ u0, u_id u0 = u_id u)), filter_nil, last_snoc by done. done.
    + rewrite lookup_insert_ne, (filter_cons_False (λ u0, u_id u0 = id)), filter_nil, app_nil_r by done. apply Hu.
  - intros n. rewrite filter_app. destruct (decide (to_ascii_lowercase (u_name u) = n)) as [<-|Hne].
    + rewrite lookup_insert_eq, (filter_cons_True (λ u0, to_ascii_lowercase (u_name u0) = to_ascii_lowercase (u_name u))), filter_nil, last_snoc by done. done.
    + rewrite lookup_insert_ne, (filter_cons_False (λ u0, to_ascii_lowercase (u_name u0) = n)), filter_nil, app_nil_r by done. apply Hn.
  - intros k. rewrite filter_app. destruct (decide (u_api_key u = "")) as [Ee|Ee].
    + rewrite (filter_cons_False (λ u0, u_api_key u0 ≠ "" ∧ u_api_key u0 = k)), filter_nil, app_nil_r by tauto. apply Hk.
    + destruct (decide (u_api_key u = k)) as [<-|Hne].
      * rewrite lookup_insert_eq, (filter_cons_True (λ u0, u_api_key u0 ≠ "" ∧ u_api_key u0 = u_api_key u)), filter_nil, last_snoc by done. done.
      * rewrite lookup_insert_ne, (filter_cons_False (λ u0, u_api_key u0 ≠ "" ∧ u_api_key u0 = k)), filter_nil, app_nil_r by tauto. apply Hk.
Qed.

(** A predicate at most one element of the list satisfies. *)
Lemma last_filter_unique {A} (P : A → Prop) `{∀ x, Decision (P x)} l x : x ∈ l → P x → (∀ y, y ∈ l → P y → y = x) →
  last (filter P l) = Some x.
Proof.
  intros Hx HP Hu. destruct (last (filter P l)) as [y|] eqn:E.
  - apply last_Some_elem_of, list_elem_of_filter in E as [Hy Hin]. by rewrite (Hu y).
  - apply last_None in E. assert (Hin : x ∈ filter P l) by by apply list_elem_of_filter. rewrite E in Hin. by apply not_elem_of_nil in Hin.
Qed.

Lemma last_filter_none {A} (P : A → Prop) `{∀ x, Decision (P x)} l : (∀ y, y ∈ l → ¬ P y) → last (filter P l) = None.
Proof.
  intros Hu. apply last_None. destruct (filter P l) as [|y l'] eqn:E; [done|]. exfalso.
  assert (Hin : y ∈ filter P l) by (rewrite E; by left). apply list_elem_of_filter in Hin as [Hy Hin]. by eapply Hu.
Qed.

Lemma index_from_list (f : ApiUser → Prop) `{∀ u, Decision (f u)} st o :
  (∀ id u, users st !! id = Some u → u_id u = id) →
  (∀ id, o = Some id ↔ ∃ u, users st !! id = Some u ∧ f u) →
  from_option (λ u, Some (u_id u)) None (last (filter f (hm_values (users st)))) = o.
Proof.
  intros Hid Ho. destruct o as [id|].
  - destruct (proj1 (Ho id) eq_refl) as (u & Hu & Hf). rewrite (last_filter_unique f _ u); [cbn; by rewrite (Hid _ _ Hu)| |done|].
    + apply hm_values_elem. eauto.
    + intros y [id' Hy]%hm_values_elem Hfy. assert (E : Some id = Some id') by (apply Ho; eauto). injection E as <-. congruence.
  - rewrite last_filter_none; [done|]. intros y [id Hy]%hm_values_elem Hfy. assert (E : None = Some id) by (apply Ho; eauto). done.
Qed.

(** What the user file holds after a write that succeeded is, read by a new
    process in whatever order the entries were written, the same users under the
    same names and keys. *)
Theorem users_survive_restart env st secret' : indexed st → users_path st = true → file_ok env = true →
  ∃ st', with_users_path (Some (users_file (persist env st))) (auth_new secret') = Ok st' ∧
    users st' = users st ∧ name_index st' = name_index st ∧ api_key_index st' = api_key_index st.
Proof.
  intros Hix Hp Hf. pose proof Hix as []. unfold persist. rewrite Hp, Hf. cbn [users_file set_file with_users_path].
  destruct (users_roundtrip (hm_values (users st))) as [-> ->].
  eexists. split; [reflexivity|]. cbn [users name_index api_key_index set_file].
  destruct (load_users (hm_values (users st)) (auth_new secret')) as (Hu & Hn & Hk). cbv zeta in *.
  split; [|split]; apply map_eq.
  - intros id. rewrite Hu. cbn [users auth_new]. rewrite lookup_empty. destruct (users st !! id) as [u|] eqn:E.
    + rewrite (last_filter_unique _ _ u); [done| |by apply ix_id0|].
      * apply hm_values_elem. eauto.
      * intros y [id' Hy]%hm_values_elem Hy'. apply ix_id0 in Hy as Hy''. congruence.
    + rewrite last_filter_none; [done|]. intros y [id' Hy]%hm_values_elem Hy'. apply ix_id0 in Hy as Hy''. congruence.
  - intros n. rewrite Hn. cbn [name_index auth_new]. rewrite lookup_empty. by apply index_from_list.
  - intros k. rewrite Hk. cbn [api_key_index auth_new]. rewrite lookup_empty. apply index_from_list; [done|].
    intros id. rewrite ix_key0. split.
    + intros [Hne (u & Hu' & <-)]. by exists u.
    + intros (u & Hu' & Hne & <-). eauto.
Qed.

(** The first user of a store and every change of one user keep the indexes. *)
Lemma indexed_new secret' : indexed (auth_new secret').
Proof. split; cbn; [by intros ? ? ?%lookup_empty_Some|..]; intros x id; rewrite lookup_empty; (split; [done|]); [intros (u & Hu & _)|intros [_ (u & Hu & _)]]; by apply lookup_empty_Some in Hu. Qed.

Lemma indexed_persist env st : indexed st → indexed (persist env st).
Proof. intros []. destruct (persist_fields env st) as (Eu & En & Ek & _). split; by rewrite ?Eu, ?En, ?Ek. Qed.

(** Creating a password user under a drawn identifier keeps the indexes. *)
Lemma indexed_create env name password role st u st' : indexed st → users st !! ("u-" +:+ uuid env) = None →
  create_password_user env name password role st = (Ok u, st') → indexed st'.
Proof.
  intros [] Hfresh. unfold create_password_user.
  destruct (new_password_user _ _ _ _ _ _ _) as [u'|] eqn:E; [|done]. intros [= <- <-].
  apply new_user_fields in E as (_ & _ & En & Eid & Ek & Hn). apply indexed_persist. rewrite <- Eid in Hfresh.
  split; unfold insert_user, set_users; cbn; rewrite ?Ek, ?En.
  - intros id u [[<- <-]|[_ Hu]]%lookup_insert_Some; [done|by apply ix_id0].
  - intros n id. rewrite lookup_insert_Some. split.
    + intros [[<- <-]|[Hne Hi]]; [exists u'; by rewrite lookup_insert_eq, En|].
      apply ix_name0 in Hi as (u & Hu & <-). exists u. split; [|done]. rewrite lookup_insert_ne; [done|congruence].
    + intros (u & [[<- <-]|[Hne Hu]]%lookup_insert_Some & <-); [left; by rewrite En|right].
      assert (Hi : name_index st !! to_ascii_lowercase (u_name u) = Some id) by (apply ix_name0; eauto). split; congruence.
  - intros k id. rewrite decide_True by done. rewrite ix_key0. split.
    + intros [Hne (u & Hu & <-)]. split; [done|]. exists u. rewrite lookup_insert_ne; [done|congruence].
    + intros [Hne (u & [[<- <-]|[Hne' Hu]]%lookup_insert_Some & <-)]; [by rewrite Ek in Hne|eauto].
Qed.
End Restart.

(** ** Closed instances *)
#[export] Instance toy_crypto : AuthCrypto := {|
  hash_password password salt := Ok (salt +:+ ":" +:+ password);
  verify_password hash password := Ok (ends_with (":" +:+ password) hash);
  verify_totp secret code now := Ok (bool_decide (secret = code));
  totp_url secret issuer name := Ok (issuer +:+ ":" +:+ name);
|}.

Definition role_code (r : Role) : nat := match r with Admin => 0 | Operator => 1 | Viewer => 2 | ClientReader => 3 end.
Definition role_of (n : nat) : Role := match n with 0 => Admin | 1 => Operator | 2 => Viewer | _ => ClientReader end.
Lemma role_of_code r : role_of (role_code r) = r.
Proof. by destruct r. Qed.

Definition user_fields (u : ApiUser) :=
  ((u_id u, u_name u, role_code (u_role u), u_api_key u), (password_hash u, totp_secret u, totp_pending u),
   (created_at_ms u, allowed_symbols u, u_client_id u)).
Definition user_of (x : (string * string * nat * string) * (option string * option string * option string) *
    (Z * option (list string) * option string)) : ApiUser :=
  let '((i, n, r, k), (h, s, p), (c, a, t)) := x in mkApiUser i n (role_of r) k h s p c a t.
Lemma user_of_fields u : user_of (user_fields u) = u.
Proof. destruct u. cbn. by rewrite role_of_code. Qed.

Definition value_fields (v : claim_value) : string + (Z + unit) :=
  match v with CvString s => inl s | CvInt z => inr (inl z) | CvNull => inr (inr ()) end.
Definition value_of (x : string + (Z + unit)) : claim_value :=
  match x with inl s => CvString s | inr (inl z) => CvInt z | inr (inr _) => CvNull end.
Lemma value_of_fields v : value_of (value_fields v) = v.
Proof. by destruct v. Qed.

#[export] Instance bits_claims : ClaimsCodec := {|
  object_text fs := bits_of (List.map (prod_map id value_fields) fs);
  parse_object s :=
    match of_bits s with Some fs => Some (List.map (prod_map id (λ x, Some (value_of x))) fs) | None => None end;
  users_text l := bits_of (List.map user_fields l);
  parse_users s := match of_bits s with Some l => Some (List.map user_of l) | None => None end;
|}.

Lemma bits_of_utf8 {A} `{Countable A} (a : A) : utf8_valid (bits_of a) = true.
Proof. unfold bits_of. destruct (bits_one_line (encode a)) as (_ & _ & Hu). exact Hu. Qed.

#[export] Instance bits_claims_laws : ClaimsLaws bits_claims.
Proof.
  split; intros; unfold object_text, parse_object, users_text, parse_users, bits_claims; rewrite ?of_bits_of, ?bits_of_utf8; try done.
  - f_equal. rewrite List.map_map. apply List.map_ext. intros [k v]. unfold prod_map. cbn. by rewrite value_of_fields.
  - split; [|apply bits_of_not_blank]. f_equal. rewrite List.map_map. rewrite <- (List.map_id l) at 2.
    apply List.map_ext, user_of_fields.
Qed.

#[export] Instance length_digest_laws : DigestLaws length_digest.
Proof. split. intros k s. cbn. apply show_uint_free; [unfold str_len; lia|done]. Qed.

(** The first second of the service, in which [n] is drawn. *)
Definition env_at (t : Z) (n : string) : Env := mkEnv t (t * 1000) n "salt" ("secret" +:+ n) true.
Definition no_headers : Headers := mkHeaders None None.
Definition bearer (token : string) : Headers := mkHeaders (Some ("Bearer " +:+ token)) None.
Definition store0 : AuthState := set_file true None (auth_new "key").

Definition root_token : string :=
  match (bootstrap_handler (env_at 0 "1") "root" "password" store0).1 with RLogin t _ _ _ => t | _ => "" end.
Definition demo_requests : list (Env * Headers * Request) :=
  [(env_at 0 "1", no_headers, Bootstrap "root" "password");
   (env_at 10 "2", bearer root_token, CreateInvite "acme")].

Lemma session_needs_credentials_witness :
  is_none (verify_token 20 root_token (after demo_requests store0)) = false ∧
  ∃ s u, s ∈ history demo_requests store0 ∧ credentials_checked (sv_env s) (sv_request s) (sv_before s) u.
Proof.
  split; [vm_compute; reflexivity|].
  destruct (verify_token 20 root_token (after demo_requests store0)) as [c|] eqn:E; [|exfalso; revert E; by vm_compute].
  destruct (session_needs_credentials demo_requests store0 20 root_token c) as (s & u & Hs & Hc & _).
  - intros id u Hu. cbn in Hu. by rewrite lookup_empty in Hu.
  - intros payload Ho. eexists _, root_token. split; [left|]. split; [vm_compute; reflexivity|exact Ho].
  - exact E.
  - exists s, u. split; [exact Hs|exact Hc].
Defined.

Lemma token_roundtrip_witness :
  let u := mkApiUser "u-1" "root" Admin "" None None None 0 None None in
  let st' := after demo_requests store0 in
  verify_token 86400 (generate_token (env_at 0 "1") u store0) st' = Some (mkTokenClaims "u-1" Admin None 86400) ∧
  verify_invite 5 (generate_token (env_at 0 "1") u store0) st' = None ∧
  verify_invite 5 (issue_password_reset (env_at 0 "1") "u-1" store0) st' = None.
Proof.
  intros u st'.
  destruct (token_roundtrip (env_at 0 "1") u store0 demo_requests 86400 ltac:(cbn; lia)) as (H1 & _).
  destruct (token_roundtrip (env_at 0 "1") u store0 demo_requests 5 ltac:(cbn; lia)) as (_ & _ & _ & H2 & _ & _ & H3).
  split; [exact H1|]. split; [exact H2|]. exact (proj2 (H3 "u-1")).
Defined.

Definition invite_token : string :=
  match (serve (env_at 10 "2") (bearer root_token) (CreateInvite "acme") (after demo_requests store0)).1 with
  | RSealed t _ _ => t
  | _ => ""
  end.


Lemma tenant_isolation_witness :
  let c := mkTokenClaims "u-3" ClientReader (Some "acme") 0 in
  tenant_scope_middleware "/api/v1/client/acme/pnl" (Some c) = None.
Proof. intros c. apply (tenant_isolation "acme" "pnl" c); [done..|by left]. Defined.

Lemma users_survive_restart_witness :
  ∃ st', with_users_path (Some (users_file (persist (env_at 0 "1") store0))) (auth_new "other") = Ok st' ∧ users st' = ∅.
Proof.
  destruct (users_survive_restart (env_at 0 "1") store0 "other") as (st' & E & Eu & _).
  - destruct (indexed_new "key"). by split.
  - reflexivity.
  - reflexivity.
  - exists st'. by split.
Defined.

(** The name of a client is checked before it is trimmed and stored after: who is
    invited and signs up as [root] followed by a space takes the name over, and
    the administrator's password no longer logs in. *)
Example signup_takes_name :
  let st := after demo_requests store0 in
  let st' := (serve (env_at 20 "3") no_headers (ClientSignup invite_token "root " "guessing") st).2 in
  (is_none (auth_by_password "root" "password" st), is_none (auth_by_password "root" "password" st'),
   u_role <$> auth_by_password "root" "guessing" st') = (false, true, Some ClientReader).
Proof. vm_compute. reflexivity. Qed.

(** A user made with a key only is not checked for its name: it takes that of an
    existing user, who has no password any more. *)
Example created_user_takes_name :
  let st := after demo_requests store0 in
  let st' := (serve (env_at 20 "3") (bearer root_token) (CreateUser "key3" "ROOT" "viewer" []) st).2 in
  (is_none (auth_by_password "root" "password" st), is_none (auth_by_password "root" "password" st')) = (false, true).
Proof. vm_compute. reflexivity. Qed.

(** Two signups with one invite, the second verified before the first consumed it:
    both make a user. *)
Example invite_used_twice :
  let st := after demo_requests store0 in
  let first := create_client_reader (env_at 20 "3") "alice" "password" "acme" st in
  let second := client_signup_handler (env_at 20 "4") invite_token "bob" "password" first.2 in
  (is_ok first.1, is_none (response_token second.1)) = (true, false).
Proof. vm_compute. reflexivity. Qed.
