(* ===== verification/IdMaps.v ===== *)
(** * Identifier bookkeeping ([crates/engine/src/order_id_map.rs],
    [crates/backtester/src/deduplicator.rs])

    The two-way map between internal and venue order ids, and the
    deduplicator of event sequence numbers with its bounded memory. *)
From stdpp Require Import base gmap sets list strings.
From Stdlib Require Import ZArith Lia.
From S2P Require Import Prelude Decimal Types.
Local Open Scope nat_scope.

(** ** Order ids *)
Record OrderIdMap := mkOrderIdMap {
  to_exchange : gmap OrderId string;
  to_internal : gmap string OrderId;
  client_to_internal : gmap string OrderId;
}.

Definition id_map_new : OrderIdMap := mkOrderIdMap ∅ ∅ ∅.

Definition id_insert (i : OrderId) (e : string) (m : OrderIdMap) : OrderIdMap :=
  mkOrderIdMap (<[i := e]> (to_exchange m)) (<[e := i]> (to_internal m)) (client_to_internal m).
Definition insert_client_id (c : string) (i : OrderId) (m : OrderIdMap) : OrderIdMap :=
  mkOrderIdMap (to_exchange m) (to_internal m) (<[c := i]> (client_to_internal m)).

Definition get_exchange_id (i : OrderId) (m : OrderIdMap) : option string := to_exchange m !! i.
Definition get_internal_id (e : string) (m : OrderIdMap) : option OrderId := to_internal m !! e.
Definition get_by_client_id (c : string) (m : OrderIdMap) : option OrderId := client_to_internal m !! c.

Definition id_remove (i : OrderId) (m : OrderIdMap) : OrderIdMap :=
  match to_exchange m !! i with
  | Some e => mkOrderIdMap (delete i (to_exchange m)) (delete e (to_internal m)) (client_to_internal m)
  | None => m
  end.
Definition id_len (m : OrderIdMap) : nat := size (to_exchange m).
Definition id_is_empty (m : OrderIdMap) : bool := bool_decide (to_exchange m = ∅).
Definition id_clear (m : OrderIdMap) : OrderIdMap := mkOrderIdMap ∅ ∅ ∅.

(** The two maps are inverse to each other. *)
Definition inverse (m : OrderIdMap) : Prop :=
  ∀ i e, get_exchange_id i m = Some e ↔ get_internal_id e m = Some i.

Lemma inverse_new : inverse id_map_new.
Proof. intros i e. unfold get_exchange_id, get_internal_id. simpl. by rewrite !lookup_empty. Qed.

(** Kept by an insertion whose ids are both new, and by every removal. *)
Lemma inverse_insert i e m : inverse m → get_exchange_id i m = None → get_internal_id e m = None →
  inverse (id_insert i e m).
Proof.
  unfold inverse, get_exchange_id, get_internal_id. intros Hm Hi He i' e'. simpl.
  destruct (decide (i = i')) as [<-|Hne]; destruct (decide (e = e')) as [<-|Hne'];
    rewrite ?lookup_insert_eq, ?lookup_insert_ne by done; [done|..]; [| |apply Hm].
  - split; [by intros [= ->]|]. intros H%Hm. congruence.
  - split; [|by intros [= ->]]. intros H%Hm. congruence.
Qed.

Lemma inverse_remove i m : inverse m → inverse (id_remove i m).
Proof.
  unfold inverse, id_remove, get_exchange_id, get_internal_id. intros Hm.
  destruct (to_exchange m !! i) as [e|] eqn:E; [|done]. intros i' e'. simpl.
  rewrite !lookup_delete_Some, Hm. split; intros [Hne H]; (split; [|done]); intros <-.
  - apply Hm in E. congruence.
  - apply Hm in H. congruence.
Qed.

(** Re-inserting an order under a new venue id leaves the old venue id behind. *)
Lemma reinsert_leaves_stale_id i e e' m : e ≠ e' →
  get_internal_id e (id_remove i (id_insert i e' (id_insert i e m))) = Some i.
Proof.
  intros Hne. unfold id_remove, get_internal_id. simpl. rewrite lookup_insert_eq. simpl.
  rewrite lookup_delete_ne, lookup_insert_ne by done. by rewrite lookup_insert_eq.
Qed.

(** Removing an order keeps its client id. *)
Lemma remove_keeps_client_id i c m : get_by_client_id c (id_remove i m) = get_by_client_id c m.
Proof. unfold id_remove. by destruct (to_exchange m !! i). Qed.

(** ** Event sequence numbers *)
Local Open Scope Z_scope.
Definition PRUNE_THRESHOLD : Z := 100000.
Definition PRUNE_KEEP : Z := 50000.

Record EventDeduplicator := mkEventDeduplicator { seen : gset Z; max_seen : Z }.

Definition dedup_new : EventDeduplicator := mkEventDeduplicator ∅ 0.
Definition from_seq (start_seq : Z) : EventDeduplicator := mkEventDeduplicator ∅ start_seq.

(** [max_seen.saturating_sub(PRUNE_KEEP)] *)
Definition cutoff (d : EventDeduplicator) : Z := Z.max 0 (max_seen d - PRUNE_KEEP).

Definition maybe_prune (d : EventDeduplicator) : EventDeduplicator :=
  if Z.of_nat (size (seen d)) <=? PRUNE_THRESHOLD then d
  else mkEventDeduplicator (filter (λ s, cutoff d < s) (seen d)) (max_seen d).

Definition check (seq : Z) (d : EventDeduplicator) : bool * EventDeduplicator :=
  if max_seen d <? seq then (true, maybe_prune (mkEventDeduplicator ({[seq]} ∪ seen d) seq))
  else
    let fresh := bool_decide (seq ∉ seen d) in
    let d := mkEventDeduplicator ({[seq]} ∪ seen d) (max_seen d) in
    (fresh, if fresh then maybe_prune d else d).

Definition tracked_len (d : EventDeduplicator) : nat := size (seen d).

Definition checks (ns : list Z) (d : EventDeduplicator) : EventDeduplicator :=
  fold_left (λ d n, (check n d).2) ns d.

(** The set holds checked numbers only, and all of them above the cutoff. *)
Definition dedup_inv (start_seq : Z) (ns : list Z) (d : EventDeduplicator) : Prop :=
  max_seen d = foldr Z.max start_seq ns ∧ (∀ n, n ∈ seen d → n ∈ ns) ∧
  (∀ n, n ∈ ns → cutoff d < n → n ∈ seen d).

Lemma dedup_inv_prune k ns d : dedup_inv k ns d → dedup_inv k ns (maybe_prune d).
Proof.
  unfold maybe_prune. destruct (_ <=? _); [done|]. intros (Hm & Hs & Hc). split; [done|].
  split; simpl; intros n; rewrite elem_of_filter; [by intros [_ ?]; apply Hs|].
  intros Hn Hcut. split; [done|]. by apply Hc.
Qed.

Lemma foldr_max_acc k ns x : foldr Z.max k (ns ++ [x]) = Z.max x (foldr Z.max k ns).
Proof. induction ns as [|y ns IH]; simpl; [done|]. rewrite IH. lia. Qed.

Lemma dedup_inv_check k ns d n : dedup_inv k ns d → dedup_inv k (ns ++ [n]) (check n d).2.
Proof.
  intros (Hm & Hs & Hc). unfold check.
  assert (Hadd : ∀ m, m = foldr Z.max k (ns ++ [n]) →
    dedup_inv k (ns ++ [n]) (mkEventDeduplicator ({[n]} ∪ seen d) m)).
  { intros m ->. split; [done|]. unfold cutoff in *. simpl. rewrite foldr_max_acc, <- Hm.
    split; intros n'; rewrite elem_of_app, elem_of_union, elem_of_singleton, list_elem_of_singleton.
    - intros [->|H]; [by right|left; by apply Hs].
    - intros [H| ->] Hcut; [right; apply Hc; [done|lia]|by left]. }
  rewrite foldr_max_acc, <- Hm in Hadd.
  destruct (Z.ltb_spec (max_seen d) n) as [Hlt|Hge]; cbn [snd].
  - apply dedup_inv_prune, Hadd. lia.
  - specialize (Hadd (max_seen d) ltac:(lia)). destruct (bool_decide _); [by apply dedup_inv_prune|done].
Qed.

Lemma dedup_inv_checks k ns : dedup_inv k ns (checks ns (from_seq k)).
Proof.
  induction ns as [|n ns IH] using rev_ind.
  { split; [done|]. split; intros n; [set_solver|by intros H%elem_of_nil]. }
  unfold checks. rewrite fold_left_app. by apply dedup_inv_check.
Qed.

(** After any checks a number not checked before is accepted, and a number
    checked before is rejected while it is within the last 50,000 below the
    highest one; the watermark is the maximum and never goes back. *)
Theorem dedup_accepts_once k ns n :
  let d := checks ns (from_seq k) in
  max_seen d = foldr Z.max k ns ∧
  (n ∉ ns → (check n d).1 = true) ∧
  (n ∈ ns → Z.max 0 (max_seen d - PRUNE_KEEP) < n → (check n d).1 = false).
Proof.
  intros d. destruct (dedup_inv_checks k ns) as (Hm & Hs & Hc). fold d in Hm, Hs, Hc.
  split; [done|]. unfold check. split.
  - intros Hn. destruct (max_seen d <? n); [done|]. cbn [fst]. apply bool_decide_eq_true_2.
    intros H. by apply Hn, Hs.
  - intros Hn Hcut. rewrite (proj2 (Z.ltb_ge (max_seen d) n)).
    + cbn [fst]. apply bool_decide_eq_false_2. intros H. by apply H, Hc.
    + rewrite Hm. clear -Hn. induction Hn as [|y n ns Hn IH]; simpl; lia.
Qed.

(** Below that window a repeat is taken for a late arrival: the number was
    pruned, and the watermark test does not reject it. *)
Lemma pruned_repeat_accepted d m n : n ∈ seen d → 0 < n ≤ m - PRUNE_KEEP → max_seen d < m →
  m ∉ seen d → PRUNE_THRESHOLD ≤ Z.of_nat (size (seen d)) → (check n (check m d).2).1 = true.
Proof.
  intros Hn Hle Hm Hmd Hsz. unfold check at 2. rewrite (proj2 (Z.ltb_lt (max_seen d) m)) by done.
  cbn [snd]. unfold maybe_prune. cbn [seen max_seen].
  rewrite size_union by set_solver. rewrite size_singleton, (proj2 (Z.leb_gt _ PRUNE_THRESHOLD)) by lia.
  unfold check, cutoff. cbn [seen max_seen]. unfold PRUNE_KEEP in *.
  rewrite (proj2 (Z.ltb_ge m n)) by lia. cbn [fst]. apply bool_decide_eq_true_2.
  rewrite elem_of_filter. intros [H _]. lia.
Qed.

(** ** Witnesses *)
Lemma dedup_accepts_once_witness :
  (check 5 (checks [3; 5; 4] dedup_new)).1 = false ∧ (check 2 (checks [3; 5; 4] dedup_new)).1 = true.
Proof.
  destruct (dedup_accepts_once 0 [3; 5; 4] 5) as (_ & _ & H).
  destruct (dedup_accepts_once 0 [3; 5; 4] 2) as (_ & H2 & _).
  split; [apply H|apply H2]; [right; left|vm_compute; reflexivity|].
  rewrite !elem_of_cons. intros [?|[?|[?|?%elem_of_nil]]]; done.
Defined.
