(* ===== verification/Json.v ===== *)
(** * JSON values

    [serde_json::Value] is a parameter: the class [Json] has the queries the
    program makes, [JsonDecimal] the conversions to a decimal. A
    [serde_json::Map] is an ordered map, iterated in key order. *)
From stdpp Require Import base gmap list strings sorting pretty.
From Stdlib Require Import ZArith QArith Lia.
From S2P Require Import Prelude Decimal Bytes.
Local Open Scope nat_scope.

Inductive JsonType := JNull | JBool | JNumber | JString | JArray | JObject.

#[export] Instance JsonType_eq_dec : EqDecision JsonType.
Proof. solve_decision. Defined.

(** The variant, the string, the boolean and the unsigned integer with their
    constructors ([json!]), the integers, the object contents in the map's
    iteration order, the array elements, and the compact text ([to_string]). *)
Class Json := {
  json : Type;
  json_type : json → JsonType;
  json_null : json;
  json_as_str : json → option string;
  json_string : string → json;
  json_as_bool : json → option bool;
  json_bool : bool → json;
  json_is_i64 : json → bool;
  json_is_u64 : json → bool;
  json_as_u64 : json → option Z;
  json_u64 : Z → json;
  json_text : json → string;
  json_entries : json → list (string * json);
  json_as_i64 : json → option Z;
  json_elements : json → list json;
}.

(** A constructed value answers the query of its kind, and no other. *)
Class JsonLaws (J : Json) : Prop := {
  type_null : json_type json_null = JNull;
  as_str_string s : json_as_str (json_string s) = Some s;
  as_bool_bool b : json_as_bool (json_bool b) = Some b;
  as_u64_u64 n : (0 ≤ n ≤ u64_max)%Z → json_as_u64 (json_u64 n) = Some n;
  as_u64_range v n : json_as_u64 v = Some n → is_u64 n;
}.

(** [serde_json::Map<String, Value>] *)
Abbreviation json_map := (gmap string json).

Section Map.
Context {J : Json}.

Definition map_iter (m : json_map) : list (string * json) :=
  sort_by (λ a b, Stdlib.Strings.String.leb a.1 b.1) (map_to_list m).

Lemma map_iter_elem (m : json_map) k v : (k, v) ∈ map_iter m ↔ m !! k = Some v.
Proof. unfold map_iter. rewrite sort_by_perm. apply elem_of_map_to_list. Qed.
End Map.

(** [parse_decimal] is [Decimal::from_str(s)] with the error's text; [json_f64_decimal] is
    [as_f64] followed by [Decimal::try_from(f).ok()]; [json_i64_decimal] is
    [as_i64] followed by [Decimal::from]. *)
Class JsonDecimal {D : Decimal} {J : Json} := {
  parse_decimal : string → result dec string;
  json_f64_decimal : json → option (option dec);
  json_i64_decimal : json → option dec;
}.

(** ** An instance for closed examples: scalars only *)
Inductive flat_value := VNull | VBool (b : bool) | VInt (z : Z) | VText (s : string).

#[export] Instance flat_json : Json := {|
  json := flat_value;
  json_type v := match v with VNull => JNull | VBool _ => JBool | VInt _ => JNumber | VText _ => JString end;
  json_null := VNull;
  json_as_str v := match v with VText s => Some s | _ => None end;
  json_string := VText;
  json_as_bool v := match v with VBool b => Some b | _ => None end;
  json_bool := VBool;
  json_is_i64 v := match v with VInt z => (- 2 ^ 63 <=? z)%Z && (z <? 2 ^ 63)%Z | _ => false end;
  json_is_u64 v := match v with VInt z => (0 <=? z)%Z && (z <=? u64_max)%Z | _ => false end;
  json_as_u64 v := match v with VInt z => if (0 <=? z)%Z && (z <=? u64_max)%Z then Some z else None
                   | _ => None end;
  json_u64 := VInt;
  json_text v := match v with VNull => "null" | VBool b => if b then "true" else "false"
                 | VInt z => pretty z | VText s => s end;
  json_entries _ := [];
  json_as_i64 v := match v with VInt z => if (- 2 ^ 63 <=? z)%Z && (z <? 2 ^ 63)%Z then Some z else None | _ => None end;
  json_elements _ := [];
|}.

#[export] Instance flat_json_laws : JsonLaws flat_json.
Proof.
  split; [done..| |].
  - intros n Hn. cbn [json_as_u64 flat_json json_u64].
    destruct (0 <=? n)%Z eqn:E1, (n <=? u64_max)%Z eqn:E2; simpl; try done; lia.
  - intros [| |z|] n; cbn; try done. destruct (0 <=? z)%Z eqn:E1, (z <=? u64_max)%Z eqn:E2; cbn; try done.
    intros [= <-]. unfold is_u64. lia.
Qed.

#[export] Instance flat_decimal : JsonDecimal (D := Qc_decimal) := {|
  parse_decimal s := match parse_uint u64_max s with Some z => Ok (dlit z 0) | None => Err "Invalid decimal" end;
  json_f64_decimal v := match v with VInt z => Some (Some (dlit z 0)) | _ => None end;
  json_i64_decimal v := match v with VInt z => Some (dlit z 0) | _ => None end;
|}.

(** ** An instance with arrays and objects *)
Inductive tree_value :=
| TNull
| TBool (b : bool)
| TInt (z : Z)
| TText (s : string)
| TArray (l : list tree_value)
| TObject (l : list (string * tree_value)).

Fixpoint tree_text (v : tree_value) : string :=
  match v with
  | TNull => "null"
  | TBool b => if b then "true" else "false"
  | TInt z => pretty z
  | TText s => s
  | TArray l => "[" +:+ String.concat "," (map tree_text l) +:+ "]"
  | TObject l => "{" +:+ String.concat "," (map (λ x, x.1 +:+ ":" +:+ tree_text x.2) l) +:+ "}"
  end.

Definition tree_json : Json := {|
  json := tree_value;
  json_type v := match v with TNull => JNull | TBool _ => JBool | TInt _ => JNumber | TText _ => JString
                 | TArray _ => JArray | TObject _ => JObject end;
  json_null := TNull;
  json_as_str v := match v with TText s => Some s | _ => None end;
  json_string := TText;
  json_as_bool v := match v with TBool b => Some b | _ => None end;
  json_bool := TBool;
  json_is_i64 v := match v with TInt z => (- 2 ^ 63 <=? z)%Z && (z <? 2 ^ 63)%Z | _ => false end;
  json_is_u64 v := match v with TInt z => (0 <=? z)%Z && (z <=? u64_max)%Z | _ => false end;
  json_as_u64 v := match v with TInt z => if (0 <=? z)%Z && (z <=? u64_max)%Z then Some z else None
                   | _ => None end;
  json_u64 := TInt;
  json_text := tree_text;
  json_entries v := match v with TObject l => l | _ => [] end;
  json_as_i64 v := match v with TInt z => if (- 2 ^ 63 <=? z)%Z && (z <? 2 ^ 63)%Z then Some z else None | _ => None end;
  json_elements v := match v with TArray l => l | _ => [] end;
|}.

Definition tree_decimal : JsonDecimal (D := Qc_decimal) (J := tree_json) :=
  @Build_JsonDecimal Qc_decimal tree_json
    (λ s, match parse_uint u64_max s with Some z => Ok (dlit z 0) | None => Err "Invalid decimal" end)
    (λ v : tree_value, match v with TInt z => Some (Some (dlit z 0)) | _ => None end)
    (λ v : tree_value, match v with TInt z => Some (dlit z 0) | _ => None end).

Lemma tree_json_laws : JsonLaws tree_json.
Proof.
  split; [done..| |].
  - intros n Hn. cbn [json_as_u64 tree_json json_u64].
    destruct (0 <=? n)%Z eqn:E1, (n <=? u64_max)%Z eqn:E2; simpl; try done; lia.
  - intros [| |z| | |] n; cbn; try done. destruct (0 <=? z)%Z eqn:E1, (z <=? u64_max)%Z eqn:E2; cbn; try done.
    intros [= <-]. unfold is_u64. lia.
Qed.
