(* ===== verification/Graph.v ===== *)
(** * Strategy graphs ([crates/strategy-graph/src/{types,node,graph}.rs])

    The operator-authored graph, its validation against a catalog and the
    topological order the evaluator runs in. Node configurations are JSON
    values of [serde_json], a parameter (the class [Json]). *)
From stdpp Require Import base gmap sets list strings sorting.
From Stdlib Require Import ZArith Lia Ascii.
From S2P Require Import Prelude Bytes Json.
Local Open Scope nat_scope.
Local Open Scope prog_scope.

(** [NodeId] is a [Uuid]. *)
Abbreviation NodeId := N.

Inductive PortType :=
| PtNumber | PtBool | PtUnit | PtString | PtKillLevel | PtStrategyKind | PtPairClass | PtQuotes.

#[export] Instance PortType_eq_dec : EqDecision PortType.
Proof. solve_decision. Defined.

Record PortRef := mkPortRef { pr_node : NodeId; pr_port : string }.
Record Edge := mkEdge { e_from : PortRef; e_to : PortRef }.

Inductive Scope :=
| ScopeSymbol (s : string)
| ScopeAssetClass (s : string)
| ScopeClient (s : string)
| ScopeGlobal.

(** [ConfigWidget]; the bounds and steps only steer the form. *)
Inductive ConfigWidget :=
| WNumber
| WInteger
| WText
| WBool
| WEnum (options : list string).

Record ConfigField := mkConfigField { cf_name : string; cf_widget : ConfigWidget }.

Record KindShape := mkKindShape {
  ks_inputs : list (string * PortType);
  ks_outputs : list (string * PortType);
  ks_restricted : bool;
  ks_config_schema : list ConfigField;
}.

(** [iter().find(|(n, _)| n == name)] *)
Fixpoint find_port (name : string) (l : list (string * PortType)) : option PortType :=
  match l with
  | [] => None
  | (n, t) :: l' => if decide (n = name) then Some t else find_port name l'
  end.

Definition shape_input (s : KindShape) (name : string) : option PortType :=
  find_port name (ks_inputs s).
Definition shape_output (s : KindShape) (name : string) : option PortType :=
  find_port name (ks_outputs s).

Definition CURRENT_SCHEMA_VERSION : Z := 1.
Definition MAX_GRAPH_DEPTH : nat := 128.

Inductive ValidationError :=
| UnsupportedVersion (got expected : Z)
| DuplicateNodeId (n : NodeId)
| DanglingEdge (e : Edge)
| PortTypeMismatch (e : Edge) (from_ty to_ty : PortType)
| Cycle (n : NodeId)
| MultipleInputs (to : NodeId) (to_port : string) (count : nat)
| NoSpreadMultSink
| DepthExceeded (depth limit : nat)
| UnknownKind (kind : string)
| RestrictedNotAllowed (kind : string)
| UnknownConfigField (node : NodeId) (kind field : string) (allowed : list string)
| InvalidConfigFieldType (node : NodeId) (kind field expected got : string)
| InvalidConfigEnumValue (node : NodeId) (kind field value : string) (options : list string)
| UnknownVenue (node : NodeId) (kind field venue : string) (known : list string).

Record TopoOrder := mkTopoOrder { order : list NodeId; depth : nat }.

(** ** Number parsing used by the configuration check *)

(** [str::parse::<i64>]: an optional sign and digits, in range. *)
Definition parses_i64 (s : string) : bool :=
  match s with
  | String c s' =>
      if decide (c = "-"%char) then
        match s' with
        | "" => false
        | _ => match parse_digits (2 ^ 63) 0 s' with Some _ => true | None => false end
        end
      else match parse_uint (2 ^ 63 - 1) s with Some _ => true | None => false end
  | "" => false
  end.

(** The digits at the front of a string are dropped and counted. *)
Fixpoint skip_digits (s : string) (n : nat) : nat * string :=
  match s with
  | String c s' => match digit_val c with Some _ => skip_digits s' (S n) | None => (n, s) end
  | "" => (n, s)
  end.

Definition skip_sign (s : string) : string :=
  match s with
  | String c s' => if decide (c = "+"%char ∨ c = "-"%char) then s' else s
  | "" => s
  end.

(** What may follow the mantissa: nothing, or an exponent with digits. *)
Definition exponent_ok (s : string) : bool :=
  match s with
  | "" => true
  | String c s' =>
      if decide (c = "e"%char ∨ c = "E"%char) then
        let '(n, rest) := skip_digits (skip_sign s') 0 in
        (0 <? n) && bool_decide (rest = "")
      else false
  end.

Definition ascii_lower (c : ascii) : ascii :=
  if in_range 65 90 c then ascii_of_N (Z.to_N (byte_of c + 32)) else c.
Fixpoint str_ascii_lower (s : string) : string :=
  match s with "" => "" | String c s' => String (ascii_lower c) (str_ascii_lower s') end.

(** [str::parse::<f64>]: sign, then inf, infinity, nan or a decimal. *)
Definition parses_f64 (s : string) : bool :=
  let s := skip_sign s in
  let w := str_ascii_lower s in
  if decide (w = "inf" ∨ w = "infinity" ∨ w = "nan") then true
  else
    let '(n, rest) := skip_digits s 0 in
    match rest with
    | String c rest' =>
        if decide (c = "."%char) then
          let '(m, rest') := skip_digits rest' 0 in (0 <? n + m) && exponent_ok rest'
        else (0 <? n) && exponent_ok rest
    | "" => 0 <? n
    end.

Section Graph.
Context {J : Json} {I : HashMapIter}.

Record Node := mkNode { n_id : NodeId; n_kind : string; n_config : json }.

Record Graph := mkGraph {
  version : Z;
  g_name : string;
  g_scope : Scope;
  nodes : list Node;
  edges : list Edge;
  stale_hold_ms : Z;
}.

Definition default_stale_hold_ms : Z := 30000.

Definition empty (name : string) (scope : Scope) : Graph :=
  mkGraph CURRENT_SCHEMA_VERSION name scope [] [] default_stale_hold_ms.

Definition node (id : NodeId) (g : Graph) : option Node :=
  List.find (λ n, bool_decide (n_id n = id)) (nodes g).

(** ** Configuration check *)
Definition describe_json_type (v : json) : string :=
  match json_type v with
  | JNull => "null" | JBool => "bool" | JNumber => "number"
  | JString => "string" | JArray => "array" | JObject => "object"
  end.

Definition widget_expected (w : ConfigWidget) : string :=
  match w with
  | WNumber => "number" | WInteger => "integer" | WText => "string"
  | WBool => "bool" | WEnum _ => "enum"
  end.

(** [v.as_str().map(p).unwrap_or(false)] *)
Definition str_is (p : string → bool) (v : json) : bool :=
  match json_as_str v with Some s => p s | None => false end.

(** [cfg.get(name)] on a JSON object. *)
Definition json_get (cfg : list (string * json)) (name : string) : option json :=
  snd <$> List.find (λ e, bool_decide (e.1 = name)) cfg.

Definition check_field (n : Node) (cfg : list (string * json)) (f : ConfigField) :
    result unit ValidationError :=
  match json_get cfg (cf_name f) with
  | None => Ok tt
  | Some v =>
      if decide (json_type v = JNull) then Ok tt
      else
        let? ok := match cf_widget f with
          | WNumber => Ok (bool_decide (json_type v = JNumber) || str_is parses_f64 v)
          | WInteger => Ok (json_is_i64 v || json_is_u64 v || str_is parses_i64 v)
          | WText => Ok (bool_decide (json_type v = JString))
          | WBool => Ok (bool_decide (json_type v = JBool))
          | WEnum options =>
              match json_as_str v with
              | None => Err (InvalidConfigFieldType (n_id n) (n_kind n) (cf_name f)
                               "enum string" (describe_json_type v))
              | Some s =>
                  if bool_decide (s ∈ options) then Ok true
                  else Err (InvalidConfigEnumValue (n_id n) (n_kind n) (cf_name f) s options)
              end
          end in
        if ok : bool then Ok tt
        else Err (InvalidConfigFieldType (n_id n) (n_kind n) (cf_name f)
                    (widget_expected (cf_widget f)) (describe_json_type v))
  end.

(** A loop that returns at the first error. *)
Fixpoint check_all {A} (f : A → result unit ValidationError) (l : list A) :
    result unit ValidationError :=
  match l with
  | [] => Ok tt
  | x :: l' => let? _ := f x in check_all f l'
  end.

(** The error lists the allowed names in the schema's order; the code lists
    them in the order of a hash set. *)
Definition check_key (n : Node) (s : KindShape) (key : string) : result unit ValidationError :=
  if bool_decide (key ∈ cf_name <$> ks_config_schema s) then Ok tt
  else Err (UnknownConfigField (n_id n) (n_kind n) key (cf_name <$> ks_config_schema s)).

Definition validate_node_config (n : Node) (s : KindShape) : result unit ValidationError :=
  match json_type (n_config n) with
  | JObject =>
      let cfg := json_entries (n_config n) in
      match ks_config_schema s with
      | [] => Ok tt
      | schema =>
          let? _ := check_all (check_key n s) cfg.*1 in
          check_all (check_field n cfg) schema
      end
  | _ => Ok tt
  end.

(** ** The checks of [validate], in order *)
Context (resolve_kind : string → option KindShape) (allow_restricted : bool) (fresh_id : NodeId).

Fixpoint check_ids (seen : gset NodeId) (l : list Node) : result unit ValidationError :=
  match l with
  | [] => Ok tt
  | n :: l' =>
      if decide (n_id n ∈ seen) then Err (DuplicateNodeId (n_id n))
      else check_ids ({[n_id n]} ∪ seen) l'
  end.

Fixpoint resolve_shapes (l : list Node) (shapes : gmap NodeId KindShape) :
    result (gmap NodeId KindShape) ValidationError :=
  match l with
  | [] => Ok shapes
  | n :: l' =>
      match resolve_kind (n_kind n) with
      | None => Err (UnknownKind (n_kind n))
      | Some shape =>
          if ks_restricted shape && negb allow_restricted
          then Err (RestrictedNotAllowed (n_kind n))
          else
            let? _ := validate_node_config n shape in
            resolve_shapes l' (<[n_id n := shape]> shapes)
      end
  end.

Definition to_key (e : Edge) : NodeId * string := (pr_node (e_to e), pr_port (e_to e)).

Definition fan_in (es : list Edge) : gmap (NodeId * string) nat :=
  fold_left (λ m e, <[to_key e := default 0 (m !! to_key e) + 1]> m) es ∅.

Definition check_fan_in (es : list Edge) : result unit ValidationError :=
  match List.find (λ x, 1 <? x.2) (hm_iter (fan_in es)) with
  | Some ((to, port), count) => Err (MultipleInputs to port count)
  | None => Ok tt
  end.

Definition check_edge (shapes : gmap NodeId KindShape) (e : Edge) : result unit ValidationError :=
  match shapes !! pr_node (e_from e), shapes !! pr_node (e_to e) with
  | Some src, Some dst =>
      match shape_output src (pr_port (e_from e)), shape_input dst (pr_port (e_to e)) with
      | Some src_ty, Some dst_ty =>
          if decide (src_ty = dst_ty) then Ok tt else Err (PortTypeMismatch e src_ty dst_ty)
      | _, _ => Err (DanglingEdge e)
      end
  | _, _ => Err (DanglingEdge e)
  end.

(** ** Kahn's algorithm *)
Definition indegrees (ids : list NodeId) (es : list (NodeId * NodeId)) : gmap NodeId N :=
  fold_left (λ m e, <[e.2 := (default 0%N (m !! e.2) + 1)%N]> m) es
    (hm_collect ((λ id, (id, 0%N)) <$> ids)).

Definition successors (ids : list NodeId) (es : list (NodeId * NodeId)) :
    gmap NodeId (list NodeId) :=
  fold_left (λ m e, <[e.1 := default [] (m !! e.1) ++ [e.2]]> m) es
    (hm_collect ((λ id, (id, [])) <$> ids)).

(** [*d -= 1] on a [usize]. *)
Definition usize_pred (d : N) : N := if (d =? 0)%N then (2 ^ 64 - 1)%N else (d - 1)%N.

(** The children of a popped node; [None] is the failed [expect]. *)
Fixpoint relax (children : list NodeId) (indeg : gmap NodeId N) (ready : list NodeId) :
    option (gmap NodeId N * list NodeId) :=
  match children with
  | [] => Some (indeg, ready)
  | c :: cs =>
      match indeg !! c with
      | None => None
      | Some d =>
          let d := usize_pred d in
          relax cs (<[c := d]> indeg) (if (d =? 0)%N then ready ++ [c] else ready)
      end
  end.

(** The [while] loop; [None] also when the fuel is out, which
    [kahn_total] excludes for one unit per node. *)
Fixpoint kahn (fuel : nat) (fwd : gmap NodeId (list NodeId)) (ready : list NodeId)
    (indeg : gmap NodeId N) (acc : list NodeId) : option (list NodeId * gmap NodeId N) :=
  match ready with
  | [] => Some (acc, indeg)
  | id :: ready' =>
      match fuel with
      | 0 => None
      | S fuel' =>
          match fwd !! id with
          | None => kahn fuel' fwd ready' indeg (acc ++ [id])
          | Some children =>
              match relax children indeg ready' with
              | None => None
              | Some (indeg', ready'') => kahn fuel' fwd ready'' indeg' (acc ++ [id])
              end
          end
      end
  end.

Definition initial_ready (indeg : gmap NodeId N) : list NodeId :=
  (List.filter (λ x, (x.2 =? 0)%N) (hm_iter indeg)).*1.

Definition topo_sort (ids : list NodeId) (es : list (NodeId * NodeId)) :
    option (list NodeId * gmap NodeId N) :=
  let indeg := indegrees ids es in
  kahn (length ids) (successors ids es) (initial_ready indeg) indeg [].

(** ** Depth *)
Definition raise_depth (d : nat) (m : gmap NodeId nat) (child : NodeId) : gmap NodeId nat :=
  let entry := default 0 (m !! child) in
  <[child := if entry <? d + 1 then d + 1 else entry]> m.

Definition relax_depth (fwd : gmap NodeId (list NodeId)) (m : gmap NodeId nat) (id : NodeId) :
    gmap NodeId nat :=
  let d := default 0 (m !! id) in
  match fwd !! id with
  | Some children => fold_left (raise_depth d) children m
  | None => m
  end.

Definition depth_map (ord : list NodeId) (fwd : gmap NodeId (list NodeId)) : gmap NodeId nat :=
  fold_left (relax_depth fwd) ord (hm_collect ((λ id, (id, 0)) <$> ord)).

Definition longest_path_length (ord : list NodeId) (fwd : gmap NodeId (list NodeId)) : nat :=
  max_list (hm_values (depth_map ord fwd)).

Definition edge_pair (e : Edge) : NodeId * NodeId := (pr_node (e_from e), pr_node (e_to e)).

(** [validate]; [Panicked] only if the sort fails. *)
Definition validate (g : Graph) : outcome (result TopoOrder ValidationError) :=
  if negb (version g =? CURRENT_SCHEMA_VERSION)%Z
  then Done (Err (UnsupportedVersion (version g) CURRENT_SCHEMA_VERSION))
  else
    match (let? _ := check_ids ∅ (nodes g) in
           let? shapes := resolve_shapes (nodes g) ∅ in
           let? _ := check_fan_in (edges g) in
           check_all (check_edge shapes) (edges g)) with
    | Err e => Done (Err e)
    | Ok _ =>
        let ids := n_id <$> nodes g in
        let es := edge_pair <$> edges g in
        match topo_sort ids es with
        | None => Panicked
        | Some (ord, indeg) =>
            if negb (length ord =? length (nodes g)) then
              Done (Err (Cycle (default fresh_id
                (fst <$> List.find (λ x, (0 <? x.2)%N) (hm_iter indeg)))))
            else
              let d := longest_path_length ord (successors ids es) in
              if MAX_GRAPH_DEPTH <? d then Done (Err (DepthExceeded d MAX_GRAPH_DEPTH))
              else if existsb (λ n, bool_decide (n_kind n = "Out.SpreadMult")) (nodes g)
              then Done (Ok (mkTopoOrder ord d))
              else Done (Err NoSpreadMultSink)
        end
    end.
End Graph.

(** ** Venue references

    [str::to_lowercase] uses the Unicode tables, a parameter here. *)
Section Venues.
Context {J : Json} {I : HashMapIter} (to_lowercase : string → string).

Definition VENUE_FIELDS : list string := ["venue"; "spot_venue"; "perp_venue"].

(** The body of the inner loop, for a non-empty string field. *)
Definition check_venue (known : gset string) (n : Node) (cfg : list (string * json))
    (field : string) : result unit ValidationError :=
  match json_get cfg field ≫= json_as_str with
  | None => Ok tt
  | Some v =>
      if decide (v = "") then Ok tt
      else if decide (to_lowercase v ∈ known) then Ok tt
      else Err (UnknownVenue (n_id n) (n_kind n) field v
                  (sort_by Stdlib.Strings.String.leb (elements known)))
  end.

Definition check_node_venues (known : gset string) (n : Node) : result unit ValidationError :=
  match json_type (n_config n) with
  | JObject => check_all (check_venue known n (json_entries (n_config n))) VENUE_FIELDS
  | _ => Ok tt
  end.

Definition validate_venues (known : list string) (g : Graph) : result unit ValidationError :=
  check_all (check_node_venues (list_to_set (to_lowercase <$> known))) (nodes g).
End Venues.

(** ** Kahn's algorithm: counting edges *)
Section Kahn.
Context {I : HashMapIter}.
Implicit Types (es : list (NodeId * NodeId)) (u v : NodeId).

Definition occ v (l : list NodeId) : nat := length (filter (λ x, x = v) l).

(** The edges into [v] whose source is not in [ord] yet. *)
Definition waits_for (ord : list NodeId) v : NodeId * NodeId → Prop :=
  λ e, e.2 = v ∧ e.1 ∉ ord.
#[local] Instance waits_for_dec ord v e : Decision (waits_for ord v e).
Proof. unfold waits_for. apply _. Defined.
Definition pending es (ord : list NodeId) v : nat := length (filter (waits_for ord v) es).

Definition children es u : list NodeId := snd <$> filter (λ e, e.1 = u) es.

Lemma occ_cons v x l : occ v (x :: l) = (if decide (x = v) then 1 else 0) + occ v l.
Proof. unfold occ. rewrite filter_cons. by case_decide. Qed.

Lemma occ_elem v l : v ∈ l ↔ 0 < occ v l.
Proof.
  unfold occ. split.
  - intros Hv. assert (Hin : v ∈ filter (λ x, x = v) l) by by apply list_elem_of_filter.
    destruct (filter _ l); [by apply not_elem_of_nil in Hin|]. simpl. lia.
  - intros Hpos. destruct (filter (λ x, x = v) l) as [|x l'] eqn:E; [simpl in Hpos; lia|].
    assert (Hin : x ∈ filter (λ x, x = v) l) by (rewrite E; left).
    by apply list_elem_of_filter in Hin as [-> ?].
Qed.

Lemma children_elem es u v : v ∈ children es u ↔ (u, v) ∈ es.
Proof.
  unfold children. rewrite list_elem_of_fmap. split.
  - intros ([u' v'] & -> & [<- Hin]%list_elem_of_filter). done.
  - intros Hin. exists (u, v). split; [done|]. by apply list_elem_of_filter.
Qed.

(** Popping [u] takes its edges off the pending counts. *)
Lemma pending_snoc es ord u v : u ∉ ord →
  pending es ord v = pending es (ord ++ [u]) v + occ v (children es u).
Proof.
  intros Hu. unfold pending, children.
  assert (Hsn : ∀ a, a ∉ ord ++ [u] ↔ a ∉ ord ∧ a ≠ u)
    by (intros a; rewrite not_elem_of_app, list_elem_of_singleton; done).
  induction es as [|[a b] es IH]; [done|]. rewrite !filter_cons. cbn [fst].
  destruct (decide (a = u)) as [->|Hne]; [rewrite fmap_cons, occ_cons; cbn [snd]|];
    pose proof (Hsn a) as Ha || pose proof (Hsn u) as Ha;
    repeat case_decide; unfold waits_for in *; cbn [fst snd] in *; simpl; tauto || lia.
Qed.

Lemma pending_zero es ord v : pending es ord v = 0 ↔ ∀ u, (u, v) ∈ es → u ∈ ord.
Proof.
  unfold pending. split.
  - intros H0 u Hin. destruct (decide (u ∈ ord)) as [|Hu]; [done|]. exfalso.
    assert (Hf : (u, v) ∈ filter (waits_for ord v) es) by (apply list_elem_of_filter; by split).
    destruct (filter _ es); [by apply not_elem_of_nil in Hf|done].
  - intros Hall. destruct (filter (waits_for ord v) es) as [|[a b] l] eqn:E; [done|].
    assert (Hf : (a, b) ∈ filter (waits_for ord v) es) by (rewrite E; left).
    apply list_elem_of_filter in Hf as [[Hb Ha] Hin]. simpl in *. subst b. destruct Ha; auto.
Qed.

Lemma init_lookup {A} (x : A) ids v : NoDup ids →
  (hm_collect ((λ id, (id, x)) <$> ids) : gmap NodeId A) !! v =
  if decide (v ∈ ids) then Some x else None.
Proof.
  intros Hnd. assert (Hkeys : ((λ id, (id, x)) <$> ids).*1 = ids)
    by (rewrite <- list_fmap_compose; apply list_fmap_id).
  case_decide as Hv.
  - apply hm_collect_lookup; [by rewrite Hkeys|]. by apply (list_elem_of_fmap_2 (λ id, (id, x))).
  - apply hm_collect_absent. by rewrite Hkeys.
Qed.

Lemma waits_nil v e : waits_for [] v e ↔ e.2 = v.
Proof. unfold waits_for. pose proof (not_elem_of_nil e.1). tauto. Qed.

Lemma indegrees_lookup ids es v : NoDup ids → (∀ e, e ∈ es → e.2 ∈ ids) →
  indegrees ids es !! v = if decide (v ∈ ids) then Some (N.of_nat (pending es [] v)) else None.
Proof.
  intros Hnd Hes. unfold indegrees.
  assert (H : ∀ (m : gmap NodeId N) k,
    (∀ w, m !! w = if decide (w ∈ ids) then Some (k w) else None) →
    fold_left (λ m e, <[e.2 := (default 0%N (m !! e.2) + 1)%N]> m) es m !! v =
    if decide (v ∈ ids) then Some (k v + N.of_nat (pending es [] v))%N else None).
  { clear Hnd. induction es as [|[a b] es IH]; intros m k Hm; cbn [fold_left].
    - rewrite Hm. case_decide; [|done]. f_equal. unfold pending. simpl. lia.
    - assert (Hb : b ∈ ids) by (apply (Hes (a, b)); left).
      rewrite (IH (λ e He, Hes e (list_elem_of_further _ _ _ He)) _
        (λ w, if decide (b = w) then (k w + 1)%N else k w)).
      + case_decide; [|done]. f_equal. unfold pending. rewrite filter_cons.
        destruct (decide (waits_for [] v (a, b))) as [Hw|Hw]; rewrite waits_nil in Hw; cbn [snd] in Hw;
          [rewrite decide_True by done|rewrite decide_False by done]; simpl; lia.
      + intros w. simpl. destruct (decide (b = w)) as [->|].
        * rewrite lookup_insert_eq, Hm, !decide_True by done. done.
        * by rewrite lookup_insert_ne. }
  rewrite (H _ (λ _, 0%N)); [|intros w; by apply init_lookup]. by case_decide.
Qed.

Lemma successors_lookup ids es u : NoDup ids → (∀ e, e ∈ es → e.1 ∈ ids) →
  successors ids es !! u = if decide (u ∈ ids) then Some (children es u) else None.
Proof.
  intros Hnd Hes. unfold successors.
  assert (H : ∀ (m : gmap NodeId (list NodeId)) k,
    (∀ w, m !! w = if decide (w ∈ ids) then Some (k w) else None) →
    fold_left (λ m e, <[e.1 := default [] (m !! e.1) ++ [e.2]]> m) es m !! u =
    if decide (u ∈ ids) then Some (k u ++ children es u) else None).
  { clear Hnd. induction es as [|[a b] es IH]; intros m k Hm; cbn [fold_left].
    - rewrite Hm. case_decide; [|done]. f_equal. by rewrite app_nil_r.
    - assert (Ha : a ∈ ids) by (apply (Hes (a, b)); left).
      rewrite (IH (λ e He, Hes e (list_elem_of_further _ _ _ He)) _
        (λ w, if decide (a = w) then k w ++ [b] else k w)).
      + case_decide; [|done]. f_equal. unfold children. rewrite filter_cons. cbn [fst].
        destruct (decide (a = u)); [|done]. by rewrite <- app_assoc.
      + intros w. simpl. destruct (decide (a = w)) as [->|].
        * rewrite lookup_insert_eq, Hm, !decide_True by done. done.
        * by rewrite lookup_insert_ne. }
  rewrite (H _ (λ _, [])); [|intros w; by apply init_lookup]. by case_decide.
Qed.

(** What relaxing the children of a node does, when every child still counts
    at least the edges taken off it. *)
Lemma relax_spec (ids cs : list NodeId) indeg ready k :
  (∀ v, indeg !! v = if decide (v ∈ ids) then Some (N.of_nat (k v)) else None) →
  (∀ c, c ∈ cs → c ∈ ids) → (∀ v, occ v cs ≤ k v) →
  ∃ indeg' new, relax cs indeg ready = Some (indeg', ready ++ new) ∧
    (∀ v, indeg' !! v = if decide (v ∈ ids) then Some (N.of_nat (k v - occ v cs)) else None) ∧
    NoDup new ∧ (∀ v, v ∈ new ↔ v ∈ cs ∧ k v = occ v cs).
Proof.
  revert indeg ready k. induction cs as [|c cs IH]; intros indeg ready k Hm Hin Hk; cbn [relax].
  { exists indeg, []. rewrite app_nil_r. split; [done|]. split.
    - intros v. rewrite Hm. unfold occ. simpl. by rewrite Nat.sub_0_r.
    - split; [constructor|]. intros v. split; [by intros ?%not_elem_of_nil|].
      by intros [?%not_elem_of_nil _]. }
  assert (Hc : c ∈ ids) by (apply Hin; left).
  rewrite Hm, decide_True by done.
  assert (Hkc : 1 + occ c cs ≤ k c) by (specialize (Hk c); rewrite occ_cons, decide_True in Hk; done).
  assert (Hpred : usize_pred (N.of_nat (k c)) = N.of_nat (k c - 1)).
  { unfold usize_pred. destruct (N.eqb_spec (N.of_nat (k c)) 0); lia. }
  rewrite Hpred.
  set (ready' := if (N.of_nat (k c - 1) =? 0)%N then ready ++ [c] else ready).
  destruct (IH (<[c:=N.of_nat (k c - 1)]> indeg) ready' (λ v, if decide (c = v) then k v - 1 else k v))
    as (indeg' & new & E & Hm' & Hnd & Hnew).
  - intros v. destruct (decide (c = v)) as [->|].
    + by rewrite lookup_insert_eq, decide_True.
    + by rewrite lookup_insert_ne.
  - intros c' ?. apply Hin. by right.
  - intros v. specialize (Hk v). rewrite occ_cons in Hk. case_decide; simpl in *; lia.
  - exists indeg', (if (N.of_nat (k c - 1) =? 0)%N then c :: new else new).
    split; [|split; [|split]].
    + rewrite E. f_equal. f_equal. unfold ready'. destruct (_ =? 0)%N; [|done].
      by rewrite <- app_assoc.
    + intros v. rewrite Hm', occ_cons. destruct (decide (v ∈ ids)); [|done]. do 2 f_equal.
      case_decide; lia.
    + destruct (N.eqb_spec (N.of_nat (k c - 1)) 0); [|done]. constructor; [|done].
      intros [Hcs%occ_elem Heq]%Hnew. rewrite decide_True in Heq by done. lia.
    + intros v. pose proof (occ_elem v cs) as Hov. pose proof (Hnew v) as Hnv.
      rewrite elem_of_cons, occ_cons.
      destruct (N.eqb_spec (N.of_nat (k c - 1)) 0) as [Hz|Hz];
        rewrite ?elem_of_cons, Hnv; destruct (decide (c = v)) as [<-|Hne].
      * split; [intros _; split; [by left|lia]|by left].
      * split; [intros [->|[? ?]]; [done|auto]|intros [[->|?] ?]; [done|right; split; [done|lia]]].
      * split; [intros [? ?]; split; [by left|lia]|]. intros [_ ?]. split; [apply Hov; lia|lia].
      * split; [intros [? ?]; auto|intros [[->|?] ?]; [done|split; [done|lia]]].
Qed.

(** ** The loop invariant *)

(** Every node of [ord] comes after the sources of its edges. *)
Definition topological es (ord : list NodeId) : Prop :=
  ∀ i v, ord !! i = Some v → ∀ u, (u, v) ∈ es → ∃ j, j < i ∧ ord !! j = Some u.

(** The nodes can be numbered so that every edge goes up: no cycle. *)
Definition acyclic es : Prop := ∃ rank : NodeId → nat, ∀ u v, (u, v) ∈ es → rank u < rank v.

Context (ids : list NodeId) (es : list (NodeId * NodeId)).
Context (Hnd : NoDup ids) (Hes : ∀ e, e ∈ es → e.1 ∈ ids ∧ e.2 ∈ ids).

Record kahn_inv (ord ready : list NodeId) (indeg : gmap NodeId N) : Prop := {
  ki_nd : NoDup (ord ++ ready);
  ki_in v : v ∈ ord ++ ready → v ∈ ids;
  ki_deg v : indeg !! v = if decide (v ∈ ids) then Some (N.of_nat (pending es ord v)) else None;
  ki_ready v : v ∈ ids → v ∈ ord ++ ready ↔ pending es ord v = 0;
  ki_topo : topological es ord;
}.

Lemma topological_snoc ord u : topological es ord → pending es ord u = 0 →
  topological es (ord ++ [u]).
Proof.
  intros Ht Hp i v Hi w Hw.
  destruct (decide (i < length ord)) as [Hlt|Hge].
  - rewrite lookup_app_l in Hi by done. destruct (Ht i v Hi w Hw) as (j & Hj & Hl).
    exists j. split; [done|]. rewrite lookup_app_l by lia. done.
  - rewrite lookup_app_r in Hi by lia.
    assert (i - length ord = 0) as E by (apply lookup_lt_Some in Hi; simpl in Hi; lia).
    rewrite E in Hi. simpl in Hi. simplify_eq.
    apply pending_zero with (u := w) in Hp; [|done].
    apply list_elem_of_lookup in Hp as [j Hj]. pose proof (lookup_lt_Some _ _ _ Hj).
    exists j. split; [lia|]. by rewrite lookup_app_l.
Qed.

Lemma kahn_step ord id ready indeg : kahn_inv ord (id :: ready) indeg →
  ∃ indeg' new, relax (children es id) indeg ready = Some (indeg', ready ++ new) ∧
    kahn_inv (ord ++ [id]) (ready ++ new) indeg'.
Proof.
  intros [Ha Hb Hc Hd He].
  assert (Hid : id ∈ ids) by (apply Hb, elem_of_app; right; left).
  assert (Hpid : pending es ord id = 0) by (apply Hd; [done|apply elem_of_app; right; left]).
  assert (Hni : id ∉ ord).
  { apply NoDup_app in Ha as (_ & Ha & _). intros Hin. apply (Ha id Hin). left. }
  destruct (relax_spec ids (children es id) indeg ready (pending es ord) Hc)
    as (indeg' & new & E & Hdeg & Hnew & Helem).
  { intros c Hch%children_elem. by apply (Hes (id, c)). }
  { intros v. rewrite (pending_snoc es ord id v Hni). lia. }
  assert (Hpend : ∀ v, pending es ord v - occ v (children es id) = pending es (ord ++ [id]) v)
    by (intros v; rewrite (pending_snoc es ord id v Hni); lia).
  assert (Hsplit : ∀ v, v ∈ (ord ++ [id]) ++ ready ++ new ↔ v ∈ ord ++ id :: ready ∨ v ∈ new).
  { intros v. rewrite !elem_of_app, !elem_of_cons, elem_of_nil. tauto. }
  (* a node that becomes ready was pending before *)
  assert (Hfresh : ∀ v, v ∈ new → v ∉ ord ++ id :: ready).
  { intros v [Hch Hocc]%Helem Hin. pose proof Hch as Hch'%children_elem.
    apply Hd in Hin; [|by apply (Hes (id, v))]. apply occ_elem in Hch. lia. }
  exists indeg', new. split; [done|]. split.
  - rewrite <- app_assoc. change ([id] ++ ready ++ new) with ((id :: ready) ++ new).
    rewrite app_assoc. apply NoDup_app. split; [done|]. split; [|done].
    intros v Hin Hv. by apply (Hfresh v).
  - intros v [Hin|[Hch _]%Helem]%Hsplit; [by apply Hb|].
    apply children_elem in Hch. by apply (Hes (id, v)).
  - intros v. rewrite Hdeg. case_decide; [|done]. by rewrite Hpend.
  - intros v Hv. rewrite Hsplit, (Hd v Hv), Helem, <- Hpend.
    pose proof (pending_snoc es ord id v Hni) as Hs. split.
    + intros [Hz|[_ Hz]]; lia.
    + intros Hz. destruct (decide (pending es ord v = 0)) as [|Hnz]; [by left|right].
      split; [apply occ_elem; lia|lia].
  - by apply topological_snoc.
Qed.

Lemma kahn_run fuel ord ready indeg :
  kahn_inv ord ready indeg → length ids ≤ length ord + fuel →
  ∃ ord' indeg', kahn fuel (successors ids es) ready indeg ord = Some (ord', indeg') ∧
    kahn_inv ord' [] indeg'.
Proof.
  revert ord ready indeg. induction fuel as [|fuel IH]; intros ord ready indeg Hinv Hlen;
    (destruct ready as [|id ready]; cbn [kahn]; [by exists ord, indeg|]).
  - exfalso. destruct Hinv as [Ha Hb _ _ _].
    assert (Hle : length (ord ++ id :: ready) ≤ length ids).
    { apply submseteq_length, NoDup_submseteq; [done|]. intros v. apply Hb. }
    rewrite length_app in Hle. simpl in Hle. lia.
  - assert (Hid : id ∈ ids) by (apply (ki_in _ _ _ Hinv), elem_of_app; right; left).
    rewrite successors_lookup by (done || (intros e He; by apply Hes)).
    rewrite decide_True by done.
    destruct (kahn_step ord id ready indeg Hinv) as (indeg' & new & -> & Hinv').
    apply IH; [done|]. rewrite length_app. simpl. lia.
Qed.

Lemma kahn_start : kahn_inv [] (initial_ready (indegrees ids es)) (indegrees ids es).
Proof.
  assert (Hdeg : ∀ v, indegrees ids es !! v =
    if decide (v ∈ ids) then Some (N.of_nat (pending es [] v)) else None)
    by (intros v; apply indegrees_lookup; [done|intros e He; by apply Hes]).
  assert (Hr : ∀ v, v ∈ initial_ready (indegrees ids es) ↔ v ∈ ids ∧ pending es [] v = 0).
  { intros v. unfold initial_ready. rewrite list_elem_of_fmap. split.
    - intros ([v' d] & -> & [Hin Hd]%list_elem_of_In%filter_In).
      apply list_elem_of_In, hm_iter_elem in Hin. rewrite Hdeg in Hin. cbn [fst snd] in *.
      case_decide; [|done]. injection Hin as <-. apply N.eqb_eq in Hd. split; [done|lia].
    - intros [Hv Hp]. exists (v, 0%N). split; [done|].
      apply list_elem_of_In, filter_In. split; [|done].
      apply list_elem_of_In, hm_iter_elem. by rewrite Hdeg, decide_True, Hp. }
  split; cbn [app].
  - unfold initial_ready. eapply (sublist_NoDup _ (hm_keys (indegrees ids es))); [apply hm_keys_NoDup|].
    unfold hm_keys. apply fmap_sublist. clear. induction (hm_iter (indegrees ids es)) as [|x l IH];
      simpl; [done|]. case_match; [by constructor|by constructor].
  - intros v Hv. by apply Hr.
  - done.
  - intros v Hv. rewrite Hr. tauto.
  - intros i v Hi. by rewrite lookup_nil in Hi.
Qed.

(** The sort returns; its result is a topological enumeration of nodes. *)
Lemma topo_sort_run :
  ∃ ord indeg, topo_sort ids es = Some (ord, indeg) ∧ kahn_inv ord [] indeg.
Proof. apply kahn_run; [apply kahn_start|]. simpl. lia. Qed.

Lemma kahn_acyclic ord indeg : kahn_inv ord [] indeg → acyclic es → ord ≡ₚ ids.
Proof.
  intros [Ha Hb _ Hd _] [rank Hrank]. rewrite app_nil_r in Ha.
  setoid_rewrite app_nil_r in Hb. setoid_rewrite app_nil_r in Hd.
  apply NoDup_Permutation; [done|done|]. intros v. split; [apply Hb|].
  remember (rank v) as r eqn:Er. revert v Er.
  induction (lt_wf r) as [r _ IH]. intros v -> Hv. apply Hd; [done|].
  apply pending_zero. intros u Huv.
  apply (IH (rank u) (Hrank u v Huv) u eq_refl). by apply (Hes (u, v)).
Qed.

Lemma kahn_complete ord indeg : kahn_inv ord [] indeg → length ord = length ids → ord ≡ₚ ids.
Proof.
  intros [Ha Hb _ _ _] Hlen. rewrite app_nil_r in Ha. setoid_rewrite app_nil_r in Hb.
  apply submseteq_length_Permutation; [|lia]. by apply NoDup_submseteq.
Qed.

Lemma index_rank ord u v : topological es ord → NoDup ord → (u, v) ∈ es → v ∈ ord →
  ∃ i j, ord !! i = Some u ∧ ord !! j = Some v ∧ i < j.
Proof.
  intros Ht _ Huv [j Hj]%list_elem_of_lookup.
  destruct (Ht j v Hj u Huv) as (i & Hij & Hi). eauto.
Qed.

(** A complete topological enumeration numbers the nodes upwards. *)
Lemma topological_acyclic ord : topological es ord → ord ≡ₚ ids → acyclic es.
Proof.
  intros Ht Hp. assert (Hno : NoDup ord) by by rewrite Hp.
  exists (λ v, default 0 (fst <$> list_find (λ x, x = v) ord)). intros u v Huv.
  assert (Hv : v ∈ ord) by (rewrite Hp; by apply (Hes (u, v))).
  destruct (index_rank ord u v Ht Hno Huv Hv) as (i & j & Hi & Hj & Hlt).
  assert (Hfind : ∀ k w, ord !! k = Some w → list_find (λ x, x = w) ord = Some (k, w)).
  { intros k w Hk. apply list_find_Some. split; [done|]. split; [done|].
    intros k' y Hk' Hlt' ->. pose proof (NoDup_lookup _ _ _ _ Hno Hk Hk'). lia. }
  by rewrite (Hfind i u Hi), (Hfind j v Hj).
Qed.

(** ** Depth *)

(** A path of [k] edges that ends in [v]. *)
Inductive path : NodeId → nat → Prop :=
| path_here v : path v 0
| path_edge u v k : path u k → (u, v) ∈ es → path v (S k).

Lemma raise_all d cs (m : gmap NodeId nat) v :
  fold_left (raise_depth d) cs m !! v =
  if decide (v ∈ cs) then Some (default 0 (m !! v) `max` (d + 1)) else m !! v.
Proof.
  revert m. induction cs as [|c cs IH]; intros m; cbn [fold_left].
  { by rewrite decide_False by apply not_elem_of_nil. }
  rewrite IH. unfold raise_depth.
  assert (Hmax : ∀ e, (if e <? d + 1 then d + 1 else e) = e `max` (d + 1))
    by (intros e; destruct (Nat.ltb_spec e (d + 1)); lia).
  rewrite Hmax. destruct (decide (c = v)) as [->|Hne].
  - rewrite lookup_insert_eq, (decide_True (P := v ∈ v :: cs)) by left. simpl.
    case_decide; [f_equal; lia|done].
  - rewrite lookup_insert_ne by done.
    destruct (decide (v ∈ cs)).
    + by rewrite decide_True by by right.
    + rewrite decide_False; [done|]. by intros [?|?]%elem_of_cons.
Qed.

Definition dep (m : gmap NodeId nat) v : nat := default 0 (m !! v).

(** After the nodes of [done] were processed. *)
Record depth_inv (done : list NodeId) (m : gmap NodeId nat) : Prop := {
  di_dom v : is_Some (m !! v) ↔ v ∈ ids;
  di_real v : path v (dep m v);
  di_upper u v : u ∈ done → (u, v) ∈ es → dep m u + 1 ≤ dep m v;
}.

Lemma depth_step done id todo m :
  topological es (done ++ id :: todo) → NoDup (done ++ id :: todo) → id ∈ ids →
  depth_inv done m → depth_inv (done ++ [id]) (relax_depth (successors ids es) m id).
Proof.
  intros Ht Hno Hid [Hdom Hreal Hup]. unfold relax_depth.
  rewrite successors_lookup, decide_True by (done || (intros e He; by apply Hes)).
  set (m' := fold_left _ _ _).
  assert (Hdep : ∀ v, dep m' v = if decide ((id, v) ∈ es) then dep m v `max` (dep m id + 1) else dep m v).
  { intros v. unfold dep, m'. rewrite raise_all. pose proof (children_elem es id v) as Hch.
    destruct (decide (v ∈ children es id)), (decide ((id, v) ∈ es)); tauto || done. }
  (* a processed node has all its sources processed *)
  assert (Hlate : ∀ v, v ∈ done ++ [id] → (id, v) ∉ es).
  { intros v Hv Hin. apply list_elem_of_lookup in Hv as [i Hi].
    assert (Hi' : (done ++ id :: todo) !! i = Some v).
    { change (id :: todo) with ([id] ++ todo). rewrite app_assoc.
      apply lookup_app_l_Some. done. }
    destruct (Ht i v Hi' id Hin) as (j & Hj & Hl).
    assert (Hlen : (done ++ id :: todo) !! length done = Some id)
      by (by rewrite list_lookup_middle).
    pose proof (NoDup_lookup _ _ _ _ Hno Hl Hlen). apply lookup_lt_Some in Hi.
    rewrite length_app in Hi. simpl in Hi. lia. }
  split.
  - intros v. unfold m'. rewrite raise_all, <- Hdom. case_decide as Hc; [|done].
    apply children_elem in Hc. rewrite Hdom. split; [|by eauto]. intros _. by apply (Hes (id, v)).
  - intros v. rewrite Hdep. case_decide as Hin; [|apply Hreal].
    destruct (Nat.max_spec (dep m v) (dep m id + 1)) as [[_ ->]|[_ ->]]; [|apply Hreal].
    rewrite Nat.add_comm. by apply (path_edge id).
  - intros u v Hu Huv. rewrite !Hdep.
    rewrite (decide_False (P := (id, u) ∈ es)) by by apply Hlate.
    apply elem_of_app in Hu as [Hu| ->%list_elem_of_singleton].
    + specialize (Hup u v Hu Huv). case_decide; lia.
    + rewrite decide_True by done. lia.
Qed.

Lemma depth_run done todo m :
  topological es (done ++ todo) → NoDup (done ++ todo) → (∀ v, v ∈ todo → v ∈ ids) →
  depth_inv done m → depth_inv (done ++ todo) (fold_left (relax_depth (successors ids es)) todo m).
Proof.
  revert done m. induction todo as [|id todo IH]; intros done m Ht Hno Hin Hinv; cbn [fold_left].
  { by rewrite app_nil_r. }
  replace (done ++ id :: todo) with ((done ++ [id]) ++ todo) in * by (by rewrite <- app_assoc).
  apply IH; [done|done|intros v ?; apply Hin; by right|].
  rewrite <- app_assoc in Ht, Hno. apply (depth_step done id todo m); [done|done| |done].
  apply Hin. left.
Qed.

(** The computed depth is the length of a longest path. *)
Lemma longest_path_run ord : topological es ord → ord ≡ₚ ids →
  (∀ v k, path v k → k ≤ longest_path_length ord (successors ids es)) ∧
  ∃ v, path v (longest_path_length ord (successors ids es)).
Proof.
  intros Ht Hp. assert (Hno : NoDup ord) by by rewrite Hp.
  assert (Hinv : depth_inv ([] ++ ord) (depth_map ord (successors ids es))).
  { apply depth_run; [done|done|intros v; by rewrite Hp|].
    assert (Hl := init_lookup 0 ord). split.
    - intros v. rewrite Hl, <- Hp by done. case_decide; [by split; [|eauto]|].
      by split; [intros [? ?]|].
    - intros v. unfold dep. rewrite Hl by done. case_decide; apply path_here.
    - intros u v ?%not_elem_of_nil. done. }
  destruct Hinv as [Hdom Hreal Hup]. set (m := depth_map _ _) in *.
  assert (Hle : ∀ v, dep m v ≤ longest_path_length ord (successors ids es)).
  { intros v. unfold dep. destruct (m !! v) as [k|] eqn:E; [|simpl; lia].
    apply max_list_elem_of_le. apply hm_values_elem. eauto. }
  split.
  - intros v k Hk. etransitivity; [|apply (Hle v)]. clear Hle.
    induction Hk as [v|u v k Hk IH Huv]; [lia|].
    assert (Hu : u ∈ [] ++ ord) by (simpl; rewrite Hp; by apply (Hes (u, v))).
    specialize (Hup u v Hu Huv). lia.
  - unfold longest_path_length. fold m.
    destruct (decide (hm_values m = [])) as [E|Hne].
    + rewrite E. exists 0%N. apply path_here.
    + apply max_list_elem_of in Hne. apply hm_values_elem in Hne as [v Hv].
      exists v. pose proof (Hreal v) as Hr. unfold dep in Hr. rewrite Hv in Hr. done.
Qed.
End Kahn.

(** ** What the checks establish *)
Section Validate.
Context {J : Json} {I : HashMapIter}.
Context (resolve_kind : string → option KindShape) (allow_restricted : bool) (fresh_id : NodeId).
Implicit Types (g : Graph) (n : Node) (e : Edge).

Lemma check_all_ok {A} (f : A → result unit ValidationError) l :
  check_all f l = Ok tt ↔ ∀ x, x ∈ l → f x = Ok tt.
Proof.
  induction l as [|x l IH]; cbn [check_all].
  { split; [|done]. by intros _ x ?%not_elem_of_nil. }
  destruct (f x) as [[]|err] eqn:E; simpl.
  - rewrite IH. setoid_rewrite elem_of_cons. split; [|by auto]. intros H y [->|?]; auto.
  - split; [done|]. intros H. rewrite (H x) in E; [done|left].
Qed.

Lemma check_ids_ok seen (l : list Node) :
  check_ids seen l = Ok tt ↔ NoDup (n_id <$> l) ∧ ∀ n, n ∈ l → n_id n ∉ seen.
Proof.
  revert seen. induction l as [|n l IH]; intros seen; cbn [check_ids].
  { split; [intros _|done]. split; [constructor|]. by intros n ?%not_elem_of_nil. }
  rewrite fmap_cons, NoDup_cons. case_decide as Hin.
  - split; [done|]. intros [_ H]. destruct (H n); [left|done].
  - rewrite IH. setoid_rewrite elem_of_cons. setoid_rewrite not_elem_of_union.
    setoid_rewrite not_elem_of_singleton. rewrite list_elem_of_fmap. split.
    + intros [Hnd Hs]. split; [split; [|done]|].
      * intros (n' & Heq & Hn'). by destruct (Hs n' Hn') as [Hne _].
      * intros n' [->|Hn']; [done|]. by apply Hs.
    + intros [[Hni Hnd] Hs]. split; [done|]. intros n' Hn'. split; [|by auto].
      intros Heq. apply Hni. eauto.
Qed.

(** The node passes the catalog checks with this shape. *)
Definition node_ok n (s : KindShape) : Prop :=
  resolve_kind (n_kind n) = Some s ∧ (ks_restricted s = true → allow_restricted = true) ∧
  validate_node_config n s = Ok tt.

Lemma restricted_gate (b : bool) : (b && negb allow_restricted = false) ↔ (b = true → allow_restricted = true).
Proof. destruct b, allow_restricted; simpl; split; naive_solver. Qed.

Lemma resolve_shapes_ok l m :
  NoDup (n_id <$> l) → (∀ n, n ∈ l → m !! n_id n = None) →
  (∀ sh, resolve_shapes resolve_kind allow_restricted l m = Ok sh →
     (∀ n, n ∈ l → ∃ s, node_ok n s ∧ sh !! n_id n = Some s) ∧
     (∀ id, id ∉ n_id <$> l → sh !! id = m !! id)) ∧
  ((∀ n, n ∈ l → ∃ s, node_ok n s) →
     is_ok (resolve_shapes resolve_kind allow_restricted l m) = true).
Proof.
  revert m. induction l as [|n l IH]; intros m Hnd Hm; cbn [resolve_shapes].
  { split; [|done]. intros sh [= <-]. split; [|done]. by intros n ?%not_elem_of_nil. }
  rewrite fmap_cons in *. apply NoDup_cons in Hnd as [Hni Hnd].
  destruct (resolve_kind (n_kind n)) as [s|] eqn:Es.
  2:{ split; [done|]. intros H. destruct (H n) as (s & Hs & _); [left|congruence]. }
  destruct (ks_restricted s && negb allow_restricted) eqn:Er.
  { split; [done|]. intros H. destruct (H n) as (s' & Hs & Hr%restricted_gate & _); [left|congruence]. }
  destruct (validate_node_config n s) as [[]|err] eqn:Ec; simpl.
  2:{ split; [done|]. intros H. destruct (H n) as (s' & Hs & _ & Hc); [left|congruence]. }
  assert (Hn : node_ok n s) by (split; [done|]; split; [by apply restricted_gate|done]).
  destruct (IH (<[n_id n:=s]> m) Hnd) as [IH1 IH2].
  { intros n' Hn'. rewrite lookup_insert_ne; [apply Hm; by right|].
    intros Heq. apply Hni. rewrite Heq. by apply list_elem_of_fmap_2. }
  split.
  - intros sh Hsh. destruct (IH1 sh Hsh) as [Ha Hb]. split.
    + intros n' [->|Hn']%elem_of_cons; [|by apply Ha].
      exists s. split; [done|]. rewrite Hb by done. apply lookup_insert_eq.
    + intros id [Hne Hid]%not_elem_of_cons. rewrite Hb by done. by apply lookup_insert_ne.
  - intros H. apply IH2. intros n' Hn'. apply H. by right.
Qed.

Lemma fan_in_lookup es k :
  fan_in es !! k = let c := length (filter (λ e, to_key e = k) es) in
                   if decide (c = 0) then None else Some c.
Proof.
  unfold fan_in.
  assert (H : ∀ m : gmap (NodeId * string) nat,
    fold_left (λ m e, <[to_key e := default 0 (m !! to_key e) + 1]> m) es m !! k =
    let c := length (filter (λ e, to_key e = k) es) in
    if decide (c = 0) then m !! k else Some (default 0 (m !! k) + c)).
  { induction es as [|e es IH]; intros m; [done|]. cbn [fold_left]. rewrite IH, filter_cons.
    cbn zeta. destruct (decide (to_key e = k)) as [->|Hne].
    - rewrite lookup_insert_eq. simpl. case_decide as Hc; [rewrite Hc; done|]. f_equal. lia.
    - by rewrite lookup_insert_ne. }
  rewrite H, lookup_empty. done.
Qed.

Lemma count_NoDup {A K} `{EqDecision K} (f : A → K) (l : list A) :
  NoDup (f <$> l) ↔ ∀ k, length (filter (λ x, f x = k) l) ≤ 1.
Proof.
  induction l as [|x l IH]; [split; [intros _ k; simpl; lia|constructor]|].
  rewrite fmap_cons, NoDup_cons, IH. setoid_rewrite filter_cons. split.
  - intros [Hx H] k. case_decide as Hk; [|done]. simpl.
    destruct (filter _ l) as [|y l'] eqn:E; [done|]. exfalso. apply Hx.
    assert (Hy : y ∈ filter (λ x, f x = k) l) by (rewrite E; left).
    apply list_elem_of_filter in Hy as [Hy Hin]. rewrite Hk, <- Hy. by apply list_elem_of_fmap_2.
  - intros H. split.
    + intros (y & Hy & Hin)%list_elem_of_fmap. specialize (H (f x)).
      rewrite decide_True in H by done. simpl in H.
      assert (Hf : y ∈ filter (λ y, f y = f x) l) by by apply list_elem_of_filter.
      destruct (filter _ l); [by apply not_elem_of_nil in Hf|simpl in H; lia].
    + intros k. specialize (H k). case_decide; simpl in H; lia.
Qed.

Lemma check_fan_in_ok es : check_fan_in es = Ok tt ↔ NoDup (to_key <$> es).
Proof.
  rewrite count_NoDup. unfold check_fan_in.
  destruct (List.find _ _) as [[[to port] c]|] eqn:E.
  - apply List.find_some in E as [Hin%list_elem_of_In%hm_iter_elem Hc%Nat.ltb_lt].
    split; [done|]. intros H. specialize (H (to, port)). rewrite fan_in_lookup in Hin.
    cbn zeta in Hin. cbn [snd] in Hc. case_decide; [done|]. injection Hin as <-. lia.
  - split; [intros _ k|done]. destruct (fan_in es !! k) as [c|] eqn:Ek.
    + pose proof Ek as Hin%hm_iter_elem%list_elem_of_In.
      pose proof (List.find_none _ _ E _ Hin) as Hc%Nat.ltb_ge. cbn [snd] in Hc.
      rewrite fan_in_lookup in Ek. cbn zeta in Ek. case_decide; [done|].
      injection Ek as <-. lia.
    + rewrite fan_in_lookup in Ek. cbn zeta in Ek. case_decide; [lia|done].
Qed.

(** The edge joins declared ports of one type. *)
Definition edge_ok (sh : gmap NodeId KindShape) e : Prop :=
  ∃ src dst t, sh !! pr_node (e_from e) = Some src ∧ sh !! pr_node (e_to e) = Some dst ∧
    shape_output src (pr_port (e_from e)) = Some t ∧ shape_input dst (pr_port (e_to e)) = Some t.

Lemma check_edge_ok sh e : check_edge sh e = Ok tt ↔ edge_ok sh e.
Proof.
  unfold check_edge, edge_ok. split.
  - destruct (sh !! pr_node (e_from e)) as [src|], (sh !! pr_node (e_to e)) as [dst|]; try done.
    destruct (shape_output src _) as [t|] eqn:E1; [|done].
    destruct (shape_input dst _) as [t'|] eqn:E2; [|done].
    case_decide; [subst|done]. intros _. by exists src, dst, t'.
  - intros (src & dst & t & -> & -> & -> & ->). by rewrite decide_True.
Qed.

Definition ids g : list NodeId := n_id <$> nodes g.
Definition pairs g : list (NodeId * NodeId) := edge_pair <$> edges g.

(** The static checks, steps 1 to 4 of [validate]. *)
Definition static_checks g : result unit ValidationError :=
  let? _ := check_ids ∅ (nodes g) in
  let? shapes := resolve_shapes resolve_kind allow_restricted (nodes g) ∅ in
  let? _ := check_fan_in (edges g) in
  check_all (check_edge shapes) (edges g).

(** A graph that satisfies its declaration against the catalog. *)
Record well_formed g : Prop := {
  wf_ids : NoDup (ids g);
  wf_nodes n : n ∈ nodes g → ∃ s, node_ok n s;
  wf_fan_in : NoDup (to_key <$> edges g);
  wf_edges e : e ∈ edges g → ∃ n1 n2 s1 s2 t, n1 ∈ nodes g ∧ n2 ∈ nodes g ∧
    n_id n1 = pr_node (e_from e) ∧ n_id n2 = pr_node (e_to e) ∧
    resolve_kind (n_kind n1) = Some s1 ∧ resolve_kind (n_kind n2) = Some s2 ∧
    shape_output s1 (pr_port (e_from e)) = Some t ∧ shape_input s2 (pr_port (e_to e)) = Some t;
}.

Lemma static_checks_ok g : static_checks g = Ok tt ↔ well_formed g.
Proof.
  unfold static_checks. destruct (check_ids ∅ (nodes g)) as [[]|err] eqn:E1.
  2:{ split; [done|]. intros [H _ _ _]. assert (check_ids ∅ (nodes g) = Ok tt) as E;
        [|congruence]. apply check_ids_ok. split; [done|]. intros n _. apply not_elem_of_empty. }
  apply check_ids_ok in E1 as [Hnd _].
  destruct (resolve_shapes_ok (nodes g) ∅ Hnd) as [Hsh Hok];
    [intros n _; apply lookup_empty|].
  destruct (resolve_shapes _ _ _ _) as [sh|err] eqn:E2; simpl in *.
  2:{ split; [done|]. intros [_ H _ _]. by specialize (Hok H). }
  destruct (Hsh sh eq_refl) as [Ha Hb].
  assert (Hlook : ∀ id s, sh !! id = Some s → ∃ n, n ∈ nodes g ∧ n_id n = id ∧ resolve_kind (n_kind n) = Some s).
  { intros id s Hs. destruct (decide (id ∈ n_id <$> nodes g)) as [Hin|Hni].
    - apply list_elem_of_fmap in Hin as (n & -> & Hn). destruct (Ha n Hn) as (s' & [Hr _] & Hs').
      exists n. split; [done|]. split; [done|]. congruence.
    - rewrite Hb, lookup_empty in Hs by done. done. }
  destruct (check_fan_in (edges g)) as [[]|err] eqn:E3; simpl.
  2:{ split; [done|]. intros [_ _ H%check_fan_in_ok _]. congruence. }
  apply check_fan_in_ok in E3. rewrite check_all_ok. setoid_rewrite check_edge_ok. split.
  - intros H. split; [done| |done|].
    + intros n Hn. destruct (Ha n Hn) as (s & Hs & _). by exists s.
    + intros e He. destruct (H e He) as (src & dst & t & H1 & H2 & H3 & H4).
      apply Hlook in H1 as (n1 & Hn1 & Hi1 & Hr1). apply Hlook in H2 as (n2 & Hn2 & Hi2 & Hr2).
      by exists n1, n2, src, dst, t.
  - intros [_ _ _ H] e He.
    destruct (H e He) as (n1 & n2 & s1 & s2 & t & Hn1 & Hn2 & Hi1 & Hi2 & Hr1 & Hr2 & H1 & H2).
    destruct (Ha n1 Hn1) as (s1' & [Hr1' _] & Hs1). destruct (Ha n2 Hn2) as (s2' & [Hr2' _] & Hs2).
    exists s1, s2, t. rewrite <- Hi1, <- Hi2. split; [congruence|]. split; [congruence|]. done.
Qed.

Lemma pairs_endpoints g : well_formed g → ∀ x, x ∈ pairs g → x.1 ∈ ids g ∧ x.2 ∈ ids g.
Proof.
  intros Hw x (e & -> & He)%list_elem_of_fmap.
  destruct (wf_edges g Hw e He) as (n1 & n2 & _ & _ & _ & Hn1 & Hn2 & Hi1 & Hi2 & _).
  unfold ids, edge_pair. cbn [fst snd]. rewrite <- Hi1, <- Hi2.
  split; by apply list_elem_of_fmap_2.
Qed.

Definition has_sink g : bool :=
  existsb (λ n, bool_decide (n_kind n = "Out.SpreadMult")) (nodes g).

(** [validate] on a graph that passes the static checks. *)
Lemma validate_run g : version g = CURRENT_SCHEMA_VERSION → well_formed g →
  ∃ ord indeg, kahn_inv (ids g) (pairs g) ord [] indeg ∧
    validate resolve_kind allow_restricted fresh_id g =
    if negb (length ord =? length (nodes g)) then
      Done (Err (Cycle (default fresh_id (fst <$> List.find (λ x, (0 <? x.2)%N) (hm_iter indeg)))))
    else
      let d := longest_path_length ord (successors (ids g) (pairs g)) in
      if MAX_GRAPH_DEPTH <? d then Done (Err (DepthExceeded d MAX_GRAPH_DEPTH))
      else if has_sink g then Done (Ok (mkTopoOrder ord d)) else Done (Err NoSpreadMultSink).
Proof.
  intros Hv Hw.
  destruct (topo_sort_run (ids g) (pairs g) (wf_ids g Hw) (pairs_endpoints g Hw))
    as (ord & indeg & E & Hinv).
  exists ord, indeg. split; [done|]. unfold validate. rewrite Hv, Z.eqb_refl. cbn [negb].
  fold (static_checks g). rewrite (proj2 (static_checks_ok g) Hw).
  unfold ids, pairs in E. rewrite E. done.
Qed.

Lemma validate_static g : version g = CURRENT_SCHEMA_VERSION → ¬ well_formed g →
  ∃ err, validate resolve_kind allow_restricted fresh_id g = Done (Err err) ∧ static_checks g = Err err.
Proof.
  intros Hv Hw. unfold validate. rewrite Hv, Z.eqb_refl. cbn [negb]. fold (static_checks g).
  destruct (static_checks g) as [[]|err] eqn:E; [|by exists err].
  by apply static_checks_ok in E.
Qed.

Lemma kahn_no_cycle g ord indeg : well_formed g → kahn_inv (ids g) (pairs g) ord [] indeg →
  length ord = length (nodes g) ↔ acyclic (pairs g).
Proof.
  intros Hw Hinv. pose proof (pairs_endpoints g Hw) as Hes.
  assert (Hlen : length (ids g) = length (nodes g)) by apply length_fmap. split.
  - intros Hl. eapply topological_acyclic; [apply Hw|exact Hes|apply (ki_topo _ _ _ _ _ Hinv)|].
    eapply kahn_complete; [exact Hinv|]. congruence.
  - intros Hac. rewrite (kahn_acyclic (ids g) (pairs g) (wf_ids g Hw) Hes ord indeg Hinv Hac). done.
Qed.

(** An accepted graph is well formed, its order lists every node after the
    sources of its edges, and the reported depth is a longest path's. *)
Lemma validate_accepted g t : validate resolve_kind allow_restricted fresh_id g = Done (Ok t) →
  version g = CURRENT_SCHEMA_VERSION ∧ well_formed g ∧ acyclic (pairs g) ∧ has_sink g = true ∧
  order t ≡ₚ ids g ∧ topological (pairs g) (order t) ∧ depth t ≤ MAX_GRAPH_DEPTH ∧
  (∀ v k, path (pairs g) v k → k ≤ depth t) ∧ ∃ v, path (pairs g) v (depth t).
Proof.
  intros Ht. destruct (decide (version g = CURRENT_SCHEMA_VERSION)) as [Hv|Hv].
  2:{ unfold validate in Ht. by rewrite (proj2 (Z.eqb_neq _ _) Hv) in Ht. }
  destruct (static_checks g) as [[]|err] eqn:Es.
  2:{ destruct (validate_static g Hv) as (e' & E & _); [|congruence].
      intros Hw%static_checks_ok. congruence. }
  apply static_checks_ok in Es as Hw. destruct (validate_run g Hv Hw) as (ord & indeg & Hinv & E).
  rewrite E in Ht. destruct (Nat.eqb_spec (length ord) (length (nodes g))) as [Hl|Hl]; [|done].
  cbn [negb] in Ht. cbn zeta in Ht. destruct (_ <? _) eqn:Ed; [done|]. destruct (has_sink g); [|done].
  injection Ht as <-. cbn [order depth]. apply Nat.ltb_ge in Ed.
  assert (Hp : ord ≡ₚ ids g).
  { eapply kahn_complete; [exact Hinv|]. unfold ids. by rewrite length_fmap. }
  pose proof (ki_topo _ _ _ _ _ Hinv) as Htopo. do 2 (split; [done|]).
  split; [by apply (kahn_no_cycle g ord indeg)|]. do 4 (split; [done|]).
  apply longest_path_run; [apply Hw|by apply pairs_endpoints|done|done].
Qed.

(** C25: validation accepts exactly the graphs of the current version that
    declare unique ids, catalog kinds that are not restricted (or are allowed)
    with conforming configurations, at most one edge per input port and edges
    between declared ports of one type, that have no cycle, no path of more
    than 128 edges and a spread-multiplier sink. *)
Theorem validate_accepts_iff g :
  (∃ t, validate resolve_kind allow_restricted fresh_id g = Done (Ok t)) ↔
  version g = CURRENT_SCHEMA_VERSION ∧ well_formed g ∧ acyclic (pairs g) ∧
  (∀ v k, path (pairs g) v k → k ≤ MAX_GRAPH_DEPTH) ∧
  ∃ n, n ∈ nodes g ∧ n_kind n = "Out.SpreadMult".
Proof.
  assert (Hsink : has_sink g = true ↔ ∃ n, n ∈ nodes g ∧ n_kind n = "Out.SpreadMult").
  { unfold has_sink. rewrite existsb_exists. setoid_rewrite bool_decide_eq_true.
    setoid_rewrite list_elem_of_In. done. }
  rewrite <- Hsink. split.
  - intros [t Ht]. destruct (validate_accepted g t Ht) as (? & ? & ? & ? & _ & _ & Hd & Hk & _).
    do 3 (split; [done|]). split; [|done]. intros v k Hp. etransitivity; [by eapply Hk|done].
  - intros (Hv & Hw & Hac & Hdepth & Hs).
    destruct (validate_run g Hv Hw) as (ord & indeg & Hinv & E).
    pose proof (proj2 (kahn_no_cycle g ord indeg Hw Hinv) Hac) as Hl.
    rewrite E, (proj2 (Nat.eqb_eq _ _) Hl). cbn [negb]. cbn zeta.
    destruct (longest_path_run (ids g) (pairs g) (wf_ids g Hw) (pairs_endpoints g Hw) ord)
      as [_ [v Hp]]; [apply (ki_topo _ _ _ _ _ Hinv)| |].
    { eapply kahn_complete; [exact Hinv|]. unfold ids. by rewrite length_fmap. }
    rewrite (proj2 (Nat.ltb_ge _ _)) by by eapply Hdepth. rewrite Hs. eauto.
Qed.

(** The order of an accepted graph lists every node once, each after the
    sources of its edges, and the reported depth is the length of a longest
    path, whatever the hash maps' iteration order. *)
Theorem validate_order g t
  (Ht : validate resolve_kind allow_restricted fresh_id g = Done (Ok t)) :
  order t ≡ₚ ids g ∧ topological (pairs g) (order t) ∧
  (∀ v k, path (pairs g) v k → k ≤ depth t) ∧ ∃ v, path (pairs g) v (depth t).
Proof.
  by destruct (validate_accepted g t Ht) as (_ & _ & _ & _ & ? & ? & _ & ? & ?).
Qed.

(** C26: validation always returns: the sort neither misses a node in its
    tables nor runs on; and a reported cycle is real: the node is one of the
    graph's, and the edges cannot be numbered upwards. *)
Theorem validate_total g :
  ∃ r, validate resolve_kind allow_restricted fresh_id g = Done r ∧
    ∀ v, r = Err (Cycle v) → well_formed g → v ∈ ids g ∧ ¬ acyclic (pairs g).
Proof.
  destruct (decide (version g = CURRENT_SCHEMA_VERSION)) as [Hv|Hv].
  2:{ unfold validate. rewrite (proj2 (Z.eqb_neq _ _) Hv). eexists. by split. }
  destruct (static_checks g) as [[]|err] eqn:Es.
  2:{ assert (Hnw : ¬ well_formed g) by (intros Hw%static_checks_ok; congruence).
      destruct (validate_static g Hv Hnw) as (e' & E & _). eexists. split; [exact E|]. done. }
  apply static_checks_ok in Es as Hw. destruct (validate_run g Hv Hw) as (ord & indeg & Hinv & E).
  rewrite E. pose proof (kahn_no_cycle g ord indeg Hw Hinv) as Hcyc.
  destruct (Nat.eqb_spec (length ord) (length (nodes g))) as [Hl|Hl]; cbn [negb].
  { cbn zeta. destruct (_ <? _), (has_sink g); eexists; split; try done. }
  eexists. split; [done|]. intros v [= <-] _. split; [|tauto].
  destruct (List.find _ _) as [[v d]|] eqn:Ef; simpl.
  - apply List.find_some in Ef as [Hin%list_elem_of_In%hm_iter_elem _].
    rewrite (ki_deg _ _ _ _ _ Hinv) in Hin. by case_decide.
  - exfalso. apply Hl. apply Hcyc. eapply topological_acyclic;
      [apply Hw|by apply pairs_endpoints|apply (ki_topo _ _ _ _ _ Hinv)|].
    apply NoDup_Permutation; [|apply Hw|].
    { pose proof (ki_nd _ _ _ _ _ Hinv) as Hn. by rewrite app_nil_r in Hn. }
    intros v. pose proof (ki_ready _ _ _ _ _ Hinv v) as Hr.
    pose proof (ki_in _ _ _ _ _ Hinv v) as Hin. rewrite app_nil_r in Hr, Hin.
    split; [done|]. intros Hid. apply (Hr Hid).
    pose proof (ki_deg _ _ _ _ _ Hinv v) as Hd. rewrite decide_True in Hd by done.
    apply hm_iter_elem, list_elem_of_In in Hd. pose proof (List.find_none _ _ Ef _ Hd) as Hz.
    apply N.ltb_ge in Hz. cbn [snd] in Hz. lia.
Qed.
End Validate.

(** ** Witnesses *)

Definition demo_kinds (k : string) : option KindShape :=
  if bool_decide (k = "Math.Const") then Some (mkKindShape [] [("value", PtNumber)] false [])
  else if bool_decide (k = "Math.Neg")
  then Some (mkKindShape [("x", PtNumber)] [("y", PtNumber)] false [])
  else if bool_decide (k = "Out.SpreadMult")
  then Some (mkKindShape [("mult", PtNumber)] [] false []) else None.

Definition demo_graph : Graph :=
  mkGraph 1 "demo" ScopeGlobal
    [mkNode 3 "Out.SpreadMult" VNull; mkNode 2 "Math.Neg" VNull; mkNode 1 "Math.Const" VNull]
    [mkEdge (mkPortRef 1 "value") (mkPortRef 2 "x"); mkEdge (mkPortRef 2 "y") (mkPortRef 3 "mult")]
    30000.

Lemma validate_order_witness :
  validate demo_kinds false 0 demo_graph = Done (Ok (mkTopoOrder [1; 2; 3]%N 2)) ∧
  topological (pairs demo_graph) [1; 2; 3]%N.
Proof.
  assert (E : validate demo_kinds false 0 demo_graph = Done (Ok (mkTopoOrder [1; 2; 3]%N 2)))
    by (vm_compute; reflexivity).
  split; [exact E|]. apply (validate_order demo_kinds false 0 demo_graph _ E).
Defined.
