(* ===== verification/Indicators.v ===== *)
(** * Technical indicators ([crates/indicators/src/{sma,ema,hma,rsi,atr,bollinger}.rs])

    Streaming windows and smoothers over decimals. A constructor whose
    [assert!] fails panics. The square root of the Bollinger bands goes through
    [f64] and is a parameter. *)
From stdpp Require Import base list.
From Stdlib Require Import ZArith QArith Qabs Lia Lqa.
From S2P Require Import Prelude Decimal.
Local Open Scope nat_scope.

Section Indicators.
Context {D : Decimal}.

(** [Decimal::from] of an unsigned integer. *)
Definition dof_nat (n : nat) : dec := dlit (Z.of_nat n) 0.

(** ** Simple moving average *)
Record Sma := mkSma { sma_period : nat; sma_samples : list dec; sma_sum : dec }.

Definition sma_new (period : nat) : outcome Sma :=
  if 0 <? period then Done (mkSma period [] dec0) else Panicked.

Definition sma_update (sample : dec) (s : Sma) : Sma :=
  let samples := sma_samples s ++ [sample] in
  let sum := dadd (sma_sum s) sample in
  match samples with
  | popped :: rest =>
      if sma_period s <? length samples then mkSma (sma_period s) rest (dsub sum popped)
      else mkSma (sma_period s) samples sum
  | [] => mkSma (sma_period s) samples sum
  end.

Definition sma_value (s : Sma) : option dec :=
  if length (sma_samples s) <? sma_period s then None
  else Some (ddiv (sma_sum s) (dof_nat (sma_period s))).

(** ** Exponential moving average *)
Record Ema := mkEma { ema_period : nat; ema_alpha : dec; ema_state : option dec; ema_seen : nat }.

Definition ema_new (period : nat) : outcome Ema :=
  if 0 <? period then Done (mkEma period (ddiv (dof_nat 2) (dof_nat (period + 1))) None 0) else Panicked.

Definition ema_update (sample : dec) (s : Ema) : Ema :=
  mkEma (ema_period s) (ema_alpha s)
    (Some match ema_state s with
          | None => sample
          | Some prev => dadd (dmul (ema_alpha s) sample) (dmul (dsub dec1 (ema_alpha s)) prev)
          end)
    (S (ema_seen s)).

Definition ema_value (s : Ema) : option dec :=
  if ema_seen s <? ema_period s then None else ema_state s.

(** ** Weighted and Hull moving averages *)
Record Wma := mkWma { wma_window : nat; wma_samples : list dec; weight_sum : dec; wma_value : option dec }.

Definition wma_new (window : nat) : outcome Wma :=
  if 0 <? window
  then Done (mkWma window [] (ddiv (dmul (dof_nat window) (dadd (dof_nat window) dec1)) (dof_nat 2)) None)
  else Panicked.

(** [acc += w * v] with the weights counting up from [i + 1]. *)
Fixpoint weigh (i : nat) (acc : dec) (l : list dec) : dec :=
  match l with
  | [] => acc
  | v :: l => weigh (S i) (dadd acc (dmul (dof_nat (S i)) v)) l
  end.

Definition wma_update (sample : dec) (s : Wma) : Wma :=
  let samples := (if length (wma_samples s) =? wma_window s then drop 1 (wma_samples s) else wma_samples s)
                 ++ [sample] in
  mkWma (wma_window s) samples (weight_sum s)
    (if length samples <? wma_window s then None else Some (ddiv (weigh 0 dec0 samples) (weight_sum s))).

Record Hma := mkHma { hma_window : nat; short_wma : Wma; long_wma : Wma; smooth_wma : Wma; hma_value : option dec }.

(** [(window as f64).sqrt().round()]: the nearest integer to the root. *)
Definition rounded_sqrt (n : nat) : nat :=
  let r := Nat.sqrt n in if r * r + r <? n then S r else r.

Definition hma_new (window : nat) : outcome Hma :=
  if 4 <=? window then
    match wma_new (Nat.max (window / 2) 1), wma_new window, wma_new (Nat.max (rounded_sqrt window) 1) with
    | Done short, Done long, Done smooth => Done (mkHma window short long smooth None)
    | _, _, _ => Panicked
    end
  else Panicked.

Definition hma_update (sample : dec) (s : Hma) : Hma :=
  let short := wma_update sample (short_wma s) in
  let long := wma_update sample (long_wma s) in
  match wma_value short, wma_value long with
  | Some a, Some b =>
      let smooth := wma_update (dsub (dmul (dof_nat 2) a) b) (smooth_wma s) in
      mkHma (hma_window s) short long smooth (wma_value smooth)
  | _, _ => mkHma (hma_window s) short long (smooth_wma s) None
  end.

(** ** Relative strength index *)
Record Rsi := mkRsi {
  rsi_period : nat;
  rsi_prev_close : option dec;
  sum_gain : dec;
  sum_loss : dec;
  avg_gain : option dec;
  avg_loss : option dec;
  changes_seen : nat;
}.

Definition rsi_new (period : nat) : outcome Rsi :=
  if 1 <? period then Done (mkRsi period None dec0 dec0 None None 0) else Panicked.

Definition gain_of (change : dec) : dec := if dltb dec0 change then change else dec0.
Definition loss_of (change : dec) : dec := if dltb change dec0 then dneg change else dec0.

(** One step of Wilder's smoothing. *)
Definition wilder (period : nat) (prev x : dec) : dec :=
  ddiv (dadd (dmul prev (dof_nat (period - 1))) x) (dof_nat period).

Definition rsi_update (close : dec) (s : Rsi) : outcome Rsi :=
  match rsi_prev_close s with
  | None => Done (mkRsi (rsi_period s) (Some close) (sum_gain s) (sum_loss s) (avg_gain s) (avg_loss s)
                    (changes_seen s))
  | Some prev =>
      let change := dsub close prev in
      let gain := gain_of change in
      let loss := loss_of change in
      let seen := S (changes_seen s) in
      let period := rsi_period s in
      let sg := dadd (sum_gain s) gain in
      let sl := dadd (sum_loss s) loss in
      if seen <? period then Done (mkRsi period (Some close) sg sl (avg_gain s) (avg_loss s) seen)
      else if seen =? period then
        Done (mkRsi period (Some close) sg sl (Some (ddiv sg (dof_nat period))) (Some (ddiv sl (dof_nat period))) seen)
      else
        match avg_gain s, avg_loss s with
        | Some g, Some l =>
            Done (mkRsi period (Some close) (sum_gain s) (sum_loss s) (Some (wilder period g gain))
                    (Some (wilder period l loss)) seen)
        | _, _ => Panicked
        end
  end.

Definition rsi_value (s : Rsi) : option dec :=
  if changes_seen s <? rsi_period s then None
  else g ← avg_gain s; l ← avg_loss s;
       Some (if is_zero l then dlit 100 0
             else dsub (dlit 100 0) (ddiv (dlit 100 0) (dadd dec1 (ddiv g l)))).

(** ** Average true range *)
Record Atr := mkAtr { atr_period : nat; atr_prev_close : option dec; atr_state : option dec; atr_seen : nat }.

Definition atr_new (period : nat) : outcome Atr :=
  if 0 <? period then Done (mkAtr period None None 0) else Panicked.

Definition true_range (high low : dec) (prev_close : option dec) : dec :=
  match prev_close with
  | None => dsub high low
  | Some prev => dmax (dmax (dsub high low) (dabs (dsub high prev))) (dabs (dsub low prev))
  end.

Definition atr_update (high low close : dec) (s : Atr) : Atr :=
  let tr := true_range high low (atr_prev_close s) in
  let seen := S (atr_seen s) in
  mkAtr (atr_period s) (Some close)
    (Some match atr_state s with
          | None => tr
          | Some prev =>
              if seen <=? atr_period s then ddiv (dadd (dmul prev (dof_nat (seen - 1))) tr) (dof_nat seen)
              else wilder (atr_period s) prev tr
          end)
    seen.

Definition atr_value (s : Atr) : option dec :=
  if atr_seen s <? atr_period s then None else atr_state s.

(** ** Bollinger bands *)
Record BollingerValue := mkBollingerValue { middle : dec; upper : dec; lower : dec; stddev : dec }.

Record BollingerBands := mkBollinger { bb_period : nat; bb_k : dec; bb_samples : list dec }.

Definition bollinger_new (period : nat) (k : dec) : outcome BollingerBands :=
  if 1 <? period then Done (mkBollinger period k []) else Panicked.

Definition bollinger_update (sample : dec) (s : BollingerBands) : BollingerBands :=
  let samples := bb_samples s ++ [sample] in
  mkBollinger (bb_period s) (bb_k s) (if bb_period s <? length samples then drop 1 samples else samples).

(** The mean and the population variance of the window. *)
Definition window_mean (n : nat) (l : list dec) : dec := ddiv (dsum l) (dof_nat n).
Definition window_variance (n : nat) (mean : dec) (l : list dec) : dec :=
  ddiv (dsum ((λ s, dmul (dsub s mean) (dsub s mean)) <$> l)) (dof_nat n).

(** [sqrt_f64] is [to_f64], [sqrt] and [from_f64], zero when one of them fails. *)
Definition bollinger_value (sqrt_f64 : dec → dec) (s : BollingerBands) : option BollingerValue :=
  if length (bb_samples s) <? bb_period s then None
  else
    let mean := window_mean (bb_period s) (bb_samples s) in
    let sd := sqrt_f64 (window_variance (bb_period s) mean (bb_samples s)) in
    let w := dmul (bb_k s) sd in
    Some (mkBollingerValue mean (dadd mean w) (dsub mean w) sd).

Definition width (v : BollingerValue) : dec := dsub (upper v) (lower v).

Definition width_ratio (v : BollingerValue) : option dec :=
  if is_zero (middle v) then None else Some (ddiv (width v) (middle v)).
End Indicators.

(** ** Windows *)
Definition last_n {A} (n : nat) (l : list A) : list A := drop (length l - n) l.

Lemma last_n_all {A} n (l : list A) : length l ≤ n → last_n n l = l.
Proof. intros H. unfold last_n. by replace (length l - n) with 0 by lia. Qed.

Lemma last_n_length {A} n (l : list A) : length (last_n n l) = Nat.min n (length l).
Proof. unfold last_n. rewrite length_drop. lia. Qed.

Lemma last_n_snoc {A} n (l : list A) x : 0 < n →
  last_n n (l ++ [x]) = (if length (last_n n l) =? n then drop 1 (last_n n l) else last_n n l) ++ [x].
Proof.
  intros Hn. rewrite last_n_length. unfold last_n. rewrite length_app. cbn [length].
  destruct (Nat.eqb_spec (Nat.min n (length l)) n) as [E|E].
  - rewrite drop_drop. replace (length l + 1 - n) with (length l - n + 1) by lia.
    rewrite drop_app_le by lia. done.
  - replace (length l + 1 - n) with 0 by lia. by replace (length l - n) with 0 by lia.
Qed.

Lemma last_n_snoc_push {A} n (l : list A) x : 0 < n →
  last_n n (l ++ [x]) =
    (if n <? length (last_n n l ++ [x]) then drop 1 (last_n n l ++ [x]) else last_n n l ++ [x]).
Proof.
  intros Hn. rewrite last_n_snoc by done. rewrite length_app, last_n_length. cbn [length].
  destruct (Nat.eqb_spec (Nat.min n (length l)) n) as [E|E], (Nat.ltb_spec n (Nat.min n (length l) + 1)); try lia; [|done].
  rewrite drop_app_le; [done|]. rewrite last_n_length. lia.
Qed.

(** ** What the windows compute *)
Section Exact.
Context {D : Decimal} {L : DecimalExact D}.

Definition feed {S} (f : dec → S → S) (xs : list dec) (s : S) : S := fold_left (λ s x, f x s) xs s.

Lemma feed_snoc {S} (f : dec → S → S) xs x s : feed f (xs ++ [x]) s = f x (feed f xs s).
Proof. unfold feed. by rewrite fold_left_app. Qed.

Definition small_nat (n : nat) : Prop := (Z.of_nat n < 2 ^ 96)%Z.

Lemma dof_nat_val n : small_nat n → (dval (dof_nat n) == inject_Z (Z.of_nat n))%Q.
Proof. intros H. unfold dof_nat. rewrite dlit_val; [apply scaled_0|]. apply fits_int. unfold small_nat in H. lia. Qed.

Lemma inject_pos n : 0 < n → (0 < inject_Z (Z.of_nat n))%Q.
Proof. intros H. unfold Qlt. cbn. lia. Qed.

Lemma dof_nat_nonzero n : 0 < n → small_nat n → ¬ (dval (dof_nat n) == 0)%Q.
Proof. intros Hn Hs. rewrite dof_nat_val by done. pose proof (inject_pos n Hn). lra. Qed.

(** The running sum is the sum of the window. *)
Lemma sma_run p xs : 0 < p → ∃ sum, feed sma_update xs (mkSma p [] dec0) = mkSma p (last_n p xs) sum ∧
  (dval sum == qsum (vals (last_n p xs)))%Q.
Proof.
  intros Hp. induction xs as [|x xs IH] using rev_ind.
  { exists dec0. split; [done|]. rewrite dec0_val. done. }
  destruct IH as (sum & E & Hs). rewrite feed_snoc, E, last_n_snoc_push by done. unfold sma_update. cbn [sma_samples sma_sum sma_period].
  assert (Ha : (dval (dadd sum x) == qsum (vals (last_n p xs ++ [x])))%Q).
  { rewrite dadd_exact, Hs. unfold vals. rewrite fmap_app, qsum_app. cbn. ring. }
  destruct (last_n p xs ++ [x]) as [|popped rest] eqn:El; [by destruct (last_n p xs)|].
  destruct (p <? length (popped :: rest)); eexists; (split; [done|]); [|done].
  rewrite dsub_exact, Ha, qsum_vals_cons. change (drop 1 (popped :: rest)) with rest. ring.
Qed.

Lemma wma_run p ws v0 xs : 0 < p → feed wma_update xs (mkWma p [] ws v0) =
  mkWma p (last_n p xs) ws
    (match xs with [] => v0 | _ => if length (last_n p xs) <? p then None else Some (ddiv (weigh 0 dec0 (last_n p xs)) ws) end).
Proof.
  intros Hp. induction xs as [|x xs IH] using rev_ind; [done|].
  rewrite feed_snoc, IH. unfold wma_update. cbn [wma_samples wma_window weight_sum].
  rewrite last_n_snoc by done. by destruct xs.
Qed.

Lemma bollinger_run p k xs : 0 < p → feed bollinger_update xs (mkBollinger p k []) = mkBollinger p k (last_n p xs).
Proof.
  intros Hp. induction xs as [|x xs IH] using rev_ind; [done|].
  rewrite feed_snoc, IH, last_n_snoc_push by done. done.
Qed.

(** [Σ (i + k) · x_k] over the window, the oldest sample first. *)
Fixpoint weighted (i : nat) (l : list Q) : Q :=
  match l with [] => 0 | x :: l => inject_Z (Z.of_nat (S i)) * x + weighted (S i) l end.

Lemma weigh_val l : ∀ i a, small_nat (i + length l) →
  (dval (weigh i a l) == dval a + weighted i (vals l))%Q.
Proof.
  induction l as [|x l IH]; intros i a Hs.
  { change (dval a == dval a + 0)%Q. ring. }
  cbn [length] in Hs. cbn [weigh]. rewrite IH by (unfold small_nat in *; lia).
  rewrite dadd_exact, dmul_exact, dof_nat_val by (unfold small_nat in *; lia).
  change (weighted i (vals (x :: l))) with (inject_Z (Z.of_nat (S i)) * dval x + weighted (S i) (vals l))%Q. ring.
Qed.
End Exact.

(** ** Averages of the window *)
Section Averages.
Context {D : Decimal} {L : DecimalExact D}.

(** The arithmetic mean and the population variance of a list. *)
Definition mean (l : list Q) : Q := qsum l / inject_Z (Z.of_nat (length l)).
Definition variance (l : list Q) : Q := mean ((λ x, (x - mean l) * (x - mean l))%Q <$> l).
(** The linearly weighted mean, the newest sample weighing most. *)
Definition weighted_mean (l : list Q) : Q :=
  weighted 0 l / (inject_Z (Z.of_nat (length l)) * (inject_Z (Z.of_nat (length l)) + 1) / 2).

Lemma qsum_ext (f1 f2 : Q → Q) l : (∀ x, x ∈ l → (f1 x == f2 x)%Q) → (qsum (f1 <$> l) == qsum (f2 <$> l))%Q.
Proof.
  induction l as [|x l IH]; intros H; cbn; [done|]. rewrite (H x) by by left. rewrite IH; [done|].
  intros y Hy. apply H. by right.
Qed.

Lemma sma_value_exact p xs : 0 < p → small_nat p →
  match sma_value (feed sma_update xs (mkSma p [] dec0)) with
  | None => length xs < p
  | Some v => p ≤ length xs ∧ (dval v == mean (vals (last_n p xs)))%Q
  end.
Proof.
  intros Hp Hs. destruct (sma_run p xs Hp) as (sum & -> & Hsum). unfold sma_value. cbn [sma_samples sma_period sma_sum].
  pose proof (last_n_length p xs) as Hl. destruct (Nat.ltb_spec (length (last_n p xs)) p) as [?|Hle]; [lia|].
  split; [lia|]. rewrite ddiv_exact, dof_nat_val, Hsum by by (try apply dof_nat_nonzero).
  unfold mean, vals. rewrite length_fmap. by replace (length (last_n p xs)) with p by lia.
Qed.

Lemma wma_value_exact p ws xs : 0 < p → small_nat p → ¬ (dval ws == 0)%Q →
  (dval ws == inject_Z (Z.of_nat p) * (inject_Z (Z.of_nat p) + 1) / 2)%Q →
  match wma_value (feed wma_update xs (mkWma p [] ws None)) with
  | None => length xs < p
  | Some v => p ≤ length xs ∧ (dval v == weighted_mean (vals (last_n p xs)))%Q
  end.
Proof.
  intros Hp Hs Hnz Hws. rewrite wma_run by done. cbn [wma_value]. destruct xs as [|x xs]; [cbn; lia|].
  pose proof (last_n_length p (x :: xs)) as Hl.
  destruct (Nat.ltb_spec (length (last_n p (x :: xs))) p) as [?|Hle]; [lia|]. split; [lia|].
  rewrite ddiv_exact, weigh_val, dec0_val, Hws by (done || (cbn [plus]; unfold small_nat in *; lia)).
  unfold weighted_mean, vals. rewrite length_fmap. replace (length (last_n p (x :: xs))) with p by lia.
  unfold Qdiv. ring.
Qed.

Lemma qsum_squares l w m : (dval w == m)%Q →
  (qsum (vals ((λ s, dmul (dsub s w) (dsub s w)) <$> l)) == qsum ((λ x, (x - m) * (x - m))%Q <$> vals l))%Q.
Proof.
  intros Hw. induction l as [|x l IH]; [done|]. rewrite fmap_cons, qsum_vals_cons, IH, dmul_exact, dsub_exact, Hw. done.
Qed.

Lemma window_stats p l : 0 < p → small_nat p → length l = p →
  (dval (window_mean p l) == mean (vals l))%Q ∧
  (dval (window_variance p (window_mean p l) l) == variance (vals l))%Q.
Proof.
  intros Hp Hs Hl. pose proof (dof_nat_nonzero p Hp Hs) as Hnz.
  assert (Hm : (dval (window_mean p l) == mean (vals l))%Q).
  { unfold window_mean, mean, vals. rewrite ddiv_exact, dsum_val, dof_nat_val by done. by rewrite length_fmap, Hl. }
  split; [done|]. unfold window_variance, variance, mean at 1. rewrite ddiv_exact, dsum_val, dof_nat_val by done.
  rewrite length_fmap. assert (Hlen : length (vals l) = p) by (unfold vals; by rewrite length_fmap).
  rewrite Hlen. apply Qmult_comp; [|done].
  by apply qsum_squares.
Qed.

Lemma bollinger_value_exact sqrt_f64 p k xs : 0 < p → small_nat p →
  match bollinger_value sqrt_f64 (feed bollinger_update xs (mkBollinger p k [])) with
  | None => length xs < p
  | Some v => p ≤ length xs ∧ (dval (middle v) == mean (vals (last_n p xs)))%Q ∧
      (∃ var, stddev v = sqrt_f64 var ∧ (dval var == variance (vals (last_n p xs)))%Q) ∧
      (dval (upper v) == dval (middle v) + dval k * dval (stddev v))%Q ∧
      (dval (lower v) == dval (middle v) - dval k * dval (stddev v))%Q
  end.
Proof.
  intros Hp Hs. rewrite bollinger_run by done. unfold bollinger_value. cbn [bb_samples bb_period bb_k].
  pose proof (last_n_length p xs) as Hl. destruct (Nat.ltb_spec (length (last_n p xs)) p) as [?|Hle]; [lia|].
  split; [lia|]. cbn [middle stddev upper lower].
  destruct (window_stats p (last_n p xs) Hp Hs ltac:(lia)) as [Hm Hv]. split; [done|].
  split; [by eexists|]. by rewrite dadd_exact, dsub_exact, dmul_exact.
Qed.

(** The windowed indicators are exact. Whatever was fed, the simple moving
    average, the weighted moving average and the Bollinger bands give a value
    exactly from the [period]-th sample on, and it is the mean, the linearly
    weighted mean, and the mean plus and minus [k] deviations of the last
    [period] samples, the deviation being the square root (through [f64]) of
    their population variance; the running sum of the simple average never
    drifts from the window. Smaller periods than the constructors accept
    panic. *)
Theorem windows_exact sqrt_f64 k p xs : small_nat p →
  match sma_new p with
  | Panicked => p = 0
  | Done s => match sma_value (feed sma_update xs s) with
              | None => length xs < p
              | Some v => p ≤ length xs ∧ (dval v == mean (vals (last_n p xs)))%Q
              end
  end ∧
  match wma_new p with
  | Panicked => p = 0
  | Done s => match wma_value (feed wma_update xs s) with
              | None => length xs < p
              | Some v => p ≤ length xs ∧ (dval v == weighted_mean (vals (last_n p xs)))%Q
              end
  end ∧
  match bollinger_new p k with
  | Panicked => p ≤ 1
  | Done s => match bollinger_value sqrt_f64 (feed bollinger_update xs s) with
              | None => length xs < p
              | Some v => p ≤ length xs ∧ (dval (middle v) == mean (vals (last_n p xs)))%Q ∧
                  (∃ var, stddev v = sqrt_f64 var ∧ (dval var == variance (vals (last_n p xs)))%Q) ∧
                  (dval (upper v) == dval (middle v) + dval k * dval (stddev v))%Q ∧
                  (dval (lower v) == dval (middle v) - dval k * dval (stddev v))%Q
              end
  end.
Proof.
  intros Hs. unfold sma_new, wma_new, bollinger_new. split; [|split].
  - destruct (Nat.ltb_spec 0 p) as [Hp|Hp]; [by apply sma_value_exact|lia].
  - destruct (Nat.ltb_spec 0 p) as [Hp|Hp]; [|lia]. pose proof (inject_pos p Hp) as Hq.
    assert (H2 : (dval (dof_nat 2) == 2)%Q) by (rewrite dof_nat_val by (unfold small_nat; lia); done).
    assert (Hw : (dval (ddiv (dmul (dof_nat p) (dadd (dof_nat p) dec1)) (dof_nat 2)) ==
      inject_Z (Z.of_nat p) * (inject_Z (Z.of_nat p) + 1) / 2)%Q).
    { rewrite ddiv_exact by (rewrite H2; lra). by rewrite dmul_exact, dadd_exact, dec1_val, H2, dof_nat_val. }
    apply wma_value_exact; try done. rewrite Hw. intros E.
    assert (0 < inject_Z (Z.of_nat p) * (inject_Z (Z.of_nat p) + 1) / 2)%Q; [|lra].
    apply Qlt_shift_div_l; [lra|]. pose proof (Qmult_lt_0_compat _ (inject_Z (Z.of_nat p) + 1) Hq ltac:(lra)). lra.
  - destruct (Nat.ltb_spec 1 p) as [Hp|Hp]; [|done]. apply bollinger_value_exact; [lia|done].
Qed.
End Averages.

Definition demo_prices : list (dec (Decimal := Qc_decimal)) := [dlit 9 0; dlit 1 0; dlit 2 0; dlit 3 0].
Definition demo_mean : option (dec (Decimal := Qc_decimal)) :=
  match sma_new 3 with Done s => sma_value (feed sma_update demo_prices s) | Panicked => None end.

Lemma windows_exact_witness : ∃ v, demo_mean = Some v ∧ (dval v == mean (vals (last_n 3 demo_prices)))%Q.
Proof.
  assert (Hs : small_nat 3) by (unfold small_nat; lia).
  destruct (windows_exact (D := Qc_decimal) (λ v, v) dec1 3 demo_prices Hs) as [H _]. unfold demo_mean.
  destruct (sma_new 3) as [s|]; [|discriminate H].
  destruct (sma_value (feed sma_update demo_prices s)) as [v|]; [|cbn in H; lia].
  exists v. split; [reflexivity|]. exact (proj2 H).
Defined.

(** ** The relative strength index stays in its range *)
Section RsiBounds.
Context {D : Decimal} {L : DecimalExact D}.

Definition rsi_feed (xs : list dec) (s : Rsi) : outcome Rsi :=
  fold_left (λ o x, match o with Done s => rsi_update x s | Panicked => Panicked end) xs (Done s).

Definition nonneg (d : dec) : Prop := (0 <= dval d)%Q.

Record rsi_inv (p n : nat) (s : Rsi) : Prop := {
  ri_period : rsi_period s = p;
  ri_prev : is_none (rsi_prev_close s) = (n =? 0);
  ri_seen : changes_seen s = n - 1;
  ri_gain : nonneg (sum_gain s);
  ri_loss : nonneg (sum_loss s);
  ri_avg : p ≤ changes_seen s → ∃ g l, avg_gain s = Some g ∧ avg_loss s = Some l ∧ nonneg g ∧ nonneg l;
}.

Lemma gain_nonneg c : nonneg (gain_of c).
Proof.
  unfold gain_of, nonneg. destruct (dltb dec0 c) eqn:E; [|rewrite dec0_val; lra].
  apply dltb_lt in E. unfold dlt in E. rewrite dec0_val in E. lra.
Qed.

Lemma loss_nonneg c : nonneg (loss_of c).
Proof.
  unfold loss_of, nonneg. destruct (dltb c dec0) eqn:E; [|rewrite dec0_val; lra].
  apply dltb_lt in E. unfold dlt in E. rewrite dec0_val in E. rewrite dneg_val. lra.
Qed.

Lemma nonneg_add a b : nonneg a → nonneg b → nonneg (dadd a b).
Proof. unfold nonneg. rewrite dadd_exact. lra. Qed.

Lemma nonneg_div a n : 0 < n → small_nat n → nonneg a → nonneg (ddiv a (dof_nat n)).
Proof.
  unfold nonneg. intros Hn Hs Ha. rewrite ddiv_exact, dof_nat_val by (try apply dof_nat_nonzero; done).
  apply Qle_shift_div_l; [by apply inject_pos|]. lra.
Qed.

Lemma wilder_nonneg p a x : 0 < p → small_nat p → nonneg a → nonneg x → nonneg (wilder p a x).
Proof.
  intros Hp Hs Ha Hx. unfold wilder. apply nonneg_div; [done..|]. apply nonneg_add; [|done].
  unfold nonneg in *. rewrite dmul_exact, dof_nat_val by (unfold small_nat in *; lia).
  apply Qmult_le_0_compat; [done|]. unfold Qle. cbn. lia.
Qed.

Lemma rsi_step p n x s : 1 < p → small_nat p → rsi_inv p n s →
  ∃ s', rsi_update x s = Done s' ∧ rsi_inv p (S n) s'.
Proof.
  intros Hp Hs [H1 H2 H3 H4 H5 H6]. unfold rsi_update. destruct (rsi_prev_close s) as [prev|] eqn:Eprev.
  2:{ eexists. split; [done|]. destruct n; [|done]. split; cbn; try done; lia. }
  assert (Hn : 0 < n) by (destruct n; [done|lia]). rewrite H1.
  set (g := gain_of _). set (l := loss_of _).
  assert (Hg : nonneg g) by apply gain_nonneg. assert (Hl : nonneg l) by apply loss_nonneg.
  assert (Hsg : nonneg (dadd (sum_gain s) g)) by by apply nonneg_add.
  assert (Hsl : nonneg (dadd (sum_loss s) l)) by by apply nonneg_add.
  destruct (Nat.ltb_spec (S (changes_seen s)) p) as [Hlt|Hge].
  { eexists. split; [done|]. split; cbn; try done; try lia. }
  destruct (Nat.eqb_spec (S (changes_seen s)) p) as [Heq|Hne].
  { eexists. split; [done|]. split; cbn; try done; try lia. intros _. do 2 eexists.
    do 2 (split; [done|]). split; apply nonneg_div; (done || lia). }
  destruct H6 as (ag & al & -> & -> & Hag & Hal); [lia|]. eexists. split; [done|]. split; cbn; try done; try lia.
  intros _. do 2 eexists. do 2 (split; [done|]). split; apply wilder_nonneg; (done || lia).
Qed.

Lemma rsi_feed_inv p xs s n : 1 < p → small_nat p → rsi_inv p n s →
  ∃ s', rsi_feed xs s = Done s' ∧ rsi_inv p (n + length xs) s'.
Proof.
  intros Hp Hs. revert n s. induction xs as [|x xs IH]; intros n s Hi.
  { exists s. cbn. by rewrite Nat.add_0_r. }
  destruct (rsi_step p n x s Hp Hs Hi) as (s1 & E & Hi1). destruct (IH (S n) s1 Hi1) as (s2 & E2 & Hi2).
  exists s2. unfold rsi_feed in *. cbn [fold_left]. rewrite E, E2. split; [done|].
  cbn [length]. by rewrite Nat.add_succ_r.
Qed.

Lemma rsi_new_inv p s : rsi_new p = Done s → rsi_inv p 0 s.
Proof.
  unfold rsi_new. destruct (Nat.ltb_spec 1 p); [|done]. intros [= <-].
  split; cbn; try done; try (unfold nonneg; rewrite dec0_val; lra). lia.
Qed.

Lemma hundred_val : (dval (dlit 100 0) == 100)%Q.
Proof. rewrite dlit_val; [done|]. by apply fits_int. Qed.

Lemma rsi_formula g l : nonneg g → (0 < dval l)%Q →
  (0 <= dval (dsub (dlit 100 0) (ddiv (dlit 100 0) (dadd dec1 (ddiv g l)))) <= 100)%Q.
Proof.
  intros Hg Hl. unfold nonneg in Hg.
  assert (Hr : (0 <= dval (ddiv g l))%Q).
  { rewrite ddiv_exact by lra. apply Qle_shift_div_l; lra. }
  assert (Hd : (1 <= dval (dadd dec1 (ddiv g l)))%Q) by (rewrite dadd_exact, dec1_val; lra).
  rewrite dsub_exact, hundred_val, ddiv_exact, hundred_val by lra. generalize dependent (dval (dadd dec1 (ddiv g l))).
  intros d Hd. assert (H1 : (100 / d <= 100)%Q) by (apply Qle_shift_div_r; lra).
  assert (H2 : (0 <= 100 / d)%Q) by (apply Qle_shift_div_l; lra). lra.
Qed.

(** The relative strength index never panics once built, gives a value
    exactly from the [period]-th price change on, and the value lies in
    [0, 100]; a period of 0 or 1 panics when it is built. *)
Theorem rsi_bounded p xs : small_nat p →
  match rsi_new p with
  | Panicked => p ≤ 1
  | Done s => ∃ s', rsi_feed xs s = Done s' ∧
      match rsi_value s' with
      | None => length xs ≤ p
      | Some v => p < length xs ∧ (0 <= dval v <= 100)%Q
      end
  end.
Proof.
  intros Hs. destruct (rsi_new p) as [s|] eqn:En.
  2:{ unfold rsi_new in En. destruct (Nat.ltb_spec 1 p); [done|lia]. }
  assert (Hp : 1 < p) by (unfold rsi_new in En; by destruct (Nat.ltb_spec 1 p)).
  destruct (rsi_feed_inv p xs s 0 Hp Hs (rsi_new_inv p s En)) as (s' & E & [H1 H2 H3 H4 H5 H6]). cbn in *.
  exists s'. split; [done|]. unfold rsi_value. rewrite H1.
  destruct (Nat.ltb_spec (changes_seen s') p) as [Hlt|Hge]; [lia|].
  destruct (H6 Hge) as (g & l & -> & -> & Hg & Hl). cbn. split; [lia|].
  destruct (is_zero l) eqn:Ez; [rewrite hundred_val; lra|]. apply is_zero_false in Ez.
  apply rsi_formula; [done|]. unfold nonneg in Hl. destruct (Qlt_le_dec 0 (dval l)); [done|].
  exfalso. apply Ez. apply Qle_antisym; done.
Qed.
End RsiBounds.

Definition demo_rsi : option (dec (Decimal := Qc_decimal)) :=
  match rsi_new 2 with
  | Done s => match rsi_feed demo_prices s with Done s => rsi_value s | Panicked => None end
  | Panicked => None
  end.

Lemma rsi_bounded_witness : ∃ v, demo_rsi = Some v ∧ (0 <= dval v <= 100)%Q.
Proof.
  assert (Hs : small_nat 2) by (unfold small_nat; lia).
  pose proof (rsi_bounded (D := Qc_decimal) 2 demo_prices Hs) as H. unfold demo_rsi.
  destruct (rsi_new 2) as [s|]; [|lia]. destruct H as (s' & E & H). rewrite E.
  destruct (rsi_value s') as [v|]; [|cbn in H; lia]. exists v. split; [reflexivity|]. exact (proj2 H).
Defined.
