(* ===== verification/Sla.v ===== *)
(** * Service level ([crates/risk/src/sla.rs])

    The tracker of the obligations to the exchange: what the engine's quote
    refresh tells it, the sample it takes every second, the presence per minute
    of the day and the reports over it. Instants are nanoseconds since the
    epoch, so that the pair of year and day of the year is the number of the
    day. The counters grow by at most one per second and are naturals. *)
From stdpp Require Import base list sets sorting.
From Stdlib Require Import ZArith QArith Qminmax Lqa Lia.
From S2P Require Import Prelude Decimal Types Indicators.
Local Open Scope nat_scope.

Section Sla.
Context {D : Decimal}.

(** ** Buckets *)
Record PresenceBucket := mkBucket {
  total_seconds : nat;
  compliant_seconds : nat;
  two_sided_seconds : nat;
  min_spread_bps : option dec;
  max_spread_bps : option dec;
}.

Definition bucket_default : PresenceBucket := mkBucket 0 0 0 None None.

(** A share in percent; all of nothing. *)
Definition share_pct (n total : nat) : dec :=
  if total =? 0 then dlit 100 0 else dmul (ddiv (dof_nat n) (dof_nat total)) (dlit 100 0).

Definition compliance_pct (b : PresenceBucket) : dec := share_pct (compliant_seconds b) (total_seconds b).

Definition widest (w : option dec) (s : dec) : option dec := Some (match w with Some m => dmax m s | None => s end).
Definition tightest (w : option dec) (s : dec) : option dec := Some (match w with Some m => dmin m s | None => s end).

Definition record_sample (compliant two_sided : bool) (spread : option dec) (b : PresenceBucket) : PresenceBucket :=
  mkBucket (S (total_seconds b)) (Nat.b2n compliant + compliant_seconds b) (Nat.b2n two_sided + two_sided_seconds b)
    (match spread with Some s => tightest (min_spread_bps b) s | None => min_spread_bps b end)
    (match spread with Some s => widest (max_spread_bps b) s | None => max_spread_bps b end).

(** ** The tracker *)
Record SlaConfig := mkSlaConfig {
  sla_max_spread_bps : dec;
  min_depth_quote : dec;
  min_uptime_pct : dec;
  two_sided_required : bool;
  max_requote_secs : Z;
  min_order_rest_secs : Z;
}.

Definition sla_config_default : SlaConfig := mkSlaConfig (dlit 100 0) (dlit 2000 0) (dlit 95 0) true 5 3.

Record SlaViolations := mkViolations {
  spread_too_wide : nat;
  insufficient_depth : nat;
  one_sided_quoting : nat;
  slow_requote : nat;
  total_downtime_secs : nat;
}.

Record SlaTracker := mkSla {
  sla_config : SlaConfig;
  total_ticks : nat;
  compliant_ticks : nat;
  spread_compliant_ticks : nat;
  is_quoting : bool;
  has_bid : bool;
  has_ask : bool;
  current_spread_bps : option dec;
  current_bid_depth_quote : dec;
  current_ask_depth_quote : dec;
  last_fill_at : option Z;
  last_requote_at : option Z;
  violations : SlaViolations;
  sla_started_at : Z;
  presence_buckets : list PresenceBucket;
  presence_day_key : option Z;
}.

Definition minutes_per_day : nat := 1440.

Definition sla_new (cfg : SlaConfig) (now : Z) : SlaTracker :=
  mkSla cfg 0 0 0 false false false None dec0 dec0 None None (mkViolations 0 0 0 0 0) now
    (replicate minutes_per_day bucket_default) None.

Definition second_ns : Z := 1000000000.
Definition day_ns : Z := 86400 * second_ns.
Definition day_key (now : Z) : Z := (now / day_ns)%Z.
Definition minute_of_day (now : Z) : nat := Z.to_nat (now mod day_ns / (60 * second_ns)).

(** ** The checks of a sample *)
Definition one_sided (s : SlaTracker) : bool := two_sided_required (sla_config s) && (negb (has_bid s) || negb (has_ask s)).
Definition spread_ok (s : SlaTracker) : bool :=
  match current_spread_bps s with Some spread => dleb spread (sla_max_spread_bps (sla_config s)) | None => false end.
Definition shallow (s : SlaTracker) : bool :=
  dltb (current_bid_depth_quote s) (min_depth_quote (sla_config s))
  || dltb (current_ask_depth_quote s) (min_depth_quote (sla_config s)).
Definition requote_slow (s : SlaTracker) : bool :=
  match last_fill_at s, last_requote_at s with
  | Some fill_at, Some requote_at => (max_requote_secs (sla_config s) <? Z.quot (requote_at - fill_at) second_ns)%Z
  | _, _ => false
  end.

Definition compliant_now (s : SlaTracker) : bool := negb (one_sided s) && spread_ok s && negb (shallow s).

Definition count_violations (s : SlaTracker) : SlaViolations :=
  let v := violations s in
  mkViolations (Nat.b2n (negb (spread_ok s) && negb (is_none (current_spread_bps s))) + spread_too_wide v)
    (Nat.b2n (shallow s) + insufficient_depth v) (Nat.b2n (one_sided s) + one_sided_quoting v)
    (Nat.b2n (requote_slow s) + slow_requote v) (total_downtime_secs v).

(** The buckets of the day of an instant: new ones on another day. *)
Definition buckets_for (now : Z) (s : SlaTracker) : list PresenceBucket :=
  if decide (presence_day_key s = Some (day_key now)) then presence_buckets s
  else replicate (length (presence_buckets s)) bucket_default.

Definition sla_tick (now : Z) (s : SlaTracker) : SlaTracker :=
  mkSla (sla_config s) (S (total_ticks s)) (Nat.b2n (compliant_now s) + compliant_ticks s)
    (Nat.b2n (spread_ok s) + spread_compliant_ticks s)
    (is_quoting s) (has_bid s) (has_ask s) (current_spread_bps s) (current_bid_depth_quote s) (current_ask_depth_quote s)
    (last_fill_at s) (last_requote_at s) (count_violations s) (sla_started_at s)
    (alter (record_sample (compliant_now s) (has_bid s && has_ask s) (current_spread_bps s)) (minute_of_day now)
       (buckets_for now s))
    (Some (day_key now)).

Definition update_quotes (now : Z) (bid_in ask_in : bool) (spread : option dec) (bid_depth ask_depth : dec) (s : SlaTracker) :
    SlaTracker :=
  mkSla (sla_config s) (total_ticks s) (compliant_ticks s) (spread_compliant_ticks s) (bid_in || ask_in) bid_in ask_in
    spread bid_depth ask_depth (last_fill_at s) (Some now) (violations s) (sla_started_at s) (presence_buckets s)
    (presence_day_key s).

Definition sla_on_fill (now : Z) (s : SlaTracker) : SlaTracker :=
  mkSla (sla_config s) (total_ticks s) (compliant_ticks s) (spread_compliant_ticks s) (is_quoting s) (has_bid s) (has_ask s)
    (current_spread_bps s) (current_bid_depth_quote s) (current_ask_depth_quote s) (Some now) (last_requote_at s)
    (violations s) (sla_started_at s) (presence_buckets s) (presence_day_key s).

(** ** Reports *)
Definition presence_pct_for_minute (minute : nat) (s : SlaTracker) : dec :=
  match presence_buckets s !! minute with Some b => compliance_pct b | None => dlit 100 0 end.

Definition presence_pct_for_range (start stop : nat) (s : SlaTracker) : dec :=
  let stop := Nat.min stop minutes_per_day in
  if stop <=? start then dlit 100 0
  else
    let bs := take (stop - start) (drop start (presence_buckets s)) in
    share_pct (sum_list (compliant_seconds <$> bs)) (sum_list (total_seconds <$> bs)).

(** The counters of the daily and of the hourly roll-up. *)
Record Rollup := mkRollup { ru_total : nat; ru_compliant : nat; ru_two_sided : nat; ru_minutes : nat; ru_worst : option dec }.

Definition rollup_step (r : Rollup) (b : PresenceBucket) : Rollup :=
  if total_seconds b =? 0 then r
  else mkRollup (ru_total r + total_seconds b) (ru_compliant r + compliant_seconds b) (ru_two_sided r + two_sided_seconds b)
         (S (ru_minutes r)) (match max_spread_bps b with Some m => widest (ru_worst r) m | None => ru_worst r end).

Definition rollup (bs : list PresenceBucket) : Rollup := fold_left rollup_step bs (mkRollup 0 0 0 0 None).

Record DailyPresenceSummary := mkDaily {
  presence_pct : dec; two_sided_pct : dec; minutes_with_data : nat; worst_spread_bps : option dec;
}.

Definition summary_of (r : Rollup) : DailyPresenceSummary :=
  mkDaily (share_pct (ru_compliant r) (ru_total r)) (share_pct (ru_two_sided r) (ru_total r)) (ru_minutes r) (ru_worst r).

Definition daily_presence_summary (s : SlaTracker) : DailyPresenceSummary := summary_of (rollup (presence_buckets s)).

(** The summary of an hour; the 24 of them. *)
Definition hour_summary (s : SlaTracker) (hour : nat) : DailyPresenceSummary :=
  summary_of (rollup (take 60 (drop (hour * 60) (presence_buckets s)))).
Definition hourly_presence_summary (s : SlaTracker) : list (nat * DailyPresenceSummary) :=
  (λ h, (h, hour_summary s h)) <$> seq 0 24.

Definition uptime_pct (s : SlaTracker) : dec := share_pct (compliant_ticks s) (total_ticks s).
Definition spread_compliance_pct (s : SlaTracker) : dec := share_pct (spread_compliant_ticks s) (total_ticks s).
Definition is_meeting_sla (s : SlaTracker) : bool := dleb (min_uptime_pct (sla_config s)) (uptime_pct s).

Record SlaStatus := mkSlaStatus {
  st_uptime_pct : dec; st_is_compliant : bool; st_violations : SlaViolations; st_spread_bps : option dec;
  st_bid_depth : dec; st_ask_depth : dec; session_duration_secs : Z;
}.

Definition sla_status (now : Z) (s : SlaTracker) : SlaStatus :=
  mkSlaStatus (uptime_pct s) (is_meeting_sla s) (violations s) (current_spread_bps s) (current_bid_depth_quote s)
    (current_ask_depth_quote s) (Z.quot (now - sla_started_at s) second_ns).

(** ** The engine around it *)

(** What a refresh that reaches its end reports: the quotes it wanted, and the
    spread of the market's book. *)
Definition quoted_notional (side : QuotePair → option Quote) (quotes : list QuotePair) : dec :=
  dsum ((λ q, dmul (q_price q) (q_qty q)) <$> omap side quotes).

Definition refresh_sla (now : Z) (quotes : list QuotePair) (book_spread_bps : option dec) (s : SlaTracker) : SlaTracker :=
  update_quotes now (existsb (λ q, negb (is_none (bid q))) quotes) (existsb (λ q, negb (is_none (ask q))) quotes)
    book_spread_bps (quoted_notional bid quotes) (quoted_notional ask quotes) s.

(** What the engine does to the tracker. *)
Inductive SlaEvent :=
| SlaQuotes (quotes : list QuotePair) (book_spread_bps : option dec)
| SlaFill
| SlaSecond.

Definition sla_step (s : SlaTracker) (te : Z * SlaEvent) : SlaTracker :=
  match te.2 with
  | SlaQuotes quotes spread => refresh_sla te.1 quotes spread s
  | SlaFill => sla_on_fill te.1 s
  | SlaSecond => sla_tick te.1 s
  end.
Definition sla_run (evs : list (Z * SlaEvent)) (s : SlaTracker) : SlaTracker := fold_left sla_step evs s.
End Sla.

(** ** What the reports must say *)
Section SlaFacts.
Context {D : Decimal} {DL : DecimalLaws D}.

(** A second of service: when, whether the obligations were met, whether both
    sides were quoted, and the spread of the market. *)
Record Sample := mkSample { sm_at : Z; sm_met : bool; sm_two_sided : bool; sm_spread : option dec }.

(** The obligations, of the quotes of the latest refresh. *)
Definition obligations_met (cfg : SlaConfig) (quotes : list QuotePair) (spread : option dec) : bool :=
  let bid_in := existsb (λ q, negb (is_none (bid q))) quotes in
  let ask_in := existsb (λ q, negb (is_none (ask q))) quotes in
  (negb (two_sided_required cfg) || bid_in && ask_in)
  && match spread with Some s => dleb s (sla_max_spread_bps cfg) | None => false end
  && dleb (min_depth_quote cfg) (quoted_notional bid quotes) && dleb (min_depth_quote cfg) (quoted_notional ask quotes).

Definition sample_of (cfg : SlaConfig) (now : Z) (cur : list QuotePair * option dec) : Sample :=
  mkSample now (obligations_met cfg cur.1 cur.2)
    (existsb (λ q, negb (is_none (bid q))) cur.1 && existsb (λ q, negb (is_none (ask q))) cur.1) cur.2.

(** The latest refresh and the samples so far. *)
Definition service_step (cfg : SlaConfig) (c : (list QuotePair * option dec) * list Sample) (te : Z * SlaEvent) :
    (list QuotePair * option dec) * list Sample :=
  match te.2 with
  | SlaQuotes quotes spread => ((quotes, spread), c.2)
  | SlaFill => c
  | SlaSecond => (c.1, c.2 ++ [sample_of cfg te.1 c.1])
  end.
Definition service (cfg : SlaConfig) (evs : list (Z * SlaEvent)) : (list QuotePair * option dec) * list Sample :=
  fold_left (service_step cfg) evs (([], None), []).

Definition cnt (p : Sample → bool) (l : list Sample) : nat := length (List.filter p l).

(** The widest of some spreads. *)
Definition is_worst (w : option dec) (l : list dec) : Prop :=
  match w with None => l = [] | Some w => w ∈ l ∧ ∀ x, x ∈ l → (dval x <= dval w)%Q end.

(** The minute of the day and the day of an instant in nanoseconds, and a share
    in percent as the decimals compute it. *)
Definition minute_at (t : Z) : nat := Z.to_nat ((t / 60000000000) mod 1440).
Definition day_at (t : Z) : Z := (t / 86400000000000)%Z.
Definition percent (n total : nat) : dec :=
  match total with
  | 0 => dlit 100 0
  | _ => dmul (ddiv (dlit (Z.of_nat n) 0) (dlit (Z.of_nat total) 0)) (dlit 100 0)
  end.

Lemma minute_is t : minute_of_day t = minute_at t.
Proof.
  unfold minute_of_day, minute_at, day_ns, second_ns. f_equal.
  change (86400 * 1000000000)%Z with (60000000000 * 1440)%Z. change (60 * 1000000000)%Z with 60000000000%Z.
  rewrite Z.rem_mul_r by lia. rewrite Z.add_comm, (Z.mul_comm 60000000000), Z.div_add_l by lia.
  rewrite (Z.div_small (t mod 60000000000)) by (apply Z.mod_pos_bound; lia). lia.
Qed.

Lemma day_is t : day_key t = day_at t.
Proof. reflexivity. Qed.

Lemma share_is n total : share_pct n total = percent n total.
Proof. unfold share_pct, percent. by destruct total. Qed.

(** A report over the samples of a window. *)
Definition reports (r : DailyPresenceSummary) (l : list Sample) (minutes : nat) : Prop :=
  presence_pct r = percent (cnt sm_met l) (length l) ∧ two_sided_pct r = percent (cnt sm_two_sided l) (length l) ∧
  minutes_with_data r = minutes ∧ is_worst (worst_spread_bps r) (omap sm_spread l).

(** *** Buckets of samples *)
Definition record (b : PresenceBucket) (x : Sample) : PresenceBucket := record_sample (sm_met x) (sm_two_sided x) (sm_spread x) b.
Definition at_minute (m : nat) (x : Sample) : bool := minute_at (sm_at x) =? m.
Definition bucket_of (l : list Sample) (m : nat) : PresenceBucket := fold_left record (List.filter (at_minute m) l) bucket_default.
Definition buckets_of (l : list Sample) : list PresenceBucket := bucket_of l <$> seq 0 minutes_per_day.

Lemma is_worst_widest w l x : is_worst w l → is_worst (widest w x) (l ++ [x]).
Proof.
  unfold widest. destruct w as [m|]; cbn; [|intros ->; cbn; split; [by apply list_elem_of_singleton|]].
  - intros [Hin Hmax]. unfold dmax. destruct (dleb m x) eqn:Ex; dec_to_Q; (split; [set_solver|]); intros y Hy;
      apply elem_of_app in Hy; destruct Hy as [Hy|Hy]; try (apply list_elem_of_singleton in Hy as ->); try (specialize (Hmax y Hy)); lra.
  - intros y Hy. apply list_elem_of_singleton in Hy as ->. lra.
Qed.

Lemma is_worst_app w1 w2 l1 l2 : is_worst w1 l1 → is_worst w2 l2 →
  is_worst (match w2 with Some m => widest w1 m | None => w1 end) (l1 ++ l2).
Proof.
  intros H1 H2. destruct w2 as [m|]; [|by rewrite H2, app_nil_r]. destruct H2 as [Hm Hmax].
  pose proof (is_worst_widest w1 l1 m H1) as Hw. destruct (widest w1 m) as [w|] eqn:Ew; [|by destruct w1].
  destruct Hw as [Hin Hw]. split.
  - apply elem_of_app in Hin. apply elem_of_app. destruct Hin as [Hin|Hin]; [by left|].
    apply list_elem_of_singleton in Hin as ->. by right.
  - intros x Hx. apply elem_of_app in Hx. destruct Hx as [Hx|Hx]; [apply Hw; set_solver|].
    assert (dval m <= dval w)%Q by (apply Hw; set_solver). specialize (Hmax x Hx). lra.
Qed.

Lemma is_worst_equiv w l l' : (∀ x, x ∈ l ↔ x ∈ l') → is_worst w l → is_worst w l'.
Proof.
  intros He. destruct w as [w|]; cbn.
  - intros [Hin Hw]. split; [by apply He|]. intros x Hx. by apply Hw, He.
  - intros ->. destruct l' as [|x l']; [done|]. specialize (He x). set_solver.
Qed.

(** What a bucket holds after some samples. *)
Lemma records_hold l : ∀ b L, is_worst (max_spread_bps b) L →
  let b' := fold_left record l b in
  total_seconds b' = length l + total_seconds b ∧ compliant_seconds b' = cnt sm_met l + compliant_seconds b ∧
  two_sided_seconds b' = cnt sm_two_sided l + two_sided_seconds b ∧ is_worst (max_spread_bps b') (L ++ omap sm_spread l).
Proof.
  induction l as [|x l IH]; intros b L Hb; [cbn; by rewrite app_nil_r|]. cbn [fold_left].
  destruct (IH (record b x) (L ++ omap sm_spread [x])) as (H1 & H2 & H3 & H4).
  { unfold record, record_sample. cbn. destruct (sm_spread x) as [sp|]; [by apply is_worst_widest|by rewrite app_nil_r]. }
  cbn zeta. rewrite H1, H2, H3. cbn. unfold cnt. cbn. split; [lia|]. split; [destruct (sm_met x); cbn; lia|].
  split; [destruct (sm_two_sided x); cbn; lia|]. rewrite <- app_assoc in H4.
  revert H4. cbn. by destruct (sm_spread x).
Qed.

Lemma cnt_filter p q l : cnt p (List.filter q l) = cnt (λ x, q x && p x) l.
Proof.
  unfold cnt. induction l as [|x l IH]; [done|]. cbn. destruct (q x); cbn; [|exact IH].
  destruct (p x); cbn; by rewrite IH.
Qed.

Lemma bucket_holds l m : let b := bucket_of l m in
  total_seconds b = cnt (at_minute m) l ∧ compliant_seconds b = cnt (λ x, at_minute m x && sm_met x) l ∧
  two_sided_seconds b = cnt (λ x, at_minute m x && sm_two_sided x) l ∧
  is_worst (max_spread_bps b) (omap sm_spread (List.filter (at_minute m) l)).
Proof.
  destruct (records_hold (List.filter (at_minute m) l) bucket_default [] eq_refl) as (H1 & H2 & H3 & H4).
  unfold bucket_of. cbn zeta. rewrite H1, H2, H3. cbn [total_seconds compliant_seconds two_sided_seconds bucket_default].
  rewrite !Nat.add_0_r, !cnt_filter. done.
Qed.

(** *** Roll-ups *)
Definition in_minutes (ms : list nat) (x : Sample) : bool := existsb (λ m, at_minute m x) ms.

Lemma cnt_split p q r l : (∀ x, r x = p x || q x) → (∀ x, p x = true → q x = false) → cnt r l = cnt p l + cnt q l.
Proof.
  intros Hr Hd. unfold cnt. induction l as [|x l IH]; [done|]. cbn. rewrite Hr. specialize (Hd x).
  destruct (p x); cbn; [rewrite Hd by done; cbn; lia|]. destruct (q x); cbn; lia.
Qed.

Lemma at_minute_snoc ms m x : m ∉ ms → in_minutes ms x = true → at_minute m x = false.
Proof.
  intros Hm H. apply existsb_exists in H. destruct H as (k & Hk & Hx). apply Nat.eqb_eq in Hx. apply Nat.eqb_neq.
  intros <-. apply Hm. rewrite <- Hx in Hk. by apply list_elem_of_In.
Qed.

Lemma in_minutes_snoc ms m x : in_minutes (ms ++ [m]) x = in_minutes ms x || at_minute m x.
Proof. unfold in_minutes. rewrite existsb_app. cbn. by rewrite orb_false_r. Qed.

Lemma rollup_holds l ms : NoDup ms → let r := rollup (bucket_of l <$> ms) in
  ru_total r = cnt (in_minutes ms) l ∧ ru_compliant r = cnt (λ x, in_minutes ms x && sm_met x) l ∧
  ru_two_sided r = cnt (λ x, in_minutes ms x && sm_two_sided x) l ∧
  ru_minutes r = length (List.filter (λ m, existsb (at_minute m) l) ms) ∧
  is_worst (ru_worst r) (omap sm_spread (List.filter (in_minutes ms) l)).
Proof.
  induction ms as [|m ms IH] using rev_ind.
  - intros _. assert (Hf : ∀ p : Sample → bool, (∀ x, p x = false) → List.filter p l = []).
    { intros p Hp. clear - Hp. induction l as [|x l IH]; [done|]. cbn. by rewrite Hp. }
    unfold cnt. cbn zeta. rewrite !Hf by done. done.
  - intros Hnd. apply NoDup_app in Hnd. destruct Hnd as (Hnd & Hm & _).
    assert (Hmi : m ∉ ms) by (intros H; apply (Hm m H); by apply list_elem_of_singleton).
    specialize (IH Hnd). cbn zeta in IH. destruct IH as (I1 & I2 & I3 & I4 & I5).
    rewrite fmap_app. cbn [fmap list_fmap]. unfold rollup in *. rewrite fold_left_app. cbn [fold_left].
    set (r := fold_left _ _ _) in *. destruct (bucket_holds l m) as (B1 & B2 & B3 & B4). cbn zeta in B1, B2, B3, B4.
    set (b := bucket_of l m) in *.
    assert (C1 : cnt (in_minutes (ms ++ [m])) l = cnt (in_minutes ms) l + cnt (at_minute m) l).
    { apply cnt_split; [intros x; apply in_minutes_snoc|]. intros x Hx. by apply (at_minute_snoc ms). }
    assert (C2 : ∀ p : Sample → bool, cnt (λ x, in_minutes (ms ++ [m]) x && p x) l =
      cnt (λ x, in_minutes ms x && p x) l + cnt (λ x, at_minute m x && p x) l).
    { intros p. apply cnt_split; intros x.
      - rewrite in_minutes_snoc. by destruct (in_minutes ms x), (at_minute m x), (p x).
      - intros Hx. apply andb_true_iff in Hx. rewrite (at_minute_snoc ms m x) by tauto. done. }
    assert (C3 : is_worst (match max_spread_bps b with Some w => widest (ru_worst r) w | None => ru_worst r end)
      (omap sm_spread (List.filter (in_minutes (ms ++ [m])) l))).
    { eapply is_worst_equiv; [|apply (is_worst_app _ _ _ _ I5 B4)]. intros y.
      rewrite elem_of_app, !list_elem_of_omap. setoid_rewrite list_elem_of_In. setoid_rewrite List.filter_In.
      setoid_rewrite in_minutes_snoc. setoid_rewrite orb_true_iff. naive_solver. }
    cbn zeta. unfold rollup_step. rewrite C1, !C2, List.filter_app, length_app. cbn [List.filter].
    destruct (total_seconds b =? 0) eqn:Et.
    + apply Nat.eqb_eq in Et. rewrite B1 in Et. assert (Hno : List.filter (at_minute m) l = []) by (by apply length_zero_iff_nil).
      assert (Hex : existsb (at_minute m) l = false).
      { apply not_true_is_false. intros H. apply existsb_exists in H. destruct H as (x & Hx & Hmx).
        assert (In x (List.filter (at_minute m) l)) as Hi by (by apply List.filter_In). by rewrite Hno in Hi. }
      assert (Hz : ∀ p : Sample → bool, cnt (λ x, at_minute m x && p x) l = 0).
      { intros p. unfold cnt. destruct (List.filter (λ x, at_minute m x && p x) l) as [|x t] eqn:Ef; [done|].
        assert (In x (List.filter (λ x, at_minute m x && p x) l)) as Hi by (rewrite Ef; by left).
        apply List.filter_In in Hi. destruct Hi as [Hi Hp]. apply andb_true_iff in Hp.
        assert (In x (List.filter (at_minute m) l)) as Hi' by (apply List.filter_In; tauto). by rewrite Hno in Hi'. }
      rewrite Et, !Hz, Hex, !Nat.add_0_r. split; [exact I1|]. split; [exact I2|].
      split; [exact I3|]. split; [exact I4|]. rewrite Hno in B4. destruct (max_spread_bps b) as [w|]; [|exact C3].
      destruct B4 as [B4 _]. by apply elem_of_nil in B4.
    + apply Nat.eqb_neq in Et. assert (Hex : existsb (at_minute m) l = true).
      { rewrite B1 in Et. unfold cnt in Et. destruct (List.filter (at_minute m) l) as [|x t] eqn:Ef; [done|].
        assert (In x (List.filter (at_minute m) l)) as Hi by (rewrite Ef; by left).
        apply List.filter_In in Hi. apply existsb_exists. eauto. }
      rewrite Hex. cbn. rewrite I1, I2, I3, I4, B1, B2, B3. split; [done|]. split; [done|]. split; [done|].
      split; [lia|exact C3].
Qed.

(** *** The samples of the day *)
Definition same_day (x y : Sample) : bool := (day_at (sm_at x) =? day_at (sm_at y))%Z.
Definition day_samples (l : list Sample) : list Sample :=
  match last l with Some x => List.filter (same_day x) l | None => [] end.

Definition last_day (l : list Sample) : option Z := (λ x, day_at (sm_at x)) <$> last l.

Lemma day_samples_snoc l x : StronglySorted Z.le (sm_at <$> l ++ [x]) →
  day_samples (l ++ [x]) = (if decide (last_day l = Some (day_at (sm_at x))) then day_samples l else []) ++ [x].
Proof.
  intros Hs. unfold day_samples at 1. rewrite last_snoc, List.filter_app. cbn [List.filter].
  unfold same_day at 2. rewrite Z.eqb_refl. f_equal. unfold last_day, day_samples.
  destruct (last l) as [y|] eqn:El; cbn; [|rewrite last_None in El; by rewrite El].
  apply last_Some in El. destruct El as [l' ->]. destruct (decide _) as [Hd|Hd].
  - injection Hd as Hd. apply List.filter_ext. intros z. unfold same_day. by rewrite Hd.
  - assert (Hlt : (day_at (sm_at y) < day_at (sm_at x))%Z).
    { apply Z.le_neq. split; [|intros H; apply Hd; by rewrite H]. apply Z.div_le_mono; [lia|].
      rewrite !fmap_app, <- app_assoc in Hs. apply StronglySorted_app in Hs. destruct Hs as (_ & _ & Hs).
      cbn in Hs. apply StronglySorted_inv in Hs. destruct Hs as [_ Hs]. by apply Forall_cons in Hs as [Hs _]. }
    assert (Hall : ∀ z, z ∈ l' ++ [y] → (day_at (sm_at z) <= day_at (sm_at y))%Z).
    { intros z Hz. apply Z.div_le_mono; [lia|]. apply elem_of_app in Hz. destruct Hz as [Hz|Hz].
      - rewrite !fmap_app in Hs. apply StronglySorted_app in Hs. destruct Hs as (_ & Hs & _).
        apply StronglySorted_app in Hs. destruct Hs as (Hs & _ & _). apply Hs; [by apply list_elem_of_fmap_2|cbn; set_solver].
      - apply list_elem_of_singleton in Hz as ->. lia. }
    clear - Hall Hlt. induction (l' ++ [y]) as [|z t IH]; [done|]. cbn. unfold same_day at 1.
    assert (day_at (sm_at z) <= day_at (sm_at y))%Z by (apply Hall; set_solver).
    rewrite (proj2 (Z.eqb_neq _ _)) by lia. apply IH. intros w Hw. apply Hall. set_solver.
Qed.

Lemma buckets_snoc l x :
  alter (record_sample (sm_met x) (sm_two_sided x) (sm_spread x)) (minute_of_day (sm_at x)) (buckets_of l) = buckets_of (l ++ [x]).
Proof.
  rewrite minute_is.
  apply list_eq. intros i. unfold buckets_of. rewrite list_lookup_alter, !list_lookup_fmap.
  destruct (decide (i < minutes_per_day)) as [Hi|Hi].
  2: { destruct (decide _) as [->|]; by rewrite !lookup_seq_ge by lia. }
  destruct (decide _) as [<-|Hne]; rewrite !lookup_seq_lt by done.
  - cbn. f_equal. unfold bucket_of. rewrite List.filter_app, fold_left_app. cbn [List.filter].
    by rewrite (proj2 (Nat.eqb_eq _ _) eq_refl : at_minute (minute_at (sm_at x)) x = true).
  - cbn. f_equal. unfold bucket_of. rewrite List.filter_app, fold_left_app. cbn [List.filter].
    by rewrite (proj2 (Nat.eqb_neq _ _) Hne : at_minute i x = false).
Qed.

Lemma buckets_nil : replicate minutes_per_day bucket_default = buckets_of [].
Proof.
  unfold buckets_of. apply list_eq. intros i. rewrite list_lookup_fmap. destruct (decide (i < minutes_per_day)) as [Hi|Hi].
  - by rewrite lookup_replicate_2, lookup_seq_lt.
  - rewrite lookup_seq_ge by lia. apply lookup_ge_None. rewrite length_replicate. lia.
Qed.

(** *** The tracker holds the samples *)
Record tracks (cfg : SlaConfig) (s : SlaTracker) (c : (list QuotePair * option dec) * list Sample) : Prop := {
  tr_cfg : sla_config s = cfg;
  tr_bid : has_bid s = existsb (λ q, negb (is_none (bid q))) c.1.1;
  tr_ask : has_ask s = existsb (λ q, negb (is_none (ask q))) c.1.1;
  tr_spread : current_spread_bps s = c.1.2;
  tr_bid_depth : current_bid_depth_quote s = quoted_notional bid c.1.1;
  tr_ask_depth : current_ask_depth_quote s = quoted_notional ask c.1.1;
  tr_total : total_ticks s = length c.2;
  tr_met : compliant_ticks s = cnt sm_met c.2;
  tr_day : presence_day_key s = last_day c.2;
  tr_buckets : presence_buckets s = buckets_of (day_samples c.2);
}.

Lemma compliant_is_met cfg s c : tracks cfg s c → compliant_now s = obligations_met cfg c.1.1 c.1.2.
Proof.
  intros [H1 H2 H3 H4 H5 H6 _ _ _ _]. unfold compliant_now, one_sided, spread_ok, shallow, obligations_met.
  rewrite H1, H2, H3, H4, H5, H6. unfold dltb.
  destruct (two_sided_required cfg), (existsb _ c.1.1), (existsb _ c.1.1), (c.1.2); cbn; try done;
    destruct (dleb _ _); cbn; try done; destruct (dleb _ _); cbn; try done; by destruct (dleb _ _).
Qed.

Lemma buckets_for_day cfg s c now : tracks cfg s c →
  buckets_for now s = buckets_of (if decide (last_day c.2 = Some (day_at now)) then day_samples c.2 else []).
Proof.
  intros H. unfold buckets_for. rewrite (tr_day _ _ _ H), (tr_buckets _ _ _ H). destruct (decide _); [done|].
  rewrite <- buckets_nil. unfold buckets_of. by rewrite length_fmap, length_seq.
Qed.

Lemma tracks_step cfg s c te : tracks cfg s c → StronglySorted Z.le (sm_at <$> (service_step cfg c te).2) →
  tracks cfg (sla_step s te) (service_step cfg c te).
Proof.
  intros H Hs. pose proof (compliant_is_met _ _ _ H) as Hmet. destruct te as [now [quotes spread| |]].
  - destruct H. by split.
  - destruct H. by split.
  - cbn in Hs. pose proof (buckets_for_day _ _ _ now H) as Hb.
    pose proof (day_samples_snoc _ _ Hs) as Hd. cbn [sample_of sm_at] in Hd.
    destruct H. split; try done; cbn [service_step sla_step fst snd] in *.
    + cbn. rewrite length_app, tr_total0. cbn. lia.
    + cbn. unfold cnt in *. rewrite List.filter_app, length_app, tr_met0, Hmet. cbn.
      destruct (obligations_met cfg c.1.1 c.1.2); cbn; lia.
    + cbn. unfold last_day. by rewrite last_snoc.
    + rewrite Hd, <- buckets_snoc, <- Hb. cbn. by rewrite Hmet, tr_bid0, tr_ask0, tr_spread0.
Qed.

(** The samples are taken at the seconds of the events. *)
Lemma service_times cfg evs : ∀ c, (sm_at <$> (fold_left (service_step cfg) evs c).2) =
  (sm_at <$> c.2) ++ omap (λ te, match te.2 with SlaSecond => Some te.1 | _ => None end) evs.
Proof.
  induction evs as [|te evs IH]; intros c; [cbn; by rewrite app_nil_r|]. cbn [fold_left]. rewrite IH.
  destruct te as [t [quotes spread| |]]; cbn; [done|done|]. by rewrite fmap_app, <- app_assoc.
Qed.

Lemma tracks_run cfg now evs : StronglySorted Z.le evs.*1 → tracks cfg (sla_run evs (sla_new cfg now)) (service cfg evs).
Proof.
  intros Hs. induction evs as [|te evs IH] using rev_ind.
  - by split.
  - unfold sla_run, service in *. rewrite !fold_left_app. cbn [fold_left]. apply tracks_step.
    + apply IH. rewrite fmap_app in Hs. by apply StronglySorted_app in Hs as (_ & Hs & _).
    + pose proof (service_times cfg (evs ++ [te]) (([], None), [])) as Ht. rewrite fold_left_app in Ht. cbn [fold_left] in Ht.
      rewrite Ht. cbn [fmap list_fmap app snd]. clear - Hs. induction (evs ++ [te]) as [|[t ev] l IH]; [constructor|].
      cbn in Hs. apply StronglySorted_inv in Hs. destruct Hs as [Hs Hall]. specialize (IH Hs). cbn.
      destruct ev; cbn; [exact IH|exact IH|]. constructor; [exact IH|]. rewrite Forall_forall in *. intros x Hx.
      apply Hall. apply list_elem_of_omap in Hx. destruct Hx as ([t' ev'] & Hin & He). cbn in He.
      destruct ev'; try done. injection He as ->. apply list_elem_of_fmap. by exists (x, SlaSecond).
Qed.

(** *** The reports *)
Lemma minute_lt now : minute_of_day now < minutes_per_day.
Proof.
  unfold minute_of_day, minutes_per_day. assert (0 < day_ns)%Z by (unfold day_ns, second_ns; lia).
  pose proof (Z.mod_pos_bound now day_ns ltac:(done)). assert (now mod day_ns / (60 * second_ns) < 1440)%Z.
  { apply Z.div_lt_upper_bound; [unfold second_ns; lia|]. unfold day_ns, second_ns in *. lia. }
  assert (0 <= now mod day_ns / (60 * second_ns))%Z by (apply Z.div_pos; [lia|unfold second_ns; lia]). lia.
Qed.

Definition minutes_with (l : list Sample) (ms : list nat) : nat := length (List.filter (λ m, existsb (at_minute m) l) ms).

Lemma in_minutes_seq a n x : in_minutes (seq a n) x = (a <=? minute_at (sm_at x)) && (minute_at (sm_at x) <? a + n).
Proof.
  apply eq_true_iff_eq. unfold in_minutes. rewrite existsb_exists, andb_true_iff, Nat.leb_le, Nat.ltb_lt. split.
  - intros (m & Hm & He). apply Nat.eqb_eq in He. apply in_seq in Hm. lia.
  - intros H. exists (minute_at (sm_at x)). split; [apply in_seq; lia|by apply Nat.eqb_eq].
Qed.

Lemma summary_reports l a n : reports (summary_of (rollup (bucket_of l <$> seq a n))) (List.filter (in_minutes (seq a n)) l)
  (minutes_with l (seq a n)).
Proof.
  destruct (rollup_holds l (seq a n) (NoDup_seq a n)) as (H1 & H2 & H3 & H4 & H5). cbn zeta in *. unfold reports, summary_of.
  cbn [presence_pct two_sided_pct minutes_with_data worst_spread_bps]. rewrite H1, H2, H3, H4, !cnt_filter, !share_is. done.
Qed.

Lemma filter_all (p : Sample → bool) l : (∀ x, p x = true) → List.filter p l = l.
Proof. intros Hp. induction l as [|x l IH]; [done|]. cbn. by rewrite Hp, IH. Qed.

Definition in_hour (h : nat) (x : Sample) : bool := ((sm_at x / 3600000000000) mod 24 =? Z.of_nat h)%Z.

Lemma in_hour_minutes h x : in_minutes (seq (h * 60) 60) x = in_hour h x.
Proof.
  rewrite in_minutes_seq. apply eq_true_iff_eq. unfold in_hour, minute_at. rewrite andb_true_iff, Nat.leb_le, Nat.ltb_lt, Z.eqb_eq.
  change 3600000000000%Z with (60000000000 * 60)%Z. rewrite <- Z.div_div by lia. set (m := (sm_at x / 60000000000)%Z).
  assert (Hm : ((m / 60) mod 24 = m mod 1440 / 60)%Z).
  { change 1440%Z with (60 * 24)%Z. rewrite Z.rem_mul_r by lia. rewrite Z.add_comm, (Z.mul_comm 60), Z.div_add_l by lia.
    rewrite (Z.div_small (m mod 60)) by (apply Z.mod_pos_bound; lia). lia. }
  rewrite Hm. pose proof (Z.mod_pos_bound m 1440 ltac:(lia)). pose proof (Z.div_mod (m mod 1440) 60 ltac:(lia)).
  pose proof (Z.mod_pos_bound (m mod 1440) 60 ltac:(lia)). lia.
Qed.

(** C23: however refreshes, fills and seconds interleave under a clock that does
    not run backwards, the reports are those of the samples: the uptime is the
    share of all seconds in which the last refresh met the obligations; the
    daily presence, the minutes with data and the widest spread are those of
    the seconds of the current day, and each hour's of its own seconds. *)
Theorem presence_is_share cfg now evs (Hclock : StronglySorted Z.le evs.*1) :
  let s := sla_run evs (sla_new cfg now) in
  let l := (service cfg evs).2 in
  let today := day_samples l in
  uptime_pct s = percent (cnt sm_met l) (length l) ∧
  reports (daily_presence_summary s) today (minutes_with today (seq 0 minutes_per_day)) ∧
  ∀ h, h < 24 → reports (hour_summary s h) (List.filter (in_hour h) today) (minutes_with today (seq (h * 60) 60)).
Proof.
  intros s l today. pose proof (tracks_run cfg now evs Hclock) as H. fold s in H. split; [|split].
  - unfold uptime_pct. by rewrite (tr_total _ _ _ H), (tr_met _ _ _ H), share_is.
  - unfold daily_presence_summary. rewrite (tr_buckets _ _ _ H). fold l today. unfold buckets_of.
    pose proof (summary_reports today 0 minutes_per_day) as Hr. rewrite filter_all in Hr; [exact Hr|].
    intros x. rewrite in_minutes_seq. apply andb_true_iff. split; [done|]. apply Nat.ltb_lt. rewrite <- minute_is. apply minute_lt.
  - intros h Hh. unfold hour_summary. rewrite (tr_buckets _ _ _ H). fold l today. unfold buckets_of.
    rewrite <- fmap_drop, <- fmap_take, drop_seq, take_seq.
    replace (60 `min` (minutes_per_day - h * 60)) with 60 by (unfold minutes_per_day; lia). cbn [Nat.add].
    pose proof (summary_reports today (h * 60) 60) as Hr.
    rewrite (List.filter_ext _ _ (in_hour_minutes h)) in Hr. exact Hr.
Qed.

(** A share is the exact percentage when its quotient is representable. *)
Lemma share_pct_val n total : 0 < total → (Z.of_nat total < 2 ^ 64)%Z → n ≤ total →
  let q := (inject_Z (Z.of_nat n) / inject_Z (Z.of_nat total))%Q in
  fits q → fits (q * 100)%Q → (dval (share_pct n total) == q * 100)%Q.
Proof.
  intros Ht Hw Hn q Hq Hq'. unfold share_pct. rewrite (proj2 (Nat.eqb_neq _ _)) by lia. unfold dof_nat.
  assert (Et : (dval (dlit (Z.of_nat total) 0) == inject_Z (Z.of_nat total))%Q) by (apply dlit_int; lia).
  assert (En : (dval (dlit (Z.of_nat n) 0) == inject_Z (Z.of_nat n))%Q) by (apply dlit_int; lia).
  assert (Hnz : ¬ (inject_Z (Z.of_nat total) == 0)%Q).
  { change 0%Q with (inject_Z 0). rewrite inject_Z_injective. lia. }
  assert (Ed : (dval (ddiv (dlit (Z.of_nat n) 0) (dlit (Z.of_nat total) 0)) == q)%Q).
  { rewrite ddiv_val; rewrite ?En, ?Et; done. }
  assert (Eh : (dval (dlit 100 0) == 100)%Q) by (apply (dlit_int 100); lia).
  rewrite dmul_val; rewrite ?Ed, ?Eh; done.
Qed.

(** *** Where the code departs from its comments *)

(** The state of the last refresh stays: while the engine's gates refuse, the
    tracker counts every second as served. *)
Lemma paused_counts_as_served s n now : compliant_now s = true →
  compliant_ticks (Nat.iter n (sla_tick now) s) = n + compliant_ticks s ∧ compliant_now (Nat.iter n (sla_tick now) s) = true.
Proof.
  intros H. induction n as [|n [IH1 IH2]]; [done|]. change (Nat.iter (S n) (sla_tick now) s) with (sla_tick now (Nat.iter n (sla_tick now) s)).
  generalize dependent (Nat.iter n (sla_tick now) s). intros s' IH1 IH2. split; [|exact IH2].
  unfold sla_tick. cbn [compliant_ticks]. by rewrite IH2, IH1.
Qed.

(** The spread sampled is the market's: the prices of the quotes do not enter. *)
Lemma quote_prices_ignored cfg quotes spread : obligations_met cfg quotes spread = true →
  ∀ quotes', existsb (λ q, negb (is_none (bid q))) quotes' = existsb (λ q, negb (is_none (bid q))) quotes →
    existsb (λ q, negb (is_none (ask q))) quotes' = existsb (λ q, negb (is_none (ask q))) quotes →
    quoted_notional bid quotes' = quoted_notional bid quotes → quoted_notional ask quotes' = quoted_notional ask quotes →
    obligations_met cfg quotes' spread = true.
Proof. intros H quotes' H1 H2 H3 H4. unfold obligations_met in *. by rewrite H1, H2, H3, H4. Qed.

(** The re-quote is timed at the latest refresh, not at the first after the
    fill: any fill counts as slow once refreshes have gone on long enough. *)
Lemma prompt_requote_counted_slow fill_at now s quotes spread :
  (max_requote_secs (sla_config s) * second_ns + second_ns <= now - fill_at)%Z → (0 <= max_requote_secs (sla_config s))%Z →
  requote_slow (refresh_sla now quotes spread (refresh_sla (fill_at + 1) quotes spread (sla_on_fill fill_at s))) = true.
Proof.
  intros H H0. unfold requote_slow. cbn. apply Z.ltb_lt. assert (Hns : (0 < second_ns)%Z) by (unfold second_ns; lia).
  rewrite Z.quot_div_nonneg by lia. apply Z.lt_le_trans with (max_requote_secs (sla_config s) + 1)%Z; [lia|].
  apply Z.div_le_lower_bound; lia.
Qed.

(** Neither the rest time nor the slow re-quotes bear on compliance. *)
Lemma rest_time_ignored s secs rest : compliant_now (mkSla
    (mkSlaConfig (sla_max_spread_bps (sla_config s)) (min_depth_quote (sla_config s)) (min_uptime_pct (sla_config s))
       (two_sided_required (sla_config s)) secs rest)
    (total_ticks s) (compliant_ticks s) (spread_compliant_ticks s) (is_quoting s) (has_bid s) (has_ask s)
    (current_spread_bps s) (current_bid_depth_quote s) (current_ask_depth_quote s) (last_fill_at s) (last_requote_at s)
    (violations s) (sla_started_at s) (presence_buckets s) (presence_day_key s)) = compliant_now s.
Proof. reflexivity. Qed.
End SlaFacts.

(** ** On concrete inputs *)
Section Demo.
Local Existing Instance Qc_decimal.

Definition sla_quotes (px qty : Z) : list QuotePair :=
  [mkQuotePair (Some (mkQuote Buy (dlit px 0) (dlit qty 0))) (Some (mkQuote Sell (dlit (px + 1) 0) (dlit qty 0)))].

(** A day and its midnight: two seconds before it, three after, one of them
    with a wide market and one without an ask. *)
Definition sla_events : list (Z * SlaEvent) :=
  let at_s n := (n * second_ns)%Z in
  [(at_s 86398%Z, SlaQuotes (sla_quotes 1000 5) (Some (dlit 10 0))); (at_s 86398%Z, SlaSecond); (at_s 86399%Z, SlaSecond);
   (at_s 86400%Z, SlaSecond); (at_s 86401%Z, SlaQuotes (sla_quotes 1000 5) (Some (dlit 150 0))); (at_s 86401%Z, SlaFill);
   (at_s 86401%Z, SlaSecond); (at_s 86460%Z, SlaSecond); (at_s 86461%Z, SlaQuotes (sla_quotes 1000 5) (Some (dlit 20 0)));
   (at_s 86461%Z, SlaSecond)].
End Demo.

Lemma presence_is_share_witness :
  let s := sla_run sla_events (sla_new (D := Qc_decimal) sla_config_default 0) in
  presence_pct (daily_presence_summary s) = share_pct 2 4 ∧ minutes_with_data (daily_presence_summary s) = 2 ∧
  two_sided_pct (daily_presence_summary s) = share_pct 4 4 ∧ uptime_pct s = share_pct 4 6.
Proof.
  destruct (presence_is_share (D := Qc_decimal) sla_config_default 0 sla_events) as (Hu & (Hp & Ht & Hm & _) & _).
  { repeat (apply SSorted_cons; [|by vm_compute; repeat constructor]). apply SSorted_nil. }
  split; [|split; [|split]].
  - etransitivity; [exact Hp|]. vm_compute. reflexivity.
  - etransitivity; [exact Hm|]. vm_compute. reflexivity.
  - etransitivity; [exact Ht|]. vm_compute. reflexivity.
  - etransitivity; [exact Hu|]. vm_compute. reflexivity.
Defined.
