(* ===== verification/Volatility.v ===== *)
(** * Volatility estimators ([crates/strategy/src/volatility.rs], [cartea_spread.rs])

    Newton's square root and the Taylor logarithm on decimals, the EWMA
    estimator and the GARCH(1,1) estimator with its grid-search calibration. *)
From stdpp Require Import base list.
From Stdlib Require Import ZArith QArith Qabs Qpower Lia Lqa.
From S2P Require Import Prelude Decimal Indicators.
Local Open Scope nat_scope.

Section Volatility.
Context {D : Decimal}.

(** ** Square root *)
Fixpoint newton (fuel : nat) (x guess : dec) : dec :=
  match fuel with
  | 0 => guess
  | S fuel =>
      let next := ddiv (dadd guess (ddiv x guess)) (dlit 2 0) in
      if dltb (dabs (dsub next guess)) (dlit 1 10) then next else newton fuel x next
  end.

Definition decimal_sqrt (x : dec) : dec :=
  if dleb x dec0 then dec0
  else
    let guess := ddiv x (dlit 2 0) in
    newton 20 x (if is_zero guess then dec1 else guess).

(** ** Logarithm *)

(** [while y > 1.5 { y /= 2; k += 1 }] *)
Fixpoint halve (fuel : nat) (y : dec) (k : Z) : dec * Z :=
  match fuel with
  | 0 => (y, k)
  | S fuel => if dltb (dlit 15 1) y then halve fuel (ddiv y (dlit 2 0)) (k + 1)%Z else (y, k)
  end.

(** [while y < 0.5 { y *= 2; k -= 1 }] *)
Fixpoint double (fuel : nat) (y : dec) (k : Z) : dec * Z :=
  match fuel with
  | 0 => (y, k)
  | S fuel => if dltb y (dlit 5 1) then double fuel (dmul y (dlit 2 0)) (k - 1)%Z else (y, k)
  end.

(** Every decimal lies below [2 ^ 96] and a positive one above [2 ^ -94]. *)
Definition range_fuel : nat := 96.

Definition range_reduce (x : dec) : dec * Z :=
  let '(y, k) := halve range_fuel x 0 in double range_fuel y k.

(** [for n in 1..=60]; [n] counts up as [fuel] counts down. *)
Fixpoint taylor (fuel n : nat) (u power sign sum : dec) : dec :=
  match fuel with
  | 0 => sum
  | S fuel =>
      let term := ddiv power (dof_nat n) in
      let sum := dadd sum (dmul sign term) in
      if dltb (dabs term) (dlit 1 11) then sum
      else taylor fuel (S n) u (dmul power u) (dneg sign) sum
  end.

Definition ln_2 : dec := dlit 6931471805599453094 19.

Definition decimal_ln (x : dec) : dec :=
  if dleb x dec0 then dec0
  else
    let '(y, k) := range_reduce x in
    let u := dsub y dec1 in
    dadd (taylor 60 1 u u dec1 dec0) (dmul (dlit k 0) ln_2).

(** ** Sample variance *)
Definition sample_variance (returns : list dec) : dec :=
  if length returns <? 2 then dec0
  else
    let n := dof_nat (length returns) in
    let mean := ddiv (dsum returns) n in
    ddiv (dsum ((λ r, dmul (dsub r mean) (dsub r mean)) <$> returns)) (dsub n dec1).

(** ** EWMA *)
Record VolatilityEstimator := mkVolatility {
  ve_lambda : dec;
  ve_variance : dec;
  ve_last_price : option dec;
  ve_returns : list dec;
  ve_min_samples : nat;
  ve_annualization : dec;
}.

Definition secs_per_year : dec := dlit 31557600 0.

Definition volatility_new (lambda tick_interval_secs : dec) : VolatilityEstimator :=
  mkVolatility lambda dec0 None [] 20 (decimal_sqrt (ddiv secs_per_year tick_interval_secs)).

(** [push_back], and [pop_front] past the cap. *)
Definition push_capped (cap : nat) (x : dec) (l : list dec) : list dec :=
  let l := l ++ [x] in if cap <? length l then drop 1 l else l.

Definition with_last (price : dec) (s : VolatilityEstimator) : VolatilityEstimator :=
  mkVolatility (ve_lambda s) (ve_variance s) (Some price) (ve_returns s) (ve_min_samples s) (ve_annualization s).

Definition volatility_update (price : dec) (s : VolatilityEstimator) : VolatilityEstimator :=
  if is_zero price then s
  else match ve_last_price s with
       | None => with_last price s
       | Some last =>
           if is_zero last then with_last price s
           else
             let ret := ddiv (dsub price last) last in
             let returns := push_capped 1000 ret (ve_returns s) in
             let ret_sq := dmul ret ret in
             let variance :=
               if is_zero (ve_variance s) && (ve_min_samples s <=? length returns)
               then sample_variance returns
               else if negb (is_zero (ve_variance s))
               then dadd (dmul (ve_lambda s) (ve_variance s)) (dmul (dsub dec1 (ve_lambda s)) ret_sq)
               else ve_variance s in
             mkVolatility (ve_lambda s) variance (Some price) returns (ve_min_samples s) (ve_annualization s)
       end.

Definition volatility_value (s : VolatilityEstimator) : option dec :=
  if length (ve_returns s) <? ve_min_samples s then None
  else if is_zero (ve_variance s) then None
  else Some (dmul (decimal_sqrt (ve_variance s)) (ve_annualization s)).

(** ** GARCH(1,1) *)
Record GarchEstimator := mkGarch {
  ge_omega : dec;
  ge_alpha : dec;
  ge_beta : dec;
  ge_variance : dec;
  ge_last_price : option dec;
  ge_returns : list dec;
  ge_min_samples : nat;
  ge_max_samples : nat;
  ge_annualization : dec;
  updates_since_fit : nat;
  refit_interval : nat;
}.

Definition MIN_VARIANCE : dec := dlit 1 12.
Definition CALIB_WINDOW : nat := 250.

Definition garch_new (tick_interval_secs : dec) : GarchEstimator :=
  let obs := if dltb dec0 tick_interval_secs then ddiv secs_per_year tick_interval_secs else secs_per_year in
  mkGarch dec0 (dlit 1 1) (dlit 85 2) dec0 None [] 30 500 (decimal_sqrt obs) 0 200.

(** One observation of the likelihood recursion. *)
Definition garch_step (omega alpha beta : dec) (acc : dec * dec) (r : dec) : dec * dec :=
  let s := dmax acc.2 MIN_VARIANCE in
  let r_sq := dmul r r in
  (dadd acc.1 (dadd (decimal_ln s) (ddiv r_sq s)), dadd (dadd omega (dmul alpha r_sq)) (dmul beta s)).

Definition garch_objective (returns : list dec) (sample_var alpha beta : dec) : option (dec * dec) :=
  let persistence := dadd alpha beta in
  if dleb dec1 persistence then None
  else
    let omega := dmul sample_var (dsub dec1 persistence) in
    if dleb omega dec0 then None
    else
      let '(objective, sigma2) := fold_left (garch_step omega alpha beta) returns (dec0, sample_var) in
      Some (objective, dmax sigma2 MIN_VARIANCE).

(** The best candidate so far: objective, alpha, beta, terminal variance. *)
Record Fit := mkFit { fit_obj : dec; fit_alpha : dec; fit_beta : dec; fit_var : dec }.

Definition consider (window : list dec) (sample_var : dec) (best : option Fit) (ab : dec * dec) : option Fit :=
  match garch_objective window sample_var ab.1 ab.2 with
  | None => best
  | Some (obj, term_var) =>
      let better := match best with Some f => dltb obj (fit_obj f) | None => true end in
      if better then Some (mkFit obj ab.1 ab.2 term_var) else best
  end.

Definition coarse_alpha : list dec := [dlit 3 2; dlit 6 2; dlit 10 2; dlit 15 2; dlit 22 2; dlit 30 2].
Definition coarse_beta : list dec :=
  [dlit 55 2; dlit 65 2; dlit 74 2; dlit 82 2; dlit 88 2; dlit 93 2; dlit 97 2].
Definition coarse_grid : list (dec * dec) := a ← coarse_alpha; (λ b, (a, b)) <$> coarse_beta.

Definition refinements (a0 b0 : dec) : list (dec * dec) :=
  i ← [-2; -1; 0; 1; 2]%Z;
  j ← [-2; -1; 0; 1; 2]%Z;
  let a := dadd a0 (dmul (dlit i 0) (dlit 15 3)) in
  let b := dadd b0 (dmul (dlit j 0) (dlit 2 2)) in
  if dltb a (dlit 1 3) || dltb b (dlit 1 3) then [] else [(a, b)].

(** [updates_since_fit] is reset before any of the early returns. *)
Definition calibrate (s : GarchEstimator) : GarchEstimator :=
  let s := mkGarch (ge_omega s) (ge_alpha s) (ge_beta s) (ge_variance s) (ge_last_price s) (ge_returns s)
             (ge_min_samples s) (ge_max_samples s) (ge_annualization s) 0 (refit_interval s) in
  let n := length (ge_returns s) in
  if n <? ge_min_samples s then s
  else
    let window := drop (n - CALIB_WINDOW) (ge_returns s) in
    let sample_var := sample_variance window in
    if dleb sample_var dec0 then s
    else
      match fold_left (consider window sample_var) coarse_grid None with
      | None => s
      | Some c =>
          match fold_left (consider window sample_var) (refinements (fit_alpha c) (fit_beta c)) (Some c) with
          | None => s
          | Some f =>
              mkGarch (dmul sample_var (dsub (dsub dec1 (fit_alpha f)) (fit_beta f))) (fit_alpha f) (fit_beta f)
                (dmax (fit_var f) MIN_VARIANCE) (ge_last_price s) (ge_returns s) (ge_min_samples s)
                (ge_max_samples s) (ge_annualization s) (updates_since_fit s) (refit_interval s)
          end
      end.

Definition garch_with_last (price : dec) (s : GarchEstimator) : GarchEstimator :=
  mkGarch (ge_omega s) (ge_alpha s) (ge_beta s) (ge_variance s) (Some price) (ge_returns s)
    (ge_min_samples s) (ge_max_samples s) (ge_annualization s) (updates_since_fit s) (refit_interval s).

(** The recursion and the bookkeeping of one return, before a calibration. *)
Definition garch_observe (price ret : dec) (s : GarchEstimator) : GarchEstimator :=
  let variance :=
    if dltb dec0 (ge_variance s)
    then dmax (dadd (dadd (ge_omega s) (dmul (ge_alpha s) (dmul ret ret))) (dmul (ge_beta s) (ge_variance s)))
           MIN_VARIANCE
    else ge_variance s in
  mkGarch (ge_omega s) (ge_alpha s) (ge_beta s) variance (Some price)
    (push_capped (ge_max_samples s) ret (ge_returns s)) (ge_min_samples s) (ge_max_samples s)
    (ge_annualization s) (S (updates_since_fit s)) (refit_interval s).

Definition garch_update (price : dec) (s : GarchEstimator) : GarchEstimator :=
  if is_zero price then s
  else
    match (match ge_last_price s with Some last => if is_zero last then None else Some last | None => None end) with
    | None => garch_with_last price s
    | Some last =>
        let s := garch_observe price (ddiv (dsub price last) last) s in
        let needs_bootstrap := dleb (ge_variance s) dec0 in
        let periodic_due := refit_interval s <=? updates_since_fit s in
        if (ge_min_samples s <=? length (ge_returns s)) && (needs_bootstrap || periodic_due)
        then calibrate s else s
    end.

Definition garch_volatility (s : GarchEstimator) : option dec :=
  if (length (ge_returns s) <? ge_min_samples s) || dleb (ge_variance s) dec0 then None
  else Some (dmul (decimal_sqrt (ge_variance s)) (ge_annualization s)).

Definition unconditional_volatility (s : GarchEstimator) : option dec :=
  let persistence := dadd (ge_alpha s) (ge_beta s) in
  if dleb dec1 persistence then None
  else
    let uncond_var := ddiv (ge_omega s) (dsub dec1 persistence) in
    if dleb uncond_var dec0 then None
    else Some (dmul (decimal_sqrt uncond_var) (ge_annualization s)).
End Volatility.

(** ** Newton's root brackets the true one *)
Section Exact.
Context {D : Decimal} {L : DecimalExact D}.

Lemma lit_val m s : (Z.abs m < 2 ^ 96)%Z → s ≤ 28 → (dval (dlit m s) == scaled m s)%Q.
Proof. intros Hm Hs. apply dlit_val. by exists m, s. Qed.

Lemma half_val a : (dval (ddiv a (dlit 2 0)) == dval a / 2)%Q.
Proof. rewrite ddiv_exact; rewrite (lit_val 2 0) by lia; done. Qed.

Definition next_guess (x g : Q) : Q := (g + x / g) / 2.

Lemma next_guess_val x g : (0 < dval g)%Q →
  (dval (ddiv (dadd g (ddiv x g)) (dlit 2 0)) == next_guess (dval x) (dval g))%Q.
Proof. intros Hg. unfold next_guess. rewrite half_val, dadd_exact, ddiv_exact by lra. done. Qed.

(** The width of the bracket [x / g, g] of the root. *)
Definition gap (x g : Q) : Q := g - x / g.

Lemma next_guess_pos x g : (0 < x → 0 < g → 0 < next_guess x g)%Q.
Proof.
  intros Hx Hg. unfold next_guess. apply Qlt_shift_div_l; [lra|].
  assert (0 < x / g)%Q by (apply Qlt_shift_div_l; lra). lra.
Qed.

Lemma next_step x g : (0 < g)%Q → (next_guess x g - g == - (gap x g / 2))%Q.
Proof. intros Hg. unfold next_guess, gap. field. lra. Qed.

(** [next ^ 2 - x = (next - g) ^ 2] *)
Lemma next_square x g : (0 < g)%Q →
  (next_guess x g * next_guess x g - x == (next_guess x g - g) * (next_guess x g - g))%Q.
Proof. intros Hg. unfold next_guess. field. lra. Qed.

Lemma gap_div x g : (0 < g)%Q → (gap x g == (g * g - x) / g)%Q.
Proof. intros Hg. unfold gap. field. lra. Qed.

Lemma Qsquare_nonneg t : (0 <= t * t)%Q.
Proof.
  destruct (Qlt_le_dec 0 t) as [Ht|Ht]; [apply Qmult_le_0_compat; lra|].
  assert (E : (t * t == - t * - t)%Q) by ring. rewrite E. apply Qmult_le_0_compat; lra.
Qed.

Lemma gap_next_nonneg x g : (0 < x → 0 < g → 0 <= gap x (next_guess x g))%Q.
Proof.
  intros Hx Hg. pose proof (next_guess_pos x g Hx Hg) as Hn. rewrite gap_div, next_square by done.
  apply Qle_shift_div_l; [done|]. rewrite Qmult_0_l. apply Qsquare_nonneg.
Qed.

(** Once above the root, a step halves the bracket. *)
Lemma gap_halves x g : (0 < x → 0 < g → 0 <= gap x g → gap x (next_guess x g) <= gap x g / 2)%Q.
Proof.
  intros Hx Hg Hgap. pose proof (next_guess_pos x g Hx Hg) as Hn. pose proof (next_step x g Hg) as Hs.
  assert (Hhalf : (gap x g / 2 == gap x g * (1 # 2))%Q) by field.
  assert (Hle : (next_guess x g <= g)%Q) by lra. unfold gap at 1.
  assert (Hdiv : (x / g <= x / next_guess x g)%Q).
  { apply Qle_shift_div_l; [done|].
    assert (E : (x / g * next_guess x g == x * (next_guess x g / g))%Q) by (field; lra). rewrite E.
    assert (next_guess x g / g <= 1)%Q by (apply Qle_shift_div_r; lra). nra. }
  rewrite Hhalf in *. unfold gap in *. lra.
Qed.

Definition tiny : Q := scaled 1 10.

Lemma newton_bracket fuel x : ∀ g w, (0 < dval x)%Q → (0 < dval g)%Q → (0 <= gap (dval x) (dval g) <= w)%Q →
  let r := dval (newton fuel x g) in
  (0 < r ∧ 0 <= gap (dval x) r ∧ (gap (dval x) r <= tiny ∨ gap (dval x) r <= w / inject_Z (2 ^ Z.of_nat fuel)))%Q.
Proof.
  induction fuel as [|fuel IH]; intros g w Hx Hg [Hg0 Hgw]; cbn zeta.
  { cbn [newton]. split; [done|]. split; [done|]. right. change (inject_Z (2 ^ Z.of_nat 0)) with 1%Q.
    assert (E : (w / 1 == w)%Q) by field. by rewrite E. }
  cbn [newton]. set (next := ddiv (dadd g (ddiv x g)) (dlit 2 0)).
  assert (Hv : (dval next == next_guess (dval x) (dval g))%Q) by by apply next_guess_val.
  assert (Hn : (0 < dval next)%Q) by (rewrite Hv; by apply next_guess_pos).
  assert (Hgn : (0 <= gap (dval x) (dval next))%Q) by (unfold gap; rewrite Hv; by apply gap_next_nonneg).
  assert (Hhalf : (gap (dval x) (dval next) <= gap (dval x) (dval g) / 2)%Q)
    by (unfold gap at 1; rewrite Hv; by apply gap_halves).
  assert (E2 : (gap (dval x) (dval g) / 2 == gap (dval x) (dval g) * (1 # 2))%Q) by field. rewrite E2 in Hhalf.
  destruct (dltb (dabs (dsub next g)) (dlit 1 10)) eqn:Ec.
  - split; [done|]. split; [done|]. left. apply dltb_lt in Ec. unfold dlt in Ec.
    rewrite dabs_val, dsub_exact, Hv, next_step, (lit_val 1 10) in Ec by (done || lia). fold tiny in Ec.
    rewrite E2 in Ec. rewrite Qabs_neg in Ec by lra. lra.
  - destruct (IH next (w / 2)%Q Hx Hn) as (H1 & H2 & H3).
    { assert (E3 : (w / 2 == w * (1 # 2))%Q) by field. rewrite E3. lra. } split; [done|]. split; [done|].
    destruct H3 as [H3|H3]; [by left|right]. rewrite Nat2Z.inj_succ, Z.pow_succ_r, inject_Z_mult by lia.
    assert (Hp : ¬ (inject_Z (2 ^ Z.of_nat fuel) == 0)%Q).
    { unfold Qeq. cbn. rewrite Z.mul_1_r. by apply Z.pow_nonzero; lia. }
    assert (E4 : (w / (inject_Z 2 * inject_Z (2 ^ Z.of_nat fuel)) == w / 2 / inject_Z (2 ^ Z.of_nat fuel))%Q) by by field.
    by rewrite E4.
Qed.

Lemma newton_unfold fuel x g : newton (S fuel) x g =
  let next := ddiv (dadd g (ddiv x g)) (dlit 2 0) in
  if dltb (dabs (dsub next g)) (dlit 1 10) then next else newton fuel x next.
Proof. done. Qed.

(** A step never more than halves the guess. *)
Lemma newton_slow fuel x : ∀ g, (0 < dval x)%Q → (0 < dval g)%Q →
  (dval g / inject_Z (2 ^ Z.of_nat fuel) <= dval (newton fuel x g))%Q.
Proof.
  induction fuel as [|fuel IH]; intros g Hx Hg.
  { change (inject_Z (2 ^ Z.of_nat 0)) with 1%Q. cbn [newton].
    assert (E : (dval g / 1 == dval g)%Q) by field. rewrite E. apply Qle_refl. }
  cbn [newton]. set (next := ddiv (dadd g (ddiv x g)) (dlit 2 0)).
  assert (Hv : (dval next == next_guess (dval x) (dval g))%Q) by by apply next_guess_val.
  assert (Hn : (0 < dval next)%Q) by (rewrite Hv; by apply next_guess_pos).
  assert (Hp : (1 <= inject_Z (2 ^ Z.of_nat fuel))%Q) by (unfold Qle; cbn; lia).
  assert (Hhalf : (dval g * (1 # 2) <= dval next)%Q).
  { rewrite Hv. unfold next_guess. assert (0 < dval x / dval g)%Q by (apply Qlt_shift_div_l; lra).
    assert (E : ((dval g + dval x / dval g) / 2 == dval g * (1 # 2) + dval x / dval g * (1 # 2))%Q) by (field; lra).
    rewrite E. lra. }
  assert (Hstep : (dval g / inject_Z (2 ^ Z.of_nat (S fuel)) <= dval next / inject_Z (2 ^ Z.of_nat fuel))%Q).
  { rewrite Nat2Z.inj_succ, Z.pow_succ_r, inject_Z_mult by lia.
    assert (E : (dval g / (inject_Z 2 * inject_Z (2 ^ Z.of_nat fuel)) ==
                 dval g * (1 # 2) / inject_Z (2 ^ Z.of_nat fuel))%Q) by (field; lra).
    rewrite E. apply Qmult_le_compat_r; [done|]. apply Qinv_le_0_compat. lra. }
  destruct (dltb _ _); [|eapply Qle_trans; [exact Hstep | by apply IH]].
  eapply Qle_trans; [exact Hstep|]. apply Qle_shift_div_r; [lra|]. nra.
Qed.

(** The first step from [x / 2] lands on [x / 4 + 1]. *)
Lemma first_guess x : (0 < dval x)%Q →
  let g := ddiv x (dlit 2 0) in
  is_zero g = false ∧ (0 < dval g)%Q ∧ (next_guess (dval x) (dval g) == dval x / 4 + 1)%Q.
Proof.
  intros Hx. cbn zeta. pose proof (half_val x) as Hg. assert (E : (dval x / 2 == dval x * (1 # 2))%Q) by field.
  rewrite E in Hg. assert (Hpos : (0 < dval (ddiv x (dlit 2 0)))%Q) by (rewrite Hg; lra). split.
  { apply is_zero_false. lra. }
  split; [done|]. unfold next_guess. rewrite Hg. field. lra.
Qed.

(** How wide the bracket may be left after the twenty iterations. *)
Definition sqrt_slack (x : Q) : Q := (x / 4 + 1) / inject_Z (2 ^ 19).

Lemma Qabs_square_le t w : (Qabs t < w → w <= 1 → t * t <= w)%Q.
Proof. intros [H1 H2]%Qabs_Qlt_condition Hw. destruct (Qlt_le_dec t 0); nra. Qed.

Lemma sqrt_bracket_from x g fuel : (0 < dval x)%Q → (0 < dval g)%Q →
  (next_guess (dval x) (dval g) == dval x / 4 + 1)%Q →
  let r := dval (newton (S fuel) x g) in
  (0 < r ∧ 0 <= gap (dval x) r ∧
   (gap (dval x) r <= tiny ∨ gap (dval x) r <= (dval x / 4 + 1) / inject_Z (2 ^ Z.of_nat fuel)))%Q.
Proof.
  intros Hx Hg Hfirst. cbn zeta. cbn [newton]. set (next := ddiv (dadd g (ddiv x g)) (dlit 2 0)).
  assert (Hv : (dval next == next_guess (dval x) (dval g))%Q) by by apply next_guess_val.
  assert (Hn : (0 < dval next)%Q) by (rewrite Hv; by apply next_guess_pos).
  assert (Hgn : (0 <= gap (dval x) (dval next))%Q) by (unfold gap; rewrite Hv; by apply gap_next_nonneg).
  destruct (dltb (dabs (dsub next g)) (dlit 1 10)) eqn:Ec.
  - split; [done|]. split; [done|]. left. apply dltb_lt in Ec. unfold dlt in Ec.
    rewrite dabs_val, dsub_exact, (lit_val 1 10) in Ec by lia. fold tiny in Ec.
    apply Qabs_square_le in Ec; [|by unfold tiny]. rewrite gap_div by done. rewrite Hv in *.
    rewrite next_square by done. apply Qle_shift_div_r; [done|].
    assert (E : (dval x / 4 == dval x * (1 # 4))%Q) by field. rewrite E in Hfirst.
    assert (0 < tiny)%Q by done. nra.
  - apply newton_bracket; [done..|]. split; [done|]. unfold gap. rewrite <- Hfirst, Hv.
    assert (0 < dval x / next_guess (dval x) (dval g))%Q by (apply Qlt_shift_div_l; rewrite <- ?Hv; lra). lra.
Qed.
End Exact.

(** ** Range reduction and the GARCH invariant *)
Section Reduction.
Context {D : Decimal} {L : DecimalExact D}.
Local Open Scope Q_scope.

Lemma pow2_succ k : (2 ^ (k + 1) == 2 * 2 ^ k).
Proof. rewrite Qpower_plus by done. change (2 ^ 1) with 2. ring. Qed.

Lemma pow2_pred k : (2 * 2 ^ (k - 1) == 2 ^ k).
Proof. rewrite <- pow2_succ. by replace (k - 1 + 1)%Z with k by lia. Qed.

Lemma pow2_pos k : 0 < 2 ^ k.
Proof. by apply Qpower_0_lt. Qed.

Lemma three_halves : dval (dlit 15 1) == 3 # 2.
Proof. by rewrite lit_val by lia. Qed.
Lemma one_half : dval (dlit 5 1) == 1 # 2.
Proof. by rewrite lit_val by lia. Qed.

Lemma halve_reduces fuel : ∀ y k, 0 < dval y → dval y <= (3 # 2) * 2 ^ Z.of_nat fuel →
  let r := halve fuel y k in
  0 < dval r.1 ∧ dval r.1 <= 3 # 2 ∧ dval y * 2 ^ k == dval r.1 * 2 ^ r.2 ∧
  (dval r.1 == dval y ∨ 1 # 2 <= dval r.1).
Proof.
  induction fuel as [|fuel IH]; intros y k Hy Hb; cbn zeta; cbn [halve].
  { change (2 ^ Z.of_nat 0) with 1 in Hb. cbn [fst snd]. split; [done|]. split; [lra|]. split; [done | by left]. }
  destruct (dltb (dlit 15 1) y) eqn:Ec.
  - apply dltb_lt in Ec. unfold dlt in Ec. rewrite three_halves in Ec.
    pose proof (half_val y) as Hv. assert (E : dval y / 2 == dval y * (1 # 2)) by field. rewrite E in Hv.
    destruct (IH (ddiv y (dlit 2 0)) (k + 1)%Z) as (H1 & H2 & H3 & H4).
    + rewrite Hv. lra.
    + rewrite Nat2Z.inj_succ in Hb. unfold Z.succ in Hb. rewrite pow2_succ in Hb. rewrite Hv. lra.
    + split; [done|]. split; [done|]. rewrite pow2_succ, Hv in H3. split; [rewrite <- H3; ring|].
      right. destruct H4 as [H4|H4]; [rewrite H4, Hv; lra | done].
  - apply dltb_ge in Ec. unfold dle in Ec. rewrite three_halves in Ec. cbn [fst snd].
    split; [done|]. split; [done|]. split; [done | by left].
Qed.

Lemma double_reduces fuel : ∀ y k, 1 <= dval y * (2 * 2 ^ Z.of_nat fuel) → 0 < dval y <= 3 # 2 →
  let r := double fuel y k in
  1 # 2 <= dval r.1 ∧ dval r.1 <= 3 # 2 ∧ dval y * 2 ^ k == dval r.1 * 2 ^ r.2.
Proof.
  induction fuel as [|fuel IH]; intros y k Hy [Hb1 Hb2]; cbn zeta; cbn [double].
  { change (2 ^ Z.of_nat 0) with 1 in Hy. cbn [fst snd]. split; [lra|]. by split. }
  destruct (dltb y (dlit 5 1)) eqn:Ec.
  - apply dltb_lt in Ec. unfold dlt in Ec. rewrite one_half in Ec.
    assert (Hv : dval (dmul y (dlit 2 0)) == dval y * 2) by by rewrite dmul_exact, (lit_val 2 0) by lia.
    destruct (IH (dmul y (dlit 2 0)) (k - 1)%Z) as (H1 & H2 & H3).
    + rewrite Nat2Z.inj_succ in Hy. unfold Z.succ in Hy. rewrite pow2_succ in Hy. rewrite Hv. lra.
    + rewrite Hv. lra.
    + split; [done|]. split; [done|]. rewrite Hv in H3. rewrite <- H3, <- (pow2_pred k). ring.
  - apply dltb_ge in Ec. unfold dle in Ec. rewrite one_half in Ec. cbn [fst snd]. split; [done|]. by split.
Qed.

(** A positive decimal as the implementation holds it: at least [10 ^ -28], and
    below [2 ^ 96]. *)
Definition decimal_range (x : dec) : Prop := scaled 1 28 <= dval x ∧ dval x <= 2 ^ 96.

Lemma decimal_range_pos x : decimal_range x → 0 < dval x.
Proof. intros [H _]. eapply Qlt_le_trans; [|exact H]. done. Qed.

(** *** The state a GARCH estimator keeps *)
Record garch_ok (s : GarchEstimator) : Prop := mkGarchOk {
  garch_omega : 0 <= dval (ge_omega s);
  garch_alpha : 0 < dval (ge_alpha s);
  garch_beta : 0 < dval (ge_beta s);
  garch_stationary : dval (ge_alpha s) + dval (ge_beta s) < 1;
  garch_floor : dval (ge_variance s) == 0 ∨ dval MIN_VARIANCE <= dval (ge_variance s);
  garch_window : (length (ge_returns s) ≤ ge_max_samples s)%nat;
}.

Lemma min_variance_val : dval MIN_VARIANCE == scaled 1 12.
Proof. apply lit_val; lia. Qed.

Definition fit_ok (f : Fit) : Prop :=
  0 < dval (fit_alpha f) ∧ 0 < dval (fit_beta f) ∧ dval (fit_alpha f) + dval (fit_beta f) < 1.

Lemma objective_stationary window sv a b obj var : garch_objective window sv a b = Some (obj, var) →
  dval a + dval b < 1.
Proof.
  unfold garch_objective. destruct (dleb dec1 (dadd a b)) eqn:E; [done|]. intros _.
  apply dleb_gt in E. unfold dlt in E. by rewrite dadd_exact, dec1_val in E.
Qed.

Lemma consider_ok window sv best ab : 0 < dval ab.1 → 0 < dval ab.2 →
  (∀ f, best = Some f → fit_ok f) → ∀ f, consider window sv best ab = Some f → fit_ok f.
Proof.
  intros Ha Hb Hbest f. unfold consider.
  destruct (garch_objective window sv ab.1 ab.2) as [[obj var]|] eqn:E; [|apply Hbest].
  destruct (match best with Some f0 => dltb obj (fit_obj f0) | None => true end); [|apply Hbest].
  intros [= <-]. split; [done|]. split; [done|]. cbn. by eapply objective_stationary.
Qed.

Lemma search_ok window sv l : ∀ best, (∀ ab, ab ∈ l → 0 < dval ab.1 ∧ 0 < dval ab.2) →
  (∀ f, best = Some f → fit_ok f) → ∀ f, fold_left (consider window sv) l best = Some f → fit_ok f.
Proof.
  induction l as [|ab l IH]; intros best Hl Hbest; cbn [fold_left]; [done|].
  apply IH; [intros ab' H; apply Hl; by right|]. apply consider_ok; [apply Hl; by left | apply Hl; by left | done].
Qed.

Lemma lit_pos m s : (0 < m < 2 ^ 96)%Z → (s ≤ 28)%nat → 0 < dval (dlit m s).
Proof. intros Hm Hs. rewrite lit_val by lia. unfold scaled, Qlt. cbn. lia. Qed.

Lemma coarse_pos ab : ab ∈ coarse_grid → 0 < dval ab.1 ∧ 0 < dval ab.2.
Proof.
  unfold coarse_grid, coarse_alpha, coarse_beta. cbn. rewrite !elem_of_cons, elem_of_nil.
  intros H. repeat destruct H as [->|H]; [..|done]; cbn; split; apply lit_pos; lia.
Qed.

Lemma refinements_pos a0 b0 ab : ab ∈ refinements a0 b0 → 0 < dval ab.1 ∧ 0 < dval ab.2.
Proof.
  unfold refinements. intros (i & H & _)%list_elem_of_bind. apply list_elem_of_bind in H as (j & H & _).
  destruct (dltb _ (dlit 1 3)) eqn:Ea; [by apply elem_of_nil in H|].
  destruct (dltb (dadd b0 _) (dlit 1 3)) eqn:Eb; [by apply elem_of_nil in H|]. cbn [orb] in H.
  apply list_elem_of_singleton in H as ->. cbn [fst snd].
  apply dltb_ge in Ea, Eb. unfold dle in Ea, Eb. pose proof (lit_pos 1 3 ltac:(lia) ltac:(lia)). split; lra.
Qed.

Lemma floor_ok v : dval MIN_VARIANCE <= dval (dmax v MIN_VARIANCE).
Proof. apply dmax_ge_r. Qed.

Lemma push_capped_length cap x (l : list dec) : (length l ≤ cap → length (push_capped cap x l) ≤ cap)%nat.
Proof.
  intros H. unfold push_capped. destruct (Nat.ltb_spec cap (length (l ++ [x]))); [|done].
  rewrite length_drop, length_app in *. cbn [length] in *. lia.
Qed.

Lemma calibrate_ok s : garch_ok s → garch_ok (calibrate s).
Proof.
  intros [H1 H2 H3 H4 H5 H6]. unfold calibrate. cbn [ge_returns ge_min_samples].
  destruct (length (ge_returns s) <? ge_min_samples s)%nat; [by split|].
  set (window := drop _ _). destruct (dleb (sample_variance window) dec0) eqn:Esv; [by split|].
  apply dleb_gt in Esv. unfold dlt in Esv. rewrite dec0_val in Esv.
  destruct (fold_left _ coarse_grid None) as [c|] eqn:Ec; [|by split].
  assert (Hc : fit_ok c) by (eapply search_ok; [apply coarse_pos | | exact Ec]; done).
  destruct (fold_left _ (refinements _ _) (Some c)) as [f|] eqn:Ef; [|by split].
  assert (Hf : fit_ok f) by (eapply search_ok; [apply refinements_pos | | exact Ef]; by intros ? [= <-]).
  destruct Hf as (Ha & Hb & Hab). split; cbn; try done.
  - rewrite dmul_exact, !dsub_exact, dec1_val. apply Qmult_le_0_compat; lra.
  - right. apply floor_ok.
Qed.

Lemma observe_ok price ret s : garch_ok s → garch_ok (garch_observe price ret s).
Proof.
  intros [H1 H2 H3 H4 H5 H6]. split; cbn; try done.
  - destruct (dltb dec0 (ge_variance s)); [right; apply floor_ok | done].
  - by apply push_capped_length.
Qed.

Lemma garch_update_ok price s : garch_ok s → garch_ok (garch_update price s).
Proof.
  intros H. unfold garch_update. destruct (is_zero price); [done|].
  destruct (match ge_last_price s with Some last => if is_zero last then None else Some last | None => None end);
    [|by destruct H].
  destruct (_ && _); [apply calibrate_ok|]; by apply observe_ok.
Qed.

Lemma garch_new_ok t : garch_ok (garch_new t).
Proof.
  split; cbn; try lia.
  - rewrite dec0_val. lra.
  - apply lit_pos; lia.
  - apply lit_pos; lia.
  - by rewrite !lit_val by lia.
  - left. apply dec0_val.
Qed.

(** Every state a run of prices leads to. *)
Definition garch_run (t : dec) (prices : list dec) : GarchEstimator :=
  fold_left (λ s p, garch_update p s) prices (garch_new t).

Lemma garch_run_ok t prices : garch_ok (garch_run t prices).
Proof.
  unfold garch_run. pose proof (garch_new_ok t) as H. revert H. generalize (garch_new t).
  induction prices as [|p prices IH]; intros s H; [done|]. by apply IH, garch_update_ok.
Qed.

Lemma sqrt_pos x : 0 < dval x → 0 < dval (decimal_sqrt x).
Proof.
  intros Hx. unfold decimal_sqrt. destruct (dleb x dec0) eqn:E.
  { apply dleb_le in E. unfold dle in E. rewrite dec0_val in E. lra. }
  cbn zeta. destruct (first_guess x Hx) as (-> & Hg & Hfirst).
  by destruct (sqrt_bracket_from x (ddiv x (dlit 2 0)) 19 Hx Hg Hfirst).
Qed.
Lemma calibrate_annual s : ge_annualization (calibrate s) = ge_annualization s.
Proof.
  unfold calibrate. cbn [ge_returns ge_min_samples]. destruct (_ <? _)%nat; [done|].
  destruct (dleb _ _); [done|]. destruct (fold_left _ coarse_grid None); [|done]. by destruct (fold_left _ _ _).
Qed.

Lemma garch_run_annual t prices : ge_annualization (garch_run t prices) = ge_annualization (garch_new t).
Proof.
  unfold garch_run. generalize (garch_new t). induction prices as [|p prices IH]; intros s; [done|].
  cbn [fold_left]. rewrite IH. unfold garch_update. destruct (is_zero p); [done|].
  destruct (match ge_last_price s with Some last => if is_zero last then None else Some last | None => None end); [|done].
  cbn zeta. destruct (_ && _); [by rewrite calibrate_annual | done].
Qed.

Lemma annualization_pos t : 0 < dval (ge_annualization (garch_new t)).
Proof.
  cbn [garch_new ge_annualization]. apply sqrt_pos.
  assert (Hs : 0 < dval secs_per_year) by (apply lit_pos; lia).
  destruct (dltb dec0 t) eqn:E; [|done]. apply dltb_lt in E. unfold dlt in E. rewrite dec0_val in E.
  rewrite ddiv_exact by lra. apply Qlt_shift_div_l; lra.
Qed.
End Reduction.

Section Claims.
Context {D : Decimal} {L : DecimalExact D}.

(** The square root is bracketed, and how loosely. Of a number that is not
    positive [decimal_sqrt] gives zero. Of a positive [x] it gives a positive
    [r] with the true root between [x / r] and [r]: the bracket is at most
    [10 ^ -10] wide, or the twenty iterations ran out and it is at most
    [(x / 4 + 1) / 2 ^ 19] wide, the first guess [x / 2] halved at each step. *)
Theorem sqrt_bracketed (x : dec) :
  if dleb x dec0 then decimal_sqrt x = dec0
  else
    let r := dval (decimal_sqrt x) in
    (0 < r ∧ dval x / r <= r ∧ (r - dval x / r <= tiny ∨ r - dval x / r <= sqrt_slack (dval x)))%Q.
Proof.
  unfold decimal_sqrt. destruct (dleb x dec0) eqn:Ex; [done|]. cbn zeta.
  apply dleb_gt in Ex. unfold dlt in Ex. rewrite dec0_val in Ex.
  destruct (first_guess x Ex) as (-> & Hg & Hfirst).
  destruct (sqrt_bracket_from x (ddiv x (dlit 2 0)) 19 Ex Hg Hfirst) as (H1 & H2 & H3).
  split; [done|]. unfold gap in H2. split; [lra|]. exact H3.
Qed.

(** The root of the variance floor is off by a factor of about two. The
    true root of [MIN_VARIANCE] is [10 ^ -6], and twenty halvings of a guess
    that starts at one end above [1.9 * 10 ^ -6]. *)
Theorem sqrt_of_floor_too_large :
  (scaled 1 6 * scaled 1 6 == dval MIN_VARIANCE)%Q ∧ (scaled 19 7 < dval (decimal_sqrt MIN_VARIANCE))%Q.
Proof.
  assert (Hm : (dval MIN_VARIANCE == scaled 1 12)%Q) by (apply lit_val; lia).
  assert (Hpos : (0 < dval MIN_VARIANCE)%Q) by by rewrite Hm. split; [by rewrite Hm|].
  unfold decimal_sqrt. assert (Ex : dleb MIN_VARIANCE dec0 = false).
  { apply dleb_gt. unfold dlt. by rewrite dec0_val. }
  rewrite Ex. cbn zeta. destruct (first_guess MIN_VARIANCE Hpos) as (-> & Hg & Hfirst).
  set (g := ddiv MIN_VARIANCE (dlit 2 0)) in *.
  assert (Hgv : (dval g == scaled 1 12 / 2)%Q) by (unfold g; by rewrite half_val, Hm).
  rewrite newton_unfold. cbn zeta. set (next := ddiv (dadd g (ddiv MIN_VARIANCE g)) (dlit 2 0)).
  assert (Hv : (dval next == scaled 1 12 / 4 + 1)%Q) by (unfold next; rewrite next_guess_val, Hfirst, Hm by done; done).
  assert (Ec : dltb (dabs (dsub next g)) (dlit 1 10) = false).
  { apply dltb_ge. unfold dle. rewrite dabs_val, dsub_exact, (lit_val 1 10), Hv, Hgv by lia.
    apply Qle_bool_imp_le. reflexivity. }
  rewrite Ec. assert (Hn : (0 < dval next)%Q) by (rewrite Hv; reflexivity). clearbody next.
  eapply Qlt_le_trans; [|apply newton_slow; [exact Hpos | exact Hn]].
  rewrite Hv. reflexivity.
Qed.

(** The range reduction of the logarithm terminates, and loses nothing. The
    two loops bring every decimal the implementation can hold, from [10 ^ -28]
    up to [2 ^ 96], into [1/2 .. 3/2] within the fuel, and [k] counts the
    halvings: [x] is the reduced number times [2 ^ k]. *)
Theorem log_range_reduced (x : dec) (Hx : decimal_range x) :
  let '(y, k) := range_reduce x in
  ((1 # 2) <= dval y ∧ dval y <= (3 # 2) ∧ dval x == dval y * 2 ^ k)%Q.
Proof.
  pose proof (decimal_range_pos x Hx) as Hpos. destruct Hx as [Hlo Hhi]. unfold range_reduce.
  destruct (halve_reduces range_fuel x 0 Hpos) as (H1 & H2 & H3 & H4).
  { eapply Qle_trans; [exact Hhi|]. apply Qle_bool_imp_le; reflexivity. }
  destruct (halve range_fuel x 0) as [y k]. cbn [fst snd] in *.
  destruct (double_reduces range_fuel y k) as (H5 & H6 & H7); [|by split|].
  { assert (scaled 1 28 <= dval y)%Q by (destruct H4 as [->|]; [exact Hlo|]; eapply Qle_trans; [|eassumption]; apply Qle_bool_imp_le; reflexivity).
    assert (1 <= scaled 1 28 * (2 * 2 ^ Z.of_nat range_fuel))%Q by (apply Qle_bool_imp_le; reflexivity).
    eapply Qle_trans; [eassumption|]. apply Qmult_le_compat_r; [assumption|]. apply Qle_bool_imp_le; reflexivity. }
  destruct (double range_fuel y k) as [z k']. cbn [fst snd] in *. split; [done|]. split; [done|].
  rewrite <- H7, <- H3. change (2 ^ 0)%Q with 1%Q. ring.
Qed.

(** A GARCH estimator stays stationary. After any run of prices its
    coefficients are positive with [alpha + beta < 1], [omega] is not
    negative, the variance is zero or at least the floor, and at most
    [max_samples] returns are kept; the volatility is withheld until thirty
    returns are in and a variance is fitted, and positive from then on. *)
Theorem garch_stays_stationary (t : dec) (prices : list dec) :
  let s := garch_run t prices in
  garch_ok s ∧
  match garch_volatility s with
  | None => length (ge_returns s) < ge_min_samples s ∨ (dval (ge_variance s) == 0)%Q
  | Some v => ge_min_samples s ≤ length (ge_returns s) ∧ (0 < dval v)%Q
  end.
Proof.
  cbn zeta. pose proof (garch_run_ok t prices) as H. split; [done|]. unfold garch_volatility.
  destruct (Nat.ltb_spec (length (ge_returns (garch_run t prices))) (ge_min_samples (garch_run t prices))) as [?|Hn];
    cbn [orb]; [by left|].
  destruct (dleb (ge_variance (garch_run t prices)) dec0) eqn:E.
  - right. apply dleb_le in E. unfold dle in E. rewrite dec0_val in E. destruct (garch_floor _ H) as [?|Hf]; [done|].
    rewrite min_variance_val in Hf. assert (0 < scaled 1 12)%Q by done. lra.
  - split; [done|]. apply dleb_gt in E. unfold dlt in E. rewrite dec0_val in E.
    rewrite dmul_exact, garch_run_annual. apply Qmult_lt_0_compat; [by apply sqrt_pos | apply annualization_pos].
Qed.
End Claims.

Lemma log_range_reduced_witness :
  decimal_range (dlit 1 28) ∧
  let '(y, k) := range_reduce (dlit 1 28) in ((1 # 2) <= dval y ∧ dval y <= (3 # 2) ∧ dval (dlit 1 28) == dval y * 2 ^ k)%Q.
Proof.
  assert (H : decimal_range (dlit 1 28)) by (split; by apply Qle_bool_imp_le).
  split; [exact H | apply (log_range_reduced (dlit 1 28) H)].
Defined.

Lemma sqrt_bracketed_witness :
  dleb (dlit 2 0) dec0 = false ∧
  let r := dval (decimal_sqrt (dlit 2 0)) in
  (0 < r ∧ 2 / r <= r ∧ (r - 2 / r <= tiny ∨ r - 2 / r <= sqrt_slack 2))%Q.
Proof. split; [reflexivity|]. exact (sqrt_bracketed (dlit 2 0)). Defined.

(** Two prices: one return kept, the volatility still withheld. *)
Lemma garch_stays_stationary_witness :
  let s := garch_run (dlit 1 0) [dlit 100 0; dlit 101 0] in
  garch_ok s ∧ garch_volatility s = None ∧ (length (ge_returns s) < ge_min_samples s ∨ (dval (ge_variance s) == 0)%Q).
Proof. destruct (garch_stays_stationary (dlit 1 0) [dlit 100 0; dlit 101 0]) as [H1 H2]. split; [exact H1|]. split; [reflexivity | exact H2]. Defined.

Example ln_of_a_quarter : deqb (range_reduce (dlit 25 2)).1 (dlit 5 1) = true ∧ (range_reduce (dlit 25 2)).2 = (-1)%Z.
Proof. split; vm_compute; reflexivity. Qed.

Example sqrt_of_four : dltb (dabs (dsub (decimal_sqrt (dlit 4 0)) (dlit 2 0))) (dlit 1 4) = true.
Proof. vm_compute. reflexivity. Qed.
