(* ===== verification/Evaluator.v ===== *)
(** * The graph evaluator ([crates/strategy-graph/src/{types,node,evaluator,trace}.rs])

    A validated graph is compiled to its topological order and one node
    implementation per id; a tick runs every node once in that order and
    collects the actions of the sinks. The node kinds are an interface, the
    class [Catalog], whose laws are the contract of the trait [NodeKind];
    [NodeCatalog.v] gives the kinds of the program. Elapsed times are left out of
    the traces. *)
From stdpp Require Import base gmap sets list strings sorting.
From Stdlib Require Import ZArith Lia.
From S2P Require Import Prelude Decimal Bytes Json Graph.
Local Open Scope string_scope.
Local Open Scope nat_scope.
Local Open Scope list_scope.

(** ** Values *)
Inductive QuoteSide := QuoteBuy | QuoteSell.

#[export] Instance QuoteSide_eq_dec : EqDecision QuoteSide.
Proof. solve_decision. Defined.

Section Values.
Context {D : Decimal}.

Record GraphQuote := mkGraphQuote { gq_side : QuoteSide; gq_price : dec; gq_qty : dec }.

Record VenueQuote := mkVenueQuote {
  vq_venue : string; vq_symbol : string; vq_product : string;
  vq_side : QuoteSide; vq_price : dec; vq_qty : dec;
}.

Record AtomicBundleSpec := mkBundle { ab_maker : VenueQuote; ab_hedge : VenueQuote; ab_timeout_ms : Z }.

Inductive Value :=
| ValNumber (d : dec)
| ValBool (b : bool)
| ValUnit
| ValString (s : string)
| ValKillLevel (level : Z)
| ValStrategyKind (s : string)
| ValPairClass (s : string)
| ValQuotes (qs : list GraphQuote)
| ValVenueQuotes (qs : list VenueQuote)
| ValMissing.

Definition port_type (v : Value) : PortType :=
  match v with
  | ValNumber _ | ValMissing => PtNumber
  | ValBool _ => PtBool
  | ValUnit => PtUnit
  | ValString _ => PtString
  | ValKillLevel _ => PtKillLevel
  | ValStrategyKind _ => PtStrategyKind
  | ValPairClass _ => PtPairClass
  | ValQuotes _ | ValVenueQuotes _ => PtQuotes
  end.

Definition as_quotes (v : Value) : option (list GraphQuote) :=
  match v with ValQuotes q => Some q | _ => None end.
Definition as_venue_quotes (v : Value) : option (list VenueQuote) :=
  match v with ValVenueQuotes q => Some q | _ => None end.
Definition as_strategy_kind (v : Value) : option string :=
  match v with ValStrategyKind s => Some s | _ => None end.
Definition as_pair_class (v : Value) : option string :=
  match v with ValPairClass s => Some s | _ => None end.
Definition as_number (v : Value) : option dec :=
  match v with ValNumber n => Some n | _ => None end.
Definition as_bool (v : Value) : option bool :=
  match v with ValBool b => Some b | _ => None end.
Definition as_string (v : Value) : option string :=
  match v with ValString s => Some s | _ => None end.
Definition is_missing (v : Value) : bool :=
  match v with ValMissing => true | _ => false end.

(** A value a port of type [t] may carry: one of its type, or none. *)
Definition fits_port (t : PortType) (v : Value) : Prop := v = ValMissing ∨ port_type v = t.

Inductive SinkAction :=
| SpreadMult (d : dec)
| SizeMult (d : dec)
| Volatility (d : dec)
| KillEscalate (level : Z) (reason : string) (venue : option string)
| Flatten (policy : string)
| Quotes (qs : list GraphQuote)
| VenueQuotes (qs : list VenueQuote)
| AtomicBundle (b : AtomicBundleSpec).

(** [rust_decimal]'s conversions: truncation, the canonical text, and [to_u8]. *)
Class DecimalText := {
  dtrunc : dec → dec;
  dto_string : dec → string;
  dto_u8 : dec → option Z;
}.
End Values.
Arguments DecimalText {D}.

(** ** Node kinds *)
Section Kinds.
Context {D : Decimal}.

(** The trait [NodeKind]; [evaluate] takes the tick's time. No node of the
    catalog returns an error, but a node may panic. *)
Record NodeKind {State : Type} := mkNodeKind {
  input_ports : list (string * PortType);
  output_ports : list (string * PortType);
  restricted : bool;
  config_schema : list ConfigField;
  evaluate : Z → list Value → State → outcome (list Value * State);
}.
End Kinds.
Arguments NodeKind {D} State.
Arguments mkNodeKind {D State}.

(** [catalog::build], and the slot a node starts with. *)
Class Catalog {D : Decimal} {J : Json} := {
  NodeState : Type;
  fresh_state : NodeState;
  build_kind : string → json → option (NodeKind NodeState);
}.
Arguments Catalog D J : clear implicits.

Section Evaluator.
Context {D : Decimal} {J : Json} {I : HashMapIter} {DT : DecimalText} {C : Catalog D J}.

(** [catalog::shape] *)
Definition shape (kind : string) : option KindShape :=
  n ← build_kind kind json_null;
  Some (mkKindShape (input_ports n) (output_ports n) (restricted n) (config_schema n)).

Abbreviation SourceInputs := (gmap (NodeId * string) Value).
Abbreviation NodeOutputs := (gmap string Value).

Record Evaluator := mkEvaluator {
  ev_order : list NodeId;
  ev_nodes : gmap NodeId (NodeKind NodeState);
  ev_kinds : gmap NodeId string;
  ev_states : gmap NodeId NodeState;
  incoming : gmap (NodeId * string) (NodeId * string);
  input_order : gmap NodeId (list string);
  ev_configs : gmap NodeId json;
}.

Inductive ExecStatus := ExecOk | ExecSource | ExecError (msg : string).

Record NodeExec := mkNodeExec {
  ex_id : NodeId;
  ex_kind : string;
  ex_inputs : list (string * Value);
  ex_outputs : list (string * Value);
  ex_status : ExecStatus;
}.

(** ** Compilation *)
Definition add_node (n : Node) (built : NodeKind NodeState) (e : Evaluator) : Evaluator :=
  mkEvaluator (ev_order e) (<[n_id n := built]> (ev_nodes e)) (<[n_id n := n_kind n]> (ev_kinds e))
    (<[n_id n := fresh_state]> (ev_states e)) (incoming e)
    (<[n_id n := (input_ports built).*1]> (input_order e)) (<[n_id n := n_config n]> (ev_configs e)).

Fixpoint add_nodes (ns : list Node) (e : Evaluator) : result Evaluator ValidationError :=
  match ns with
  | [] => Ok e
  | n :: ns =>
      match build_kind (n_kind n) (n_config n) with
      | None => Err (UnknownKind (n_kind n))
      | Some built => add_nodes ns (add_node n built e)
      end
  end.

Definition incoming_of (es : list Edge) : gmap (NodeId * string) (NodeId * string) :=
  hm_collect ((λ e, (to_key e, (pr_node (e_from e), pr_port (e_from e)))) <$> es).

Definition build (allow_restricted : bool) (fresh_id : NodeId) (g : Graph) :
    outcome (result Evaluator ValidationError) :=
  match validate shape allow_restricted fresh_id g with
  | Panicked => Panicked
  | Done (Err e) => Done (Err e)
  | Done (Ok topo) =>
      Done (add_nodes (nodes g) (mkEvaluator (order topo) ∅ ∅ ∅ (incoming_of (edges g)) ∅ ∅))
  end.

Definition nodes_by_kind (e : Evaluator) : list (NodeId * string) :=
  (λ id, (id, default "" (ev_kinds e !! id))) <$> ev_order e.

(** ** Sinks *)

(** [config.get("venue")] when it is a string that is not empty. *)
Definition sink_venue (config : option json) : option string :=
  c ← config;
  v ← match json_type c with JObject => json_get (json_entries c) "venue" | _ => None end;
  s ← json_as_str v;
  if bool_decide (s = "") then None else Some s.

Definition untagged (q : GraphQuote) : VenueQuote :=
  mkVenueQuote "" "" "" (gq_side q) (gq_price q) (gq_qty q).

Definition arg (inputs : list Value) (i : nat) : Value := default ValMissing (inputs !! i).

(** [inputs.get(i).and_then(Value::as_bool).unwrap_or(false)] *)
Definition trigger (inputs : list Value) : bool := default false (as_bool (arg inputs 0)).

Definition escalate_level (v : Value) : Z :=
  match v with
  | ValKillLevel l => l
  | ValNumber n => default 2%Z ((λ u, Z.max 1 (Z.min 5 u)) <$> dto_u8 n)
  | _ => 2%Z
  end.

Definition non_empty {A} (qs : list A) (f : list A → SinkAction) : list SinkAction :=
  match qs with [] => [] | _ => [f qs] end.

Definition bundle_timeout (v : Value) : Z :=
  match as_number v with
  | Some d => default 2000%Z (parse_u64 (dto_string (dtrunc d)))
  | None => 2000%Z
  end.

Definition harvest (kind : string) (config : option json) (inputs : list Value) : list SinkAction :=
  let a := arg inputs in
  if bool_decide (kind = "Out.SpreadMult") then option_list (SpreadMult <$> as_number (a 0))
  else if bool_decide (kind = "Out.SizeMult") then option_list (SizeMult <$> as_number (a 0))
  else if bool_decide (kind = "Out.Volatility") then option_list (Volatility <$> as_number (a 0))
  else if bool_decide (kind = "Out.KillEscalate") then
    if trigger inputs
    then [KillEscalate (escalate_level (a 1)) (default "graph sink" (as_string (a 2))) (sink_venue config)]
    else []
  else if bool_decide (kind = "Out.Flatten") then
    if trigger inputs then [Flatten (default "twap:120:5" (as_string (a 1)))] else []
  else if bool_decide (kind = "Out.Quotes") then option_list (Quotes <$> as_quotes (a 0))
  else if bool_decide (kind = "Out.VenueQuotes") then option_list (VenueQuotes <$> as_venue_quotes (a 0))
  else if bool_decide (kind = "Out.VenueQuotesIf") then
    if trigger inputs then
      match a 1 with
      | ValVenueQuotes qs => non_empty qs VenueQuotes
      | ValQuotes qs => non_empty qs Quotes
      | _ => []
      end
    else []
  else if bool_decide (kind = "Out.AtomicBundle") then
    let maker := match as_venue_quotes (a 0) ≫= head with
                 | Some q => Some q
                 | None => untagged <$> (as_quotes (a 0) ≫= head)
                 end in
    match maker, as_venue_quotes (a 1) ≫= head with
    | Some maker, Some hedge => [AtomicBundle (mkBundle maker hedge (bundle_timeout (a 2)))]
    | _, _ => []
    end
  else [].

(** ** A tick *)

(** The input of a port: its edge's source in this tick, or the engine's. *)
Definition marshal (e : Evaluator) (src : SourceInputs) (outs : gmap NodeId NodeOutputs) (id : NodeId)
    (port : string) : Value :=
  match incoming e !! (id, port) with
  | Some (from, from_port) => default ValMissing (outs !! from ≫= λ m, m !! from_port)
  | None => default ValMissing (src !! (id, port))
  end.

(** The engine's value wins over a source's own. *)
Definition overlay (src : SourceInputs) (id : NodeId) (port : string * PortType) (own : Value) : Value :=
  default own (src !! (id, port.1)).

Definition is_source (e : Evaluator) (id : NodeId) : bool :=
  match default [] (input_order e !! id) with [] => true | _ => false end.

Definition inputs_of (e : Evaluator) (src : SourceInputs) (outs : gmap NodeId NodeOutputs) (id : NodeId) :
    list Value :=
  marshal e src outs id <$> default [] (input_order e !! id).

(** The values a node produces from its inputs and its slot. *)
Definition produce (e : Evaluator) (now : Z) (src : SourceInputs) (id : NodeId) (n : NodeKind NodeState)
    (inputs : list Value) (st : NodeState) : outcome (list Value * NodeState) :=
  match evaluate n now inputs st with
  | Panicked => Panicked
  | Done (vals, st') =>
      Done (if is_source e id then zip_with (overlay src id) (output_ports n) vals else vals, st')
  end.

Definition output_pairs (n : NodeKind NodeState) (vals : list Value) : list (string * Value) :=
  zip (output_ports n).*1 vals.

Definition traced_inputs (e : Evaluator) (src : SourceInputs) (id : NodeId) (n : NodeKind NodeState)
    (inputs : list Value) : list (string * Value) :=
  if is_source e id then omap (λ p, (λ v, (p.1, v)) <$> src !! (id, p.1)) (output_ports n)
  else zip (default [] (input_order e !! id)) inputs.

Record Pass := mkPass {
  p_outputs : gmap NodeId NodeOutputs;
  p_states : gmap NodeId NodeState;
  p_sinks : list SinkAction;
  p_trace : list NodeExec;
}.

(** One node of the tick; a missing node or slot fails an [expect], and a
    panicking node ends the tick. *)
Definition run_node (e : Evaluator) (now : Z) (src : SourceInputs) (p : outcome Pass) (id : NodeId) :
    outcome Pass :=
  match p, ev_nodes e !! id with
  | Done p, Some n =>
      match p_states p !! id with
      | None => Panicked
      | Some st =>
          let inputs := inputs_of e src (p_outputs p) id in
          match produce e now src id n inputs st with
          | Panicked => Panicked
          | Done (vals, st') =>
              let kind := default "" (ev_kinds e !! id) in
              Done (mkPass (<[id := hm_collect (output_pairs n vals)]> (p_outputs p))
                     (<[id := st']> (p_states p))
                     (p_sinks p ++ harvest kind (ev_configs e !! id) inputs)
                     (p_trace p ++ [mkNodeExec id kind (traced_inputs e src id n inputs) (output_pairs n vals)
                        (if is_source e id then ExecSource else ExecOk)]))
          end
      end
  | _, _ => Panicked
  end.

Definition with_states (m : gmap NodeId NodeState) (e : Evaluator) : Evaluator :=
  mkEvaluator (ev_order e) (ev_nodes e) (ev_kinds e) m (incoming e) (input_order e) (ev_configs e).

Definition pass (e : Evaluator) (now : Z) (src : SourceInputs) : outcome Pass :=
  fold_left (run_node e now src) (ev_order e) (Done (mkPass ∅ (ev_states e) [] [])).

(** [tick_with_full_trace]; [tick] is the same without the trace. *)
Definition tick_with_full_trace (e : Evaluator) (now : Z) (src : SourceInputs) :
    outcome (list SinkAction * list NodeExec * Evaluator) :=
  match pass e now src with
  | Panicked => Panicked
  | Done p => Done (p_sinks p, p_trace p, with_states (p_states p) e)
  end.

Definition tick (e : Evaluator) (now : Z) (src : SourceInputs) : outcome (list SinkAction * Evaluator) :=
  match tick_with_full_trace e now src with
  | Panicked => Panicked
  | Done (sinks, _, e) => Done (sinks, e)
  end.

Definition eval_trace_from_tick_trace (t : list NodeExec) : gmap (NodeId * string) Value :=
  hm_collect (x ← t; (λ o, ((ex_id x, o.1), o.2)) <$> ex_outputs x).

Definition tick_with_trace (e : Evaluator) (now : Z) (src : SourceInputs) :
    outcome (list SinkAction * gmap (NodeId * string) Value * Evaluator) :=
  match tick_with_full_trace e now src with
  | Panicked => Panicked
  | Done (sinks, t, e) => Done (sinks, eval_trace_from_tick_trace t, e)
  end.

(** ** Static analysis *)
Record GraphAnalysis := mkAnalysis {
  ga_graph_hash : string;
  depth_map : list (NodeId * nat);
  required_sources : list string;
  dead_nodes : list NodeId;
  unconsumed_outputs : list (NodeId * string);
}.

Definition is_transform_kind (kind : string) : bool :=
  existsb (λ p, String.prefix p kind) ["Math."; "Logic."; "Cast."; "Strategy."; "Exec."; "Plan."; "Out."].

Definition is_out_kind (kind : string) : bool := String.prefix "Out." kind.

(** [max().map(|m| m + 1).unwrap_or(0)] *)
Definition above (ds : list nat) : nat := match ds with [] => 0 | _ => S (max_list ds) end.

Definition node_depth (e : Evaluator) (depth : gmap NodeId nat) (id : NodeId) : nat :=
  above (omap (λ port, incoming e !! (id, port) ≫= λ f, depth !! f.1) (default [] (input_order e !! id))).

Definition depths (e : Evaluator) : gmap NodeId nat :=
  fold_left (λ m id, <[id := node_depth e m id]> m) (ev_order e) ∅.

Definition predecessors (e : Evaluator) (n : NodeId) : list NodeId :=
  (λ x, x.2.1) <$> filter (λ x, x.1.1 = n) (hm_iter (incoming e)).

(** The walk over predecessors; the head of the list is the top of the stack. *)
Fixpoint sweep (e : Evaluator) (fuel : nat) (stack : list NodeId) (seen : gset NodeId) : gset NodeId :=
  match fuel, stack with
  | S fuel, n :: stack =>
      if decide (n ∈ seen) then sweep e fuel stack seen
      else sweep e fuel (reverse (predecessors e n) ++ stack) ({[n]} ∪ seen)
  | _, _ => seen
  end.

Definition sink_nodes (e : Evaluator) : list NodeId :=
  (filter (λ x, is_out_kind x.2) (hm_iter (ev_kinds e))).*1.

Definition reachable (e : Evaluator) : gset NodeId :=
  sweep e (size (ev_kinds e) + size (incoming e)) (reverse (sink_nodes e)) ∅.

Definition kind_is (p : string → bool) (e : Evaluator) (id : NodeId) : bool :=
  match ev_kinds e !! id with Some k => p k | None => false end.

Definition unconsumed_of (e : Evaluator) (id : NodeId) : list (NodeId * string) :=
  match ev_nodes e !! id with
  | None => []
  | Some n =>
      if kind_is is_out_kind e id then []
      else filter (λ c, c ∉ hm_values (incoming e)) ((λ p, (id, p.1)) <$> output_ports n)
  end.

Definition analyze (e : Evaluator) (hash : string) : GraphAnalysis :=
  mkAnalysis hash
    (sort_by (λ a b, (a.2 <=? b.2)%nat) (hm_iter (depths e)))
    (sort_dedup (filter (λ k, negb (is_transform_kind k))
      (omap (λ id, ev_kinds e !! id) (filter (λ id, is_source e id ∧ id ∈ reachable e) (ev_order e)))))
    (filter (λ id, id ∉ reachable e) (ev_order e))
    (ev_order e ≫= unconsumed_of e).

(** ** Replay on another graph *)
Definition is_source_exec (x : NodeExec) : bool := match ex_status x with ExecSource => true | _ => false end.

Definition source_kind_values (t : list NodeExec) : gmap (string * string) Value :=
  hm_collect (x ← List.filter is_source_exec t;
              (λ o, ((ex_kind x, o.1), o.2)) <$> ex_outputs x).

(** The source nodes of a kind. *)
Definition source_nodes (e : Evaluator) : list NodeId :=
  filter (λ id, input_order e !! id = Some []) (ev_order e).

Definition kind_count (e : Evaluator) (kind : string) : nat :=
  length (filter (λ id, ev_kinds e !! id = Some kind) (source_nodes e)).

Definition replay_node (e : Evaluator) (kind_values : gmap (string * string) Value) (id : NodeId) :
    list ((NodeId * string) * Value) :=
  match ev_kinds e !! id with
  | None => []
  | Some kind =>
      if (1 <? kind_count e kind)%nat then []
      else match ev_nodes e !! id with
           | None => []
           | Some n => omap (λ p, (λ v, ((id, p.1), v)) <$> kind_values !! (kind, p.1)) (output_ports n)
           end
  end.

Definition replay_source_inputs (e : Evaluator) (kind_values : gmap (string * string) Value) : SourceInputs :=
  hm_collect (source_nodes e ≫= replay_node e kind_values).
End Evaluator.

(** ** A compiled graph *)

(** The contract of [NodeKind]: the ports do not depend on the configuration,
    [evaluate] returns one value per output port, and on inputs that fit the
    input ports its values fit the output ports. *)
Class CatalogLaws {D : Decimal} {J : Json} (C : Catalog D J) : Prop := {
  ports_fixed k c n : build_kind k c = Some n → ∃ n0, build_kind k json_null = Some n0 ∧
    input_ports n = input_ports n0 ∧ output_ports n = output_ports n0;
  ports_named k c n : build_kind k c = Some n →
    NoDup (input_ports n).*1 ∧ NoDup (output_ports n).*1;
  evaluate_length k c n now ins st vals st' : build_kind k c = Some n →
    evaluate n now ins st = Done (vals, st') → length vals = length (output_ports n);
  evaluate_typed k c n now ins st vals st' : build_kind k c = Some n →
    evaluate n now ins st = Done (vals, st') →
    Forall2 (λ p v, fits_port p.2 v) (input_ports n) ins →
    Forall2 (λ p v, fits_port p.2 v) (output_ports n) vals;
}.

Section Compiled.
Context {D : Decimal} {J : Json} {I : HashMapIter} {DT : DecimalText} {C : Catalog D J} {L : CatalogLaws C}.
Context (allow_restricted : bool) (fresh_id : NodeId).

(** What [build] establishes and a tick keeps. *)
Record compiled (g : Graph) (e : Evaluator) : Prop := {
  co_order : ev_order e ≡ₚ ids g;
  co_nd : NoDup (ev_order e);
  co_topo : topological (pairs g) (ev_order e);
  co_node id : id ∈ ev_order e → ∃ n built, n ∈ nodes g ∧ n_id n = id ∧
    build_kind (n_kind n) (n_config n) = Some built ∧ ev_nodes e !! id = Some built ∧
    ev_kinds e !! id = Some (n_kind n) ∧ input_order e !! id = Some (input_ports built).*1 ∧
    is_Some (ev_states e !! id);
  co_kinds id : is_Some (ev_kinds e !! id) ∨ is_Some (ev_nodes e !! id) → id ∈ ev_order e;
  co_incoming : incoming e = incoming_of (edges g);
  co_wf : well_formed shape allow_restricted g;
}.

Lemma add_nodes_static ns e e' : add_nodes ns e = Ok e' →
  ev_order e' = ev_order e ∧ incoming e' = incoming e ∧
  ∀ id, id ∉ n_id <$> ns → ev_nodes e' !! id = ev_nodes e !! id ∧ ev_kinds e' !! id = ev_kinds e !! id ∧
    ev_states e' !! id = ev_states e !! id ∧ input_order e' !! id = input_order e !! id ∧
    ev_configs e' !! id = ev_configs e !! id.
Proof.
  revert e. induction ns as [|n ns IH]; intros e; simpl; [by intros [= <-]|].
  destruct (build_kind _ _) as [built|]; [|done]. intros H. destruct (IH _ H) as (-> & -> & Hid).
  split; [done|]. split; [done|]. intros id. rewrite not_elem_of_cons. intros [Hne Hni].
  destruct (Hid id Hni) as (-> & -> & -> & -> & ->). simpl. by rewrite !lookup_insert_ne by done.
Qed.

Lemma add_nodes_spec ns e e' n : add_nodes ns e = Ok e' → NoDup (n_id <$> ns) → n ∈ ns →
  ∃ built, build_kind (n_kind n) (n_config n) = Some built ∧ ev_nodes e' !! n_id n = Some built ∧
    ev_kinds e' !! n_id n = Some (n_kind n) ∧ input_order e' !! n_id n = Some (input_ports built).*1 ∧
    ev_states e' !! n_id n = Some fresh_state ∧ ev_configs e' !! n_id n = Some (n_config n).
Proof.
  revert e. induction ns as [|m ns IH]; intros e; simpl; [by intros _ _ ?%elem_of_nil|].
  destruct (build_kind (n_kind m) _) as [built|] eqn:Eb; [|done].
  intros H [Hni Hnd]%NoDup_cons [->|Hn]%elem_of_cons; [|by eapply IH].
  exists built. destruct (add_nodes_static _ _ _ H) as (_ & _ & Hid).
  destruct (Hid _ Hni) as (-> & -> & -> & -> & ->). simpl. by rewrite !lookup_insert_eq.
Qed.

Lemma build_compiled g e : build allow_restricted fresh_id g = Done (Ok e) → compiled g e.
Proof.
  unfold build. destruct (validate _ _ _ g) as [[t|]|] eqn:Ev; try done.
  destruct (validate_accepted shape allow_restricted fresh_id g t Ev) as (_ & Hw & _ & _ & Hp & Ht & _).
  intros [= H]. destruct (add_nodes_static _ _ _ H) as (Ho & Hi & _). simpl in Ho, Hi.
  assert (Hnd : NoDup (ids g)) by apply Hw. split; rewrite ?Ho, ?Hi; try done.
  - by rewrite Hp.
  - intros id Hid. rewrite Hp in Hid. apply list_elem_of_fmap in Hid as (n & -> & Hn).
    destruct (add_nodes_spec _ _ _ n H Hnd Hn) as (built & ? & ? & ? & ? & Hs & _).
    exists n, built. rewrite Hs. by repeat (split; [done|]).
  - intros id Hk. rewrite Hp. destruct (decide (id ∈ ids g)) as [Hin|Hni]; [done|].
    destruct (add_nodes_static _ _ _ H) as (_ & _ & Hid). destruct (Hid id Hni) as (E1 & E2 & _).
    rewrite E1, E2 in Hk. simpl in Hk. rewrite !lookup_empty in Hk. by destruct Hk as [[? ?]|[? ?]].
Qed.
End Compiled.

(** ** What a tick computes *)
Section Tick.
Context {D : Decimal} {J : Json} {I : HashMapIter} {DT : DecimalText} {C : Catalog D J} {L : CatalogLaws C}.
Context (allow_restricted : bool) (g : Graph) (e : Evaluator) (He : compiled allow_restricted g e).
Context (now : Z) (src : gmap (NodeId * string) Value).
Implicit Types outs : gmap NodeId (gmap string Value).

Definition returned {A} (x : outcome A) : option A := match x with Done a => Some a | Panicked => None end.

(** A node's values and next slot, its inputs read from [outs]. *)
Definition node_run outs (id : NodeId) : option (NodeKind NodeState * (list Value * NodeState)) :=
  n ← ev_nodes e !! id;
  st ← ev_states e !! id;
  r ← returned (produce e now src id n (inputs_of e src outs id) st);
  Some (n, r).

(** The node's evaluation itself panics. *)
Definition node_panics outs (id : NodeId) : Prop := ∃ n st,
  ev_nodes e !! id = Some n ∧ ev_states e !! id = Some st ∧ evaluate n now (inputs_of e src outs id) st = Panicked.

Definition node_values outs (id : NodeId) : option (gmap string Value) :=
  x ← node_run outs id; Some (hm_collect (output_pairs x.1 x.2.1)).

Definition node_exec outs (id : NodeId) : option NodeExec :=
  x ← node_run outs id;
  Some (mkNodeExec id (default "" (ev_kinds e !! id))
    (traced_inputs e src id x.1 (inputs_of e src outs id)) (output_pairs x.1 x.2.1)
    (if is_source e id then ExecSource else ExecOk)).

(** Every node's outputs are what it makes of the outputs of the others. *)
Definition solution outs : Prop := ∀ id, id ∈ ev_order e → is_Some (outs !! id) ∧ outs !! id = node_values outs id.

Lemma incoming_edge id port from from_port : incoming e !! (id, port) = Some (from, from_port) →
  ∃ ed, ed ∈ edges g ∧ e_from ed = mkPortRef from from_port ∧ e_to ed = mkPortRef id port.
Proof.
  rewrite (co_incoming _ _ _ He). unfold incoming_of. intros E.
  apply hm_collect_elem in E as (ed & [= H1 H2 H3 H4] & Hin)%list_elem_of_fmap;
    [|rewrite <- list_fmap_compose; apply (wf_fan_in _ _ _ (co_wf _ _ _ He))].
  exists ed. split; [done|]. destruct ed as [[] []]. simpl in *. by subst.
Qed.

Lemma incoming_pair id port from from_port :
  incoming e !! (id, port) = Some (from, from_port) → (from, id) ∈ pairs g.
Proof.
  intros (ed & Hin & Hf & Ht)%incoming_edge. apply list_elem_of_fmap. exists ed.
  unfold edge_pair. by rewrite Hf, Ht.
Qed.

(** Only the sources of a node's edges matter to its inputs. *)
Lemma inputs_agree outs1 outs2 id : (∀ u, (u, id) ∈ pairs g → outs1 !! u = outs2 !! u) →
  inputs_of e src outs1 id = inputs_of e src outs2 id.
Proof.
  intros H. unfold inputs_of. apply list_fmap_ext. intros i port _. unfold marshal.
  destruct (incoming e !! (id, port)) as [[from from_port]|] eqn:E; [|done].
  by rewrite (H from) by by eapply incoming_pair.
Qed.

(** The sources of the edges into a node come before it. *)
Lemma sources_before ys id zs u : ev_order e = ys ++ id :: zs → (u, id) ∈ pairs g → u ∈ ys ∧ u ≠ id.
Proof.
  intros Ho Hu. destruct (co_topo _ _ _ He (length ys) id) with (u := u) as (j & Hj & Hl).
  { rewrite Ho. by apply list_lookup_middle. }
  { done. }
  rewrite Ho, lookup_app_l in Hl by done. apply list_elem_of_lookup_2 in Hl as Hin. split; [done|].
  intros ->. pose proof (co_nd _ _ _ He) as Hnd. rewrite Ho in Hnd. apply NoDup_app in Hnd as (_ & H & _).
  by apply (H id Hin); left.
Qed.

(** Along the order, the sources of a node's edges come first. *)
Lemma order_ind (P : NodeId → Prop) :
  (∀ id, id ∈ ev_order e → (∀ u, (u, id) ∈ pairs g → u ∈ ev_order e ∧ P u) → P id) →
  ∀ id, id ∈ ev_order e → P id.
Proof.
  intros Hstep. assert (Hgen : ∀ ys zs, ev_order e = ys ++ zs → ∀ id, id ∈ ys → P id).
  { induction ys as [|y ys IH] using rev_ind; intros zs Ho id; [by intros ?%elem_of_nil|].
    rewrite <- app_assoc in Ho. intros [Hid|Hid%list_elem_of_singleton]%elem_of_app; [by eapply IH|].
    subst id. apply Hstep; [rewrite Ho; set_solver|]. intros u Hu.
    destruct (sources_before ys y zs u Ho Hu) as [Hys _]. split; [rewrite Ho; set_solver|by eapply IH]. }
  intros id Hid. by apply (Hgen (ev_order e) []); [rewrite app_nil_r|].
Qed.

Record pass_inv (ys : list NodeId) (p : Pass) : Prop := {
  pi_out id : id ∈ ys → is_Some (p_outputs p !! id) ∧ p_outputs p !! id = node_values (p_outputs p) id;
  pi_fresh id : id ∉ ys → p_outputs p !! id = None ∧ p_states p !! id = ev_states e !! id;
  pi_state id : id ∈ ys → p_states p !! id = (λ x, x.2.2) <$> node_run (p_outputs p) id;
  pi_sinks : p_sinks p =
    ys ≫= λ id, harvest (default "" (ev_kinds e !! id)) (ev_configs e !! id) (inputs_of e src (p_outputs p) id);
  pi_trace : p_trace p = omap (node_exec (p_outputs p)) ys;
}.

Lemma pass_step ys zs id p : ev_order e = ys ++ id :: zs → pass_inv ys p →
  (∃ p', run_node e now src (Done p) id = Done p' ∧ pass_inv (ys ++ [id]) p') ∨
  (run_node e now src (Done p) id = Panicked ∧ node_panics (p_outputs p) id).
Proof.
  intros Ho [Hout Hfresh Hstate Hsinks Htrace].
  assert (Hid : id ∈ ev_order e) by (rewrite Ho; set_solver).
  assert (Hni : id ∉ ys).
  { pose proof (co_nd _ _ _ He) as Hnd. rewrite Ho in Hnd. apply NoDup_app in Hnd as (_ & H & _).
    intros Hin. by apply (H id Hin); left. }
  destruct (co_node _ _ _ He id Hid) as (n & built & _ & _ & _ & Hn & _ & _ & [st Hst]).
  unfold run_node. rewrite Hn. destruct (Hfresh id Hni) as [Ho0 ->]. rewrite Hst.
  set (ins := inputs_of e src (p_outputs p) id).
  destruct (produce e now src id built ins st) as [[vals st']|] eqn:Ep.
  2:{ right. split; [done|]. exists built, st. do 2 (split; [done|]). unfold produce in Ep. fold ins.
      by destruct (evaluate built now ins st) as [[? ?]|]. }
  left. eexists. split; [done|].
  set (outs := <[id := hm_collect (output_pairs built vals)]> (p_outputs p)).
  assert (Hagree : ∀ u, u ∈ ys ++ [id] → inputs_of e src (p_outputs p) u = inputs_of e src outs u).
  { intros u Hu. apply inputs_agree. intros w Hw. unfold outs. rewrite lookup_insert_ne; [done|]. intros <-.
    apply Hni. apply elem_of_app in Hu as [Hu|Hu]; [apply list_elem_of_split in Hu as (l1 & l2 & ->)|apply list_elem_of_singleton in Hu as ->].
    - rewrite <- app_assoc in Ho. destruct (sources_before l1 u (l2 ++ id :: zs) id Ho Hw). set_solver.
    - by destruct (sources_before ys id zs id Ho Hw). }
  assert (Hrun : ∀ u, u ∈ ys ++ [id] → node_run outs u = node_run (p_outputs p) u).
  { intros u Hu. unfold node_run. by rewrite (Hagree u Hu). }
  assert (Hself : node_run outs id = Some (built, (vals, st'))).
  { rewrite Hrun by set_solver. unfold node_run. rewrite Hn, Hst. simpl. fold ins. by rewrite Ep. }
  split; simpl.
  - intros u [Hu|Hu%list_elem_of_singleton]%elem_of_app.
    + assert (u ≠ id) by (by intros ->). unfold outs at 1 2. rewrite !lookup_insert_ne by done.
      destruct (Hout u Hu) as [Hs Heq]. split; [done|]. unfold node_values in *.
      rewrite (Hrun u) by set_solver. done.
    + subst u. unfold node_values. rewrite Hself. unfold outs. rewrite lookup_insert_eq. simpl. eauto.
  - intros u [Hu Hne]%not_elem_of_app. rewrite not_elem_of_cons in Hne. destruct Hne as [Hne _].
    unfold outs. rewrite !lookup_insert_ne by done. by apply Hfresh.
  - intros u [Hu|Hu%list_elem_of_singleton]%elem_of_app.
    + assert (u ≠ id) by (by intros ->). rewrite lookup_insert_ne, (Hrun u) by set_solver. by apply Hstate.
    + subst u. rewrite lookup_insert_eq. fold outs. by rewrite Hself.
  - rewrite Hsinks, bind_app. simpl. rewrite app_nil_r. fold outs. f_equal.
    + apply bind_ext_in. intros u Hu. by rewrite (Hagree u) by set_solver.
    + unfold ins. by rewrite (Hagree id) by set_solver.
  - rewrite Htrace, omap_app. fold outs. f_equal.
    + apply omap_ext_in. intros u Hu. unfold node_exec. by rewrite (Hrun u), (Hagree u) by set_solver.
    + simpl. unfold node_exec. rewrite Hself. simpl. unfold ins. by rewrite (Hagree id) by set_solver.
Qed.

(** What a pass has computed so far agrees with any solution. *)
Lemma pass_inv_solution ys zs p sol : ev_order e = ys ++ zs → pass_inv ys p → solution sol →
  ∀ u, u ∈ ys → p_outputs p !! u = sol !! u.
Proof.
  intros Ho Hp Hsol. assert (Hgen : ∀ u, u ∈ ev_order e → u ∈ ys → p_outputs p !! u = sol !! u).
  { refine (order_ind (λ u, u ∈ ys → p_outputs p !! u = sol !! u) _). intros u Hu IH Huy. destruct (pi_out _ _ Hp u Huy) as [_ ->], (Hsol u Hu) as [_ ->].
    unfold node_values, node_run. rewrite (inputs_agree (p_outputs p) sol); [done|]. intros w Hw.
    destruct (IH w Hw) as [_ Hw']. apply Hw'. apply list_elem_of_split in Huy as (l1 & l2 & ->).
    rewrite <- app_assoc in Ho. destruct (sources_before l1 u (l2 ++ zs) w Ho Hw). set_solver. }
  intros u Hu. apply Hgen; [rewrite Ho; set_solver|done].
Qed.

(** The panic of a tick is the panic of a node; no solution survives it. *)
Definition tick_panic (id : NodeId) outs : Prop := id ∈ ev_order e ∧ node_panics outs id ∧
  ∀ sol, solution sol → inputs_of e src outs id = inputs_of e src sol id.

Lemma tick_panic_no_solution id outs sol : tick_panic id outs → ¬ solution sol.
Proof.
  intros (Hid & (n & st & Hn & Hst & Hp) & Hagree) Hsol. destruct (Hsol id Hid) as [Hsome Heq].
  rewrite Heq in Hsome. unfold node_values, node_run in Hsome. rewrite Hn, Hst in Hsome. cbn in Hsome.
  unfold produce in Hsome. rewrite <- (Hagree sol Hsol), Hp in Hsome. by destruct Hsome.
Qed.

Lemma pass_runs : (∃ p, pass e now src = Done p ∧ pass_inv (ev_order e) p) ∨
  (pass e now src = Panicked ∧ ∃ id outs, tick_panic id outs).
Proof.
  unfold pass. set (p0 := mkPass ∅ (ev_states e) [] []).
  assert (H0 : pass_inv [] p0).
  { split; simpl; try done; intros id; by rewrite ?elem_of_nil. }
  assert (Hgen : ∀ zs ys p, ev_order e = ys ++ zs → pass_inv ys p →
    (∃ p', fold_left (run_node e now src) zs (Done p) = Done p' ∧ pass_inv (ev_order e) p') ∨
    (fold_left (run_node e now src) zs (Done p) = Panicked ∧ ∃ id outs, tick_panic id outs)).
  { induction zs as [|id zs IH]; intros ys p Ho Hp.
    - left. exists p. rewrite app_nil_r in Ho. rewrite Ho. done.
    - cbn [fold_left]. destruct (pass_step ys zs id p Ho Hp) as [(p1 & -> & Hp1)|[-> Hpanic]].
      + apply (IH (ys ++ [id])); [by rewrite <- app_assoc|done].
      + right. split; [clear; by induction zs|]. exists id, (p_outputs p).
        split; [rewrite Ho; set_solver|]. split; [done|]. intros sol Hsol. apply inputs_agree. intros u Hu.
        apply (pass_inv_solution ys (id :: zs) p sol Ho Hp Hsol). by eapply sources_before. }
  by apply (Hgen (ev_order e) []).
Qed.

(** The slots a tick leaves. *)
Definition next_state outs (id : NodeId) : option NodeState := (λ x, x.2.2) <$> node_run outs id.

Lemma tick_solves r : tick_with_full_trace e now src = Done r → ∃ outs m,
  r = (ev_order e ≫= (λ id, harvest (default "" (ev_kinds e !! id)) (ev_configs e !! id) (inputs_of e src outs id)),
       omap (node_exec outs) (ev_order e), with_states m e) ∧
  solution outs ∧ compiled allow_restricted g (with_states m e) ∧
  (∀ id, id ∈ ev_order e → m !! id = next_state outs id) ∧
  (∀ id, id ∉ ev_order e → m !! id = ev_states e !! id).
Proof.
  unfold tick_with_full_trace. destruct pass_runs as [(p & -> & [Hout Hfresh Hstate Hsinks Htrace])|[-> _]]; [|done].
  intros [= <-]. exists (p_outputs p), (p_states p). rewrite Hsinks, Htrace. do 2 (split; [done|]).
  split; [|split; [done|by intros id Hid; apply Hfresh]].
  destruct He as [H1 H2 H3 H4 H5 H6 H7]. split; try done. cbn [ev_order with_states]. intros id Hid.
  destruct (H4 id Hid) as (n & built & Hn & Hi & Hb & Hnode & Hk & Ho & Hs).
  exists n, built. repeat (split; [done|]). cbn [ev_states with_states]. rewrite Hstate by done.
  destruct (Hout id Hid) as [Hsome Heq]. rewrite Heq in Hsome. unfold node_values in Hsome.
  destruct (node_run (p_outputs p) id); [by eexists|by destruct Hsome].
Qed.

Lemma tick_panics : tick_with_full_trace e now src = Panicked → ∃ id outs, tick_panic id outs.
Proof.
  unfold tick_with_full_trace. by destruct pass_runs as [(p & -> & _)|[_ H]].
Qed.

(** Two solutions agree on every node. *)
Lemma solution_unique outs1 outs2 : solution outs1 → solution outs2 →
  ∀ id, id ∈ ev_order e → outs1 !! id = outs2 !! id.
Proof.
  intros H1 H2. apply order_ind. intros id Hid IH.
  destruct (H1 id Hid) as [_ ->], (H2 id Hid) as [_ ->]. unfold node_values, node_run.
  rewrite (inputs_agree outs1 outs2); [done|]. intros u Hu. by apply IH.
Qed.

Lemma co_built id built : ev_nodes e !! id = Some built → id ∈ ev_order e →
  ∃ n, n ∈ nodes g ∧ n_id n = id ∧ build_kind (n_kind n) (n_config n) = Some built ∧
    ev_kinds e !! id = Some (n_kind n) ∧ input_order e !! id = Some (input_ports built).*1.
Proof. intros Hb Hid. destruct (co_node _ _ _ He id Hid) as (n & b & ?). exists n. naive_solver. Qed.

(** A run returns one value per output port, whose names are distinct. *)
Lemma run_names outs id built vals st : id ∈ ev_order e → node_run outs id = Some (built, (vals, st)) →
  length vals = length (output_ports built) ∧
  (output_pairs built vals).*1 = (output_ports built).*1 ∧ NoDup (output_pairs built vals).*1.
Proof.
  intros Hid. unfold node_run. destruct (ev_nodes e !! id) as [n|] eqn:En; [|done].
  destruct (ev_states e !! id) as [s0|]; [|done]. cbn.
  destruct (produce e now src id n _ s0) as [r|] eqn:Hp; [|done]. intros [= -> ->].
  destruct (co_built id built En Hid) as (m & _ & _ & Hb & _).
  assert (Hl : length vals = length (output_ports built)).
  { unfold produce in Hp. destruct (evaluate built now _ s0) as [[own st']|] eqn:Ee; [|done].
    pose proof (evaluate_length _ _ _ _ _ _ _ _ Hb Ee) as Hl. injection Hp as <- <-.
    destruct (is_source e id); [|done]. rewrite length_zip_with. lia. }
  assert (Hn : (output_pairs built vals).*1 = (output_ports built).*1).
  { unfold output_pairs. apply fst_zip. by rewrite length_fmap, Hl. }
  rewrite Hn. split; [done|]. split; [done|]. apply (ports_named _ _ _ Hb).
Qed.

(** The entries of a tick are keyed by the node and the port. *)
Lemma exec_keys_NoDup outs :
  NoDup ((x ← omap (node_exec outs) (ev_order e); (λ o, ((ex_id x, o.1), o.2)) <$> ex_outputs x).*1).
Proof.
  assert (Hsub : ∀ l, l ⊆ ev_order e → NoDup l →
    NoDup ((x ← omap (node_exec outs) l; (λ o, ((ex_id x, o.1), o.2)) <$> ex_outputs x).*1)).
  2:{ apply Hsub; [done|by apply (co_nd _ _ _ He)]. }
  induction l as [|id l IH]; intros Hl Hnd; [constructor|]. apply NoDup_cons in Hnd as [Hni Hnd].
  assert (Hl' : l ⊆ ev_order e) by set_solver. cbn. unfold node_exec at 1.
  destruct (node_run outs id) as [[built [vals st]]|] eqn:Er; [|by apply IH]. cbn. rewrite fmap_app. apply NoDup_app.
  split; [|split; [|by apply IH]].
  - match goal with |- NoDup ?ks => assert (E : ks = pair id <$> (output_pairs built vals).*1) end.
    { by rewrite <- !list_fmap_compose. }
    rewrite E. apply NoDup_fmap; [by intros ?? [= ->]|].
    apply (run_names outs id built vals st); [set_solver|done].
  - intros [id' port] H1 H2. rewrite <- list_fmap_compose in H1.
    apply list_elem_of_fmap in H1 as (o & [= -> ->] & _).
    apply list_elem_of_fmap in H2 as ([k v] & [= <-] & Hin). apply list_elem_of_bind in Hin as (x & Hin & Hx).
    apply list_elem_of_fmap in Hin as (o' & [= Hid _ _] & _). apply list_elem_of_omap in Hx as (id2 & Hid2 & Hex).
    unfold node_exec in Hex. destruct (node_run outs id2); [|done]. injection Hex as <-. simpl in Hid. by subst.
Qed.

(** The flattened trace is the outputs. *)
Lemma eval_trace_lookup outs id port : solution outs → id ∈ ev_order e →
  eval_trace_from_tick_trace (omap (node_exec outs) (ev_order e)) !! (id, port) = outs !! id ≫= lookup port.
Proof.
  intros Hs Hid. destruct (Hs id Hid) as [Hsome Heq].
  unfold node_values in Heq. destruct (node_run outs id) as [[built [vals st]]|] eqn:Er.
  2:{ simpl in Heq. rewrite Heq in Hsome. by destruct Hsome. }
  simpl in Heq. rewrite Heq. simpl. destruct (run_names _ _ _ _ _ Hid Er) as (_ & _ & Hnd).
  apply option_eq. intros v. unfold eval_trace_from_tick_trace.
  rewrite (hm_collect_elem _ (id, port) v (exec_keys_NoDup outs)), (hm_collect_elem _ port v Hnd).
  rewrite list_elem_of_bind. split.
  - intros (x & Hin & (id' & Hid' & Hex)%list_elem_of_omap).
    unfold node_exec in Hex. destruct (node_run outs id') as [x'|] eqn:Er'; [|done]. injection Hex as <-.
    cbn in Hin. apply list_elem_of_fmap in Hin as ([port' v'] & [= -> -> ->] & Hin).
    rewrite Er in Er'. by injection Er' as <-.
  - intros Hin. destruct (node_exec outs id) as [x|] eqn:Ex; unfold node_exec in Ex; rewrite Er in Ex; [|done].
    exists x. injection Ex as <-. split; [|apply list_elem_of_omap; exists id; unfold node_exec; by rewrite Er].
    by apply (list_elem_of_fmap_2 (λ o : string * Value, ((id, o.1), o.2)) _ (port, v)).
Qed.

(** *** Types *)
Lemma shape_ports n s built : shape (n_kind n) = Some s → build_kind (n_kind n) (n_config n) = Some built →
  ks_inputs s = input_ports built ∧ ks_outputs s = output_ports built.
Proof.
  intros Hs Hb. destruct (ports_fixed _ _ _ Hb) as (n0 & E & -> & ->). unfold shape in Hs. rewrite E in Hs.
  by injection Hs as <-.
Qed.

Lemma find_port_elem p t (l : list (string * PortType)) : NoDup l.*1 → (p, t) ∈ l → find_port p l = Some t.
Proof.
  induction l as [|[q u] l IH]; cbn; [by intros _ ?%elem_of_nil|].
  intros [Hni Hnd]%NoDup_cons [[= -> ->]|Hin]%elem_of_cons; [by rewrite decide_True|].
  rewrite decide_False; [by apply IH|]. intros ->. apply Hni. by apply (list_elem_of_fmap_2 fst _ (p, t)).
Qed.

(** The ports the engine may feed: the outputs of a source, the inputs of any other node. *)
Definition fed_ports (n : NodeKind NodeState) : list (string * PortType) :=
  match input_ports n with [] => output_ports n | ps => ps end.

Definition typed_source : Prop := ∀ id built port t v, ev_nodes e !! id = Some built →
  (port, t) ∈ fed_ports built → src !! (id, port) = Some v → fits_port t v.

Abbreviation typed_as := (Forall2 (λ (p : string * PortType) v, fits_port p.2 v)).

Definition outputs_typed outs (id : NodeId) : Prop :=
  ∀ x, node_run outs id = Some x → typed_as (output_ports x.1) x.2.1.

Lemma node_of_id n m : n ∈ nodes g → m ∈ nodes g → n_id n = n_id m → n = m.
Proof. apply NoDup_key_inj. apply (wf_ids _ _ _ (co_wf _ _ _ He)). Qed.

(** An edge joins ports of one type. *)
Lemma edge_ports id built from b1 port from_port : id ∈ ev_order e → from ∈ ev_order e →
  ev_nodes e !! id = Some built → ev_nodes e !! from = Some b1 → incoming e !! (id, port) = Some (from, from_port) →
  ∃ t, find_port from_port (output_ports b1) = Some t ∧ find_port port (input_ports built) = Some t.
Proof.
  intros Hid Hfrom Hb Hb1 (ed & Hed & Hf & Ht)%incoming_edge.
  destruct (wf_edges _ _ _ (co_wf _ _ _ He) ed Hed)
    as (n1 & n2 & s1 & s2 & t & Hn1 & Hn2 & Hi1 & Hi2 & Hs1 & Hs2 & Ho & Hi).
  rewrite Hf in Hi1, Ho. rewrite Ht in Hi2, Hi. simpl in *. exists t.
  destruct (co_built id built Hb Hid) as (m2 & Hm2 & Hmi2 & Hk2 & _).
  destruct (co_built from b1 Hb1 Hfrom) as (m1 & Hm1 & Hmi1 & Hk1 & _).
  assert (m2 = n2) as -> by (apply node_of_id; congruence).
  assert (m1 = n1) as -> by (apply node_of_id; congruence).
  destruct (shape_ports _ _ _ Hs1 Hk1) as [_ <-], (shape_ports _ _ _ Hs2 Hk2) as [<- _]. done.
Qed.

Lemma node_run_built outs id built vals st : node_run outs id = Some (built, (vals, st)) →
  ev_nodes e !! id = Some built.
Proof.
  unfold node_run. destruct (ev_nodes e !! id); [|done]. simpl.
  destruct (ev_states e !! id); [|done]. simpl. destruct (produce _ _ _ _ _ _ _); [|done]. by intros [= -> _].
Qed.

Lemma typed_pair (ports : list (string * PortType)) vals p v : Forall2 (λ p v, fits_port p.2 v) ports vals → (p, v) ∈ zip ports.*1 vals →
  ∃ t, (p, t) ∈ ports ∧ fits_port t v.
Proof.
  induction 1 as [|[q t] w ports vals Hw _ IH]; cbn; [by intros ?%elem_of_nil|].
  intros [[= -> ->]|Hin]%elem_of_cons; [exists t; split; [by left|done]|].
  destruct (IH Hin) as (u & ? & ?). exists u. split; [by right|done].
Qed.

(** An edge hands on a value of the port it enters. *)
Lemma edge_typed outs id built from from_port port t : solution outs → id ∈ ev_order e →
  ev_nodes e !! id = Some built → (port, t) ∈ input_ports built →
  incoming e !! (id, port) = Some (from, from_port) → from ∈ ev_order e → outputs_typed outs from →
  fits_port t (default ValMissing (outs !! from ≫= lookup from_port)).
Proof.
  intros Hs Hid Hb Hport Hinc Hfrom Hty. destruct (Hs from Hfrom) as [Hsome Heq]. unfold node_values in Heq.
  destruct (node_run outs from) as [[b1 [vals st]]|] eqn:Er; [|simpl in Heq; rewrite Heq in Hsome; by destruct Hsome].
  apply node_run_built in Er as Hb1. simpl in Heq. rewrite Heq. simpl.
  destruct (run_names _ _ _ _ _ Hfrom Er) as (_ & _ & Hnd).
  destruct (hm_collect (output_pairs b1 vals) !! from_port) as [v|] eqn:Ev; [|by left]. simpl.
  apply hm_collect_elem in Ev; [|done]. specialize (Hty _ Er). simpl in Hty.
  destruct (typed_pair _ _ _ _ Hty Ev) as (t1 & Hin & Hfit).
  destruct (edge_ports id built from b1 port from_port Hid Hfrom Hb Hb1 Hinc) as (t2 & Ho & Hi).
  destruct (co_built id built Hb Hid) as (m2 & _ & _ & Hk2 & _), (co_built from b1 Hb1 Hfrom) as (m1 & _ & _ & Hk1 & _).
  rewrite (find_port_elem port t) in Hi by (done || apply (ports_named _ _ _ Hk2)).
  rewrite (find_port_elem from_port t1) in Ho by (done || apply (ports_named _ _ _ Hk1)). congruence.
Qed.

(** The inputs of a node fit its ports when the outputs its edges name do. *)
Lemma inputs_typed outs id built : solution outs → typed_source → id ∈ ev_order e → ev_nodes e !! id = Some built →
  (∀ u, (u, id) ∈ pairs g → u ∈ ev_order e ∧ outputs_typed outs u) →
  Forall2 (λ p v, fits_port p.2 v) (input_ports built) (inputs_of e src outs id).
Proof.
  intros Hs Hsrc Hid Hb Hin. destruct (co_built id built Hb Hid) as (n & _ & _ & _ & _ & Hio).
  unfold inputs_of. rewrite Hio. cbn. rewrite <- list_fmap_compose. apply Forall2_fmap_r.
  apply Forall_Forall2_diag, Forall_forall.
  intros [port t] Hport. cbn. unfold marshal. destruct (incoming e !! (id, port)) as [[from from_port]|] eqn:Ei.
  - destruct (Hin from) as [Hfrom Hty]; [by eapply incoming_pair|].
    by apply (edge_typed outs id built from from_port port t).
  - destruct (src !! (id, port)) as [v|] eqn:Ev; [|by left]. apply (Hsrc id built port t v Hb); [|done].
    unfold fed_ports. destruct (input_ports built); [by apply elem_of_nil in Hport|done].
Qed.

Lemma produce_typed id n ins st built vals st' : ev_nodes e !! id = Some built → id ∈ ev_order e → typed_source →
  build_kind (n_kind n) (n_config n) = Some built →
  Forall2 (λ p v, fits_port p.2 v) (input_ports built) ins →
  produce e now src id built ins st = Done (vals, st') →
  Forall2 (λ p v, fits_port p.2 v) (output_ports built) vals.
Proof.
  intros Hb Hid Hsrc Hk Hins Hp. unfold produce in Hp.
  destruct (evaluate built now ins st) as [[own st1]|] eqn:Ee; [|done].
  pose proof (evaluate_typed _ _ _ _ _ _ _ _ Hk Ee Hins) as Hty. injection Hp as <- <-.
  destruct (is_source e id) eqn:Es; [|done]. destruct (co_built id built Hb Hid) as (n' & _ & _ & _ & _ & Hio).
  assert (Hfed : fed_ports built = output_ports built).
  { unfold is_source in Es. rewrite Hio in Es. unfold fed_ports. by destruct (input_ports built). }
  assert (Hgen : ∀ ps vs, ps ⊆ output_ports built → Forall2 (λ p v, fits_port p.2 v) ps vs →
    Forall2 (λ p v, fits_port p.2 v) ps (zip_with (overlay src id) ps vs)).
  { intros ps vs Hsub. induction 1 as [|[p t] v ps vs Hv _ IH]; constructor; [|apply IH; set_solver].
    unfold overlay. cbn. destruct (src !! (id, p)) as [w|] eqn:Ew; [|done]. cbn.
    apply (Hsrc id built p t w Hb); [|done]. rewrite Hfed. set_solver. }
  by apply Hgen.
Qed.

Lemma tick_typed outs id : solution outs → typed_source → id ∈ ev_order e →
  ∀ built vals st, node_run outs id = Some (built, (vals, st)) →
    Forall2 (λ p v, fits_port p.2 v) (input_ports built) (inputs_of e src outs id) ∧
    Forall2 (λ p v, fits_port p.2 v) (output_ports built) vals.
Proof.
  intros Hs Hsrc. revert id. refine (order_ind _ _). intros id Hid IH built vals st Hr.
  apply node_run_built in Hr as Hb. destruct (co_built id built Hb Hid) as (n & _ & _ & Hk & _).
  assert (Hins : Forall2 (λ p v, fits_port p.2 v) (input_ports built) (inputs_of e src outs id)).
  { apply inputs_typed; try done. intros u Hu. destruct (IH u Hu) as [Huo Hty]. split; [done|].
    intros [b [vs s]] Er. by destruct (Hty b vs s Er). }
  split; [done|]. unfold node_run in Hr. rewrite Hb in Hr. simpl in Hr.
  destruct (ev_states e !! id) as [s0|]; [|done]. simpl in Hr.
  destruct (produce e now src id built _ s0) as [[v s]|] eqn:Hp; [|done]. injection Hr as -> ->.
  by apply (produce_typed id n (inputs_of e src outs id) s0 built vals st Hb Hid Hsrc Hk Hins).
Qed.
End Tick.

(** ** Evaluators in use *)
Section Use.
Context {D : Decimal} {J : Json} {I : HashMapIter} {DT : DecimalText} {C : Catalog D J} {L : CatalogLaws C}.
Context (allow_restricted : bool) (fresh_id : NodeId) (g : Graph).

(** Compiled from [g] and ticked any number of times. *)
Inductive evaluating : Evaluator → Prop :=
| ev_built e : build allow_restricted fresh_id g = Done (Ok e) → evaluating e
| ev_ticked e now src sinks e' : evaluating e → tick e now src = Done (sinks, e') → evaluating e'.

Lemma evaluating_compiled e : evaluating e → compiled allow_restricted g e.
Proof.
  induction 1 as [e Hb|e now src sinks e' _ IH Ht]; [by eapply build_compiled|].
  unfold tick in Ht. destruct (tick_with_full_trace e now src) as [r|] eqn:E; [|done].
  destruct (tick_solves allow_restricted g e IH now src r E) as (outs & m & -> & _ & Hc & _).
  by injection Ht as _ <-.
Qed.

(** C27: a tick of a compiled evaluator, whatever the engine feeds it and however
    often it ran before, panics only if the evaluation of one of its nodes
    panics. Otherwise the outputs of the tick are the unique solution of the
    graph's equations (each node's outputs are what it makes of the outputs its
    edges name), so they do not depend on which topological order was
    compiled; the sinks fire in that order on those outputs, the slots advance
    by the same evaluation, and the trace holds exactly the solution. *)
Theorem tick_consistent e now src : evaluating e →
  (tick e now src = Panicked ∧ ∃ id outs, id ∈ ids g ∧ node_panics e now src outs id) ∨
  ∃ outs sinks tr e', tick e now src = Done (sinks, e') ∧
    tick_with_trace e now src = Done (sinks, tr, e') ∧
    solution e now src outs ∧ (∀ outs', solution e now src outs' → ∀ id, id ∈ ids g → outs' !! id = outs !! id) ∧
    sinks = (ev_order e ≫= λ id,
      harvest (default "" (ev_kinds e !! id)) (ev_configs e !! id) (inputs_of e src outs id)) ∧
    (∀ id, id ∈ ids g → ev_states e' !! id = next_state e now src outs id ∧
      ∀ port, tr !! (id, port) = outs !! id ≫= lookup port).
Proof.
  intros He%evaluating_compiled. unfold tick, tick_with_trace.
  destruct (tick_with_full_trace e now src) as [r|] eqn:E.
  2:{ left. split; [done|]. destruct (tick_panics allow_restricted g e He now src E) as (id & outs & Hid & Hp & _).
      exists id, outs. by rewrite <- (co_order _ _ _ He). }
  right. destruct (tick_solves allow_restricted g e He now src r E) as (outs & m & -> & Hs & _ & Hm & _).
  exists outs. do 3 eexists. do 2 (split; [done|]). split; [done|].
  assert (Hord : ∀ id, id ∈ ids g → id ∈ ev_order e) by (intros id; by rewrite (co_order _ _ _ He)).
  split; [|split; [done|]].
  - intros outs' Hs' id Hid. apply (solution_unique allow_restricted g e He now src outs' outs Hs' Hs). by apply Hord.
  - intros id Hid%Hord. split; [by apply Hm|]. intros port. by apply (eval_trace_lookup allow_restricted g).
Qed.

(** A traced node took and gave values of its ports. *)
Definition exec_typed (e : Evaluator) (x : NodeExec) : Prop :=
  ∃ built, ev_nodes e !! ex_id x = Some built ∧
    Forall2 (λ p o, o.1 = p.1 ∧ fits_port p.2 o.2) (output_ports built) (ex_outputs x) ∧
    (input_ports built ≠ [] →
      Forall2 (λ p o, o.1 = p.1 ∧ fits_port p.2 o.2) (input_ports built) (ex_inputs x)).

Lemma zip_typed (ports : list (string * PortType)) vals :
  Forall2 (λ p v, fits_port p.2 v) ports vals →
  Forall2 (λ p o, o.1 = p.1 ∧ fits_port p.2 o.2) ports (zip ports.*1 vals).
Proof. induction 1; constructor; done. Qed.

(** C28: type soundness of accepted graphs. When the engine feeds source outputs
    (and unconnected inputs) with values of the declared port types, every
    node of a tick is evaluated on values that fit its input ports and
    produces exactly one value per output port, of that port's type: the
    static check of the edges is enough, at run time no edge carries a value
    of another type. *)
Theorem tick_well_typed e now src sinks t e' : evaluating e → typed_source e src →
  tick_with_full_trace e now src = Done (sinks, t, e') → Forall (exec_typed e) t.
Proof.
  intros He%evaluating_compiled Hsrc Ht.
  destruct (tick_solves allow_restricted g e He now src _ Ht) as (outs & m & [= _ -> _] & Hs & _).
  apply Forall_forall.
  intros x (id & Hid & Hx)%list_elem_of_omap. unfold node_exec in Hx.
  destruct (node_run e now src outs id) as [[built [vals st]]|] eqn:Er; [|done]. injection Hx as <-.
  destruct (tick_typed allow_restricted g e He now src outs id Hs Hsrc Hid built vals st Er) as [Hin Hout].
  apply node_run_built in Er as Hb. exists built. cbn. split; [done|].
  split; [by apply zip_typed|]. intros Hne. unfold traced_inputs, is_source.
  destruct (co_built allow_restricted g e He id built Hb Hid) as (n & _ & _ & _ & _ & Hio). rewrite Hio. cbn.
  destruct (input_ports built); [done|]. by apply zip_typed.
Qed.
End Use.

(** ** Totality

    A catalog whose configured nodes keep an invariant of their slots and never
    panic on it makes every tick return. *)
Class SlotLaws {D : Decimal} {J : Json} (C : Catalog D J) := {
  sound_config : string → json → Prop;
  slot_ok : NodeKind NodeState → NodeState → Prop;
  fresh_ok k c n : build_kind k c = Some n → sound_config k c → slot_ok n fresh_state;
  evaluate_ok k c n now ins st : build_kind k c = Some n → sound_config k c → slot_ok n st →
    ∃ vals st', evaluate n now ins st = Done (vals, st') ∧ slot_ok n st';
}.

Section Total.
Context {D : Decimal} {J : Json} {I : HashMapIter} {DT : DecimalText} {C : Catalog D J} {L : CatalogLaws C}.
Context {S : SlotLaws C} (allow_restricted : bool) (fresh_id : NodeId) (g : Graph).
Context (Hsound : ∀ n, n ∈ nodes g → sound_config (n_kind n) (n_config n)).

Definition slots_ok (e : Evaluator) : Prop := ∀ id n st,
  ev_nodes e !! id = Some n → ev_states e !! id = Some st → slot_ok n st.

Lemma node_total e id n : compiled allow_restricted g e → ev_nodes e !! id = Some n →
  ∃ k c, build_kind k c = Some n ∧ sound_config k c.
Proof.
  intros He Hn. assert (Hid : id ∈ ev_order e) by (apply (co_kinds _ _ _ He); right; by exists n).
  destruct (co_built allow_restricted g e He id n Hn Hid) as (m & Hm & _ & Hb & _).
  exists (n_kind m), (n_config m). split; [done|]. by apply Hsound.
Qed.

Lemma slots_ok_evaluating e : evaluating allow_restricted fresh_id g e → slots_ok e.
Proof.
  induction 1 as [e Hb|e now src sinks e' He IH Ht]; intros id n st Hn Hst.
  - pose proof (build_compiled _ _ _ _ Hb) as He.
    assert (Hid : id ∈ ev_order e) by (apply (co_kinds _ _ _ He); right; by exists n).
    destruct (node_total e id n He Hn) as (k & c & Hk & Hsc).
    unfold build in Hb. destruct (validate _ _ _ g) as [[t|]|] eqn:Ev; try done. injection Hb as Hadd.
    rewrite (co_order _ _ _ He) in Hid. apply list_elem_of_fmap in Hid as (m & -> & Hm).
    destruct (add_nodes_spec _ _ _ m Hadd (wf_ids _ _ _ (co_wf _ _ _ He)) Hm) as (_ & _ & _ & _ & _ & Hs & _).
    assert (st = fresh_state) as -> by congruence. by eapply fresh_ok.
  - pose proof (evaluating_compiled _ _ _ _ He) as Hc. unfold tick in Ht.
    destruct (tick_with_full_trace e now src) as [r|] eqn:E; [|done].
    destruct (tick_solves allow_restricted g e Hc now src r E) as (outs & m & -> & _ & _ & Hm & Hno).
    injection Ht as _ <-. cbn [ev_nodes ev_states with_states] in *.
    assert (Hid : id ∈ ev_order e) by (apply (co_kinds _ _ _ Hc); right; by exists n).
    rewrite Hm in Hst by done. unfold next_state, node_run in Hst. rewrite Hn in Hst. cbn in Hst.
    destruct (ev_states e !! id) as [s0|] eqn:Es; [|done]. cbn in Hst.
    destruct (node_total e id n Hc Hn) as (k & c & Hk & Hsc).
    destruct (evaluate_ok k c n now (inputs_of e src outs id) s0 Hk Hsc (IH id n s0 Hn Es)) as (vals & st' & Ev & Hok).
    unfold produce in Hst. rewrite Ev in Hst. cbn in Hst. injection Hst as <-. done.
Qed.

Lemma tick_total e now src : evaluating allow_restricted fresh_id g e →
  ∃ sinks e', tick e now src = Done (sinks, e') ∧ evaluating allow_restricted fresh_id g e'.
Proof.
  intros He. pose proof (evaluating_compiled _ _ _ _ He) as Hc.
  destruct (tick e now src) as [[sinks e']|] eqn:E.
  { exists sinks, e'. split; [done|]. by eapply ev_ticked. }
  unfold tick in E. destruct (tick_with_full_trace e now src) as [[[? ?] ?]|] eqn:Et; [done|].
  destruct (tick_panics allow_restricted g e Hc now src Et) as (id & outs & Hid & (n & st & Hn & Hst & Hp) & _).
  destruct (node_total e id n Hc Hn) as (k & c & Hk & Hsc).
  destruct (evaluate_ok k c n now (inputs_of e src outs id) st Hk Hsc) as (vals & st' & Ev & _);
    [by apply (slots_ok_evaluating e He id)|]. congruence.
Qed.
End Total.

(** ** What the analysis reports *)
Section Analysis.
Context {D : Decimal} {J : Json} {I : HashMapIter} {DT : DecimalText} {C : Catalog D J} {L : CatalogLaws C}.
Context (allow_restricted : bool) (g : Graph) (e : Evaluator) (He : compiled allow_restricted g e).

Lemma edge_incoming ed : ed ∈ edges g →
  incoming e !! to_key ed = Some (pr_node (e_from ed), pr_port (e_from ed)).
Proof.
  intros Hed. rewrite (co_incoming _ _ _ He). unfold incoming_of. apply hm_collect_lookup.
  - rewrite <- list_fmap_compose. apply (wf_fan_in _ _ _ (co_wf _ _ _ He)).
  - by apply (list_elem_of_fmap_2 (λ e, (to_key e, (pr_node (e_from e), pr_port (e_from e))))).
Qed.

Lemma predecessors_elem u n : u ∈ predecessors e n ↔ (u, n) ∈ pairs g.
Proof.
  unfold predecessors. rewrite list_elem_of_fmap. split.
  - intros ([[id port] [from fp]] & -> & [Hn Hin]%list_elem_of_filter). apply hm_iter_elem in Hin.
    simpl in *. subst id. by eapply (incoming_pair allow_restricted).
  - intros (ed & [= -> ->] & Hed)%list_elem_of_fmap. exists (to_key ed, (pr_node (e_from ed), pr_port (e_from ed))).
    split; [done|]. apply list_elem_of_filter. split; [done|]. by apply hm_iter_elem, edge_incoming.
Qed.

Lemma pair_order u v : (u, v) ∈ pairs g → u ∈ ev_order e ∧ v ∈ ev_order e.
Proof.
  intros H. rewrite (co_order _ _ _ He).
  apply (pairs_endpoints shape allow_restricted g (co_wf _ _ _ He)) in H. naive_solver.
Qed.

(** *** Depths *)
Definition longest (v : NodeId) (d : nat) : Prop := path (pairs g) v d ∧ ∀ k, path (pairs g) v k → (k ≤ d)%nat.

Lemma above_ge d ds : d ∈ ds → (S d ≤ above ds)%nat.
Proof. intros Hd. destruct ds; [by apply elem_of_nil in Hd|]. apply le_n_S. by apply max_list_elem_of_le. Qed.

Lemma above_elem ds : above ds = 0 ∨ ∃ d, d ∈ ds ∧ above ds = S d.
Proof.
  destruct ds as [|x ds]; [by left|]. right. exists (max_list (x :: ds)). split; [|done].
  assert (H : ∀ ys y, max_list (y :: ys) ∈ y :: ys); [|apply H].
  clear. induction ys as [|z ys IH]; intros y; [simpl; rewrite Nat.max_0_r; by left|].
  change (max_list (y :: z :: ys)) with (Nat.max y (max_list (z :: ys))).
  destruct (Nat.max_spec y (max_list (z :: ys))) as [[_ ->]|[_ ->]]; [right; apply IH|by left].
Qed.

(** The declared port an edge enters. *)
Lemma port_declared u id : (u, id) ∈ pairs g → ∃ port from_port, port ∈ default [] (input_order e !! id) ∧
  incoming e !! (id, port) = Some (u, from_port).
Proof.
  intros Hp. destruct (pair_order u id Hp) as [Hu Hid]. pose proof Hp as Hq.
  apply list_elem_of_fmap in Hq as (ed & [= -> ->] & Hed). apply edge_incoming in Hed as Hinc.
  exists (pr_port (e_to ed)), (pr_port (e_from ed)). split; [|done].
  destruct (co_node _ _ _ He _ Hid) as (n & built & _ & _ & _ & Hb & _ & Hio & _).
  destruct (co_node _ _ _ He _ Hu) as (n1 & b1 & _ & _ & _ & Hb1 & _).
  destruct (edge_ports allow_restricted g e He _ built _ b1 _ _ Hid Hu Hb Hb1 Hinc) as (t & _ & Hport).
  rewrite Hio. simpl. clear -Hport. induction (input_ports built) as [|[q v] l IH]; simpl in *; [done|].
  case_decide; [subst; by left|]. right. by apply IH.
Qed.

Lemma node_depth_longest m id : (∀ u, (u, id) ∈ pairs g → ∃ d, m !! u = Some d ∧ longest u d) →
  longest id (node_depth e m id).
Proof.
  intros Hm. unfold node_depth. set (ds := omap _ _).
  assert (Hds : ∀ d, d ∈ ds ↔ ∃ u, (u, id) ∈ pairs g ∧ m !! u = Some d).
  { intros d. unfold ds. rewrite list_elem_of_omap. split.
    - intros (port & _ & Hp). destruct (incoming e !! (id, port)) as [[u fp]|] eqn:Ei; [|done].
      exists u. split; [by eapply (incoming_pair allow_restricted)|done].
    - intros (u & Hu & Hd). destruct (port_declared u id Hu) as (port & fp & Hin & Hinc). exists port.
      split; [done|]. by rewrite Hinc. }
  split.
  - destruct (above_elem ds) as [->|(d & (u & Hu & Hd)%Hds & ->)]; [apply path_here|].
    destruct (Hm u Hu) as (d' & Hd' & [Hp _]). assert (d' = d) as -> by congruence. by apply (path_edge _ u).
  - intros k Hk. inversion Hk as [|u v k' Hp Hu]; subst; [lia|].
    destruct (Hm u Hu) as (d & Hd & [_ Hmax]). specialize (Hmax _ Hp).
    assert (Hin : d ∈ ds) by (apply Hds; eauto). apply above_ge in Hin. lia.
Qed.

Lemma depths_longest id d : depths e !! id = Some d ↔ id ∈ ev_order e ∧ longest id d.
Proof.
  assert (Hgen : ∀ zs ys m, ev_order e = ys ++ zs →
    (∀ id, id ∈ ys → ∃ d, m !! id = Some d ∧ longest id d) → (∀ id, id ∉ ys → m !! id = None) →
    ∀ id, (id ∈ ev_order e → ∃ d,
        fold_left (λ m id, <[id := node_depth e m id]> m) zs m !! id = Some d ∧ longest id d) ∧
      (id ∉ ev_order e → fold_left (λ m id, <[id := node_depth e m id]> m) zs m !! id = None)).
  { induction zs as [|z zs IH]; intros ys m Ho Hys Hno u.
    - rewrite app_nil_r in Ho. rewrite Ho. split; [apply Hys|apply Hno].
    - cbn [fold_left]. apply (IH (ys ++ [z])); [by rewrite <- app_assoc| |].
      + intros w [Hw|Hw%list_elem_of_singleton]%elem_of_app.
        * rewrite lookup_insert_ne; [by apply Hys|]. intros <-.
          pose proof (co_nd _ _ _ He) as Hnd. rewrite Ho in Hnd. apply NoDup_app in Hnd as (_ & H & _).
          by apply (H z Hw); left.
        * subst w. rewrite lookup_insert_eq. eexists. split; [done|]. apply node_depth_longest.
          intros u' Hu'. apply Hys. by eapply (sources_before allow_restricted g e He).
      + intros w [Hw Hz]%not_elem_of_app. rewrite not_elem_of_cons in Hz. destruct Hz as [Hz _].
        rewrite lookup_insert_ne by done. by apply Hno. }
  destruct (Hgen (ev_order e) [] ∅ eq_refl) with (id := id) as [H1 H2];
    [by intros ? ?%elem_of_nil|intros; apply lookup_empty|].
  fold (depths e) in H1, H2. split.
  - intros E. destruct (decide (id ∈ ev_order e)) as [Hin|Hni]; [|rewrite H2 in E; done].
    split; [done|]. destruct (H1 Hin) as (d' & E' & Hl). assert (d' = d) as -> by congruence. done.
  - intros [Hin [Hp Hmax]]. destruct (H1 Hin) as (d' & -> & [Hp' Hmax']). f_equal.
    specialize (Hmax _ Hp'). specialize (Hmax' _ Hp). lia.
Qed.

(** *** Reachability *)
Definition edge_rel (u v : NodeId) : Prop := (u, v) ∈ pairs g.

(** The edges into the nodes not seen yet. *)
Definition pending (seen : gset NodeId) : nat := length (filter (λ x, x.1.1 ∉ seen) (hm_iter (incoming e))).

Lemma pending_insert n seen : n ∉ seen →
  pending ({[n]} ∪ seen) + length (predecessors e n) = pending seen.
Proof.
  intros Hn. unfold pending, predecessors. rewrite length_fmap.
  induction (hm_iter (incoming e)) as [|[[id port] f] l IH]; [done|].
  rewrite !filter_cons. simpl. repeat case_decide; simpl; set_solver || lia.
Qed.

Lemma sweep_spec fuel : ∀ stack seen, length stack + pending seen ≤ fuel →
  (∀ n u, n ∈ seen → edge_rel u n → u ∈ seen ∨ u ∈ stack) →
  (∀ x, x ∈ seen ∨ x ∈ stack → x ∈ sweep e fuel stack seen) ∧
  (∀ n u, n ∈ sweep e fuel stack seen → edge_rel u n → u ∈ sweep e fuel stack seen) ∧
  (∀ x, x ∈ sweep e fuel stack seen → x ∈ seen ∨ ∃ s, s ∈ stack ∧ rtc edge_rel x s).
Proof.
  induction fuel as [|fuel IH]; intros [|n stack] seen Hf Hinv; simpl in Hf; cbn [sweep]; [|lia| |].
  { split; [by intros x [?|?%elem_of_nil]|]. split; [|by left].
    intros n u Hn Hu. by destruct (Hinv n u Hn Hu) as [?|?%elem_of_nil]. }
  { split; [by intros x [?|?%elem_of_nil]|]. split; [|by left].
    intros n u Hn Hu. by destruct (Hinv n u Hn Hu) as [?|?%elem_of_nil]. }
  destruct (decide (n ∈ seen)) as [Hn|Hn].
  - destruct (IH stack seen ltac:(lia)) as (H1 & H2 & H3); [set_solver|].
    split; [|split; [done|]]; [set_solver|]. intros x Hx. destruct (H3 x Hx) as [|(s & ? & ?)]; [by left|].
    right. exists s. split; [by right|done].
  - pose proof (pending_insert n seen Hn) as Hp.
    destruct (IH (reverse (predecessors e n) ++ stack) ({[n]} ∪ seen)) as (H1 & H2 & H3).
    { rewrite length_app, length_reverse. lia. }
    { intros m u [->%elem_of_singleton|Hm]%elem_of_union Hu; rewrite elem_of_app, elem_of_reverse, predecessors_elem;
        [by right; left|]. destruct (Hinv m u Hm Hu) as [Hs|[->|Hs]%elem_of_cons];
        [left; clear -Hs; set_solver|left; clear; set_solver|by right; right]. }
    split; [|split; [done|]].
    + intros x Hx. apply H1. rewrite elem_of_app. clear -Hx. set_solver.
    + intros x Hx. destruct (H3 x Hx) as [Hin|(s & Hs & Hr)].
      * apply elem_of_union in Hin as [->%elem_of_singleton|Hin]; [|by left]. right. exists n. split; [by left|done].
      * right. apply elem_of_app in Hs as [Hs|Hs]; [|exists s; split; [by right|done]].
        apply elem_of_reverse, predecessors_elem in Hs. exists n. split; [by left|]. by eapply rtc_r.
Qed.

Definition sinks_in : NodeId → Prop := λ id, ∃ n, n ∈ nodes g ∧ n_id n = id ∧ is_out_kind (n_kind n) = true.

Lemma kind_node id k : ev_kinds e !! id = Some k → ∃ n, n ∈ nodes g ∧ n_id n = id ∧ n_kind n = k.
Proof.
  intros Hk. destruct (co_node _ _ _ He id) as (n & built & Hn & Hi & _ & _ & Hk' & _); [by eapply co_kinds; [exact He|left]|].
  exists n. split; [done|]. split; [done|]. congruence.
Qed.

Lemma node_kind n : n ∈ nodes g → n_id n ∈ ev_order e ∧ ev_kinds e !! n_id n = Some (n_kind n).
Proof.
  intros Hn. assert (Hid : n_id n ∈ ev_order e) by (rewrite (co_order _ _ _ He); by apply list_elem_of_fmap_2).
  split; [done|]. destruct (co_node _ _ _ He _ Hid) as (m & built & Hm & Hi & _ & _ & Hk & _).
  by assert (m = n) as <- by (by apply (node_of_id allow_restricted g e He)).
Qed.

Lemma sink_nodes_elem id : id ∈ sink_nodes e ↔ sinks_in id.
Proof.
  unfold sink_nodes. rewrite list_elem_of_fmap. split.
  - intros ([i k] & -> & [Ho Hin]%list_elem_of_filter). apply hm_iter_elem, kind_node in Hin as (n & Hn & Hi & Hk).
    exists n. split; [done|]. split; [done|]. rewrite Hk. by apply Is_true_true.
  - intros (n & Hn & <- & Ho). apply node_kind in Hn as [_ Hk]. exists (n_id n, n_kind n). split; [done|].
    apply list_elem_of_filter. split; [by apply Is_true_true|by apply hm_iter_elem].
Qed.

Lemma hm_iter_length {K V : Type} `{Countable K} (m : gmap K V) : length (hm_iter m) = size m.
Proof. by rewrite hm_iter_perm, length_map_to_list. Qed.

Lemma reachable_iff x : x ∈ reachable e ↔ ∃ s, sinks_in s ∧ rtc edge_rel x s.
Proof.
  destruct (sweep_spec (size (ev_kinds e) + size (incoming e)) (reverse (sink_nodes e)) ∅) as (H1 & H2 & H3).
  - rewrite length_reverse. unfold sink_nodes, pending. rewrite length_fmap, <- !hm_iter_length.
    apply Nat.add_le_mono; apply length_filter.
  - set_solver.
  - fold (reachable e) in *. split.
    + intros Hx. destruct (H3 x Hx) as [?|(s & Hs & Hr)]; [set_solver|]. exists s. split; [|done].
      by apply sink_nodes_elem, elem_of_reverse.
    + intros (s & Hs & Hr). induction Hr as [x|x y z Hxy Hyz IH]; [|by eapply H2; [apply IH|]].
      apply H1. right. by apply elem_of_reverse, sink_nodes_elem.
Qed.

Lemma dead_elem h id : id ∈ dead_nodes (analyze e h) ↔
  id ∈ ids g ∧ ¬ ∃ s, sinks_in s ∧ rtc edge_rel id s.
Proof.
  cbn [dead_nodes analyze]. rewrite list_elem_of_filter, reachable_iff, (co_order _ _ _ He). naive_solver.
Qed.

Lemma depth_elem h id d : (id, d) ∈ depth_map (analyze e h) ↔ id ∈ ids g ∧ longest id d.
Proof.
  cbn [depth_map analyze]. rewrite sort_by_perm, hm_iter_elem, depths_longest. by rewrite (co_order _ _ _ He).
Qed.

Lemma depth_sorted h : StronglySorted (λ a b, (a.2 <=? b.2)%nat = true) (depth_map (analyze e h)).
Proof.
  apply sort_by_sorted.
  - intros x y. destruct (Nat.leb_spec x.2 y.2); [by left|right]. apply Nat.leb_le. lia.
  - intros x y z ?%Nat.leb_le ?%Nat.leb_le. apply Nat.leb_le. lia.
Qed.

Lemma is_source_iff n built : n ∈ nodes g → ev_nodes e !! n_id n = Some built →
  is_source e (n_id n) ↔ input_ports built = [].
Proof.
  intros Hn Hb. apply node_kind in Hn as [Hid _].
  destruct (co_built allow_restricted g e He _ built Hb Hid) as (m & _ & _ & _ & _ & Hio).
  unfold is_source. rewrite Hio. simpl. by destruct (input_ports built).
Qed.

Lemma required_elem h k : k ∈ required_sources (analyze e h) ↔
  is_transform_kind k = false ∧ ∃ n built, n ∈ nodes g ∧ n_kind n = k ∧ ev_nodes e !! n_id n = Some built ∧
    input_ports built = [] ∧ ∃ s, sinks_in s ∧ rtc edge_rel (n_id n) s.
Proof.
  cbn [required_sources analyze]. rewrite sort_dedup_elem, list_elem_of_filter, list_elem_of_omap.
  rewrite <- negb_true_iff, Is_true_true. apply and_iff_compat_l. split.
  - intros (id & [[Hs Hr] Hin]%list_elem_of_filter & Hk). apply reachable_iff in Hr.
    apply kind_node in Hk as (n & Hn & <- & Hk). destruct (co_node _ _ _ He _ Hin) as (_ & built & _ & _ & _ & Hb & _).
    exists n, built. apply (is_source_iff n built Hn Hb) in Hs. done.
  - intros (n & built & Hn & <- & Hb & Hs & Hr). apply node_kind in Hn as Hk. destruct Hk as [Hin Hk].
    exists (n_id n). split; [|done]. apply list_elem_of_filter. split; [|done].
    split; [by apply (is_source_iff n built)|by apply reachable_iff].
Qed.

Lemma unconsumed_elem h id port : (id, port) ∈ unconsumed_outputs (analyze e h) ↔
  ∃ n built, n ∈ nodes g ∧ n_id n = id ∧ is_out_kind (n_kind n) = false ∧ ev_nodes e !! id = Some built ∧
    port ∈ (output_ports built).*1 ∧ ∀ ed, ed ∈ edges g → e_from ed ≠ mkPortRef id port.
Proof.
  cbn [unconsumed_outputs analyze]. rewrite list_elem_of_bind.
  assert (Hcons : (id, port) ∈ hm_values (incoming e) ↔ ∃ ed, ed ∈ edges g ∧ e_from ed = mkPortRef id port).
  { rewrite hm_values_elem. split.
    - intros ([to tp] & (ed & ? & ? & _)%(incoming_edge allow_restricted g e He)). by exists ed.
    - intros (ed & Hed & Hf). exists (to_key ed). by rewrite edge_incoming, Hf. }
  split.
  - intros (id' & Hin & Hid'). unfold unconsumed_of, kind_is in Hin.
    destruct (ev_nodes e !! id') as [built|] eqn:Eb; [|by apply elem_of_nil in Hin].
    destruct (co_node _ _ _ He _ Hid') as (n & _ & Hn & Hi & _ & _ & Hk & _). rewrite Hk in Hin.
    destruct (is_out_kind (n_kind n)) eqn:Eo; [by apply elem_of_nil in Hin|].
    apply list_elem_of_filter in Hin as [Hc ([p t] & [= -> ->] & Hp)%list_elem_of_fmap].
    exists n, built. split; [done|]. split; [done|]. split; [done|]. split; [done|].
    split; [by apply (list_elem_of_fmap_2 fst _ (p, t))|]. intros ed Hed Hf. apply Hc, Hcons. by exists ed.
  - intros (n & built & Hn & <- & Ho & Hb & ([p t] & -> & Hp)%list_elem_of_fmap & Hc).
    apply node_kind in Hn as [Hid Hk]. exists (n_id n). split; [|done]. unfold unconsumed_of, kind_is.
    rewrite Hb, Hk, Ho. apply list_elem_of_filter. split; [|by apply (list_elem_of_fmap_2 (λ p, (n_id n, p.1)) _ (p, t))].
    rewrite Hcons. intros (ed & Hed & Hf). by apply (Hc ed Hed).
Qed.
End Analysis.

Section Report.
Context {D : Decimal} {J : Json} {I : HashMapIter} {DT : DecimalText} {C : Catalog D J} {L : CatalogLaws C}.
Context (allow_restricted : bool) (fresh_id : NodeId) (g : Graph).

(** The analysis reports the graph as written. A node is dead exactly when
    no path of edges leads from it to a sink; the depth map gives every node
    the length of its longest path from a source, in order of depth; the
    required sources are, without repetition, the kinds of the live nodes
    without inputs that are not transforms; and an output is unconsumed
    exactly when no edge starts at it and its node is no sink. The result does
    not depend on the iteration order of the hash maps. *)
Theorem analyze_exact e h : evaluating allow_restricted fresh_id g e →
  (∀ id, id ∈ dead_nodes (analyze e h) ↔ id ∈ ids g ∧ ¬ ∃ s, sinks_in g s ∧ rtc (edge_rel g) id s) ∧
  (∀ id d, (id, d) ∈ depth_map (analyze e h) ↔ id ∈ ids g ∧ longest g id d) ∧
  StronglySorted (λ a b, (a.2 <=? b.2)%nat = true) (depth_map (analyze e h)) ∧
  NoDup (required_sources (analyze e h)) ∧
  (∀ k, k ∈ required_sources (analyze e h) ↔ is_transform_kind k = false ∧
    ∃ n built, n ∈ nodes g ∧ n_kind n = k ∧ ev_nodes e !! n_id n = Some built ∧ input_ports built = [] ∧
      ∃ s, sinks_in g s ∧ rtc (edge_rel g) (n_id n) s) ∧
  (∀ id port, (id, port) ∈ unconsumed_outputs (analyze e h) ↔
    ∃ n built, n ∈ nodes g ∧ n_id n = id ∧ is_out_kind (n_kind n) = false ∧ ev_nodes e !! id = Some built ∧
      port ∈ (output_ports built).*1 ∧ ∀ ed, ed ∈ edges g → e_from ed ≠ mkPortRef id port).
Proof.
  intros He%evaluating_compiled. split; [|split; [|split; [|split; [|split]]]]; intros.
  - by apply (dead_elem allow_restricted).
  - by apply (depth_elem allow_restricted).
  - by apply (depth_sorted e).
  - cbn [required_sources analyze]. apply sort_dedup_NoDup.
  - by apply (required_elem allow_restricted).
  - by apply (unconsumed_elem allow_restricted).
Qed.
End Report.

(** ** A closed example: a constant doubled into a sink *)
#[export] Instance integer_text : DecimalText (D := Qc_decimal) := {|
  dtrunc d := d; dto_string _ := "0"; dto_u8 _ := None |}.

Definition demo_const : NodeKind (D := Qc_decimal) Z :=
  mkNodeKind [] [("value", PtNumber)] false [] (λ _ _ n, Done ([ValNumber (dlit n 0)], (n + 1)%Z)).
Definition demo_add : NodeKind (D := Qc_decimal) Z :=
  mkNodeKind [("a", PtNumber); ("b", PtNumber)] [("value", PtNumber)] false []
    (λ _ ins n, match ins with
                | [ValNumber a; ValNumber b] => Done ([ValNumber (dadd a b)], n)
                | _ => Done ([ValMissing], n)
                end).
Definition demo_sink : NodeKind (D := Qc_decimal) Z :=
  mkNodeKind [("mult", PtNumber)] [] false [] (λ _ _ n, Done ([], n)).

#[export] Instance demo_catalog : Catalog Qc_decimal flat_json := {|
  NodeState := Z;
  fresh_state := 1%Z;
  build_kind k _ := if bool_decide (k = "Math.Const") then Some demo_const
                    else if bool_decide (k = "Math.Add") then Some demo_add
                    else if bool_decide (k = "Out.SpreadMult") then Some demo_sink else None;
|}.

Lemma demo_build_cases (P : NodeKind (D := Qc_decimal) Z → Prop) k c n :
  build_kind (Catalog := demo_catalog) k c = Some n → P demo_const → P demo_add → P demo_sink → P n.
Proof. unfold build_kind, demo_catalog. intros H ???. repeat case_bool_decide; by simplify_eq. Qed.

#[export] Instance demo_catalog_laws : CatalogLaws demo_catalog.
Proof.
  split.
  - intros k c n H. exists n. split; [exact H|done].
  - intros k c n H. pattern n. apply (demo_build_cases _ k c n H); vm_compute; repeat constructor; set_solver.
  - intros k c n now ins st vals st' H. pattern n. apply (demo_build_cases _ k c n H); cbn.
    + by intros [= <- <-].
    + by destruct ins as [|[] [|[] [|]]]; intros [= <- <-].
    + by intros [= <- <-].
  - intros k c n now ins st vals st' H. pattern n. apply (demo_build_cases _ k c n H); cbn.
    + intros [= <- <-] _. apply Forall2_cons; split; [by right|done].
    + destruct ins as [|[] [|[] [|]]]; intros [= <- <-] _; apply Forall2_cons; (split; [first [by left|by right]|done]).
    + by intros [= <- <-] _.
Qed.

Definition demo_double : Graph (J := flat_json) :=
  mkGraph 1 "demo" ScopeGlobal
    [mkNode 1 "Math.Const" VNull; mkNode 2 "Math.Add" VNull; mkNode 3 "Out.SpreadMult" VNull]
    [mkEdge (mkPortRef 1 "value") (mkPortRef 2 "a"); mkEdge (mkPortRef 1 "value") (mkPortRef 2 "b");
     mkEdge (mkPortRef 2 "value") (mkPortRef 3 "mult")] 30000.

Definition demo_run : outcome (result (Evaluator (C := demo_catalog)) ValidationError) := build false 0%N demo_double.
Definition demo_evaluator : Evaluator (C := demo_catalog) :=
  match demo_run with Done (Ok e) => e | _ => mkEvaluator [] ∅ ∅ ∅ ∅ ∅ ∅ end.
Definition demo_built : bool := match demo_run with Done (Ok _) => true | _ => false end.

Lemma demo_evaluating : demo_built = true → evaluating false 0%N demo_double demo_evaluator.
Proof.
  unfold demo_built. intros H. apply ev_built. unfold demo_evaluator. change (build false 0%N demo_double) with demo_run.
  by destruct demo_run as [[e|]|].
Qed.

Definition doubles_to (n : Z) (r : outcome (list (SinkAction (D := Qc_decimal)) * Evaluator (C := demo_catalog))) : bool :=
  match r with Done ([SpreadMult d], _) => bool_decide (d = dlit n 0) | _ => false end.

Lemma tick_consistent_witness : ∃ outs sinks tr e', tick demo_evaluator 0%Z ∅ = Done (sinks, e') ∧
  tick_with_trace demo_evaluator 0%Z ∅ = Done (sinks, tr, e') ∧ solution demo_evaluator 0%Z ∅ outs ∧
  doubles_to 2 (tick demo_evaluator 0%Z ∅) = true.
Proof.
  assert (Hd : doubles_to 2 (tick demo_evaluator 0%Z ∅) = true) by (vm_compute; reflexivity).
  destruct (tick_consistent false 0%N demo_double demo_evaluator 0%Z ∅)
    as [[E _]|(outs & sinks & tr & e' & E & T & S & _)].
  - apply demo_evaluating. vm_compute. reflexivity.
  - rewrite E in Hd. discriminate Hd.
  - exists outs, sinks, tr, e'. split; [exact E|]. split; [exact T|]. split; [exact S|]. exact Hd.
Defined.

Definition demo_feed : gmap (NodeId * string) (Value (D := Qc_decimal)) :=
  {[ (1%N, "value") := ValNumber (dlit 7 0) ]}.

Definition number_ports (n : option (NodeKind (D := Qc_decimal) Z)) : bool :=
  match n with Some n => forallb (λ p, bool_decide (p.2 = PtNumber)) (fed_ports n) | None => true end.

Lemma number_ports_elem n port t : number_ports (Some n) = true → (port, t) ∈ fed_ports n → t = PtNumber.
Proof.
  unfold number_ports. rewrite forallb_forall. intros H Hin%list_elem_of_In.
  by specialize (H _ Hin) as ?%bool_decide_eq_true_1.
Qed.

Definition demo_fed : outcome (list (SinkAction (D := Qc_decimal)) * list NodeExec * Evaluator (C := demo_catalog)) :=
  tick_with_full_trace demo_evaluator 0%Z demo_feed.

Lemma tick_well_typed_witness : ∃ sinks t e',
  demo_fed = Done (sinks, t, e') ∧ Forall (exec_typed demo_evaluator) t ∧
  doubles_to 14 (tick demo_evaluator 0%Z demo_feed) = true.
Proof.
  assert (Hd : match demo_fed with Done _ => true | Panicked => false end = true) by (vm_compute; reflexivity).
  assert (He : evaluating false 0%N demo_double demo_evaluator)
    by (apply demo_evaluating; vm_compute; reflexivity).
  destruct demo_fed as [[[sinks t] e']|] eqn:E; [|discriminate Hd]. unfold demo_fed in E.
  exists sinks, t, e'. split; [reflexivity|]. split; [|vm_compute; reflexivity].
  refine (tick_well_typed false 0%N demo_double demo_evaluator 0%Z demo_feed _ _ _ He _ E).
  intros id built port ty v Hb Hport. unfold demo_feed.
  intros [[= <- <-] <-]%lookup_singleton_Some. right.
  assert (Hall : number_ports (ev_nodes demo_evaluator !! 1%N) = true) by (vm_compute; reflexivity).
  symmetry. apply (number_ports_elem built "value" ty); [|exact Hport].
  refine (eq_trans (eq_sym (f_equal number_ports Hb)) Hall).
Defined.

Definition demo_analysis : GraphAnalysis := analyze demo_evaluator "h".

Lemma analyze_exact_witness : bool_decide ((3%N, 2) ∈ depth_map demo_analysis) = true ∧
  longest demo_double 3%N 2 ∧ dead_nodes demo_analysis = [] ∧ unconsumed_outputs demo_analysis = [].
Proof.
  assert (Hd : bool_decide ((3%N, 2) ∈ depth_map demo_analysis) = true) by (vm_compute; reflexivity).
  split; [exact Hd|]. split; [|split; vm_compute; reflexivity].
  refine (_ (analyze_exact false 0%N demo_double demo_evaluator "h" _)).
  - intros (_ & H & _). apply (H 3%N 2). exact (bool_decide_eq_true_1 _ Hd).
  - apply demo_evaluating. vm_compute. reflexivity.
Defined.
