(* ===== verification/NodeBase.v ===== *)
(** * What the graph nodes share ([crates/strategy-graph/src/node.rs], [nodes/mod.rs])

    The scratch slot of a node and its typed access, the decoding of a
    configuration, and the two shapes of node: those without state, and those
    that keep one. The laws of a node, the contract of the trait, are proved
    here once for each shape. *)
From stdpp Require Import base gmap list strings.
From Stdlib Require Import ZArith Ascii Lia.
From S2P Require Import Prelude Decimal Bytes Json Graph Indicators Volatility Evaluator.
Local Open Scope string_scope.
Local Open Scope nat_scope.
Local Open Scope list_scope.

(** ** Integers *)
Definition i64_max : Z := 2 ^ 63 - 1.

(** [s.parse::<i64>()] *)
Definition parse_i64 (s : string) : option Z :=
  match s with
  | String c rest =>
      if decide (c = "-"%char)
      then match rest with "" => None | _ => Z.opp <$> parse_digits (2 ^ 63) 0 rest end
      else parse_uint i64_max s
  | "" => None
  end.

(** ** The slot of a node *)
Section Slots.
Context {D : Decimal}.

(** [plan.rs], the state of an execution plan. *)
Record PlanState := mkPlanState {
  started_at_ms : option Z;
  qty_emitted : dec;
  aborted : bool;
  last_slice_ms : Z;
}.

(** The [*InitGuard] structs of [indicators.rs]. *)
Record InitGuard {A : Type} := mkGuard { inited : bool; tracker : option A }.
Arguments InitGuard A : clear implicits.
Arguments mkGuard {A}.

Record EwmaState := mkEwmaState { ewma_prev : option dec }.
Record GarchState := mkGarchState { garch_est : option GarchEstimator }.

(** [Option<Box<dyn Any>>], with the types the nodes store. *)
Inductive NodeSlot :=
| SlotEmpty
| SlotEwma (s : EwmaState)
| SlotGarch (s : GarchState)
| SlotSma (s : InitGuard Sma)
| SlotEma (s : InitGuard Ema)
| SlotHma (s : InitGuard Hma)
| SlotRsi (s : InitGuard Rsi)
| SlotAtr (s : InitGuard Atr)
| SlotBollinger (s : InitGuard BollingerBands)
| SlotPlan (s : PlanState).

(** A type a slot can hold: its tag, the downcast, and its default. *)
Class SlotType (T : Type) := {
  slot_put : T → NodeSlot;
  slot_downcast : NodeSlot → option T;
  slot_default : T;
  downcast_put t : slot_downcast (slot_put t) = Some t;
  put_not_empty t : slot_put t ≠ SlotEmpty;
}.

(** [get_or_insert_default]: the second [expect] fails on a slot of another type. *)
Definition get_or_insert_default {T} `{SlotType T} (st : NodeSlot) : outcome T :=
  match st with
  | SlotEmpty => Done slot_default
  | _ => match slot_downcast st with Some t => Done t | None => Panicked end
  end.

(** [NodeState::get] *)
Definition slot_get {T} `{SlotType T} (st : NodeSlot) : option T :=
  match st with SlotEmpty => None | _ => slot_downcast st end.

Lemma get_or_insert_put {T} `{SlotType T} t : get_or_insert_default (slot_put t) = Done t.
Proof.
  unfold get_or_insert_default. pose proof (downcast_put t) as H1. pose proof (put_not_empty t).
  destruct (slot_put t); [done|..]; by rewrite H1.
Qed.

Definition guard_default {A} : InitGuard A := mkGuard false None.

#[export] Instance ewma_slot : SlotType EwmaState := {|
  slot_put := SlotEwma; slot_downcast s := match s with SlotEwma x => Some x | _ => None end;
  slot_default := mkEwmaState None;
  downcast_put _ := eq_refl; put_not_empty _ := ltac:(done); |}.

#[export] Instance garch_slot : SlotType GarchState := {|
  slot_put := SlotGarch; slot_downcast s := match s with SlotGarch x => Some x | _ => None end;
  slot_default := mkGarchState None;
  downcast_put _ := eq_refl; put_not_empty _ := ltac:(done); |}.

#[export] Instance sma_slot : SlotType (InitGuard Sma) := {|
  slot_put := SlotSma; slot_downcast s := match s with SlotSma x => Some x | _ => None end;
  slot_default := guard_default;
  downcast_put _ := eq_refl; put_not_empty _ := ltac:(done); |}.

#[export] Instance ema_slot : SlotType (InitGuard Ema) := {|
  slot_put := SlotEma; slot_downcast s := match s with SlotEma x => Some x | _ => None end;
  slot_default := guard_default;
  downcast_put _ := eq_refl; put_not_empty _ := ltac:(done); |}.

#[export] Instance hma_slot : SlotType (InitGuard Hma) := {|
  slot_put := SlotHma; slot_downcast s := match s with SlotHma x => Some x | _ => None end;
  slot_default := guard_default;
  downcast_put _ := eq_refl; put_not_empty _ := ltac:(done); |}.

#[export] Instance rsi_slot : SlotType (InitGuard Rsi) := {|
  slot_put := SlotRsi; slot_downcast s := match s with SlotRsi x => Some x | _ => None end;
  slot_default := guard_default;
  downcast_put _ := eq_refl; put_not_empty _ := ltac:(done); |}.

#[export] Instance atr_slot : SlotType (InitGuard Atr) := {|
  slot_put := SlotAtr; slot_downcast s := match s with SlotAtr x => Some x | _ => None end;
  slot_default := guard_default;
  downcast_put _ := eq_refl; put_not_empty _ := ltac:(done); |}.

#[export] Instance bollinger_slot : SlotType (InitGuard BollingerBands) := {|
  slot_put := SlotBollinger; slot_downcast s := match s with SlotBollinger x => Some x | _ => None end;
  slot_default := guard_default;
  downcast_put _ := eq_refl; put_not_empty _ := ltac:(done); |}.

#[export] Instance plan_slot : SlotType PlanState := {|
  slot_put := SlotPlan; slot_downcast s := match s with SlotPlan x => Some x | _ => None end;
  slot_default := mkPlanState None dec0 false 0%Z;
  downcast_put _ := eq_refl; put_not_empty _ := ltac:(done); |}.
End Slots.
Arguments InitGuard A : clear implicits.
Arguments mkGuard {A}.

(** ** Configurations

    The derived [Deserialize] of a struct whose fields are all
    [#[serde(default)] Option<_>] reads an object by name, unknown keys
    ignored, or an array by position. *)
Section Config.
Context {D : Decimal} {J : Json} {JD : JsonDecimal (D := D) (J := J)}.

Definition struct_fields (names : list string) (c : json) : option (list (option json)) :=
  match json_type c with
  | JObject => Some (json_get (json_entries c) <$> names)
  | JArray =>
      let l := json_elements c in
      if length names <? length l then None else Some ((λ i, l !! i) <$> seq 0 (length names))
  | _ => None
  end.

(** One [Option] field, [read] its type: absent and null are [None]. *)
Definition opt_field {A} (read : json → option A) (i : nat) (fs : list (option json)) : option (option A) :=
  match fs !! i with
  | Some (Some v) => if decide (json_type v = JNull) then Some None else Some <$> read v
  | _ => Some None
  end.

Definition read_u32 (v : json) : option Z :=
  n ← json_as_u64 v; if (n <=? u32_max)%Z then Some n else None.

(** [decimal_field] *)
Definition decimal_field (raw : option string) (dflt : dec) (valid : dec → bool) : option dec :=
  match raw with
  | None => Some dflt
  | Some s => match parse_decimal s with
              | Ok v => if valid v then Some v else None
              | Err _ => None
              end
  end.

(** [if cfg.is_null() { default } else { parse? }] *)
Definition config_or {A} (dflt : A) (parse : json → option A) (c : json) : option A :=
  if decide (json_type c = JNull) then Some dflt else parse c.

(** [cfg.get(k).and_then(as_str)] *)
Definition get_str (c : json) (k : string) : option string :=
  match json_type c with JObject => json_get (json_entries c) k ≫= json_as_str | _ => None end.
End Config.

(** ** Nodes *)
Section Nodes.
Context {D : Decimal}.

Abbreviation Kind := (NodeKind (D := D) NodeSlot).
Abbreviation Ports := (list (string * PortType)).

(** [inputs.get(i).and_then(Value::as_number)] *)
Definition number_at (inputs : list Value) (i : nat) : option dec := as_number (arg inputs i).
Definition bool_at (inputs : list Value) (i : nat) : bool := default false (as_bool (arg inputs i)).

(** [map(Value::Number).unwrap_or(Value::Missing)] *)
Definition number_or_missing (x : option dec) : Value :=
  match x with Some d => ValNumber d | None => ValMissing end.

Definition stateless (ins outs : Ports) (schema : list ConfigField) (f : list Value → list Value) : Kind :=
  mkNodeKind ins outs false schema (λ _ inputs st, Done (f inputs, st)).

(** A source, and any node whose [evaluate] is a stub: nothing until the engine overlays it. *)
Definition stub_node (ins outs : Ports) (restricted : bool) (schema : list ConfigField) : Kind :=
  mkNodeKind ins outs restricted schema (λ _ _ st, Done (replicate (length outs) ValMissing, st)).
Definition source_node (outs : Ports) (schema : list ConfigField) : Kind := stub_node [] outs false schema.

Definition stateful {T} `{!SlotType T} (ins outs : Ports) (schema : list ConfigField)
    (f : Z → list Value → T → outcome (list Value * T)) : Kind :=
  mkNodeKind ins outs false schema (λ now inputs st,
    match get_or_insert_default st with
    | Panicked => Panicked
    | Done t => match f now inputs t with
                | Panicked => Panicked
                | Done (vals, t') => Done (vals, slot_put t')
                end
    end).

(** *** The contract of [NodeKind] *)
Definition values_fit (ports : Ports) (vals : list Value) : Prop := Forall2 (λ p v, fits_port p.2 v) ports vals.

Record node_ok (n : Kind) : Prop := mkNodeOk {
  ok_inputs : NoDup (input_ports n).*1;
  ok_outputs : NoDup (output_ports n).*1;
  ok_length now ins st vals st' : evaluate n now ins st = Done (vals, st') → length vals = length (output_ports n);
  ok_typed now ins st vals st' : evaluate n now ins st = Done (vals, st') →
    values_fit (input_ports n) ins → values_fit (output_ports n) vals;
}.

(** The node never panics: some invariant of its slot is kept by every evaluation. *)
Definition node_safe (n : Kind) (st : NodeSlot) : Prop := ∃ P : NodeSlot → Prop, P st ∧
  ∀ now ins s, P s → ∃ vals s', evaluate n now ins s = Done (vals, s') ∧ P s'.

Lemma fits_number x : fits_port PtNumber (ValNumber x).
Proof. by right. Qed.
Lemma fits_bool b : fits_port PtBool (ValBool b).
Proof. by right. Qed.
Lemma fits_string s : fits_port PtString (ValString s).
Proof. by right. Qed.
Lemma fits_unit : fits_port PtUnit (ValUnit (D := D)).
Proof. by right. Qed.
Lemma fits_quotes qs : fits_port PtQuotes (ValQuotes qs).
Proof. by right. Qed.
Lemma fits_venue_quotes qs : fits_port PtQuotes (ValVenueQuotes qs).
Proof. by right. Qed.
Lemma fits_missing t : fits_port t (ValMissing (D := D)).
Proof. by left. Qed.
Lemma fits_number_or_missing x : fits_port PtNumber (number_or_missing x).
Proof. destruct x; [by right | by left]. Qed.

Lemma values_fit_1 n t v : fits_port t v → values_fit [(n, t)] [v].
Proof. intros H. apply Forall2_cons. split; [exact H | constructor]. Qed.

Lemma missing_fit ports : values_fit ports (replicate (length ports) ValMissing).
Proof. induction ports; constructor; [apply fits_missing | done]. Qed.

Lemma stub_ok ins outs r schema : NoDup ins.*1 → NoDup outs.*1 → node_ok (stub_node ins outs r schema).
Proof.
  intros Hi Ho. split; [done..| |]; intros ????? [= <- <-].
  - by rewrite length_replicate.
  - intros _. apply missing_fit.
Qed.

Lemma stub_safe ins outs r schema st : node_safe (stub_node ins outs r schema) st.
Proof. exists (λ _, True). split; [done|]. intros ????. by eexists _, _. Qed.

Lemma stateless_ok ins outs schema f : NoDup ins.*1 → NoDup outs.*1 → (∀ inputs, length (f inputs) = length outs) →
  (∀ inputs, values_fit ins inputs → values_fit outs (f inputs)) → node_ok (stateless ins outs schema f).
Proof. intros Hi Ho Hl Ht. split; [done..| |]; intros ????? [= <- <-]; auto. Qed.

Lemma stateless_safe ins outs schema f st : node_safe (stateless ins outs schema f) st.
Proof. exists (λ _, True). split; [done|]. intros ????. by eexists _, _. Qed.

Section Stateful.
Context {T} `{!SlotType T} (ins outs : Ports) (schema : list ConfigField)
        (f : Z → list Value → T → outcome (list Value * T)).

Lemma stateful_ok : NoDup ins.*1 → NoDup outs.*1 →
  (∀ now inputs t vals t', f now inputs t = Done (vals, t') → values_fit outs vals) →
  node_ok (stateful ins outs schema f).
Proof.
  intros Hi Ho Ht. assert (Hf : ∀ now inputs st vals st',
    evaluate (stateful ins outs schema f) now inputs st = Done (vals, st') → values_fit outs vals).
  { intros now inputs st vals st'. cbn. destruct (get_or_insert_default st) as [t|]; [|done].
    destruct (f now inputs t) as [[vs t']|] eqn:E; [|done]. intros [= <- <-]. by eapply Ht. }
  split; [done..| |].
  - intros now inputs st vals st' E. symmetry. eapply Forall2_length. by eapply Hf.
  - intros now inputs st vals st' E _. by eapply Hf.
Qed.

Lemma stateful_safe (Inv : T → Prop) : Inv slot_default →
  (∀ now inputs t, Inv t → ∃ vals t', f now inputs t = Done (vals, t') ∧ Inv t') →
  node_safe (stateful ins outs schema f) SlotEmpty.
Proof.
  intros H0 Hstep. exists (λ st, ∃ t, get_or_insert_default st = Done t ∧ Inv t). split; [by eexists|].
  intros now inputs st (t & E & Ht). destruct (Hstep now inputs t Ht) as (vals & t' & Ef & Ht').
  exists vals, (slot_put t'). cbn. rewrite E, Ef. split; [done|]. exists t'. split; [apply get_or_insert_put | done].
Qed.
End Stateful.
End Nodes.

Create HintDb node_fit.
#[export] Hint Resolve fits_number fits_bool fits_string fits_unit fits_quotes fits_venue_quotes fits_missing
  fits_number_or_missing : node_fit.
