(* ===== verification/SourceNodes.v ===== *)
(** * Source and strategy nodes ([crates/strategy-graph/src/nodes/{sources,strategies}.rs])

    One definition per kind: its ports, whether it is restricted, and its
    configuration schema. Their [evaluate] is a stub, one missing value per
    output port (a fill that did not fire, for [TradeOwnFill]): the engine
    overlays what it knows. *)
From stdpp Require Import base list strings.
From S2P Require Import Prelude Decimal Graph Indicators Volatility Evaluator NodeBase.
Local Open Scope string_scope.
Local Open Scope list_scope.

Section SourceNodes.
Context {D : Decimal}.

(** ** Shared shapes *)
Definition cross_venue_config_fields (extra_int : option string) : list ConfigField :=
  [ mkConfigField "venue" WText;
    mkConfigField "symbol" WText;
    mkConfigField "product" (WEnum [""; "spot"; "linear_perp"; "inverse_perp"]) ]
  ++ match extra_int with Some name => [mkConfigField name WInteger] | None => [] end.

Definition single_scalar_source (port : string) : NodeKind NodeSlot := source_node [(port, PtNumber)] [].
Definition simple_surveillance_score : NodeKind NodeSlot := source_node [("value", PtNumber)] [].
Definition strategy_node : NodeKind NodeSlot := source_node [("quotes", PtQuotes)] [].

(** ** Sources *)
Definition BookL1 : NodeKind NodeSlot :=
  source_node [("bid_px", PtNumber); ("bid_qty", PtNumber); ("ask_px", PtNumber); ("ask_qty", PtNumber); ("mid", PtNumber); ("spread_bps", PtNumber)]
   [ mkConfigField "venue" WText;
     mkConfigField "symbol" WText;
     mkConfigField "product" (WEnum [""; "spot"; "linear_perp"; "inverse_perp"]) ].

Definition CostSweep : NodeKind NodeSlot :=
  source_node [("impact_bps", PtNumber); ("vwap", PtNumber); ("fully_filled", PtBool)]
   [ mkConfigField "side" (WEnum ["buy"; "sell"]);
     mkConfigField "size" WNumber ].

Definition PortfolioCrossVenueNetDelta : NodeKind NodeSlot :=
  source_node [("value", PtNumber)]
   [ mkConfigField "asset" WText ].

Definition BookFillProbability : NodeKind NodeSlot :=
  source_node [("probability", PtNumber)]
   [ mkConfigField "side" (WEnum ["buy"; "sell"]);
     mkConfigField "price" WText ].

Definition CumulativeTodayCost : NodeKind NodeSlot :=
  source_node [("value", PtNumber)]
   [].

Definition DecisionRealizedCostBps : NodeKind NodeSlot :=
  source_node [("value", PtNumber)]
   [ mkConfigField "window_decisions" WInteger ].

Definition PositionCostBasis : NodeKind NodeSlot :=
  source_node [("value", PtNumber)]
   [].

Definition UnrealizedIfFlatten : NodeKind NodeSlot :=
  source_node [("value", PtNumber)]
   [].

Definition LiquidationDistanceSource : NodeKind NodeSlot :=
  source_node [("value_bps", PtNumber)]
   [].

Definition BorrowRateApr : NodeKind NodeSlot :=
  single_scalar_source "value".

Definition BorrowMaxAvailable : NodeKind NodeSlot :=
  single_scalar_source "value".

Definition BorrowCarryBps : NodeKind NodeSlot :=
  single_scalar_source "value".

Definition SentimentRate : NodeKind NodeSlot :=
  source_node [("value", PtNumber)]
   [ mkConfigField "asset" WText ].

Definition SentimentScore : NodeKind NodeSlot :=
  source_node [("value", PtNumber)]
   [ mkConfigField "asset" WText ].

Definition VolatilityRealised : NodeKind NodeSlot :=
  single_scalar_source "value".

Definition ToxicityVpin : NodeKind NodeSlot :=
  single_scalar_source "value".

Definition MomentumOfiZ : NodeKind NodeSlot :=
  single_scalar_source "value".

Definition RiskMarginRatio : NodeKind NodeSlot :=
  single_scalar_source "value".

Definition RiskOtr : NodeKind NodeSlot :=
  single_scalar_source "value".

Definition InventoryLevel : NodeKind NodeSlot :=
  single_scalar_source "value".

Definition RiskCircuitBreakerTripped : NodeKind NodeSlot :=
  source_node [("tripped", PtBool)]
   [].

Definition RiskNewsRetreatState : NodeKind NodeSlot :=
  source_node [("state", PtString)]
   [].

Definition RiskLeadLagMultiplier : NodeKind NodeSlot :=
  source_node [("mult", PtNumber)]
   [].

Definition SignalImbalance : NodeKind NodeSlot :=
  single_scalar_source "value".

Definition SignalTradeFlow : NodeKind NodeSlot :=
  single_scalar_source "value".

Definition SignalMicroprice : NodeKind NodeSlot :=
  single_scalar_source "value".

Definition KyleLambda : NodeKind NodeSlot :=
  single_scalar_source "value".

Definition SignalFillDepth : NodeKind NodeSlot :=
  single_scalar_source "value".

Definition StrategyActive : NodeKind NodeSlot :=
  source_node [("kind", PtStrategyKind)]
   [].

Definition RegimeDetector : NodeKind NodeSlot :=
  source_node [("regime", PtString)]
   [].

Definition PairClassCurrent : NodeKind NodeSlot :=
  source_node [("class", PtPairClass)]
   [].

Definition BookL2 : NodeKind NodeSlot :=
  source_node [("bids", PtString); ("asks", PtString); ("best_bid_px", PtNumber); ("best_ask_px", PtNumber)]
   (cross_venue_config_fields (Some "depth")).

Definition TradeTape : NodeKind NodeSlot :=
  source_node [("trade_count", PtNumber); ("buy_qty", PtNumber); ("sell_qty", PtNumber); ("last_price", PtNumber)]
   (cross_venue_config_fields (Some "window_secs")).

Definition TradeOwnFill : NodeKind NodeSlot :=
  stateless [] [("fired", PtBool); ("side", PtNumber); ("qty", PtNumber); ("price", PtNumber)]
   [ mkConfigField "venue" WText;
     mkConfigField "symbol" WText;
     mkConfigField "role" (WEnum ["any"; "maker"; "taker"]);
     mkConfigField "side_filter" (WEnum ["any"; "buy"; "sell"]) ]
   (λ _, [ValBool false; ValNumber dec0; ValNumber dec0; ValNumber dec0]).

Definition BalanceSource : NodeKind NodeSlot :=
  source_node [("total", PtNumber); ("available", PtNumber); ("reserved", PtNumber)]
   [ mkConfigField "venue" WText;
     mkConfigField "asset" WText ].

Definition FundingSource : NodeKind NodeSlot :=
  source_node [("rate", PtNumber); ("seconds_to_next", PtNumber)]
   (cross_venue_config_fields None).

Definition PortfolioNetDelta : NodeKind NodeSlot :=
  source_node [("value", PtNumber)]
   [ mkConfigField "asset" WText ].

Definition PortfolioQuoteAvailable : NodeKind NodeSlot :=
  source_node [("value", PtNumber)]
   [ mkConfigField "venue" WText ].

Definition OnchainHolderConcentration : NodeKind NodeSlot :=
  source_node [("value", PtNumber)]
   [].

Definition OnchainSuspectInflowRate : NodeKind NodeSlot :=
  source_node [("value", PtNumber); ("events", PtNumber)]
   [].

Definition LiquidationHeatmapSource : NodeKind NodeSlot :=
  source_node [("total_notional", PtNumber); ("nearest_above_bps", PtNumber); ("nearest_above_notional", PtNumber); ("nearest_below_bps", PtNumber); ("nearest_below_notional", PtNumber); ("event_count", PtNumber)]
   [].

Definition OpenInterestSource : NodeKind NodeSlot :=
  source_node [("value", PtNumber)]
   [].

Definition FundingExtremeSource : NodeKind NodeSlot :=
  source_node [("value", PtBool)]
   [ mkConfigField "funding_rate_threshold" WNumber;
     mkConfigField "min_oi_notional" WNumber ].

Definition LongShortRatioSource : NodeKind NodeSlot :=
  source_node [("long_pct", PtNumber); ("short_pct", PtNumber); ("ratio", PtNumber)]
   [].

Definition LiquidationLevelEstimateSource : NodeKind NodeSlot :=
  source_node [("long_liq_bps", PtNumber); ("short_liq_bps", PtNumber)]
   [ mkConfigField "avg_leverage" WInteger ].

Definition CascadeCompletedSource : NodeKind NodeSlot :=
  source_node [("value", PtBool)]
   [ mkConfigField "threshold_notional" WNumber ].

Definition ListingAgeSource : NodeKind NodeSlot :=
  source_node [("value", PtNumber)]
   [].

Definition MarketCapRatioSource : NodeKind NodeSlot :=
  source_node [("value", PtNumber)]
   [].

Definition RugScoreSource : NodeKind NodeSlot :=
  source_node [("value", PtNumber); ("manipulation", PtNumber); ("holder_concentration", PtNumber); ("cex_inflow", PtNumber); ("listing_age", PtNumber); ("mcap_ratio", PtNumber)]
   [].

Definition ManipulationScore : NodeKind NodeSlot :=
  source_node [("value", PtNumber); ("pump_dump", PtNumber); ("wash", PtNumber); ("thin_book", PtNumber)]
   [].

Definition SpoofingScore : NodeKind NodeSlot :=
  source_node [("value", PtNumber); ("cancel_ratio", PtNumber); ("lifetime_ms", PtNumber); ("size_ratio", PtNumber)]
   [ mkConfigField "ratio_hot" WNumber;
     mkConfigField "lifetime_hot_ms" WInteger;
     mkConfigField "size_ratio_hot" WNumber ].

Definition LayeringScore : NodeKind NodeSlot :=
  source_node [("value", PtNumber); ("cancel_ratio", PtNumber); ("lifetime_ms", PtNumber); ("size_ratio", PtNumber)]
   [].

Definition QuoteStuffingScore : NodeKind NodeSlot :=
  source_node [("value", PtNumber); ("cancel_ratio", PtNumber); ("lifetime_ms", PtNumber); ("size_ratio", PtNumber)]
   [].

Definition WashScore : NodeKind NodeSlot :=
  source_node [("value", PtNumber)]
   [].

Definition CrossMarketScore : NodeKind NodeSlot :=
  simple_surveillance_score.

Definition LatencyExploitScore : NodeKind NodeSlot :=
  simple_surveillance_score.

Definition RebateAbuseScore : NodeKind NodeSlot :=
  simple_surveillance_score.

Definition ImbalanceManipulationScore : NodeKind NodeSlot :=
  simple_surveillance_score.

Definition CancelOnReactionScore : NodeKind NodeSlot :=
  simple_surveillance_score.

Definition OneSidedQuotingScore : NodeKind NodeSlot :=
  simple_surveillance_score.

Definition InventoryPushingScore : NodeKind NodeSlot :=
  simple_surveillance_score.

Definition StrategicNonFillingScore : NodeKind NodeSlot :=
  simple_surveillance_score.

Definition SessionTimeToBoundary : NodeKind NodeSlot :=
  source_node [("seconds_to_next", PtNumber); ("seconds_since_last", PtNumber)]
   [].

Definition MarkingCloseScore : NodeKind NodeSlot :=
  source_node [("value", PtNumber)]
   [].

Definition FakeLiquidityScore : NodeKind NodeSlot :=
  source_node [("value", PtNumber)]
   [].

Definition ForeignTwap : NodeKind NodeSlot :=
  source_node [("value", PtNumber)]
   [].

Definition MomentumIgnitionScore : NodeKind NodeSlot :=
  source_node [("value", PtNumber)]
   [].

(** ** Strategies *)
Definition Avellaneda : NodeKind NodeSlot :=
  strategy_node.

Definition Glft : NodeKind NodeSlot :=
  strategy_node.

Definition StrategyGrid : NodeKind NodeSlot :=
  strategy_node.

Definition Basis : NodeKind NodeSlot :=
  strategy_node.

Definition CrossExchange : NodeKind NodeSlot :=
  strategy_node.

Definition BasisArb : NodeKind NodeSlot :=
  source_node [("quotes", PtQuotes)]
   [ mkConfigField "spot_venue" WText;
     mkConfigField "perp_venue" WText;
     mkConfigField "symbol" WText;
     mkConfigField "leg_size" WNumber;
     mkConfigField "maker_offset_bps" WNumber;
     mkConfigField "min_basis_bps" WNumber;
     mkConfigField "max_delta" WNumber ].

Definition Wash : NodeKind NodeSlot :=
  stub_node [] [("quotes", PtQuotes)] true
   [ mkConfigField "leg_size" WNumber;
     mkConfigField "offset_bps" WNumber ].

Definition Ignite : NodeKind NodeSlot :=
  stub_node [] [("quotes", PtQuotes)] true
   [ mkConfigField "push_side" (WEnum ["buy"; "sell"]);
     mkConfigField "burst_size" WNumber;
     mkConfigField "cross_depth_bps" WNumber;
     mkConfigField "burst_ticks" WInteger;
     mkConfigField "rest_ticks" WInteger ].

Definition Mark : NodeKind NodeSlot :=
  stub_node [] [("quotes", PtQuotes)] true
   [ mkConfigField "push_side" (WEnum ["buy"; "sell"]);
     mkConfigField "window_secs" WInteger;
     mkConfigField "burst_size" WNumber;
     mkConfigField "cross_depth_bps" WNumber ].

Definition Layer : NodeKind NodeSlot :=
  stub_node [] [("quotes", PtQuotes)] true
   [ mkConfigField "push_side" (WEnum ["buy"; "sell"]);
     mkConfigField "levels" WInteger;
     mkConfigField "cluster_bps" WNumber;
     mkConfigField "offset_bps" WNumber;
     mkConfigField "leg_size" WNumber ].

Definition Stuff : NodeKind NodeSlot :=
  stub_node [] [("quotes", PtQuotes)] true
   [ mkConfigField "push_side" (WEnum ["buy"; "sell"]);
     mkConfigField "orders_per_tick" WInteger;
     mkConfigField "step_bps" WNumber;
     mkConfigField "leg_size" WNumber ].

Definition CrossMarket : NodeKind NodeSlot :=
  stub_node [] [("quotes", PtQuotes)] true
   [ mkConfigField "push_side" (WEnum ["buy"; "sell"]);
     mkConfigField "burst_size" WNumber;
     mkConfigField "cross_depth_bps" WNumber;
     mkConfigField "burst_ticks" WInteger;
     mkConfigField "rest_ticks" WInteger ].

Definition LatencyHunt : NodeKind NodeSlot :=
  stub_node [] [("quotes", PtQuotes)] true
   [ mkConfigField "burst_size" WNumber;
     mkConfigField "cross_depth_bps" WNumber;
     mkConfigField "skew_threshold" WNumber ].

Definition RebateFarm : NodeKind NodeSlot :=
  stub_node [] [("quotes", PtQuotes)] true
   [ mkConfigField "leg_size" WNumber;
     mkConfigField "offset_bps" WNumber ].

Definition Imbalance : NodeKind NodeSlot :=
  stub_node [] [("quotes", PtQuotes)] true
   [ mkConfigField "heavy_size" WNumber;
     mkConfigField "light_size" WNumber;
     mkConfigField "offset_bps" WNumber;
     mkConfigField "flip_ticks" WInteger ].

Definition ReactCancel : NodeKind NodeSlot :=
  stub_node [] [("quotes", PtQuotes)] true
   [ mkConfigField "push_side" (WEnum ["buy"; "sell"]);
     mkConfigField "burst_size" WNumber;
     mkConfigField "offset_bps" WNumber;
     mkConfigField "idle_ticks" WInteger ].

Definition OneSided : NodeKind NodeSlot :=
  stub_node [] [("quotes", PtQuotes)] true
   [ mkConfigField "side" (WEnum ["buy"; "sell"]);
     mkConfigField "offset_bps" WNumber;
     mkConfigField "leg_size" WNumber ].

Definition InvPush : NodeKind NodeSlot :=
  stub_node [] [("quotes", PtQuotes)] true
   [ mkConfigField "burst_size" WNumber;
     mkConfigField "cross_depth_bps" WNumber;
     mkConfigField "min_inventory" WNumber ].

Definition NonFill : NodeKind NodeSlot :=
  stub_node [] [("quotes", PtQuotes)] true
   [ mkConfigField "push_side" (WEnum ["buy"; "sell"]);
     mkConfigField "leg_size" WNumber;
     mkConfigField "offset_bps" WNumber ].

Definition Spoof : NodeKind NodeSlot :=
  stub_node [] [("quotes", PtQuotes)] true
   [ mkConfigField "pressure_side" (WEnum ["buy"; "sell"]);
     mkConfigField "pressure_size_mult" WNumber;
     mkConfigField "pressure_distance_bps" WNumber;
     mkConfigField "real_size_mult" WNumber;
     mkConfigField "real_distance_bps" WNumber ].

Definition PumpAndDump : NodeKind NodeSlot :=
  stub_node [] [("quotes", PtQuotes)] true
   [ mkConfigField "accumulate_ticks" WInteger;
     mkConfigField "accumulate_size" WNumber;
     mkConfigField "pump_ticks" WInteger;
     mkConfigField "pump_depth_bps" WNumber;
     mkConfigField "distribute_ticks" WInteger;
     mkConfigField "distribute_rungs" WInteger;
     mkConfigField "dump_ticks" WInteger;
     mkConfigField "dump_depth_bps" WNumber ].

Definition LiquidationHunt : NodeKind NodeSlot :=
  stub_node [("target_bps", PtNumber); ("cluster_notional", PtNumber)] [("quotes", PtQuotes)] true
   [ mkConfigField "push_size" WNumber;
     mkConfigField "max_bps_overshoot" WNumber ].

Definition LeverageBuilder : NodeKind NodeSlot :=
  stub_node [] [("quotes", PtQuotes)] true
   [ mkConfigField "direction" (WEnum ["long"; "short"]);
     mkConfigField "position_size" WNumber;
     mkConfigField "leverage" WInteger;
     mkConfigField "max_slippage_bps" WNumber ].

Definition CampaignOrchestrator : NodeKind NodeSlot :=
  stub_node [] [("quotes", PtQuotes)] true
   [ mkConfigField "accumulate_secs" WInteger;
     mkConfigField "pump_secs" WInteger;
     mkConfigField "distribute_secs" WInteger;
     mkConfigField "dump_secs" WInteger;
     mkConfigField "pump_depth_bps" WNumber;
     mkConfigField "distribute_rungs" WInteger;
     mkConfigField "dump_depth_bps" WNumber;
     mkConfigField "loop_cycle" WBool ].

Definition CascadeHunter : NodeKind NodeSlot :=
  stub_node [] [("quotes", PtQuotes)] true
   [ mkConfigField "push_size" WNumber;
     mkConfigField "side" (WEnum ["buy"; "sell"]);
     mkConfigField "max_bps_overshoot" WNumber ].

Definition BasketPush : NodeKind NodeSlot :=
  stub_node [] [("quotes", PtQuotes)] true
   [ mkConfigField "basket" WText;
     mkConfigField "cross_depth_bps" WNumber;
     mkConfigField "burst_ticks" WInteger;
     mkConfigField "rest_ticks" WInteger ].
End SourceNodes.
