(* ===== verification/Nodes.v ===== *)
(** * Computing nodes ([crates/strategy-graph/src/nodes/*.rs])

    The kinds whose [evaluate] computes: [math.rs], [logic.rs], [stats.rs],
    [risk.rs], [exec.rs], [indicators.rs], [quotes.rs], the sinks of
    [sinks.rs] and [QueueAware] of [strategies.rs], each with the parse of its
    configuration. The two routes through [f64] are parameters. *)
From stdpp Require Import base list strings.
From Stdlib Require Import ZArith Lia.
From S2P Require Import Prelude Decimal Bytes Json Graph Indicators Volatility Evaluator NodeBase.
Local Open Scope string_scope.
Local Open Scope nat_scope.
Local Open Scope list_scope.

(** [pow_f64 base exponent] is [to_f64], [powf], [clamp(0, 1)] and [from_f64];
    [sqrt_f64] is [to_f64], [sqrt] and [from_f64]; both zero on failure. *)
Class FloatRoutes {D : Decimal} := { pow_f64 : dec → dec → dec; sqrt_f64 : dec → dec }.

Section Nodes.
Context {D : Decimal} {J : Json} {JD : JsonDecimal (D := D) (J := J)} {DT : DecimalText} {F : FloatRoutes}.

Abbreviation Kind := (NodeKind (D := D) NodeSlot).

Definition dpos (v : dec) : bool := dltb dec0 v.

(** ** [math.rs] *)
Definition binary (f : dec → dec → dec) (inputs : list Value) : list Value :=
  [match number_at inputs 0, number_at inputs 1 with
   | Some x, Some y => ValNumber (f x y)
   | _, _ => ValMissing
   end].

Definition Add : Kind := stateless [("a", PtNumber); ("b", PtNumber)] [("out", PtNumber)] [] (binary dadd).
Definition Mul : Kind := stateless [("a", PtNumber); ("b", PtNumber)] [("out", PtNumber)] [] (binary dmul).

Definition Const (value : dec) : Kind :=
  stateless [] [("value", PtNumber)] [mkConfigField "value" WNumber] (λ _, [ValNumber value]).

Definition Const_from_config : json → option dec := config_or dec0 (λ c,
  fs ← struct_fields ["value"] c;
  value ← opt_field json_as_str 0 fs;
  decimal_field value dec0 (λ _, true)).

Inductive Cmp := CmpGe | CmpGt | CmpLe | CmpLt | CmpEq.

Definition cmp_of (s : string) : option Cmp :=
  if bool_decide (s = "ge") then Some CmpGe
  else if bool_decide (s = "gt") then Some CmpGt
  else if bool_decide (s = "le") then Some CmpLe
  else if bool_decide (s = "lt") then Some CmpLt
  else if bool_decide (s = "eq") then Some CmpEq else None.

(** A unit variant reads from its name, or from an object [{ name: null }]. *)
Definition read_cmp (v : json) : option Cmp :=
  match json_type v with
  | JString => json_as_str v ≫= cmp_of
  | JObject => match json_entries v with
               | [(k, x)] => if decide (json_type x = JNull) then cmp_of k else None
               | _ => None
               end
  | _ => None
  end.

Definition compare (cmp : Cmp) (x threshold : dec) : bool :=
  match cmp with
  | CmpGe => dleb threshold x
  | CmpGt => dltb threshold x
  | CmpLe => dleb x threshold
  | CmpLt => dltb x threshold
  | CmpEq => deqb x threshold
  end.

Definition ToBool (threshold : dec) (cmp : Cmp) : Kind :=
  stateless [("x", PtNumber)] [("out", PtBool)]
    [mkConfigField "threshold" WNumber; mkConfigField "cmp" (WEnum ["ge"; "gt"; "le"; "lt"; "eq"])]
    (λ inputs, [ValBool match number_at inputs 0 with Some x => compare cmp x threshold | None => false end]).

Definition ToBool_from_config : json → option (dec * Cmp) := config_or (dec0, CmpGe) (λ c,
  fs ← struct_fields ["threshold"; "cmp"] c;
  threshold ← opt_field json_as_str 0 fs;
  cmp ← opt_field read_cmp 1 fs;
  threshold ← decimal_field threshold dec0 (λ _, true);
  Some (threshold, default CmpGe cmp)).

Definition skew (cap exponent level : dec) : dec :=
  if is_zero level then dec0
  else
    let magnitude := pow_f64 (dmin (ddiv (dabs level) cap) dec1) exponent in
    if dltb dec0 level then magnitude else dneg magnitude.

Definition InventorySkew (cap exponent : dec) : Kind :=
  stateless [("level", PtNumber)] [("skew", PtNumber)]
    [mkConfigField "cap" WNumber; mkConfigField "exponent" WNumber]
    (λ inputs, [number_or_missing (skew cap exponent <$> number_at inputs 0)]).

(** [cap] and [exponent], both positive. *)
Definition cap_exponent : json → option (dec * dec) := config_or (dec1, dlit 2 0) (λ c,
  fs ← struct_fields ["cap"; "exponent"] c;
  cap ← opt_field json_as_str 0 fs;
  exponent ← opt_field json_as_str 1 fs;
  cap ← decimal_field cap dec1 dpos;
  exponent ← decimal_field exponent (dlit 2 0) dpos;
  Some (cap, exponent)).

Definition InventorySkew_from_config : json → option (dec * dec) := cap_exponent.

(** ** [logic.rs] *)
Definition And : Kind := stateless [("a", PtBool); ("b", PtBool)] [("out", PtBool)] []
  (λ inputs, [ValBool (bool_at inputs 0 && bool_at inputs 1)]).

Definition select (inputs : list Value) : list Value := [arg inputs (if bool_at inputs 0 then 1 else 2)].

Definition Mux : Kind :=
  stateless [("cond", PtBool); ("then", PtNumber); ("else", PtNumber)] [("out", PtNumber)] [] select.
Definition StringMux : Kind :=
  stateless [("cond", PtBool); ("then", PtString); ("else", PtString)] [("out", PtString)] [] select.

Definition target_config : json → option string := config_or "" (λ c,
  fs ← struct_fields ["target"] c;
  target ← opt_field json_as_str 0 fs;
  Some (default "" target)).

Definition names (target : string) (s : option string) : list Value := [ValBool (bool_decide (s = Some target))].

Definition StrategyEq (target : string) : Kind :=
  stateless [("kind", PtStrategyKind)] [("out", PtBool)] [] (λ inputs, names target (as_strategy_kind (arg inputs 0))).
Definition StrategyEq_from_config : json → option string := target_config.

Definition PairClassEq (target : string) : Kind :=
  stateless [("class", PtPairClass)] [("out", PtBool)] [] (λ inputs, names target (as_pair_class (arg inputs 0))).
Definition PairClassEq_from_config : json → option string := target_config.

(** ** [stats.rs] *)
Definition ewma_step (alpha : dec) (inputs : list Value) (s : EwmaState) : list Value * EwmaState :=
  match number_at inputs 0 with
  | None => ([number_or_missing (ewma_prev s)], s)
  | Some x =>
      let out := match ewma_prev s with
                 | None => x
                 | Some p => dadd (dmul alpha x) (dmul (dsub dec1 alpha) p)
                 end in
      ([ValNumber out], mkEwmaState (Some out))
  end.

Definition Ewma (alpha : dec) : Kind :=
  stateful [("x", PtNumber)] [("out", PtNumber)] [mkConfigField "alpha" WNumber]
    (λ _ inputs s, Done (ewma_step alpha inputs s)).

Definition Ewma_from_config : json → option dec := config_or (dlit 1 1) (λ c,
  fs ← struct_fields ["alpha"] c;
  alpha ← opt_field json_as_str 0 fs;
  decimal_field alpha (dlit 1 1) (λ v, dltb dec0 v && dleb v dec1)).

Definition garch_node_step (tick_secs : dec) (inputs : list Value) (s : GarchState) : list Value * GarchState :=
  let est := default (garch_new tick_secs) (garch_est s) in
  let est := match number_at inputs 0 with Some price => garch_update price est | None => est end in
  ([number_or_missing (garch_volatility est)], mkGarchState (Some est)).

Definition Garch (tick_secs : dec) : Kind :=
  stateful [("price", PtNumber)] [("vol", PtNumber)] [mkConfigField "tick_secs" WNumber]
    (λ _ inputs s, Done (garch_node_step tick_secs inputs s)).

Definition Garch_from_config : json → option dec := config_or (dlit 5 1) (λ c,
  fs ← struct_fields ["tick_secs"] c;
  tick_secs ← opt_field json_as_str 0 fs;
  decimal_field tick_secs (dlit 5 1) dpos).

(** ** [risk.rs] *)
Definition widen (scale : dec) (vpin : option dec) : dec :=
  match vpin with
  | None => dec1
  | Some v => dadd dec1 (dmul scale (dmin (dmax v dec0) dec1))
  end.

Definition ToxicityWiden (scale : dec) : Kind :=
  stateless [("vpin", PtNumber)] [("mult", PtNumber)] [mkConfigField "scale" WNumber]
    (λ inputs, [ValNumber (widen scale (number_at inputs 0))]).

Definition ToxicityWiden_from_config : json → option dec := config_or (dlit 2 0) (λ c,
  fs ← struct_fields ["scale"] c;
  scale ← opt_field json_as_str 0 fs;
  decimal_field scale (dlit 2 0) (λ v, dleb dec0 v)).

(** [for _ in 0..n { out *= ratio }] *)
Definition power_loop (n : Z) (ratio : dec) : dec := Nat.iter (Z.to_nat n) (λ out, dmul out ratio) dec1.

Definition urgency (cap exponent : dec) (level : option dec) : dec :=
  match level with
  | None => dec0
  | Some level =>
      let ratio := dmin (ddiv (dabs level) cap) dec1 in
      if deqb exponent (dlit 2 0) then dmul ratio ratio
      else power_loop (default 2%Z (parse_u32 (dto_string (dtrunc exponent)))) ratio
  end.

Definition InventoryUrgency (cap exponent : dec) : Kind :=
  stateless [("level", PtNumber)] [("urgency", PtNumber)]
    [mkConfigField "cap" WNumber; mkConfigField "exponent" WNumber]
    (λ inputs, [ValNumber (urgency cap exponent (number_at inputs 0))]).

Definition InventoryUrgency_from_config : json → option (dec * dec) := cap_exponent.

Definition CircuitBreakerNode (wide_bps : dec) : Kind :=
  stateless [("spread_bps", PtNumber)] [("tripped", PtBool)] [mkConfigField "wide_bps" WNumber]
    (λ inputs, [ValBool match number_at inputs 0 with Some v => dltb wide_bps v | None => true end]).

Definition CircuitBreaker_from_config : json → option dec := config_or (dlit 100 0) (λ c,
  fs ← struct_fields ["wide_bps"] c;
  wide_bps ← opt_field json_as_str 0 fs;
  decimal_field wide_bps (dlit 100 0) dpos).

(** ** [exec.rs] *)
Definition policy (schema : list ConfigField) (text : string) : Kind :=
  stateless [] [("policy", PtString)] schema (λ _, [ValString text]).

Definition TwapConfig (duration_secs slice_count : Z) : Kind :=
  policy [mkConfigField "duration_secs" WInteger; mkConfigField "slice_count" WInteger]
    ("twap:" +:+ show_uint duration_secs +:+ ":" +:+ show_uint slice_count).

Definition TwapConfig_from_config : json → option (Z * Z) := config_or (120%Z, 5%Z) (λ c,
  fs ← struct_fields ["duration_secs"; "slice_count"] c;
  duration_secs ← opt_field json_as_u64 0 fs;
  slice_count ← opt_field read_u32 1 fs;
  let d := default 120%Z duration_secs in
  let n := default 5%Z slice_count in
  if (d =? 0)%Z || (n =? 0)%Z || (1000 <? n)%Z then None else Some (d, n)).

Definition VwapConfig (duration_secs : Z) : Kind :=
  policy [mkConfigField "duration_secs" WInteger] ("vwap:" +:+ show_uint duration_secs).

Definition VwapConfig_from_config : json → option Z := config_or 300%Z (λ c,
  fs ← struct_fields ["duration_secs"] c;
  duration_secs ← opt_field json_as_u64 0 fs;
  let d := default 300%Z duration_secs in
  if (d =? 0)%Z then None else Some d).

Definition PovConfig (target_pct : Z) : Kind :=
  policy [mkConfigField "target_pct" WInteger] ("pov:" +:+ show_uint target_pct).

Definition PovConfig_from_config : json → option Z := config_or 10%Z (λ c,
  fs ← struct_fields ["target_pct"] c;
  target_pct ← opt_field read_u32 0 fs;
  let p := default 10%Z target_pct in
  if (p =? 0)%Z || (100 <? p)%Z then None else Some p).

Definition IcebergConfig (display_qty : string) : Kind :=
  policy [mkConfigField "display_qty" WText] ("iceberg:" +:+ display_qty).

Definition IcebergConfig_from_config : json → option string := config_or "0.1" (λ c,
  fs ← struct_fields ["display_qty"] c;
  display_qty ← opt_field json_as_str 0 fs;
  let q := default "0.1" display_qty in
  match parse_decimal q with Ok _ => Some q | Err _ => None end).

(** ** [indicators.rs] *)
Definition period_config_field : ConfigField := mkConfigField "period" WInteger.

(** [1 ..= 10_000] *)
Definition period_of (p : option Z) (dflt : Z) : option nat :=
  let p := default dflt p in
  if (p =? 0)%Z || (10000 <? p)%Z then None else Some (Z.to_nat p).

Definition parse_period (dflt : Z) : json → option nat := config_or (Z.to_nat dflt) (λ c,
  fs ← struct_fields ["period"] c;
  p ← opt_field json_as_u64 0 fs;
  period_of p dflt).

(** [if !st.inited { st.tracker = Some(new()) }], then [expect]. *)
Definition guarded {A} (new : outcome A) (g : InitGuard A) : outcome A :=
  if inited g then match tracker g with Some t => Done t | None => Panicked end else new.

Definition observe {A} (update : dec → A → outcome A) (inputs : list Value) (t : A) : outcome A :=
  match number_at inputs 0 with Some x => update x t | None => Done t end.

Definition indicator_step {A} (new : outcome A) (feed : list Value → A → outcome A) (read : A → list Value)
    (inputs : list Value) (g : InitGuard A) : outcome (list Value * InitGuard A) :=
  match guarded new g with
  | Panicked => Panicked
  | Done t => match feed inputs t with
              | Panicked => Panicked
              | Done t => Done (read t, mkGuard true (Some t))
              end
  end.

Definition indicator {A} `{!SlotType (InitGuard A)} (new : outcome A) (update : dec → A → outcome A)
    (value : A → option dec) : Kind :=
  stateful [("x", PtNumber)] [("out", PtNumber)] [period_config_field]
    (λ _, indicator_step new (observe update) (λ t, [number_or_missing (value t)])).

Definition SmaNode (period : nat) : Kind := indicator (sma_new period) (λ x s, Done (sma_update x s)) sma_value.
Definition EmaNode (period : nat) : Kind := indicator (ema_new period) (λ x s, Done (ema_update x s)) ema_value.
Definition HmaNode (period : nat) : Kind := indicator (hma_new period) (λ x s, Done (hma_update x s)) hma_value.
Definition RsiNode (period : nat) : Kind := indicator (rsi_new period) rsi_update rsi_value.

Definition atr_feed (inputs : list Value) (t : Atr) : outcome Atr :=
  match number_at inputs 0, number_at inputs 1, number_at inputs 2 with
  | Some h, Some l, Some c => Done (atr_update h l c t)
  | _, _, _ => Done t
  end.

Definition AtrNode (period : nat) : Kind :=
  stateful [("high", PtNumber); ("low", PtNumber); ("close", PtNumber)] [("out", PtNumber)] [period_config_field]
    (λ _, indicator_step (atr_new period) atr_feed (λ t, [number_or_missing (atr_value t)])).

Definition bollinger_bands (t : BollingerBands) : list Value :=
  match bollinger_value sqrt_f64 t with
  | Some v => [ValNumber (upper v); ValNumber (middle v); ValNumber (lower v)]
  | None => [ValMissing; ValMissing; ValMissing]
  end.

Definition BollingerNode (period : nat) (k_stddev : dec) : Kind :=
  stateful [("x", PtNumber)] [("upper", PtNumber); ("middle", PtNumber); ("lower", PtNumber)]
    [period_config_field; mkConfigField "k_stddev" WNumber]
    (λ _, indicator_step (bollinger_new period k_stddev) (observe (λ x s, Done (bollinger_update x s))) bollinger_bands).

Definition Bollinger_from_config : json → option (nat * dec) := config_or (20, dlit 2 0) (λ c,
  fs ← struct_fields ["period"; "k_stddev"] c;
  p ← opt_field json_as_u64 0 fs;
  k ← opt_field json_as_str 1 fs;
  period ← period_of p 20;
  k_stddev ← decimal_field k (dlit 2 0) dpos;
  Some (period, k_stddev)).

(** ** [quotes.rs] *)

(** [levels], clamped to [1 ..= 20]. *)
Definition grid_levels (raw : option dec) : nat :=
  Z.to_nat (Z.max 1 (Z.min 20 (default 3%Z (parse_i64 (dto_string (dtrunc (default (dlit 3 0) raw))))))).

Definition grid_level (mid centre step_bps size : dec) (k : nat) : list GraphQuote :=
  let offset := dmul (ddiv (dmul step_bps (dof_nat (k + 1))) (dlit 10000 0)) mid in
  let bid_px := dsub centre offset in
  (if dltb dec0 bid_px then [mkGraphQuote QuoteBuy bid_px size] else [])
  ++ [mkGraphQuote QuoteSell (dadd centre offset) size].

Definition positive_at (inputs : list Value) (i : nat) : option dec :=
  v ← number_at inputs i; if dltb dec0 v then Some v else None.

Definition grid_quotes (inputs : list Value) : Value :=
  match positive_at inputs 0, positive_at inputs 1 with
  | Some mid, Some step_bps =>
      match positive_at inputs 3 with
      | None => ValMissing
      | Some size =>
          let skew_bps := default dec0 (number_at inputs 4) in
          let centre := dsub mid (dmul (ddiv skew_bps (dlit 10000 0)) mid) in
          ValQuotes (seq 0 (grid_levels (number_at inputs 2)) ≫= grid_level mid centre step_bps size)
      end
  | _, _ => ValMissing
  end.

Definition QuoteGrid : Kind :=
  stateless [("mid", PtNumber); ("step_bps", PtNumber); ("levels", PtNumber); ("size", PtNumber); ("skew_bps", PtNumber)]
    [("quotes", PtQuotes)] [] (λ inputs, [grid_quotes inputs]).

Definition QuoteMux : Kind :=
  stateless [("cond", PtBool); ("a", PtQuotes); ("b", PtQuotes)] [("quotes", PtQuotes)] []
    (λ inputs, [match as_quotes (arg inputs (if bool_at inputs 0 then 1 else 2)) with
                | Some q => ValQuotes q
                | None => ValMissing
                end]).

Record Hedge := mkHedge { hedge_venue : string; hedge_symbol : string; hedge_product : string; cross_bps : dec }.

Definition Hedge_from_config : json → option Hedge :=
  config_or (mkHedge "" "" "" (dlit 10 0)) (λ c,
    let read_str k := default "" (get_str c k) in
    let cross := match get_str c "cross_bps" with
                 | Some s => match parse_decimal s with Ok d => d | Err _ => dlit 10 0 end
                 | None => dlit 10 0
                 end in
    Some (mkHedge (read_str "hedge_venue") (read_str "hedge_symbol") (read_str "hedge_product") cross)).

Definition hedge_leg (h : Hedge) (side qty price : dec) : Value :=
  let hedge_side := if dltb dec0 side then QuoteSell else QuoteBuy in
  let offset := ddiv (dmul price (cross_bps h)) (dlit 10000 0) in
  let hedge_price := match hedge_side with QuoteSell => dsub price offset | QuoteBuy => dadd price offset end in
  if bool_decide (hedge_venue h = "") && bool_decide (hedge_symbol h = "")
  then ValQuotes [mkGraphQuote hedge_side hedge_price qty]
  else ValVenueQuotes [mkVenueQuote (hedge_venue h) (hedge_symbol h) (hedge_product h) hedge_side hedge_price qty].

Definition hedge_quotes (h : Hedge) (inputs : list Value) : Value :=
  if bool_at inputs 0 then
    match number_at inputs 1, positive_at inputs 2, positive_at inputs 3 with
    | Some side, Some qty, Some price => hedge_leg h side qty price
    | _, _, _ => ValMissing
    end
  else ValMissing.

Definition QuoteHedge (h : Hedge) : Kind :=
  stateless [("fired", PtBool); ("side", PtNumber); ("qty", PtNumber); ("price", PtNumber)] [("quotes", PtQuotes)]
    [mkConfigField "hedge_venue" WText; mkConfigField "hedge_symbol" WText;
     mkConfigField "hedge_product" (WEnum [""; "spot"; "linear_perp"; "inverse_perp"]);
     mkConfigField "cross_bps" WNumber]
    (λ inputs, [hedge_quotes h inputs]).

(** [QueueAware] of [strategies.rs] *)
Definition queue_mult (p : option dec) : dec :=
  let p := match p with Some v => dmin (dmax v dec0) dec1 | None => dec0 end in
  dadd (dlit 3 1) (dmul (dsub dec1 (dlit 3 1)) p).

Definition scale_quote (mult : dec) (q : GraphQuote) : GraphQuote :=
  mkGraphQuote (gq_side q) (gq_price q) (dmax (dmul (gq_qty q) mult) dec0).

Definition queue_aware (inputs : list Value) : Value :=
  match as_quotes (arg inputs 0) with
  | None => ValMissing
  | Some qs => ValQuotes (scale_quote (queue_mult (number_at inputs 1)) <$> qs)
  end.

Definition QueueAware : Kind :=
  stateless [("quotes", PtQuotes); ("probability", PtNumber)] [("quotes", PtQuotes)] []
    (λ inputs, [queue_aware inputs]).

(** ** [sinks.rs] *)
Definition sink_node (ins : list (string * PortType)) (schema : list ConfigField) : Kind :=
  stateless ins [("action", PtUnit)] schema (λ _, [ValUnit]).

Definition OutSpreadMult : Kind := sink_node [("mult", PtNumber)] [].
Definition OutSizeMult : Kind := sink_node [("mult", PtNumber)] [].
Definition OutVolatility : Kind := sink_node [("sigma", PtNumber)] [].
Definition OutKillEscalate : Kind :=
  sink_node [("trigger", PtBool); ("level", PtNumber); ("reason", PtString)] [mkConfigField "venue" WText].
Definition OutFlatten : Kind := sink_node [("trigger", PtBool); ("policy", PtString)] [].
Definition OutQuotes : Kind := sink_node [("quotes", PtQuotes)] [].
Definition OutVenueQuotes : Kind := sink_node [("quotes", PtQuotes)] [].
Definition OutVenueQuotesIf : Kind := sink_node [("trigger", PtBool); ("quotes", PtQuotes)] [].
Definition OutAtomicBundle : Kind := sink_node [("maker", PtQuotes); ("hedge", PtQuotes); ("timeout_ms", PtNumber)] [].
End Nodes.
