(* ===== verification/NodeBounds.v ===== *)
(** * The ranges of the computing nodes

    What the risk multipliers and the quote grid of [Nodes.v] can put on a
    wire, for ideal decimal arithmetic and any configuration the nodes'
    parsers accept. *)
From stdpp Require Import base list strings.
From Stdlib Require Import ZArith QArith Lia Lqa.
From S2P Require Import Prelude Decimal Bytes Json Graph Indicators Volatility Evaluator NodeBase Nodes.
Local Open Scope string_scope.
Local Open Scope nat_scope.
Local Open Scope list_scope.

Section Ranges.
Context {D : Decimal} {L : DecimalExact D}.

(** A decimal of the unit interval. *)
Definition in_unit (d : dec) : Prop := (0 <= dval d <= 1)%Q.

Lemma one_in_unit : in_unit dec1.
Proof. unfold in_unit. rewrite dec1_val. lra. Qed.

Lemma zero_in_unit : in_unit dec0.
Proof. unfold in_unit. rewrite dec0_val. lra. Qed.

Lemma mul_in_unit a b : in_unit a → in_unit b → in_unit (dmul a b).
Proof. unfold in_unit. rewrite dmul_exact. intros. nra. Qed.

(** [v.max(0).min(1)] *)
Lemma clamp_in_unit v : in_unit (dmin (dmax v dec0) dec1).
Proof.
  pose proof dec0_val. pose proof dec1_val. unfold in_unit, dmin, dmax.
  destruct (dleb v dec0) eqn:E1; [destruct (dleb dec0 dec1) eqn:E2 | destruct (dleb v dec1) eqn:E2]; dec_to_Q; lra.
Qed.

(** [(level.abs() / cap).min(1)] *)
Lemma ratio_in_unit level cap : (0 < dval cap)%Q → in_unit (dmin (ddiv (dabs level) cap) dec1).
Proof.
  intros Hc. unfold in_unit. pose proof dec1_val as H1.
  assert (H : (0 <= dval (ddiv (dabs level) cap))%Q).
  { rewrite ddiv_exact by lra. rewrite dabs_val. apply Qle_shift_div_l; [done|]. rewrite Qmult_0_l. apply Qabs.Qabs_nonneg. }
  unfold dmin. destruct (dleb _ dec1) eqn:E; dec_to_Q; lra.
Qed.

Lemma power_in_unit n r : in_unit r → in_unit (power_loop n r).
Proof.
  intros Hr. unfold power_loop. induction (Z.to_nat n) as [|k IH]; [apply one_in_unit|]. by apply mul_in_unit.
Qed.

Lemma dpos_val d : dpos d = true → (0 < dval d)%Q.
Proof. unfold dpos. intros H. dec_to_Q. rewrite dec0_val in H. exact H. Qed.

Context {J : Json} {JD : JsonDecimal (D := D) (J := J)} {DT : DecimalText}.

Lemma decimal_field_valid raw dflt (valid : dec → bool) d : valid dflt = true →
  decimal_field raw dflt valid = Some d → valid d = true.
Proof.
  intros Hd. unfold decimal_field. destruct raw as [s|]; [|by intros [= <-]].
  destruct (parse_decimal s) as [v|]; [|done]. destruct (valid v) eqn:E; [|done]. by intros [= <-].
Qed.

Lemma two_pos : dpos (dlit 2 0) = true.
Proof. unfold dpos. dec_to_Q. rewrite dec0_val, dlit_int by done. unfold inject_Z. lra. Qed.

Lemma one_pos : dpos dec1 = true.
Proof. unfold dpos. dec_to_Q. rewrite dec0_val, dec1_val. lra. Qed.

Lemma cap_positive c cap exponent : cap_exponent c = Some (cap, exponent) → (0 < dval cap)%Q ∧ (0 < dval exponent)%Q.
Proof.
  pose proof two_pos. pose proof one_pos. intros E. split; apply dpos_val; revert E; unfold cap_exponent, config_or;
    (destruct (decide _); [by intros [= <- <-]|]); (destruct (struct_fields _ c) as [fs|]; [|done]); cbn;
    (destruct (opt_field _ 0 fs) as [x|]; [|done]); cbn; (destruct (opt_field _ 1 fs) as [y|]; [|done]); cbn;
    (destruct (decimal_field x _ _) as [u|] eqn:Ex; [|done]); cbn;
    (destruct (decimal_field y _ _) as [v|] eqn:Ey; [|done]); intros [= <- <-];
    [by apply (decimal_field_valid _ _ _ _ one_pos Ex) | by apply (decimal_field_valid _ _ _ _ two_pos Ey)].
Qed.

Lemma scale_nonneg c scale : ToxicityWiden_from_config c = Some scale → (0 <= dval scale)%Q.
Proof.
  assert (H2 : dleb dec0 (dlit 2 0) = true) by (pose proof two_pos as H; unfold dpos in H; dec_to_Q; lra).
  intros E. assert (H : dleb dec0 scale = true); [|dec_to_Q; by rewrite dec0_val in H].
  revert E. unfold ToxicityWiden_from_config, config_or. destruct (decide _); [by intros [= <-]|].
  destruct (struct_fields _ c) as [fs|]; [|done]. cbn. destruct (opt_field _ 0 fs) as [x|]; [|done]. cbn.
  by apply (decimal_field_valid _ _ (λ v, dleb dec0 v)).
Qed.

(** The multipliers stay in their ranges for every configuration the parsers
    accept and every input, missing ones included: the toxicity widening is
    between one and one plus the configured scale, the inventory urgency
    between zero and one, and the queue-aware size factor between three tenths
    and one. *)
Theorem multipliers_bounded :
  (∀ c scale vpin, ToxicityWiden_from_config c = Some scale →
    (1 <= dval (widen scale vpin) <= 1 + dval scale)%Q) ∧
  (∀ c cap exponent level, InventoryUrgency_from_config c = Some (cap, exponent) →
    (0 <= dval (urgency cap exponent level) <= 1)%Q) ∧
  (∀ p, (3 # 10 <= dval (queue_mult p) <= 1)%Q).
Proof.
  split; [|split].
  - intros c scale vpin Hc. apply scale_nonneg in Hc. unfold widen. destruct vpin as [v|]; [|rewrite dec1_val; lra].
    pose proof (clamp_in_unit v) as Hv. unfold in_unit in Hv. rewrite dadd_exact, dmul_exact, dec1_val. nra.
  - intros c cap exponent level [Hc _]%cap_positive. unfold urgency.
    destruct level as [level|]; [|apply zero_in_unit]. pose proof (ratio_in_unit level cap Hc) as Hr.
    destruct (deqb _ _); [by apply mul_in_unit | by apply power_in_unit].
  - intros p. unfold queue_mult.
    assert (Hp : in_unit (match p with Some v => dmin (dmax v dec0) dec1 | None => dec0 end))
      by (destruct p; [apply clamp_in_unit | apply zero_in_unit]).
    unfold in_unit in Hp. rewrite dadd_exact, dmul_exact, dsub_exact, dec1_val.
    assert (H3 : (dval (dlit 3 1) == 3 # 10)%Q) by (rewrite dlit_val; [done | exists 3%Z, 1; split; [done | split; [lia | done]]]). rewrite H3. nra.
Qed.

(** An exponent below one is truncated to zero, and the urgency is then one at
    every level, a flat inventory included. *)
Lemma fractional_exponent_saturates cap exponent level : deqb exponent (dlit 2 0) = false →
  parse_u32 (dto_string (dtrunc exponent)) = Some 0%Z → urgency cap exponent (Some level) = dec1.
Proof. intros H2 Hp. unfold urgency. by rewrite H2, Hp. Qed.

(** ** The grid *)
Definition bid_below (q : GraphQuote (D := D)) (centre : dec) : Prop :=
  match gq_side q with QuoteBuy => (0 < dval (gq_price q) < dval centre)%Q | QuoteSell => (dval centre < dval (gq_price q))%Q end.

Lemma grid_level_quotes mid centre step_bps size k q : (0 < dval mid)%Q → (0 < dval step_bps)%Q → k < 20 →
  q ∈ grid_level mid centre step_bps size k → gq_qty q = size ∧ bid_below q centre.
Proof.
  intros Hm Hs Hk. unfold grid_level. set (offset := dmul _ mid).
  assert (Ho : (0 < dval offset)%Q).
  { unfold offset. rewrite dmul_exact, ddiv_exact, dmul_exact; rewrite (dlit_int 10000) by done; [|unfold inject_Z; lra].
    unfold dof_nat. rewrite dlit_int by lia.
    assert (Hn : (0 < inject_Z (Z.of_nat (k + 1)))%Q) by (unfold Qlt, inject_Z; cbn; lia).
    apply Qmult_lt_0_compat; [|done]. apply Qlt_shift_div_l; [unfold inject_Z; lra|]. nra. }
  rewrite elem_of_app. intros [Hq|Hq].
  - destruct (dltb dec0 _) eqn:E; [|by apply elem_of_nil in Hq]. apply list_elem_of_singleton in Hq as ->.
    split; [done|]. unfold bid_below. cbn. dec_to_Q. rewrite dec0_val in E. rewrite dsub_exact in *. lra.
  - apply list_elem_of_singleton in Hq as ->. split; [done|]. unfold bid_below. cbn. rewrite dadd_exact. lra.
Qed.

Lemma grid_levels_range raw : 1 ≤ grid_levels raw ≤ 20.
Proof. unfold grid_levels. lia. Qed.

Lemma positive_at_val inputs i v : positive_at inputs i = Some v → (0 < dval v)%Q.
Proof.
  unfold positive_at. destruct (number_at inputs i) as [x|]; [|done]. cbn. destruct (dltb dec0 x) eqn:E; [|done].
  intros [= <-]. dec_to_Q. by rewrite dec0_val in E.
Qed.

(** A quote grid, whatever arrives on its ports, is either no quotes at all
    or at most twenty levels a side, every quote of the positive size it was
    given, every bid positive, and every bid strictly below every ask: the
    grid never crosses itself. *)
Theorem grid_never_crosses inputs qs : grid_quotes inputs = ValQuotes qs →
  length qs ≤ 40 ∧ (∃ size, (0 < dval size)%Q ∧ Forall (λ q, gq_qty q = size) qs) ∧
  Forall (λ q, gq_side q = QuoteBuy → (0 < dval (gq_price q))%Q) qs ∧
  ∀ b s, b ∈ qs → s ∈ qs → gq_side b = QuoteBuy → gq_side s = QuoteSell → (dval (gq_price b) < dval (gq_price s))%Q.
Proof.
  unfold grid_quotes. destruct (positive_at inputs 0) as [mid|] eqn:Em; [|done].
  destruct (positive_at inputs 1) as [step_bps|] eqn:Es; [|done].
  destruct (positive_at inputs 3) as [size|] eqn:Ez; [|done].
  apply positive_at_val in Em, Es, Ez. set (centre := dsub mid _). pose proof (grid_levels_range (number_at inputs 2)) as Hl.
  intros [= <-]. set (n := grid_levels _) in *.
  assert (Hq : ∀ q, q ∈ (seq 0 n ≫= grid_level mid centre step_bps size) → gq_qty q = size ∧ bid_below q centre).
  { intros q (k & Hq & Hk)%list_elem_of_bind. apply elem_of_seq in Hk. apply (grid_level_quotes mid centre step_bps size k); [done|done|lia|done]. }
  split; [|split; [|split]].
  - assert (H : ∀ l, length (l ≫= grid_level mid centre step_bps size) ≤ 2 * length l).
    { clear. induction l as [|k l IH]; [done|]. cbn. rewrite length_app. unfold grid_level at 1. destruct (dltb _ _); cbn; lia. }
    specialize (H (seq 0 n)). rewrite length_seq in H. lia.
  - exists size. split; [done|]. apply Forall_forall. intros q Hin. by apply Hq.
  - apply Forall_forall. intros q [_ Hb]%Hq Hside. unfold bid_below in Hb. rewrite Hside in Hb. apply Hb.
  - intros b s [_ Hb]%Hq [_ Hs]%Hq Eb Es'. unfold bid_below in Hb, Hs. rewrite Eb in Hb. rewrite Es' in Hs. lra.
Qed.
End Ranges.

(** A grid of two levels around 100; a widening at its cap. *)
Definition demo_grid_inputs : list (Value (D := Qc_decimal)) :=
  [ValNumber (dlit 100 0); ValNumber (dlit 10 0); ValMissing; ValNumber (dlit 1 0); ValNumber (dlit 25 0)].

Lemma grid_never_crosses_witness : ∃ qs, grid_quotes (DT := integer_text) demo_grid_inputs = ValQuotes qs ∧ length qs = 2 ∧
  length qs ≤ 40.
Proof.
  eexists. split; [reflexivity|]. split; [vm_compute; reflexivity|].
  exact (proj1 (grid_never_crosses (DT := integer_text) demo_grid_inputs _ eq_refl)).
Defined.

Lemma multipliers_bounded_witness :
  (1 <= dval (widen (D := Qc_decimal) (dlit 2 0) (Some (dlit 3 0))) <= 1 + dval (Decimal := Qc_decimal) (dlit 2 0))%Q ∧
  dval (widen (D := Qc_decimal) (dlit 2 0) (Some (dlit 3 0))) = (3 # 1)%Q.
Proof.
  split; [|vm_compute; reflexivity].
  apply (proj1 (multipliers_bounded (J := tree_json) (JD := tree_decimal) (DT := integer_text)) TNull). reflexivity.
Defined.
