(* ===== verification/Plan.v ===== *)
(** * Execution plans ([crates/strategy-graph/src/nodes/plan.rs])

    [Plan.Accumulate] slices a quantity over a horizon: one slice whenever the
    elapsed part of the horizon is ahead of what was emitted. The state is the
    slot of the node. *)
From stdpp Require Import base list strings.
From Stdlib Require Import ZArith QArith Qabs Lia Lqa.
From S2P Require Import Prelude Decimal Bytes Json Graph Indicators Volatility Evaluator NodeBase.
Local Open Scope string_scope.
Local Open Scope nat_scope.
Local Open Scope list_scope.

Section Plan.
Context {D : Decimal}.

Record Accumulate := mkAccumulate {
  acc_side : QuoteSide;
  total_qty : dec;
  duration_secs : Z;
  slice_qty : dec;
  post_offset_bps : dec;
  abort_price_ge : option dec;
  abort_price_le : option dec;
  min_slice_gap_ms : Z;
}.

Definition accumulate_default : Accumulate :=
  mkAccumulate QuoteBuy dec0 3600 (dlit 1 3) (dlit 1 0) None None 500.

(** *** The configuration *)
Section Config.
Context {J : Json} {JD : JsonDecimal (D := D) (J := J)}.

Definition optional_decimal (raw : option string) : option (option dec) :=
  match raw with
  | None => Some None
  | Some s => match parse_decimal s with Ok v => Some (Some v) | Err _ => None end
  end.

Definition checked_i64 (raw : option Z) (dflt : Z) (valid : Z → bool) : option Z :=
  match raw with None => Some dflt | Some d => if valid d then Some d else None end.

Definition accumulate_fields : list string :=
  ["side"; "total_qty"; "duration_secs"; "slice_qty"; "post_offset_bps"; "abort_price_ge"; "abort_price_le";
   "min_slice_gap_ms"].

Definition Accumulate_from_config : json → option Accumulate := config_or accumulate_default (λ c,
  fs ← struct_fields accumulate_fields c;
  side ← opt_field json_as_str 0 fs;
  total ← opt_field json_as_str 1 fs;
  duration ← opt_field json_as_i64 2 fs;
  slice ← opt_field json_as_str 3 fs;
  offset ← opt_field json_as_str 4 fs;
  ge ← opt_field json_as_str 5 fs;
  le ← opt_field json_as_str 6 fs;
  gap ← opt_field json_as_i64 7 fs;
  total ← decimal_field total dec0 (λ _, true);
  duration ← checked_i64 duration 3600 (λ d, 0 <? d)%Z;
  slice ← decimal_field slice (dlit 1 3) (dltb dec0);
  offset ← decimal_field offset (dlit 1 0) (λ _, true);
  ge ← optional_decimal ge;
  le ← optional_decimal le;
  gap ← checked_i64 gap 500 (λ g, 0 <=? g)%Z;
  Some (mkAccumulate match side with
                     | Some s => if bool_decide (s = "sell") then QuoteSell else QuoteBuy
                     | None => QuoteBuy
                     end total duration slice offset ge le gap)).
End Config.

(** *** One tick *)
Definition latch_start (now : Z) (ps : PlanState) : PlanState :=
  mkPlanState (Some (default now (started_at_ms ps))) (qty_emitted ps) (aborted ps) (last_slice_ms ps).

Definition abort_plan (ps : PlanState) : PlanState :=
  mkPlanState (started_at_ms ps) (qty_emitted ps) true (last_slice_ms ps).

Definition abort_price (a : Accumulate) (mid : dec) : bool :=
  match abort_price_ge a with Some ge => dleb ge mid | None => false end
  || match abort_price_le a with Some le => dleb mid le | None => false end.

Definition throttled (a : Accumulate) (now : Z) (ps : PlanState) : bool :=
  (0 <? min_slice_gap_ms a)%Z && (0 <? last_slice_ms ps)%Z
  && (wrap_i64 (now - last_slice_ms ps) <? min_slice_gap_ms a)%Z.

(** The quantity the schedule wants by now. *)
Definition target_qty (a : Accumulate) (elapsed_ms duration_ms : Z) : dec :=
  let frac_bps := dmul (ddiv (dlit elapsed_ms 0) (dlit duration_ms 0)) (dlit 10000 0) in
  dmul (total_qty a) (dmin (ddiv frac_bps (dlit 10000 0)) dec1).

Definition post_price (a : Accumulate) (mid : dec) : dec :=
  let offset := ddiv (dmul mid (post_offset_bps a)) (dlit 10000 0) in
  match acc_side a with QuoteBuy => dsub mid offset | QuoteSell => dadd mid offset end.

Definition next_slice (a : Accumulate) (ps : PlanState) : dec :=
  dmax (dmin (slice_qty a) (dsub (total_qty a) (qty_emitted ps))) dec0.

(** From the schedule check on: [mid] is positive and the plan runs. *)
Definition emit_slice (a : Accumulate) (now : Z) (mid : dec) (ps : PlanState) : list GraphQuote * PlanState :=
  let elapsed_ms := Z.max 0 (wrap_i64 (now - default now (started_at_ms ps))) in
  let duration_ms := wrap_i64 (duration_secs a * 1000) in
  if (duration_ms <=? 0)%Z then ([], ps)
  else if dleb (target_qty a elapsed_ms duration_ms) (dadd (qty_emitted ps) (ddiv (slice_qty a) (dlit 2 0)))
  then ([], ps)
  else
    let slice := next_slice a ps in
    if dleb slice dec0 then ([], ps)
    else ([mkGraphQuote (acc_side a) (post_price a mid) slice],
          mkPlanState (started_at_ms ps) (dadd (qty_emitted ps) slice) (aborted ps) now).

Definition accumulate_step (a : Accumulate) (now : Z) (inputs : list Value) (ps : PlanState) :
    list GraphQuote * PlanState :=
  if dleb (total_qty a) dec0 || aborted ps then ([], ps)
  else if dleb (total_qty a) (qty_emitted ps) then ([], ps)
  else
    let ps := latch_start now ps in
    match number_at inputs 0 with
    | None => ([], ps)
    | Some mid =>
        if dleb mid dec0 then ([], ps)
        else if abort_price a mid then ([], abort_plan ps)
        else if throttled a now ps then ([], ps)
        else emit_slice a now mid ps
    end.

Definition AccumulateNode (a : Accumulate) : NodeKind NodeSlot :=
  stateful [("mid", PtNumber)] [("quotes", PtQuotes)]
    [mkConfigField "side" (WEnum ["buy"; "sell"]); mkConfigField "total_qty" WNumber;
     mkConfigField "duration_secs" WInteger; mkConfigField "slice_qty" WNumber;
     mkConfigField "post_offset_bps" WNumber; mkConfigField "abort_price_ge" WText;
     mkConfigField "abort_price_le" WText; mkConfigField "min_slice_gap_ms" WInteger]
    (λ now inputs ps, let '(qs, ps) := accumulate_step a now inputs ps in Done ([ValQuotes qs], ps)).

(** The quotes of a run of ticks. *)
Fixpoint plan_run (a : Accumulate) (hist : list (Z * list Value)) (ps : PlanState) : list GraphQuote * PlanState :=
  match hist with
  | [] => ([], ps)
  | (now, inputs) :: hist =>
      let '(qs, ps) := accumulate_step a now inputs ps in
      let '(qs', ps) := plan_run a hist ps in (qs ++ qs', ps)
  end.
End Plan.

(** ** What a run of ticks emits *)
Section Bounds.
Context {D : Decimal} {L : DecimalExact D} (a : Accumulate).

Definition qtys (qs : list GraphQuote) : list Q := (λ q, dval (gq_qty q)) <$> qs.

(** A slice of the plan: its side, and no more than the slice size. *)
Definition slice_ok (q : GraphQuote) : Prop :=
  gq_side q = acc_side a ∧ (0 < dval (gq_qty q) <= dval (slice_qty a))%Q.

(** Nothing emitted yet, or within the total. *)
Definition plan_within (ps : PlanState) : Prop :=
  (0 <= dval (qty_emitted ps))%Q ∧ ((dval (qty_emitted ps) == 0)%Q ∨ (dval (qty_emitted ps) <= dval (total_qty a))%Q).

(** What one tick does to the plan. *)
Record step_spec (ps : PlanState) (qs : list GraphQuote) (ps' : PlanState) : Prop := {
  ss_emitted : (dval (qty_emitted ps') == dval (qty_emitted ps) + qsum (qtys qs))%Q;
  ss_within : plan_within ps → plan_within ps';
  ss_slices : Forall slice_ok qs;
  ss_aborted : aborted ps = true → qs = [] ∧ aborted ps' = true;
}.

Lemma idle_spec ps ps' : qty_emitted ps' = qty_emitted ps → (aborted ps = true → aborted ps' = true) →
  step_spec ps [] ps'.
Proof. intros He Ha. split; [rewrite He; cbn; ring | unfold plan_within; by rewrite He | done | auto]. Qed.

Lemma half_qty x : (dval (ddiv x (dlit 2 0)) == dval x / 2)%Q.
Proof. apply half_val. Qed.

Lemma next_slice_bounds ps : (0 < dval (next_slice a ps))%Q →
  (dval (next_slice a ps) <= dval (slice_qty a) ∧
   dval (qty_emitted ps) + dval (next_slice a ps) <= dval (total_qty a))%Q.
Proof.
  unfold next_slice, dmax, dmin. pose proof (dsub_exact (total_qty a) (qty_emitted ps)) as Es.
  destruct (dleb (slice_qty a) _) eqn:E1.
  - destruct (dleb (slice_qty a) dec0) eqn:E2; dec_to_Q; rewrite ?dec0_val in *; lra.
  - destruct (dleb (dsub (total_qty a) (qty_emitted ps)) dec0) eqn:E2; dec_to_Q; rewrite ?dec0_val in *; lra.
Qed.

Lemma emit_slice_spec now mid ps : aborted ps = false →
  step_spec ps (emit_slice a now mid ps).1 (emit_slice a now mid ps).2.
Proof.
  intros Hab. unfold emit_slice. destruct (_ <=? 0)%Z; [by apply idle_spec|].
  destruct (dleb (target_qty _ _ _) _); [by apply idle_spec|].
  destruct (dleb (next_slice a ps) dec0) eqn:Es; [by apply idle_spec|].
  apply dleb_gt in Es. unfold dlt in Es. rewrite dec0_val in Es. pose proof (next_slice_bounds ps Es) as [Hs Ht].
  split; cbn [fst snd qty_emitted aborted].
  - rewrite dadd_exact. cbn. ring.
  - intros [H0 _]. unfold plan_within. cbn [qty_emitted]. rewrite dadd_exact. split; [lra | right; lra].
  - apply Forall_singleton. done.
  - congruence.
Qed.

Lemma accumulate_step_spec now inputs ps :
  step_spec ps (accumulate_step a now inputs ps).1 (accumulate_step a now inputs ps).2.
Proof.
  unfold accumulate_step. destruct (dleb (total_qty a) dec0 || aborted ps) eqn:E0; [by apply idle_spec|].
  apply orb_false_elim in E0 as [_ Hab].
  destruct (dleb (total_qty a) (qty_emitted ps)); [by apply idle_spec|].
  destruct (number_at inputs 0) as [mid|]; [|by apply idle_spec].
  destruct (dleb mid dec0); [by apply idle_spec|].
  destruct (abort_price a mid); [by apply idle_spec|].
  destruct (throttled a now _); [by apply idle_spec|].
  destruct (emit_slice_spec now mid (latch_start now ps) Hab) as [H1 H2 H3 H4]. split; auto.
Qed.

Lemma qsum_qtys_app l1 l2 : (qsum (qtys (l1 ++ l2)) == qsum (qtys l1) + qsum (qtys l2))%Q.
Proof. unfold qtys. rewrite fmap_app. apply qsum_app. Qed.

Lemma plan_run_spec hist : ∀ ps, step_spec ps (plan_run a hist ps).1 (plan_run a hist ps).2.
Proof.
  induction hist as [|[now inputs] hist IH]; intros ps; [by apply idle_spec|]. cbn [plan_run].
  pose proof (accumulate_step_spec now inputs ps) as H1. destruct (accumulate_step a now inputs ps) as [qs ps1].
  pose proof (IH ps1) as H2. destruct (plan_run a hist ps1) as [qs' ps2]. cbn [fst snd] in *.
  destruct H1 as [E1 W1 S1 A1], H2 as [E2 W2 S2 A2]. split.
  - rewrite E2, E1, qsum_qtys_app. ring.
  - auto.
  - by apply Forall_app.
  - intros Hab. destruct (A1 Hab) as [-> H']. destruct (A2 H') as [-> H'']. done.
Qed.

(** Half a slice short of the total, no tick emits again. *)
Lemma plan_strands hist : ∀ ps, (0 < dval (total_qty a))%Q →
  (dval (total_qty a) <= dval (qty_emitted ps) + dval (slice_qty a) / 2)%Q → (plan_run a hist ps).1 = [].
Proof.
  induction hist as [|[now inputs] hist IH]; intros ps Ht Hle; [done|]. cbn [plan_run].
  assert (Hquiet : ∃ ps', accumulate_step a now inputs ps = ([], ps') ∧ qty_emitted ps' = qty_emitted ps).
  { unfold accumulate_step. destruct (_ || _); [by eexists|]. destruct (dleb (total_qty a) _); [by eexists|].
    destruct (number_at inputs 0) as [mid|]; [|by eexists]. destruct (dleb mid dec0); [by eexists|].
    destruct (abort_price a mid); [by eexists|]. destruct (throttled a now _); [by eexists|].
    unfold emit_slice. destruct (_ <=? 0)%Z; [by eexists|]. cbn [latch_start qty_emitted].
    match goal with |- context [dleb ?t ?e] => assert (Hq : dleb t e = true) end.
    { apply dleb_le. unfold dle, target_qty. rewrite dadd_exact, half_val, dmul_exact.
      match goal with |- context [dmin ?x dec1] => assert (Hm : (dval (dmin x dec1) <= 1)%Q) end.
      { unfold dmin. pose proof dec1_val. destruct (dleb _ dec1) eqn:E; dec_to_Q; lra. }
      eapply Qle_trans; [|exact Hle]. nra. }
    rewrite Hq. by eexists. }
  destruct Hquiet as (ps' & -> & Hq). destruct (plan_run a hist ps') as [qs' ps''] eqn:E.
  cbn [fst]. pose proof (IH ps') as H. rewrite E in H. cbn [fst app] in *. apply H; [done|]. by rewrite Hq.
Qed.

(** A plan never overshoots. Over any run of ticks from a fresh slot the
    emitted quantity is the sum of the quotes, each on the plan's side, positive
    and at most one slice; the sum never exceeds the total; and once the plan
    is aborted no later tick emits. *)
Theorem plan_never_overshoots hist :
  let '(qs, ps) := plan_run a hist slot_default in
  (dval (qty_emitted ps) == qsum (qtys qs))%Q ∧
  ((qsum (qtys qs) == 0)%Q ∨ (qsum (qtys qs) <= dval (total_qty a))%Q) ∧
  Forall slice_ok qs ∧
  (aborted ps = true → ∀ later, (plan_run a later ps).1 = []).
Proof.
  pose proof (plan_run_spec hist slot_default) as [E W S _]. destruct (plan_run a hist slot_default) as [qs ps].
  cbn [fst snd] in *. assert (H0 : (dval (qty_emitted (slot_default (T := PlanState))) == 0)%Q) by apply dec0_val.
  rewrite H0 in E. assert (Eq : (dval (qty_emitted ps) == qsum (qtys qs))%Q) by (rewrite E; ring).
  split; [done|]. split; [|split; [done|]].
  - destruct W as [_ W]; [split; [rewrite H0; lra | by left]|]. rewrite Eq in W. exact W.
  - intros Hab later. destruct (plan_run_spec later ps) as [_ _ _ A]. by apply A.
Qed.
End Bounds.

(** A plan of one unit in one slice over ten seconds, ticked at its start and its end. *)
Definition demo_plan : Accumulate (D := Qc_decimal) :=
  mkAccumulate QuoteSell (dlit 1 0) 10 (dlit 1 0) (dlit 1 0) None None 500.
Definition demo_ticks : list (Z * list (Value (D := Qc_decimal))) :=
  [(1000%Z, [ValNumber (dlit 100 0)]); (11000%Z, [ValNumber (dlit 100 0)]); (12000%Z, [ValNumber (dlit 100 0)])].

Example demo_plan_emits : deqb (qty_emitted (plan_run demo_plan demo_ticks slot_default).2) (dlit 1 0) = true
  ∧ length (plan_run demo_plan demo_ticks slot_default).1 = 1.
Proof. split; vm_compute; reflexivity. Qed.

Lemma plan_never_overshoots_witness :
  let '(qs, ps) := plan_run demo_plan demo_ticks slot_default in
  (dval (qty_emitted ps) == qsum (qtys qs))%Q ∧
  ((qsum (qtys qs) == 0)%Q ∨ (qsum (qtys qs) <= dval (total_qty demo_plan))%Q) ∧ Forall (slice_ok demo_plan) qs.
Proof.
  pose proof (plan_never_overshoots demo_plan demo_ticks) as H.
  destruct (plan_run demo_plan demo_ticks slot_default) as [qs ps].
  destruct H as (H1 & H2 & H3 & _). split; [exact H1|]. split; [exact H2 | exact H3].
Defined.
