(* ===== verification/NodeCatalog.v ===== *)
(** * The catalog of node kinds ([crates/strategy-graph/src/catalog.rs])

    [build] resolves a kind and its configuration, [kinds] lists what the
    palette shows. The catalog meets the contract the evaluator's theorems
    assume, and no node of it panics, three indicators with a short period
    apart. *)
From stdpp Require Import base gmap list strings.
From Stdlib Require Import ZArith Lia.
From S2P Require Import Prelude Decimal Bytes Json Graph Indicators Volatility Evaluator NodeBase SourceNodes Nodes Plan.
Local Open Scope string_scope.
Local Open Scope nat_scope.
Local Open Scope list_scope.

Section Build.
Context {D : Decimal} {J : Json} {JD : JsonDecimal (D := D) (J := J)} {DT : DecimalText} {F : FloatRoutes}.

Abbreviation Kind := (NodeKind (D := D) NodeSlot).

(** [Some(Box::new(n))] *)
Definition plain (n : Kind) (_ : json) : option Kind := Some n.
(** [from_config(config).map(Box::new)] *)
Definition conf {A} (parse : json → option A) (mk : A → Kind) (c : json) : option Kind := mk <$> parse c.

(** The arms of [build]'s [match]. *)
Definition arms : list (string * (json → option Kind)) :=
  [ ("Math.Add", plain Add);
    ("Math.Mul", plain Mul);
    ("Math.Const", conf Const_from_config Const);
    ("Stats.EWMA", conf Ewma_from_config Ewma);
    ("Stats.Garch", conf Garch_from_config Garch);
    ("Cast.ToBool", conf ToBool_from_config (uncurry ToBool));
    ("Logic.And", plain And);
    ("Logic.Mux", plain Mux);
    ("Book.L1", plain BookL1);
    ("Book.L2", plain BookL2);
    ("Trade.Tape", plain TradeTape);
    ("Trade.OwnFill", plain TradeOwnFill);
    ("Balance", plain BalanceSource);
    ("Funding", plain FundingSource);
    ("Portfolio.NetDelta", plain PortfolioNetDelta);
    ("Portfolio.QuoteAvailable", plain PortfolioQuoteAvailable);
    ("Sentiment.Rate", plain SentimentRate);
    ("Sentiment.Score", plain SentimentScore);
    ("Volatility.Realised", plain VolatilityRealised);
    ("Toxicity.VPIN", plain ToxicityVpin);
    ("Momentum.OFIZ", plain MomentumOfiZ);
    ("Strategy.Active", plain StrategyActive);
    ("PairClass.Current", plain PairClassCurrent);
    ("Cast.StrategyEq", conf StrategyEq_from_config StrategyEq);
    ("Cast.PairClassEq", conf PairClassEq_from_config PairClassEq);
    ("Risk.MarginRatio", plain RiskMarginRatio);
    ("Risk.OTR", plain RiskOtr);
    ("Inventory.Level", plain InventoryLevel);
    ("Risk.ToxicityWiden", conf ToxicityWiden_from_config ToxicityWiden);
    ("Risk.InventoryUrgency", conf InventoryUrgency_from_config (uncurry InventoryUrgency));
    ("Risk.CircuitBreaker", conf CircuitBreaker_from_config CircuitBreakerNode);
    ("Indicator.SMA", conf (parse_period 14) SmaNode);
    ("Indicator.EMA", conf (parse_period 14) EmaNode);
    ("Indicator.HMA", conf (parse_period 14) HmaNode);
    ("Indicator.RSI", conf (parse_period 14) RsiNode);
    ("Indicator.ATR", conf (parse_period 14) AtrNode);
    ("Indicator.Bollinger", conf Bollinger_from_config (uncurry BollingerNode));
    ("Signal.ImbalanceDepth", plain SignalImbalance);
    ("Signal.TradeFlow", plain SignalTradeFlow);
    ("Signal.Microprice", plain SignalMicroprice);
    ("Toxicity.KyleLambda", plain KyleLambda);
    ("Regime.Detector", plain RegimeDetector);
    ("Logic.StringMux", plain StringMux);
    ("Exec.TwapConfig", conf TwapConfig_from_config (uncurry TwapConfig));
    ("Exec.VwapConfig", conf VwapConfig_from_config VwapConfig);
    ("Exec.PovConfig", conf PovConfig_from_config PovConfig);
    ("Exec.IcebergConfig", conf IcebergConfig_from_config IcebergConfig);
    ("Out.Flatten", plain OutFlatten);
    ("Quote.Grid", plain QuoteGrid);
    ("Quote.Mux", plain QuoteMux);
    ("Quote.Hedge", conf Hedge_from_config QuoteHedge);
    ("Out.Quotes", plain OutQuotes);
    ("Out.VenueQuotes", plain OutVenueQuotes);
    ("Out.VenueQuotesIf", plain OutVenueQuotesIf);
    ("Out.AtomicBundle", plain OutAtomicBundle);
    ("Strategy.Avellaneda", plain Avellaneda);
    ("Strategy.GLFT", plain Glft);
    ("Strategy.Grid", plain StrategyGrid);
    ("Strategy.Basis", plain Basis);
    ("Strategy.CrossExchange", plain CrossExchange);
    ("Strategy.BasisArb", plain BasisArb);
    ("Strategy.Spoof", plain Spoof);
    ("Strategy.Wash", plain Wash);
    ("Strategy.Ignite", plain Ignite);
    ("Strategy.Mark", plain Mark);
    ("Strategy.Layer", plain Layer);
    ("Strategy.Stuff", plain Stuff);
    ("Strategy.CrossMarket", plain CrossMarket);
    ("Strategy.LatencyHunt", plain LatencyHunt);
    ("Strategy.RebateFarm", plain RebateFarm);
    ("Strategy.Imbalance", plain Imbalance);
    ("Strategy.ReactCancel", plain ReactCancel);
    ("Strategy.OneSided", plain OneSided);
    ("Strategy.InvPush", plain InvPush);
    ("Strategy.NonFill", plain NonFill);
    ("Strategy.PumpAndDump", plain PumpAndDump);
    ("Strategy.CampaignOrchestrator", plain CampaignOrchestrator);
    ("Strategy.LiquidationHunt", plain LiquidationHunt);
    ("Strategy.LeverageBuilder", plain LeverageBuilder);
    ("Strategy.CascadeHunter", plain CascadeHunter);
    ("Strategy.BasketPush", plain BasketPush);
    ("Plan.Accumulate", conf Accumulate_from_config AccumulateNode);
    ("Surveillance.ManipulationScore", plain ManipulationScore);
    ("Surveillance.ListingAge", plain ListingAgeSource);
    ("Surveillance.MarketCapRatio", plain MarketCapRatioSource);
    ("Surveillance.RugScore", plain RugScoreSource);
    ("Onchain.HolderConcentration", plain OnchainHolderConcentration);
    ("Onchain.SuspectInflowRate", plain OnchainSuspectInflowRate);
    ("Surveillance.LiquidationHeatmap", plain LiquidationHeatmapSource);
    ("Signal.OpenInterest", plain OpenInterestSource);
    ("Signal.LongShortRatio", plain LongShortRatioSource);
    ("Signal.LiquidationLevelEstimate", plain LiquidationLevelEstimateSource);
    ("Signal.CascadeCompleted", plain CascadeCompletedSource);
    ("Signal.FundingExtreme", plain FundingExtremeSource);
    ("Surveillance.SpoofingScore", plain SpoofingScore);
    ("Surveillance.LayeringScore", plain LayeringScore);
    ("Surveillance.QuoteStuffingScore", plain QuoteStuffingScore);
    ("Surveillance.WashScore", plain WashScore);
    ("Surveillance.MomentumIgnitionScore", plain MomentumIgnitionScore);
    ("Surveillance.FakeLiquidityScore", plain FakeLiquidityScore);
    ("Surveillance.MarkingCloseScore", plain MarkingCloseScore);
    ("Session.TimeToBoundary", plain SessionTimeToBoundary);
    ("Surveillance.CrossMarketScore", plain CrossMarketScore);
    ("Surveillance.LatencyExploitScore", plain LatencyExploitScore);
    ("Surveillance.RebateAbuseScore", plain RebateAbuseScore);
    ("Surveillance.ImbalanceManipulationScore", plain ImbalanceManipulationScore);
    ("Surveillance.CancelOnReactionScore", plain CancelOnReactionScore);
    ("Surveillance.OneSidedQuotingScore", plain OneSidedQuotingScore);
    ("Surveillance.InventoryPushingScore", plain InventoryPushingScore);
    ("Surveillance.StrategicNonFillingScore", plain StrategicNonFillingScore);
    ("Surveillance.ForeignTwap", plain ForeignTwap);
    ("Cost.Sweep", plain CostSweep);
    ("Risk.LiquidationDistance", plain LiquidationDistanceSource);
    ("Position.CostBasis", plain PositionCostBasis);
    ("Risk.UnrealizedIfFlatten", plain UnrealizedIfFlatten);
    ("Cost.CumulativeToday", plain CumulativeTodayCost);
    ("Decision.RealizedCostBps", plain DecisionRealizedCostBps);
    ("Portfolio.CrossVenueNetDelta", plain PortfolioCrossVenueNetDelta);
    ("Book.FillProbability", plain BookFillProbability);
    ("Risk.CircuitBreakerTripped", plain RiskCircuitBreakerTripped);
    ("Risk.NewsRetreatState", plain RiskNewsRetreatState);
    ("Risk.LeadLagMultiplier", plain RiskLeadLagMultiplier);
    ("Signal.FillDepth", plain SignalFillDepth);
    ("Math.InventorySkew", conf InventorySkew_from_config (uncurry InventorySkew));
    ("Strategy.QueueAware", plain QueueAware);
    ("Borrow.RateApr", plain BorrowRateApr);
    ("Borrow.MaxAvailable", plain BorrowMaxAvailable);
    ("Borrow.CarryBps", plain BorrowCarryBps);
    ("Out.SpreadMult", plain OutSpreadMult);
    ("Out.SizeMult", plain OutSizeMult);
    ("Out.Volatility", plain OutVolatility);
    ("Out.KillEscalate", plain OutKillEscalate) ].

Fixpoint find_arm (kind : string) (l : list (string * (json → option Kind))) : option (json → option Kind) :=
  match l with
  | [] => None
  | (k, f) :: l => if bool_decide (kind = k) then Some f else find_arm kind l
  end.

(** [catalog::build] *)
Definition build_node (kind : string) (config : json) : option Kind :=
  f ← find_arm kind arms; f config.

#[export] Instance node_catalog : Catalog D J :=
  {| NodeState := NodeSlot; fresh_state := SlotEmpty; build_kind := build_node |}.

Definition kind_names : list string :=
  ["Math.Add"; "Math.Mul"; "Math.Const"; "Stats.EWMA"; "Stats.Garch"; "Cast.ToBool"; "Logic.And"; "Logic.Mux";
   "Book.L1"; "Book.L2"; "Trade.Tape"; "Trade.OwnFill"; "Balance"; "Funding"; "Portfolio.NetDelta";
   "Portfolio.QuoteAvailable"; "Sentiment.Rate"; "Sentiment.Score"; "Volatility.Realised"; "Toxicity.VPIN";
   "Momentum.OFIZ"; "Strategy.Active"; "PairClass.Current"; "Cast.StrategyEq"; "Cast.PairClassEq";
   "Risk.MarginRatio"; "Risk.OTR"; "Inventory.Level"; "Risk.ToxicityWiden"; "Risk.InventoryUrgency";
   "Risk.CircuitBreaker"; "Indicator.SMA"; "Indicator.EMA"; "Indicator.HMA"; "Indicator.RSI"; "Indicator.ATR";
   "Indicator.Bollinger"; "Signal.ImbalanceDepth"; "Signal.TradeFlow"; "Signal.Microprice";
   "Toxicity.KyleLambda"; "Regime.Detector"; "Logic.StringMux"; "Exec.TwapConfig"; "Exec.VwapConfig";
   "Exec.PovConfig"; "Exec.IcebergConfig"; "Out.Flatten"; "Quote.Grid"; "Quote.Mux"; "Quote.Hedge"; "Out.Quotes";
   "Out.VenueQuotes"; "Out.VenueQuotesIf"; "Out.AtomicBundle"; "Strategy.Avellaneda"; "Strategy.GLFT";
   "Strategy.Grid"; "Strategy.Basis"; "Strategy.CrossExchange"; "Strategy.BasisArb"; "Strategy.Spoof";
   "Strategy.Wash"; "Strategy.Ignite"; "Strategy.Mark"; "Strategy.Layer"; "Strategy.Stuff";
   "Strategy.CrossMarket"; "Strategy.LatencyHunt"; "Strategy.RebateFarm"; "Strategy.Imbalance";
   "Strategy.ReactCancel"; "Strategy.OneSided"; "Strategy.InvPush"; "Strategy.NonFill"; "Strategy.PumpAndDump";
   "Strategy.LiquidationHunt"; "Strategy.LeverageBuilder"; "Strategy.CampaignOrchestrator";
   "Strategy.CascadeHunter"; "Strategy.BasketPush"; "Plan.Accumulate"; "Surveillance.ForeignTwap"; "Cost.Sweep";
   "Risk.LiquidationDistance"; "Position.CostBasis"; "Risk.UnrealizedIfFlatten"; "Cost.CumulativeToday";
   "Decision.RealizedCostBps"; "Portfolio.CrossVenueNetDelta"; "Book.FillProbability";
   "Risk.CircuitBreakerTripped"; "Risk.NewsRetreatState"; "Risk.LeadLagMultiplier"; "Signal.FillDepth";
   "Math.InventorySkew"; "Strategy.QueueAware"; "Borrow.RateApr"; "Borrow.MaxAvailable"; "Borrow.CarryBps";
   "Surveillance.ManipulationScore"; "Surveillance.ListingAge"; "Surveillance.MarketCapRatio";
   "Surveillance.RugScore"; "Onchain.HolderConcentration"; "Onchain.SuspectInflowRate";
   "Surveillance.LiquidationHeatmap"; "Signal.OpenInterest"; "Signal.LongShortRatio";
   "Signal.LiquidationLevelEstimate"; "Signal.CascadeCompleted"; "Signal.FundingExtreme";
   "Surveillance.SpoofingScore"; "Surveillance.LayeringScore"; "Surveillance.QuoteStuffingScore";
   "Surveillance.WashScore"; "Surveillance.MomentumIgnitionScore"; "Surveillance.FakeLiquidityScore";
   "Surveillance.MarkingCloseScore"; "Session.TimeToBoundary"; "Surveillance.CrossMarketScore";
   "Surveillance.LatencyExploitScore"; "Surveillance.RebateAbuseScore";
   "Surveillance.ImbalanceManipulationScore"; "Surveillance.CancelOnReactionScore";
   "Surveillance.OneSidedQuotingScore"; "Surveillance.InventoryPushingScore";
   "Surveillance.StrategicNonFillingScore"; "Out.SpreadMult"; "Out.SizeMult"; "Out.Volatility";
   "Out.KillEscalate"].

(** [catalog::kinds] *)
Definition kinds : list (string * KindShape) :=
  omap (λ k, (λ s, (k, s)) <$> shape (C := node_catalog) k) kind_names.

(** [Evaluator::plan_snapshots] *)
Definition plan_snapshots {I : HashMapIter} (e : Evaluator (C := node_catalog)) : list (NodeId * string * PlanState) :=
  omap (λ x, if String.prefix "Plan." x.2
             then (λ ps, (x.1, x.2, ps)) <$> (ev_states e !! x.1 ≫= slot_get)
             else None) (hm_iter (ev_kinds e)).
End Build.

(** ** Every kind meets the contract of the trait *)
Lemma names_distinct (l : list string) : bool_decide (NoDup l) = true → NoDup l.
Proof. apply bool_decide_eq_true. Qed.
Ltac no_dup := apply names_distinct; vm_compute; reflexivity.

Section Contract.
Context {D : Decimal} {J : Json} {JD : JsonDecimal (D := D) (J := J)} {DT : DecimalText} {F : FloatRoutes}.

Abbreviation Kind := (NodeKind (D := D) NodeSlot).

Lemma stateless_fit_ok ins outs schema f : NoDup ins.*1 → NoDup outs.*1 →
  (∀ inputs, values_fit outs (f inputs)) → node_ok (D := D) (stateless ins outs schema f).
Proof.
  intros Hi Ho Hf. apply stateless_ok; [done|done| |]; intros inputs.
  - symmetry. eapply Forall2_length. apply Hf.
  - intros _. apply Hf.
Qed.

Lemma select_fits t inputs : values_fit (D := D) [("cond", PtBool); ("then", t); ("else", t)] inputs →
  values_fit [("out", t)] (select inputs).
Proof.
  intros H. apply values_fit_1. unfold arg.
  apply Forall2_cons_inv_l in H as (c & l1 & _ & H & ->). apply Forall2_cons_inv_l in H as (v1 & l2 & H1 & H & ->).
  apply Forall2_cons_inv_l in H as (v2 & l3 & H2 & _ & ->). by destruct (bool_at _ 0).
Qed.

Lemma garch_step_fits tick inputs s : values_fit [("vol", PtNumber)] (garch_node_step (D := D) tick inputs s).1.
Proof. apply values_fit_1. auto with node_fit. Qed.
#[local] Opaque garch_node_step.

(** Values computed from any inputs at all. *)
Ltac fit_cases := repeat match goal with
  | |- fits_port _ (match ?x with _ => _ end) => destruct x
  | |- fits_port _ (if ?x then _ else _) => destruct x
  end; auto with node_fit.
Ltac fit1 := intros inputs; apply values_fit_1; fit_cases.

Lemma hedge_fits h inputs : fits_port PtQuotes (hedge_quotes h inputs).
Proof. unfold hedge_quotes, hedge_leg. fit_cases. Qed.

Lemma grid_fits inputs : fits_port PtQuotes (grid_quotes inputs).
Proof. unfold grid_quotes. fit_cases. Qed.

Lemma queue_aware_fits inputs : fits_port PtQuotes (queue_aware inputs).
Proof. unfold queue_aware. fit_cases. Qed.

Lemma indicator_step_fits {A} outs (new : outcome A) feed read inputs g vals g' :
  (∀ t, values_fit outs (read t)) → indicator_step new feed read inputs g = Done (vals, g') → values_fit outs vals.
Proof.
  intros Hr. unfold indicator_step. destruct (guarded new g) as [t|]; [|done].
  destruct (feed inputs t) as [t'|]; [|done]. by intros [= <- _].
Qed.

Lemma bands_fit t : values_fit [("upper", PtNumber); ("middle", PtNumber); ("lower", PtNumber)] (bollinger_bands t).
Proof. unfold bollinger_bands. destruct (bollinger_value sqrt_f64 t);
  repeat (apply Forall2_cons; split; [auto with node_fit|]); constructor. Qed.

Lemma indicator_ok {A} `{!SlotType (InitGuard A)} new update value : node_ok (indicator (A := A) new update value).
Proof.
  apply stateful_ok; [no_dup|no_dup|]. intros now inputs t vals t'. apply indicator_step_fits.
  intros x. apply values_fit_1. auto with node_fit.
Qed.

Lemma plan_node_ok a : node_ok (AccumulateNode (D := D) a).
Proof.
  apply stateful_ok; [no_dup|no_dup|]. intros now inputs t vals t'.
  destruct (accumulate_step a now inputs t). intros [= <- _]. apply values_fit_1. auto with node_fit.
Qed.

(** An arm of [build]: every node it builds meets the contract, and its ports
    are those of the node a null configuration gives. *)
Definition arm_ok (f : json → option Kind) : Prop := ∀ c n, f c = Some n → node_ok n ∧
  ∃ n0, f json_null = Some n0 ∧ input_ports n = input_ports n0 ∧ output_ports n = output_ports n0.

Lemma plain_ok n : node_ok n → arm_ok (plain n).
Proof. intros Hn c m [= <-]. split; [done|]. by exists n. Qed.

Lemma conf_ok {A} (parse : json → option A) mk : (∀ x, node_ok (mk x)) → is_Some (parse json_null) →
  (∀ x y, input_ports (mk x) = input_ports (mk y) ∧ output_ports (mk x) = output_ports (mk y)) →
  arm_ok (conf parse mk).
Proof.
  intros Hn [d Hd] Hp c n. unfold conf. destruct (parse c) as [x|]; [|done]. intros [= <-]. split; [done|].
  exists (mk d). rewrite Hd. split; [done|]. apply Hp.
Qed.

Context {JL : JsonLaws J}.

Lemma config_or_null {A} (d : A) parse : is_Some (config_or d parse json_null).
Proof. unfold config_or. rewrite type_null. by eexists. Qed.

Lemma own_fill_ok : node_ok (TradeOwnFill (D := D)).
Proof.
  apply stateless_fit_ok; [no_dup|no_dup|]. intros _.
  repeat (apply Forall2_cons; split; [auto with node_fit|]). constructor.
Qed.

Ltac node_kind_ok := first
  [ apply stub_ok; no_dup
  | apply own_fill_ok
  | apply indicator_ok
  | apply plan_node_ok
  | apply stateless_fit_ok; [no_dup | no_dup | fit1; fail]
  | apply stateless_fit_ok; [no_dup | no_dup | intros inputs; apply values_fit_1;
      first [apply hedge_fits | apply grid_fits | apply queue_aware_fits]]
  | apply stateless_ok; [no_dup | no_dup | done | intros inputs; apply select_fits]
  | apply stateful_ok; [no_dup | no_dup | intros now inputs t vals t'; apply indicator_step_fits; first
      [ intros ?; apply values_fit_1; auto with node_fit; fail | apply bands_fit ]] ].

Lemma ewma_ok alpha : node_ok (Ewma (D := D) alpha).
Proof.
  apply stateful_ok; [no_dup|no_dup|]. intros now inputs t vals t'. unfold ewma_step.
  destruct (number_at inputs 0); intros [= <- _]; apply values_fit_1; auto with node_fit.
Qed.

Lemma garch_ok_node tick : node_ok (Garch (D := D) tick).
Proof.
  apply stateful_ok; [no_dup|no_dup|]. intros now inputs t vals t' E.
  pose proof (garch_step_fits tick inputs t) as Hfit. destruct (garch_node_step tick inputs t) as [v s'].
  by injection E as <- _.
Qed.

Ltac arm_tac := cbn [snd]; first
  [ apply plain_ok; node_kind_ok
  | apply conf_ok; [first [intros [? ?]; cbn [uncurry]; node_kind_ok | intros ?; lazymatch goal with
                      | |- node_ok (Ewma _) => apply ewma_ok
                      | |- node_ok (Garch _) => apply garch_ok_node
                      | _ => node_kind_ok
                      end]
                   | apply config_or_null
                   | first [intros [? ?] [? ?] | intros ? ?]; split; cbn; reflexivity] ].

Lemma arms_ok : Forall (λ x, arm_ok x.2) arms.
Proof. unfold arms. repeat (apply Forall_cons; split; [arm_tac|]). apply Forall_nil. done. Qed.

Lemma find_arm_elem k l f : find_arm k l = Some f → (k, f) ∈ l.
Proof.
  induction l as [|[k' f'] l IH]; [done|]. cbn [find_arm]. case_bool_decide as E.
  - intros [= <-]. subst. by left.
  - intros H. right. auto.
Qed.

Lemma build_node_ok k c n : build_node k c = Some n → node_ok n ∧
  ∃ n0, build_node k json_null = Some n0 ∧ input_ports n = input_ports n0 ∧ output_ports n = output_ports n0.
Proof.
  unfold build_node. destruct (find_arm k arms) as [f|] eqn:E; [|done]. cbn [mbind option_bind]. intros H.
  apply find_arm_elem in E. pose proof arms_ok as Hall. rewrite Forall_forall in Hall. exact (Hall (k, f) E c n H).
Qed.

#[export] Instance node_catalog_laws : CatalogLaws node_catalog.
Proof.
  split.
  - intros k c n H. by destruct (build_node_ok k c n H).
  - intros k c n H. destruct (build_node_ok k c n H) as [[] _]. done.
  - intros k c n now ins st vals st' H. destruct (build_node_ok k c n H) as [Hok _]. apply (ok_length n Hok).
  - intros k c n now ins st vals st' H. destruct (build_node_ok k c n H) as [Hok _]. apply (ok_typed n Hok).
Qed.
End Contract.

(** ** No node panics

    but for an indicator whose constructor asserts a longer period than the
    configuration admits. *)
Section Safe.
Context {D : Decimal} {J : Json} {JD : JsonDecimal (D := D) (J := J)} {DT : DecimalText} {F : FloatRoutes} {JL : JsonLaws J}.

(** A period the constructor of the indicator accepts. *)
Definition sound_period (k : string) (c : json) : Prop :=
  (k = "Indicator.HMA" → ∀ p, parse_period 14 c = Some p → 4 ≤ p) ∧
  (k = "Indicator.RSI" → ∀ p, parse_period 14 c = Some p → 2 ≤ p) ∧
  (k = "Indicator.Bollinger" → ∀ x, Bollinger_from_config c = Some x → 2 ≤ x.1).

Lemma opt_u64_nonneg i fs p : opt_field (J := J) json_as_u64 i fs = Some (Some p) → (0 ≤ p)%Z.
Proof.
  unfold opt_field. destruct (fs !! i) as [[v|]|]; [|done..]. destruct (decide _); [done|].
  destruct (json_as_u64 v) as [z|] eqn:E; cbn; [|done]. intros [= <-]. by destruct (as_u64_range v z E).
Qed.

Lemma period_of_pos p dflt n : (0 ≤ default dflt p)%Z → period_of p dflt = Some n → 0 < n.
Proof.
  unfold period_of. intros H. destruct (_ =? 0)%Z eqn:E; [done|]. destruct (_ <? _)%Z; [done|].
  intros [= <-]. apply Z.eqb_neq in E. lia.
Qed.

Lemma parse_period_pos c p : parse_period 14 c = Some p → 0 < p.
Proof.
  unfold parse_period, config_or. destruct (decide _); [intros [= <-]; lia|].
  destruct (struct_fields _ c) as [fs|]; [|done]. cbn [mbind option_bind].
  destruct (opt_field json_as_u64 0 fs) as [q|] eqn:E; [|done]. apply period_of_pos.
  destruct q as [q|]; cbn; [by eapply opt_u64_nonneg | lia].
Qed.

Definition guard_ok {A} (P : A → Prop) (g : InitGuard A) : Prop :=
  inited g = true → ∃ t, tracker g = Some t ∧ P t.

Lemma indicator_step_safe {A} (P : A → Prop) new feed read inputs g :
  (∃ t, new = Done t ∧ P t) → (∀ inputs t, P t → ∃ t', feed inputs t = Done t' ∧ P t') → guard_ok P g →
  ∃ vals g', indicator_step new feed read inputs g = Done (vals, g') ∧ guard_ok P g'.
Proof.
  intros Hnew Hfeed Hg. unfold indicator_step, guarded.
  assert (Ht : ∃ t, (if inited g then match tracker g with Some t => Done t | None => Panicked end else new) = Done t ∧ P t).
  { destruct (inited g) eqn:Ei; [|done]. destruct (Hg Ei) as (t & -> & Ht). by exists t. }
  destruct Ht as (t & -> & Ht). destruct (Hfeed inputs t Ht) as (t' & -> & Ht').
  eexists _, _. split; [done|]. intros _. by exists t'.
Qed.

Lemma tracker_safe {A} `{!SlotType (InitGuard A)} (P : A → Prop) ins outs schema new feed read :
  slot_default = guard_default → (∃ t, new = Done t ∧ P t) →
  (∀ inputs t, P t → ∃ t', feed inputs t = Done t' ∧ P t') →
  node_safe (stateful ins outs schema (λ _, indicator_step new feed read)) SlotEmpty.
Proof.
  intros Hd Hnew Hfeed. apply (stateful_safe ins outs schema _ (guard_ok P)); [by rewrite Hd|].
  intros now inputs t Ht. by apply indicator_step_safe.
Qed.

Lemma observe_total {A} (P : A → Prop) update : (∀ x t, P t → ∃ t', update x t = Done t' ∧ P t') →
  ∀ inputs t, P t → ∃ t', observe update inputs t = Done t' ∧ P t'.
Proof. intros H inputs t Ht. unfold observe. destruct (number_at inputs 0); [by apply H | by exists t]. Qed.

Lemma pure_safe {A} `{!SlotType (InitGuard A)} new (f : dec → A → A) value : slot_default = guard_default →
  (∃ t, new = Done t) → node_safe (indicator new (λ x s, Done (f x s)) value) SlotEmpty.
Proof.
  intros Hd [t Ht]. apply (tracker_safe (λ _, True)); [done | by exists t|]. apply observe_total. intros x s _. by eexists.
Qed.

(** The averages are there once [period] changes were seen. *)
Definition rsi_seeded (s : Rsi) : Prop :=
  rsi_period s ≤ changes_seen s → is_Some (avg_gain s) ∧ is_Some (avg_loss s).

Lemma rsi_update_total x s : rsi_seeded s → ∃ s', rsi_update x s = Done s' ∧ rsi_seeded s'.
Proof.
  intros H. unfold rsi_update. destruct (rsi_prev_close s) as [prev|]; [|by eexists].
  cbn zeta. destruct (Nat.ltb_spec (S (changes_seen s)) (rsi_period s)).
  { eexists. split; [done|]. unfold rsi_seeded. cbn. lia. }
  destruct (Nat.eqb_spec (S (changes_seen s)) (rsi_period s)); [by eexists|].
  destruct H as [[g ->] [l ->]]; [lia|]. by eexists.
Qed.

Lemma rsi_safe p : 2 ≤ p → node_safe (RsiNode (D := D) p) SlotEmpty.
Proof.
  intros Hp. apply (tracker_safe rsi_seeded); [done| |apply observe_total, rsi_update_total].
  unfold rsi_new. destruct (Nat.ltb_spec 1 p); [|lia]. eexists. split; [done|]. unfold rsi_seeded. cbn. lia.
Qed.

Lemma sma_safe p : 0 < p → node_safe (SmaNode (D := D) p) SlotEmpty.
Proof. intros Hp. apply pure_safe; [done|]. unfold sma_new. destruct (Nat.ltb_spec 0 p); [by eexists | lia]. Qed.

Lemma ema_safe p : 0 < p → node_safe (EmaNode (D := D) p) SlotEmpty.
Proof. intros Hp. apply pure_safe; [done|]. unfold ema_new. destruct (Nat.ltb_spec 0 p); [by eexists | lia]. Qed.

Lemma wma_new_total p : 0 < p → ∃ t, wma_new (D := D) p = Done t.
Proof. intros Hp. unfold wma_new. destruct (Nat.ltb_spec 0 p); [by eexists | lia]. Qed.

Lemma hma_safe p : 4 ≤ p → node_safe (HmaNode (D := D) p) SlotEmpty.
Proof.
  intros Hp. apply pure_safe; [done|]. unfold hma_new. destruct (Nat.leb_spec 4 p); [|lia].
  destruct (wma_new_total (Nat.max (p / 2) 1)) as [? ->]; [lia|]. destruct (wma_new_total p) as [? ->]; [lia|].
  destruct (wma_new_total (Nat.max (rounded_sqrt p) 1)) as [? ->]; [lia|]. by eexists.
Qed.

Lemma atr_safe p : 0 < p → node_safe (AtrNode (D := D) p) SlotEmpty.
Proof.
  intros Hp. apply (tracker_safe (λ _, True)); [done| |].
  - unfold atr_new. destruct (Nat.ltb_spec 0 p); [by eexists | lia].
  - intros inputs t _. unfold atr_feed. destruct (number_at inputs 0), (number_at inputs 1), (number_at inputs 2); by eexists.
Qed.

Lemma bollinger_safe p k : 2 ≤ p → node_safe (BollingerNode (D := D) p k) SlotEmpty.
Proof.
  intros Hp. apply (tracker_safe (λ _, True)); [done| |].
  - unfold bollinger_new. destruct (Nat.ltb_spec 1 p); [by eexists | lia].
  - apply observe_total. intros x s _. by eexists.
Qed.

Lemma total_safe {T} `{!SlotType T} ins outs schema (f : Z → list Value → T → list Value * T) :
  node_safe (D := D) (stateful ins outs schema (λ now inputs t, Done (f now inputs t))) SlotEmpty.
Proof.
  apply (stateful_safe _ _ _ _ (λ _, True)); [done|]. intros now inputs t _. destruct (f now inputs t) as [vals t']. by exists vals, t'.
Qed.

Lemma plan_safe a : node_safe (AccumulateNode (D := D) a) SlotEmpty.
Proof.
  apply (stateful_safe _ _ _ _ (λ _, True)); [done|]. intros now inputs t _.
  destruct (accumulate_step a now inputs t) as [qs t']. by eexists _, t'.
Qed.

(** Every node an arm builds from a sound configuration is safe. *)
Definition arm_safe (k : string) (f : json → option (NodeKind NodeSlot)) : Prop :=
  ∀ c, sound_period k c → ∀ n, f c = Some n → node_safe n SlotEmpty.

Lemma plain_safe k n : node_safe n SlotEmpty → arm_safe k (plain n).
Proof. by intros Hn c _ m [= <-]. Qed.

Lemma conf_safe {A} k (parse : json → option A) mk :
  (∀ c x, sound_period k c → parse c = Some x → node_safe (mk x) SlotEmpty) → arm_safe k (conf parse mk).
Proof.
  intros H c Hs n. unfold conf. destruct (parse c) as [x|] eqn:E; [|done]. intros [= <-]. by eapply H.
Qed.

Ltac safe_node := lazymatch goal with
  | |- node_safe (Ewma _) _ => apply total_safe
  | |- node_safe (Garch _) _ => apply total_safe
  | |- node_safe (AccumulateNode _) _ => apply plan_safe
  | _ => first [apply stub_safe | apply stateless_safe]
  end.

Ltac safe_arm := cbn [fst snd]; first
  [ apply plain_safe; safe_node
  | apply conf_safe; intros c x (H1 & H2 & H3) Hx; cbn beta in *;
    lazymatch goal with
    | |- node_safe (SmaNode _) _ => apply sma_safe; by eapply parse_period_pos
    | |- node_safe (EmaNode _) _ => apply ema_safe; by eapply parse_period_pos
    | |- node_safe (AtrNode _) _ => apply atr_safe; by eapply parse_period_pos
    | |- node_safe (HmaNode _) _ => apply hma_safe; by eapply H1
    | |- node_safe (RsiNode _) _ => apply rsi_safe; by eapply H2
    | |- node_safe (uncurry BollingerNode _) _ => specialize (H3 eq_refl x Hx); destruct x; by apply bollinger_safe
    | |- node_safe (uncurry _ _) _ => destruct x; cbn [uncurry]; safe_node
    | _ => safe_node
    end ].

Lemma arms_safe : Forall (λ x, arm_safe x.1 x.2) arms.
Proof. unfold arms. repeat (apply Forall_cons; split; [safe_arm|]). apply Forall_nil. done. Qed.

#[export] Instance node_slot_laws : SlotLaws node_catalog.
Proof.
  refine {| sound_config := sound_period; slot_ok := node_safe |}.
  - intros k c n. cbn [build_kind fresh_state node_catalog]. unfold build_node.
    destruct (find_arm k arms) as [f|] eqn:E; [|done]. intros H Hs. apply find_arm_elem in E.
    pose proof arms_safe as Hall. rewrite Forall_forall in Hall. exact (Hall (k, f) E c Hs n H).
  - intros k c n now ins st _ _ (P & Hst & Hstep). destruct (Hstep now ins st Hst) as (vals & st' & E & H').
    exists vals, st'. split; [done|]. by exists P.
Defined.
End Safe.
