(* ===== verification/GraphSafety.v ===== *)
(** * Graphs over the program's own node kinds

    What the evaluator's theorems say once the catalog is the program's: which
    accepted graphs can panic, and which strategy overlays are lost. *)
From stdpp Require Import base gmap list strings.
From Stdlib Require Import ZArith Lia.
From S2P Require Import Prelude Decimal Bytes Json Graph Indicators Volatility Evaluator NodeBase SourceNodes Nodes Plan NodeCatalog.
Local Open Scope string_scope.
Local Open Scope nat_scope.
Local Open Scope list_scope.

Section Safety.
Context {D : Decimal} {J : Json} {JD : JsonDecimal (D := D) (J := J)} {DT : DecimalText} {F : FloatRoutes}.
Context {JL : JsonLaws J} {I : HashMapIter}.

(** A configuration that parses to a period its indicator's constructor refuses. *)
Definition short_period (k : string) (c : json) : bool :=
  let below n p := match p with Some p => p <? n | None => false end in
  if bool_decide (k = "Indicator.HMA") then below 4 (parse_period 14 c)
  else if bool_decide (k = "Indicator.RSI") then below 2 (parse_period 14 c)
  else if bool_decide (k = "Indicator.Bollinger") then below 2 (fst <$> Bollinger_from_config c)
  else false.

Lemma sound_not_short k c : short_period k c = false → sound_period k c.
Proof.
  unfold short_period, sound_period. intros H. repeat split; intros -> p Hp;
    repeat (case_bool_decide; [|done]); repeat (case_bool_decide; [done|]); rewrite Hp in H; by apply Nat.ltb_ge in H.
Qed.

Lemma short_kind k c : short_period k c = true →
  (k = "Indicator.HMA" ∧ ∃ p, parse_period 14 c = Some p ∧ p < 4) ∨
  (k = "Indicator.RSI" ∧ ∃ p, parse_period 14 c = Some p ∧ p < 2) ∨
  (k = "Indicator.Bollinger" ∧ ∃ p w, Bollinger_from_config c = Some (p, w) ∧ p < 2).
Proof.
  unfold short_period. repeat case_bool_decide; subst; [| | |done].
  - left. split; [done|]. destruct (parse_period 14 c) as [p|]; [|done]. exists p. split; [done|]. by apply Nat.ltb_lt.
  - right; left. split; [done|]. destruct (parse_period 14 c) as [p|]; [|done]. exists p. split; [done|]. by apply Nat.ltb_lt.
  - right; right. split; [done|]. destruct (Bollinger_from_config c) as [[p w]|]; [|done]. exists p, w.
    split; [done|]. by apply Nat.ltb_lt.
Qed.

Lemma hma_arm : find_arm "Indicator.HMA" arms = Some (conf (parse_period 14) HmaNode).
Proof. reflexivity. Qed.
Lemma rsi_arm : find_arm "Indicator.RSI" arms = Some (conf (parse_period 14) RsiNode).
Proof. reflexivity. Qed.
Lemma bollinger_arm : find_arm "Indicator.Bollinger" arms = Some (conf Bollinger_from_config (uncurry BollingerNode)).
Proof. reflexivity. Qed.

(** The constructor's assertion fails at the node's first evaluation. *)
Lemma short_panics k c n now ins : short_period k c = true → build_node k c = Some n →
  evaluate n now ins SlotEmpty = Panicked.
Proof.
  intros [(-> & p & Hp & Hlt)|[(-> & p & Hp & Hlt)|(-> & p & w & Hp & Hlt)]]%short_kind; unfold build_node;
    rewrite ?hma_arm, ?rsi_arm, ?bollinger_arm; cbn [mbind option_bind]; unfold conf; rewrite Hp; intros [= <-];
    cbn; unfold indicator_step, guarded; cbn.
  - unfold hma_new. by rewrite (proj2 (Nat.leb_gt 4 p)) by lia.
  - unfold rsi_new. by rewrite (proj2 (Nat.ltb_ge 1 p)) by lia.
  - unfold bollinger_new. by rewrite (proj2 (Nat.ltb_ge 1 p)) by lia.
Qed.

Context (allow_restricted : bool) (fresh_id : NodeId) (g : Graph).
Abbreviation running := (evaluating (C := node_catalog) allow_restricted fresh_id g).

Definition short_node (n : Node) : Prop := short_period (n_kind n) (n_config n) = true.

(** A freshly built evaluator with a short period panics at its first tick. *)
Lemma short_first_tick e n now src : build allow_restricted fresh_id g = Done (Ok e) → n ∈ nodes g → short_node n →
  tick e now src = Panicked.
Proof.
  intros Hb Hn Hs. pose proof (build_compiled _ _ _ _ Hb) as Hc.
  unfold build in Hb. destruct (validate _ _ _ g) as [[t|]|]; try done. injection Hb as Hadd.
  destruct (add_nodes_spec _ _ _ n Hadd (wf_ids _ _ _ (co_wf _ _ _ Hc)) Hn) as (built & Hk & Hnode & _ & _ & Hst & _).
  unfold tick. destruct (tick_with_full_trace e now src) as [r|] eqn:E; [exfalso|done].
  destruct (tick_solves allow_restricted g e Hc now src r E) as (outs & m & _ & Hsol & _).
  assert (Hid : n_id n ∈ ev_order e) by (rewrite (co_order _ _ _ Hc); by apply list_elem_of_fmap_2).
  destruct (Hsol _ Hid) as [[? Hv] Heq]. rewrite Hv in Heq. unfold node_values, node_run in Heq.
  rewrite Hnode, Hst in Heq. cbn [mbind option_bind] in Heq. unfold produce in Heq.
  rewrite (short_panics _ _ _ now _ Hs Hk) in Heq. done.
Qed.

(** A graph the validator accepts panics at a tick exactly when one of its
    HMA, RSI or Bollinger nodes carries a period below the minimum of its
    indicator's constructor, which the node's configuration parser does not
    check; every other graph returns at every tick, for any inputs, with an
    evaluator that can tick again. *)
Theorem panics_iff_short_period e now src : running e →
  (tick e now src = Panicked ↔ ∃ n, n ∈ nodes g ∧ short_node n) ∧
  ((∀ n, n ∈ nodes g → ¬ short_node n) → ∃ sinks e', tick e now src = Done (sinks, e') ∧ running e').
Proof.
  intros He. assert (Hfine : (∀ n, n ∈ nodes g → ¬ short_node n) →
    ∃ sinks e', tick e now src = Done (sinks, e') ∧ running e').
  { intros Hno. apply tick_total; [|done]. intros n Hn. apply sound_not_short.
    apply not_true_is_false. by apply Hno. }
  split; [|done]. split.
  - intros Hp. destruct (decide (Exists short_node (nodes g))) as [H|H].
    + by apply Exists_exists in H.
    + rewrite <- Forall_Exists_neg, Forall_forall in H. destruct (Hfine H) as (? & ? & E & _). congruence.
  - intros (n & Hn & Hs). destruct He as [e Hb|e0 now0 src0 sinks e He0 Ht]; [by eapply short_first_tick|].
    exfalso. clear Hfine. revert now0 src0 sinks e Ht. induction He0 as [e0 Hb|e1 now1 src1 sinks1 e0 He1 IH Ht1];
      intros now0 src0 sinks e Ht; [|by eapply IH].
    rewrite (short_first_tick e0 n now0 src0 Hb Hn Hs) in Ht. done.
Qed.

(** ** The pentest kinds *)

(** The kinds that reproduce manipulative patterns. *)
Definition pentest_kinds : list string :=
  ["Strategy.Spoof"; "Strategy.Wash"; "Strategy.Ignite"; "Strategy.Mark"; "Strategy.Layer"; "Strategy.Stuff";
   "Strategy.CrossMarket"; "Strategy.LatencyHunt"; "Strategy.RebateFarm"; "Strategy.Imbalance";
   "Strategy.ReactCancel"; "Strategy.OneSided"; "Strategy.InvPush"; "Strategy.NonFill"; "Strategy.PumpAndDump";
   "Strategy.LiquidationHunt"; "Strategy.LeverageBuilder"; "Strategy.CampaignOrchestrator";
   "Strategy.CascadeHunter"; "Strategy.BasketPush"].

Definition arm_gated (k : string) (f : json → option (NodeKind (D := D) NodeSlot)) : Prop :=
  ∀ c n, f c = Some n → restricted n = bool_decide (k ∈ pentest_kinds).

Lemma arms_gated : Forall (λ x, arm_gated x.1 x.2) arms.
Proof.
  unfold arms. repeat (apply Forall_cons; split).
  all: try (intros c n; cbn [fst snd]; first [intros [= <-]; vm_compute; reflexivity
    | unfold conf; match goal with |- (_ <$> ?x) = _ → _ => destruct x as [y|]; [|discriminate] end;
      intros [= <-]; try destruct y; vm_compute; reflexivity]).
  apply Forall_nil. done.
Qed.

Lemma build_gated k c n : build_node k c = Some n → restricted n = bool_decide (k ∈ pentest_kinds).
Proof.
  unfold build_node. destruct (find_arm k arms) as [f|] eqn:E; [|done]. cbn [mbind option_bind]. intros H.
  apply find_arm_elem in E. pose proof arms_gated as Hall. rewrite Forall_forall in Hall. exact (Hall (k, f) E c n H).
Qed.

(** C29: a graph accepted without the restricted permission contains none of
    the pentest kinds. *)
Theorem pentest_gate e : build (C := node_catalog) false fresh_id g = Done (Ok e) →
  ∀ n, n ∈ nodes g → n_kind n ∉ pentest_kinds.
Proof.
  intros Hb n Hn Hin. pose proof (co_wf _ _ _ (build_compiled _ _ _ _ Hb)) as Hw.
  destruct (wf_nodes _ _ _ Hw n Hn) as (s & Hs & Hr & _). unfold shape in Hs. cbn [build_kind node_catalog] in Hs.
  destruct (build_node (n_kind n) json_null) as [m|] eqn:Em; [|done]. injection Hs as <-.
  apply build_gated in Em. rewrite bool_decide_true in Em by done. cbn in Hr. by apply Hr in Em.
Qed.

(** ** The palette *)
Lemma arm_names : bool_decide (NoDup kind_names) = true ∧ (∀ k, k ∈ arms.*1 ↔ k ∈ kind_names).
Proof.
  split; [vm_compute; reflexivity|]. intros k.
  assert (H : bool_decide (list_to_set (C := gset string) arms.*1 = list_to_set kind_names) = true)
    by (vm_compute; reflexivity).
  apply bool_decide_eq_true in H. by rewrite <- !(elem_of_list_to_set (C := gset string)), H.
Qed.

Lemma find_arm_some k l : k ∈ l.*1 → is_Some (find_arm (D := D) k l).
Proof.
  induction l as [|[k' f] l IH]; [by intros ?%elem_of_nil|]. cbn [fmap list_fmap fst find_arm].
  intros Hk. case_bool_decide; [by eexists|]. apply IH. by apply elem_of_cons in Hk as [->|].
Qed.

Lemma build_listed k c n : build_node k c = Some n → k ∈ kind_names.
Proof.
  unfold build_node. destruct (find_arm k arms) as [f|] eqn:E; [|done]. intros _. apply arm_names.
  apply find_arm_elem in E. by apply (list_elem_of_fmap_2 fst) in E.
Qed.

Lemma omap_fst_sublist {A B} (f : A → option B) l : (omap (λ k, (λ s, (k, s)) <$> f k) l).*1 `sublist_of` l.
Proof.
  induction l as [|k l IH]; [done|]. simpl. destruct (f k); [by apply sublist_skip | by apply sublist_cons].
Qed.

(** The palette is the catalog: it lists each kind [build] knows once, no
    other, and every node of a kind, whatever its configuration, has the ports
    and the restriction the palette shows for it. *)
Theorem palette_exact :
  NoDup kinds.*1 ∧ (∀ k, k ∈ kinds.*1 ↔ ∃ c n, build_node k c = Some n) ∧
  ∀ k c n, build_node k c = Some n → ∃ s, (k, s) ∈ kinds ∧ ks_inputs s = input_ports n ∧
    ks_outputs s = output_ports n ∧ ks_restricted s = restricted n.
Proof.
  assert (Hin : ∀ k s, (k, s) ∈ kinds ↔ k ∈ kind_names ∧ shape (C := node_catalog) k = Some s).
  { intros k s. unfold kinds. rewrite list_elem_of_omap. split.
    - intros (k' & Hk' & E). destruct (shape k') as [s'|] eqn:Es; [|discriminate E].
      injection E as <- <-. split; assumption.
    - intros [Hk Hs]. exists k. rewrite Hs. split; [exact Hk | reflexivity]. }
  assert (Hsome : ∀ k c n, build_node k c = Some n → ∃ s, (k, s) ∈ kinds ∧ ks_inputs s = input_ports n ∧
    ks_outputs s = output_ports n ∧ ks_restricted s = restricted n).
  { intros k c n H. destruct (build_node_ok k c n H) as (_ & n0 & H0 & Hi & Ho).
    exists (mkKindShape (input_ports n0) (output_ports n0) (restricted n0) (config_schema n0)).
    split; [|split; [symmetry; exact Hi | split; [symmetry; exact Ho|]]];
      [|rewrite (build_gated _ _ _ H); by apply (build_gated k json_null)].
    apply Hin. split; [by eapply build_listed|]. unfold shape. cbn [build_kind node_catalog]. by rewrite H0. }
  split; [|split; [|done]].
  - eapply sublist_NoDup; [|apply omap_fst_sublist]. eapply bool_decide_eq_true. apply arm_names.
  - intros k. split.
    + intros ([k' s] & -> & [_ Hs]%Hin)%list_elem_of_fmap. unfold shape in Hs. cbn [build_kind node_catalog] in Hs.
      destruct (build_node k' json_null) as [n|] eqn:E; [|done]. by exists json_null, n.
    + intros (c & n & H). destruct (Hsome k c n H) as (s & Hs & _). by apply (list_elem_of_fmap_2 fst) in Hs.
Qed.

(** ** Overlays *)

(** The kinds whose node is a stub with input ports. *)
Lemma hunt_arm : find_arm "Strategy.LiquidationHunt" arms = Some (plain LiquidationHunt).
Proof. reflexivity. Qed.

(** Whatever quotes the engine feeds a [Strategy.LiquidationHunt] node, the
    node's output in the trace of any tick is [Missing]: the node declares input
    ports, so the evaluator takes it for a transform, on which the engine's
    overlay is never applied. *)
Theorem hunt_is_mute e now src sinks t e' x : running e → tick_with_full_trace e now src = Done (sinks, t, e') →
  x ∈ t → ex_kind x = "Strategy.LiquidationHunt" → ex_outputs x = [("quotes", ValMissing)].
Proof.
  intros He%evaluating_compiled Ht Hx Hk.
  destruct (tick_solves allow_restricted g e He now src _ Ht) as (outs & m & [= _ -> _] & _ & _).
  apply list_elem_of_omap in Hx as (id & Hid & Hx). unfold node_exec in Hx.
  destruct (node_run e now src outs id) as [[built [vals st]]|] eqn:Er; [|done]. injection Hx as <-.
  cbn [ex_kind ex_outputs] in *. apply node_run_built in Er as Hb.
  destruct (co_built allow_restricted g e He id built Hb Hid) as (n & _ & _ & Hbk & Hkind & Hio).
  rewrite Hkind in Hk. cbn in Hk. rewrite Hk in Hbk. cbn [build_kind node_catalog] in Hbk. unfold build_node in Hbk.
  rewrite hunt_arm in Hbk. injection Hbk as <-. unfold node_run in Er. rewrite Hb in Er. cbn [mbind option_bind] in Er.
  destruct (ev_states e !! id) as [s|]; [|done]. cbn [mbind option_bind] in Er. unfold produce, is_source in Er.
  rewrite Hio in Er. by injection Er as <- <-.
Qed.
End Safety.

(** ** Closed examples *)
Module Demo.
#[local] Existing Instance tree_json.
#[local] Existing Instance tree_decimal.
#[local] Existing Instance tree_json_laws.
#[local] Instance floats : FloatRoutes (D := Qc_decimal) := {| pow_f64 b _ := b; sqrt_f64 d := d |}.

Definition chain (kind : string) (port out : string) (config : tree_value) : Graph (J := tree_json) :=
  mkGraph 1 "demo" ScopeGlobal
    [mkNode 1 "Math.Const" (TObject [("value", TText "2")]); mkNode 2 kind config; mkNode 3 "Out.SpreadMult" TNull]
    [mkEdge (mkPortRef 1 "value") (mkPortRef 2 port); mkEdge (mkPortRef 2 out) (mkPortRef 3 "mult")] 30000.

Definition short_hma : Graph (J := tree_json) := chain "Indicator.HMA" "x" "out" (TObject [("period", TInt 3)]).
Definition long_sma : Graph (J := tree_json) := chain "Indicator.SMA" "x" "out" (TObject [("period", TInt 1)]).

Definition hunting : Graph (J := tree_json) :=
  mkGraph 1 "demo" ScopeGlobal
    [mkNode 1 "Math.Const" (TObject [("value", TText "2")]); mkNode 2 "Strategy.LiquidationHunt" TNull;
     mkNode 3 "Out.SpreadMult" TNull; mkNode 4 "Out.Quotes" TNull]
    [mkEdge (mkPortRef 1 "value") (mkPortRef 3 "mult"); mkEdge (mkPortRef 2 "quotes") (mkPortRef 4 "quotes")] 30000.

Abbreviation Ev := (Evaluator (C := node_catalog (J := tree_json))).
Definition compile (allow : bool) (g : Graph (J := tree_json)) : option Ev :=
  match build allow 0%N g with Done (Ok e) => Some e | _ => None end.
Definition first_tick (allow : bool) (g : Graph (J := tree_json)) : option (outcome (list SinkAction * list NodeExec * Ev)) :=
  (λ e, tick_with_full_trace e 0%Z {[ (2%N, "quotes") := ValQuotes [mkGraphQuote QuoteBuy (dlit 1 0) (dlit 1 0)] ]})
    <$> compile allow g.

Lemma compile_running allow g e : compile allow g = Some e → evaluating allow 0%N g e.
Proof. unfold compile. intros H. apply ev_built. by destruct (build allow 0%N g) as [[e'|]|]; simplify_eq. Qed.

Definition accepted (allow : bool) (g : Graph (J := tree_json)) : bool := bool_decide (is_Some (compile allow g)).
Definition ticks (allow : bool) (g : Graph (J := tree_json)) : bool :=
  match first_tick allow g with Some (Done _) => true | _ => false end.

(** Both graphs pass the validation; the first panics at its first tick. *)
Lemma panics_iff_short_period_witness :
  accepted false short_hma = true ∧ ticks false short_hma = false ∧ ticks false long_sma = true ∧
  ∃ e, compile false short_hma = Some e ∧ tick e 0%Z ∅ = Panicked.
Proof.
  assert (Ha : accepted false short_hma = true) by (vm_compute; reflexivity).
  split; [exact Ha|]. split; [vm_compute; reflexivity|]. split; [vm_compute; reflexivity|].
  apply bool_decide_eq_true in Ha as [e He]. exists e. split; [exact He|].
  apply (panics_iff_short_period false 0%N short_hma e 0%Z ∅ (compile_running _ _ _ He)).
  exists (mkNode (J := tree_json) 2 "Indicator.HMA" (TObject [("period", TInt 3)])). split; [right; left|]. vm_compute. reflexivity.
Defined.

Lemma pentest_gate_witness : accepted false long_sma = true ∧ accepted false hunting = false ∧
  accepted true hunting = true ∧ bool_decide ("Strategy.LiquidationHunt" ∈ n_kind <$> nodes hunting) = true ∧
  Forall (λ n, n_kind n ∉ pentest_kinds) (nodes long_sma).
Proof.
  assert (Ha : accepted false long_sma = true) by (vm_compute; reflexivity).
  split; [exact Ha|]. split; [vm_compute; reflexivity|]. split; [vm_compute; reflexivity|].
  split; [vm_compute; reflexivity|].
  apply bool_decide_eq_true in Ha as [e He]. apply Forall_forall. apply (pentest_gate 0%N long_sma e).
  unfold compile in He. destruct (build false 0%N long_sma) as [[e'|]|]; [congruence | discriminate He..].
Defined.

Lemma palette_exact_witness : NoDup (kinds (J := tree_json)).*1 ∧ length (kinds (J := tree_json)) = 132 ∧
  "Plan.Accumulate" ∈ (kinds (J := tree_json)).*1.
Proof.
  destruct (palette_exact (J := tree_json)) as (H1 & H2 & _). split; [exact H1|]. split; [vm_compute; reflexivity|].
  apply H2. exists TNull. eexists. reflexivity.
Defined.

(** The trace of the fed node. *)
Definition hunted : list NodeExec :=
  match first_tick true hunting with
  | Some (Done (_, tr, _)) => List.filter (λ x, bool_decide (ex_kind x = "Strategy.LiquidationHunt")) tr
  | _ => []
  end.

Lemma hunt_is_mute_witness : length hunted = 1 ∧ Forall (λ x, ex_outputs x = [("quotes", ValMissing)]) hunted.
Proof.
  split; [vm_compute; reflexivity|]. unfold hunted, first_tick. destruct (compile true hunting) as [e|] eqn:E; [|constructor].
  cbn [fmap option_fmap option_map]. destruct (tick_with_full_trace e _ _) as [[[sinks tr] e']|] eqn:Et; [|constructor].
  apply Forall_forall. intros x [Hx Hk%bool_decide_eq_true]%list_elem_of_In%filter_In.
  apply list_elem_of_In in Hx.
  exact (hunt_is_mute true 0%N hunting e 0%Z _ sinks tr e' x (compile_running _ _ _ E) Et Hx Hk).
Defined.
End Demo.
