(* ===== verification/GraphReplay.v ===== *)
(** * Replay of captured ticks on a candidate graph ([crates/agent/src/graph_replay.rs])

    The traces of a deployment are fed to a candidate evaluator, source values
    by node kind, and the ticks on which the two differ are reported with the
    kinds of node that differ. The JSON envelope of the answer is a record. *)
From stdpp Require Import base gmap sets list strings sorting pretty.
From Stdlib Require Import ZArith Lia.
From S2P Require Import Prelude Decimal Bytes Json Graph Evaluator.
Local Open Scope string_scope.
Local Open Scope nat_scope.
Local Open Scope list_scope.

Section Replay.
Context {D : Decimal} {J : Json} {I : HashMapIter} {DT : DecimalText} {C : Catalog D J}.

(** [serde_json::to_string] of values and actions. *)
Context (show_value : Value → string) (show_action : SinkAction → string).

Record TickTrace := mkTickTrace {
  tick_ms : Z;
  tick_num : Z;
  trace_nodes : list NodeExec;
  sinks_fired : list SinkAction;
}.

Record Divergence := mkDivergence {
  dv_tick_num : Z;
  dv_tick_ms : Z;
  original_sinks : list SinkAction;
  replay_sinks : list SinkAction;
  diverging_kinds : list string;
}.

Record ReplayPayload := mkReplayPayload {
  summary : string;
  ticks_replayed : nat;
  divergence_count : nat;
  divergences : list Divergence;
  candidate_issues : list string;
}.

(** [entry(key).or_default().push(s)] for each output of the nodes that are not sources. *)
Definition non_source_outputs (t : list NodeExec) : list ((string * string) * string) :=
  x ← List.filter (λ x, negb (is_source_exec x)) t;
  (λ o, ((ex_kind x, o.1), show_value o.2)) <$> ex_outputs x.

Definition push_output (m : gmap (string * string) (list string)) (o : (string * string) * string) :
    gmap (string * string) (list string) :=
  <[o.1 := default [] (m !! o.1) ++ [o.2]]> m.

Definition collect (t : list NodeExec) : gmap (string * string) (list string) :=
  sort_by string_leb <$> fold_left push_output (non_source_outputs t) ∅.

Definition compute_diverging_kinds (deployed candidate : list NodeExec) : list string :=
  let dep := collect deployed in
  let can := collect candidate in
  sort_dedup
    (omap (λ x, if bool_decide (can !! x.1 = Some x.2) then None else Some x.1.1) (map_to_list dep) ++
     omap (λ x, if dep !! x.1 then None else Some x.1.1) (map_to_list can)).

Definition action_set (sinks : list SinkAction) : gset string := list_to_set (show_action <$> sinks).

(** One trace: the replayed tick and the report, [EvalCtx::default()] being time 0. *)
Definition replay_tick (e : Evaluator) (t : TickTrace) : outcome (option Divergence * Evaluator) :=
  let src := replay_source_inputs e (source_kind_values (trace_nodes t)) in
  match tick_with_full_trace e 0%Z src with
  | Panicked => Panicked
  | Done (sinks, trace, e') =>
      let kinds := compute_diverging_kinds (trace_nodes t) trace in
      Done (if bool_decide (action_set sinks = action_set (sinks_fired t)) && bool_decide (kinds = [])
            then None
            else Some (mkDivergence (tick_num t) (tick_ms t) (sinks_fired t) sinks kinds), e')
  end.

Fixpoint replay_all (e : Evaluator) (ts : list TickTrace) : outcome (list Divergence * Evaluator) :=
  match ts with
  | [] => Done ([], e)
  | t :: ts =>
      match replay_tick e t with
      | Panicked => Panicked
      | Done (d, e') =>
          match replay_all e' ts with
          | Panicked => Panicked
          | Done (ds, e'') => Done (option_list d ++ ds, e'')
          end
      end
  end.

Definition replay_summary (symbol : string) (ticks diverging : nat) : string :=
  if (ticks =? 0)%nat then "no traces for " +:+ symbol +:+ " — deployment may not have ticked yet"
  else if (diverging =? 0)%nat
  then pretty (Z.of_nat ticks) +:+ " tick(s) replayed · candidate matches deployed behaviour"
  else pretty (Z.of_nat ticks) +:+ " tick(s) replayed · candidate diverges on " +:+
       pretty (Z.of_nat diverging) +:+ " tick(s)".

Definition compute_replay_payload (symbol : string) (original_traces : list TickTrace) (e : Evaluator) :
    outcome (ReplayPayload * Evaluator) :=
  match replay_all e original_traces with
  | Panicked => Panicked
  | Done (ds, e') =>
      Done (mkReplayPayload (replay_summary symbol (length original_traces) (length ds))
              (length original_traces) (length ds) ds [], e')
  end.

(** A deployment's run: the traces the engine captured, oldest first. *)
Fixpoint run_ticks (e : Evaluator) (hist : list (Z * gmap (NodeId * string) Value)) :
    outcome (list TickTrace * Evaluator) :=
  match hist with
  | [] => Done ([], e)
  | (now, src) :: hist =>
      match tick_with_full_trace e now src with
      | Panicked => Panicked
      | Done (sinks, trace, e') =>
          match run_ticks e' hist with
          | Panicked => Panicked
          | Done (ts, e'') => Done (mkTickTrace now (Z.of_nat (length hist)) trace sinks :: ts, e'')
          end
      end
  end.
End Replay.

(** ** Which ticks are reported *)
Section Report.
Context {D : Decimal} {J : Json} {I : HashMapIter} {DT : DecimalText} {C : Catalog D J}.
Context (show_value : Value → string) (show_action : SinkAction → string).

(** The printed values of the nodes of a kind at a port. *)
Definition printed (t : list NodeExec) (k : string * string) : list string :=
  (filter (λ o, o.1 = k) (non_source_outputs show_value t)).*2.

Lemma push_outputs_lookup os m k :
  default [] (fold_left push_output os m !! k) = default [] (m !! k) ++ (filter (λ o, o.1 = k) os).*2 ∧
  (is_Some (fold_left push_output os m !! k) ↔ is_Some (m !! k) ∨ (filter (λ o, o.1 = k) os) ≠ []).
Proof.
  revert m. induction os as [|[k' v] os IH]; intros m; cbn [fold_left].
  { rewrite app_nil_r. split; [done|]. simpl. naive_solver. }
  destruct (IH (push_output m (k', v))) as [H1 H2]. rewrite H1, H2. unfold push_output. cbn [fst snd].
  rewrite filter_cons. cbn [fst]. case_decide as E.
  - subst k'. rewrite lookup_insert_eq. cbn. rewrite <- app_assoc. split; [done|]. naive_solver.
  - rewrite lookup_insert_ne by done. done.
Qed.

Lemma collect_lookup t k : collect show_value t !! k =
  match printed t k with [] => None | vs => Some (sort_by string_leb vs) end.
Proof.
  unfold collect. rewrite lookup_fmap. destruct (push_outputs_lookup (non_source_outputs show_value t) ∅ k) as [H1 H2].
  rewrite lookup_empty in H1, H2. cbn in H1. unfold printed.
  destruct (fold_left push_output _ ∅ !! k) as [vs|] eqn:E; cbn in *.
  - rewrite H1. destruct (proj1 H2) as [[? ?]|Hne]; [by eauto|done|].
    destruct (filter _ _); [done|]. done.
  - destruct (filter (λ o, o.1 = k) _) as [|o os]; [done|]. exfalso.
    destruct (proj2 H2) as [? ?]; [by right|done].
Qed.

Lemma collect_agree t1 t2 k :
  collect show_value t1 !! k = collect show_value t2 !! k ↔ printed t1 k ≡ₚ printed t2 k.
Proof.
  rewrite !collect_lookup. split.
  - intros E. rewrite <- (sort_by_perm string_leb (printed t1 k)), <- (sort_by_perm string_leb (printed t2 k)).
    by destruct (printed t1 k), (printed t2 k); simplify_eq; try by rewrite ?E.
  - intros Hp. assert (E : sort_by string_leb (printed t1 k) = sort_by string_leb (printed t2 k)) by by apply sort_strings_unique.
    destruct (printed t1 k), (printed t2 k); try done.
    + by apply Permutation_nil_cons in Hp.
    + symmetry in Hp. by apply Permutation_nil_cons in Hp.
    + by rewrite E.
Qed.

Lemma diverging_elem t1 t2 kind : kind ∈ compute_diverging_kinds show_value t1 t2 ↔
  ∃ port, ¬ printed t1 (kind, port) ≡ₚ printed t2 (kind, port).
Proof.
  unfold compute_diverging_kinds. rewrite sort_dedup_elem, elem_of_app, !list_elem_of_omap. split.
  - intros [([[k p] vs] & Hin%elem_of_map_to_list & Hk)|([[k p] vs] & Hin%elem_of_map_to_list & Hk)]; cbn in *.
    + case_bool_decide as E; [done|]. injection Hk as ->. exists p. rewrite <- collect_agree. congruence.
    + destruct (collect show_value t1 !! (k, p)) eqn:E; [done|]. injection Hk as ->.
      exists p. rewrite <- collect_agree. congruence.
  - intros (p & Hne). rewrite <- collect_agree in Hne.
    destruct (collect show_value t1 !! (kind, p)) as [vs|] eqn:E1.
    + left. exists ((kind, p), vs). rewrite elem_of_map_to_list. split; [done|]. cbn.
      rewrite bool_decide_false; [done|]. congruence.
    + right. destruct (collect show_value t2 !! (kind, p)) as [vs|] eqn:E2; [|done].
      exists ((kind, p), vs). rewrite elem_of_map_to_list. cbn. by rewrite E1.
Qed.

(** A replayed tick is reported exactly when it differs, and the report
    names exactly the kinds that differ. Two runs of a tick agree when they
    fire the same set of actions and every kind of node that is not a source
    puts out, port by port, the same printed values as a multiset; the names
    are listed in order without repetition. *)
Theorem divergence_exact e t d e' : replay_tick show_value show_action e t = Done (d, e') →
  ∃ sinks trace, tick_with_full_trace e 0%Z (replay_source_inputs e (source_kind_values (trace_nodes t))) =
      Done (sinks, trace, e') ∧
    (d = None ↔ action_set show_action sinks = action_set show_action (sinks_fired t) ∧
      ∀ k, printed (trace_nodes t) k ≡ₚ printed trace k) ∧
    ∀ r, d = Some r → replay_sinks r = sinks ∧ original_sinks r = sinks_fired t ∧
      NoDup (diverging_kinds r) ∧
      ∀ kind, kind ∈ diverging_kinds r ↔
        ∃ port, ¬ printed (trace_nodes t) (kind, port) ≡ₚ printed trace (kind, port).
Proof.
  unfold replay_tick. destruct (tick_with_full_trace _ _ _) as [[[sinks trace] e1]|] eqn:E; [|done].
  intros [= Hd <-]. exists sinks, trace. split; [done|].
  assert (Hk : compute_diverging_kinds show_value (trace_nodes t) trace = [] ↔
    ∀ k, printed (trace_nodes t) k ≡ₚ printed trace k).
  { split.
    - intros Hnil [kind port]. destruct (decide (printed (trace_nodes t) (kind, port) ≡ₚ printed trace (kind, port)))
        as [|Hn]; [done|]. assert (Hin : kind ∈ compute_diverging_kinds show_value (trace_nodes t) trace)
        by (apply diverging_elem; by exists port). rewrite Hnil in Hin. by apply elem_of_nil in Hin.
    - intros H. apply elem_of_nil_inv. intros kind (port & Hn)%diverging_elem. by apply Hn. }
  rewrite <- Hk. repeat case_bool_decide; simpl in Hd; subst d; (split; [naive_solver|]); intros r [= <-]; cbn;
    (do 2 (split; [done|])); (split; [apply sort_dedup_NoDup|]); intros kind; by rewrite diverging_elem.
Qed.
End Report.

(** ** A graph replayed on itself *)
Lemma hm_collect_unique {K V : Type} `{Countable K} (l : list (K * V)) k v :
  (k, v) ∈ l → (∀ v', (k, v') ∈ l → v' = v) → hm_collect l !! k = Some v.
Proof.
  unfold hm_collect. generalize (∅ : gmap K V) as m. induction l as [|[k' v'] l IH] using rev_ind; intros m.
  { by intros ?%elem_of_nil. }
  rewrite fold_left_app. cbn. intros Hin Huniq. destruct (decide (k = k')) as [<-|Hne].
  - rewrite lookup_insert_eq. f_equal. apply Huniq. apply elem_of_app. right. by left.
  - rewrite lookup_insert_ne by done. apply IH.
    + apply elem_of_app in Hin as [?|[= ? ?]%list_elem_of_singleton]; congruence.
    + intros w Hw. apply Huniq, elem_of_app. by left.
Qed.

Section Self.
Context {D : Decimal} {J : Json} {I : HashMapIter} {DT : DecimalText} {C : Catalog D J} {L : CatalogLaws C}.
Context (show_value : Value → string) (show_action : SinkAction → string).
Context (allow_restricted : bool) (g : Graph).

(** No node reads the clock. *)
Definition time_free (e : Evaluator) : Prop := ∀ id n now now' ins st,
  ev_nodes e !! id = Some n → evaluate n now ins st = evaluate n now' ins st.

(** The engine feeds source nodes only, and no kind it feeds occurs twice. *)
Definition source_fed (e : Evaluator) (src : gmap (NodeId * string) Value) : Prop := ∀ id port kind,
  is_Some (src !! (id, port)) → ev_kinds e !! id = Some kind →
  id ∈ source_nodes e ∧ (kind_count e kind ≤ 1)%nat.

Section Tick.
Context (e : Evaluator) (He : compiled allow_restricted g e) (now : Z) (src : gmap (NodeId * string) Value).
Context (Htime : time_free e) (Hfed : source_fed e src).
Context (outs : gmap NodeId (gmap string Value)) (Hs : solution e now src outs).

Let trace := omap (node_exec e now src outs) (ev_order e).
Let src' := replay_source_inputs e (source_kind_values trace).

Lemma source_nodes_elem id : id ∈ source_nodes e ↔ id ∈ ev_order e ∧ is_source e id = true.
Proof.
  unfold source_nodes. rewrite list_elem_of_filter. split.
  - intros [E Hin]. unfold is_source. by rewrite E.
  - intros [Hin Hsrc]. destruct (co_node _ _ _ He id Hin) as (n & b & _ & _ & _ & _ & _ & Hio & _).
    unfold is_source in Hsrc. rewrite Hio in *. simpl in *. by destruct (input_ports b).*1.
Qed.

(** Two source nodes of a kind that occurs once are the same. *)
Lemma kind_once id1 id2 kind : id1 ∈ source_nodes e → id2 ∈ source_nodes e → ev_kinds e !! id1 = Some kind →
  ev_kinds e !! id2 = Some kind → (kind_count e kind ≤ 1)%nat → id1 = id2.
Proof.
  intros H1 H2 K1 K2. unfold kind_count.
  assert (I1 : id1 ∈ filter (λ id, ev_kinds e !! id = Some kind) (source_nodes e)) by by apply list_elem_of_filter.
  assert (I2 : id2 ∈ filter (λ id, ev_kinds e !! id = Some kind) (source_nodes e)) by by apply list_elem_of_filter.
  destruct (filter _ (source_nodes e)) as [|x [|y l]]; simpl; [by apply elem_of_nil in I1| |lia].
  apply list_elem_of_singleton in I1, I2. congruence.
Qed.

(** The value a source of a kind that occurs once put out. *)
Lemma source_value id built vals st kind port v : id ∈ ev_order e → is_source e id = true →
  node_run e now src outs id = Some (built, (vals, st)) → ev_kinds e !! id = Some kind →
  (kind_count e kind ≤ 1)%nat → (port, v) ∈ output_pairs built vals →
  source_kind_values trace !! (kind, port) = Some v.
Proof.
  intros Hid Hsrc Hr Hk Hone Hv. apply hm_collect_unique.
  - apply list_elem_of_bind. eexists. split.
    2:{ apply list_elem_of_In, filter_In. split; [apply list_elem_of_In, list_elem_of_omap; exists id; split; [done|]|].
        - unfold node_exec. rewrite Hr. reflexivity.
        - cbn. by rewrite Hsrc. }
    cbn. rewrite Hk. by apply (list_elem_of_fmap_2 (λ o : string * Value, ((kind, o.1), o.2)) _ (port, v)).
  - intros w (x & Hin & Hx)%list_elem_of_bind. apply list_elem_of_In, filter_In in Hx as [Hx Hst].
    apply list_elem_of_In, list_elem_of_omap in Hx as (id2 & Hid2 & Hex). unfold node_exec in Hex.
    destruct (node_run e now src outs id2) as [[b2 [vals2 st2]]|] eqn:Er; [|done]. injection Hex as <-. cbn in Hin, Hst.
    apply list_elem_of_fmap in Hin as ([p2 v2] & [= Hk2 -> ->] & Hin).
    destruct (is_source e id2) eqn:Hs2; [|done].
    destruct (co_node _ _ _ He id2 Hid2) as (n2 & ? & _ & _ & _ & _ & Hkind2 & _). rewrite Hkind2 in Hk2. cbn in Hk2.
    assert (id2 = id) as ->.
    { apply (kind_once id2 id kind); [by apply source_nodes_elem|by apply source_nodes_elem|congruence|done|done]. }
    rewrite Hr in Er. injection Er as <- <- <-.
    destruct (run_names allow_restricted g e He now src outs id built vals st Hid Hr) as (_ & _ & Hnd).
    pose proof (hm_collect_lookup _ _ _ Hnd Hin). pose proof (hm_collect_lookup _ _ _ Hnd Hv). congruence.
Qed.

Lemma feed_elem id port v : ((id, port), v) ∈ source_nodes e ≫= replay_node e (source_kind_values trace) ↔
  ∃ kind n, id ∈ source_nodes e ∧ ev_kinds e !! id = Some kind ∧ (kind_count e kind ≤ 1)%nat ∧
    ev_nodes e !! id = Some n ∧ port ∈ (output_ports n).*1 ∧ source_kind_values trace !! (kind, port) = Some v.
Proof.
  rewrite list_elem_of_bind. unfold replay_node. split.
  - intros (id2 & Hin & Hid). destruct (ev_kinds e !! id2) as [kind|] eqn:Ek; [|by apply elem_of_nil in Hin].
    destruct (Nat.ltb_spec 1 (kind_count e kind)) as [|Hc]; [by apply elem_of_nil in Hin|].
    destruct (ev_nodes e !! id2) as [n|] eqn:En; [|by apply elem_of_nil in Hin].
    apply list_elem_of_omap in Hin as ([p t] & Hp & Hv). cbn in Hv.
    destruct (source_kind_values trace !! (kind, p)) as [w|] eqn:Ew; [|done]. injection Hv as <- <- <-.
    exists kind, n. do 4 (split; [done|]). split; [by apply (list_elem_of_fmap_2 fst _ (p, t))|done].
  - intros (kind & n & Hid & Hk & Hc & Hn & ([p t] & -> & Hp)%list_elem_of_fmap & Hv).
    exists id. split; [|done]. rewrite Hk, Hn. destruct (Nat.ltb_spec 1 (kind_count e kind)); [lia|].
    apply list_elem_of_omap. exists (p, t). split; [done|]. cbn in *. by rewrite Hv.
Qed.

(** What the replay feeds: the traced values of the kinds that occur once. *)
Lemma feed_lookup id port v : src' !! (id, port) = Some v ↔
  ∃ kind n, id ∈ source_nodes e ∧ ev_kinds e !! id = Some kind ∧ (kind_count e kind ≤ 1)%nat ∧
    ev_nodes e !! id = Some n ∧ port ∈ (output_ports n).*1 ∧ source_kind_values trace !! (kind, port) = Some v.
Proof.
  rewrite <- feed_elem. unfold src', replay_source_inputs.
  set (l := source_nodes e ≫= replay_node e (source_kind_values trace)).
  assert (Huniq : ∀ v1 v2, ((id, port), v1) ∈ l → ((id, port), v2) ∈ l → v1 = v2).
  { intros v1 v2 (k1 & ? & _ & K1 & _ & _ & _ & H1)%feed_elem (k2 & ? & _ & K2 & _ & _ & _ & H2)%feed_elem. congruence. }
  split.
  - intros E. destruct (decide ((id, port) ∈ l.*1)) as [([[id2 p2] w] & [= <- <-] & Hin)%list_elem_of_fmap|Hni];
      [|by rewrite hm_collect_absent in E].
    rewrite (hm_collect_unique l _ w Hin) in E; [|by eauto]. by injection E as <-.
  - intros Hin. apply hm_collect_unique; [done|]. intros w Hw. by apply (Huniq w v).
Qed.

Lemma overlay_self id built vals st kind : id ∈ ev_order e → is_source e id = true →
  ev_nodes e !! id = Some built → ev_kinds e !! id = Some kind →
  evaluate built now (inputs_of e src outs id) (default fresh_state (ev_states e !! id)) = Done (vals, st) →
  is_Some (ev_states e !! id) →
  zip_with (overlay src' id) (output_ports built) vals = zip_with (overlay src id) (output_ports built) vals.
Proof.
  intros Hid Hsrc Hb Hk Hev [st0 Hst]. rewrite Hst in Hev. cbn in Hev.
  assert (Hin : id ∈ source_nodes e) by by apply source_nodes_elem.
  assert (Hr : node_run e now src outs id =
    Some (built, (zip_with (overlay src id) (output_ports built) vals, st))).
  { unfold node_run. rewrite Hb, Hst. cbn. unfold produce. by rewrite Hev, Hsrc. }
  destruct (run_names allow_restricted g e He now src outs id _ _ _ Hid Hr) as (_ & _ & Hnd).
  assert (Hgen : ∀ p own, (p, own) ∈ zip (output_ports built) vals → overlay src' id p own = overlay src id p own).
  { intros [p t] own Hzip. unfold overlay. cbn. destruct (decide (kind_count e kind ≤ 1)%nat) as [Hone|Hmany].
    - assert (Hv : source_kind_values trace !! (kind, p) = Some (default own (src !! (id, p)))).
      { eapply source_value; [done..|]. unfold output_pairs. clear -Hzip. revert vals Hzip.
        induction (output_ports built) as [|[q u] l IH]; intros [|w vals]; cbn; try by intros ?%elem_of_nil.
        intros [[= -> -> ->]|Hin]%elem_of_cons; [by left|right; by apply IH]. }
      assert (E : src' !! (id, p) = Some (default own (src !! (id, p)))).
      { apply feed_lookup. exists kind, built. do 4 (split; [done|]). split; [|done].
        apply elem_of_zip_l in Hzip. by apply (list_elem_of_fmap_2 fst _ (p, t)). }
      by rewrite E.
    - assert (E1 : src' !! (id, p) = None).
      { destruct (src' !! (id, p)) as [w|] eqn:E; [|done].
        apply feed_lookup in E as (k & ? & _ & Hk' & Hone & _). congruence. }
      assert (E2 : src !! (id, p) = None).
      { destruct (src !! (id, p)) as [w|] eqn:E; [|done].
        destruct (Hfed id p kind) as [_ Hone]; [by rewrite E|done|lia]. }
      by rewrite E1, E2. }
  clear -Hgen. revert vals Hgen. induction (output_ports built) as [|p l IH]; intros [|w vals] Hgen; [done..|].
  cbn. f_equal; [apply Hgen; by left|]. apply IH. intros q own Hq. apply Hgen. by right.
Qed.

Lemma inputs_self id : id ∈ ev_order e → inputs_of e src' outs id = inputs_of e src outs id.
Proof.
  intros Hid. unfold inputs_of. apply list_fmap_ext. intros i port Hport. unfold marshal.
  destruct (incoming e !! (id, port)) as [[u fp]|]; [done|].
  assert (Hns : id ∉ source_nodes e).
  { intros [E _]%list_elem_of_filter. by rewrite E in Hport. }
  destruct (co_node _ _ _ He id Hid) as (n & b & _ & _ & _ & _ & Hk & _).
  assert (E1 : src' !! (id, port) = None).
  { destruct (src' !! (id, port)) as [w|] eqn:E; [|done]. by apply feed_lookup in E as (? & ? & ? & _). }
  assert (E2 : src !! (id, port) = None).
  { destruct (src !! (id, port)) as [w|] eqn:E; [|done]. by destruct (Hfed id port (n_kind n)) as [? _]; [rewrite E|..]. }
  by rewrite E1, E2.
Qed.

(** Fed its own trace, every node does again what it did. *)
Lemma run_self id : id ∈ ev_order e → node_run e 0%Z src' outs id = node_run e now src outs id.
Proof.
  intros Hid. destruct (co_node _ _ _ He id Hid) as (n & b & _ & _ & _ & Hb & Hk & _ & Hst).
  unfold node_run. rewrite Hb. destruct Hst as [st Hst]. rewrite Hst. cbn.
  rewrite inputs_self by done. unfold produce. rewrite (Htime id b 0%Z now) by done.
  destruct (evaluate b now _ st) as [[vals st']|] eqn:Eev; [|done]. destruct (is_source e id) eqn:Es; [|done].
  rewrite (overlay_self id b vals st' (n_kind n)); [done..| |by eauto]. by rewrite Hst.
Qed.

Lemma solution_self : solution e 0%Z src' outs.
Proof.
  intros id Hid. destruct (Hs id Hid) as [Hsome Heq]. split; [done|].
  rewrite Heq. unfold node_values. by rewrite run_self.
Qed.

(** The whole replayed tick: same sinks, same slots, and traces that differ at
    most in the inputs recorded for sources. *)
Lemma tick_self : ∃ sinks trace2 e1, tick_with_full_trace e now src = Done (sinks, trace, e1) ∧
  tick_with_full_trace e 0%Z src' = Done (sinks, trace2, e1) ∧
  non_source_outputs show_value trace2 = non_source_outputs show_value trace.
Proof.
  destruct (tick_with_full_trace e now src) as [r1|] eqn:E1.
  2:{ destruct (tick_panics allow_restricted g e He now src E1) as (i & o & Hp).
      by destruct (tick_panic_no_solution e now src i o outs Hp). }
  destruct (tick_with_full_trace e 0%Z src') as [r2|] eqn:E2.
  2:{ destruct (tick_panics allow_restricted g e He 0%Z src' E2) as (i & o & Hp).
      destruct (tick_panic_no_solution e 0%Z src' i o outs Hp). by apply solution_self. }
  destruct (tick_solves allow_restricted g e He now src r1 E1) as (o1 & m1 & -> & S1 & _ & Hm1 & Hn1).
  destruct (tick_solves allow_restricted g e He 0%Z src' r2 E2) as (o2 & m2 & -> & S2 & _ & Hm2 & Hn2).
  assert (Ho : ∀ id, id ∈ ev_order e → o1 !! id = outs !! id ∧ o2 !! id = outs !! id).
  { intros id Hid. split; [by apply (solution_unique allow_restricted g e He now src)|].
    apply (solution_unique allow_restricted g e He 0%Z src'); [done|apply solution_self|done]. }
  assert (Hi : ∀ id, id ∈ ev_order e → inputs_of e src o1 id = inputs_of e src outs id ∧
    inputs_of e src' o2 id = inputs_of e src outs id).
  { intros id Hid. rewrite <- (inputs_self id Hid). split.
    - rewrite inputs_self by done. apply (inputs_agree allow_restricted g e He). intros u Hu.
      apply Ho. by destruct (pair_order allow_restricted g e He u id Hu).
    - apply (inputs_agree allow_restricted g e He). intros u Hu.
      apply Ho. by destruct (pair_order allow_restricted g e He u id Hu). }
  assert (Hr : ∀ id, id ∈ ev_order e → node_run e now src o1 id = node_run e now src outs id ∧
    node_run e 0%Z src' o2 id = node_run e now src outs id).
  { intros id Hid. destruct (Hi id Hid) as [H1 H2]. split; [by unfold node_run; rewrite H1|].
    rewrite <- (run_self id Hid). unfold node_run. by rewrite H2, inputs_self. }
  assert (Hm : m1 = m2).
  { apply map_eq. intros id. destruct (decide (id ∈ ev_order e)) as [Hid|Hid]; [|by rewrite Hn1, Hn2].
    rewrite Hm1, Hm2 by done. unfold next_state. destruct (Hr id Hid) as [-> ->]. done. }
  assert (Ht : omap (node_exec e now src o1) (ev_order e) = trace).
  { apply omap_ext_in. intros id Hid. unfold node_exec.
    destruct (Hr id Hid) as [-> _], (Hi id Hid) as [-> _]. done. }
  do 3 eexists. split; [rewrite Ht; reflexivity|]. split.
  - rewrite Hm. match goal with |- Done (?a, _, _) = Done (?b, _, _) => assert (Hsk : a = b) end; [|by rewrite Hsk].
    apply bind_ext_in. intros id Hid. by destruct (Hi id Hid) as [-> ->].
  - assert (Hgen : ∀ s2 l, (∀ id, id ∈ l → node_run e 0%Z s2 o2 id = node_run e now src outs id) →
      non_source_outputs show_value (omap (node_exec e 0%Z s2 o2) l) =
      non_source_outputs show_value (omap (node_exec e now src outs) l)).
    { intros s2. induction l as [|id l IH]; intros Hl; [done|].
      specialize (IH ltac:(intros i Hin; apply Hl; by right)). specialize (Hl id (list_elem_of_here _ _)). cbn.
      destruct (node_exec e 0%Z s2 o2 id) as [x2|] eqn:E0, (node_exec e now src outs id) as [x|] eqn:E3;
        unfold node_exec in E0, E3; rewrite Hl in E0; destruct (node_run e now src outs id) as [[b [vals st]]|];
        try done; injection E0 as <-; injection E3 as <-.
      unfold non_source_outputs in *. cbn. destruct (is_source e id); cbn; [exact IH|by rewrite IH]. }
    apply Hgen. intros id Hid. by destruct (Hr id Hid).
Qed.
End Tick.

Lemma tick_with_states e now src sinks t e1 : tick_with_full_trace e now src = Done (sinks, t, e1) →
  ∃ m, e1 = with_states m e.
Proof. unfold tick_with_full_trace. destruct (pass e now src) as [p|]; [|done]. intros [= _ _ <-]. by eexists. Qed.

Lemma replay_tick_self e now src sinks t e1 num ms : compiled allow_restricted g e → time_free e → source_fed e src →
  tick_with_full_trace e now src = Done (sinks, t, e1) →
  replay_tick show_value show_action e (mkTickTrace ms num t sinks) = Done (None, e1).
Proof.
  intros He Htime Hfed E. destruct (tick_solves allow_restricted g e He now src _ E) as (outs & m & _ & Hs & _).
  destruct (tick_self e He now src Htime Hfed outs Hs) as (sinks' & t2 & e2 & E2 & E3 & Hno).
  rewrite E2 in E. injection E as -> <- ->. unfold replay_tick. cbn [trace_nodes sinks_fired tick_num tick_ms].
  rewrite E3, bool_decide_true by done. rewrite bool_decide_true; [done|].
  apply elem_of_nil_inv. intros kind (port & Hn)%diverging_elem. apply Hn. unfold printed. by rewrite Hno.
Qed.
End Self.

Section Faithful.
Context {D : Decimal} {J : Json} {I : HashMapIter} {DT : DecimalText} {C : Catalog D J} {L : CatalogLaws C}.
Context (show_value : Value → string) (show_action : SinkAction → string).
Context (allow_restricted : bool) (fresh_id : NodeId) (g : Graph).

(** A graph replayed on its own traces matches. When the engine feeds
    source nodes only and no kind it feeds occurs twice, and no node reads the
    clock (a replay evaluates every tick at time 0), the traces of any run
    replayed on the evaluator the run started from give no divergence: every
    tick counts as a match, and the replayed evaluator ends in the same state
    as the deployed one. *)
Theorem replay_faithful e hist ts e1 symbol : evaluating allow_restricted fresh_id g e → time_free e →
  (∀ now src, (now, src) ∈ hist → source_fed e src) → run_ticks e hist = Done (ts, e1) →
  ∃ p, compute_replay_payload show_value show_action symbol ts e = Done (p, e1) ∧
    divergences p = [] ∧ divergence_count p = 0 ∧ ticks_replayed p = length hist.
Proof.
  intros He Htime Hfed Hrun.
  assert (H : replay_all show_value show_action e ts = Done ([], e1) ∧ length ts = length hist).
  { revert e ts He Htime Hfed Hrun. induction hist as [|[now src] hist IH]; intros e ts He Htime Hfed Hrun.
    { by injection Hrun as <- <-. }
    cbn in Hrun. destruct (tick_with_full_trace e now src) as [[[sinks t] e2]|] eqn:Et; [|done].
    destruct (run_ticks e2 hist) as [[ts' e3]|] eqn:Er; [|done]. injection Hrun as <- ->.
    destruct (tick_with_states _ _ _ _ _ _ Et) as [m ->].
    destruct (IH (with_states m e) ts') as [Hall Hlen]; [|done| |done|].
    - eapply ev_ticked; [exact He|]. unfold tick. by rewrite Et.
    - intros now' src' Hin. apply (Hfed now' src'). by right.
    - cbn. rewrite (replay_tick_self show_value show_action allow_restricted g e now src sinks t _ _ _
        (evaluating_compiled _ _ _ _ He) Htime (Hfed now src (list_elem_of_here _ _)) Et), Hall. by rewrite Hlen. }
  destruct H as [Hall Hlen]. unfold compute_replay_payload. rewrite Hall. eexists. split; [done|]. by rewrite Hlen.
Qed.
End Faithful.

(** ** Witnesses *)
#[local] Opaque demo_evaluator.

Definition demo_show (v : Value (D := Qc_decimal)) : string :=
  match v with ValNumber d => pretty (QArith_base.Qnum (Qcanon.this d)) | _ => "" end.
Definition demo_action (a : SinkAction (D := Qc_decimal)) : string :=
  match a with SpreadMult d => pretty (QArith_base.Qnum (Qcanon.this d)) | _ => "" end.

Definition demo_hist : list (Z * gmap (NodeId * string) (Value (D := Qc_decimal))) := [(5%Z, demo_feed); (6%Z, ∅)].
Definition demo_ran : outcome (list TickTrace * Evaluator (C := demo_catalog)) := run_ticks demo_evaluator demo_hist.

Lemma demo_time_free g (e : Evaluator (C := demo_catalog)) : compiled false g e → time_free e.
Proof.
  intros H id n now now' ins st Hn.
  assert (Hin : id ∈ ev_order e) by (apply (co_kinds _ _ _ H); right; by exists n).
  destruct (co_node _ _ _ H id Hin) as (m & b & _ & _ & Hb & Hb' & _).
  assert (b = n) as -> by congruence. pattern n. by apply (demo_build_cases _ _ _ n Hb).
Qed.

Definition single_sources (e : Evaluator (C := demo_catalog)) (id : NodeId) : bool :=
  bool_decide (id ∈ source_nodes e) &&
  match ev_kinds e !! id with Some k => (kind_count e k <=? 1)%nat | None => true end.

Lemma single_source_fed e src : (∀ id port, is_Some (src !! (id, port)) → single_sources e id = true) →
  source_fed e src.
Proof.
  intros H id port kind Hsrc Hk. specialize (H id port Hsrc). unfold single_sources in H. rewrite Hk in H.
  apply andb_true_iff in H as [H1 H2]. apply bool_decide_eq_true_1 in H1. by apply Nat.leb_le in H2.
Qed.

Lemma replay_faithful_witness : ∃ ts e1 p, demo_ran = Done (ts, e1) ∧
  compute_replay_payload demo_show demo_action "BTCUSDT" ts demo_evaluator = Done (p, e1) ∧
  divergences p = [] ∧ ticks_replayed p = 2.
Proof.
  assert (Hb : demo_built = true) by (vm_compute; reflexivity).
  assert (Hd : match demo_ran with Done _ => true | Panicked => false end = true) by (vm_compute; reflexivity).
  destruct demo_ran as [[ts e1]|] eqn:Er; [|discriminate Hd]. exists ts, e1. unfold demo_ran in Er.
  refine (_ (replay_faithful demo_show demo_action false 0%N demo_double demo_evaluator demo_hist ts e1 "BTCUSDT"
    (demo_evaluating Hb) (demo_time_free _ _ (evaluating_compiled _ _ _ _ (demo_evaluating Hb))) _ Er)).
  - intros (p & E & Hd1 & _ & Hn). exists p. split; [reflexivity|]. split; [exact E|]. split; [exact Hd1|exact Hn].
  - intros now src [[= -> ->]|[[= -> ->]|Hn%elem_of_nil]%elem_of_cons]%elem_of_cons; [| |destruct Hn];
      apply single_source_fed; intros id port [v Hv].
    + unfold demo_feed in Hv. apply lookup_singleton_Some in Hv as [[= <- <-] _]. vm_compute. reflexivity.
    + by rewrite lookup_empty in Hv.
Defined.

Definition demo_empty : TickTrace (D := Qc_decimal) := mkTickTrace 0 0 [] [].
Definition demo_replayed : outcome (option Divergence * Evaluator (C := demo_catalog)) :=
  replay_tick demo_show demo_action demo_evaluator demo_empty.

Lemma divergence_exact_witness : ∃ r e', demo_replayed = Done (Some r, e') ∧ diverging_kinds r = ["Math.Add"] ∧
  ∃ trace port, ¬ printed demo_show (trace_nodes demo_empty) ("Math.Add", port) ≡ₚ printed demo_show trace ("Math.Add", port).
Proof.
  assert (Hk : match demo_replayed with Done (Some r, _) => bool_decide (diverging_kinds r = ["Math.Add"]) | _ => false end = true)
    by (vm_compute; reflexivity).
  destruct demo_replayed as [[[r|] e']|] eqn:Er; [|discriminate Hk|discriminate Hk].
  apply bool_decide_eq_true_1 in Hk. exists r, e'. split; [reflexivity|]. split; [exact Hk|]. unfold demo_replayed in Er.
  destruct (divergence_exact demo_show demo_action demo_evaluator demo_empty (Some r) e' Er) as (sinks & trace & _ & _ & Hr).
  destruct (Hr r eq_refl) as (_ & _ & _ & Hkinds). exists trace. apply Hkinds. rewrite Hk. by left.
Defined.
