(* ===== verification/Approvals.v ===== *)
(** * Agent admission control ([crates/controller/src/approvals.rs])

    The approval store: a map from key fingerprints to records, mirrored to a
    JSON file on every mutation. The file format ([serde_json]) is a
    parameter, the class [ApprovalCodec]. Whether a write to the disk succeeds
    is an input of each operation; the lock is never poisoned, since nothing
    panics while it is held. *)
From stdpp Require Import base gmap sets list strings sorting.
From Stdlib Require Import ZArith Lia Ascii.
From S2P Require Import Prelude Bytes.
Local Open Scope nat_scope.

Inductive ApprovalState := Pending | Accepted | Rejected | Revoked.

#[export] Instance ApprovalState_eq_dec : EqDecision ApprovalState.
Proof. solve_decision. Defined.

Definition is_accepted (s : ApprovalState) : bool :=
  match s with Accepted => true | _ => false end.
Definition as_str (s : ApprovalState) : string :=
  match s with
  | Pending => "pending" | Accepted => "accepted" | Rejected => "rejected" | Revoked => "revoked"
  end.

Record AgentProfile := mkAgentProfile {
  description : option string;
  client_id : option string;
  region : option string;
  environment : option string;
  purpose : option string;
  owner_contact : option string;
  notes : option string;
  labels : gmap string string;
}.

Definition default_profile : AgentProfile := mkAgentProfile None None None None None None None ∅.

Definition profile_is_empty (p : AgentProfile) : bool :=
  negb (bool_decide (is_Some (description p))) && negb (bool_decide (is_Some (client_id p)))
  && negb (bool_decide (is_Some (region p))) && negb (bool_decide (is_Some (environment p)))
  && negb (bool_decide (is_Some (purpose p))) && negb (bool_decide (is_Some (owner_contact p)))
  && negb (bool_decide (is_Some (notes p))) && bool_decide (labels p = ∅).

Record ApprovalRecord := mkApprovalRecord {
  fingerprint : string;
  agent_id : string;
  pubkey_hex : string;
  ar_state : ApprovalState;
  first_seen_ms : Z;
  approved_at_ms : option Z;
  approved_by : option string;
  revoked_at_ms : option Z;
  revoked_by : option string;
  revoke_reason : option string;
  last_seen_ms : Z;
  profile : AgentProfile;
}.

Record AgentProfilePatch := mkAgentProfilePatch {
  p_description : option string;
  p_client_id : option string;
  p_region : option string;
  p_environment : option string;
  p_purpose : option string;
  p_owner_contact : option string;
  p_notes : option string;
  p_labels : option (gmap string string);
}.

Inductive IoKind := NotFound | AlreadyExists | WriteFailed.
Inductive ApprovalStoreError := Io (k : IoKind) | Parse.

(** [serde_json] on the file's record list. *)
Class ApprovalCodec := {
  to_string_pretty : list ApprovalRecord → string;
  from_str : string → option (list ApprovalRecord);
}.

(** What the store relies on: a file it wrote parses back and is not blank. *)
Class ApprovalCodecLaws (AC : ApprovalCodec) : Prop := {
  codec_roundtrip l : from_str (to_string_pretty l) = Some l;
  codec_not_blank l : is_blank (to_string_pretty l) = false;
}.

Section Store.
Context {AC : ApprovalCodec} {I : HashMapIter}.

(** [sto_file] is the file at [path]: [None] for an in-memory store, and
    [Some None] while the file does not exist. *)
Record ApprovalStore := mkApprovalStore {
  records : gmap string ApprovalRecord;
  sto_file : option (option string);
}.

Definition in_memory : ApprovalStore := mkApprovalStore ∅ None.

Definition load_from_path (file : option string) : result ApprovalStore ApprovalStoreError :=
  match file with
  | None => Ok (mkApprovalStore ∅ (Some None))
  | Some raw =>
      if is_blank raw then Ok (mkApprovalStore ∅ (Some (Some raw)))
      else
        match from_str raw with
        | None => Err Parse
        | Some rs =>
            Ok (mkApprovalStore (hm_collect ((λ r, (fingerprint r, r)) <$> rs)) (Some (Some raw)))
        end
  end.

(** Temp file and rename: a failed write leaves the old file. *)
Definition persist (disk_ok : bool) (s : ApprovalStore) :
    result unit ApprovalStoreError * ApprovalStore :=
  match sto_file s with
  | None => (Ok tt, s)
  | Some _ =>
      if disk_ok
      then (Ok tt, mkApprovalStore (records s) (Some (Some (to_string_pretty (hm_values (records s))))))
      else (Err (Io WriteFailed), s)
  end.

Definition with_records (m : gmap string ApprovalRecord) (s : ApprovalStore) : ApprovalStore :=
  mkApprovalStore m (sto_file s).

Definition new_record (now : Z) (fp id key : string) : ApprovalRecord :=
  mkApprovalRecord fp id key Pending now None None None None None now default_profile.

(** The field updates of [record_register] on an existing entry. *)
Definition touch (now : Z) (id key : string) (r : ApprovalRecord) : ApprovalRecord :=
  let key' := if decide (pubkey_hex r = "" ∧ key ≠ "") then key else pubkey_hex r in
  mkApprovalRecord (fingerprint r) id key' (ar_state r) (first_seen_ms r) (approved_at_ms r)
    (approved_by r) (revoked_at_ms r) (revoked_by r) (revoke_reason r) now (profile r).

Definition record_register (now : Z) (disk_ok : bool) (fp id key : string) (s : ApprovalStore) :
    ApprovalState * ApprovalStore :=
  let '(entry, created) := match records s !! fp with
    | Some r => (r, false)
    | None => (new_record now fp id key, true)
    end in
  let write_needed := created || negb (bool_decide (agent_id entry = id))
    || bool_decide (pubkey_hex entry = "" ∧ key ≠ "") in
  let entry := touch now id key entry in
  let s := with_records (<[fp := entry]> (records s)) s in
  (ar_state entry, if write_needed then (persist disk_ok s).2 else s).

Definition get (fp : string) (s : ApprovalStore) : option ApprovalRecord := records s !! fp.

Definition list_records (s : ApprovalStore) : list ApprovalRecord :=
  sort_by (λ a b, Stdlib.Strings.String.leb (fingerprint a) (fingerprint b)) (hm_values (records s)).

(** The tail of every mutation: persist, then the value or the I/O error. *)
Definition persisted {A} (disk_ok : bool) (a : A) (s : ApprovalStore) :
    result A ApprovalStoreError * ApprovalStore :=
  let '(r, s) := persist disk_ok s in
  (match r with Ok _ => Ok a | Err e => Err e end, s).

Definition pre_approve (now : Z) (disk_ok : bool) (fp by_ : string) (notes : option string)
    (s : ApprovalStore) : result ApprovalRecord ApprovalStoreError * ApprovalStore :=
  match records s !! fp with
  | Some _ => (Err (Io AlreadyExists), s)
  | None =>
      let p := mkAgentProfile None None None None None None notes ∅ in
      let rec := mkApprovalRecord fp "" "" Accepted now (Some now) (Some by_) None None None now p in
      persisted disk_ok rec (with_records (<[fp := rec]> (records s)) s)
  end.

(** [get_mut], an update, then [persist]. *)
Definition update_record (disk_ok : bool) (fp : string) (f : ApprovalRecord → ApprovalRecord)
    (s : ApprovalStore) : result ApprovalRecord ApprovalStoreError * ApprovalStore :=
  match records s !! fp with
  | None => (Err (Io NotFound), s)
  | Some r => persisted disk_ok (f r) (with_records (<[fp := f r]> (records s)) s)
  end.

Definition accept_record (now : Z) (by_ : string) (r : ApprovalRecord) : ApprovalRecord :=
  mkApprovalRecord (fingerprint r) (agent_id r) (pubkey_hex r) Accepted (first_seen_ms r)
    (Some now) (Some by_) (revoked_at_ms r) (revoked_by r) None (last_seen_ms r) (profile r).

(** [revoke] and [reject] differ in the state they set. *)
Definition deny_record (st : ApprovalState) (now : Z) (by_ reason : string) (r : ApprovalRecord) :
    ApprovalRecord :=
  mkApprovalRecord (fingerprint r) (agent_id r) (pubkey_hex r) st (first_seen_ms r)
    (approved_at_ms r) (approved_by r) (Some now) (Some by_) (Some reason) (last_seen_ms r)
    (profile r).

Definition accept (now : Z) (disk_ok : bool) (fp by_ : string) :=
  update_record disk_ok fp (accept_record now by_).
Definition revoke (now : Z) (disk_ok : bool) (fp by_ reason : string) :=
  update_record disk_ok fp (deny_record Revoked now by_ reason).
Definition reject (now : Z) (disk_ok : bool) (fp by_ reason : string) :=
  update_record disk_ok fp (deny_record Rejected now by_ reason).

(** An empty string clears a field. *)
Definition patch_field (p old : option string) : option string :=
  match p with
  | None => old
  | Some v => if decide (v = "") then None else Some v
  end.

Definition patch_profile (p : AgentProfilePatch) (r : ApprovalRecord) : ApprovalRecord :=
  let o := profile r in
  mkApprovalRecord (fingerprint r) (agent_id r) (pubkey_hex r) (ar_state r) (first_seen_ms r)
    (approved_at_ms r) (approved_by r) (revoked_at_ms r) (revoked_by r) (revoke_reason r)
    (last_seen_ms r)
    (mkAgentProfile (patch_field (p_description p) (description o))
      (patch_field (p_client_id p) (client_id o)) (patch_field (p_region p) (region o))
      (patch_field (p_environment p) (environment o)) (patch_field (p_purpose p) (purpose o))
      (patch_field (p_owner_contact p) (owner_contact o)) (patch_field (p_notes p) (notes o))
      (default (labels o) (p_labels p))).

Definition update_profile (disk_ok : bool) (fp : string) (p : AgentProfilePatch) :=
  update_record disk_ok fp (patch_profile p).

Definition remove (disk_ok : bool) (fp : string) (s : ApprovalStore) :
    result bool ApprovalStoreError * ApprovalStore :=
  match records s !! fp with
  | Some _ => persisted disk_ok true (with_records (delete fp (records s)) s)
  | None => (Ok false, s)
  end.

Definition len (s : ApprovalStore) : nat := size (records s).

(** ** Runs of operations, each with its time and disk outcome *)
Inductive Op :=
| Register (fp id key : string)
| PreApprove (fp by_ : string) (notes : option string)
| Accept (fp by_ : string)
| Revoke (fp by_ reason : string)
| Reject (fp by_ reason : string)
| UpdateProfile (fp : string) (p : AgentProfilePatch)
| Remove (fp : string).

Definition step (s : ApprovalStore) (x : Z * bool * Op) : ApprovalStore :=
  let '(now, ok, op) := x in
  match op with
  | Register fp id key => (record_register now ok fp id key s).2
  | PreApprove fp by_ notes => (pre_approve now ok fp by_ notes s).2
  | Accept fp by_ => (accept now ok fp by_ s).2
  | Revoke fp by_ reason => (revoke now ok fp by_ reason s).2
  | Reject fp by_ reason => (reject now ok fp by_ reason s).2
  | UpdateProfile fp p => (update_profile ok fp p s).2
  | Remove fp => (remove ok fp s).2
  end.

Definition run (s : ApprovalStore) (xs : list (Z * bool * Op)) : ApprovalStore :=
  fold_left step xs s.
End Store.

(** ** The decision machine of one fingerprint *)
Definition target (op : Op) : string :=
  match op with
  | Register fp _ _ | PreApprove fp _ _ | Accept fp _ | Revoke fp _ _ | Reject fp _ _
  | UpdateProfile fp _ | Remove fp => fp
  end.

(** What an operation makes of the state, whatever it was; [None] is an
    unknown fingerprint. *)
Definition decide_step (st : option ApprovalState) (op : Op) : option ApprovalState :=
  match op, st with
  | Register _ _ _, None => Some Pending
  | PreApprove _ _ _, None => Some Accepted
  | Accept _ _, Some _ => Some Accepted
  | Revoke _ _ _, Some _ => Some Revoked
  | Reject _ _ _, Some _ => Some Rejected
  | Remove _, _ => None
  | _, st => st
  end.

(** The machine of the source's header: a reject acts on a pending record, a
    revoke on an accepted one, an accept on any, and a pre-approval on none. *)
Definition documented_step (st : option ApprovalState) (op : Op) : option ApprovalState :=
  match op, st with
  | Register _ _ _, None => Some Pending
  | PreApprove _ _ _, None => Some Accepted
  | Accept _ _, Some _ => Some Accepted
  | Revoke _ _ _, Some Accepted => Some Revoked
  | Reject _ _ _, Some Pending => Some Rejected
  | Remove _, _ => None
  | _, st => st
  end.

(** The header gives the operation a meaning in the state: an operator does not
    revoke what is not accepted, nor reject what is not pending. *)
Definition in_machine (st : option ApprovalState) (op : Op) : bool :=
  match op, st with
  | Revoke _ _ _, Some st => bool_decide (st = Accepted)
  | Reject _ _ _, Some st => bool_decide (st = Pending)
  | _, _ => true
  end.

Definition is_decision (op : Op) : bool :=
  match op with Register _ _ _ | UpdateProfile _ _ => false | _ => true end.

(** The decisions of a run on a fingerprint are ones of the machine, and their
    writes reach the disk. *)
Fixpoint machine_run (fp : string) (st : option ApprovalState) (xs : list (Z * bool * Op)) : bool :=
  match xs with
  | [] => true
  | (_, ok, op) :: xs =>
      if decide (target op = fp)
      then in_machine st op && (negb (is_decision op) || ok) && machine_run fp (documented_step st op) xs
      else machine_run fp st xs
  end.

(** The operation is refused: there is no record, or there is one already. *)
Definition refused (st : option ApprovalState) (op : Op) : bool :=
  match op, st with
  | PreApprove _ _ _, Some _ | Accept _ _, None | Revoke _ _ _, None | Reject _ _ _, None | UpdateProfile _ _, None => true
  | _, _ => false
  end.

Definition spec_step (fp : string) (st : option ApprovalState) (op : Op) : option ApprovalState :=
  if decide (target op = fp) then decide_step st op else st.

Section Facts.
Context {AC : ApprovalCodec} {I : HashMapIter}.
Implicit Types (s : ApprovalStore) (r : ApprovalRecord).

Lemma persist_records ok s : records (persist ok s).2 = records s.
Proof. unfold persist. destruct (sto_file s); [by destruct ok|done]. Qed.

Lemma maybe_persist_records (b : bool) ok s :
  records (if b then (persist ok s).2 else s) = records s.
Proof. destruct b; [apply persist_records|done]. Qed.

Lemma persisted_records {A} ok (a : A) s : records (persisted ok a s).2 = records s.
Proof.
  unfold persisted. pose proof (persist_records ok s) as H. by destruct (persist ok s) as [r s'].
Qed.

(** The effect of an operation on the map, whatever the disk does. *)
Definition effect (now : Z) (op : Op) (o : option ApprovalRecord) : option ApprovalRecord :=
  match op, o with
  | Register fp id key, o => Some (touch now id key (default (new_record now fp id key) o))
  | PreApprove fp by_ notes, None =>
      Some (mkApprovalRecord fp "" "" Accepted now (Some now) (Some by_) None None None now
        (mkAgentProfile None None None None None None notes ∅))
  | PreApprove _ _ _, Some r => Some r
  | Accept _ by_, o => accept_record now by_ <$> o
  | Revoke _ by_ reason, o => deny_record Revoked now by_ reason <$> o
  | Reject _ by_ reason, o => deny_record Rejected now by_ reason <$> o
  | UpdateProfile _ p, o => patch_profile p <$> o
  | Remove _, _ => None
  end.

Lemma update_record_lookup ok fp f s fp' :
  records (update_record ok fp f s).2 !! fp' =
  if decide (fp = fp') then f <$> records s !! fp' else records s !! fp'.
Proof.
  unfold update_record. destruct (records s !! fp) as [r|] eqn:E.
  - rewrite persisted_records. cbn [records with_records]. case_decide as Hd.
    + subst fp'. by rewrite lookup_insert_eq, E.
    + by rewrite lookup_insert_ne.
  - case_decide as Hd; [|done]. subst fp'. by rewrite E.
Qed.

Lemma step_lookup now ok op s fp :
  records (step s (now, ok, op)) !! fp =
  if decide (target op = fp) then effect now op (records s !! fp) else records s !! fp.
Proof.
  destruct op as [fp' id key|fp' by_ no|fp' by_|fp' by_ re|fp' by_ re|fp' p|fp'];
    cbn [step target effect]; try apply update_record_lookup.
  - unfold record_register. destruct (records s !! fp') as [r|] eqn:E; cbn [snd];
      rewrite maybe_persist_records; cbn [records with_records];
      (case_decide as Hd; [subst fp'; by rewrite lookup_insert_eq, E|by rewrite lookup_insert_ne]).
  - unfold pre_approve. destruct (records s !! fp') as [r|] eqn:E; cbn [snd].
    + case_decide as Hd; [|done]. subst fp'. by rewrite E.
    + rewrite persisted_records. cbn [records with_records].
      case_decide as Hd; [subst fp'; by rewrite lookup_insert_eq, E|by rewrite lookup_insert_ne].
  - unfold remove. destruct (records s !! fp') as [r|] eqn:E; cbn [snd].
    + rewrite persisted_records. cbn [records with_records].
      case_decide as Hd; [subst fp'; by rewrite lookup_delete_eq|by rewrite lookup_delete_ne].
    + case_decide as Hd; [|done]. by subst fp'.
Qed.

Definition state_of s (fp : string) : option ApprovalState := ar_state <$> records s !! fp.

Lemma step_state now ok op s fp :
  state_of (step s (now, ok, op)) fp = spec_step fp (state_of s fp) op.
Proof.
  unfold state_of, spec_step. rewrite step_lookup. case_decide; [|done].
  destruct op, (records s !! fp); done.
Qed.

Lemma store_run_snoc s xs x : run s (xs ++ [x]) = step (run s xs) x.
Proof. unfold run. by rewrite fold_left_app. Qed.

Lemma store_run_state s xs fp :
  state_of (run s xs) fp = fold_left (spec_step fp) (xs.*2) (state_of s fp).
Proof.
  revert s. induction xs as [|[[now ok] op] xs IH]; intros s; [done|].
  cbn [run fold_left fmap list_fmap snd]. fold (run (step s (now, ok, op)) xs).
  by rewrite IH, step_state.
Qed.

(** ** Records are filed under their fingerprint *)
Definition keyed (m : gmap string ApprovalRecord) : Prop :=
  ∀ fp r, m !! fp = Some r → fingerprint r = fp.

Lemma step_keyed s x : keyed (records s) → keyed (records (step s x)).
Proof.
  destruct x as [[now ok] op]. intros Hk fp r. rewrite step_lookup. case_decide as Ht; [|apply Hk].
  subst fp. destruct (records s !! target op) as [r'|] eqn:E.
  - apply Hk in E. destruct op; simpl; intros H; simplify_eq; simpl in *; done.
  - destruct op; simpl; intros H; by simplify_eq.
Qed.

(** ** Durability *)
Context {ACL : ApprovalCodecLaws AC}.

(** A record without the time it was last seen, which is not persisted. *)
Definition forget r : ApprovalRecord :=
  mkApprovalRecord (fingerprint r) (agent_id r) (pubkey_hex r) (ar_state r) (first_seen_ms r)
    (approved_at_ms r) (approved_by r) (revoked_at_ms r) (revoked_by r) (revoke_reason r) 0
    (profile r).

(** Loading the file gives the records in memory, up to that time. *)
Definition durable s : Prop :=
  ∃ f s', sto_file s = Some f ∧ load_from_path f = Ok s' ∧
    ∀ fp, forget <$> records s' !! fp = forget <$> records s !! fp.

Lemma durable_persist s : is_Some (sto_file s) → keyed (records s) → durable (persist true s).2.
Proof.
  intros [f Hf] Hk. unfold persist. rewrite Hf. cbn [snd].
  eexists _, _. split; [done|]. split.
  - simpl. by rewrite codec_not_blank, codec_roundtrip.
  - intros fp. cbn [records]. by rewrite (hm_collect_values fingerprint).
Qed.

Lemma durable_persisted {A} (a : A) s : is_Some (sto_file s) → keyed (records s) →
  durable (persisted true a s).2.
Proof.
  intros Hf Hk. pose proof (durable_persist s Hf Hk) as H.
  unfold persisted. by destruct (persist true s) as [r s'].
Qed.

Lemma step_durable now op s : keyed (records s) → durable s → durable (step s (now, true, op)).
Proof.
  intros Hk Hd. pose proof (step_keyed s (now, true, op) Hk) as Hk'.
  assert (Hf : is_Some (sto_file s)) by (destruct Hd as (f & s' & -> & _); by eexists).
  assert (Hupd : ∀ fp f, keyed (records (update_record true fp f s).2) →
    durable (update_record true fp f s).2).
  { intros fp f. unfold update_record. destruct (records s !! fp); [|done].
    rewrite persisted_records. intros H. by apply durable_persisted. }
  destruct op as [fp id key|fp by_ no|fp by_|fp by_ re|fp by_ re|fp p|fp]; cbn [step] in *;
    try by apply Hupd.
  - unfold record_register in *.
    destruct (records s !! fp) as [r|] eqn:E; cbn [snd] in *.
    + rewrite maybe_persist_records in Hk'.
      match goal with |- durable (if ?b then _ else _) => destruct b eqn:Ew end;
        [by apply durable_persist|].
      cbn [orb] in Ew. apply orb_false_iff in Ew as [Ew1 Ew2].
      apply negb_false_iff, bool_decide_eq_true in Ew1. apply bool_decide_eq_false in Ew2.
      destruct Hd as (f & s' & Hsf & Hload & Heq). exists f, s'. split; [done|]. split; [done|].
      intros fp'. rewrite Heq. cbn [records with_records]. destruct (decide (fp = fp')) as [<-|Hne].
      * rewrite lookup_insert_eq, E. simpl. f_equal. unfold forget, touch. simpl.
        rewrite decide_False by done. by rewrite Ew1.
      * by rewrite lookup_insert_ne.
    + rewrite maybe_persist_records in Hk'. cbn [orb]. by apply durable_persist.
  - unfold pre_approve in *. destruct (records s !! fp); [done|]. apply durable_persisted; [done|].
    by rewrite persisted_records in Hk'.
  - unfold remove in *. destruct (records s !! fp); [|done]. apply durable_persisted; [done|].
    by rewrite persisted_records in Hk'.
Qed.

(** ** Properties of the store *)

(** Whether the operation reports success. *)
Definition succeeds s (x : Z * bool * Op) : bool :=
  let '(now, ok, op) := x in
  match op with
  | Register _ _ _ => true
  | PreApprove fp by_ notes => is_ok (pre_approve now ok fp by_ notes s).1
  | Accept fp by_ => is_ok (accept now ok fp by_ s).1
  | Revoke fp by_ reason => is_ok (revoke now ok fp by_ reason s).1
  | Reject fp by_ reason => is_ok (reject now ok fp by_ reason s).1
  | UpdateProfile fp p => is_ok (update_profile ok fp p s).1
  | Remove fp => is_ok (remove ok fp s).1
  end.

Lemma persisted_ok {A} (a : A) s : is_ok (persisted true a s).1 = true.
Proof. unfold persisted, persist. by destruct (sto_file s). Qed.

Lemma succeeds_refused s now op fp : target op = fp →
  succeeds s (now, true, op) = negb (refused (state_of s fp) op).
Proof.
  intros <-. unfold state_of.
  destruct op as [fp id key|fp by_ no|fp by_|fp by_ re|fp by_ re|fp p|fp]; cbn [succeeds target]; [done|..];
    unfold pre_approve, accept, revoke, reject, update_profile, remove, update_record;
    destruct (records s !! fp) as [r|]; cbn; rewrite ?persisted_ok; done.
Qed.

Lemma refused_unchanged fp st op : refused st op = true → spec_step fp st op = st.
Proof. unfold spec_step. destruct (decide _); [|done]. by destruct op, st. Qed.

Lemma machine_step st op : in_machine st op = true → decide_step st op = documented_step st op.
Proof. by destruct op, st as [[]|]. Qed.

Lemma machine_run_state fp xs : ∀ st, machine_run fp st xs = true →
  fold_left (spec_step fp) (xs.*2) st = fold_left documented_step (filter (λ op, target op = fp) (xs.*2)) st.
Proof.
  induction xs as [|[[now ok] op] xs IH]; intros st H; [done|]. cbn [machine_run fmap list_fmap snd fold_left] in *.
  unfold spec_step at 2. destruct (decide (target op = fp)) as [Ht|Ht].
  - rewrite filter_cons_True by done. cbn [fold_left]. rewrite !andb_true_iff in H. destruct H as [[Hm _] H].
    rewrite machine_step by done. by apply IH.
  - rewrite filter_cons_False by done. by apply IH.
Qed.


(** The operation is an operator's grant, or takes a grant away. *)
Definition grants fp (op : Op) : bool :=
  bool_decide (target op = fp) &&
  match op with Accept _ _ | PreApprove _ _ _ => true | _ => false end.
Definition denies fp (op : Op) : bool :=
  bool_decide (target op = fp) &&
  match op with Revoke _ _ _ | Reject _ _ _ | Remove _ => true | _ => false end.

Definition removes fp (op : Op) : bool :=
  match op with Remove fp' => bool_decide (fp' = fp) | _ => false end.

(** A fingerprint is accepted only by an operator: if it ends a run
    accepted and did not start it so, the run contains an accept or a
    pre-approval of it, after which nothing revoked, rejected or removed it. *)
Theorem accepted_needs_operator s xs fp
  (H0 : state_of s fp ≠ Some Accepted) (H1 : state_of (run s xs) fp = Some Accepted) :
  ∃ xs1 x xs2, xs = xs1 ++ x :: xs2 ∧ grants fp x.2 = true ∧
    forallb (λ y, negb (denies fp y.2)) xs2 = true.
Proof.
  revert H1. induction xs as [|x xs IH] using rev_ind; intros H1; [done|].
  rewrite store_run_snoc in H1. destruct x as [[now ok] op]. rewrite step_state in H1.
  destruct (grants fp op) eqn:Eg.
  { exists xs, (now, ok, op), []. by split. }
  assert (Hkeep : state_of (run s xs) fp = Some Accepted ∧ denies fp op = false).
  { unfold spec_step, grants, denies in *. destruct (decide (target op = fp)) as [Ht|Ht].
    - rewrite bool_decide_eq_true_2 in * by done. simpl in *.
      destruct op, (state_of (run s xs) fp); simpl in *; try done; congruence.
    - by rewrite bool_decide_eq_false_2. }
  destruct Hkeep as [Hst Hden]. destruct (IH Hst) as (xs1 & x & xs2 & -> & Hg & Hall).
  exists xs1, x, (xs2 ++ [(now, ok, op)]). split; [by rewrite <- app_assoc|]. split; [done|].
  rewrite forallb_app, Hall. simpl. by rewrite Hden.
Qed.

(** C32: the first key presented for a fingerprint is kept: until the record
    is removed no register and no decision replaces a bound key. *)
Theorem bound_key_is_permanent s xs fp r
  (Hr : records s !! fp = Some r) (Hkey : pubkey_hex r ≠ "")
  (Hxs : forallb (λ x, negb (removes fp x.2)) xs = true) :
  ∃ r', records (run s xs) !! fp = Some r' ∧ pubkey_hex r' = pubkey_hex r.
Proof.
  induction xs as [|x xs IH] using rev_ind; [by exists r|].
  rewrite forallb_app in Hxs. apply andb_true_iff in Hxs as [Hxs Hx].
  destruct (IH Hxs) as (r' & Hr' & Hk'). rewrite store_run_snoc. destruct x as [[now ok] op].
  rewrite step_lookup, Hr'. case_decide as Ht; [|eauto]. subst fp.
  destruct op; simpl in *; try (eexists; split; [done|]; simpl; done).
  - eexists. split; [done|]. unfold touch. simpl.
    rewrite decide_False; [done|]. intros [? _]. congruence.
  - by rewrite bool_decide_eq_true_2 in Hx.
Qed.

(** With a file store whose writes succeed, a restart loses nothing but
    the last-seen times: loading the file after any run from an empty store
    gives the records held in memory. *)
Theorem restart_restores_records xs
  (Hok : forallb (λ x, x.1.2) xs = true) :
  let s := run (mkApprovalStore ∅ (Some None)) xs in
  ∃ f s', sto_file s = Some f ∧ load_from_path f = Ok s' ∧
    ∀ fp, forget <$> records s' !! fp = forget <$> records s !! fp.
Proof.
  intros s. cut (keyed (records s) ∧ durable s); [by intros [_ ?]|]. subst s.
  induction xs as [|x xs IH] using rev_ind.
  { split; [by intros fp r H; cbn in H; rewrite lookup_empty in H|]. by eexists None, _. }
  rewrite forallb_app in Hok. apply andb_true_iff in Hok as [Hok Hx].
  destruct (IH Hok) as [Hk Hd]. rewrite store_run_snoc. destruct x as [[now ok] op].
  simpl in Hx. rewrite andb_true_r in Hx. subst ok.
  split; [by apply step_keyed|by apply step_durable].
Qed.

(** An accept whose write fails reports an error and grants authority. *)
Lemma failed_accept_grants now fp by_ s r f :
  records s !! fp = Some r → sto_file s = Some f →
  (accept now false fp by_ s).1 = Err (Io WriteFailed) ∧
  state_of (accept now false fp by_ s).2 fp = Some Accepted.
Proof.
  intros Hr Hf. unfold accept, update_record, persisted, persist, state_of. rewrite Hr.
  cbn [sto_file with_records]. rewrite Hf. cbn [fst snd records with_records].
  by rewrite lookup_insert_eq.
Qed.

(** A reject is not restricted to pending records. *)
Lemma reject_any_state now ok fp by_ reason s st :
  state_of s fp = Some st → state_of (reject now ok fp by_ reason s).2 fp = Some Rejected.
Proof.
  intros H. pose proof (step_state now ok (Reject fp by_ reason) s fp) as Hs.
  cbn [step] in Hs. rewrite Hs. unfold spec_step. by rewrite decide_True, H.
Qed.

(** A revoke is not restricted to accepted records. *)
Lemma revoke_any_state now ok fp by_ reason s st :
  state_of s fp = Some st → state_of (revoke now ok fp by_ reason s).2 fp = Some Revoked.
Proof.
  intros H. pose proof (step_state now ok (Revoke fp by_ reason) s fp) as Hs.
  cbn [step] in Hs. rewrite Hs. unfold spec_step. by rewrite decide_True, H.
Qed.
End Facts.

(** ** Witnesses: a bit-string file format *)
#[export] Instance ApprovalState_countable : Countable ApprovalState.
Proof.
  refine (inj_countable' (λ st, match st with Pending => 0 | Accepted => 1 | Rejected => 2 | Revoked => 3 end)
    (λ n, match n with 0 => Pending | 1 => Accepted | 2 => Rejected | _ => Revoked end) _).
  by intros [].
Defined.

#[export] Instance AgentProfile_eq_dec : EqDecision AgentProfile.
Proof. solve_decision. Defined.

#[export] Instance AgentProfile_countable : Countable AgentProfile.
Proof.
  refine (inj_countable'
    (λ p, (description p, client_id p, region p, environment p, purpose p, owner_contact p,
           notes p, labels p))
    (λ t, match t with (a, b, c, d, e, f, g, h) => mkAgentProfile a b c d e f g h end) _).
  by intros [].
Defined.

#[export] Instance ApprovalRecord_eq_dec : EqDecision ApprovalRecord.
Proof. solve_decision. Defined.

#[export] Instance ApprovalRecord_countable : Countable ApprovalRecord.
Proof.
  refine (inj_countable'
    (λ r, (fingerprint r, agent_id r, pubkey_hex r, ar_state r, first_seen_ms r,
           (approved_at_ms r, approved_by r, revoked_at_ms r, revoked_by r, revoke_reason r,
            last_seen_ms r, profile r)))
    (λ t, match t with (a, b, c, d, e, (f, g, h, i, j, k, l)) =>
            mkApprovalRecord a b c d e f g h i j k l end) _).
  by intros [].
Defined.

#[export] Instance bit_codec : ApprovalCodec := {|
  to_string_pretty l := bits_of l;
  from_str s := of_bits s;
|}.

#[export] Instance bit_codec_laws : ApprovalCodecLaws bit_codec.
Proof. split; intros l; [apply of_bits_of|apply bits_of_not_blank]. Qed.

Definition demo_ops : list (Z * bool * Op) :=
  [(1, true, Register "fp1" "eu-01" "beef"); (2, true, Accept "fp1" "alice");
   (3, true, Register "fp1" "eu-01" "f00d")]%Z.


Lemma accepted_needs_operator_witness :
  ∃ xs1 x xs2, demo_ops = xs1 ++ x :: xs2 ∧ grants "fp1" x.2 = true.
Proof.
  destruct (accepted_needs_operator in_memory demo_ops "fp1") as (xs1 & x & xs2 & E & Hg & _);
    [discriminate|reflexivity|]. by exists xs1, x, xs2.
Defined.

Lemma bound_key_is_permanent_witness :
  let s := run in_memory [(1%Z, true, Register "fp1" "eu-01" "beef")] in
  ∃ r', records (run s demo_ops) !! "fp1" = Some r' ∧ pubkey_hex r' = "beef".
Proof.
  intros s.
  apply (bound_key_is_permanent s demo_ops "fp1" (new_record 1 "fp1" "eu-01" "beef"));
    [reflexivity|discriminate|reflexivity].
Defined.

Lemma restart_restores_records_witness :
  ∃ f s', sto_file (run (mkApprovalStore ∅ (Some None)) demo_ops) = Some f ∧
    load_from_path f = Ok s'.
Proof.
  destruct (restart_restores_records demo_ops eq_refl) as (f & s' & E & Hl & _).
  by exists f, s'.
Defined.
