(* ===== verification/Catalog.v ===== *)
(** * The credential catalog ([crates/agent/src/catalog.rs])

    The credentials the controller pushed, by id, with the per-deployment
    allow-list the engine factory resolves through. The lock around the map is
    never poisoned: nothing panics while it is held. *)
From stdpp Require Import base gmap list strings.
From Stdlib Require Import ZArith.
From S2P Require Import Prelude Decimal Bytes Json.
Local Open Scope string_scope.

(** [crates/common/src/config.rs] *)
Inductive ExchangeType :=
| Custom | Binance | BinanceTestnet | Bybit | BybitTestnet | HyperLiquid | HyperLiquidTestnet.
Inductive ProductType := SpotProduct | LinearPerp | InversePerp.

Inductive CredentialError :=
| BadExchange (raw : string)
| BadProduct (raw : string)
| BadDecimal (msg : string).

Inductive ResolveError := UnknownId (id : string).

Definition parse_exchange (raw : string) : option ExchangeType :=
  let s := to_ascii_lowercase raw in
  if bool_decide (s = "binance") then Some Binance
  else if bool_decide (s = "binance_testnet") || bool_decide (s = "binance-testnet")
  then Some BinanceTestnet
  else if bool_decide (s = "bybit") then Some Bybit
  else if bool_decide (s = "bybit_testnet") || bool_decide (s = "bybit-testnet") then Some BybitTestnet
  else if bool_decide (s = "hyperliquid") then Some HyperLiquid
  else if bool_decide (s = "hyperliquid_testnet") || bool_decide (s = "hyperliquid-testnet")
  then Some HyperLiquidTestnet
  else if bool_decide (s = "custom") then Some Custom
  else None.

Definition parse_product (raw : string) : option ProductType :=
  let s := to_ascii_lowercase raw in
  if bool_decide (s = "spot") then Some SpotProduct
  else if bool_decide (s = "linear_perp") || bool_decide (s = "linear-perp")
          || bool_decide (s = "linearperp") then Some LinearPerp
  else if bool_decide (s = "inverse_perp") || bool_decide (s = "inverse-perp")
          || bool_decide (s = "inverseperp") then Some InversePerp
  else None.

(** [crates/control/src/messages.rs] *)
Record PushedCredential := mkPushed {
  pc_id : string;
  pc_exchange : string;
  pc_product : string;
  pc_api_key : string;
  pc_api_secret : string;
  pc_max_notional_quote : option string;
  pc_default_symbol : option string;
}.

(** [crates/common/src/settings.rs] *)
Record ResolvedCredential {D : Decimal} := mkResolved {
  rc_id : string;
  rc_exchange : ExchangeType;
  rc_product : ProductType;
  rc_api_key : string;
  rc_api_secret : string;
  rc_max_notional_quote : option dec;
  rc_default_symbol : option string;
}.

Arguments mkResolved {D}.

(** The credentials; the settings are constant. *)
Abbreviation CredentialCatalog := (gmap string ResolvedCredential).

Section Catalog.
Context {D : Decimal} {J : Json} {JD : JsonDecimal}.

Definition parse_limit (s : option string) : result (option dec) CredentialError :=
  match s with
  | None => Ok None
  | Some s => match parse_decimal s with Ok d => Ok (Some d) | Err e => Err (BadDecimal e) end
  end.

Definition resolved_of (p : PushedCredential) : result ResolvedCredential CredentialError :=
  match parse_exchange (pc_exchange p) with
  | None => Err (BadExchange (pc_exchange p))
  | Some exchange =>
      match parse_product (pc_product p) with
      | None => Err (BadProduct (pc_product p))
      | Some product =>
          match parse_limit (pc_max_notional_quote p) with
          | Err e => Err e
          | Ok limit =>
              Ok (mkResolved (pc_id p) exchange product (pc_api_key p) (pc_api_secret p) limit
                    (pc_default_symbol p))
          end
      end
  end.

Definition catalog_insert (p : PushedCredential) (c : CredentialCatalog) :
    result unit CredentialError * CredentialCatalog :=
  match resolved_of p with
  | Err e => (Err e, c)
  | Ok r => (Ok tt, <[pc_id p := r]> c)
  end.

Definition catalog_remove (id : string) (c : CredentialCatalog) : CredentialCatalog := delete id c.

Definition resolve (id : string) (c : CredentialCatalog) : result ResolvedCredential ResolveError :=
  match c !! id with Some r => Ok r | None => Err (UnknownId id) end.

Definition resolve_for (id : string) (allowlist : list string) (c : CredentialCatalog) :
    result ResolvedCredential ResolveError :=
  if negb (existsb (λ a, bool_decide (a = id)) allowlist) then Err (UnknownId id) else resolve id c.

Definition catalog_len (c : CredentialCatalog) : nat := size c.
Definition catalog_is_empty (c : CredentialCatalog) : bool := bool_decide (catalog_len c = 0).

(** ** What a deployment can see *)
Inductive CatalogOp := Push (p : PushedCredential) | Forget (id : string).

Definition catalog_step (c : CredentialCatalog) (o : CatalogOp) : CredentialCatalog :=
  match o with Push p => (catalog_insert p c).2 | Forget id => catalog_remove id c end.

(** The effect of an operation on an id: [None] when it says nothing of it
    (another id, or a push that is refused). *)
Definition effect_on (id : string) (o : CatalogOp) : option (option ResolvedCredential) :=
  match o with
  | Push p =>
      if decide (pc_id p = id)
      then match resolved_of p with Ok r => Some (Some r) | Err _ => None end else None
  | Forget i => if decide (i = id) then Some None else None
  end.

Lemma catalog_lookup id ops c :
  fold_left catalog_step ops c !! id = default (c !! id) (last (omap (effect_on id) ops)).
Proof.
  induction ops as [|o ops IH] using rev_ind; [done|].
  rewrite fold_left_app, omap_app, last_app. cbn [fold_left].
  destruct o as [p|i]; simpl.
  - unfold catalog_insert. destruct (resolved_of p) as [r|e] eqn:E; simpl.
    + destruct (decide (pc_id p = id)) as [<-|Hne]; simpl; [by rewrite lookup_insert_eq|].
      by rewrite lookup_insert_ne.
    + by destruct (decide (pc_id p = id)).
  - unfold catalog_remove. destruct (decide (i = id)) as [<-|Hne]; simpl; [by rewrite lookup_delete_eq|].
    by rewrite lookup_delete_ne.
Qed.

Lemma resolve_for_spec id allow c :
  resolve_for id allow c =
  if decide (id ∈ allow) then match c !! id with Some r => Ok r | None => Err (UnknownId id) end
  else Err (UnknownId id).
Proof.
  unfold resolve_for. case_decide as H.
  - assert (existsb (λ a, bool_decide (a = id)) allow = true) as ->; [|done].
    apply existsb_exists. exists id. split; [by apply list_elem_of_In|]. by apply bool_decide_eq_true.
  - assert (existsb (λ a, bool_decide (a = id)) allow = false) as ->; [|done].
    apply not_true_iff_false. intros (a & Ha & ->%bool_decide_eq_true)%existsb_exists.
    by apply H, list_elem_of_In.
Qed.

(** After any pushes and removals, a deployment resolves exactly the ids of
    its allow-list, each to the last push of it that was accepted and not
    removed since; a refused push changes nothing. *)
Lemma resolves_only_allowed id allow ops r :
  resolve_for id allow (fold_left catalog_step ops ∅) = Ok r ↔
  id ∈ allow ∧ last (omap (effect_on id) ops) = Some (Some r).
Proof.
  rewrite resolve_for_spec, catalog_lookup, lookup_empty. case_decide as H; [|naive_solver].
  destruct (last (omap (effect_on id) ops)) as [[r'|]|]; simpl; naive_solver.
Qed.
End Catalog.
