(* ===== verification/GraphSinks.v ===== *)
(** * What the engine does with the actions of its graph ([crates/engine/src/market_maker.rs])

    The loop of [tick_strategy_graph] over the actions of a tick, the quotes it
    sends to other engines and the quotes an engine receives, and the atomic
    bundles: their legs on the shared dashboard ([crates/dashboard/src/state.rs]),
    the sweep that acknowledges legs, the watchdog that rolls a bundle back, and
    the restart of the process, with the bundles its checkpoints held.
    Timestamps are nanoseconds. Rows of the audit log are left out. *)
From stdpp Require Import base gmap sets list strings.
From Stdlib Require Import ZArith QArith Qabs Qminmax Lqa Lia.
From S2P Require Import Prelude Decimal Types Bytes KillSwitch OrderManager Evaluator Catalog.
Local Open Scope nat_scope.

(** [format!("{:?}", …).to_lowercase()] of a venue and of a product, and [ProductType::label]. *)
Definition exchange_debug (t : ExchangeType) : string :=
  match t with
  | Custom => "custom" | Binance => "binance" | BinanceTestnet => "binancetestnet" | Bybit => "bybit"
  | BybitTestnet => "bybittestnet" | HyperLiquid => "hyperliquid" | HyperLiquidTestnet => "hyperliquidtestnet"
  end.
Definition product_debug (p : ProductType) : string :=
  match p with SpotProduct => "spot" | LinearPerp => "linearperp" | InversePerp => "inverseperp" end.
Definition product_type_label (p : ProductType) : string :=
  match p with SpotProduct => "spot" | LinearPerp => "linear_perp" | InversePerp => "inverse_perp" end.

Inductive BundleLegRole := MakerLeg | HedgeLeg.
#[export] Instance BundleLegRole_eq_dec : EqDecision BundleLegRole.
Proof. solve_decision. Defined.
#[export] Instance BundleLegRole_countable : Countable BundleLegRole.
Proof.
  refine (inj_countable' (λ r, match r with MakerLeg => true | HedgeLeg => false end)
    (λ b : bool, if b then MakerLeg else HedgeLeg) _). by intros [].
Defined.

Section Sinks.
Context {D : Decimal} {C : Clock} {I : HashMapIter}.

Record InflightAtomicBundle := mkInflight {
  dispatched_at : Z;
  timeout_ms : Z;
  maker_venue : string;
  maker_symbol : string;
  maker_side : Side;
  maker_price : dec;
  maker_acked : bool;
  hedge_venue : string;
  hedge_symbol : string;
  hedge_side : Side;
  hedge_price : dec;
  hedge_acked : bool;
}.

Definition both_legs_acked (b : InflightAtomicBundle) : bool := maker_acked b && hedge_acked b.

Record AtomicBundleLeg := mkLeg {
  leg_venue : string;
  leg_symbol : string;
  leg_side : Side;
  leg_price : dec;
  leg_acked : bool;
}.

(** The shared dashboard: the legs, and the channel of a client for a symbol
    with the texts it holds. *)
Record SinkDash := mkDash {
  atomic_bundle_legs : gmap (string * BundleLegRole) AtomicBundleLeg;
  symbol_to_client : gmap string string;
  config_overrides : gmap (string * string) (list string);
}.

Definition set_legs (l : gmap (string * BundleLegRole) AtomicBundleLeg) (d : SinkDash) : SinkDash :=
  mkDash l (symbol_to_client d) (config_overrides d).

Definition client_for_symbol (symbol : string) (d : SinkDash) : string :=
  default "default"%string (symbol_to_client d !! symbol).

Definition send_config_override (symbol payload : string) (d : SinkDash) : bool * SinkDash :=
  let key := (client_for_symbol symbol d, symbol) in
  match config_overrides d !! key with
  | Some queue => (true, mkDash (atomic_bundle_legs d) (symbol_to_client d) (<[key := queue ++ [payload]]> (config_overrides d)))
  | None => (false, d)
  end.

Definition register_atomic_bundle_leg (id : string) (role : BundleLegRole) (venue symbol : string) (side : Side)
    (price : dec) (d : SinkDash) : SinkDash :=
  set_legs (<[(id, role) := mkLeg venue symbol side price false]> (atomic_bundle_legs d)) d.

Definition leg_matches (venue symbol : string) (side : Side) (price tol : dec) (l : AtomicBundleLeg) : bool :=
  String.eqb (leg_venue l) venue && String.eqb (leg_symbol l) symbol && bool_decide (leg_side l = side)
  && dleb (dabs (dsub (leg_price l) price)) tol && negb (leg_acked l).

Definition pending_bundle_leg_matches (venue symbol : string) (side : Side) (price tol : dec) (d : SinkDash) :
    list (string * BundleLegRole) :=
  fst <$> List.filter (λ kv, leg_matches venue symbol side price tol kv.2) (hm_iter (atomic_bundle_legs d)).

Definition acked_leg (l : AtomicBundleLeg) : AtomicBundleLeg :=
  mkLeg (leg_venue l) (leg_symbol l) (leg_side l) (leg_price l) true.

Definition ack_atomic_bundle_leg (d : SinkDash) (key : string * BundleLegRole) : SinkDash :=
  match atomic_bundle_legs d !! key with
  | Some l => set_legs (<[key := acked_leg l]> (atomic_bundle_legs d)) d
  | None => d
  end.

Definition leg_acked_at (key : string * BundleLegRole) (d : SinkDash) : bool :=
  from_option leg_acked false (atomic_bundle_legs d !! key).

Definition atomic_bundle_ack_state (id : string) (d : SinkDash) : bool * bool :=
  (leg_acked_at (id, MakerLeg) d, leg_acked_at (id, HedgeLeg) d).

Definition clear_atomic_bundle (id : string) (d : SinkDash) : SinkDash :=
  set_legs (filter (λ kv, kv.1.1 ≠ id) (atomic_bundle_legs d)) d.

(** ** The engine's part *)
Record SinkEngine := mkSinkEngine {
  se_symbol : string;
  se_exchange : ExchangeType;
  se_product_type : ProductType;
  se_product : ProductSpec;
  se_kill : KillSwitch;
  graph_spread_mult : dec;
  graph_size_mult : dec;
  graph_volatility_override : option dec;
  graph_quotes_override : option (list QuotePair);
  inflight_atomic_bundles : gmap string InflightAtomicBundle;
}.

Definition self_venue (e : SinkEngine) : string := exchange_debug (se_exchange e).

Definition set_kill (k : KillSwitch) (e : SinkEngine) : SinkEngine :=
  mkSinkEngine (se_symbol e) (se_exchange e) (se_product_type e) (se_product e) k (graph_spread_mult e)
    (graph_size_mult e) (graph_volatility_override e) (graph_quotes_override e) (inflight_atomic_bundles e).
Definition set_graph_spread_mult (m : dec) (e : SinkEngine) : SinkEngine :=
  mkSinkEngine (se_symbol e) (se_exchange e) (se_product_type e) (se_product e) (se_kill e) (dmax m (dlit 1 0))
    (graph_size_mult e) (graph_volatility_override e) (graph_quotes_override e) (inflight_atomic_bundles e).
Definition set_graph_size_mult (m : dec) (e : SinkEngine) : SinkEngine :=
  mkSinkEngine (se_symbol e) (se_exchange e) (se_product_type e) (se_product e) (se_kill e) (graph_spread_mult e)
    (dmin (dmax m (dlit 1 1)) (dlit 1 0)) (graph_volatility_override e) (graph_quotes_override e)
    (inflight_atomic_bundles e).
Definition set_volatility (v : option dec) (e : SinkEngine) : SinkEngine :=
  mkSinkEngine (se_symbol e) (se_exchange e) (se_product_type e) (se_product e) (se_kill e) (graph_spread_mult e)
    (graph_size_mult e) v (graph_quotes_override e) (inflight_atomic_bundles e).
Definition set_override (q : option (list QuotePair)) (e : SinkEngine) : SinkEngine :=
  mkSinkEngine (se_symbol e) (se_exchange e) (se_product_type e) (se_product e) (se_kill e) (graph_spread_mult e)
    (graph_size_mult e) (graph_volatility_override e) q (inflight_atomic_bundles e).
Definition set_bundles (b : gmap string InflightAtomicBundle) (e : SinkEngine) : SinkEngine :=
  mkSinkEngine (se_symbol e) (se_exchange e) (se_product_type e) (se_product e) (se_kill e) (graph_spread_mult e)
    (graph_size_mult e) (graph_volatility_override e) (graph_quotes_override e) b.

(** ** Quotes *)
Definition to_side (s : QuoteSide) : Side := match s with QuoteBuy => Buy | QuoteSell => Sell end.

(** A quote on the tick and lot of the engine's product. *)
Definition sink_quote (p : ProductSpec) (side : QuoteSide) (price qty : dec) : Quote :=
  mkQuote (to_side side) (round_price p price) (round_qty p qty).

Definition of_side (s : Side) (qs : list Quote) : list Quote := List.filter (λ q, bool_decide (q_side q = s)) qs.

(** The n-th bid with the n-th ask. *)
Definition pair_quotes (bids asks : list Quote) : list QuotePair :=
  (λ i, mkQuotePair (bids !! i) (asks !! i)) <$> seq 0 (Nat.max (length bids) (length asks)).

(** Inner first: bids from the highest, asks from the lowest. *)
Definition sort_bids : list Quote → list Quote := sort_by (λ a b, dleb (q_price b) (q_price a)).
Definition sort_asks : list Quote → list Quote := sort_by (λ a b, dleb (q_price a) (q_price b)).

Definition inner_first (qs : list Quote) : list QuotePair :=
  pair_quotes (sort_bids (of_side Buy qs)) (sort_asks (of_side Sell qs)).

Definition graph_quotes (p : ProductSpec) (qs : list GraphQuote) : list QuotePair :=
  inner_first ((λ q, sink_quote p (gq_side q) (gq_price q) (gq_qty q)) <$> qs).

Definition venue_quote (p : ProductSpec) (q : VenueQuote) : Quote := sink_quote p (vq_side q) (vq_price q) (vq_qty q).

Definition targets_self (e : SinkEngine) (q : VenueQuote) : bool :=
  String.eqb (vq_venue q) (self_venue e) && String.eqb (vq_symbol q) (se_symbol e)
  && (String.eqb (vq_product q) "" || String.eqb (vq_product q) (product_debug (se_product_type e))).

(** [serde_json] on a list of venue quotes. *)
Class VenueCodec := {
  encode_quotes : list VenueQuote → string;
  decode_quotes : string → option (list VenueQuote);
}.
Context {VC : VenueCodec}.

Definition bucket (m : gmap string (list VenueQuote)) (q : VenueQuote) : gmap string (list VenueQuote) :=
  <[vq_symbol q := default [] (m !! vq_symbol q) ++ [q]]> m.

Definition remote_by_symbol (e : SinkEngine) (qs : list VenueQuote) : gmap string (list VenueQuote) :=
  fold_left bucket (List.filter (λ q, negb (targets_self e q)) qs) ∅.

Definition send_batch (d : SinkDash) (sb : string * list VenueQuote) : SinkDash :=
  (send_config_override sb.1 (encode_quotes sb.2) d).2.

Definition venue_quotes_sink (qs : list VenueQuote) (e : SinkEngine) (d : option SinkDash) : SinkEngine * option SinkDash :=
  (set_override (Some (inner_first (venue_quote (se_product e) <$> List.filter (targets_self e) qs))) e,
   (λ d, fold_left send_batch (hm_iter (remote_by_symbol e qs)) d) <$> d).

(** [ConfigOverride::ExternalVenueQuotes] at the engine that receives it. *)
Definition external_venue_quotes (payload : string) (e : SinkEngine) : SinkEngine :=
  match decode_quotes payload with
  | Some entries =>
      set_override (Some (inner_first (venue_quote (se_product e) <$>
        List.filter (λ q, String.eqb (vq_symbol q) (se_symbol e)) entries))) e
  | None => e
  end.

(** ** Atomic bundles *)
Definition bundle_id (s : AtomicBundleSpec) : string :=
  (vq_venue (ab_maker s) +:+ "-" +:+ vq_symbol (ab_maker s) +:+ "-" +:+
   vq_venue (ab_hedge s) +:+ "-" +:+ vq_symbol (ab_hedge s))%string.

Definition inflight_of (now : Z) (s : AtomicBundleSpec) : InflightAtomicBundle :=
  let m := ab_maker s in
  let h := ab_hedge s in
  mkInflight now (ab_timeout_ms s) (vq_venue m) (vq_symbol m) (to_side (vq_side m)) (vq_price m) false
    (vq_venue h) (vq_symbol h) (to_side (vq_side h)) (vq_price h) false.

Definition register_leg (id : string) (role : BundleLegRole) (q : VenueQuote) (d : SinkDash) : SinkDash :=
  register_atomic_bundle_leg id role (vq_venue q) (vq_symbol q) (to_side (vq_side q)) (vq_price q) d.

(** A leg for another symbol goes to that symbol's channel. *)
Definition send_leg (e : SinkEngine) (d : SinkDash) (q : VenueQuote) : SinkDash :=
  if String.eqb (vq_symbol q) (se_symbol e) then d
  else (send_config_override (vq_symbol q) (encode_quotes [q]) d).2.

Definition self_leg (e : SinkEngine) (q : VenueQuote) : bool :=
  String.eqb (vq_venue q) (self_venue e) && String.eqb (vq_symbol q) (se_symbol e).

Definition dispatch_bundle (now : Z) (s : AtomicBundleSpec) (e : SinkEngine) (d : option SinkDash) :
    SinkEngine * option SinkDash :=
  let legs := [ab_maker s; ab_hedge s] in
  let id := bundle_id s in
  let own := venue_quote (se_product e) <$> List.filter (self_leg e) legs in
  let override := match own with
                  | [] => graph_quotes_override e
                  | _ => Some (pair_quotes (of_side Buy own) (of_side Sell own))
                  end in
  (set_bundles (<[id := inflight_of now s]> (inflight_atomic_bundles e)) (set_override override e),
   (λ d, register_leg id HedgeLeg (ab_hedge s) (register_leg id MakerLeg (ab_maker s) (fold_left (send_leg e) legs d))) <$> d).

(** ** One action, and all of a tick *)
Definition graph_kill_level (level : Z) : option KillLevel :=
  match level with
  | 1%Z => Some WidenSpreads | 2%Z => Some StopNewOrders | 3%Z => Some CancelAll
  | 4%Z => Some FlattenAll | 5%Z => Some Disconnect | _ => None
  end.

Definition kill_escalate (now : instant) (level : Z) (reason : string) (venue : option string) (e : SinkEngine) : SinkEngine :=
  let elsewhere := match venue with
                   | Some target => negb (String.eqb (to_ascii_lowercase target) (to_ascii_lowercase (self_venue e)))
                   | None => false
                   end in
  if elsewhere then e
  else match graph_kill_level level with
       | Some l => set_kill (manual_trigger l reason now (se_kill e)) e
       | None => e
       end.

Definition apply_sink (inow : instant) (now : Z) (st : SinkEngine * option SinkDash) (a : SinkAction) :
    SinkEngine * option SinkDash :=
  let '(e, d) := st in
  match a with
  | SpreadMult m => (set_graph_spread_mult m e, d)
  | SizeMult m => (set_graph_size_mult m e, d)
  | Volatility s => (if dltb dec0 s then set_volatility (Some s) e else e, d)
  | KillEscalate level reason venue => (kill_escalate inow level reason venue e, d)
  | Quotes qs => (set_override (Some (graph_quotes (se_product e) qs)) e, d)
  | VenueQuotes qs => venue_quotes_sink qs e d
  | AtomicBundle s => dispatch_bundle now s e d
  | Flatten policy => (set_kill (manual_trigger FlattenAll ("graph flatten: " +:+ policy) inow (se_kill e)) e, d)
  end.

Definition apply_sinks (inow : instant) (now : Z) (actions : list SinkAction) (e : SinkEngine) (d : option SinkDash) :
    SinkEngine * option SinkDash :=
  fold_left (apply_sink inow now) actions (set_volatility None e, d).

(** ** The sweep and the watchdog *)
Definition half_tick (e : SinkEngine) : dec := ddiv (tick_size (se_product e)) (dlit 2 0).

(** One live order acknowledges the legs it matches. *)
Definition publish_order (e : SinkEngine) (d : SinkDash) (o : OrderId * Side * dec * dec * string) : SinkDash :=
  let '(_, side, price, _, _) := o in
  fold_left ack_atomic_bundle_leg
    (pending_bundle_leg_matches (self_venue e) (se_symbol e) side price (half_tick e) d) d.

Definition local_match (e : SinkEngine) (live : list (OrderId * Side * dec * dec * string)) (venue symbol : string)
    (side : Side) (price : dec) : bool :=
  if negb (String.eqb venue (self_venue e)) || negb (String.eqb symbol (se_symbol e)) then false
  else existsb (λ o, let '(_, s, p, _, _) := o in bool_decide (s = side) && dleb (dabs (dsub p price)) (half_tick e)) live.

Definition with_acks (maker hedge : bool) (b : InflightAtomicBundle) : InflightAtomicBundle :=
  mkInflight (dispatched_at b) (timeout_ms b) (maker_venue b) (maker_symbol b) (maker_side b) (maker_price b) maker
    (hedge_venue b) (hedge_symbol b) (hedge_side b) (hedge_price b) hedge.

Definition match_local (e : SinkEngine) (live : list (OrderId * Side * dec * dec * string)) (b : InflightAtomicBundle) :
    InflightAtomicBundle :=
  with_acks (maker_acked b || local_match e live (maker_venue b) (maker_symbol b) (maker_side b) (maker_price b))
    (hedge_acked b || local_match e live (hedge_venue b) (hedge_symbol b) (hedge_side b) (hedge_price b)) b.

Definition merge_dash (d : option SinkDash) (id : string) (b : InflightAtomicBundle) : InflightAtomicBundle :=
  match d with
  | Some d => let '(maker, hedge) := atomic_bundle_ack_state id d in with_acks (maker_acked b || maker) (hedge_acked b || hedge) b
  | None => b
  end.

(** The identifiers of the bundles completed, in the order of the table. *)
Definition sweep_atomic_bundle_acks (live : list (OrderId * Side * dec * dec * string)) (e : SinkEngine) (d : option SinkDash) :
    list string * SinkEngine * option SinkDash :=
  let d := (λ d, fold_left (publish_order e) live d) <$> d in
  let bs := map_imap (λ id b, Some (merge_dash d id (match_local e live b))) (inflight_atomic_bundles e) in
  let completed := fst <$> List.filter (λ kv, both_legs_acked kv.2) (hm_iter bs) in
  (completed, set_bundles (filter (λ kv, both_legs_acked kv.2 = false) bs) e,
   (λ d, fold_left (λ d id, clear_atomic_bundle id d) completed d) <$> d).

(** [num_milliseconds().max(0) as u64] *)
Definition elapsed_ms (now at_ : Z) : Z := Z.max 0 (Z.quot (now - at_) 1000000).

Definition bundle_stale (now : Z) (b : InflightAtomicBundle) : bool :=
  (timeout_ms b <=? elapsed_ms now (dispatched_at b))%Z && negb (both_legs_acked b).

Definition roll_back (st : nat * SinkEngine * option SinkDash) (id : string) : nat * SinkEngine * option SinkDash :=
  let '(n, e, d) := st in
  match inflight_atomic_bundles e !! id with
  | Some _ =>
      (S n, set_override None (set_bundles (delete id (inflight_atomic_bundles e)) e), clear_atomic_bundle id <$> d)
  | None => st
  end.

Definition tick_atomic_bundle_watchdog (now : Z) (e : SinkEngine) (d : option SinkDash) : nat * SinkEngine * option SinkDash :=
  fold_left roll_back
    (fst <$> List.filter (λ kv, bundle_stale now kv.2) (hm_iter (inflight_atomic_bundles e))) (0, e, d).
End Sinks.

(** ** Engines that share a dashboard *)
Section System.
Context {D : Decimal} {C : Clock} {I : HashMapIter} {VC : VenueCodec}.

(** The entries of a checkpoint: the ones that do not decode are skipped. *)
Definition restore_entry (m : gmap string InflightAtomicBundle) (raw : option (string * InflightAtomicBundle)) :
    gmap string InflightAtomicBundle :=
  match raw with Some (id, b) => <[id := b]> m | None => m end.

Definition restore_bundles (raws : list (option (string * InflightAtomicBundle))) (e : SinkEngine) : SinkEngine :=
  set_bundles (fold_left restore_entry raws (inflight_atomic_bundles e)) e.

(** What the engine of a number does: a tick of its graph, a refresh, which a
    lock of the protections ends before the sweep and the watchdog, a message
    of its channel. And a restart of the process: new engines, each with its
    checkpoint, and a dashboard without legs. *)
Inductive SinkEvent :=
| EvTick (k : nat) (inow : instant) (now : Z) (actions : list SinkAction)
| EvRefresh (k : nat) (now : Z) (locked : bool) (om : OrderManager)
| EvExternal (k : nat) (payload : string)
| EvRestart (es : list SinkEngine) (checkpoints : list (list (option (string * InflightAtomicBundle)))) (d : SinkDash).

Record SinkSystem := mkSystem { sy_engines : list SinkEngine; sy_dash : SinkDash }.

Definition refresh_bundles (now : Z) (live : list (OrderId * Side * dec * dec * string)) (e : SinkEngine) (d : option SinkDash) :
    list string * SinkEngine * option SinkDash :=
  let '(completed, e, d) := sweep_atomic_bundle_acks live e d in
  let '(_, e, d) := tick_atomic_bundle_watchdog now e d in
  (completed, e, d).

(** The system afterwards, with the bundles completed and the engine they belong to. *)
Definition system_step (s : SinkSystem) (ev : SinkEvent) : SinkSystem * list (nat * string) :=
  match ev with
  | EvTick k inow now actions =>
      match sy_engines s !! k with
      | Some e =>
          let '(e, d) := apply_sinks inow now actions e (Some (sy_dash s)) in
          (mkSystem (<[k := e]> (sy_engines s)) (default (sy_dash s) d), [])
      | None => (s, [])
      end
  | EvRefresh k now locked om =>
      match sy_engines s !! k with
      | Some e =>
          if locked then (s, []) else
          let '(completed, e, d) := refresh_bundles now (live_orders_snapshot om) e (Some (sy_dash s)) in
          (mkSystem (<[k := e]> (sy_engines s)) (default (sy_dash s) d), (λ id, (k, id)) <$> completed)
      | None => (s, [])
      end
  | EvExternal k payload =>
      (mkSystem (alter (external_venue_quotes payload) k (sy_engines s)) (sy_dash s), [])
  | EvRestart es checkpoints d =>
      (mkSystem (imap (λ k e, restore_bundles (default [] (checkpoints !! k)) (set_bundles ∅ e)) es) (set_legs ∅ d), [])
  end.

(** What has been seen of the bundle under an identifier: the bundle as it was
    last dispatched, or restored, and which of its legs stood since then or was
    acknowledged in the checkpoint. *)
Record Sighting := mkSighting { sg_bundle : InflightAtomicBundle; sg_restored : bool; sg_maker : bool; sg_hedge : bool }.

Definition leg_of (r : BundleLegRole) (b : InflightAtomicBundle) : AtomicBundleLeg :=
  match r with
  | MakerLeg => mkLeg (maker_venue b) (maker_symbol b) (maker_side b) (maker_price b) false
  | HedgeLeg => mkLeg (hedge_venue b) (hedge_symbol b) (hedge_side b) (hedge_price b) false
  end.

(** A live order of the engine stands at the leg's venue, symbol and side,
    within half a tick of its price. *)
Definition leg_in (e : SinkEngine) (live : list (OrderId * Side * dec * dec * string)) (l : AtomicBundleLeg) : bool :=
  String.eqb (leg_venue l) (self_venue e) && String.eqb (leg_symbol l) (se_symbol e)
  && existsb (λ o, let '(_, s, p, _, _) := o in
       bool_decide (s = leg_side l)
       && (dleb (dabs (dsub p (leg_price l))) (half_tick e) || dleb (dabs (dsub (leg_price l) p)) (half_tick e))) live.

Definition sight (e : SinkEngine) (live : list (OrderId * Side * dec * dec * string)) (g : Sighting) : Sighting :=
  mkSighting (sg_bundle g) (sg_restored g) (sg_maker g || leg_in e live (leg_of MakerLeg (sg_bundle g)))
    (sg_hedge g || leg_in e live (leg_of HedgeLeg (sg_bundle g))).

Definition sighted_action (id : string) (now : Z) (g : option Sighting) (a : SinkAction) : option Sighting :=
  match a with
  | AtomicBundle s => if String.eqb (bundle_id s) id then Some (mkSighting (inflight_of now s) false false false) else g
  | _ => g
  end.

Definition sighted_restore (b : InflightAtomicBundle) : Sighting := mkSighting b true (maker_acked b) (hedge_acked b).

(** [k] is the engine the bundle belongs to. *)
Definition sighted (k : nat) (id : string) (s : SinkSystem) (ev : SinkEvent) (g : option Sighting) : option Sighting :=
  match ev with
  | EvTick j _ now actions => if is_none (sy_engines s !! j) then g else fold_left (sighted_action id now) actions g
  | EvRefresh j _ locked om =>
      match sy_engines s !! j with
      | Some e => if locked then g else sight e (live_orders_snapshot om) <$> g
      | None => g
      end
  | EvExternal _ _ => g
  | EvRestart _ checkpoints _ => sighted_restore <$> fold_left restore_entry (default [] (checkpoints !! k)) ∅ !! id
  end.

Definition sighted_step (k : nat) (id : string) (st : SinkSystem * option Sighting) (ev : SinkEvent) :
    SinkSystem * option Sighting :=
  ((system_step st.1 ev).1, sighted k id st.1 ev st.2).

Definition sighted_run (k : nat) (id : string) (evs : list SinkEvent) (s : SinkSystem) : SinkSystem * option Sighting :=
  fold_left (sighted_step k id) evs (s, None).

(** Only engine [k] dispatches bundles of the identifier, or finds one in its
    checkpoint. *)
Definition dispatches (id : string) (a : SinkAction) : bool :=
  match a with AtomicBundle s => String.eqb (bundle_id s) id | _ => false end.
Definition holds (id : string) (raw : option (string * InflightAtomicBundle)) : bool :=
  match raw with Some (i, _) => String.eqb i id | None => false end.
Definition originated_by (k : nat) (id : string) (ev : SinkEvent) : bool :=
  match ev with
  | EvTick j _ _ actions => (j =? k)%nat || negb (existsb (dispatches id) actions)
  | EvRestart _ checkpoints _ =>
      forallb (λ jc, (jc.1 =? k)%nat || negb (existsb (holds id) jc.2)) (imap pair checkpoints)
  | _ => true
  end.
End System.

(** ** The dashboard's legs *)
Section LegFacts.
Context {D : Decimal} {C : Clock} {I : HashMapIter} {VC : VenueCodec}.

Lemma send_keeps_legs symbol payload d : atomic_bundle_legs (send_config_override symbol payload d).2 = atomic_bundle_legs d.
Proof. unfold send_config_override. by destruct (_ !! _). Qed.

Lemma fold_keeps_legs {A} (f : SinkDash → A → SinkDash) (Hf : ∀ d a, atomic_bundle_legs (f d a) = atomic_bundle_legs d) l d :
  atomic_bundle_legs (fold_left f l d) = atomic_bundle_legs d.
Proof. revert d. induction l as [|a l IH]; intros d; [done|]. cbn. by rewrite IH, Hf. Qed.

Lemma ack_fold_lookup keys : ∀ d key,
  atomic_bundle_legs (fold_left ack_atomic_bundle_leg keys d) !! key =
  (if decide (key ∈ keys) then acked_leg <$> atomic_bundle_legs d !! key else atomic_bundle_legs d !! key).
Proof.
  induction keys as [|k keys IH]; intros d key; cbn [fold_left].
  - destruct (decide (key ∈ [])) as [H|_]; [by apply elem_of_nil in H|done].
  - rewrite IH. unfold ack_atomic_bundle_leg.
    destruct (decide (key = k)) as [->|Hne].
    + rewrite (decide_True (P := k ∈ k :: keys)) by (apply elem_of_cons; auto).
      destruct (atomic_bundle_legs d !! k) as [l|] eqn:E; [|rewrite E; by destruct (decide _)].
      cbn. rewrite lookup_insert_eq. by destruct (decide _).
    + assert (Hl : atomic_bundle_legs match atomic_bundle_legs d !! k with
        | Some l => set_legs (<[k:=acked_leg l]> (atomic_bundle_legs d)) d | None => d end !! key = atomic_bundle_legs d !! key).
      { destruct (atomic_bundle_legs d !! k); [|done]. cbn. by apply lookup_insert_ne. }
      rewrite Hl. destruct (decide (key ∈ keys)) as [H|H].
      * by rewrite decide_True by (apply elem_of_cons; auto).
      * rewrite decide_False; [done|]. rewrite elem_of_cons. intros [?|?]; auto.
Qed.

(** The live order [o] of [e] stands at the leg [l]. *)
Definition order_at_leg (e : SinkEngine) (l : AtomicBundleLeg) (o : OrderId * Side * dec * dec * string) : bool :=
  let '(_, side, price, _, _) := o in
  String.eqb (leg_venue l) (self_venue e) && String.eqb (leg_symbol l) (se_symbol e) && bool_decide (leg_side l = side)
  && dleb (dabs (dsub (leg_price l) price)) (half_tick e).

Definition ack_if (b : bool) (l : AtomicBundleLeg) : AtomicBundleLeg :=
  mkLeg (leg_venue l) (leg_symbol l) (leg_side l) (leg_price l) (leg_acked l || b).

Lemma publish_order_lookup e d o key :
  atomic_bundle_legs (publish_order e d o) !! key = (λ l, ack_if (order_at_leg e l o) l) <$> atomic_bundle_legs d !! key.
Proof.
  destruct o as [[[[oid side] price] qty] st]. unfold publish_order. rewrite ack_fold_lookup.
  assert (Hk : key ∈ pending_bundle_leg_matches (self_venue e) (se_symbol e) side price (half_tick e) d ↔
    ∃ l, atomic_bundle_legs d !! key = Some l ∧ leg_matches (self_venue e) (se_symbol e) side price (half_tick e) l = true).
  { unfold pending_bundle_leg_matches. rewrite list_elem_of_fmap. split.
    - intros ([k l] & -> & H). apply list_elem_of_In, List.filter_In in H. destruct H as [H1 H2].
      apply list_elem_of_In, hm_iter_elem in H1. eauto.
    - intros (l & H1 & H2). exists (key, l). split; [done|]. apply list_elem_of_In, List.filter_In.
      split; [|done]. by apply list_elem_of_In, hm_iter_elem. }
  destruct (atomic_bundle_legs d !! key) as [l|] eqn:E; cbn.
  - unfold ack_if, order_at_leg. destruct (decide _) as [H|H].
    + apply Hk in H. destruct H as (l' & [= <-] & Hm). unfold leg_matches in Hm.
      apply andb_true_iff in Hm. destruct Hm as [-> Ha]. unfold acked_leg. by rewrite orb_true_r.
    + destruct (leg_matches (self_venue e) (se_symbol e) side price (half_tick e) l) eqn:Em.
      { exfalso. apply H, Hk. eauto. }
      unfold leg_matches in Em. destruct (_ && dleb _ _); cbn in Em; [apply negb_false_iff in Em; rewrite Em|].
      * destruct l; cbn in *. by subst.
      * rewrite orb_false_r. by destruct l.
  - by destruct (decide _).
Qed.

Lemma ack_if_false l : ack_if false l = l.
Proof. unfold ack_if. rewrite orb_false_r. by destruct l. Qed.

Lemma publish_lookup e live : ∀ d key,
  atomic_bundle_legs (fold_left (publish_order e) live d) !! key =
  (λ l, ack_if (existsb (order_at_leg e l) live) l) <$> atomic_bundle_legs d !! key.
Proof.
  induction live as [|o live IH]; intros d key; cbn [fold_left existsb].
  - destruct (atomic_bundle_legs d !! key) as [l|]; cbn; [by rewrite ack_if_false|done].
  - rewrite IH, publish_order_lookup. destruct (atomic_bundle_legs d !! key) as [l|]; [|done]. cbn. f_equal.
    unfold ack_if. cbn. by rewrite <- orb_assoc.
Qed.

Lemma clear_lookup id d key :
  atomic_bundle_legs (clear_atomic_bundle id d) !! key = if decide (key.1 = id) then None else atomic_bundle_legs d !! key.
Proof.
  cbn. destruct (decide (key.1 = id)) as [He|Hne].
  - apply map_lookup_filter_None. right. intros l _ H. by apply H.
  - destruct (atomic_bundle_legs d !! key) as [l|] eqn:E.
    + by apply map_lookup_filter_Some.
    + apply map_lookup_filter_None. by left.
Qed.

Lemma clear_fold_lookup ids : ∀ d key,
  atomic_bundle_legs (fold_left (λ d id, clear_atomic_bundle id d) ids d) !! key =
  if decide (key.1 ∈ ids) then None else atomic_bundle_legs d !! key.
Proof.
  induction ids as [|i ids IH]; intros d key; cbn [fold_left].
  - destruct (decide (key.1 ∈ [])) as [H|_]; [by apply elem_of_nil in H|done].
  - rewrite IH, clear_lookup. destruct (decide (key.1 ∈ ids)) as [H|H].
    + by rewrite decide_True by (apply elem_of_cons; auto).
    + destruct (decide (key.1 = i)) as [->|Hne].
      * by rewrite decide_True by (apply elem_of_cons; auto).
      * rewrite decide_False; [done|]. rewrite elem_of_cons. intros [?|?]; auto.
Qed.
End LegFacts.

(** ** The refresh of the bundles *)
Section RefreshFacts.
Context {D : Decimal} {C : Clock} {I : HashMapIter} {VC : VenueCodec}.

Definition place (e : SinkEngine) : ExchangeType * string * ProductSpec := (se_exchange e, se_symbol e, se_product e).

(** A bundle after the sweep has merged what the engine and the dashboard saw. *)
Definition swept (live : list (OrderId * Side * dec * dec * string)) (e : SinkEngine) (d : SinkDash) (id : string)
    (b : InflightAtomicBundle) : InflightAtomicBundle :=
  merge_dash (Some (fold_left (publish_order e) live d)) id (match_local e live b).
#[local] Arguments swept : simpl never.

Definition settles (now : Z) (b : InflightAtomicBundle) : bool := both_legs_acked b || bundle_stale now b.

(** The legs after the live orders of [e] were published. *)
Definition published (e : SinkEngine) (live : list (OrderId * Side * dec * dec * string)) (d : SinkDash)
    (key : string * BundleLegRole) : option AtomicBundleLeg :=
  (λ l, ack_if (existsb (order_at_leg e l) live) l) <$> atomic_bundle_legs d !! key.

Lemma keys_where {A : Type} (m : gmap string A) (p : string * A → bool) id :
  id ∈ (List.filter p (hm_iter m)).*1 ↔ ∃ b, m !! id = Some b ∧ p (id, b) = true.
Proof.
  rewrite list_elem_of_fmap. split.
  - intros ([k b] & -> & H). apply list_elem_of_In, List.filter_In in H. destruct H as [H1 H2].
    apply list_elem_of_In, hm_iter_elem in H1. eauto.
  - intros (b & H1 & H2). exists (id, b). split; [done|]. apply list_elem_of_In, List.filter_In.
    split; [|done]. by apply list_elem_of_In, hm_iter_elem.
Qed.

Lemma roll_back_fold ids : ∀ n e d,
  let r := fold_left roll_back ids (n, e, Some d) in
  place r.1.2 = place e ∧
  (∀ id, inflight_atomic_bundles r.1.2 !! id = if decide (id ∈ ids) then None else inflight_atomic_bundles e !! id) ∧
  ∃ d', r.2 = Some d' ∧ ∀ key, atomic_bundle_legs d' !! key =
    if decide (key.1 ∈ ids ∧ is_Some (inflight_atomic_bundles e !! key.1)) then None else atomic_bundle_legs d !! key.
Proof.
  induction ids as [|i ids IH]; intros n e d; cbn [fold_left].
  - split; [done|]. split; [intros id|exists d; split; [done|]; intros key].
    + destruct (decide (id ∈ [])) as [H|_]; [by apply elem_of_nil in H|done].
    + destruct (decide _) as [[H _]|_]; [by apply elem_of_nil in H|done].
  - destruct (inflight_atomic_bundles e !! i) as [b|] eqn:E.
    + destruct (IH (S n) (set_override None (set_bundles (delete i (inflight_atomic_bundles e)) e)) (clear_atomic_bundle i d))
        as (Hp & Hb & d' & Hd & Hl).
      assert (Hr : roll_back (n, e, Some d) i =
        (S n, set_override None (set_bundles (delete i (inflight_atomic_bundles e)) e), Some (clear_atomic_bundle i d)))
        by (unfold roll_back; by rewrite E).
      rewrite Hr. split; [exact Hp|]. split.
      * intros id. rewrite Hb. cbn. destruct (decide (id ∈ ids)) as [H|H].
        { by rewrite decide_True by (apply elem_of_cons; auto). }
        destruct (decide (id = i)) as [->|Hne].
        { rewrite lookup_delete_eq. by rewrite decide_True by (apply elem_of_cons; auto). }
        rewrite lookup_delete_ne by done. rewrite decide_False; [done|]. rewrite elem_of_cons. intros [?|?]; auto.
      * exists d'. split; [exact Hd|]. intros key. rewrite Hl, clear_lookup. cbn.
        destruct (decide (key.1 = i)) as [He|Hne].
        { rewrite He. rewrite (decide_True (P := i ∈ i :: ids ∧ _)) by (split; [apply elem_of_cons; auto|eauto]).
          by destruct (decide _). }
        rewrite lookup_delete_ne by done.
        destruct (decide (key.1 ∈ ids ∧ is_Some (inflight_atomic_bundles e !! key.1))) as [[H1 H2]|H].
        { by rewrite decide_True by (split; [apply elem_of_cons; auto|done]). }
        rewrite decide_False; [done|]. rewrite elem_of_cons. intros [[?|?] ?]; auto.
    + destruct (IH n e d) as (Hp & Hb & d' & Hd & Hl).
      assert (Hr : roll_back (n, e, Some d) i = (n, e, Some d)) by (unfold roll_back; by rewrite E).
      rewrite Hr. split; [exact Hp|]. split.
      * intros id. rewrite Hb. destruct (decide (id ∈ ids)) as [H|H].
        { by rewrite decide_True by (apply elem_of_cons; auto). }
        destruct (decide (id = i)) as [->|Hne].
        { rewrite E. by destruct (decide _). }
        rewrite decide_False; [done|]. rewrite elem_of_cons. intros [?|?]; auto.
      * exists d'. split; [exact Hd|]. intros key. rewrite Hl.
        destruct (decide (key.1 ∈ ids ∧ is_Some (inflight_atomic_bundles e !! key.1))) as [[H1 H2]|H].
        { by rewrite decide_True by (split; [apply elem_of_cons; auto|done]). }
        rewrite decide_False; [done|]. rewrite elem_of_cons. intros [[->|?] Hs]; [|auto]. rewrite E in Hs. by destruct Hs.
Qed.

(** A refresh leaves of a bundle what the sweep made of it, unless both legs
    are acknowledged or its time is up; then its legs go with it. *)
Lemma refresh_spec now live e d :
  let r := refresh_bundles now live e (Some d) in
  place r.1.2 = place e ∧
  (∀ id, id ∈ r.1.1 ↔ ∃ b, inflight_atomic_bundles e !! id = Some b ∧ both_legs_acked (swept live e d id b) = true) ∧
  (∀ id, inflight_atomic_bundles r.1.2 !! id =
     b ← inflight_atomic_bundles e !! id; if settles now (swept live e d id b) then None else Some (swept live e d id b)) ∧
  ∃ d', r.2 = Some d' ∧ ∀ key, atomic_bundle_legs d' !! key =
    match inflight_atomic_bundles e !! key.1 with
    | Some b => if settles now (swept live e d key.1 b) then None else published e live d key
    | None => published e live d key
    end.
Proof.
  intros r. unfold r, refresh_bundles, sweep_atomic_bundle_acks. cbn [fmap option_fmap option_map].
  set (bs := map_imap (λ id b, Some (merge_dash (Some (fold_left (publish_order e) live d)) id (match_local e live b)))
    (inflight_atomic_bundles e)).
  assert (Hbs : ∀ id, bs !! id = swept live e d id <$> inflight_atomic_bundles e !! id).
  { intros id. unfold bs. rewrite map_lookup_imap. by destruct (inflight_atomic_bundles e !! id). }
  set (completed := fst <$> List.filter (λ kv, both_legs_acked kv.2) (hm_iter bs)).
  assert (Hc : ∀ id, id ∈ completed ↔ ∃ b, inflight_atomic_bundles e !! id = Some b ∧ both_legs_acked (swept live e d id b) = true).
  { intros id. unfold completed. rewrite keys_where. rewrite Hbs. destruct (inflight_atomic_bundles e !! id); cbn; clear; naive_solver. }
  set (keep := filter (λ kv, both_legs_acked kv.2 = false) bs).
  assert (Hk : ∀ id, keep !! id = b ← inflight_atomic_bundles e !! id;
    if both_legs_acked (swept live e d id b) then None else Some (swept live e d id b)).
  { intros id. unfold keep. rewrite map_lookup_filter, Hbs.
    destruct (inflight_atomic_bundles e !! id) as [b|]; [|done]. cbn.
    destruct (both_legs_acked (swept live e d id b)); [by rewrite option_guard_False|by rewrite option_guard_True]. }
  set (d1 := fold_left (λ d id, clear_atomic_bundle id d) completed _).
  assert (Hd1 : ∀ key, atomic_bundle_legs d1 !! key = if decide (key.1 ∈ completed) then None else published e live d key).
  { intros key. unfold d1, published. by rewrite clear_fold_lookup, publish_lookup. }
  unfold tick_atomic_bundle_watchdog.
  set (ids := fst <$> List.filter (λ kv, bundle_stale now kv.2) (hm_iter (inflight_atomic_bundles (set_bundles keep e)))).
  assert (Hi : ∀ id, id ∈ ids ↔ ∃ b, inflight_atomic_bundles e !! id = Some b ∧
    both_legs_acked (swept live e d id b) = false ∧ bundle_stale now (swept live e d id b) = true).
  { intros id. unfold ids. rewrite keys_where. cbn. rewrite Hk. destruct (inflight_atomic_bundles e !! id) as [b|]; [|clear; naive_solver].
    cbn. destruct (both_legs_acked (swept live e d id b)) eqn:Eb; (split; [intros (b' & [=] & ?)|intros (b' & [= <-] & ? & ?)]; subst; eauto; congruence). }
  pose proof (roll_back_fold ids 0 (set_bundles keep e) d1) as (Hp & Hb & d' & Hd & Hl).
  destruct (fold_left roll_back ids (0, set_bundles keep e, Some d1)) as [[n e'] d0]. cbn in *.
  split; [exact Hp|]. split; [exact Hc|]. split.
  - intros id. rewrite Hb, Hk. unfold settles. destruct (inflight_atomic_bundles e !! id) as [b|] eqn:E; cbn; [|by destruct (decide _)].
    destruct (both_legs_acked (swept live e d id b)) eqn:Eb; cbn; [by destruct (decide _)|].
    destruct (bundle_stale now (swept live e d id b)) eqn:Es; cbn.
    + rewrite decide_True; [done|]. apply Hi. eauto.
    + rewrite decide_False; [done|]. rewrite Hi. intros (b' & Hb' & ? & ?). congruence.
  - exists d'. split; [exact Hd|]. intros key. rewrite Hl, Hd1. unfold settles. rewrite Hk.
    destruct (inflight_atomic_bundles e !! key.1) as [b|] eqn:E; cbn.
    + destruct (both_legs_acked (swept live e d key.1 b)) eqn:Eb; cbn.
      * rewrite decide_False by (intros [_ []]; done). rewrite decide_True; [done|]. apply Hc. eauto.
      * rewrite (decide_False (P := key.1 ∈ completed)) by (rewrite Hc; intros (b' & Hb' & ?); rewrite E in Hb'; injection Hb' as <-; congruence).
        destruct (bundle_stale now (swept live e d key.1 b)) eqn:Es.
        { rewrite decide_True; [done|]. split; [apply Hi; eauto|eauto]. }
        rewrite decide_False; [done|]. intros [(b' & Hb' & ? & ?)%Hi _]. rewrite E in Hb'. injection Hb' as <-. congruence.
    + rewrite decide_False by (intros [_ []]; done). rewrite decide_False; [done|]. rewrite Hc. intros (b' & Hb' & _). by rewrite E in Hb'.
Qed.
End RefreshFacts.
#[global] Arguments swept {D C I} _ _ _ _ _ : simpl never.

(** ** What a graduated bundle has seen *)
Section Graduation.
Context {D : Decimal} {C : Clock} {I : HashMapIter} {VC : VenueCodec}.

(** One action of a tick: only a dispatch touches the bundles and the legs. *)
Lemma apply_sink_spec inow now e d a :
  let r := apply_sink inow now (e, Some d) a in
  place r.1 = place e ∧
  inflight_atomic_bundles r.1 =
    match a with AtomicBundle s => <[bundle_id s := inflight_of now s]> (inflight_atomic_bundles e) | _ => inflight_atomic_bundles e end ∧
  ∃ d', r.2 = Some d' ∧ atomic_bundle_legs d' =
    match a with
    | AtomicBundle s =>
        let leg q := mkLeg (vq_venue q) (vq_symbol q) (to_side (vq_side q)) (vq_price q) false in
        <[(bundle_id s, HedgeLeg) := leg (ab_hedge s)]> (<[(bundle_id s, MakerLeg) := leg (ab_maker s)]> (atomic_bundle_legs d))
    | _ => atomic_bundle_legs d
    end.
Proof.
  intros r. destruct a as [m|m|s|level reason venue|policy|qs|qs|s]; unfold r; cbn [apply_sink fst snd]; eauto.
  - destruct (dltb dec0 s); eauto.
  - unfold kill_escalate. destruct (match venue with Some _ => _ | None => _ end); [eauto|].
    destruct (graph_kill_level level); eauto.
  - unfold venue_quotes_sink. split; [done|]. split; [done|]. eexists. split; [reflexivity|].
    apply fold_keeps_legs. intros d0 sb. apply send_keeps_legs.
  - unfold dispatch_bundle. split; [done|]. split; [done|]. eexists. split; [reflexivity|]. cbn.
    do 2 f_equal. unfold send_leg. destruct (String.eqb (vq_symbol (ab_maker s)) _), (String.eqb (vq_symbol (ab_hedge s)) _);
      rewrite ?send_keeps_legs; done.
Qed.

Definition seen (r : BundleLegRole) (g : Sighting) : bool :=
  match r with MakerLeg => sg_maker g | HedgeLeg => sg_hedge g end.

(** A bundle, and a leg on the dashboard, agree with what was seen. *)
Definition tracks (g : Sighting) (b : InflightAtomicBundle) : Prop :=
  ∃ m h, b = with_acks m h (sg_bundle g) ∧ (m = true → sg_maker g = true) ∧ (h = true → sg_hedge g = true).
Definition leg_tracks (g : Sighting) (r : BundleLegRole) (l : AtomicBundleLeg) : Prop :=
  ∃ a, l = ack_if a (leg_of r (sg_bundle g)) ∧ (a = true → seen r g = true).

(** The legs of a restored bundle are not on the dashboard. *)
Definition leg_ok (g : Sighting) (r : BundleLegRole) (o : option AtomicBundleLeg) : Prop :=
  if sg_restored g then o = None else ∃ l, o = Some l ∧ leg_tracks g r l.

(** What the originator holds, what the dashboard holds, what was seen. *)
Definition consistent (id : string) (bs : gmap string InflightAtomicBundle) (d : SinkDash) (g : option Sighting) : Prop :=
  match bs !! id with
  | Some b => ∃ g0, g = Some g0 ∧ tracks g0 b ∧
      ∀ r, leg_ok g0 r (atomic_bundle_legs d !! (id, r))
  | None => ∀ r, atomic_bundle_legs d !! (id, r) = None
  end.

Lemma dispatch_consistent id inow now e d g a : consistent id (inflight_atomic_bundles e) d g →
  let r := apply_sink inow now (e, Some d) a in
  place r.1 = place e ∧ ∃ d', r.2 = Some d' ∧ consistent id (inflight_atomic_bundles r.1) d' (sighted_action id now g a).
Proof.
  intros Hc r. destruct (apply_sink_spec inow now e d a) as (Hp & Hb & d' & Hd & Hl). fold r in Hp, Hb, Hd, Hl.
  split; [exact Hp|]. exists d'. split; [exact Hd|]. unfold consistent in *. rewrite Hb, Hl.
  destruct a as [m|m|s|level reason venue|policy|qs|qs|s]; try exact Hc. cbn [sighted_action].
  destruct (String.eqb_spec (bundle_id s) id) as [<-|Hne].
  - rewrite lookup_insert_eq. eexists. split; [reflexivity|]. split.
    + exists false, false. done.
    + intros [|]; eexists.
      * rewrite lookup_insert_ne by congruence. rewrite lookup_insert_eq. split; [done|]. by exists false.
      * rewrite lookup_insert_eq. split; [done|]. by exists false.
  - rewrite lookup_insert_ne by done. destruct (inflight_atomic_bundles e !! id) as [b|].
    + destruct Hc as (g0 & -> & Ht & Hr). exists g0. split; [done|]. split; [done|]. intros r0.
      rewrite !lookup_insert_ne by congruence. apply Hr.
    + intros r0. rewrite !lookup_insert_ne by congruence. apply Hc.
Qed.

Lemma tick_consistent_bundles id inow now actions : ∀ e d g, consistent id (inflight_atomic_bundles e) d g →
  let r := fold_left (apply_sink inow now) actions (e, Some d) in
  place r.1 = place e ∧ ∃ d', r.2 = Some d' ∧
    consistent id (inflight_atomic_bundles r.1) d' (fold_left (sighted_action id now) actions g).
Proof.
  induction actions as [|a actions IH]; intros e d g Hc; cbn [fold_left]; [eauto|].
  destruct (dispatch_consistent id inow now e d g a Hc) as (Hp & d' & Hd & Hc').
  destruct (apply_sink inow now (e, Some d) a) as [e' o]. cbn in *. subst o.
  destruct (IH e' d' _ Hc') as (Hp' & d'' & Hd' & Hc''). split; [congruence|]. eauto.
Qed.

(** Another engine's actions leave the bundle alone. *)
Lemma foreign_tick id inow now actions : existsb (dispatches id) actions = false → ∀ e d,
  let r := fold_left (apply_sink inow now) actions (e, Some d) in
  inflight_atomic_bundles r.1 !! id = inflight_atomic_bundles e !! id ∧
  ∃ d', r.2 = Some d' ∧ ∀ role, atomic_bundle_legs d' !! (id, role) = atomic_bundle_legs d !! (id, role).
Proof.
  intros Hn. induction actions as [|a actions IH]; intros e d; cbn [fold_left]; [eauto|].
  cbn in Hn. apply orb_false_iff in Hn. destruct Hn as [Ha Hn].
  destruct (apply_sink_spec inow now e d a) as (_ & Hb & d' & Hd & Hl).
  destruct (apply_sink inow now (e, Some d) a) as [e' o]. cbn [fst snd] in *. subst o.
  destruct (IH Hn e' d') as (Hb' & d'' & Hd' & Hl'). split.
  - rewrite Hb', Hb. destruct a; try done. cbn in Ha. apply String.eqb_neq in Ha. by rewrite lookup_insert_ne.
  - exists d''. split; [exact Hd'|]. intros role. rewrite Hl', Hl. destruct a; try done. cbn in Ha. apply String.eqb_neq in Ha.
    by rewrite !lookup_insert_ne by congruence.
Qed.

Lemma sighted_foreign id now actions g : existsb (dispatches id) actions = false →
  fold_left (sighted_action id now) actions g = g.
Proof.
  revert g. induction actions as [|a actions IH]; intros g H; [done|]. cbn in *. apply orb_false_iff in H. destruct H as [Ha H].
  rewrite IH by done. destruct a; try done. cbn in *. by rewrite Ha.
Qed.

(** A live order that acknowledges a leg has been seen at it. *)
Lemma order_seen e live l a : existsb (order_at_leg e (ack_if a l)) live = true → leg_in e live l = true.
Proof.
  intros H. apply existsb_exists in H. destruct H as ([[[[oid s] p] qty] st] & Hin & H). unfold order_at_leg in H. cbn in H.
  rewrite !andb_true_iff in H. destruct H as [[[Hv Hs] Hd] Hp]. unfold leg_in. rewrite Hv, Hs. cbn.
  apply existsb_exists. eexists. split; [exact Hin|]. cbn. apply bool_decide_eq_true in Hd. subst s.
  rewrite bool_decide_eq_true_2 by done. by rewrite Hp, orb_true_r.
Qed.

Lemma local_seen e live l :
  local_match e live (leg_venue l) (leg_symbol l) (leg_side l) (leg_price l) = true → leg_in e live l = true.
Proof.
  unfold local_match, leg_in. destruct (String.eqb (leg_venue l) (self_venue e)); [|done].
  destruct (String.eqb (leg_symbol l) (se_symbol e)); [|done]. cbn. intros H. apply existsb_exists in H.
  destruct H as ([[[[oid s] p] qty] st] & Hin & H). apply andb_true_iff in H. destruct H as [Hs Hp].
  apply existsb_exists. eexists. split; [exact Hin|]. cbn. by rewrite Hs, Hp.
Qed.

Lemma seen_sight r e live g : seen r (sight e live g) = seen r g || leg_in e live (leg_of r (sg_bundle g)).
Proof. by destruct r. Qed.

Lemma ack_if_if a b l : ack_if a (ack_if b l) = ack_if (b || a) l.
Proof. unfold ack_if. cbn. by rewrite orb_assoc. Qed.

Lemma leg_of_acked r b : leg_acked (leg_of r b) = false.
Proof. by destruct r. Qed.

Lemma published_ok e live d g id r : leg_ok g r (atomic_bundle_legs d !! (id, r)) →
  leg_ok (sight e live g) r (published e live d (id, r)).
Proof.
  unfold leg_ok, published. cbn [sg_restored sight]. destruct (sg_restored g); [by intros ->|].
  intros (l & -> & a & -> & Ha). eexists. split; [reflexivity|]. rewrite ack_if_if. eexists. split; [reflexivity|].
  rewrite seen_sight, !orb_true_iff. intros [H|H]; [left; auto|right; by eapply order_seen].
Qed.

Lemma published_acked e live d g id r : leg_ok g r (atomic_bundle_legs d !! (id, r)) →
  leg_acked_at (id, r) (fold_left (publish_order e) live d) = true → seen r (sight e live g) = true.
Proof.
  intros Hr H. apply (published_ok e live) in Hr. unfold leg_acked_at in H. rewrite publish_lookup in H.
  fold (published e live d (id, r)) in H. unfold leg_ok in Hr. cbn [sg_restored sight] in Hr.
  destruct (sg_restored g); [by rewrite Hr in H|]. destruct Hr as (l & Hl & a & -> & Ha). rewrite Hl in H.
  cbn in H. rewrite leg_of_acked in H. auto.
Qed.

Lemma swept_tracks e live d g id b : tracks g b →
  (∀ r, leg_ok g r (atomic_bundle_legs d !! (id, r))) → tracks (sight e live g) (swept live e d id b).
Proof.
  intros (m & h & -> & Hm & Hh) Hr.
  assert (Hk : ∀ r, leg_acked_at (id, r) (fold_left (publish_order e) live d) = true → seen r (sight e live g) = true)
    by (intros r; by apply published_acked).
  unfold swept, merge_dash, atomic_bundle_ack_state. eexists _, _. split; [reflexivity|].
  split; intros H; cbn in H; rewrite !orb_true_iff in H; destruct H as [[H|H]|H].
  - unfold sight. cbn. by rewrite Hm.
  - change (seen MakerLeg (sight e live g) = true). rewrite seen_sight, (local_seen _ _ (leg_of MakerLeg (sg_bundle g)) H). apply orb_true_r.
  - exact (Hk MakerLeg H).
  - unfold sight. cbn. by rewrite Hh.
  - change (seen HedgeLeg (sight e live g) = true). rewrite seen_sight, (local_seen _ _ (leg_of HedgeLeg (sg_bundle g)) H). apply orb_true_r.
  - exact (Hk HedgeLeg H).
Qed.

Lemma tracks_acked g b : tracks g b → both_legs_acked b = true → sg_maker g = true ∧ sg_hedge g = true.
Proof.
  intros (m & h & -> & Hm & Hh) H. unfold both_legs_acked in H. cbn in H. apply andb_true_iff in H. naive_solver.
Qed.
End Graduation.

(** ** Runs of the system *)
Section Runs.
Context {D : Decimal} {C : Clock} {I : HashMapIter} {VC : VenueCodec}.

Definition bundles_of (s : SinkSystem) (k : nat) : gmap string InflightAtomicBundle :=
  from_option inflight_atomic_bundles ∅ (sy_engines s !! k).

Definition bundle_ok (k : nat) (id : string) (s : SinkSystem) (g : option Sighting) : Prop :=
  consistent id (bundles_of s k) (sy_dash s) g ∧ ∀ j, j ≠ k → bundles_of s j !! id = None.

Lemma tracks_sight e live g b : tracks g b → tracks (sight e live g) b.
Proof.
  intros (m & h & -> & Hm & Hh). exists m, h. split; [done|]. unfold sight. cbn.
  split; intros H; [by rewrite Hm|by rewrite Hh].
Qed.

Lemma bundles_of_insert s j e d k : is_Some (sy_engines s !! j) →
  bundles_of (mkSystem (<[j := e]> (sy_engines s)) d) k = if decide (k = j) then inflight_atomic_bundles e else bundles_of s k.
Proof.
  intros Hj%lookup_lt_is_Some_1. unfold bundles_of. cbn. destruct (decide (k = j)) as [->|Hne].
  - by rewrite list_lookup_insert_eq.
  - by rewrite list_lookup_insert_ne.
Qed.

Lemma refresh_consistent id now live e d g : consistent id (inflight_atomic_bundles e) d g →
  let r := refresh_bundles now live e (Some d) in
  (∃ d', r.2 = Some d' ∧ consistent id (inflight_atomic_bundles r.1.2) d' (sight e live <$> g)) ∧
  (id ∈ r.1.1 → ∃ g0, sight e live <$> g = Some g0 ∧ sg_maker g0 = true ∧ sg_hedge g0 = true).
Proof.
  intros Hc r. destruct (refresh_spec now live e d) as (_ & Hcomp & Hb & d' & Hd & Hl). fold r in Hcomp, Hb, Hd.
  unfold consistent in *. rewrite Hb. setoid_rewrite Hcomp. destruct (inflight_atomic_bundles e !! id) as [b|] eqn:E.
  - destruct Hc as (g0 & -> & Ht & Hr). assert (Hs := swept_tracks e live d g0 id b Ht Hr). split.
    + exists d'. split; [exact Hd|]. cbn. destruct (settles now (swept live e d id b)) eqn:Es.
      * intros r0. rewrite Hl. cbn. by rewrite E, Es.
      * exists (sight e live g0). split; [done|]. split; [exact Hs|]. intros r0. rewrite Hl. cbn. rewrite E, Es.
        by apply published_ok.
    + intros (b' & [= <-] & Ha). eexists. split; [reflexivity|]. exact (tracks_acked _ _ Hs Ha).
  - split; [|intros (b & [=] & _)]. exists d'. split; [exact Hd|]. cbn. intros r0. rewrite Hl. cbn. rewrite E.
    unfold published. by rewrite Hc.
Qed.

Lemma foreign_refresh id now live e d bs g : inflight_atomic_bundles e !! id = None → consistent id bs d g →
  let r := refresh_bundles now live e (Some d) in
  inflight_atomic_bundles r.1.2 !! id = None ∧ id ∉ r.1.1 ∧ ∃ d', r.2 = Some d' ∧ consistent id bs d' (sight e live <$> g).
Proof.
  intros He Hc r. destruct (refresh_spec now live e d) as (_ & Hcomp & Hb & d' & Hd & Hl). fold r in Hcomp, Hb, Hd.
  split; [by rewrite Hb, He|]. split; [rewrite Hcomp, He; by intros (b & [=] & _)|]. exists d'. split; [exact Hd|].
  assert (Hp : ∀ r0, atomic_bundle_legs d' !! (id, r0) = published e live d (id, r0)).
  { intros r0. rewrite Hl. cbn. by rewrite He. }
  unfold consistent in *. destruct (bs !! id) as [b|].
  - destruct Hc as (g0 & -> & Ht & Hr). exists (sight e live g0). split; [done|]. split; [by apply tracks_sight|].
    intros r0. rewrite Hp. by apply published_ok.
  - intros r0. rewrite Hp. unfold published. by rewrite Hc.
Qed.

Lemma sighted_refresh k id s j now om g e : sy_engines s !! j = Some e →
  sighted k id s (EvRefresh j now false om) g = sight e (live_orders_snapshot om) <$> g.
Proof. intros He. cbn. by rewrite He. Qed.

(** The table of a checkpoint without the identifier has none. *)
Lemma restored_other id raws : ∀ m, existsb (holds id) raws = false → fold_left restore_entry raws m !! id = m !! id.
Proof.
  induction raws as [|[[i b]|] raws IH]; intros m H; [done| |by apply IH]. cbn in *. apply orb_false_iff in H.
  destruct H as [Hi H]. apply String.eqb_neq in Hi. rewrite IH by done. by apply lookup_insert_ne.
Qed.

Lemma restart_bundles es cps d j : bundles_of (system_step (mkSystem es d) (EvRestart es cps d)).1 j =
  if decide (is_Some (es !! j)) then fold_left restore_entry (default [] (cps !! j)) ∅ else ∅.
Proof.
  unfold bundles_of. cbn. rewrite list_lookup_imap. destruct (es !! j) as [e|]; cbn; [|done]. done.
Qed.

(** After a restart the originator holds what its checkpoint did, and the
    dashboard nothing. *)
Lemma restart_ok k id s es cps d g : originated_by k id (EvRestart es cps d) = true →
  bundle_ok k id (system_step s (EvRestart es cps d)).1 (sighted k id s (EvRestart es cps d) g).
Proof.
  intros Ho. change (system_step s (EvRestart es cps d)) with (system_step (mkSystem es d) (EvRestart es cps d)).
  split.
  - unfold consistent. rewrite restart_bundles. cbn [sighted system_step fst sy_dash set_legs atomic_bundle_legs].
    destruct (decide _); [|rewrite lookup_empty; intros r; apply lookup_empty].
    destruct (fold_left restore_entry _ ∅ !! id) as [b|]; cbn; [|intros r; apply lookup_empty].
    eexists. split; [reflexivity|]. split; [|intros r; apply lookup_empty]. exists (maker_acked b), (hedge_acked b). by destruct b.
  - intros j Hj. rewrite restart_bundles. destruct (decide _); [|done]. rewrite restored_other; [done|].
    destruct (cps !! j) as [raws|] eqn:E; [|done]. cbn in Ho. rewrite forallb_forall in Ho.
    assert (Hin : (j, raws) ∈ imap pair cps) by (apply elem_of_lookup_imap; eauto).
    apply list_elem_of_In, Ho in Hin. cbn in Hin. apply orb_true_iff in Hin. destruct Hin as [H|H].
    + by apply Nat.eqb_eq in H.
    + by apply negb_true_iff in H.
Qed.

(** One event keeps the books of the bundle consistent, and completes it only
    after both legs were seen. *)
Lemma step_ok k id s g ev : originated_by k id ev = true → bundle_ok k id s g →
  bundle_ok k id (system_step s ev).1 (sighted k id s ev g) ∧
  ∀ j, (j, id) ∈ (system_step s ev).2 →
    j = k ∧ ∃ g', sighted k id s ev g = Some g' ∧ sg_maker g' = true ∧ sg_hedge g' = true.
Proof.
  intros Ho [Hc Hf]. destruct ev as [j inow now actions|j now locked om|j payload|es cps d].
  4: { split; [by apply restart_ok|]. intros j0 H. by apply elem_of_nil in H. }
  - cbn [system_step sighted]. destruct (sy_engines s !! j) as [e|] eqn:E; cbn [is_none].
    2: { split; [done|]. intros j0 H. by apply elem_of_nil in H. }
    unfold apply_sinks. cbn in Ho. apply orb_true_iff in Ho.
    destruct (decide (j = k)) as [->|Hne].
    + assert (Hc' : consistent id (inflight_atomic_bundles (set_volatility None e)) (sy_dash s) g).
      { unfold bundles_of in Hc. by rewrite E in Hc. }
      destruct (tick_consistent_bundles id inow now actions _ _ _ Hc') as (_ & d' & Hd & Hc'').
      destruct (fold_left _ actions _) as [e' o]. cbn [fst snd] in *. subst o. cbn.
      split; [|intros j0 H; by apply elem_of_nil in H]. split.
      * rewrite bundles_of_insert by eauto. by rewrite decide_True.
      * intros j0 Hj0. rewrite bundles_of_insert by eauto. rewrite decide_False by done. auto.
    + destruct Ho as [Ho|Ho]; [by apply Nat.eqb_eq in Ho|]. apply negb_true_iff in Ho. rewrite (sighted_foreign _ _ _ _ Ho).
      destruct (foreign_tick id inow now actions Ho (set_volatility None e) (sy_dash s)) as (Hb & d' & Hd & Hl).
      destruct (fold_left _ actions _) as [e' o]. cbn [fst snd] in *. subst o. cbn.
      split; [|intros j0 H; by apply elem_of_nil in H]. split.
      * rewrite bundles_of_insert by eauto. rewrite decide_False by done. unfold consistent in *. cbn [sy_dash]. destruct (bundles_of s k !! id); by setoid_rewrite Hl.
      * intros j0 Hj0. rewrite bundles_of_insert by eauto. destruct (decide (j0 = j)) as [->|]; [|auto].
        rewrite Hb. specialize (Hf j Hne). unfold bundles_of in Hf. by rewrite E in Hf.
  - cbn [system_step]. destruct (sy_engines s !! j) as [e|] eqn:E.
    2: { cbn. rewrite E. split; [done|]. intros j0 H. by apply elem_of_nil in H. }
    destruct locked; [cbn; rewrite E; split; [done|intros j0 H; by apply elem_of_nil in H]|].
    rewrite (sighted_refresh _ _ _ _ _ _ _ e E).
    assert (Hbe : bundles_of s j = inflight_atomic_bundles e) by (unfold bundles_of; by rewrite E).
    destruct (decide (j = k)) as [->|Hne].
    + rewrite Hbe in Hc. destruct (refresh_consistent id now (live_orders_snapshot om) e (sy_dash s) g Hc) as ((d' & Hd & Hc') & Hcomp).
      destruct (refresh_bundles _ _ _ _) as [[completed e'] o]. cbn [fst snd] in *. subst o. cbn. split.
      * split.
        { rewrite bundles_of_insert by eauto. by rewrite decide_True. }
        intros j0 Hj0. rewrite bundles_of_insert by eauto. rewrite decide_False by done. auto.
      * intros j0 (i & [= -> <-] & Hin)%list_elem_of_fmap. split; [done|]. auto.
    + assert (He : inflight_atomic_bundles e !! id = None) by (rewrite <- Hbe; auto).
      destruct (foreign_refresh id now (live_orders_snapshot om) e (sy_dash s) _ g He Hc) as (Hb & Hn & d' & Hd & Hc').
      destruct (refresh_bundles _ _ _ _) as [[completed e'] o]. cbn [fst snd] in *. subst o. cbn. split.
      * split.
        { rewrite bundles_of_insert by eauto. by rewrite decide_False. }
        intros j0 Hj0. rewrite bundles_of_insert by eauto. destruct (decide (j0 = j)); [done|auto].
      * intros j0 (i & [= -> <-] & Hin)%list_elem_of_fmap. done.
  - cbn. split; [|intros j0 H; by apply elem_of_nil in H].
    assert (Hx : ∀ j0, bundles_of (mkSystem (alter (external_venue_quotes payload) j (sy_engines s)) (sy_dash s)) j0 = bundles_of s j0).
    { intros j0. unfold bundles_of. cbn. destruct (decide (j = j0)) as [->|Hne].
      - rewrite list_lookup_alter_eq. destruct (sy_engines s !! j0) as [e|]; [|done]. cbn. unfold external_venue_quotes.
        by destruct (decode_quotes payload).
      - by rewrite list_lookup_alter_ne. }
    split; [by rewrite Hx|]. intros j0 Hj0. rewrite Hx. auto.
Qed.

Lemma run_ok k id evs : forallb (originated_by k id) evs = true → ∀ st, bundle_ok k id st.1 st.2 →
  bundle_ok k id (fold_left (sighted_step k id) evs st).1 (fold_left (sighted_step k id) evs st).2.
Proof.
  induction evs as [|ev evs IH]; intros He st Hst; [done|]. cbn in He. apply andb_true_iff in He. destruct He as [He Hes].
  cbn [fold_left]. apply IH; [done|]. by apply step_ok.
Qed.

(** Nothing of an identifier is in flight. *)
Definition bundle_free (id : string) (s : SinkSystem) : Prop :=
  (∀ k, bundles_of s k !! id = None) ∧ ∀ r, atomic_bundle_legs (sy_dash s) !! (id, r) = None.

(** C30: in whatever run of the engines that share a dashboard, refreshes that
    the protections end early and restarts of the process from checkpoints
    included, a bundle of one engine is counted as completed only when each of
    its legs stood within half a tick among the live orders of an engine of the
    leg's venue and symbol since the last dispatch, or was acknowledged in the
    checkpoint the bundle was restored from. The dashboard holds a leg only
    while the bundle is in flight, and then both, unless the bundle was
    restored. A bundle in flight carries the time of its last dispatch; and
    right after a refresh that reaches the watchdog it has a leg to see and is
    younger than its timeout by that clock. *)
Theorem graduated_legs_were_live k id evs s (Hfree : bundle_free id s) (Hown : forallb (originated_by k id) evs = true) :
  let st := sighted_run k id evs s in
  (∀ ev, originated_by k id ev = true → ∀ j, (j, id) ∈ (system_step st.1 ev).2 →
     j = k ∧ ∃ g, sighted k id st.1 ev st.2 = Some g ∧ sg_maker g = true ∧ sg_hedge g = true) ∧
  (∀ r, is_Some (atomic_bundle_legs (sy_dash st.1) !! (id, r)) ↔
     is_Some (bundles_of st.1 k !! id) ∧ sg_restored <$> st.2 = Some false) ∧
  (∀ b, bundles_of st.1 k !! id = Some b → ∃ g, st.2 = Some g ∧ dispatched_at b = dispatched_at (sg_bundle g)) ∧
  (∀ now om b, bundles_of (system_step st.1 (EvRefresh k now false om)).1 k !! id = Some b →
     (elapsed_ms now (dispatched_at b) < timeout_ms b)%Z ∧ both_legs_acked b = false).
Proof.
  intros st. assert (Hok : bundle_ok k id st.1 st.2).
  { unfold st, sighted_run. apply run_ok; [exact Hown|]. destruct Hfree as [Hb Hl]. split; [|auto]. cbn [fst snd].
    unfold consistent. by rewrite Hb. }
  split; [intros ev Ho; by apply (step_ok k id st.1 st.2 ev Ho)|]. split; [|split].
  - intros r. destruct Hok as [Hc _]. unfold consistent in Hc. destruct (bundles_of st.1 k !! id) as [b|].
    + destruct Hc as (g & -> & _ & Hr). specialize (Hr r). unfold leg_ok in Hr. cbn. destruct (sg_restored g).
      * rewrite Hr. split; [by intros []|by intros [_ [=]]].
      * destruct Hr as (l & -> & _). split; eauto.
    + rewrite Hc. split; [by intros []|by intros [[] _]].
  - intros b Hb. destruct Hok as [Hc _]. unfold consistent in Hc. rewrite Hb in Hc.
    destruct Hc as (g & -> & (m & h & -> & _) & _). eauto.
  - intros now om b. cbn [system_step]. destruct (sy_engines st.1 !! k) as [e|] eqn:E.
    2: { cbn [fst]. unfold bundles_of. by rewrite E. }
    pose proof (refresh_spec now (live_orders_snapshot om) e (sy_dash st.1)) as (_ & _ & Hb & _).
    destruct (refresh_bundles _ _ _ _) as [[completed e'] o]. cbn [fst snd] in *.
    cbn. rewrite bundles_of_insert by eauto. rewrite decide_True by done. rewrite Hb.
    destruct (inflight_atomic_bundles e !! id) as [b0|]; [|done]. cbn.
    destruct (settles now (swept (live_orders_snapshot om) e (sy_dash st.1) id b0)) eqn:Es; [done|]. intros [= <-].
    unfold settles in Es. apply orb_false_iff in Es. destruct Es as [Ha Hst]. split; [|done].
    unfold bundle_stale in Hst. rewrite Ha in Hst. cbn in Hst. rewrite andb_true_r in Hst. by apply Z.leb_gt.
Qed.
End Runs.

(** ** Where the code departs from its comments *)
Section Departures.
Context {D : Decimal} {C : Clock} {I : HashMapIter} {VC : VenueCodec}.

(** An escalation of the graph sets the switch to its level, lower ones too. *)
Lemma graph_escalation_lowers now reason e :
  current_level (se_kill (kill_escalate now 1 reason None e)) = WidenSpreads.
Proof. done. Qed.

Lemma graph_flatten_lowers inow now policy e d :
  current_level (se_kill (apply_sink inow now (e, d) (Flatten policy)).1) = FlattenAll.
Proof. done. Qed.

(** On a perpetual the stable label of the product is not the text the
    dispatcher compares with: the engine takes its own quotes for another's. *)
Lemma perp_quotes_sent_away e q : se_product_type e ≠ SpotProduct →
  vq_product q = product_type_label (se_product_type e) → targets_self e q = false.
Proof.
  intros Hs Hp. unfold targets_self. rewrite Hp. destruct (se_product_type e); [done| |]; cbn; apply andb_false_r.
Qed.

(** The receiver looks at the symbol only: a quote for another venue is placed here. *)
Lemma other_venue_placed_here e q : decode_quotes (encode_quotes [q]) = Some [q] → vq_symbol q = se_symbol e →
  graph_quotes_override (external_venue_quotes (encode_quotes [q]) e) = Some (inner_first [venue_quote (se_product e) q]).
Proof. intros Hd Hs. unfold external_venue_quotes. rewrite Hd. cbn. by rewrite Hs, String.eqb_refl. Qed.

(** A bundle whose legs share the engine's symbol: the leg at the other venue
    is neither quoted here nor sent to anyone. *)
Lemma same_symbol_leg_lost now s e d : vq_symbol (ab_maker s) = se_symbol e → vq_symbol (ab_hedge s) = se_symbol e →
  vq_venue (ab_maker s) = self_venue e → vq_venue (ab_hedge s) ≠ self_venue e →
  let r := dispatch_bundle now s e (Some d) in
  config_overrides <$> r.2 = Some (config_overrides d) ∧
  graph_quotes_override r.1 =
    Some (pair_quotes (of_side Buy [venue_quote (se_product e) (ab_maker s)]) (of_side Sell [venue_quote (se_product e) (ab_maker s)])).
Proof.
  intros Hm Hh Hv Hn r. unfold r, dispatch_bundle, self_leg, send_leg. cbn. rewrite Hm, Hh, Hv, String.eqb_refl. cbn.
  apply String.eqb_neq in Hn. by rewrite Hn, String.eqb_refl.
Qed.

(** A dispatch under an identifier in flight starts its clock anew and forgets
    what was acknowledged: a graph that emits its bundle more often than the
    timeout is never rolled back. *)
Lemma dispatch_restarts_clock inow now now' s e d : (elapsed_ms now' now < ab_timeout_ms s)%Z →
  let b := inflight_of now s in
  inflight_atomic_bundles (apply_sink inow now (e, d) (AtomicBundle s)).1 !! bundle_id s = Some b ∧
  both_legs_acked b = false ∧ bundle_stale now' b = false.
Proof.
  intros Ht b. cbn. split; [apply lookup_insert_eq|]. split; [done|]. unfold bundle_stale. cbn.
  rewrite (proj2 (Z.leb_gt _ _) Ht). done.
Qed.

(** A roll-back sends nothing: the other leg stays with the engine it went to. *)
Lemma rollback_sends_nothing ids : ∀ n e d,
  config_overrides <$> (fold_left roll_back ids (n, e, Some d)).2 = Some (config_overrides d).
Proof.
  induction ids as [|i ids IH]; intros n e d; [done|]. cbn [fold_left].
  destruct (inflight_atomic_bundles e !! i) as [b|] eqn:E.
  - assert (Hr : roll_back (n, e, Some d) i =
      (S n, set_override None (set_bundles (delete i (inflight_atomic_bundles e)) e), Some (clear_atomic_bundle i d)))
      by (unfold roll_back; by rewrite E).
    rewrite Hr. apply (IH (S n) _ (clear_atomic_bundle i d)).
  - assert (Hr : roll_back (n, e, Some d) i = (n, e, Some d)) by (unfold roll_back; by rewrite E). rewrite Hr. apply IH.
Qed.

(** A lock of the protections ends the refresh before the watchdog: a bundle
    whose time is up stays in flight with its one leg for as long as it lasts. *)
Lemma locked_refresh_skips_watchdog k now om s : system_step s (EvRefresh k now true om) = (s, []).
Proof. cbn. by destruct (sy_engines s !! k). Qed.

(** The multiplier of the spread outlives the graph that set it. *)
Lemma multiplier_sticks inow now actions : (∀ m, SpreadMult m ∉ actions) → ∀ e d,
  graph_spread_mult (apply_sinks inow now actions e d).1 = graph_spread_mult e.
Proof.
  intros Hn e d. unfold apply_sinks. change (graph_spread_mult e) with (graph_spread_mult (set_volatility None e)).
  generalize (set_volatility None e). revert Hn d. induction actions as [|a actions IH]; intros Hn d e'; [done|]. cbn [fold_left].
  destruct (apply_sink inow now (e', d) a) as [e1 d1] eqn:E. rewrite IH by (intros m H; apply (Hn m); apply elem_of_cons; auto).
  destruct a as [m|m|s|level reason venue|policy|qs|qs|s]; cbn in E; try by injection E as <- <-.
  - exfalso. apply (Hn m). apply elem_of_cons. auto.
  - destruct (dltb dec0 s); by injection E as <- <-.
  - injection E as <- <-. unfold kill_escalate. destruct (match venue with Some _ => _ | None => _ end); [done|].
    by destruct (graph_kill_level level).
Qed.
End Departures.

Section Ticks.
Context {D : Decimal} {C : Clock} {I : HashMapIter} {E : DecimalExact D}.

(** Prices are floored to the tick and compared within half of one: the order
    of a leg in the upper half of its tick acknowledges nothing. *)
Lemma floored_leg_unacknowledged e oid side p qty st venue symbol :
  (dval (tick_size (se_product e)) / 2 < dval p - dval (round_price (se_product e) p))%Q →
  local_match e [(oid, side, round_price (se_product e) p, qty, st)] venue symbol side p = false.
Proof.
  intros Ht. unfold local_match. destruct (_ || _); [done|]. cbn. rewrite orb_false_r.
  apply andb_false_iff. right. apply not_true_iff_false. intros H. apply dleb_le in H. unfold dle, half_tick in H.
  assert (H2 : (dval (dlit 2 0) == 2)%Q) by (apply (dlit_int 2); lia).
  rewrite dabs_val, dsub_exact, ddiv_exact in H by (rewrite H2; lra). rewrite H2 in H.
  apply Qabs_Qle_condition in H. lra.
Qed.

(** The multipliers stay in their ranges. *)
Lemma graph_multipliers_bounded m e :
  (1 <= dval (graph_spread_mult (set_graph_spread_mult m e)))%Q ∧
  (1 # 10 <= dval (graph_size_mult (set_graph_size_mult m e)) <= 1)%Q.
Proof.
  assert (H1 : (dval (dlit 1 0) == 1)%Q) by (apply (dlit_int 1); lia).
  assert (H2 : (dval (dlit 1 1) == 1 # 10)%Q) by (rewrite dlit_val; [done|exists 1%Z, 1%nat; repeat split; lia]).
  cbn. rewrite dmin_val, !dmax_val, H1, H2. split; [apply Q.le_max_r|]. split; [|apply Q.le_min_r].
  apply Q.min_glb; [apply Q.le_max_r|lra].
Qed.
End Ticks.

(** ** Witnesses *)
#[export] Instance QuoteSide_countable : Countable QuoteSide.
Proof.
  refine (inj_countable' (λ s, match s with QuoteBuy => true | QuoteSell => false end)
    (λ b : bool, if b then QuoteBuy else QuoteSell) _). by intros [].
Defined.

#[export] Instance VenueQuote_eq_dec {D : Decimal} : EqDecision VenueQuote.
Proof. solve_decision. Defined.

#[export] Instance VenueQuote_countable {D : Decimal} : Countable VenueQuote.
Proof.
  refine (inj_countable' (λ q, (vq_venue q, vq_symbol q, vq_product q, vq_side q, vq_price q, vq_qty q))
    (λ t, match t with (a, b, c, d, e, f) => mkVenueQuote a b c d e f end) _).
  by intros [].
Defined.

#[export] Instance bit_quotes {D : Decimal} : VenueCodec := {|
  encode_quotes qs := bits_of qs;
  decode_quotes s := of_bits s;
|}.

(** A spot engine on one venue and a perpetual one on another. *)
Definition sink_engine (symbol : string) (t : ExchangeType) (p : ProductType) : SinkEngine (D := Qc_decimal) :=
  mkSinkEngine symbol t p
    (mkProductSpec symbol "BTC" "USDT" (dlit 1 0) (dlit 1 3) (dlit 10 0) (dlit (-1) 4) (dlit 5 4) Trading)
    (KillSwitch.new KillSwitchConfig_default (sec 0)) (dlit 1 0) (dlit 1 0) None None ∅.

Definition demo_pair : SinkSystem (D := Qc_decimal) :=
  mkSystem [sink_engine "BTCUSDT" Binance SpotProduct; sink_engine "BTCPERP" Bybit LinearPerp]
    (mkDash ∅ ∅ {[("default"%string, "BTCPERP"%string) := []]}).

Definition demo_bundle : AtomicBundleSpec (D := Qc_decimal) :=
  mkBundle (mkVenueQuote "binance" "BTCUSDT" "" QuoteBuy (dlit 100 0) (dlit 1 0))
    (mkVenueQuote "bybit" "BTCPERP" "" QuoteSell (dlit 101 0) (dlit 1 0)) 2000.

Definition order_at (symbol : string) (side : Side) (price : Z) : OrderManager (D := Qc_decimal) :=
  track_order (sec 0) (mkLiveOrder 1%N symbol side (dlit price 0) (dlit 1 0) (dlit 0 0) Open (sec 0)) OrderManager.new.

(** A dispatch and the refresh of the other engine, whose order stands at the
    hedge leg, before the process restarts without a checkpoint; then the same
    again, with a refresh of the originator that its protections end early. The
    next refresh of the originator completes the bundle. *)
Definition demo_bundle_events : list (SinkEvent (D := Qc_decimal)) :=
  [EvTick 0 (sec 0) 0 [AtomicBundle demo_bundle]; EvRefresh 1 500000000 false (order_at "BTCPERP" Sell 101);
   EvRestart (sy_engines demo_pair) [] (sy_dash demo_pair);
   EvTick 0 (sec 2) 2000000000 [AtomicBundle demo_bundle]; EvRefresh 0 2200000000 true (order_at "BTCUSDT" Buy 100);
   EvRefresh 1 2500000000 false (order_at "BTCPERP" Sell 101)].

Definition last_refresh : SinkEvent (D := Qc_decimal) := EvRefresh 0 3000000000 false (order_at "BTCUSDT" Buy 100).

Lemma graduated_legs_were_live_witness :
  let id := bundle_id demo_bundle in
  let st := sighted_run 0 id demo_bundle_events demo_pair in
  (0, id) ∈ (system_step st.1 last_refresh).2 ∧
  (0 = 0 ∧ ∃ g, sighted 0 id st.1 last_refresh st.2 = Some g ∧ sg_maker g = true ∧ sg_hedge g = true).
Proof.
  intros id st. assert (Hin : (0, id) ∈ (system_step st.1 last_refresh).2).
  { apply (bool_decide_eq_true_1 _). vm_compute. reflexivity. }
  split; [exact Hin|].
  refine (proj1 (graduated_legs_were_live 0 id demo_bundle_events demo_pair _ _) last_refresh _ 0 Hin).
  - split; [by intros [|[|k]]|by intros []].
  - vm_compute. reflexivity.
  - reflexivity.
Defined.

(** The legs of a restored bundle are on no dashboard: the sibling whose order
    stands at the hedge leg has nothing to acknowledge, and the bundle, both of
    whose orders are live, is rolled back when its time is up. *)
Example restored_bundle_rolled_back :
  let id := bundle_id demo_bundle in
  let s := fold_left (λ s ev, (system_step s ev).1)
    [EvRestart (sy_engines demo_pair) [[Some (id, inflight_of 0 demo_bundle)]] (sy_dash demo_pair);
     EvRefresh 1 500000000 false (order_at "BTCPERP" Sell 101); EvRefresh 0 1000000000 false (order_at "BTCUSDT" Buy 100)]
    demo_pair in
  (λ b, (maker_acked b, hedge_acked b)) <$> bundles_of s 0 !! id = Some (true, false) ∧
  let r := system_step s (EvRefresh 0 2000000000 false (order_at "BTCUSDT" Buy 100)) in
  r.2 = [] ∧ bundles_of r.1 0 !! id = None.
Proof. vm_compute. done. Qed.
