(* ===== verification/Control.v ===== *)
(** * Control-plane primitives ([crates/control/src/{seq,lease,fail_ladder,lkg}.rs],
    [crates/agent/src/fail_ladder_walker.rs])

    Sequence numbers and the resume cursor, the leader lease, the fail ladder
    and the walker that fires its rungs, and the freshness test of the
    last-known-good cache. Instants and durations are integers (milliseconds
    for [chrono], nanoseconds for [std::time]): the code only compares and
    subtracts them. *)
From stdpp Require Import base list strings sorting.
From Stdlib Require Import ZArith Lia.
From S2P Require Import Prelude.
Local Open Scope Z_scope.

(** ** Sequence numbers *)
Definition Seq : Type := Z.
Definition seq_zero : Seq := 0.

(** [saturating_add(1)] on a [u64]. *)
Definition seq_next (s : Seq) : Seq := sat_add_u64 s 1.
Definition is_after (s other : Seq) : bool := other <? s.

Record Cursor := mkCursor { last_applied : Seq; updated_at_ms : Z }.

Definition cursor_fresh (now : Z) : Cursor := mkCursor seq_zero now.
Definition cursor_advance (now : Z) (to : Seq) (c : Cursor) : Cursor :=
  if is_after to (last_applied c) then mkCursor to now else c.

(** ** The leader lease *)
Record LeaderLease := mkLeaderLease {
  lease_id : N;
  l_agent_id : string;
  issued_at : Z;
  expires_at : Z;
  issued_seq : Seq;
}.

Definition is_valid_at (l : LeaderLease) (now : Z) : bool := now <? expires_at l.

Inductive LeaseState :=
| Unclaimed
| Held (l : LeaderLease)
| Expired (l : LeaderLease)
| Revoked (previous : LeaderLease) (reason : string).

Definition is_authorised_at (st : LeaseState) (now : Z) : bool :=
  match st with Held l => is_valid_at l now | _ => false end.

(** ** The fail ladder *)
Inductive StrategyClass := Maker | Driver.
Inductive KillLevel := Normal | WidenSpreads | StopNew | CancelAll | Flatten | Disconnect.

Record FailRung := mkFailRung { after : Z; level : KillLevel }.

Record FailLadder := mkFailLadder { rungs : list FailRung }.

Inductive LadderError := LadderEmpty | NotMonotonic.

(** [rungs.windows(2).all(|w| w[0].after < w[1].after)] *)
Fixpoint monotonic (rs : list FailRung) : bool :=
  match rs with
  | r1 :: ((r2 :: _) as rs') => (after r1 <? after r2) && monotonic rs'
  | _ => true
  end.

Definition from_rungs (rs : list FailRung) : result FailLadder LadderError :=
  match rs with
  | [] => Err LadderEmpty
  | _ => if monotonic rs then Ok (mkFailLadder rs) else Err NotMonotonic
  end.

Definition level_at (l : FailLadder) (silence : Z) : option KillLevel :=
  level <$> List.find (λ r, after r <=? silence) (reverse (rungs l)).

Definition from_secs (n : Z) : Z := n * 1000000000.

(** The rungs the default ladders pass to [from_rungs]; the [expect] on them
    never fires ([default_valid]). *)
Definition maker_rungs : list FailRung :=
  [mkFailRung (from_secs 15) WidenSpreads; mkFailRung (from_secs 60) StopNew;
   mkFailRung (from_secs 300) Flatten].
Definition driver_rungs : list FailRung :=
  [mkFailRung (from_secs 15) StopNew; mkFailRung (from_secs 60) CancelAll;
   mkFailRung (from_secs 300) Flatten].

Definition expect_ladder (r : result FailLadder LadderError) : outcome FailLadder :=
  match r with Ok l => Done l | Err _ => Panicked end.

Definition default_maker : outcome FailLadder := expect_ladder (from_rungs maker_rungs).
Definition default_driver : outcome FailLadder := expect_ladder (from_rungs driver_rungs).
Definition default_for (c : StrategyClass) : outcome FailLadder :=
  match c with Maker => default_maker | Driver => default_driver end.

(** ** The walker *)
Record FailAction := mkFailAction { fa_level : KillLevel; rung_index : nat }.

Record FailLadderWalker := mkWalker {
  ladder : FailLadder;
  entered_at : Z;
  fired : list bool;
}.

Definition start (l : FailLadder) (t : Z) : FailLadderWalker :=
  mkWalker l t (replicate (length (rungs l)) false).

Definition saturating_duration_since (now t : Z) : Z := Z.max 0 (now - t).

(** The [for] of [poll_at] over the rungs, highest first; [fired[idx]] panics
    out of range. *)
Fixpoint first_ready (silence : Z) (fs : list bool) (rs : list (nat * FailRung)) :
    outcome (option (nat * FailRung)) :=
  match rs with
  | [] => Done None
  | (idx, r) :: rs =>
      if after r <=? silence then
        match fs !! idx with
        | None => Panicked
        | Some true => first_ready silence fs rs
        | Some false => Done (Some (idx, r))
        end
      else first_ready silence fs rs
  end.

(** [iter_mut().take(n)], each set. *)
Definition mark_fired (n : nat) (fs : list bool) : list bool :=
  imap (λ i f, if (i <? n)%nat then true else f) fs.

Definition poll_at (now : Z) : M FailLadderWalker (option FailAction) := λ w,
  let silence := saturating_duration_since now (entered_at w) in
  match first_ready silence (fired w) (reverse (imap pair (rungs (ladder w)))) with
  | Panicked => Panicked
  | Done None => Done (None, w)
  | Done (Some (idx, r)) =>
      Done (Some (mkFailAction (level r) idx),
            mkWalker (ladder w) (entered_at w) (mark_fired (idx + 1) (fired w)))
  end.

Definition is_complete (w : FailLadderWalker) : bool := forallb id (fired w).

Fixpoint first_unfired (fs : list bool) (rs : list (nat * FailRung)) : outcome (option Z) :=
  match rs with
  | [] => Done None
  | (i, r) :: rs =>
      match fs !! i with
      | None => Panicked
      | Some true => first_unfired fs rs
      | Some false => Done (Some (after r))
      end
  end.

Definition next_rung_at (w : FailLadderWalker) : outcome (option Z) :=
  first_unfired (fired w) (imap pair (rungs (ladder w))).

(** ** The last-known-good cache *)
Definition is_fresh_within (written_at ttl now : Z) : bool := now - written_at <? ttl.

(** ** Facts *)
Definition rung_lt (r1 r2 : FailRung) : Prop := after r1 < after r2.

Lemma monotonic_sorted rs : monotonic rs = true ↔ StronglySorted rung_lt rs.
Proof.
  induction rs as [|r rs IH]; [split; [constructor|done]|]. split.
  - intros H. assert (Hs : StronglySorted rung_lt rs).
    { apply IH. destruct rs; [done|]. by apply andb_true_iff in H as [_ ?]. }
    constructor; [done|]. destruct rs as [|r2 rs]; [constructor|].
    simpl in H. apply andb_true_iff in H as [Hlt%Z.ltb_lt _].
    inversion Hs as [|? ? _ Hall]; subst. constructor; [done|].
    eapply Forall_impl; [exact Hall|]. unfold rung_lt. simpl. intros. lia.
  - intros H. inversion H as [|? ? Hs Hall]; subst. destruct rs as [|r2 rs]; [done|].
    apply andb_true_iff. split; [|by apply IH].
    apply Z.ltb_lt. by apply Forall_inv in Hall.
Qed.

(** [find] on the reversed list: the last element that satisfies the test. *)
Lemma find_reverse {A} (f : A → bool) l x :
  List.find f (reverse l) = Some x →
  ∃ l1 l2, l = l1 ++ x :: l2 ∧ f x = true ∧ Forall (λ y, f y = false) l2.
Proof.
  induction l as [|y l IH] using rev_ind; [done|].
  rewrite reverse_app. change (reverse [y] ++ reverse l) with (y :: reverse l). cbn [List.find].
  destruct (f y) eqn:E.
  - intros [= ->]. exists l, []. split; [done|]. split; [done|constructor].
  - intros H. destruct (IH H) as (l1 & l2 & -> & Hx & Hall).
    exists l1, (l2 ++ [y]). split; [by rewrite <- app_assoc|]. split; [done|].
    apply Forall_app. split; [done|]. by constructor; [|constructor].
Qed.

Lemma find_first {A} (f : A → bool) l x :
  List.find f l = Some x → ∃ l1 l2, l = l1 ++ x :: l2 ∧ f x = true ∧ Forall (λ y, f y = false) l1.
Proof.
  induction l as [|y l IH]; [done|]. simpl. destruct (f y) eqn:E.
  - intros [= ->]. exists [], l. by repeat (split; [done|]).
  - intros H. destruct (IH H) as (l1 & l2 & -> & Hx & Hall).
    exists (y :: l1), l2. split; [done|]. split; [done|]. by constructor.
Qed.

Lemma imap_pair_lookup {A} (l : list A) k i x :
  imap pair l !! k = Some (i, x) → l !! i = Some x ∧ i = k.
Proof. rewrite list_lookup_imap. destruct (l !! k) eqn:E; simpl; [|done]. by intros [= <- <-]. Qed.

Lemma find_reverse_none {A} (f : A → bool) l :
  List.find f (reverse l) = None ↔ Forall (λ y, f y = false) l.
Proof.
  rewrite Forall_forall. split.
  - intros H x Hx. apply (List.find_none _ _ H). apply list_elem_of_In. by apply elem_of_reverse.
  - intros H. destruct (List.find f (reverse l)) as [x|] eqn:E; [|done].
    apply List.find_some in E as [Hin Hf]. apply list_elem_of_In in Hin. rewrite elem_of_reverse in Hin.
    specialize (H x Hin). congruence.
Qed.

Lemma from_rungs_sorted rs l :
  from_rungs rs = Ok l → rungs l = rs ∧ StronglySorted rung_lt (rungs l).
Proof.
  unfold from_rungs. destruct rs as [|r rs]; [done|].
  destruct (monotonic (r :: rs)) eqn:E; [|done]. intros [= <-].
  split; [done|]. by apply monotonic_sorted.
Qed.

Definition level_rank (l : option KillLevel) : Z :=
  match l with
  | None | Some Normal => 0
  | Some WidenSpreads => 1
  | Some StopNew => 2
  | Some CancelAll => 3
  | Some Flatten => 4
  | Some Disconnect => 5
  end.

Lemma foldr_max_snoc a l x : foldr Z.max a (l ++ [x]) = Z.max x (foldr Z.max a l).
Proof. induction l as [|y l IH]; simpl; [done|]. rewrite IH. lia. Qed.

Lemma foldr_max_ge a l : a ≤ foldr Z.max a l ∧ Forall (λ x, x ≤ foldr Z.max a l) l.
Proof.
  induction l as [|y l [IH1 IH2]]; simpl; [done|]. split; [lia|]. constructor; [lia|].
  eapply Forall_impl; [exact IH2|]. simpl. intros. lia.
Qed.

(** ** Defaults and cursor *)
(** The default ladders exist and only escalate: longer silence never
    asks for less, nothing happens before 15 seconds, and from 300 seconds on
    the level is Flatten. *)
Lemma default_ladder_escalates c :
  ∃ l, default_for c = Done l ∧
    (∀ s1 s2, s1 ≤ s2 → level_rank (level_at l s1) ≤ level_rank (level_at l s2)) ∧
    (∀ s, s < from_secs 15 → level_at l s = None) ∧
    (∀ s, from_secs 300 ≤ s → level_at l s = Some Flatten).
Proof.
  assert (H : ∀ k1 k2 k3, ∃ rs, rs = [mkFailRung (from_secs 15) k1; mkFailRung (from_secs 60) k2;
      mkFailRung (from_secs 300) k3] ∧ ∀ s, level_at (mkFailLadder rs) s =
    if from_secs 300 <=? s then Some k3 else if from_secs 60 <=? s then Some k2
    else if from_secs 15 <=? s then Some k1 else None).
  { intros k1 k2 k3. eexists. split; [done|]. intros s. unfold level_at. simpl.
    by repeat destruct (_ <=? s). }
  assert (Hstep : ∀ k1 k2, 0 ≤ level_rank (Some k1) ≤ level_rank (Some k2) →
    level_rank (Some k2) ≤ level_rank (Some Flatten) →
    ∃ l, expect_ladder (from_rungs [mkFailRung (from_secs 15) k1; mkFailRung (from_secs 60) k2;
      mkFailRung (from_secs 300) Flatten]) = Done l ∧
    (∀ s1 s2, s1 ≤ s2 → level_rank (level_at l s1) ≤ level_rank (level_at l s2)) ∧
    (∀ s, s < from_secs 15 → level_at l s = None) ∧
    (∀ s, from_secs 300 ≤ s → level_at l s = Some Flatten)).
  { intros k1 k2 H12 H23. destruct (H k1 k2 Flatten) as (rs & -> & Hs). eexists. split; [done|].
    split; [|split]; intros; rewrite ?Hs;
      unfold from_secs in *;
      repeat match goal with |- context [?a <=? ?b] => destruct (Z.leb_spec a b) end;
      (done || (cbn [level_rank] in *; lia)). }
  destruct c; apply Hstep; simpl; lia.
Qed.

(** After any run of applied commands the cursor is the highest sequence
    number applied; if it moved, its time is that of the first command that
    carried this number, and otherwise the cursor is untouched. *)
Lemma cursor_is_highest c xs :
  let c' := fold_left (λ c x, cursor_advance x.1 x.2 c) xs c in
  last_applied c' = foldr Z.max (last_applied c) (xs.*2) ∧
  (c' = c ∨ ∃ xs1 now xs2, xs = xs1 ++ (now, last_applied c') :: xs2 ∧
    updated_at_ms c' = now ∧ last_applied c < last_applied c' ∧
    Forall (λ x, x.2 < last_applied c') xs1).
Proof.
  cbn zeta. revert c. induction xs as [|[now to] xs IH] using rev_ind; intros c; [by split; [|left]|].
  rewrite fold_left_app. cbn [fold_left fst snd]. destruct (IH c) as [IH1 IH2].
  set (c1 := fold_left _ xs c) in *. rewrite fmap_app. cbn [fmap list_fmap snd].
  rewrite foldr_max_snoc, <- IH1. unfold cursor_advance, is_after.
  destruct (Z.ltb_spec (last_applied c1) to) as [Hlt|Hge]; cbn [last_applied updated_at_ms].
  - split; [lia|]. right. exists xs, now, []. split; [done|]. split; [done|].
    destruct (foldr_max_ge (last_applied c) (xs.*2)) as [H1 H2]. rewrite <- IH1 in H1, H2.
    split; [lia|]. apply (Forall_fmap (λ x : Z * Seq, x.2)) in H2. eapply Forall_impl; [exact H2|].
    intros x Hx. cbn in Hx. by eapply Z.le_lt_trans.
  - split; [lia|]. destruct IH2 as [H|(xs1 & t & xs2 & Hxs & H)]; [by left|right].
    exists xs1, t, (xs2 ++ [(now, to)]). split; [|exact H]. by rewrite Hxs at 1; rewrite <- app_assoc.
Qed.

(** ** What the walker has fired *)
Section Walker.
Variables (l : FailLadder) (t0 : Z).
Hypothesis (Hsorted : StronglySorted rung_lt (rungs l)).
Local Abbreviation rs := (rungs l).
Local Abbreviation sil := (λ t, saturating_duration_since t t0).

(** A rung some earlier silence of [ss] reached. *)
Definition reached (ss : list Z) (r : FailRung) : bool := existsb (λ s, after r <=? s) ss.

Definition walker_inv (ss : list Z) (w : FailLadderWalker) : Prop :=
  w = mkWalker l t0 (reached ss <$> rs).

(** What a poll after [s] of silence, with the silences [ss] polled before,
    returns: the highest rung reached, unless an earlier poll fired it. *)
Definition poll_spec (ss : list Z) (s : Z) (a : option FailAction) : Prop :=
  match a with
  | Some a => ∃ r, rs !! rung_index a = Some r ∧ fa_level a = level r ∧ after r ≤ s ∧
      (∀ r', r' ∈ rs → after r' ≤ s → after r' ≤ after r) ∧ Forall (λ s', s' < after r) ss
  | None => ∀ r, r ∈ rs → after r ≤ s → Exists (λ s', after r ≤ s') ss
  end.

Lemma start_inv : walker_inv [] (start l t0).
Proof.
  unfold walker_inv, start. f_equal. clear. induction rs as [|r rs' IH]; [done|].
  cbn [length replicate fmap list_fmap]. by rewrite IH.
Qed.

Lemma rungs_lt i j r r' :
  (i < j)%nat → rs !! i = Some r → rs !! j = Some r' → after r < after r'.
Proof.
  intros Hij Hi Hj. pose proof Hsorted as Hs. rewrite <- (take_drop j rs) in Hs.
  refine (StronglySorted_app_1_elem_of _ _ _ r r' Hs _ _).
  - apply list_elem_of_lookup_2 with i. by rewrite lookup_take_lt.
  - apply list_elem_of_lookup_2 with 0%nat. by rewrite lookup_drop, Nat.add_0_r.
Qed.

Lemma reached_true ss r : reached ss r = true ↔ Exists (λ s, after r ≤ s) ss.
Proof.
  unfold reached. rewrite existsb_exists, Exists_exists. setoid_rewrite list_elem_of_In.
  by setoid_rewrite Z.leb_le.
Qed.

Lemma reached_false ss r : reached ss r = false ↔ Forall (λ s, s < after r) ss.
Proof.
  rewrite <- not_true_iff_false, reached_true. rewrite <- Forall_Exists_neg.
  apply Forall_iff. intros. cbn. lia.
Qed.

Lemma reached_snoc ss s r : reached (ss ++ [s]) r = reached ss r || (after r <=? s).
Proof. unfold reached. rewrite existsb_app. simpl. by rewrite orb_false_r. Qed.

(** A rung below one a silence reached is reached too. *)
Lemma reached_below ss r r' : after r ≤ after r' → reached ss r' = true → reached ss r = true.
Proof.
  rewrite !reached_true. intros Hle H. eapply Exists_impl; [exact H|]. cbn. intros. lia.
Qed.

Lemma first_ready_find s (g : FailRung → bool) fs ps :
  (∀ i r, (i, r) ∈ ps → fs !! i = Some (g r)) →
  first_ready s fs ps = Done (List.find (λ p, (after p.2 <=? s) && negb (g p.2)) ps).
Proof.
  induction ps as [|[i r] ps IH]; intros H; [done|].
  assert (IH' := IH (λ i r Hin, H i r (list_elem_of_further _ _ _ Hin))). cbn [first_ready List.find fst snd].
  rewrite (H i r) by left. destruct (after r <=? s); [|done]. by destruct (g r).
Qed.

Lemma first_unfired_find (g : FailRung → bool) fs ps :
  (∀ i r, (i, r) ∈ ps → fs !! i = Some (g r)) →
  first_unfired fs ps = Done (after ∘ snd <$> List.find (λ p, negb (g p.2)) ps).
Proof.
  induction ps as [|[i r] ps IH]; intros H; [done|].
  assert (IH' := IH (λ i r Hin, H i r (list_elem_of_further _ _ _ Hin))).
  cbn [first_unfired List.find fst snd]. rewrite (H i r) by left. by destruct (g r).
Qed.

Lemma walker_fired ss i r :
  (i, r) ∈ imap pair rs → (reached ss <$> rs) !! i = Some (reached ss r).
Proof.
  intros H. apply elem_of_lookup_imap in H as (j & r' & [= -> ->] & Hr).
  by rewrite list_lookup_fmap, Hr.
Qed.

(** Marking up to the rung fired is what one more silence reaches. *)
Lemma mark_reached ss s idx r : rs !! idx = Some r → after r ≤ s →
  (∀ j r', rs !! j = Some r' → (idx < j)%nat → s < after r') →
  mark_fired (idx + 1) (reached ss <$> rs) = reached (ss ++ [s]) <$> rs.
Proof.
  intros Hr Hle Habove. unfold mark_fired. apply list_eq. intros j.
  rewrite list_lookup_imap, !list_lookup_fmap. destruct (rs !! j) as [r'|] eqn:Ej; [|done].
  simpl. f_equal. rewrite reached_snoc. destruct (Nat.ltb_spec j (idx + 1)) as [Hj|Hj].
  - symmetry. apply orb_true_iff. right. apply Z.leb_le.
    destruct (decide (j = idx)) as [->|Hne]; [by simplify_eq|].
    pose proof (rungs_lt j idx r' r ltac:(lia) Ej Hr). lia.
  - specialize (Habove j r' Ej ltac:(lia)).
    destruct (Z.leb_spec (after r') s); [lia|]. by rewrite orb_false_r.
Qed.

Lemma poll_ok ss t w : walker_inv ss w → ∃ a w',
  poll_at t w = Done (a, w') ∧ poll_spec ss (sil t) a ∧ walker_inv (ss ++ [sil t]) w'.
Proof.
  intros ->. unfold poll_at. cbn [entered_at fired ladder]. set (s := saturating_duration_since t t0).
  rewrite (first_ready_find _ (reached ss)).
  2:{ intros i r Hin. rewrite elem_of_reverse in Hin. by apply walker_fired. }
  destruct (List.find _ _) as [[idx r]|] eqn:E.
  - apply find_reverse in E as (l1 & l2 & El & Hf & Hall). simpl in Hf.
    apply andb_true_iff in Hf as [Hle%Z.leb_le Hnew%negb_true_iff].
    assert (Hr : rs !! idx = Some r ∧ idx = length l1).
    { apply imap_pair_lookup. by rewrite El, list_lookup_middle. }
    destruct Hr as [Hr Hidx].
    assert (Habove : ∀ j r', rs !! j = Some r' → (idx < j)%nat → s < after r').
    { intros j r' Hj Hlt. assert (Hin : (j, r') ∈ l2).
      { assert (H : imap pair rs !! j = Some (j, r')) by (by rewrite list_lookup_imap, Hj).
        rewrite El, lookup_app_r, lookup_cons_ne_0 in H by lia. by eapply list_elem_of_lookup_2. }
      rewrite Forall_forall in Hall. specialize (Hall _ Hin). simpl in Hall.
      destruct (Z.leb_spec (after r') s) as [Hc|]; [|done]. apply negb_false_iff in Hall.
      pose proof (rungs_lt idx j r r' Hlt Hr Hj). rewrite (reached_below ss r r') in Hnew; [done|lia|done]. }
    eexists _, _. split; [done|]. split.
    + exists r. cbn [rung_index fa_level]. repeat (split; [done|]). split; [|by apply reached_false].
      intros r' [j Hj]%list_elem_of_lookup Hle'.
      destruct (Nat.lt_trichotomy j idx) as [Hlt|[->|Hgt]]; [|simplify_eq; done|].
      * pose proof (rungs_lt j idx r' r Hlt Hj Hr). lia.
      * specialize (Habove j r' Hj Hgt). lia.
    + unfold walker_inv. f_equal. by apply mark_reached with r.
  - apply find_reverse_none in E. rewrite Forall_forall in E.
    assert (Hdone : ∀ r, r ∈ rs → after r ≤ s → reached ss r = true).
    { intros r [i Hi]%list_elem_of_lookup Hle. specialize (E (i, r)). simpl in E.
      rewrite (proj2 (Z.leb_le _ _) Hle) in E. apply negb_false_iff, E.
      apply list_elem_of_lookup_2 with i. by rewrite list_lookup_imap, Hi. }
    eexists _, _. split; [done|]. split.
    + intros r Hin Hle. by apply reached_true, Hdone.
    + unfold walker_inv. f_equal. apply list_fmap_ext. intros i r Hi. rewrite reached_snoc.
      destruct (Z.leb_spec (after r) s) as [Hle|]; [|by rewrite orb_false_r].
      rewrite Hdone; [done| |done]. by eapply list_elem_of_lookup_2.
Qed.

Lemma polls_ok ss ts w : walker_inv ss w → ∃ acts w',
  mmap_M poll_at ts w = Done (acts, w') ∧ walker_inv (ss ++ (sil <$> ts)) w' ∧
  ∀ ts1 t ts2, ts = ts1 ++ t :: ts2 →
    ∃ a, acts !! length ts1 = Some a ∧ poll_spec (ss ++ (sil <$> ts1)) (sil t) a.
Proof.
  revert ss w. induction ts as [|t ts IH]; intros ss w Hw.
  - eexists _, _. split; [done|]. split; [by rewrite app_nil_r|]. by intros [].
  - destruct (poll_ok ss t w Hw) as (a & w1 & Ep & Hspec & Hw1).
    destruct (IH _ _ Hw1) as (acts & w' & Em & Hw' & Hall).
    exists (a :: acts), w'. split.
    { cbn [mmap_M]. rewrite (bind_done _ _ _ _ _ Ep). by rewrite (bind_done _ _ _ _ _ Em). }
    rewrite <- app_assoc in Hw'. split; [done|].
    intros [|t1 ts1] t' ts2 Heq; simplify_eq/=.
    + exists a. by rewrite app_nil_r.
    + destruct (Hall ts1 t' ts2 eq_refl) as (a' & Ha & Hs). exists a'. by rewrite <- app_assoc in Hs.
Qed.

Lemma inv_complete ss w : walker_inv ss w →
  is_complete w = true ↔ ∀ r, r ∈ rs → Exists (λ s, after r ≤ s) ss.
Proof.
  intros ->. unfold is_complete. cbn [fired]. rewrite forallb_forall. split.
  - intros H r Hin. apply reached_true. apply H. apply list_elem_of_In.
    by apply (list_elem_of_fmap_2 (reached ss)).
  - intros H b Hb%list_elem_of_In. apply list_elem_of_fmap in Hb as (r & -> & Hin).
    by apply reached_true, H.
Qed.

Lemma inv_next ss w : walker_inv ss w →
  ∃ o, next_rung_at w = Done o ∧
    match o with
    | Some d => ∃ r, r ∈ rs ∧ after r = d ∧ Forall (λ s, s < d) ss ∧
        ∀ r', r' ∈ rs → after r' < d → Exists (λ s, after r' ≤ s) ss
    | None => is_complete w = true
    end.
Proof.
  intros Hw. pose proof (inv_complete ss w Hw) as Hc. rewrite Hw in *. unfold next_rung_at. cbn [fired ladder].
  rewrite (first_unfired_find (reached ss)) by (intros; by apply walker_fired).
  eexists. split; [done|]. destruct (List.find _ _) as [[i r]|] eqn:E; simpl.
  - apply find_first in E as (l1 & l2 & El & Hf & Hall). simpl in Hf.
    apply negb_true_iff, reached_false in Hf.
    assert (Hr : rs !! length l1 = Some r).
    { destruct (imap_pair_lookup rs (length l1) i r) as [Hi <-]; [|exact Hi].
      by rewrite El, list_lookup_middle. }
    exists r. split; [by eapply list_elem_of_lookup_2|]. repeat (split; [done|]).
    intros r' [j Hj]%list_elem_of_lookup Hlt.
    assert (Hj1 : (j < length l1)%nat).
    { destruct (Nat.lt_trichotomy j (length l1)) as [|[->|Hgt]]; [done|simplify_eq; lia|].
      pose proof (rungs_lt _ _ r r' Hgt Hr Hj). lia. }
    assert (Hin : (j, r') ∈ l1).
    { assert (H : imap pair rs !! j = Some (j, r')) by (by rewrite list_lookup_imap, Hj).
      rewrite El, lookup_app_l in H by done. by eapply list_elem_of_lookup_2. }
    rewrite Forall_forall in Hall. specialize (Hall _ Hin). simpl in Hall.
    by apply reached_true, negb_false_iff.
  - apply Hc. intros r [j Hj]%list_elem_of_lookup. apply reached_true.
    apply (List.find_none _ _) with (x := (j, r)) in E; [by apply negb_false_iff|].
    apply list_elem_of_In, list_elem_of_lookup_2 with j. by rewrite list_lookup_imap, Hj.
Qed.
End Walker.

(** ** Properties *)

(** On a ladder [from_rungs] accepts, [level_at] is the level of the
    highest rung the silence has reached, and nothing before the first. *)
Theorem level_at_highest_rung rs l silence (Hl : from_rungs rs = Ok l) :
  match level_at l silence with
  | Some k => ∃ r, r ∈ rs ∧ level r = k ∧ after r ≤ silence ∧
      ∀ r', r' ∈ rs → after r' ≤ silence → after r' ≤ after r
  | None => ∀ r, r ∈ rs → silence < after r
  end.
Proof.
  destruct (from_rungs_sorted rs l Hl) as [Hr Hs]. unfold level_at. rewrite Hr in *.
  destruct (List.find _ _) as [r|] eqn:E; simpl.
  - apply find_reverse in E as (l1 & l2 & -> & Hf%Z.leb_le & Hall). exists r.
    split; [apply elem_of_app; right; left|]. split; [done|]. split; [done|].
    intros r' Hin Hle. apply elem_of_app in Hin as [Hin|[->|Hin]%elem_of_cons]; [|lia|].
    + pose proof (StronglySorted_app_1_elem_of _ _ _ r' r Hs Hin) as Hlt.
      unfold rung_lt in Hlt. specialize (Hlt ltac:(left)). lia.
    + rewrite Forall_forall in Hall. specialize (Hall r' Hin). apply Z.leb_gt in Hall. lia.
  - apply find_reverse_none in E. rewrite Forall_forall in E. intros r Hin.
    specialize (E r Hin). by apply Z.leb_gt.
Qed.

(** C36: on a ladder [from_rungs] accepts, polling the walker at any sequence
    of instants never panics. Each poll fires the highest rung its silence has
    reached unless an earlier poll reached that rung too, so no rung fires
    twice; the walker is complete exactly when every rung was reached, and
    [next_rung_at] is the first rung that was not. *)
Theorem walker_tracks_ladder rs l t0 ts (Hl : from_rungs rs = Ok l) :
  let sil := λ t, saturating_duration_since t t0 in
  ∃ acts w, mmap_M poll_at ts (start l t0) = Done (acts, w) ∧
    (∀ ts1 t ts2, ts = ts1 ++ t :: ts2 →
      ∃ a, acts !! length ts1 = Some a ∧ poll_spec l (sil <$> ts1) (sil t) a) ∧
    (is_complete w = true ↔ ∀ r, r ∈ rs → Exists (λ t, after r ≤ sil t) ts) ∧
    ∃ o, next_rung_at w = Done o ∧
      match o with
      | Some d => ∃ r, r ∈ rs ∧ after r = d ∧ Forall (λ t, sil t < d) ts ∧
          ∀ r', r' ∈ rs → after r' < d → Exists (λ t, after r' ≤ sil t) ts
      | None => is_complete w = true
      end.
Proof.
  intros sil. destruct (from_rungs_sorted rs l Hl) as [<- Hs].
  assert (Exists_sil : ∀ d, Exists (λ s, d ≤ s) (sil <$> ts) ↔ Exists (λ t, d ≤ sil t) ts)
    by (intros d; apply (Exists_fmap sil)).
  destruct (polls_ok l t0 Hs [] ts _ (start_inv l t0)) as (acts & w & Ep & Hw & Hall).
  exists acts, w. split; [done|]. split; [exact Hall|]. split.
  - rewrite (inv_complete l t0 _ w Hw). cbn [app].
    by split; intros H r Hin; specialize (H r Hin); apply Exists_sil.
  - destruct (inv_next l t0 Hs _ w Hw) as (o & En & Ho). exists o. split; [done|].
    destruct o as [d|]; [|done]. destruct Ho as (r & Hin & Hr & Hf & Hlow).
    exists r. split; [done|]. split; [done|]. split; [by apply (Forall_fmap sil) in Hf|].
    intros r' Hr' Hlt. specialize (Hlow r' Hr' Hlt). by apply Exists_sil.
Qed.

(** ** Witnesses *)
Definition demo_ladder : FailLadder := mkFailLadder maker_rungs.

Lemma level_at_highest_rung_witness :
  ∃ r, r ∈ maker_rungs ∧ level r = StopNew ∧ after r ≤ from_secs 100.
Proof.
  pose proof (level_at_highest_rung maker_rungs demo_ladder (from_secs 100) eq_refl) as H.
  simpl in H. destruct H as (r & H1 & H2 & H3 & _). by exists r.
Defined.

Lemma walker_tracks_ladder_witness :
  ∃ acts w, mmap_M poll_at [from_secs 20; from_secs 400] (start demo_ladder 0) = Done (acts, w) ∧
    is_complete w = true.
Proof.
  destruct (walker_tracks_ladder maker_rungs demo_ladder 0 [from_secs 20; from_secs 400] eq_refl)
    as (acts & w & E & _ & [_ Hc] & _).
  exists acts, w. split; [exact E|]. apply Hc.
  intros r Hr. right. left. unfold maker_rungs in Hr. rewrite !elem_of_cons in Hr.
  destruct Hr as [->|[->|[->|Hr]]]; [vm_compute; discriminate..|]. by apply elem_of_nil in Hr.
Defined.
