(* ===== verification/Vault.v ===== *)
(** * The secret vault ([crates/controller/src/vault.rs])

    Named entries with secret values and plain metadata, mirrored to a JSON
    file with every value encrypted on its own. The cipher (AES-256-GCM under
    the master key) and the file format are parameters; a nonce is an argument
    of the encryption, drawn per value. Whether a write to the disk succeeds
    is an input, and the lock is never poisoned. *)
From stdpp Require Import base gmap list strings sorting.
From Stdlib Require Import ZArith Lia.
From S2P Require Import Prelude Bytes Catalog.
Local Open Scope string_scope.
Local Open Scope list_scope.

Definition EXCHANGE : string := "exchange".

Record VaultEntry := mkEntry {
  v_name : string;
  v_kind : string;
  v_description : option string;
  v_values : gmap string string;
  v_metadata : gmap string string;
  v_allowed_agents : list string;
  v_client_id : option string;
  v_created_at_ms : Z;
  v_updated_at_ms : Z;
  v_rotated_at_ms : option Z;
  v_expires_at_ms : option Z;
}.

Record VaultSummary := mkSummary {
  vs_name : string;
  vs_kind : string;
  vs_description : option string;
  vs_metadata : gmap string string;
  vs_value_keys : list string;
  vs_allowed_agents : list string;
  vs_client_id : option string;
  vs_created_at_ms : Z;
  vs_updated_at_ms : Z;
  vs_rotated_at_ms : option Z;
  vs_expires_at_ms : option Z;
}.

Inductive CredentialCheck :=
| CheckOk (exchange product : string)
| CheckUnknown
| WrongKind (actual : string)
| NotAuthorised (whitelist : list string)
| TenantMismatch (cred_tenant agent_tenant : string)
| Expired (expired_at_ms : Z).

Record CredentialDescriptor := mkDescriptor {
  cd_id : string;
  cd_exchange : string;
  cd_product : string;
  cd_default_symbol : option string;
  cd_client_id : option string;
}.

Inductive VaultError :=
| VaultIo
| VaultParse
| Duplicate (name : string)
| VaultCrypto
| Invalid (why : string).

(** An entry as the file has it: every value a blob of the cipher. *)
Record OnDiskEntry {B : Type} := mkOnDisk {
  od_name : string;
  od_kind : string;
  od_description : option string;
  od_values_enc : gmap string B;
  od_metadata : gmap string string;
  od_allowed_agents : list string;
  od_client_id : option string;
  od_created_at_ms : Z;
  od_updated_at_ms : Z;
  od_rotated_at_ms : option Z;
  od_expires_at_ms : option Z;
}.
#[global] Arguments OnDiskEntry : clear implicits.

Definition on_disk {B} (e : VaultEntry) (values_enc : gmap string B) : OnDiskEntry B :=
  mkOnDisk B (v_name e) (v_kind e) (v_description e) values_enc (v_metadata e) (v_allowed_agents e)
    (v_client_id e) (v_created_at_ms e) (v_updated_at_ms e) (v_rotated_at_ms e) (v_expires_at_ms e).

Definition disk_entry {B} (d : OnDiskEntry B) (values : gmap string string) : VaultEntry :=
  mkEntry (od_name d) (od_kind d) (od_description d) values (od_metadata d) (od_allowed_agents d)
    (od_client_id d) (od_created_at_ms d) (od_updated_at_ms d) (od_rotated_at_ms d) (od_expires_at_ms d).

(** AES-GCM under one master key, and [serde_json] on the file's entries. *)
Class VaultCodec := {
  blob : Type;
  encrypt : Z → string → option blob;
  decrypt : blob → option string;
  write_file : list (OnDiskEntry blob) → string;
  read_file : string → option (list (OnDiskEntry blob));
}.

(** Encryption inverts, and a file that was written parses back and is not
    blank. *)
Class VaultCodecLaws (VC : VaultCodec) : Prop := {
  decrypt_encrypt n s : ∃ b, encrypt n s = Some b ∧ decrypt b = Some s;
  file_roundtrip l : read_file (write_file l) = Some l ∧ is_blank (write_file l) = false;
}.

(** ** Validation *)
Definition ALLOWED_EXCHANGES : list string :=
  ["binance"; "binance_testnet"; "bybit"; "bybit_testnet"; "hyperliquid"; "hyperliquid_testnet"].
Definition ALLOWED_PRODUCTS : list string := ["spot"; "linear_perp"; "inverse_perp"].

(** [{:?}] of a list of strings without special characters. *)
Definition quoted (s : string) : string :=
  String (Ascii.ascii_of_nat 34) s +:+ String (Ascii.ascii_of_nat 34) "".
Definition debug_list (l : list string) : string := "[" +:+ String.concat ", " (quoted <$> l) +:+ "]".

Definition unknown_choice (what given : string) (allowed : list string) : VaultError :=
  Invalid ("unknown " +:+ what +:+ " '" +:+ given +:+ "' — allowed: " +:+ debug_list allowed).

(** A field that is missing or empty. *)
Definition lacks (m : gmap string string) (k : string) : bool :=
  match m !! k with Some v => bool_decide (v = "") | None => true end.

Definition first_lacking (m : gmap string string) (ks : list string) : option string :=
  List.find (lacks m) ks.

Definition validate (e : VaultEntry) : result unit VaultError :=
  if is_blank (v_name e) then Err (Invalid "name must not be empty")
  else if is_blank (v_kind e) then Err (Invalid "kind must not be empty")
  else if bool_decide (v_kind e = EXCHANGE) then
    match first_lacking (v_values e) ["api_key"; "api_secret"] with
    | Some k => Err (Invalid ("exchange entry requires value '" +:+ k +:+ "'"))
    | None =>
        match first_lacking (v_metadata e) ["exchange"; "product"] with
        | Some k => Err (Invalid ("exchange entry requires metadata '" +:+ k +:+ "'"))
        | None =>
            let ex := default "" (v_metadata e !! "exchange") in
            let pr := default "" (v_metadata e !! "product") in
            if negb (bool_decide (ex ∈ ALLOWED_EXCHANGES))
            then Err (unknown_choice "exchange" ex ALLOWED_EXCHANGES)
            else if negb (bool_decide (pr ∈ ALLOWED_PRODUCTS))
            then Err (unknown_choice "product" pr ALLOWED_PRODUCTS)
            else Ok tt
        end
    end
  else if bool_decide (v_values e = ∅) then Err (Invalid "entry has no values")
  else if existsb (λ kv, bool_decide (kv.2 = "")) (map_to_list (v_values e))
  then Err (Invalid "values must not be empty")
  else Ok tt.

Definition agent_is_authorised (e : VaultEntry) (agent : string) : bool :=
  bool_decide (v_allowed_agents e = [])
  || existsb (λ a, bool_decide (a = agent)) (v_allowed_agents e).

(** [values.keys()] of an ordered map. *)
Definition summary (r : VaultEntry) : VaultSummary :=
  mkSummary (v_name r) (v_kind r) (v_description r) (v_metadata r)
    (sort_by Stdlib.Strings.String.leb (map_to_list (v_values r)).*1) (v_allowed_agents r) (v_client_id r)
    (v_created_at_ms r) (v_updated_at_ms r) (v_rotated_at_ms r) (v_expires_at_ms r).

(** ** The store *)
Section Vault.
Context {VC : VaultCodec} {I : HashMapIter}.

(** [vault_file] is the file at [path]: [None] for an in-memory store. *)
Record VaultStore := mkVault {
  entries : gmap string VaultEntry;
  vault_file : option (option string);
}.

Definition vault_in_memory : VaultStore := mkVault ∅ None.

Fixpoint encrypt_all (nonce : string → Z) (kvs : list (string * string)) : option (gmap string blob) :=
  match kvs with
  | [] => Some ∅
  | (k, v) :: kvs =>
      b ← encrypt (nonce k) v;
      bs ← encrypt_all nonce kvs;
      Some (<[k := b]> bs)
  end.

Fixpoint decrypt_all (kbs : list (string * blob)) : option (gmap string string) :=
  match kbs with
  | [] => Some ∅
  | (k, b) :: kbs =>
      v ← decrypt b;
      vs ← decrypt_all kbs;
      Some (<[k := v]> vs)
  end.

(** [nonce name key] is the nonce drawn for a value. *)
Fixpoint seal_all (nonce : string → string → Z) (es : list VaultEntry) : option (list (OnDiskEntry blob)) :=
  match es with
  | [] => Some []
  | e :: es =>
      bs ← encrypt_all (nonce (v_name e)) (map_to_list (v_values e));
      rest ← seal_all nonce es;
      Some (on_disk e bs :: rest)
  end.

Fixpoint open_all (ds : list (OnDiskEntry blob)) : option (list VaultEntry) :=
  match ds with
  | [] => Some []
  | d :: ds =>
      vs ← decrypt_all (map_to_list (od_values_enc d));
      rest ← open_all ds;
      Some (disk_entry d vs :: rest)
  end.

Definition vault_load (file : option string) : result VaultStore VaultError :=
  match file with
  | None => Ok (mkVault ∅ (Some None))
  | Some raw =>
      if is_blank raw then Ok (mkVault ∅ (Some (Some raw)))
      else
        match read_file raw with
        | None => Err VaultParse
        | Some ds =>
            match open_all ds with
            | None => Err VaultCrypto
            | Some es => Ok (mkVault (hm_collect ((λ e, (v_name e, e)) <$> es)) (Some (Some raw)))
            end
        end
  end.

Definition vault_persist (nonce : string → string → Z) (disk_ok : bool) (s : VaultStore) :
    result unit VaultError * VaultStore :=
  match vault_file s with
  | None => (Ok tt, s)
  | Some _ =>
      match seal_all nonce (hm_values (entries s)) with
      | None => (Err VaultCrypto, s)
      | Some ds =>
          if disk_ok then (Ok tt, mkVault (entries s) (Some (Some (write_file ds))))
          else (Err VaultIo, s)
      end
  end.

Definition with_times (created updated : Z) (rotated : option Z) (e : VaultEntry) : VaultEntry :=
  mkEntry (v_name e) (v_kind e) (v_description e) (v_values e) (v_metadata e) (v_allowed_agents e)
    (v_client_id e) created updated rotated (v_expires_at_ms e).

Definition put_entry (e : VaultEntry) (s : VaultStore) : VaultStore :=
  mkVault (<[v_name e := e]> (entries s)) (vault_file s).

Definition saved (nonce : string → string → Z) (disk_ok : bool) (e : VaultEntry) (s : VaultStore) :
    result VaultSummary VaultError * VaultStore :=
  match vault_persist nonce disk_ok s with
  | (Err x, s) => (Err x, s)
  | (Ok _, s) => (Ok (summary e), s)
  end.

Definition vault_insert (now : Z) (nonce : string → string → Z) (disk_ok : bool) (e : VaultEntry)
    (s : VaultStore) : result VaultSummary VaultError * VaultStore :=
  match validate e with
  | Err x => (Err x, s)
  | Ok _ =>
      let e := with_times (if (v_created_at_ms e =? 0)%Z then now else v_created_at_ms e) now
                 (v_rotated_at_ms e) e in
      match entries s !! v_name e with
      | Some _ => (Err (Duplicate (v_name e)), s)
      | None => saved nonce disk_ok e (put_entry e s)
      end
  end.

Definition upsert (now : Z) (nonce : string → string → Z) (disk_ok : bool) (e : VaultEntry)
    (s : VaultStore) : result VaultSummary VaultError * VaultStore :=
  match validate e with
  | Err x => (Err x, s)
  | Ok _ =>
      let e := match entries s !! v_name e with
               | None => with_times now now (v_rotated_at_ms e) e
               | Some prev =>
                   with_times (v_created_at_ms prev) now
                     (if bool_decide (v_values prev = v_values e) then v_rotated_at_ms prev else Some now) e
               end in
      saved nonce disk_ok e (put_entry e s)
  end.

Definition vault_remove (nonce : string → string → Z) (disk_ok : bool) (name : string) (s : VaultStore) :
    result unit VaultError * VaultStore :=
  match entries s !! name with
  | None => (Ok tt, s)
  | Some _ => vault_persist nonce disk_ok (mkVault (delete name (entries s)) (vault_file s))
  end.

Definition vault_get (s : VaultStore) (name : string) : option VaultEntry := entries s !! name.
Definition get_value (s : VaultStore) (name key : string) : option string :=
  vault_get s name ≫= λ e, v_values e !! key.
Definition list_summaries (s : VaultStore) : list VaultSummary :=
  sort_by (λ a b, Stdlib.Strings.String.leb (vs_name a) (vs_name b)) (summary <$> hm_values (entries s)).
Definition vault_len (s : VaultStore) : nat := size (entries s).

(** ** What reaches an agent *)
Definition pushed_of (agent : string) (e : VaultEntry) : option PushedCredential :=
  if negb (bool_decide (v_kind e = EXCHANGE)) then None
  else if negb (agent_is_authorised e agent) then None
  else
    match v_values e !! "api_key", v_values e !! "api_secret" with
    | Some key, Some secret =>
        Some (mkPushed (v_name e) (default "" (v_metadata e !! "exchange"))
          (default "" (v_metadata e !! "product")) key secret (v_metadata e !! "max_notional_quote")
          (v_metadata e !! "default_symbol"))
    | _, _ => None
    end.

Definition pushable_exchange_for_agent (s : VaultStore) (agent : string) : list PushedCredential :=
  omap (pushed_of agent) (hm_values (entries s)).

Definition expired (now : Z) (e : VaultEntry) : bool :=
  match v_expires_at_ms e with Some t => (t <=? now)%Z | None => false end.

Definition exchange_descriptors_for_agent (now : Z) (s : VaultStore) (agent : string) :
    list CredentialDescriptor :=
  sort_by (λ a b, Stdlib.Strings.String.leb (cd_id a) (cd_id b))
    (omap (λ e,
       if negb (bool_decide (v_kind e = EXCHANGE)) || negb (agent_is_authorised e agent) || expired now e
       then None
       else Some (mkDescriptor (v_name e) (default "" (v_metadata e !! "exchange"))
              (default "" (v_metadata e !! "product")) (v_metadata e !! "default_symbol") (v_client_id e)))
     (hm_values (entries s))).

(** The tenant fence: a scoped entry needs an agent of that tenant. *)
Definition tenant_mismatch (e : VaultEntry) (tenant : option string) : option CredentialCheck :=
  match v_client_id e with
  | None => None
  | Some c =>
      match tenant with
      | Some t => if bool_decide (c = t) then None else Some (TenantMismatch c t)
      | None => Some (TenantMismatch c "")
      end
  end.

Definition can_exchange_access (now : Z) (s : VaultStore) (credential agent : string)
    (tenant : option string) : CredentialCheck :=
  match vault_get s credential with
  | None => CheckUnknown
  | Some e =>
      if negb (bool_decide (v_kind e = EXCHANGE)) then WrongKind (v_kind e)
      else if expired now e then Expired (default 0%Z (v_expires_at_ms e))
      else
        match tenant_mismatch e tenant with
        | Some m => m
        | None =>
            if agent_is_authorised e agent
            then CheckOk (default "" (v_metadata e !! "exchange")) (default "" (v_metadata e !! "product"))
            else NotAuthorised (v_allowed_agents e)
        end
  end.
End Vault.

(** ** A restart keeps the vault *)
Inductive VaultOp := VInsert (e : VaultEntry) | VUpsert (e : VaultEntry) | VRemove (name : string).

Section Restart.
Context {VC : VaultCodec} {I : HashMapIter}.
Implicit Types s : VaultStore.

(** One operation, with the clock, the nonces it draws and the fate of its
    write; [None] is an operation that failed. *)
Definition vault_step (s : VaultStore) (x : Z * (string → string → Z) * bool * VaultOp) : VaultStore :=
  let '(now, nonce, ok, op) := x in
  match op with
  | VInsert e => (vault_insert now nonce ok e s).2
  | VUpsert e => (upsert now nonce ok e s).2
  | VRemove name => (vault_remove nonce ok name s).2
  end.

Definition vault_run (xs : list (Z * (string → string → Z) * bool * VaultOp)) s : VaultStore :=
  fold_left vault_step xs s.

Definition named (s : VaultStore) : Prop := ∀ k e, entries s !! k = Some e → v_name e = k.

(** Loading the file gives the entries back, secrets included. *)
Definition survives (s : VaultStore) : Prop :=
  ∃ f s', vault_file s = Some f ∧ vault_load f = Ok s' ∧ entries s' = entries s.

Context {L : VaultCodecLaws VC}.

Lemma perm_nil_map {V} (m : gmap string V) : [] ≡ₚ map_to_list m → m = ∅.
Proof. intros E%Permutation_nil_l. by apply map_to_list_empty_iff. Qed.

Lemma perm_cons_map {V} k v (l : list (string * V)) (m : gmap string V) :
  (k, v) :: l ≡ₚ map_to_list m → m !! k = Some v ∧ l ≡ₚ map_to_list (delete k m).
Proof.
  intros Hl. assert (Hk : m !! k = Some v).
  { apply elem_of_map_to_list. rewrite <- Hl. apply list_elem_of_here. }
  split; [done|]. apply (Permutation_cons_inv (a := (k, v))). rewrite Hl.
  rewrite <- (insert_delete_id m k v) at 1 by done.
  by rewrite map_to_list_insert by apply lookup_delete_eq.
Qed.

Lemma decrypt_all_values (bs : gmap string blob) (vs : gmap string string) l :
  l ≡ₚ map_to_list bs →
  (∀ k, match bs !! k with
        | Some b => ∃ v, vs !! k = Some v ∧ decrypt b = Some v
        | None => vs !! k = None
        end) → decrypt_all l = Some vs.
Proof.
  revert bs vs. induction l as [|[k b] l IH]; intros bs vs Hl Hvs; simpl.
  - f_equal. symmetry. apply map_empty. intros k. specialize (Hvs k).
    by rewrite (perm_nil_map bs Hl), lookup_empty in Hvs.
  - destruct (perm_cons_map _ _ _ _ Hl) as [Hk Hp].
    pose proof (Hvs k) as Hvk. rewrite Hk in Hvk. destruct Hvk as (v & Hv & ->). simpl.
    rewrite (IH (delete k bs) (delete k vs) Hp); simpl.
    + f_equal. by apply insert_delete_id.
    + intros k'. destruct (decide (k' = k)) as [->|Hne]; [by rewrite !lookup_delete_eq|].
      rewrite !lookup_delete_ne by done. apply Hvs.
Qed.

Lemma encrypt_all_spec nonce (vs : gmap string string) l : l ≡ₚ map_to_list vs →
  ∃ bs, encrypt_all nonce l = Some bs ∧
    ∀ k, match bs !! k with
         | Some b => ∃ v, vs !! k = Some v ∧ decrypt b = Some v
         | None => vs !! k = None
         end.
Proof.
  revert vs. induction l as [|[k v] l IH]; intros vs Hl; simpl.
  - exists ∅. split; [done|]. intros k. rewrite lookup_empty.
    by rewrite (perm_nil_map vs Hl).
  - destruct (perm_cons_map _ _ _ _ Hl) as [Hk Hp].
    destruct (decrypt_encrypt (nonce k) v) as (b & -> & Hb).
    destruct (IH _ Hp) as (bs & -> & Hbs). simpl. eexists. split; [done|].
    intros k'. destruct (decide (k' = k)) as [->|Hne].
    + rewrite lookup_insert_eq. by exists v.
    + rewrite lookup_insert_ne by done. specialize (Hbs k').
      by rewrite lookup_delete_ne in Hbs.
Qed.

Lemma seal_open nonce es : ∃ ds, seal_all nonce es = Some ds ∧ open_all ds = Some es.
Proof.
  induction es as [|e es (ds & Hs & Ho)]; [by exists []|]. simpl.
  destruct (encrypt_all_spec (nonce (v_name e)) (v_values e) _ (reflexivity _)) as (bs & -> & Hbs).
  rewrite Hs. simpl. eexists. split; [done|]. simpl.
  rewrite (decrypt_all_values bs (v_values e) _ (reflexivity _) Hbs). simpl.
  rewrite Ho. simpl. by destruct e.
Qed.

Lemma persist_entries nonce ok s : entries (vault_persist nonce ok s).2 = entries s.
Proof.
  unfold vault_persist. destruct (vault_file s); [|done]. destruct (seal_all _ _); [|done]. by destruct ok.
Qed.

Lemma persist_survives nonce s : named s → is_Some (vault_file s) →
  survives (vault_persist nonce true s).2.
Proof.
  intros Hn [f Hf]. unfold vault_persist. rewrite Hf.
  destruct (seal_open nonce (hm_values (entries s))) as (ds & -> & Ho). simpl.
  destruct (file_roundtrip ds) as [Hr Hb].
  eexists _, _. split; [done|]. split; [unfold vault_load; by rewrite Hb, Hr, Ho|].
  simpl. by apply (hm_collect_values v_name).
Qed.

Lemma put_named e s : named s → named (put_entry e s).
Proof. intros Hn k e'. simpl. rewrite lookup_insert_Some. intros [[<- <-]|[_ E]]; [done|by apply Hn]. Qed.

Lemma saved_survives nonce e s : named s → is_Some (vault_file s) →
  named (saved nonce true e s).2 ∧ survives (saved nonce true e s).2.
Proof.
  intros Hn Hf. pose proof (persist_survives nonce s Hn Hf) as H.
  pose proof (persist_entries nonce true s) as He. unfold saved.
  destruct (vault_persist nonce true s) as [[[]|x] s']; simpl in *; (split; [|done]);
    intros k e'; rewrite He; apply Hn.
Qed.

Lemma vault_step_survives now nonce op s : named s → survives s →
  named (vault_step s (now, nonce, true, op)) ∧ survives (vault_step s (now, nonce, true, op)).
Proof.
  intros Hn Hs. assert (Hf : is_Some (vault_file s)) by (destruct Hs as (f & _ & -> & _); by eexists).
  destruct op as [e|e|name]; simpl.
  - unfold vault_insert. destruct (validate e) as [[]|x]; [|done]. simpl.
    destruct (entries s !! v_name e); [done|]. apply saved_survives; [by apply put_named|done].
  - unfold upsert. destruct (validate e) as [[]|x]; [|done].
    apply saved_survives; [by apply put_named|done].
  - unfold vault_remove. destruct (entries s !! name); [|done].
    set (s1 := mkVault (delete name (entries s)) (vault_file s)).
    assert (Hn1 : named s1).
    { intros k e Hk. simpl in Hk. apply lookup_delete_Some in Hk as [_ Hk]. by apply Hn. }
    split; [|by apply persist_survives].
    intros k e. rewrite persist_entries. apply Hn1.
Qed.

(** As long as the writes succeed, after any sequence of inserts, upserts
    and removals, failed ones included, loading the vault file gives back
    every entry with its secret values, whatever nonces were drawn. *)
Theorem vault_survives_restart xs s (Hn : named s) (Hs : survives s)
  (Hok : Forall (λ x, x.1.2 = true) xs) :
  ∃ f s', vault_file (vault_run xs s) = Some f ∧ vault_load f = Ok s' ∧
    entries s' = entries (vault_run xs s).
Proof.
  change (survives (vault_run xs s)). revert s Hn Hs. induction Hok as [|x xs Hx _ IH]; intros s Hn Hs; [done|].
  destruct x as [[[now nonce] ok] op]. simpl in Hx. subst ok.
  destruct (vault_step_survives now nonce op s Hn Hs). by apply IH.
Qed.
End Restart.

(** ** The gates on a credential *)
Section Gates.
Context {VC : VaultCodec} {I : HashMapIter}.
Implicit Types s : VaultStore.

(** A deployment may use a credential exactly when it is a live exchange
    entry, of the agent's tenant or of none, with the agent on its list. *)
Lemma access_iff now s c agent tenant ex pr :
  can_exchange_access now s c agent tenant = CheckOk ex pr ↔
  ∃ e, entries s !! c = Some e ∧ v_kind e = EXCHANGE ∧ expired now e = false ∧
    (v_client_id e = None ∨ v_client_id e = tenant) ∧ agent_is_authorised e agent = true ∧
    ex = default "" (v_metadata e !! "exchange") ∧ pr = default "" (v_metadata e !! "product").
Proof.
  unfold can_exchange_access, vault_get. destruct (entries s !! c) as [e|]; [|naive_solver].
  split.
  - case_bool_decide as Hk; simpl; [|done]. destruct (expired now e) eqn:Ex; [done|].
    unfold tenant_mismatch. destruct (v_client_id e) as [t|] eqn:Et; [destruct tenant as [t'|]|]; try done;
      [case_bool_decide; [subst|done]|]; (destruct (agent_is_authorised e agent) eqn:Ea; [|done]);
      intros [= <- <-]; exists e; rewrite Et; naive_solver.
  - intros (e' & [= <-] & Hk & -> & Ht & -> & -> & ->). rewrite bool_decide_true by done. simpl.
    unfold tenant_mismatch. destruct (v_client_id e) as [t|]; [|done].
    destruct Ht as [?|<-]; [done|]. by rewrite bool_decide_true.
Qed.

Lemma pushable_elem s agent p : p ∈ pushable_exchange_for_agent s agent ↔
  ∃ k e, entries s !! k = Some e ∧ pushed_of agent e = Some p.
Proof.
  unfold pushable_exchange_for_agent. rewrite list_elem_of_omap. split.
  - intros (e & (k & Hk)%hm_values_elem & Hp). by exists k, e.
  - intros (k & e & Hk & Hp). exists e. split; [|done]. apply hm_values_elem. by exists k.
Qed.

(** The push looks at neither the expiry nor the tenant. *)
Lemma expired_still_pushed s agent k e key secret : entries s !! k = Some e → v_kind e = EXCHANGE →
  agent_is_authorised e agent = true → v_values e !! "api_key" = Some key →
  v_values e !! "api_secret" = Some secret →
  ∃ p, p ∈ pushable_exchange_for_agent s agent ∧ pc_id p = v_name e ∧ pc_api_secret p = secret.
Proof.
  intros Hk Hkind Ha Hkey Hsec. eexists. split; [apply pushable_elem; exists k, e; split; [done|]|].
  - unfold pushed_of. rewrite bool_decide_true, Ha, Hkey, Hsec by done. reflexivity.
  - done.
Qed.

(** An upsert stamps the rotation exactly when the secrets change. *)
Lemma upsert_rotation now nonce ok e prev s : validate e = Ok tt → entries s !! v_name e = Some prev →
  ∃ e', entries (upsert now nonce ok e s).2 !! v_name e = Some e' ∧
    v_created_at_ms e' = v_created_at_ms prev ∧
    v_rotated_at_ms e' = if decide (v_values prev = v_values e) then v_rotated_at_ms prev else Some now.
Proof.
  intros Hv Hp. unfold upsert. rewrite Hv, Hp. unfold saved.
  set (e' := with_times _ _ _ e). pose proof (persist_entries nonce ok (put_entry e' s)) as He.
  exists e'. split.
  - destruct (vault_persist nonce ok (put_entry e' s)) as [[[]|x] s']; simpl in *; rewrite He; by rewrite lookup_insert_eq.
  - split; [done|]. simpl. by case_decide; [rewrite bool_decide_true|rewrite bool_decide_false].
Qed.
End Gates.

(** ** Witnesses: a cipher that keeps the nonce, and a bit-string file *)
#[export] Instance VaultEntry_eq_dec : EqDecision VaultEntry.
Proof. solve_decision. Defined.

#[export] Instance VaultEntry_countable : Countable VaultEntry.
Proof.
  refine (inj_countable'
    (λ e, (v_name e, v_kind e, v_description e, v_values e, v_metadata e, v_allowed_agents e,
           (v_client_id e, v_created_at_ms e, v_updated_at_ms e, v_rotated_at_ms e, v_expires_at_ms e)))
    (λ t, match t with (a, b, c, d, e, f, (g, h, i, j, k)) => mkEntry a b c d e f g h i j k end) _).
  by intros [].
Defined.

#[export] Instance OnDiskEntry_eq_dec : EqDecision (OnDiskEntry (Z * string)).
Proof. solve_decision. Defined.

#[export] Instance OnDiskEntry_countable : Countable (OnDiskEntry (Z * string)).
Proof.
  refine (inj_countable' (λ d, (disk_entry d ∅, od_values_enc d)) (λ t, on_disk t.1 t.2) _).
  by intros [].
Defined.

#[export] Instance bit_vault : VaultCodec := {|
  blob := Z * string;
  encrypt n s := Some (n, s);
  decrypt b := Some b.2;
  write_file l := bits_of l;
  read_file s := of_bits s;
|}.

#[export] Instance bit_vault_laws : VaultCodecLaws bit_vault.
Proof.
  split.
  - intros n s. by exists (n, s).
  - intros l. split; [apply of_bits_of|apply bits_of_not_blank].
Qed.

Definition demo_secret (key : string) : VaultEntry :=
  mkEntry "main" EXCHANGE None {["api_key" := key; "api_secret" := "s"]}
    {["exchange" := "binance"; "product" := "spot"]} [] None 0 0 None None.

Definition demo_vault_ops : list (Z * (string → string → Z) * bool * VaultOp) :=
  [(1, (λ _ _, 1), true, VInsert (demo_secret "k1")); (2, (λ _ _, 2), true, VInsert (demo_secret "k2"));
   (3, (λ _ _, 3), true, VUpsert (demo_secret "k3"))]%Z.

Lemma vault_survives_restart_witness :
  ∃ f s', vault_file (vault_run demo_vault_ops (mkVault ∅ (Some None))) = Some f ∧
    vault_load f = Ok s' ∧ get_value s' "main" "api_key" = Some "k3".
Proof.
  destruct (vault_survives_restart demo_vault_ops (mkVault ∅ (Some None))) as (f & s' & Hf & Hl & He).
  - intros k e Hk. discriminate.
  - exists None, (mkVault ∅ (Some None)). repeat split.
  - repeat constructor.
  - exists f, s'. split; [exact Hf|]. split; [exact Hl|].
    unfold get_value, vault_get. rewrite He. vm_compute. reflexivity.
Defined.
