(* ===== verification/Registry.v ===== *)
(** * The strategy registry ([crates/agent/src/registry.rs])

    The controller pushes the deployments an agent should run; the registry
    stops, keeps and starts engine tasks to match, and forwards variable
    changes to running engines as configuration overrides. Tasks and channels
    are [tokio]'s: [Tasks] numbers the tasks and records which are alive, which
    were told to stop and have not been dropped yet ([abort] returns at once,
    the task ends at its next suspension), and what was sent to each; a channel
    is open while its task, which owns the receiver, is alive. The engine behind a task is the interface
    [EngineFactory], the content hash of a descriptor ([DefaultHasher] over
    its JSON) the interface [ConfigHash]. *)
From stdpp Require Import base gmap sets list strings sorting.
From Stdlib Require Import ZArith Lia.
From S2P Require Import Prelude Decimal Json Control Bytes.
Local Open Scope string_scope.
Local Open Scope nat_scope.

Section Overrides.
Context {D : Decimal} {J : Json} {JD : JsonDecimal}.

(** The overrides a deployment's variables translate to; the enum has more,
    which other parts of the program send. *)
Inductive ConfigOverride :=
| Gamma (v : dec)
| MinSpreadBps (v : dec)
| OrderSize (v : dec)
| MaxDistanceBps (v : dec)
| NumLevels (n : Z)
| MomentumEnabled (b : bool)
| MarketResilienceEnabled (b : bool)
| AmendEnabled (b : bool)
| AmendMaxTicks (n : Z)
| OtrEnabled (b : bool)
| MaxInventory (v : dec)
| PauseQuoting
| ResumeQuoting
| RegisterEmulatedOrder (spec : string)
| CancelEmulatedOrder (id : Z)
| StartDcaReduction (spec : string)
| CancelDcaReduction
| ManualKillSwitch (level : Z) (reason : string)
| ManualKillSwitchReset (reason : string)
| News (headline : string)
| StrategyGraphSwap (graph : string).

Definition multi_key_consumed_names : list string :=
  ["kill_level"; "kill_reason"; "kill_reset_reason"].

(** [level as u8] keeps the low byte. *)
Definition compose_multi_key_override (patch : json_map) : option ConfigOverride :=
  match patch !! "kill_level" with
  | Some level_v =>
      level ← json_as_u64 level_v;
      Some (ManualKillSwitch (level mod 256)
        (default "dashboard operator" (patch !! "kill_reason" ≫= json_as_str)))
  | None =>
      match patch !! "kill_reset_reason" with
      | Some reset_v =>
          Some (ManualKillSwitchReset (default "dashboard operator" (json_as_str reset_v)))
      | None => None
      end
  end.

Definition as_decimal (v : json) : option dec :=
  match json_as_str v with
  | Some s => match parse_decimal s with Ok d => Some d | Err _ => None end
  | None => match json_f64_decimal v with Some d => d | None => json_i64_decimal v end
  end.

(** [v as u32]; [usize] is 64 bits wide. *)
Definition as_u32 (v : json) : option Z := wrap_u32 <$> json_as_u64 v.

Definition translate_variable_override (key : string) (v : json) : option ConfigOverride :=
  if bool_decide (key = "gamma") then Gamma <$> as_decimal v
  else if bool_decide (key = "min_spread_bps") || bool_decide (key = "spread_bps")
  then MinSpreadBps <$> as_decimal v
  else if bool_decide (key = "order_size") then OrderSize <$> as_decimal v
  else if bool_decide (key = "max_distance_bps") then MaxDistanceBps <$> as_decimal v
  else if bool_decide (key = "num_levels") then NumLevels <$> json_as_u64 v
  else if bool_decide (key = "momentum_enabled") then MomentumEnabled <$> json_as_bool v
  else if bool_decide (key = "market_resilience_enabled")
  then MarketResilienceEnabled <$> json_as_bool v
  else if bool_decide (key = "amend_enabled") then AmendEnabled <$> json_as_bool v
  else if bool_decide (key = "amend_max_ticks") then AmendMaxTicks <$> as_u32 v
  else if bool_decide (key = "otr_enabled") then OtrEnabled <$> json_as_bool v
  else if bool_decide (key = "max_inventory") then MaxInventory <$> as_decimal v
  else if bool_decide (key = "paused")
  then (λ b : bool, if b then PauseQuoting else ResumeQuoting) <$> json_as_bool v
  else if bool_decide (key = "emulator_spec") then RegisterEmulatedOrder <$> json_as_str v
  else if bool_decide (key = "emulator_cancel_id") then CancelEmulatedOrder <$> json_as_u64 v
  else if bool_decide (key = "dca_spec") then StartDcaReduction <$> json_as_str v
  else if bool_decide (key = "dca_cancel")
  then b ← json_as_bool v; if b : bool then Some CancelDcaReduction else None
  else if bool_decide (key = "strategy_graph") then StrategyGraphSwap <$> json_as_str v
  else if bool_decide (key = "news") then News <$> json_as_str v
  else None.

(** A feature flag: the key's ending or one of the legacy names. *)
Definition is_feature_key (k : string) : bool :=
  ends_with "_enabled" k || ends_with "_on" k || bool_decide (k = "momentum_ofi")
  || bool_decide (k = "bvc_classifier") || bool_decide (k = "sor_inline").

Definition feature_flags_from_variables (vars : json_map) : gmap string bool :=
  map_imap (λ k v, if is_feature_key k then json_as_bool v else None) vars.
End Overrides.

Definition regime_label (code : Z) : string :=
  if (code =? 0)%Z then "Quiet" else if (code =? 1)%Z then "Trending"
  else if (code =? 2)%Z then "Volatile" else if (code =? 3)%Z then "MeanReverting" else "".

(** ** Descriptors and tasks *)
Section Registry.
Context {D : Decimal} {J : Json} {JD : JsonDecimal}.

(** [crates/control/src/messages.rs] *)
Record DesiredStrategy := mkDesiredStrategy {
  deployment_id : string;
  template : string;
  d_symbol : string;
  credentials : list string;
  variables : json_map;
  fail_ladder_override : option FailLadder;
}.

(** The slots a deployment references. *)
Definition credential_ids (d : DesiredStrategy) : list string :=
  List.filter (λ s, negb (bool_decide (s = ""))) (credentials d).

(** What [spawn] returns beside the new task: the label, and whether the task
    holds the receiver of a hot-reload channel. It may depend on the moment
    (the credentials present then), here the number of the task. *)
Class EngineFactory := { spawn_info : nat → DesiredStrategy → string * bool }.

Class ConfigHash := { config_signature : DesiredStrategy → Z }.

(** [MockEngineFactory]: a labelled task without a channel. *)
Definition mock_factory : EngineFactory := {|
  spawn_info _ d := (template d ++ "/" ++ d_symbol d ++ "@" ++ deployment_id d, false)
|}.

(** [alive]: running and not told to stop. [aborting]: told to stop, and not
    dropped yet. *)
Record Tasks := mkTasks {
  next_task : nat;
  alive : gset nat;
  aborting : gset nat;
  sent : list (nat * ConfigOverride);
}.

Definition no_tasks : Tasks := mkTasks 0 ∅ ∅ [].

Definition abort_task (t : nat) (w : Tasks) : Tasks :=
  mkTasks (next_task w) (alive w ∖ {[t]}) (aborting w ∪ ({[t]} ∩ alive w)) (sent w).

(** The task is over: it returned, or an abort took effect. *)
Definition task_ends (t : nat) (w : Tasks) : Tasks :=
  mkTasks (next_task w) (alive w ∖ {[t]}) (aborting w ∖ {[t]}) (sent w).

(** [tx.send(ovr)], an error when the receiver is gone. *)
Definition send_override (tx : nat) (o : ConfigOverride) (w : Tasks) : bool * Tasks :=
  if decide (tx ∈ alive w) then (true, mkTasks (next_task w) (alive w) (aborting w) (sent w ++ [(tx, o)]))
  else (false, w).

Record Running := mkRunning {
  signature : Z;
  handle : nat;
  label : string;
  r_symbol : string;
  r_template : string;
  r_variables : json_map;
  r_credentials : list string;
  config_override_tx : option nat;
}.

Record StrategyRegistry := mkRegistry { running : gmap string Running; tasks : Tasks }.

Definition registry_new : StrategyRegistry := mkRegistry ∅ no_tasks.
Definition running_count (r : StrategyRegistry) : nat := size (running r).
Definition deployment_symbol (r : StrategyRegistry) (id : string) : option string :=
  r_symbol <$> running r !! id.

(** ** Reconciliation *)
Context {I : HashMapIter} {F : EngineFactory} {CH : ConfigHash}.

(** [collect()] by id: a later descriptor replaces an earlier one. *)
Definition desired_by_id (ds : list DesiredStrategy) : gmap string (DesiredStrategy * Z) :=
  hm_collect ((λ d, (deployment_id d, (d, config_signature d))) <$> ds).

Definition keeps (want : gmap string (DesiredStrategy * Z)) (id : string) (r : Running) : bool :=
  match want !! id with Some (_, sig) => (sig =? signature r)%Z | None => false end.

Definition stale_ids (want : gmap string (DesiredStrategy * Z)) (m : gmap string Running) :
    list string :=
  omap (λ '(id, r), if keeps want id r then None else Some id) (hm_iter m).

Definition stop (r : StrategyRegistry) (id : string) : StrategyRegistry :=
  match running r !! id with
  | Some e => mkRegistry (delete id (running r)) (abort_task (handle e) (tasks r))
  | None => r
  end.

(** The replay of a fresh deployment's variables, cut short by a closed
    channel. *)
Fixpoint replay_variables (tx : nat) (vars : list (string * json)) (w : Tasks) : Tasks :=
  match vars with
  | [] => w
  | (k, v) :: vars =>
      match translate_variable_override k v with
      | None => replay_variables tx vars w
      | Some o => let '(ok, w) := send_override tx o w in if ok : bool then replay_variables tx vars w else w
      end
  end.

Definition spawn (d : DesiredStrategy) (w : Tasks) : nat * string * option nat * Tasks :=
  let t := next_task w in
  let '(lbl, hot) := spawn_info t d in
  (t, lbl, if hot : bool then Some t else None, mkTasks (S t) ({[t]} ∪ alive w) (aborting w) (sent w)).

Definition start_missing (r : StrategyRegistry) (x : string * (DesiredStrategy * Z)) : StrategyRegistry :=
  let '(id, (desc, sig)) := x in
  if decide (is_Some (running r !! id)) then r
  else
    let '(t, lbl, tx, w) := spawn desc (tasks r) in
    let w := match tx with Some tx => replay_variables tx (map_iter (variables desc)) w | None => w end in
    mkRegistry (<[id := mkRunning sig t lbl (d_symbol desc) (template desc) (variables desc)
                          (credentials desc) tx]> (running r)) w.

Definition reconcile (ds : list DesiredStrategy) (r : StrategyRegistry) : StrategyRegistry :=
  let want := desired_by_id ds in
  let r := fold_left stop (stale_ids want (running r)) r in
  fold_left start_missing (hm_iter want) r.

(** ** Hot reload and shutdown *)
Fixpoint send_patch (tx : nat) (patch : list (string * json)) (w : Tasks) : Tasks :=
  match patch with
  | [] => w
  | (k, v) :: patch =>
      if decide (k ∈ multi_key_consumed_names) then send_patch tx patch w
      else
        match translate_variable_override k v with
        | None => send_patch tx patch w
        | Some o => let '(ok, w) := send_override tx o w in if ok : bool then send_patch tx patch w else w
        end
  end.

Definition with_variables (r : Running) (vars : json_map) : Running :=
  mkRunning (signature r) (handle r) (label r) (r_symbol r) (r_template r) vars (r_credentials r)
    (config_override_tx r).

Definition forward_patch (tx : nat) (patch : json_map) (w : Tasks) : Tasks :=
  match compose_multi_key_override patch with
  | None => send_patch tx (map_iter patch) w
  | Some o =>
      let '(ok, w) := send_override tx o w in
      if ok : bool then send_patch tx (map_iter patch) w else w
  end.

Definition patch_variables (id : string) (patch : json_map) (r : StrategyRegistry) :
    bool * StrategyRegistry :=
  match running r !! id with
  | None => (false, r)
  | Some e =>
      let e := with_variables e (patch ∪ r_variables e) in
      let w := match config_override_tx e with
               | None => tasks r
               | Some tx => forward_patch tx patch (tasks r)
               end in
      (true, mkRegistry (<[id := e]> (running r)) w)
  end.

Definition abort_all (r : StrategyRegistry) : StrategyRegistry :=
  mkRegistry ∅ (fold_left (λ w e, abort_task (handle e.2) w) (hm_iter (running r)) (tasks r)).

(** An engine that ends, by itself or because it was aborted. *)
Definition engine_exits (t : nat) (r : StrategyRegistry) : StrategyRegistry :=
  mkRegistry (running r) (task_ends t (tasks r)).
End Registry.

Local Open Scope list_scope.

(** ** The desired descriptor of an id: the last one given *)
Section Converge.
Context {D : Decimal} {J : Json} {JD : JsonDecimal} {I : HashMapIter} {F : EngineFactory} {CH : ConfigHash}.
Implicit Types r : StrategyRegistry.

Definition last_for (id : string) (ds : list DesiredStrategy) : option DesiredStrategy :=
  last (filter (λ d, deployment_id d = id) ds).

Lemma desired_by_id_lookup ds id :
  desired_by_id ds !! id = (λ d, (d, config_signature d)) <$> last_for id ds.
Proof.
  unfold desired_by_id, hm_collect, last_for. induction ds as [|d ds IH] using rev_ind.
  { done. }
  rewrite fmap_app, fold_left_app, filter_app, last_app. cbn [fold_left fmap list_fmap fst snd].
  destruct (decide (deployment_id d = id)) as [<-|Hne].
  - rewrite filter_cons_True by done. by rewrite lookup_insert_eq.
  - rewrite filter_cons_False by done. by rewrite lookup_insert_ne.
Qed.

(** Every live task belongs to exactly one entry; handles are not reused. *)
Record owned (r : StrategyRegistry) : Prop := {
  own_alive t : t ∈ alive (tasks r) → ∃ id e, running r !! id = Some e ∧ handle e = t;
  own_old id e : running r !! id = Some e → handle e < next_task (tasks r);
  own_inj id id' e e' : running r !! id = Some e → running r !! id' = Some e' →
    handle e = handle e' → id = id';
  own_aborting t : t ∈ aborting (tasks r) →
    t < next_task (tasks r) ∧ ∀ id e, running r !! id = Some e → handle e ≠ t;
}.

Lemma owned_new : owned registry_new.
Proof. by split. Qed.

Lemma send_override_tasks tx o w ok w' : send_override tx o w = (ok, w') →
  next_task w' = next_task w ∧ alive w' = alive w ∧ aborting w' = aborting w.
Proof. unfold send_override. case_decide; by intros [= <- <-]. Qed.

Lemma replay_tasks tx vars w :
  next_task (replay_variables tx vars w) = next_task w ∧ alive (replay_variables tx vars w) = alive w ∧ aborting (replay_variables tx vars w) = aborting w.
Proof.
  revert w. induction vars as [|[k v] vars IH]; intros w; simpl; [done|].
  destruct (translate_variable_override k v); [|done].
  destruct (send_override _ _ _) as [ok w'] eqn:E. apply send_override_tasks in E as (Hn & Ha & Hb).
  destruct ok; [|done]. destruct (IH w') as (? & ? & ?). repeat split; congruence.
Qed.

Lemma send_patch_tasks tx patch w :
  next_task (send_patch tx patch w) = next_task w ∧ alive (send_patch tx patch w) = alive w ∧ aborting (send_patch tx patch w) = aborting w.
Proof.
  revert w. induction patch as [|[k v] patch IH]; intros w; simpl; [done|].
  case_decide; [done|]. destruct (translate_variable_override k v); [|done].
  destruct (send_override _ _ _) as [ok w'] eqn:E. apply send_override_tasks in E as (Hn & Ha & Hb).
  destruct ok; [|done]. destruct (IH w') as (? & ? & ?). repeat split; congruence.
Qed.

Lemma forward_patch_tasks tx patch w :
  next_task (forward_patch tx patch w) = next_task w ∧ alive (forward_patch tx patch w) = alive w ∧ aborting (forward_patch tx patch w) = aborting w.
Proof.
  unfold forward_patch. destruct (compose_multi_key_override patch); [|apply send_patch_tasks].
  destruct (send_override _ _ _) as [ok w'] eqn:E. apply send_override_tasks in E as (Hn & Ha & Hb).
  destruct ok; [|done]. destruct (send_patch_tasks tx (map_iter patch) w') as (? & ? & ?). repeat split; congruence.
Qed.

(** *** Stopping *)
Lemma owned_stop id r : owned r → owned (stop r id).
Proof.
  intros [Ha Ho Hi Hb]. unfold stop. destruct (running r !! id) as [e|] eqn:E; [|done].
  split; simpl.
  - intros t [Ht Hne]%elem_of_difference. destruct (Ha t Ht) as (id' & e' & E' & <-).
    exists id', e'. split; [|done]. rewrite lookup_delete_ne; [done|].
    intros <-. rewrite E in E'. injection E' as <-. apply Hne, elem_of_singleton. done.
  - intros id' e' [_ E']%lookup_delete_Some. by eapply Ho.
  - intros id1 id2 e1 e2 [_ E1]%lookup_delete_Some [_ E2]%lookup_delete_Some. by eapply Hi.
  - intros t [Ht|[->%elem_of_singleton Ht]%elem_of_intersection]%elem_of_union.
    + destruct (Hb t Ht) as [Hlt Hne]. split; [done|]. intros id' e' [_ E']%lookup_delete_Some. by eapply Hne.
    + split; [by eapply Ho|]. intros id' e' [Hne E']%lookup_delete_Some Heq. apply Hne. by eapply Hi.
Qed.

Lemma alive_not_aborting r t : owned r → t ∈ alive (tasks r) → t ∉ aborting (tasks r).
Proof.
  intros [Ha _ _ Hb] Ht Hn. destruct (Ha t Ht) as (id & e & E & Hh). by apply (proj2 (Hb t Hn) id e).
Qed.

(** Stopping drops no task: it moves them among those told to stop. *)
Lemma stop_all_working ids : ∀ r, let r' := fold_left stop ids r in
  alive (tasks r') ∪ aborting (tasks r') = alive (tasks r) ∪ aborting (tasks r) ∧
  aborting (tasks r) ⊆ aborting (tasks r').
Proof.
  induction ids as [|id ids IH]; intros r; [done|]. cbn [fold_left]. destruct (IH (stop r id)) as [H1 H2].
  assert (Hs : alive (tasks (stop r id)) ∪ aborting (tasks (stop r id)) = alive (tasks r) ∪ aborting (tasks r) ∧
    aborting (tasks r) ⊆ aborting (tasks (stop r id))).
  { unfold stop. destruct (running r !! id) as [e|]; [|done]. simpl. split; [|set_solver].
    apply set_eq. intros t. destruct (decide (t = handle e)); set_solver. }
  destruct Hs as [H3 H4]. split; [by rewrite H1, H3|set_solver].
Qed.

Lemma stop_fields id r :
  running (stop r id) = delete id (running r) ∧ next_task (tasks (stop r id)) = next_task (tasks r) ∧
  sent (tasks (stop r id)) = sent (tasks r) ∧ alive (tasks (stop r id)) ⊆ alive (tasks r).
Proof.
  unfold stop. destruct (running r !! id) eqn:E; simpl.
  - split; [done|]. split; [done|]. split; [done|]. set_solver.
  - rewrite delete_id by done. by repeat (split; [done|]).
Qed.

Lemma stop_keeps_alive id r id' e : owned r → running (stop r id) !! id' = Some e →
  handle e ∈ alive (tasks r) → handle e ∈ alive (tasks (stop r id)).
Proof.
  intros [Ha Ho Hi _] E' Hal. unfold stop in *. destruct (running r !! id) as [e0|] eqn:E; [|done].
  simpl in *. apply lookup_delete_Some in E' as [Hne E'].
  apply elem_of_difference. split; [done|]. intros Heq%elem_of_singleton.
  apply Hne. by eapply Hi.
Qed.

Lemma stop_all_spec ids r : owned r →
  let r' := fold_left stop ids r in
  owned r' ∧ next_task (tasks r') = next_task (tasks r) ∧ sent (tasks r') = sent (tasks r) ∧
  (∀ id, running r' !! id = if decide (id ∈ ids) then None else running r !! id) ∧
  (∀ t, t ∈ alive (tasks r') ↔
    t ∈ alive (tasks r) ∧ ∃ id e, running r' !! id = Some e ∧ handle e = t).
Proof.
  revert r. induction ids as [|i ids IH]; intros r Hr r'.
  { split; [done|]. split; [done|]. split; [done|]. split.
    - intros id. by rewrite decide_False by apply not_elem_of_nil.
    - intros t. split; [|tauto]. intros Ht. split; [done|]. by apply Hr. }
  destruct (IH (stop r i) (owned_stop i r Hr)) as (Ho' & Hn' & Hs' & Hl' & Ha').
  destruct (stop_fields i r) as (Hd & Hn & Hs & Hsub).
  change r' with (fold_left stop ids (stop r i)).
  split; [done|]. split; [congruence|]. split; [congruence|]. split.
  - intros id. rewrite Hl', Hd. destruct (decide (id = i)) as [->|Hne].
    + rewrite lookup_delete_eq. rewrite (decide_True (P := i ∈ i :: ids)) by apply list_elem_of_here.
      by case_decide.
    + rewrite lookup_delete_ne by done. repeat case_decide; try done.
      * exfalso. by apply H0, list_elem_of_further.
      * exfalso. by apply elem_of_cons in H0 as [?|?].
  - intros t. rewrite Ha'. split.
    + intros [Ht ?]. split; [by apply Hsub|done].
    + intros [Ht (id & e & E & <-)]. split; [|by exists id, e].
      apply (stop_keeps_alive i r id e); [done| |done].
      rewrite Hl' in E. by case_decide.
Qed.

(** *** Starting *)

(** [e] was started for [d], no earlier than task [base]. *)
Definition started (base : nat) (d : DesiredStrategy) (e : Running) : Prop :=
  base ≤ handle e ∧ signature e = config_signature d ∧ r_symbol e = d_symbol d ∧
  r_template e = template d ∧ r_variables e = variables d ∧ r_credentials e = credentials d.

Lemma start_present id d s r : is_Some (running r !! id) → start_missing r (id, (d, s)) = r.
Proof. intros H. unfold start_missing. by rewrite decide_True. Qed.

Lemma start_absent id d r : running r !! id = None → ∃ e,
  started (next_task (tasks r)) d e ∧ handle e = next_task (tasks r) ∧
  running (start_missing r (id, (d, config_signature d))) = <[id := e]> (running r) ∧
  next_task (tasks (start_missing r (id, (d, config_signature d)))) = S (next_task (tasks r)) ∧
  alive (tasks (start_missing r (id, (d, config_signature d)))) = {[next_task (tasks r)]} ∪ alive (tasks r) ∧
  aborting (tasks (start_missing r (id, (d, config_signature d)))) = aborting (tasks r).
Proof.
  intros Hn. unfold start_missing, spawn.
  rewrite decide_False by (rewrite Hn; by intros [? ?]).
  destruct (spawn_info (next_task (tasks r)) d) as [lbl hot].
  eexists. split; [|split; [|split; [reflexivity|]]]; [|done|].
  - split; [simpl; lia|]. by repeat (split; [reflexivity|]).
  - destruct hot; [|done]. match goal with |- context [replay_variables ?tx ?vars ?w] => exact (replay_tasks tx vars w) end.
Qed.

Lemma owned_start id d r : owned r → owned (start_missing r (id, (d, config_signature d))).
Proof.
  intros Hr. destruct (running r !! id) as [e0|] eqn:E0.
  { by rewrite start_present by (by rewrite E0). }
  destruct (start_absent id d r E0) as (e & _ & Hh & Hrun & Hn & Hal & Hab). destruct Hr as [Ha Ho Hi Hb].
  assert (Hother : ∀ id' e', <[id:=e]> (running r) !! id' = Some e' →
    (id' = id ∧ e' = e) ∨ (id' ≠ id ∧ running r !! id' = Some e' ∧ handle e' < next_task (tasks r))).
  { intros id' e'. rewrite lookup_insert_Some. intros [[<- <-]|[Hne E]]; [by left|right].
    split; [done|]. split; [done|]. by eapply Ho. }
  split; rewrite ?Hrun, ?Hn, ?Hal, ?Hab.
  - intros t [->%elem_of_singleton|Ht]%elem_of_union.
    + exists id, e. by rewrite lookup_insert_eq.
    + destruct (Ha t Ht) as (id' & e' & E & <-). exists id', e'. split; [|done].
      rewrite lookup_insert_ne; [done|]. intros <-. congruence.
  - intros id' e' [[-> ->]|(_ & _ & ?)]%Hother; lia.
  - intros id1 id2 e1 e2 [[-> ->]|(Hn1 & E1 & ?)]%Hother [[-> ->]|(Hn2 & E2 & ?)]%Hother Heq;
      [done|lia|lia|by eapply Hi].
  - intros t Ht. destruct (Hb t Ht) as [Hlt Hne]. split; [lia|].
    intros id' e' [[-> ->]|(_ & E' & _)]%Hother; [lia|by eapply Hne].
Qed.

Lemma start_all_aborting l r : (∀ x, x ∈ l → x.2.2 = config_signature x.2.1) →
  aborting (tasks (fold_left start_missing l r)) = aborting (tasks r).
Proof.
  revert r. induction l as [|[id [d s]] l IH]; intros r Hs; [done|]. cbn [fold_left].
  rewrite IH by (intros x Hx; apply Hs; by apply list_elem_of_further).
  assert (s = config_signature d) as -> by (apply (Hs (id, (d, s))), list_elem_of_here).
  destruct (running r !! id) as [e0|] eqn:E0; [by rewrite start_present by (by rewrite E0)|].
  destruct (start_absent id d r E0) as (_ & _ & _ & _ & _ & _ & Hab). exact Hab.
Qed.

Lemma start_all_spec l r : owned r → NoDup l.*1 →
  (∀ x, x ∈ l → x.2.2 = config_signature x.2.1) →
  let r' := fold_left start_missing l r in
  owned r' ∧ next_task (tasks r) ≤ next_task (tasks r') ∧
  (∀ id e, running r !! id = Some e → running r' !! id = Some e) ∧
  (∀ id, running r !! id = None → id ∉ l.*1 → running r' !! id = None) ∧
  (∀ id d s, running r !! id = None → (id, (d, s)) ∈ l →
    ∃ e, running r' !! id = Some e ∧ started (next_task (tasks r)) d e) ∧
  (∀ t, t ∈ alive (tasks r') ↔ t ∈ alive (tasks r) ∨
    ∃ id e, running r' !! id = Some e ∧ handle e = t ∧ next_task (tasks r) ≤ t).
Proof.
  revert r. induction l as [|[i [d s]] l IH]; intros r Hr Hnd Hs r'.
  { split; [done|]. split; [done|]. split; [done|]. split; [done|]. split.
    - by intros id d s _ ?%elem_of_nil.
    - intros t. split; [by left|]. intros [?|(id & e & E & <- & ?)]; [done|].
      pose proof (own_old r Hr id e E). lia. }
  cbn [fmap list_fmap] in Hnd. apply NoDup_cons in Hnd as [Hi Hnd]. cbn [fst] in Hi.
  assert (s = config_signature d) as ->.
  { apply (Hs (i, (d, s))). apply list_elem_of_here. }
  specialize (IH (start_missing r (i, (d, config_signature d))) (owned_start i d r Hr) Hnd).
  destruct IH as (Ho & Hn & Hkeep & Hnone & Hnew & Hal).
  { intros x Hx. apply Hs. by apply list_elem_of_further. }
  change r' with (fold_left start_missing l (start_missing r (i, (d, config_signature d)))).
  destruct (running r !! i) as [e0|] eqn:E0.
  { rewrite start_present in * by (by rewrite E0).
    split; [done|]. split; [done|]. split; [done|]. split; [|split; [|done]].
    - intros id Hid Hin. apply Hnone; [done|]. intros ?. apply Hin. by apply list_elem_of_further.
    - intros id d' s' Hid [[= -> -> ->]|Hin]%elem_of_cons; [congruence|]. by apply (Hnew id d' s'). }
  destruct (start_absent i d r E0) as (e & He & Hh & Hrun & Hn1 & Hal1 & _).
  rewrite Hn1 in *. rewrite Hrun in *.
  assert (Hei : running (fold_left start_missing l (start_missing r (i, (d, config_signature d)))) !! i = Some e).
  { apply Hkeep. apply lookup_insert_eq. }
  split; [done|]. split; [lia|]. split; [|split; [|split]].
  - intros id e' E. apply Hkeep. rewrite lookup_insert_ne; [done|congruence].
  - intros id Hid [Hne Hin]%not_elem_of_cons. apply Hnone; [|done]. by rewrite lookup_insert_ne.
  - intros id d' s' Hid [[= -> -> ->]|Hin]%elem_of_cons; [by exists e|].
    destruct (Hnew id d' s') as (e' & E' & Hs'); [|done|].
    { rewrite lookup_insert_ne; [done|]. intros <-. apply Hi. by apply (list_elem_of_fmap_2 fst) in Hin. }
    exists e'. split; [done|]. destruct Hs' as [Hle ?]. split; [lia|done].
  - intros t. rewrite Hal, Hal1, elem_of_union, elem_of_singleton. split.
    + intros [[->|?]|(id & e' & E' & <- & ?)]; [|by left|].
      * right. exists i, e. split; [done|]. split; [done|]. lia.
      * right. exists id, e'. split; [done|]. split; [done|]. lia.
    + intros [?|(id & e' & E' & <- & Hle)]; [by left; right|].
      destruct (decide (handle e' = next_task (tasks r))) as [->|Hne]; [by left; left|].
      right. exists id, e'. split; [done|]. split; [done|]. lia.
Qed.

(** *** Both passes *)
Lemma stale_ids_elem want m id :
  id ∈ stale_ids want m ↔ ∃ e, m !! id = Some e ∧ keeps want id e = false.
Proof.
  unfold stale_ids. rewrite list_elem_of_omap. split.
  - intros ([i e] & Hin%hm_iter_elem & Hk). destruct (keeps want i e) eqn:E; [done|].
    injection Hk as <-. by exists e.
  - intros (e & E & Hk). exists (id, e). split; [by apply hm_iter_elem|]. by rewrite Hk.
Qed.

(** The tasks that the reconciliation leaves alone: those of the entries
    whose signature is that of the wanted descriptor. *)
Definition kept (ds : list DesiredStrategy) (r : StrategyRegistry) (id : string) : option Running :=
  match last_for id ds, running r !! id with
  | Some d, Some e => if (config_signature d =? signature e)%Z then Some e else None
  | _, _ => None
  end.

Lemma kept_stop ds r id : owned r →
  running (fold_left stop (stale_ids (desired_by_id ds) (running r)) r) !! id = kept ds r id.
Proof.
  intros Hr. destruct (stop_all_spec (stale_ids (desired_by_id ds) (running r)) r Hr) as (_ & _ & _ & Hl & _).
  rewrite Hl. unfold kept. case_decide as Hin.
  - apply stale_ids_elem in Hin as (e & E & Hk). rewrite E.
    unfold keeps in Hk. rewrite desired_by_id_lookup in Hk. destruct (last_for id ds); simpl in Hk; [|done].
    by rewrite Hk.
  - destruct (running r !! id) as [e|] eqn:E; [|by destruct (last_for id ds)].
    destruct (keeps (desired_by_id ds) id e) eqn:Hk.
    + unfold keeps in Hk. rewrite desired_by_id_lookup in Hk. destruct (last_for id ds); simpl in Hk; [|done].
      by rewrite Hk.
    + exfalso. apply Hin, stale_ids_elem. by exists e.
Qed.

Lemma start_all_present l r : (∀ x, x ∈ l → is_Some (running r !! x.1)) → fold_left start_missing l r = r.
Proof.
  induction l as [|[id [d s]] l IH]; intros Hl; [done|]. cbn [fold_left].
  rewrite start_present by (apply (Hl (id, (d, s))), list_elem_of_here).
  apply IH. intros x Hx. apply Hl. by apply list_elem_of_further.
Qed.

Lemma want_elem ds id d s :
  (id, (d, s)) ∈ hm_iter (desired_by_id ds) ↔ last_for id ds = Some d ∧ s = config_signature d.
Proof.
  rewrite hm_iter_elem, desired_by_id_lookup, fmap_Some. split.
  - by intros (d' & -> & [= -> ->]).
  - intros [-> ->]. by exists d.
Qed.

(** When every wanted id is running with its signature and nothing else is,
    the reconciliation does nothing. *)
Lemma reconcile_settled ds r :
  (∀ id, is_Some (last_for id ds) → is_Some (kept ds r id)) →
  (∀ id, last_for id ds = None → running r !! id = None) → reconcile ds r = r.
Proof.
  intros Hk Hnone. unfold reconcile.
  assert (stale_ids (desired_by_id ds) (running r) = []) as ->.
  { apply elem_of_nil_inv. intros id (e & E & Hkeep)%stale_ids_elem.
    unfold keeps in Hkeep. rewrite desired_by_id_lookup in Hkeep. specialize (Hk id). unfold kept in Hk.
    destruct (last_for id ds) as [d|] eqn:El; [|by rewrite Hnone in E].
    simpl in Hkeep. rewrite E, Hkeep in Hk. by destruct Hk. }
  apply start_all_present. intros [id [d s]] [El _]%want_elem.
  destruct (Hk id) as [e He]; [by rewrite El|]. unfold kept in He. rewrite El in He.
  simpl. by destruct (running r !! id).
Qed.

Lemma reconcile_spec ds r : owned r →
  let r' := reconcile ds r in
  owned r' ∧
  (∀ id, match last_for id ds with
         | None => running r' !! id = None
         | Some d =>
             match kept ds r id with
             | Some e => running r' !! id = Some e
             | None => ∃ e, running r' !! id = Some e ∧ started (next_task (tasks r)) d e
             end
         end) ∧
  (∀ t, t ∈ alive (tasks r') ↔ ∃ id e, running r' !! id = Some e ∧ handle e = t ∧
    (t ∈ alive (tasks r) ∨ next_task (tasks r) ≤ t)).
Proof.
  intros Hr r'. pose proof (kept_stop ds r) as Hkept.
  destruct (stop_all_spec (stale_ids (desired_by_id ds) (running r)) r Hr) as (Ho1 & Hn1 & _ & _ & Ha1).
  destruct (start_all_spec (hm_iter (desired_by_id ds))
    (fold_left stop (stale_ids (desired_by_id ds) (running r)) r) Ho1) as (Ho & Hn & Hkeep & Hnone & Hnew & Ha).
  { apply hm_keys_NoDup. }
  { by intros [id [d s]] [_ ?]%want_elem. }
  change (fold_left start_missing (hm_iter (desired_by_id ds))
    (fold_left stop (stale_ids (desired_by_id ds) (running r)) r)) with r' in *.
  rewrite Hn1 in *. split; [done|]. split.
  - intros id. specialize (Hkept id Hr). destruct (last_for id ds) as [d|] eqn:El.
    + destruct (kept ds r id) as [e|] eqn:Ek; [by apply Hkeep|].
      apply (Hnew id d (config_signature d)); [done|]. by apply want_elem.
    + apply Hnone; [rewrite Hkept; unfold kept; by rewrite El|].
      intros ([i [d s]] & -> & [El' _]%want_elem)%list_elem_of_fmap. simpl in El. congruence.
  - intros t. rewrite Ha, Ha1. split.
    + intros [[Ht (id & e & E & <-)]|(id & e & E & <- & ?)].
      * exists id, e. split; [by apply Hkeep|]. split; [done|]. by left.
      * exists id, e. split; [done|]. split; [done|]. by right.
    + intros (id & e & E & <- & [Ht|Hle]); [left|right; by exists id, e].
      split; [done|].
      destruct (own_alive _ Hr _ Ht) as (id0 & e0 & E0 & Hh).
      assert (Hlt := own_old r Hr id0 e0 E0).
      destruct (running (fold_left stop (stale_ids (desired_by_id ds) (running r)) r) !! id) as [e1|] eqn:E1.
      { exists id, e1. split; [done|]. apply Hkeep in E1. congruence. }
      exfalso. destruct (decide (id ∈ (hm_iter (desired_by_id ds)).*1)) as [Hin|Hin].
      * apply list_elem_of_fmap in Hin as ([i [d s]] & Hid & Hin). simpl in Hid. subst i.
        destruct (Hnew id d s E1 Hin) as (e' & E' & [Hle _]).
        rewrite E in E'. injection E' as <-. lia.
      * by rewrite (Hnone id E1 Hin) in E.
Qed.

(** The tasks a reconciliation tells to stop. *)
Lemma reconcile_aborting ds r : owned r → (∀ id e, running r !! id = Some e → handle e ∈ alive (tasks r)) →
  ∀ t, t ∈ aborting (tasks (reconcile ds r)) ↔
    t ∈ aborting (tasks r) ∨ ∃ id e, running r !! id = Some e ∧ kept ds r id = None ∧ handle e = t.
Proof.
  intros Hr Hlive t. destruct (reconcile_spec ds r Hr) as (Ho' & Hl & _).
  set (r1 := fold_left stop (stale_ids (desired_by_id ds) (running r)) r).
  destruct (stop_all_spec (stale_ids (desired_by_id ds) (running r)) r Hr) as (Ho1 & _ & _ & _ & _).
  destruct (stop_all_working (stale_ids (desired_by_id ds) (running r)) r) as [Hw Hsub]. fold r1 in Ho1, Hw, Hsub.
  assert (Hab : aborting (tasks (reconcile ds r)) = aborting (tasks r1)).
  { unfold reconcile. apply start_all_aborting. by intros [id [d s]] [_ ?]%want_elem. }
  rewrite Hab. split.
  - intros Ht. assert (Ht' : t ∈ alive (tasks r) ∪ aborting (tasks r)) by (rewrite <- Hw; set_solver).
    apply elem_of_union in Ht'. destruct Ht' as [Hal|Hb]; [right|by left].
    destruct (own_alive r Hr t Hal) as (id & e & E & Hh). exists id, e. split; [done|]. split; [|done].
    destruct (kept ds r id) as [e'|] eqn:Ek; [exfalso|done].
    assert (He : e' = e).
    { unfold kept in Ek. rewrite E in Ek. destruct (last_for id ds); [|done]. destruct (_ =? _)%Z; congruence. }
    subst e'. rewrite <- Hab in Ht. specialize (Hl id). rewrite Ek in Hl.
    destruct (last_for id ds) eqn:El; [|unfold kept in Ek; by rewrite El in Ek].
    by apply (proj2 (own_aborting _ Ho' t Ht) id e).
  - intros [Ht|(id & e & E & Ek & Hh)]; [by apply Hsub|].
    assert (Ht : t ∈ alive (tasks r1) ∪ aborting (tasks r1)) by (rewrite Hw, <- Hh; specialize (Hlive id e E); set_solver).
    apply elem_of_union in Ht. destruct Ht as [Hal|Hb]; [exfalso|done].
    destruct (own_alive r1 Ho1 t Hal) as (id' & e' & E' & Hh'). unfold r1 in E'. rewrite (kept_stop ds r id' Hr) in E'.
    assert (E0 : running r !! id' = Some e').
    { unfold kept in E'. destruct (last_for id' ds), (running r !! id') as [e0|]; try done.
      destruct (_ =? _)%Z; congruence. }
    assert (id' = id) as -> by (eapply (own_inj r Hr); [exact E0|exact E|congruence]). congruence.
Qed.

(** C33: while no engine has ended by itself, after a reconciliation the
    running entries are exactly the desired ids: an entry whose signature is
    that of the last descriptor given for its id is untouched, any other
    desired id has a fresh task started from that descriptor; the live tasks
    that were not told to stop are exactly those of the entries, one each; the
    ones told to stop are those of the entries dropped or replaced; and
    repeating the command changes nothing. *)
Theorem reconcile_converges ds r (Hr : owned r)
    (Hlive : ∀ id e, running r !! id = Some e → handle e ∈ alive (tasks r)) :
  let r' := reconcile ds r in
  owned r' ∧
  (∀ id, match last_for id ds with
         | None => running r' !! id = None
         | Some d =>
             match kept ds r id with
             | Some e => running r' !! id = Some e
             | None => ∃ e, running r' !! id = Some e ∧ started (next_task (tasks r)) d e
             end
         end) ∧
  (∀ t, t ∈ alive (tasks r') ↔ ∃ id e, running r' !! id = Some e ∧ handle e = t) ∧
  (∀ t, t ∈ aborting (tasks r') ↔
     t ∈ aborting (tasks r) ∨ ∃ id e, running r !! id = Some e ∧ kept ds r id = None ∧ handle e = t) ∧
  reconcile ds r' = r'.
Proof.
  intros r'. destruct (reconcile_spec ds r Hr) as (Ho & Hl & Ha). fold r' in Ho, Hl, Ha.
  split; [done|]. split; [done|]. split; [|split; [by apply reconcile_aborting|]].
  - intros t. rewrite Ha. split; [intros (id & e & E & Hh & _); eauto|]. intros (id & e & E & Hh).
    exists id, e. split; [done|]. split; [done|]. specialize (Hl id).
    destruct (last_for id ds) as [d|] eqn:El; [|congruence]. destruct (kept ds r id) as [e0|] eqn:Ek.
    + left. assert (e0 = e) as -> by congruence. rewrite <- Hh. apply (Hlive id).
      unfold kept in Ek. rewrite El in Ek. destruct (running r !! id); [|done]. by destruct (_ =? _)%Z.
    + right. destruct Hl as (e' & E' & [Hle _]). rewrite E in E'. injection E' as <-. lia.
  - apply reconcile_settled.
    + intros id [d El]. specialize (Hl id). unfold kept in *. rewrite El in *.
      assert (∃ e, running r' !! id = Some e ∧ signature e = config_signature d) as (e & -> & ->).
      { destruct (running r !! id) as [e|] eqn:E.
        - destruct (_ =? _)%Z eqn:Es.
          + exists e. split; [done|]. by apply Z.eqb_eq in Es.
          + destruct Hl as (e' & ? & Hs). exists e'. split; [done|]. apply Hs.
        - destruct Hl as (e' & ? & Hs). exists e'. split; [done|]. apply Hs. }
      by rewrite Z.eqb_refl.
    + intros id El. specialize (Hl id). by rewrite El in Hl.
Qed.

(** An engine that has ended by itself is not started again: its entry, whose
    signature still matches, is kept. *)
Lemma exited_not_respawned ds r id e d : owned r → running r !! id = Some e → last_for id ds = Some d →
  signature e = config_signature d →
  let r' := reconcile ds (engine_exits (handle e) r) in
  running r' !! id = Some e ∧ handle e ∉ alive (tasks r').
Proof.
  intros Hr E El Es r'. assert (Hx : owned (engine_exits (handle e) r)).
  { destruct Hr as [Ha Ho Hi Hb]. split; cbn; [|done|done|].
    - intros t [Ht _]%elem_of_difference. by apply Ha.
    - intros t [Ht _]%elem_of_difference. by apply Hb. }
  destruct (reconcile_spec ds _ Hx) as (_ & Hl & Ha).
  assert (Ek : kept ds (engine_exits (handle e) r) id = Some e).
  { unfold kept. rewrite El. cbn. rewrite E, Es. by rewrite Z.eqb_refl. }
  specialize (Hl id). rewrite El, Ek in Hl. split; [exact Hl|]. unfold r'. rewrite Ha.
  intros (id' & e' & _ & _ & [Ht|Ht]); [cbn in Ht; set_solver|].
  pose proof (own_old r Hr id e E). cbn in Ht. lia.
Qed.

(** *** The other operations *)
Lemma abort_fold_alive l (w : Tasks) t :
  t ∈ alive (fold_left (λ w (e : string * Running), abort_task (handle e.2) w) l w) ↔
  t ∈ alive w ∧ ∀ x, x ∈ l → handle x.2 ≠ t.
Proof.
  revert w. induction l as [|x l IH]; intros w; simpl.
  { split; [|tauto]. intros ?. split; [done|]. by intros x ?%elem_of_nil. }
  rewrite IH. simpl. split.
  - intros [[Ht Hne]%elem_of_difference Hl]. split; [done|].
    intros y [->|Hy]%elem_of_cons; [|by apply Hl]. intros <-. by apply Hne, elem_of_singleton.
  - intros [Ht Hl]. split.
    + apply elem_of_difference. split; [done|]. intros ->%elem_of_singleton.
      by apply (Hl x); [apply list_elem_of_here|].
    + intros y Hy. apply Hl. by apply list_elem_of_further.
Qed.

Lemma abort_fold_next l (w : Tasks) :
  next_task (fold_left (λ w (e : string * Running), abort_task (handle e.2) w) l w) = next_task w.
Proof. revert w. induction l as [|x l IH]; intros w; [done|]. cbn [fold_left]. by rewrite IH. Qed.

Lemma abort_fold_aborting l (w : Tasks) t :
  t ∈ aborting (fold_left (λ w (e : string * Running), abort_task (handle e.2) w) l w) → t ∈ aborting w ∨ t ∈ alive w.
Proof.
  revert w. induction l as [|x l IH]; intros w; [by left|]. cbn [fold_left]. intros H. apply IH in H. simpl in H. set_solver.
Qed.

Lemma abort_all_stops r : owned r → running (abort_all r) = ∅ ∧ alive (tasks (abort_all r)) = ∅.
Proof.
  intros Hr. split; [done|]. apply set_eq. intros t. unfold abort_all. simpl. rewrite abort_fold_alive.
  split; [|by intros ?%elem_of_empty]. intros [Ht Hall].
  destruct (own_alive r Hr t Ht) as (id & e & E & Hh).
  exfalso. apply (Hall (id, e)); [by apply hm_iter_elem|done].
Qed.

Lemma owned_abort_all r : owned r → owned (abort_all r).
Proof.
  intros Hr. destruct (abort_all_stops r Hr) as [Hrun Hal]. split; rewrite ?Hrun, ?Hal; try done.
  intros t Ht. split; [|done]. unfold abort_all in *. cbn [tasks] in *. rewrite abort_fold_next.
  apply abort_fold_aborting in Ht. destruct Ht as [Ht|Ht]; [by apply (own_aborting r Hr)|].
  destruct (own_alive r Hr t Ht) as (id & e & E & <-). by eapply own_old.
Qed.

Lemma owned_exits t r : owned r → owned (engine_exits t r).
Proof.
  intros [Ha Ho Hi Hb]. split; simpl; [|done|done|].
  - intros t' [Ht' _]%elem_of_difference. by apply Ha.
  - intros t' [Ht' _]%elem_of_difference. by apply Hb.
Qed.

Lemma owned_reconcile ds r : owned r → owned (reconcile ds r).
Proof. intros Hr. by apply reconcile_spec. Qed.

Lemma owned_patch id patch r : owned r → owned (patch_variables id patch r).2.
Proof.
  intros [Ha Ho Hi Hb]. unfold patch_variables. destruct (running r !! id) as [e|] eqn:E; [|done]. simpl.
  set (w := match config_override_tx e with Some tx => forward_patch tx patch (tasks r) | None => tasks r end).
  assert (Hw : next_task w = next_task (tasks r) ∧ alive w = alive (tasks r) ∧ aborting w = aborting (tasks r)).
  { unfold w. destruct (config_override_tx e); [apply forward_patch_tasks|done]. }
  destruct Hw as (Hn & Hal & Hab).
  set (e1 := with_variables e (patch ∪ r_variables e)).
  assert (Hback : ∀ id' e', <[id:=e1]> (running r) !! id' = Some e' →
    ∃ e0, running r !! id' = Some e0 ∧ handle e0 = handle e').
  { intros id' e'. rewrite lookup_insert_Some. intros [[<- <-]|[_ E']]; [by exists e|by exists e']. }
  split; simpl; rewrite ?Hn, ?Hal, ?Hab.
  - intros t Ht. destruct (Ha t Ht) as (id' & e' & E' & <-).
    destruct (decide (id' = id)) as [->|Hne].
    + exists id, e1. rewrite lookup_insert_eq. split; [done|]. rewrite E in E'; by injection E' as ->.
    + exists id', e'. by rewrite lookup_insert_ne.
  - intros id' e' (e0 & E0 & <-)%Hback. by eapply Ho.
  - intros id1 id2 x1 x2 (y1 & E1 & <-)%Hback (y2 & E2 & <-)%Hback Heq. by eapply Hi.
  - intros t Ht. destruct (Hb t Ht) as [Hlt Hne]. split; [done|]. intros id' e' (e0 & E0 & <-)%Hback. by eapply Hne.
Qed.

(** *** What reaches the engine *)
Definition translations (vars : list (string * json)) : list ConfigOverride :=
  omap (λ kv, translate_variable_override kv.1 kv.2) vars.

Lemma replay_sent tx vars w : tx ∈ alive w →
  sent (replay_variables tx vars w) = sent w ++ (pair tx <$> translations vars).
Proof.
  revert w. induction vars as [|[k v] vars IH]; intros w Hw; simpl; [by rewrite app_nil_r|].
  destruct (translate_variable_override k v) as [o|] eqn:E; [|by apply IH].
  unfold send_override. rewrite decide_True by done. rewrite IH by done.
  simpl. by rewrite <- app_assoc.
Qed.

Lemma send_patch_sent tx patch w : tx ∈ alive w →
  sent (send_patch tx patch w) =
  sent w ++ (pair tx <$> translations (filter (λ kv, kv.1 ∉ multi_key_consumed_names) patch)).
Proof.
  revert w. induction patch as [|[k v] patch IH]; intros w Hw; simpl; [by rewrite app_nil_r|].
  case_decide as Hk.
  - rewrite filter_cons_False by (simpl; tauto). by apply IH.
  - rewrite filter_cons_True by done. simpl.
    destruct (translate_variable_override k v) as [o|] eqn:E; [|by apply IH].
    unfold send_override. rewrite decide_True by done. rewrite IH by done.
    simpl. by rewrite <- app_assoc.
Qed.

(** A patch of a running deployment is merged into its variables and every
    key that has a meaning reaches the engine, the kill switch first. *)
Lemma patch_reaches_engine id patch r e tx : running r !! id = Some e →
  config_override_tx e = Some tx → tx ∈ alive (tasks r) →
  let r' := (patch_variables id patch r).2 in
  (patch_variables id patch r).1 = true ∧
  running r' !! id = Some (with_variables e (patch ∪ r_variables e)) ∧
  sent (tasks r') = sent (tasks r) ++ (pair tx <$>
    option_list (compose_multi_key_override patch) ++
    translations (filter (λ kv, kv.1 ∉ multi_key_consumed_names) (map_iter patch))).
Proof.
  intros E Htx Hal r'. unfold r', patch_variables. rewrite E. simpl. rewrite Htx.
  split; [done|]. rewrite lookup_insert_eq. split; [done|].
  unfold forward_patch. destruct (compose_multi_key_override patch) as [o|]; simpl.
  - unfold send_override. rewrite decide_True by done. rewrite send_patch_sent by done.
    simpl. by rewrite <- app_assoc.
  - by rewrite send_patch_sent.
Qed.

(** The variables a deployment starts with go through the per-key translation
    only, which has no kill switch: a [kill_level] among them is ignored. *)
Lemma initial_kill_level_ignored vars o : o ∈ translations vars →
  match o with ManualKillSwitch _ _ | ManualKillSwitchReset _ => False | _ => True end.
Proof.
  unfold translations. rewrite list_elem_of_omap. intros ([k v] & _ & E). simpl in E.
  unfold translate_variable_override in E.
  repeat match type of E with
  | (if ?b then _ else _) = _ => destruct b
  end; try done;
  repeat match type of E with
  | (_ <$> ?x) = _ => destruct x as [y|]; [injection E as <-|done]
  | (?x ≫= _) = _ => destruct x as [y|]; [simpl in E|done]
  end; try done; destruct y; simpl in *; try done; injection E as <-; done.
Qed.

(** A level above 255 wraps: 256 + n is applied as n. *)
Lemma kill_level_low_byte patch v n : patch !! "kill_level" = Some v → json_as_u64 v = Some (256 + n)%Z →
  (0 ≤ n < 256)%Z → ∃ reason, compose_multi_key_override patch = Some (ManualKillSwitch n reason).
Proof.
  intros E Ev Hn. unfold compose_multi_key_override. rewrite E. simpl. rewrite Ev. simpl.
  eexists. rewrite <- Z.add_mod_idemp_l by done. rewrite Z.mod_same by done.
  by rewrite Z.mod_small by lia.
Qed.
End Converge.

(** ** Witnesses *)
Definition demo_deploy (id tmpl : string) (vars : json_map) : DesiredStrategy :=
  mkDesiredStrategy id tmpl "BTCUSDT" [] vars None.

(** A factory whose engines listen, and a hash of the template's length. *)
Definition hot_factory : EngineFactory := {| spawn_info _ d := (template d, true) |}.
Definition length_hash : ConfigHash := {| config_signature d := Z.of_nat (String.length (template d)) |}.

Definition demo_reconcile (ds : list DesiredStrategy) : StrategyRegistry → StrategyRegistry :=
  reconcile (JD := flat_decimal) (F := hot_factory) (CH := length_hash) ds.

Definition demo_desired : list DesiredStrategy :=
  [demo_deploy "a" "grid" ∅; demo_deploy "b" "twap" {["paused" := VBool true]};
   demo_deploy "a" "basis" {["num_levels" := VInt 3]}].

(** The second descriptor of [a] is the one that runs, and both deployments'
    variables reach their engines; repeating the command changes nothing. *)
Lemma reconcile_converges_witness :
  let r := demo_reconcile demo_desired registry_new in
  (∃ e, running r !! "a" = Some e ∧ started 0 (demo_deploy "a" "basis" {["num_levels" := VInt 3]}) e
    (CH := length_hash)) ∧
  length (sent (tasks r)) = 2 ∧ demo_reconcile demo_desired r = r.
Proof.
  destruct (reconcile_converges (JD := flat_decimal) (F := hot_factory) (CH := length_hash)
    demo_desired registry_new owned_new) as (_ & Hl & _ & _ & Hr); [done|].
  split; [|split].
  - specialize (Hl "a"). exact Hl.
  - vm_compute. reflexivity.
  - exact Hr.
Defined.

(** A new descriptor for a running deployment starts its engine while the old
    one, told to stop, may still be at work. *)
Example restart_overlaps :
  let r1 := demo_reconcile [demo_deploy "a" "grid" ∅] registry_new in
  let r2 := demo_reconcile [demo_deploy "a" "basis" ∅] r1 in
  (alive (tasks r2), aborting (tasks r2)) = ({[1]}, {[0]}) ∧ r_symbol <$> running r2 !! "a" = r_symbol <$> running r1 !! "a".
Proof. vm_compute. done. Qed.
