(* ===== verification/Envelope.v ===== *)
(** * Control-plane messages ([crates/control/src/{messages,envelope}.rs])

    The commands a controller sends, the telemetry an agent sends, the
    envelope both travel in, its signature and the hex text the signature is
    written as. The signature scheme (Ed25519) and the serialized form of an
    envelope ([serde_json]) are parameters. *)
From stdpp Require Import base gmap list strings.
From Stdlib Require Import ZArith Lia Ascii.
From S2P Require Import Prelude Decimal Bytes Json Control Catalog Registry.
Local Open Scope string_scope.
Local Open Scope Z_scope.

Definition PROTOCOL_VERSION : Z := 1.

(** [sig_hex]: two digits per byte, the high half first. *)
Definition hex_digit (n : Z) : ascii := ascii_of_N (Z.to_N (if n <? 10 then 48 + n else 87 + n)).

Fixpoint hex_encode (bytes : list Z) : string :=
  match bytes with
  | [] => ""
  | b :: bytes => String (hex_digit (Z.shiftr b 4)) (String (hex_digit (Z.land b 15)) (hex_encode bytes))
  end.

Definition from_hex_digit (c : ascii) : result Z string :=
  let b := byte_of c in
  if in_range 48 57 c then Ok (b - 48)
  else if in_range 97 102 c then Ok (b - 97 + 10)
  else if in_range 65 70 c then Ok (b - 65 + 10)
  else Err "non-hex character".

Fixpoint hex_pairs (s : string) : result (list Z) string :=
  match s with
  | String c1 (String c2 s) =>
      match from_hex_digit c1 with
      | Err e => Err e
      | Ok hi =>
          match from_hex_digit c2 with
          | Err e => Err e
          | Ok lo => match hex_pairs s with
                     | Err e => Err e
                     | Ok out => Ok (Z.lor (Z.shiftl hi 4) lo :: out)
                     end
          end
      end
  | _ => Ok []
  end.

Definition hex_decode (s : string) : result (list Z) string :=
  if Z.odd (str_len s) then Err "odd-length hex" else hex_pairs s.

Section Messages.
Context {D : Decimal} {J : Json}.

Inductive CommandPayload :=
| LeaseGrant (lease : LeaderLease)
| LeaseRefresh (lease : LeaderLease)
| LeaseRevoke (reason : string)
| PushCredential (credential : PushedCredential)
| SetDesiredStrategies (strategies : list DesiredStrategy)
| FetchDeploymentDetails (deployment topic : string) (request_id : N) (args : json_map)
| PatchDeploymentVariables (deployment : string) (patch : json_map)
| AddClient (client : string) (symbols : list string)
| CommandHeartbeat.

(** The figures a row takes from the metrics registry and the dashboard for
    a symbol, and the venue and product it falls back to. *)
Class Scrape := {
  metrics : Type;
  scrape : string → metrics;
  dash_venue : string → string;
  dash_product : string → string;
}.
Context {SC : Scrape}.

Record DeploymentStateRow := mkRow {
  row_deployment_id : string;
  row_symbol : string;
  row_running : bool;
  row_sampled_at_ms : Z;
  row_template : string;
  row_venue : string;
  row_product : string;
  row_mode : string;
  row_features : gmap string bool;
  row_variables : json_map;
  row_credentials : list string;
  row_metrics : metrics;
}.

Inductive TelemetryPayload :=
| Register (agent : string) (last_applied : Seq) (protocol_version : Z) (pubkey : option (list Z))
    (agent_version : string)
| LeaseRefreshRequest (current_lease_id : N)
| TelemetryHeartbeat (agent_clock_ms : Z)
| Ack (applied_seq : Seq)
| DeploymentState (deployments : list DeploymentStateRow)
| DetailsReply (request_id : N) (deployment topic : string) (payload : json) (error : option string).

Inductive EnvelopeKind := CommandKind | TelemetryKind.

Record Envelope := mkEnvelope {
  env_seq : Seq;
  sent_at_ms : Z;
  env_kind : EnvelopeKind;
  env_protocol_version : Z;
  env_command : option CommandPayload;
  env_telemetry : option TelemetryPayload;
}.

Definition command (now : Z) (seq : Seq) (p : CommandPayload) : Envelope :=
  mkEnvelope seq now CommandKind PROTOCOL_VERSION (Some p) None.
Definition telemetry (now : Z) (seq : Seq) (p : TelemetryPayload) : Envelope :=
  mkEnvelope seq now TelemetryKind PROTOCOL_VERSION None (Some p).

(** ** Signatures *)
Record SignedEnvelope := mkSigned { envelope : Envelope; sig_bytes : list Z }.

Definition unsigned (e : Envelope) : SignedEnvelope := mkSigned e [].

Inductive VerifyError := BadLength (n : nat) | BadSignature | Unsigned | Encoding (msg : string).

(** Ed25519 and [serde_json::to_vec]. *)
Class SignScheme := {
  secret : Type;
  public : Type;
  public_of : secret → public;
  sign : secret → list Z → list Z;
  verify : public → list Z → list Z → bool;
  encode_envelope : Envelope → result (list Z) string;
}.
Class SignSchemeLaws (SS : SignScheme) : Prop := {
  sign_nonempty k m : sign k m ≠ [];
  sign_verifies k m : verify (public_of k) m (sign k m) = true;
}.

Section Signing.
Context {SS : SignScheme}.

Definition signed (e : Envelope) (k : secret) : result SignedEnvelope VerifyError :=
  match encode_envelope e with
  | Err m => Err (Encoding m)
  | Ok bytes => Ok (mkSigned e (sign k bytes))
  end.

Definition verify_with (s : SignedEnvelope) (peer : public) : result unit VerifyError :=
  match sig_bytes s with
  | [] => Err Unsigned
  | _ =>
      match encode_envelope (envelope s) with
      | Err m => Err (Encoding m)
      | Ok bytes => if verify peer bytes (sig_bytes s) then Ok tt else Err BadSignature
      end
  end.

Definition verify_optional (s : SignedEnvelope) (peer : option public) : result unit VerifyError :=
  match peer with Some k => verify_with s k | None => Ok tt end.

(** A signed envelope verifies under its signer's key, and verification
    depends only on the serialized envelope and the signature. *)
Lemma signed_verifies {L : SignSchemeLaws SS} e k s :
  signed e k = Ok s → envelope s = e ∧ verify_with s (public_of k) = Ok tt.
Proof.
  unfold signed. destruct (encode_envelope e) as [bytes|m] eqn:E; [|done]. intros [= <-].
  split; [done|]. unfold verify_with. simpl.
  destruct (sign k bytes) as [|b bs] eqn:Es; [by apply sign_nonempty in Es|].
  rewrite E, <- Es. by rewrite sign_verifies.
Qed.

Lemma unsigned_rejected e peer : verify_with (unsigned e) peer = Err Unsigned.
Proof. done. Qed.
End Signing.
End Messages.

(** ** The hex text of a signature *)
Definition is_byte (b : Z) : Prop := 0 ≤ b < 256.

Lemma from_hex_digit_digit n : 0 ≤ n < 16 → from_hex_digit (hex_digit n) = Ok n.
Proof.
  intros Hn. assert (n ∈ seqZ 0 16) as Hin by (apply elem_of_seqZ; lia).
  revert n Hn Hin. cut (Forall (λ n, from_hex_digit (hex_digit n) = Ok n) (seqZ 0 16)).
  { intros Hall n _ Hin. rewrite Forall_forall in Hall. by apply Hall. }
  vm_compute. repeat constructor.
Qed.

Lemma hex_encode_length bytes : Z.odd (str_len (hex_encode bytes)) = false.
Proof.
  induction bytes as [|b bytes IH]; [done|]. unfold str_len in *. cbn [hex_encode String.length].
  rewrite !Nat2Z.inj_succ, Z.odd_succ, Z.even_succ. done.
Qed.

(** The hex text of a byte string decodes to those bytes, whatever their
    number; an odd number of digits never decodes. *)
Theorem hex_roundtrip bytes (Hb : Forall is_byte bytes) :
  hex_decode (hex_encode bytes) = Ok bytes ∧
  ∀ c, hex_decode (String c (hex_encode bytes)) = Err "odd-length hex".
Proof.
  split.
  - unfold hex_decode. rewrite hex_encode_length.
    induction Hb as [|b bytes Hbyte _ IH]; [done|]. cbn [hex_encode hex_pairs]. unfold is_byte in Hbyte.
    assert (0 ≤ Z.shiftr b 4 < 16).
    { rewrite Z.shiftr_div_pow2 by lia. change (2 ^ 4) with 16.
      split; [apply Z.div_pos; lia|apply Z.div_lt_upper_bound; lia]. }
    change 15 with (Z.ones 4). assert (0 ≤ Z.land b (Z.ones 4) < 16).
    { rewrite Z.land_ones by lia. apply Z.mod_pos_bound. lia. }
    rewrite !from_hex_digit_digit by lia. rewrite IH. f_equal. f_equal.
    apply Z.bits_inj'. intros i Hi. rewrite Z.lor_spec, Z.land_spec, Z.testbit_ones_nonneg by lia.
    destruct (Z.lt_ge_cases i 4).
    + rewrite Z.shiftl_spec_low by lia. assert (i <? 4 = true) as -> by lia. by rewrite andb_true_r.
    + rewrite Z.shiftl_spec by lia. rewrite Z.shiftr_spec by lia.
      assert (i <? 4 = false) as -> by lia. rewrite andb_false_r, orb_false_r. f_equal. lia.
  - intros c. unfold hex_decode.
    assert (Z.odd (str_len (String c (hex_encode bytes))) = true) as ->; [|done].
    unfold str_len. cbn [String.length]. rewrite Nat2Z.inj_succ, Z.odd_succ, <- Z.negb_odd.
    pose proof (hex_encode_length bytes) as E. unfold str_len in E. by rewrite E.
Qed.
