(* ===== verification/Fleet.v ===== *)
(** * The fleet view and the command routes ([crates/controller/src/{fleet,registry}.rs])

    What operators see of each agent, and the map that routes a command or an
    admission decision to the session of an agent id. A session is a number;
    a send to one that has ended fails. The locks are never poisoned. *)
From stdpp Require Import base gmap sets list strings sorting.
From Stdlib Require Import ZArith.
From S2P Require Import Prelude Decimal Bytes Json Control Catalog Registry Envelope.
Local Open Scope string_scope.
Local Open Scope list_scope.

Section View.
Context {J : Json} {SC : Scrape}.

Record AgentView := mkView {
  av_agent_id : string;
  av_last_seen_ms : Z;
  av_protocol_version : Z;
  av_agent_version : string;
  av_pubkey_fingerprint : string;
  av_approval_state : string;
  av_current_lease : option LeaderLease;
  av_last_applied_seq : Seq;
  av_agent_clock_ms : option Z;
  av_deployments : list DeploymentStateRow;
}.

End View.

Abbreviation FleetState := (gmap string AgentView).

Section Fleet.
Context {J : Json} {SC : Scrape} {I : HashMapIter}.

Definition bare (now : Z) (agent : string) (version : Z) (applied : Seq) : AgentView :=
  mkView agent now version "" "" "" None applied None [].

(** [if !s.is_empty() { field = s }] *)
Definition non_empty_or (s old : string) : string := if bool_decide (s = "") then old else s.

Definition on_register_full (now : Z) (agent : string) (version : Z) (applied : Seq)
    (agent_version fp state : string) (f : FleetState) : FleetState :=
  let e := default (bare now agent version applied) (f !! agent) in
  <[agent := mkView (av_agent_id e) now version (non_empty_or agent_version (av_agent_version e))
      (non_empty_or fp (av_pubkey_fingerprint e)) (non_empty_or state (av_approval_state e))
      (av_current_lease e) applied (av_agent_clock_ms e) (av_deployments e)]> f.

Definition on_register (now : Z) (agent : string) (version : Z) (applied : Seq) : FleetState → FleetState :=
  on_register_full now agent version applied "" "" "".

Definition update_approval_state (now : Z) (agent state : string) (f : FleetState) : FleetState :=
  alter (λ e, mkView (av_agent_id e) now (av_protocol_version e) (av_agent_version e)
    (av_pubkey_fingerprint e) state (av_current_lease e) (av_last_applied_seq e) (av_agent_clock_ms e)
    (av_deployments e)) agent f.

Definition update_lease (now : Z) (agent : string) (l : LeaderLease) (f : FleetState) : FleetState :=
  alter (λ e, mkView (av_agent_id e) now (av_protocol_version e) (av_agent_version e)
    (av_pubkey_fingerprint e) (av_approval_state e) (Some l) (av_last_applied_seq e)
    (av_agent_clock_ms e) (av_deployments e)) agent f.

Definition on_heartbeat (now : Z) (agent : string) (clock : Z) (f : FleetState) : FleetState :=
  alter (λ e, mkView (av_agent_id e) now (av_protocol_version e) (av_agent_version e)
    (av_pubkey_fingerprint e) (av_approval_state e) (av_current_lease e) (av_last_applied_seq e)
    (Some clock) (av_deployments e)) agent f.

Definition on_ack (now : Z) (agent : string) (applied : Seq) (f : FleetState) : FleetState :=
  alter (λ e, mkView (av_agent_id e) now (av_protocol_version e) (av_agent_version e)
    (av_pubkey_fingerprint e) (av_approval_state e) (av_current_lease e) applied
    (av_agent_clock_ms e) (av_deployments e)) agent f.

Definition on_deployment_state (now : Z) (agent : string) (rows : list DeploymentStateRow)
    (f : FleetState) : FleetState :=
  alter (λ e, mkView (av_agent_id e) now (av_protocol_version e) (av_agent_version e)
    (av_pubkey_fingerprint e) (av_approval_state e) (av_current_lease e) (av_last_applied_seq e)
    (av_agent_clock_ms e) rows) agent f.

Definition on_disconnect (agent : string) (f : FleetState) : FleetState := delete agent f.

Definition fleet_snapshot (f : FleetState) : list AgentView :=
  sort_by (λ a b, Stdlib.Strings.String.leb (av_agent_id a) (av_agent_id b)) (hm_values f).
Definition fleet_get (f : FleetState) (id : string) : option AgentView := f !! id.
Definition fleet_len (f : FleetState) : nat := size f.
End Fleet.

(** ** Routes *)
Inductive SessionLifecycleEvent := ApprovalGranted | ApprovalRevoked (reason : string).

Inductive RegistryError := RouteNotFound | AgentGone.

(** [senders] maps an agent id to the session that registered it last;
    [pending_details] are the request ids a handler waits for. *)
Record AgentRegistry := mkAgentRegistry {
  senders : gmap string nat;
  pending_details : gset N;
}.

Definition agent_registry_new : AgentRegistry := mkAgentRegistry ∅ ∅.

Definition route_register (agent : string) (session : nat) (r : AgentRegistry) : AgentRegistry :=
  mkAgentRegistry (<[agent := session]> (senders r)) (pending_details r).
Definition deregister (agent : string) (r : AgentRegistry) : AgentRegistry :=
  mkAgentRegistry (delete agent (senders r)) (pending_details r).

(** [send] and [send_lifecycle] up to the push: the session to push to.
    [live] are the sessions whose receivers exist. *)
Definition route (live : gset nat) (agent : string) (r : AgentRegistry) : result nat RegistryError :=
  match senders r !! agent with
  | None => Err RouteNotFound
  | Some n => if decide (n ∈ live) then Ok n else Err AgentGone
  end.

Definition pending_details_register (id : N) (r : AgentRegistry) : AgentRegistry :=
  mkAgentRegistry (senders r) ({[id]} ∪ pending_details r).
Definition pending_details_forget (id : N) (r : AgentRegistry) : AgentRegistry :=
  mkAgentRegistry (senders r) (pending_details r ∖ {[id]}).

(** The waiter's end may be gone: [heard]. *)
Definition resolve_pending_details (id : N) (heard : bool) (r : AgentRegistry) : bool * AgentRegistry :=
  if decide (id ∈ pending_details r) then (heard, pending_details_forget id r) else (false, r).

(** A reply resolves at most one wait. *)
Lemma resolve_once id h1 h2 r : (resolve_pending_details id h2 (resolve_pending_details id h1 r).2).1 = false.
Proof.
  unfold resolve_pending_details. destruct (decide (id ∈ pending_details r)) as [Hin|Hin]; simpl.
  - by rewrite decide_False by set_solver.
  - by destruct (decide (id ∈ pending_details r)).
Qed.

(** Deregistering an agent removes whatever session holds its id: when a
    reconnected session registered first, the end of the old one cuts it off. *)
Lemma stale_deregister_cuts_new live agent old new_ r :
  route live agent (deregister agent (route_register agent new_ (route_register agent old r))) =
  Err RouteNotFound.
Proof. unfold route. simpl. by rewrite lookup_delete_eq. Qed.
