(* ===== verification/Session.v ===== *)
(** * Controller sessions ([crates/controller/src/lib.rs], [AgentSession])

    A controller and its sessions, as the accept loop assembles them
    ([ws_accept.rs]): every session shares the fleet view, the routes, the
    approval store and the vault. A step of the controller is one event of one
    session ([run_until_disconnect]) or one admission request of an operator
    ([http.rs]), in any order. The transport of session [n] answers its k-th
    send as [session_send n k] says. *)
From stdpp Require Import base gmap sets list strings sorting.
From Stdlib Require Import ZArith Lia.
From S2P Require Import Prelude Decimal Bytes Json Control Vault Approvals Catalog Registry Envelope Fleet.
Local Open Scope string_scope.
Local Open Scope list_scope.
Local Open Scope Z_scope.

(** [semver], the key's two texts, [Uuid::new_v4] (the k-th frame of session
    [n] draws [fresh_uuid n k]) and the transports. *)
Class SessionEnv := {
  version : Type;
  parse_version : string → option version;
  version_ltb : version → version → bool;
  key_fingerprint : list Z → string;
  key_hex : list Z → string;
  fresh_uuid : nat → nat → N;
  session_send : nat → nat → bool;
}.

Inductive SessionError := TransportFailed | NotRegistered | BadSessionEnvelope.

Section Session.
Context {D : Decimal} {J : Json} {SC : Scrape} {I : HashMapIter} {VC : VaultCodec} {AC : ApprovalCodec}
  {SE : SessionEnv}.

(** Durations are in milliseconds. *)
Record LeasePolicy := mkPolicy {
  lease_ttl : Z;
  min_refresh_interval : Z;
  min_agent_version : option version;
  max_agent_version : option version;
}.

(** Whether the version is accepted; the error's text is only logged. *)
Definition check_agent_version (policy : LeasePolicy) (raw : string) : bool :=
  let has_bound := bool_decide (is_Some (min_agent_version policy))
                   || bool_decide (is_Some (max_agent_version policy)) in
  if bool_decide (raw = "") then negb has_bound
  else
    match parse_version raw with
    | None => false
    | Some v =>
        match min_agent_version policy with Some m => negb (version_ltb v m) | None => true end
        && match max_agent_version policy with Some m => version_ltb v m | None => true end
    end.

Record AgentSession := mkSession {
  number : nat;
  cmd_seq : Seq;
  s_agent : option string;
  s_lease : option LeaderLease;
  s_fingerprint : option string;
  s_approval : ApprovalState;
  inbox : list CommandPayload;
  lifecycle : list SessionLifecycleEvent;
  s_frames : list SignedEnvelope;
  s_open : bool;
}.

Definition session_new (n : nat) : AgentSession :=
  mkSession n seq_zero None None None Accepted [] [] [] true.

(** What the sessions share. *)
Record Shared := mkShared {
  fleet : FleetState;
  routes : AgentRegistry;
  approvals : option ApprovalStore;
  vault : option VaultStore;
}.

Definition with_fleet (f : FleetState → FleetState) (h : Shared) : Shared :=
  mkShared (f (fleet h)) (routes h) (approvals h) (vault h).
Definition with_routes (f : AgentRegistry → AgentRegistry) (h : Shared) : Shared :=
  mkShared (fleet h) (f (routes h)) (approvals h) (vault h).
Definition with_store (a : option ApprovalStore) (h : Shared) : Shared :=
  mkShared (fleet h) (routes h) a (vault h).

(** The fleet update of a session that knows its agent. *)
Definition note_fleet (s : AgentSession) (f : string → FleetState → FleetState) (h : Shared) : Shared :=
  match s_agent s with Some id => with_fleet (f id) h | None => h end.

Definition set_lease (l : option LeaderLease) (s : AgentSession) : AgentSession :=
  mkSession (number s) (cmd_seq s) (s_agent s) l (s_fingerprint s) (s_approval s) (inbox s)
    (lifecycle s) (s_frames s) (s_open s).
Definition set_approval (st : ApprovalState) (s : AgentSession) : AgentSession :=
  mkSession (number s) (cmd_seq s) (s_agent s) (s_lease s) (s_fingerprint s) st (inbox s)
    (lifecycle s) (s_frames s) (s_open s).
Definition set_identity (agent : string) (fp : option string) (st : ApprovalState) (s : AgentSession) :
    AgentSession :=
  mkSession (number s) (cmd_seq s) (Some agent) (s_lease s) fp st (inbox s) (lifecycle s)
    (s_frames s) (s_open s).
Definition set_queues (q : list CommandPayload) (l : list SessionLifecycleEvent) (s : AgentSession) :
    AgentSession :=
  mkSession (number s) (cmd_seq s) (s_agent s) (s_lease s) (s_fingerprint s) (s_approval s) q l
    (s_frames s) (s_open s).
Definition close_session (s : AgentSession) : AgentSession :=
  mkSession (number s) (cmd_seq s) (s_agent s) (s_lease s) (s_fingerprint s) (s_approval s) (inbox s)
    (lifecycle s) (s_frames s) false.

(** A handler of the session: its result, the session and what is shared. *)
Definition Handler : Type := AgentSession → Shared → result unit SessionError * AgentSession * Shared.

(** ** Sending *)
Definition push_command (now : Z) (p : CommandPayload) (s : AgentSession) :
    result unit SessionError * AgentSession :=
  let seq := seq_next (cmd_seq s) in
  (if session_send (number s) (length (s_frames s)) then Ok tt else Err TransportFailed,
   mkSession (number s) seq (s_agent s) (s_lease s) (s_fingerprint s) (s_approval s) (inbox s)
     (lifecycle s) (s_frames s ++ [unsigned (command now seq p)]) (s_open s)).

Fixpoint push_credentials (now : Z) (cs : list PushedCredential) (s : AgentSession) :
    result unit SessionError * AgentSession :=
  match cs with
  | [] => (Ok tt, s)
  | c :: cs =>
      match push_command now (PushCredential c) s with
      | (Err e, s) => (Err e, s)
      | (Ok _, s) => push_credentials now cs s
      end
  end.

(** ** Leases *)
Definition issue_lease (now : Z) (policy : LeasePolicy) (id : N) (s : AgentSession) : LeaderLease :=
  mkLeaderLease id (default "" (s_agent s)) now (now + lease_ttl policy) (seq_next (cmd_seq s)).
Definition issue_fresh_lease (now : Z) (policy : LeasePolicy) (s : AgentSession) : LeaderLease :=
  issue_lease now policy (fresh_uuid (number s) (length (s_frames s))) s.
Definition issue_extended_lease (now : Z) (policy : LeasePolicy) (id : N) (s : AgentSession) : LeaderLease :=
  issue_lease now policy id s.

Definition issue_initial_lease_and_credentials (now : Z) (policy : LeasePolicy) : Handler := λ s h,
  let lease := issue_fresh_lease now policy s in
  let s := set_lease (Some lease) s in
  let h := note_fleet s (λ id, update_lease now id lease) h in
  match push_command now (LeaseGrant lease) s with
  | (Err e, s) => (Err e, s, h)
  | (Ok _, s) =>
      let batch := match vault h, s_agent s with
                   | Some v, Some id => pushable_exchange_for_agent v id
                   | _, _ => []
                   end in
      (push_credentials now batch s, h)
  end.

Definition on_refresh_request (now : Z) (policy : LeasePolicy) (id : N) : Handler := λ s h,
  if negb (is_accepted (s_approval s))
  then (push_command now (LeaseRevoke "approval revoked") s, h)
  else
    match s_lease s with
    | None => (Err NotRegistered, s, h)
    | Some current =>
        if negb (lease_id current =? id)%N then (Err BadSessionEnvelope, s, h)
        else if Z.max 0 (now - issued_at current) <? min_refresh_interval policy then (Ok tt, s, h)
        else
          let refreshed := issue_extended_lease now policy (lease_id current) s in
          let s := set_lease (Some refreshed) s in
          let h := note_fleet s (λ id, update_lease now id refreshed) h in
          (push_command now (LeaseRefresh refreshed) s, h)
    end.

(** ** Registration *)

(** The fingerprint and the admission decision; [None] refuses the session. *)
Definition admission (now : Z) (disk_ok : bool) (agent : string) (pubkey : option (list Z)) (h : Shared) :
    option (option string * ApprovalState * Shared) :=
  match approvals h, pubkey with
  | Some store, Some pk =>
      let fp := key_fingerprint pk in
      let '(st, store) := record_register now disk_ok fp agent (key_hex pk) store in
      Some (Some fp, st, with_store (Some store) h)
  | Some _, None => None
  | None, _ => Some (None, Accepted, h)
  end.

Definition on_register_frame (now : Z) (disk_ok : bool) (policy : LeasePolicy) (agent : string)
    (protocol_version : Z) (last_applied : Seq) (agent_version : string) (pubkey : option (list Z)) :
    Handler := λ s h,
  if negb (protocol_version =? PROTOCOL_VERSION) then (Err BadSessionEnvelope, s, h)
  else if negb (check_agent_version policy agent_version) then (Err BadSessionEnvelope, s, h)
  else
    match admission now disk_ok agent pubkey h with
    | None => (Err BadSessionEnvelope, s, h)
    | Some (fp, st, h) =>
        let h := with_fleet (on_register_full now agent protocol_version last_applied agent_version
                               (default "" fp) (as_str st)) h in
        let h := with_routes (route_register agent (number s)) h in
        let s := set_identity agent fp st s in
        if negb (is_accepted st) then (Ok tt, s, h)
        else issue_initial_lease_and_credentials now policy s h
    end.

(** ** Events of a session *)
Definition on_lifecycle (now : Z) (policy : LeasePolicy) (ev : SessionLifecycleEvent) : Handler := λ s h,
  match ev with
  | ApprovalGranted =>
      if decide (s_approval s = Accepted) then (Ok tt, s, h)
      else
        let s := set_approval Accepted s in
        let h := note_fleet s (λ id, update_approval_state now id (as_str Accepted)) h in
        issue_initial_lease_and_credentials now policy s h
  | ApprovalRevoked reason =>
      if decide (s_approval s = Revoked) then (Ok tt, s, h)
      else
        let s := set_approval Revoked s in
        let h := note_fleet s (λ id, update_approval_state now id (as_str Revoked)) h in
        (push_command now (LeaseRevoke reason) (set_lease None s), h)
  end.

Definition on_envelope (now : Z) (disk_ok heard : bool) (policy : LeasePolicy) (e : SignedEnvelope) :
    Handler := λ s h,
  match env_command (envelope e), env_telemetry (envelope e) with
  | Some _, _ | None, None => (Err BadSessionEnvelope, s, h)
  | None, Some p =>
      match p with
      | Register agent applied version pubkey agent_version =>
          on_register_frame now disk_ok policy agent version applied agent_version pubkey s h
      | LeaseRefreshRequest id => on_refresh_request now policy id s h
      | TelemetryHeartbeat clock => (Ok tt, s, note_fleet s (λ id, on_heartbeat now id clock) h)
      | Ack n => (Ok tt, s, note_fleet s (λ id, on_ack now id n) h)
      | DeploymentState rows => (Ok tt, s, note_fleet s (λ id, on_deployment_state now id rows) h)
      | DetailsReply id _ _ _ _ =>
          (Ok tt, s, with_routes (λ r, (resolve_pending_details id heard r).2) h)
      end
  end.

(** What the [select!] gave: a frame, the end of the channel, an error, or
    the turn of one of the queues. *)
Inductive SessionEvent :=
| Incoming (disk_ok heard : bool) (e : SignedEnvelope)
| IncomingClosed
| IncomingError
| OutboundCommand
| Lifecycle.

(** One turn of [run_until_disconnect]; the boolean says that the session
    goes on. *)
Definition session_turn (now : Z) (policy : LeasePolicy) (ev : SessionEvent) (s : AgentSession) (h : Shared) :
    AgentSession * Shared :=
  let after (x : result unit SessionError * AgentSession * Shared) :=
    match x with (Ok _, s, h) => (s, h) | (Err _, s, h) => (close_session s, h) end in
  match ev with
  | Incoming disk_ok heard e => after (on_envelope now disk_ok heard policy e s h)
  | IncomingClosed =>
      (close_session s,
       match s_agent s with
       | Some id => with_routes (deregister id) (with_fleet (on_disconnect id) h)
       | None => h
       end)
  | IncomingError => (close_session s, h)
  | OutboundCommand =>
      match inbox s with
      | [] => (s, h)
      | c :: q => let '(r, s) := push_command now c (set_queues q (lifecycle s) s) in after (r, s, h)
      end
  | Lifecycle =>
      match lifecycle s with
      | [] => (s, h)
      | ev :: q => after (on_lifecycle now policy ev (set_queues (inbox s) q s) h)
      end
  end.

(** ** The controller *)
Record Controller := mkController { shared : Shared; sessions : gmap nat AgentSession }.

Definition live_sessions (c : Controller) : gset nat :=
  dom (filter (λ x, s_open x.2 = true) (sessions c)).

(** [send_lifecycle]; the callers ignore its error. *)
Definition nudge (agent : string) (ev : SessionLifecycleEvent) (c : Controller) : Controller :=
  match route (live_sessions c) agent (routes (shared c)) with
  | Err _ => c
  | Ok n => mkController (shared c) (alter (λ s, set_queues (inbox s) (lifecycle s ++ [ev]) s) n (sessions c))
  end.

(** [AgentRegistry::send] by an HTTP handler. *)
Definition send_command (agent : string) (cmd : CommandPayload) (c : Controller) :
    result unit RegistryError * Controller :=
  match route (live_sessions c) agent (routes (shared c)) with
  | Err e => (Err e, c)
  | Ok n =>
      (Ok tt, mkController (shared c)
                (alter (λ s, set_queues (inbox s ++ [cmd]) (lifecycle s) s) n (sessions c)))
  end.

Definition put_store (a : ApprovalStore) (c : Controller) : Controller :=
  mkController (with_store (Some a) (shared c)) (sessions c).

Definition put_vault (v : VaultStore) (c : Controller) : Controller :=
  mkController (mkShared (fleet (shared c)) (routes (shared c)) (approvals (shared c)) (Some v)) (sessions c).

(** The tail of the admission handlers: the store, then the nudge to the
    record's agent id when the store reported no error. *)
Definition decided (x : result ApprovalRecord ApprovalStoreError * ApprovalStore)
    (ev : SessionLifecycleEvent) (c : Controller) : Controller :=
  let c := put_store x.2 c in
  match x.1 with Ok r => nudge (agent_id r) ev c | Err _ => c end.

(** The hexadecimal text a pre-approval names. *)
Definition valid_fingerprint (fp : string) : bool :=
  (8 <=? str_len fp) && forallb (λ c, in_range 48 57 c || in_range 65 70 c || in_range 97 102 c)
                          (String.list_ascii_of_string fp).

(** [push_credential_to_connected_agents]: to every agent the fleet view shows
    as accepted, if the vault lets it have the entry. *)
Definition push_to_agent (cred : string) (v : VaultStore) (c : Controller) (view : AgentView) : Controller :=
  if negb (bool_decide (av_approval_state view = "")) && negb (bool_decide (av_approval_state view = "accepted"))
  then c
  else
    match List.find (λ p, bool_decide (pc_id p = cred)) (pushable_exchange_for_agent v (av_agent_id view)) with
    | None => c
    | Some p => (send_command (av_agent_id view) (PushCredential p) c).2
    end.

Definition push_credential_to_connected_agents (cred : string) (v : VaultStore) (c : Controller) : Controller :=
  fold_left (push_to_agent cred v) (fleet_snapshot (fleet (shared c))) c.

(** [post_vault_entry] and [put_vault_entry] after the store call. *)
Definition vault_written (name : string) (x : result VaultSummary VaultError * VaultStore) (c : Controller) :
    Controller :=
  let c := put_vault x.2 c in
  match x.1 with Ok _ => push_credential_to_connected_agents name x.2 c | Err _ => c end.

(** *** Deployments *)
Inductive DeployError :=
| NotAccepted (state : string)
| CredentialRefused (deployment credential : string) (why : CredentialCheck)
| MixedTenants (deployment tenant1 tenant2 : string)
| DeployRoute (e : RegistryError).

(** The tenant of the agent's profile, by the fingerprint of its view. *)
Definition agent_tenant (agent : string) (h : Shared) : option string :=
  view ← fleet_get (fleet h) agent;
  if bool_decide (av_pubkey_fingerprint view = "") then None
  else a ← approvals h; r ← Approvals.get (av_pubkey_fingerprint view) a; client_id (profile r).

Fixpoint check_credentials (now : Z) (v : VaultStore) (agent : string) (tenant : option string)
    (deployment : string) (seen : option string) (cs : list string) : result unit DeployError :=
  match cs with
  | [] => Ok tt
  | c :: cs =>
      match can_exchange_access now v c agent tenant with
      | CheckOk _ _ =>
          match vault_get v c ≫= v_client_id with
          | None => check_credentials now v agent tenant deployment seen cs
          | Some t =>
              match seen with
              | None => check_credentials now v agent tenant deployment (Some t) cs
              | Some prev =>
                  if bool_decide (prev = t) then check_credentials now v agent tenant deployment seen cs
                  else Err (MixedTenants deployment prev t)
              end
          end
      | why => Err (CredentialRefused deployment c why)
      end
  end.

Fixpoint check_strategies (now : Z) (v : VaultStore) (agent : string) (tenant : option string)
    (ds : list DesiredStrategy) : result unit DeployError :=
  match ds with
  | [] => Ok tt
  | d :: ds =>
      match check_credentials now v agent tenant (deployment_id d) None (credential_ids d) with
      | Err e => Err e
      | Ok _ => check_strategies now v agent tenant ds
      end
  end.

Definition pre_validate_deploy (now : Z) (h : Shared) (agent : string) (ds : list DesiredStrategy) :
    result unit DeployError :=
  let state := match approvals h, fleet_get (fleet h) agent with
               | Some _, Some view => av_approval_state view
               | _, _ => ""
               end in
  if negb (bool_decide (state = "")) && negb (bool_decide (state = "accepted")) then Err (NotAccepted state)
  else
    match vault h with
    | None => Ok tt
    | Some v => check_strategies now v agent (agent_tenant agent h) ds
    end.

(** The tenant becomes the variable [client_id] where the request has none. *)
Definition inject_tenant (tenant : option string) (d : DesiredStrategy) : DesiredStrategy :=
  match tenant with
  | None => d
  | Some t =>
      if decide (is_Some (variables d !! "client_id")) then d
      else mkDesiredStrategy (deployment_id d) (template d) (d_symbol d) (credentials d)
             (<["client_id" := json_string t]> (variables d)) (fail_ladder_override d)
  end.

Definition deploy (now : Z) (agent : string) (ds : list DesiredStrategy) (c : Controller) :
    result nat DeployError * Controller :=
  match pre_validate_deploy now (shared c) agent ds with
  | Err e => (Err e, c)
  | Ok _ =>
      let ds := inject_tenant (agent_tenant agent (shared c)) <$> ds in
      match send_command agent (SetDesiredStrategies ds) c with
      | (Err e, c) => (Err (DeployRoute e), c)
      | (Ok _, c) => (Ok (length ds), c)
      end
  end.

Inductive ControllerEvent :=
| AcceptSession
| OnSession (n : nat) (ev : SessionEvent)
| AcceptAgent (disk_ok : bool) (fp actor : string)
| RejectAgent (disk_ok : bool) (fp actor reason : string)
| RevokeAgent (disk_ok : bool) (fp actor reason : string)
| PreApproveAgent (disk_ok : bool) (fp actor : string) (notes : option string)
| PutProfile (disk_ok : bool) (fp : string) (p : AgentProfilePatch)
| DeleteApproval (disk_ok : bool) (fp : string)
| PostSecret (nonce : string → string → Z) (disk_ok : bool) (e : VaultEntry)
| PutSecret (nonce : string → string → Z) (disk_ok : bool) (e : VaultEntry)
| DeleteSecret (nonce : string → string → Z) (disk_ok : bool) (name : string)
| Deploy (agent : string) (strategies : list DesiredStrategy)
| SendCommand (agent : string) (cmd : CommandPayload).

Definition controller_step (policy : LeasePolicy) (c : Controller) (x : Z * ControllerEvent) : Controller :=
  let '(now, ev) := x in
  match ev with
  | AcceptSession =>
      let n := size (sessions c) in mkController (shared c) (<[n := session_new n]> (sessions c))
  | OnSession n ev =>
      match sessions c !! n with
      | Some s =>
          if s_open s then
            let '(s, h) := session_turn now policy ev s (shared c) in
            mkController h (<[n := s]> (sessions c))
          else c
      | None => c
      end
  | AcceptAgent ok fp actor =>
      match approvals (shared c) with
      | None => c
      | Some a => decided (accept now ok fp actor a) ApprovalGranted c
      end
  | RejectAgent ok fp actor reason =>
      match approvals (shared c) with
      | None => c
      | Some a => decided (reject now ok fp actor reason a) (ApprovalRevoked reason) c
      end
  | RevokeAgent ok fp actor reason =>
      match approvals (shared c) with
      | None => c
      | Some a => decided (revoke now ok fp actor reason a) (ApprovalRevoked reason) c
      end
  | PreApproveAgent ok fp actor notes =>
      match approvals (shared c) with
      | None => c
      | Some a => if valid_fingerprint fp then put_store (pre_approve now ok fp actor notes a).2 c else c
      end
  | PutProfile ok fp p =>
      match approvals (shared c) with
      | None => c
      | Some a => put_store (update_profile ok fp p a).2 c
      end
  | DeleteApproval ok fp =>
      match approvals (shared c) with
      | None => c
      | Some a => put_store (remove ok fp a).2 c
      end
  | PostSecret nonce ok e =>
      match vault (shared c) with
      | None => c
      | Some v => vault_written (v_name e) (vault_insert now nonce ok e v) c
      end
  | PutSecret nonce ok e =>
      match vault (shared c) with
      | None => c
      | Some v => vault_written (v_name e) (upsert now nonce ok e v) c
      end
  | DeleteSecret nonce ok name =>
      match vault (shared c) with
      | None => c
      | Some v => put_vault (vault_remove nonce ok name v).2 c
      end
  | Deploy agent ds => (deploy now agent ds c).2
  | SendCommand agent cmd => (send_command agent cmd c).2
  end.

Definition controller_new (a : option ApprovalStore) (v : option VaultStore) : Controller :=
  mkController (mkShared ∅ agent_registry_new a v) ∅.

Definition controller_run (policy : LeasePolicy) (xs : list (Z * ControllerEvent)) (c : Controller) : Controller :=
  fold_left (controller_step policy) xs c.
End Session.

(** ** What a deployment was checked for *)
Section Deployments.
Context {D : Decimal} {J : Json} {SC : Scrape} {I : HashMapIter} {VC : VaultCodec} {AC : ApprovalCodec}
  {SE : SessionEnv}.

Lemma check_credentials_ok now v agent tenant dep seen cs :
  check_credentials now v agent tenant dep seen cs = Ok tt →
  (∀ c, c ∈ cs → ∃ ex pr, can_exchange_access now v c agent tenant = CheckOk ex pr) ∧
  (∀ c t, c ∈ cs → vault_get v c ≫= v_client_id = Some t → ∀ t', seen = Some t' → t' = t) ∧
  (∀ c1 c2 t1 t2, c1 ∈ cs → c2 ∈ cs → vault_get v c1 ≫= v_client_id = Some t1 →
    vault_get v c2 ≫= v_client_id = Some t2 → t1 = t2).
Proof.
  revert seen. induction cs as [|c cs IH]; intros seen; simpl.
  { intros _. split; [|split]; set_solver. }
  destruct (can_exchange_access now v c agent tenant) as [ex pr| | | | |] eqn:Ec; try done.
  destruct (vault_get v c ≫= v_client_id) as [t|] eqn:Et.
  - intros H. assert (∃ s', check_credentials now v agent tenant dep (Some t) cs = Ok s' ∧
      (∀ t', seen = Some t' → t' = t)) as ([] & H' & Hseen).
    { destruct seen as [prev|].
      - destruct (bool_decide (prev = t)) eqn:Eb; [|done]. apply bool_decide_eq_true in Eb as ->.
        exists tt. split; [done|]. by intros ? [= <-].
      - by exists tt. }
    destruct (IH _ H') as (Hok & Hs & Hp). split; [|split].
    + intros c' [->|Hc]%elem_of_cons; [by exists ex, pr|by apply Hok].
    + intros c' t' [->|Hc]%elem_of_cons Ht' t'' Hs'; [rewrite Et in Ht'; injection Ht' as <-; by apply Hseen|].
      rewrite (Hseen t'' Hs'). by apply (Hs c' t' Hc Ht').
    + intros c1 c2 t1 t2 [->|H1]%elem_of_cons [->|H2]%elem_of_cons Ht1 Ht2; [congruence|..|by apply (Hp c1 c2)].
      * rewrite Et in Ht1. injection Ht1 as <-. by apply (Hs c2 t2 H2 Ht2).
      * rewrite Et in Ht2. injection Ht2 as <-. symmetry. by apply (Hs c1 t1 H1 Ht1).
  - intros H. destruct (IH _ H) as (Hok & Hs & Hp). split; [|split].
    + intros c' [->|Hc]%elem_of_cons; [by exists ex, pr|by apply Hok].
    + intros c' t' [->|Hc]%elem_of_cons Ht'; [congruence|by apply (Hs c' t' Hc Ht')].
    + intros c1 c2 t1 t2 [->|H1]%elem_of_cons [->|H2]%elem_of_cons Ht1 Ht2; try congruence. by apply (Hp c1 c2).
Qed.

(** A deployment that passes the gate goes to an agent the fleet view shows
    as accepted (where it knows the agent), and every strategy of it names only
    credentials the agent may use at that time, all of one tenant. *)
Theorem deploy_gate now h a v agent ds (Ha : approvals h = Some a) (Hv : vault h = Some v)
  (H : pre_validate_deploy now h agent ds = Ok tt) :
  (∀ view, fleet h !! agent = Some view → av_approval_state view ∈ [""; "accepted"]) ∧
  ∀ d, d ∈ ds →
    (∀ c, c ∈ credential_ids d → ∃ ex pr,
      can_exchange_access now v c agent (agent_tenant agent h) = CheckOk ex pr) ∧
    (∀ c1 c2 t1 t2, c1 ∈ credential_ids d → c2 ∈ credential_ids d →
      vault_get v c1 ≫= v_client_id = Some t1 → vault_get v c2 ≫= v_client_id = Some t2 → t1 = t2).
Proof.
  revert H. unfold pre_validate_deploy. rewrite Ha, Hv. unfold fleet_get. intros H. split.
  - intros view E. rewrite E in H. rewrite !elem_of_cons.
    destruct (bool_decide (av_approval_state view = "")) eqn:E1;
      [left; by apply bool_decide_eq_true in E1|].
    destruct (bool_decide (av_approval_state view = "accepted")) eqn:E2; [|done].
    right; left. by apply bool_decide_eq_true in E2.
  - assert (check_strategies now v agent (agent_tenant agent h) ds = Ok tt) as Hc by (by destruct (_ && _)).
    clear H. induction ds as [|d ds IH]; [by intros d ?%elem_of_nil|]. simpl in Hc.
    destruct (check_credentials _ _ _ _ _ _ _) as [[]|e] eqn:Ed; [|done].
    apply check_credentials_ok in Ed as (Hok & _ & Hp).
    intros d' [->|Hd]%elem_of_cons; [done|]. by apply IH.
Qed.
End Deployments.

(** ** A concrete deployment *)
Module SessionDemo.
#[export] Instance mute : Scrape := {|
  metrics := unit; scrape _ := tt; dash_venue s := s; dash_product s := s |}.

Definition demo_key : VaultEntry :=
  mkEntry "main" EXCHANGE None {["api_key" := "k"; "api_secret" := "s"]}
    {["exchange" := "binance"; "product" := "spot"]} ["eu-01"] None 0 0 None None.
Definition demo_vault : VaultStore := put_entry demo_key vault_in_memory.
Definition demo_shared : Shared :=
  mkShared (on_register_full 0 "eu-01" 1 0 "0.4.0" "abc" "accepted" ∅) agent_registry_new (Some in_memory)
    (Some demo_vault).
Definition demo_strategy : DesiredStrategy := mkDesiredStrategy "d1" "grid" "BTCUSDT" ["main"] ∅ None.
End SessionDemo.
Import SessionDemo.

Lemma deploy_gate_witness :
  ∃ ex pr, can_exchange_access 5 demo_vault "main" "eu-01" (agent_tenant "eu-01" demo_shared) = CheckOk ex pr.
Proof.
  destruct (deploy_gate 5 demo_shared in_memory demo_vault "eu-01" [demo_strategy]) as [_ H];
    [reflexivity..|].
  destruct (H demo_strategy) as [Hc _]; [by left|]. apply (Hc "main"). by left.
Defined.
