(* ===== verification/Admission.v ===== *)
(** * Who is ever given a lease or a credential

    An invariant of the controller of [Session.v]: while every agent registers
    under its own id and key, a session is given a lease or a credential only
    after an operator accepted the key of the agent behind it. The last section
    shows what happens when an agent claims the id of another. *)
From stdpp Require Import base gmap sets list strings sorting.
From Stdlib Require Import ZArith Lia.
From S2P Require Import Prelude Decimal Bytes Json Control Vault Approvals Catalog Registry Envelope Fleet Session.
Local Open Scope string_scope.
Local Open Scope list_scope.
Local Open Scope Z_scope.

Section Admission.
Context {D : Decimal} {J : Json} {SC : Scrape} {I : HashMapIter} {VC : VaultCodec} {AC : ApprovalCodec}
  {SE : SessionEnv} (policy : LeasePolicy).

(** The agent behind a session and the key fingerprint of an agent id. *)
Context (who : nat → string) (owner : string → string).

Definition is_authority (p : CommandPayload) : bool :=
  match p with LeaseGrant _ | LeaseRefresh _ | PushCredential _ => true | _ => false end.

Definition honest_frame (n : nat) (e : SignedEnvelope) : Prop :=
  match env_telemetry (envelope e) with
  | Some (Register agent _ _ pk _) =>
      agent = who n ∧ agent ≠ "" ∧ ∀ k, pk = Some k → key_fingerprint k = owner agent
  | _ => True
  end.

(** Agents register under their own id and key, one per session, and
    operators' own commands carry no lease and no credential. *)
Definition honest (x : Z * ControllerEvent) : Prop :=
  match x.2 with
  | OnSession n (Incoming _ _ e) => honest_frame n e
  | SendCommand _ cmd => is_authority cmd = false
  | _ => True
  end.

Section Invariant.
(** The fingerprints an operator has accepted so far. *)
Context (Ev : string → Prop).

Record session_ok (n : nat) (s : AgentSession) : Prop := {
  so_number : number s = n;
  so_agent id : s_agent s = Some id → id = who n;
  so_lease : is_Some (s_lease s) → Ev (owner (who n));
  so_granted : ApprovalGranted ∈ lifecycle s → Ev (owner (who n));
  so_inbox c : c ∈ inbox s → is_authority c = true → Ev (owner (who n));
  so_frames f p : f ∈ s_frames s → env_command (envelope f) = Some p → is_authority p = true →
    Ev (owner (who n));
}.

Record shared_ok (h : Shared) : Prop := {
  sh_store : ∃ a, approvals h = Some a ∧
    (∀ fp r, records a !! fp = Some r → agent_id r = "" ∨ fp = owner (agent_id r)) ∧
    (∀ fp, state_of a fp = Some Accepted → Ev fp);
  sh_routes id n : senders (routes h) !! id = Some n → id = who n ∧ id ≠ "";
  sh_fleet id v : fleet h !! id = Some v → av_agent_id v = id ∧ av_approval_state v ≠ "" ∧
    (av_approval_state v = "accepted" → Ev (owner id));
}.

Lemma session_ok_new n : session_ok n (session_new n).
Proof.
  split; simpl; try done.
  - by intros ?%elem_of_nil.
  - by intros c ?%elem_of_nil.
  - by intros f p ?%elem_of_nil.
Qed.

Lemma ok_push n now p s : session_ok n s → (is_authority p = true → Ev (owner (who n))) →
  session_ok n (push_command now p s).2.
Proof.
  intros [Hn Ha Hl Hg Hi Hf] Hp. split; simpl; try done.
  intros f q [Hfr| ->%list_elem_of_singleton]%elem_of_app; [by apply Hf|].
  simpl. intros [= <-]. done.
Qed.

Lemma ok_credentials n now cs s : session_ok n s → Ev (owner (who n)) →
  session_ok n (push_credentials now cs s).2.
Proof.
  revert s. induction cs as [|c cs IH]; intros s Hs He; [done|]. cbn [push_credentials].
  pose proof (ok_push n now (PushCredential c) s Hs (λ _, He)) as H1.
  destruct (push_command now (PushCredential c) s) as [[[]|e] s1]; [|done]. by apply IH.
Qed.

Lemma ok_set_lease n l s : session_ok n s → (is_Some l → Ev (owner (who n))) → session_ok n (set_lease l s).
Proof. intros [Hn Ha Hl Hg Hi Hf] Hv. by split. Qed.

Lemma ok_set_approval n st s : session_ok n s → session_ok n (set_approval st s).
Proof. intros [Hn Ha Hl Hg Hi Hf]. by split. Qed.

Lemma ok_close n s : session_ok n s → session_ok n (close_session s).
Proof. intros [Hn Ha Hl Hg Hi Hf]. by split. Qed.

Lemma ok_queues n q l s : session_ok n s →
  (ApprovalGranted ∈ l → ApprovalGranted ∈ lifecycle s ∨ Ev (owner (who n))) →
  (∀ c, c ∈ q → c ∈ inbox s ∨ (is_authority c = true → Ev (owner (who n)))) →
  session_ok n (set_queues q l s).
Proof.
  intros [Hn Ha Hl Hg Hi Hf] Hgl Hq. split; simpl; try done.
  - intros [?|?]%Hgl; [by apply Hg|done].
  - intros c [?|Hc]%Hq; [by apply Hi|done].
Qed.

(** A fleet update that keeps ids and states, or sets an earned state. *)
Lemma shared_alter id g h : shared_ok h →
  (∀ v, av_agent_id (g v) = av_agent_id v ∧ (av_approval_state (g v) = av_approval_state v ∨
    (av_approval_state (g v) ≠ "" ∧ (av_approval_state (g v) = "accepted" → Ev (owner id))))) →
  shared_ok (with_fleet (λ f, alter g id f) h).
Proof.
  intros [Hs Hr Hfl] Hg. split; simpl; [done|done|]. intros i v.
  rewrite lookup_alter_Some. intros [[-> (v0 & E & ->)]|[_ E]]; [|by apply Hfl].
  destruct (Hfl i v0 E) as (Hi & Hne & Hacc). destruct (Hg v0) as [-> [->|[? ?]]]; done.
Qed.

Lemma shared_note s f h : shared_ok h →
  (∀ id, s_agent s = Some id → shared_ok (with_fleet (f id) h)) → shared_ok (note_fleet s f h).
Proof. intros Hh Hf. unfold note_fleet. destruct (s_agent s); [by apply Hf|done]. Qed.

(** The updates that leave the approval state alone. *)
Lemma shared_note_kept s g h : shared_ok h →
  (∀ id v, av_agent_id (g id v) = av_agent_id v ∧ av_approval_state (g id v) = av_approval_state v) →
  shared_ok (note_fleet s (λ id f, alter (g id) id f) h).
Proof.
  intros Hh Hg. apply shared_note; [done|]. intros id _. apply shared_alter; [done|]. intros v.
  destruct (Hg id v). by split; [|left].
Qed.

Lemma ok_initial n now s h : session_ok n s → shared_ok h → Ev (owner (who n)) →
  let x := issue_initial_lease_and_credentials now policy s h in
  session_ok n x.1.2 ∧ shared_ok x.2.
Proof.
  intros Hs Hh He. unfold issue_initial_lease_and_credentials.
  set (lease := issue_fresh_lease now policy s). set (s1 := set_lease (Some lease) s).
  set (h1 := note_fleet s1 (λ id, update_lease now id lease) h).
  assert (Hs1 : session_ok n s1) by by apply ok_set_lease.
  assert (Hh1 : shared_ok h1) by by apply shared_note_kept.
  pose proof (ok_push n now (LeaseGrant lease) s1 Hs1 (λ _, He)) as H2.
  destruct (push_command now (LeaseGrant lease) s1) as [[[]|e] s2]; [|done].
  split; [|done]. simpl. by apply ok_credentials.
Qed.

(** ** Frames *)
Lemma ok_refresh n now id s h : session_ok n s → shared_ok h →
  let x := on_refresh_request now policy id s h in session_ok n x.1.2 ∧ shared_ok x.2.
Proof.
  intros Hs Hh. unfold on_refresh_request. destruct (negb (is_accepted (s_approval s))).
  { split; [|done]. by apply (ok_push n now (LeaseRevoke "approval revoked") s). }
  destruct (s_lease s) as [cur|] eqn:El; [|done]. destruct (negb _); [done|].
  destruct (_ <? _); [done|].
  assert (Ev (owner (who n))) as He by (apply (so_lease n s Hs); by rewrite El).
  split; [|by apply shared_note_kept].
  apply (ok_push n now (LeaseRefresh _) (set_lease (Some _) s)); [by apply ok_set_lease|done].
Qed.

(** A registration never accepts by itself. *)
Lemma register_store now ok fp id key a : (∀ f, state_of a f = Some Accepted → Ev f) →
  (∀ f r, records a !! f = Some r → agent_id r = "" ∨ f = owner (agent_id r)) → fp = owner id →
  let x := record_register now ok fp id key a in
  (x.1 = Accepted → Ev fp) ∧ (∀ f, state_of x.2 f = Some Accepted → Ev f) ∧
  ∀ f r, records x.2 !! f = Some r → agent_id r = "" ∨ f = owner (agent_id r).
Proof.
  intros Hst Hrec Hfp x. subst x.
  assert (Hs : ∀ f, state_of (record_register now ok fp id key a).2 f =
    spec_step f (state_of a f) (Approvals.Register fp id key)).
  { intros f. exact (step_state now ok (Approvals.Register fp id key) a f). }
  split; [|split].
  - intros Hx. apply Hst. unfold state_of. unfold record_register in Hx.
    destruct (records a !! fp) as [r|]; simpl in *; congruence.
  - intros f. rewrite Hs. unfold spec_step. simpl. case_decide; [|by apply Hst].
    destruct (state_of a f) as [st|] eqn:E; [|done]. intros [= ->]. by apply Hst.
  - intros f r. pose proof (step_lookup now ok (Approvals.Register fp id key) a f) as Hl. simpl in Hl.
    rewrite Hl. case_decide as Hd; [|by apply Hrec]. subst f. intros [= <-]. by right.
Qed.

Lemma as_str_accepted st : as_str st = "accepted" → st = Accepted.
Proof. by destruct st. Qed.
Lemma as_str_nonempty st : as_str st ≠ "".
Proof. by destruct st. Qed.

Lemma ok_register n now ok agent pv applied av pk s h : session_ok n s → shared_ok h →
  agent = who n → agent ≠ "" → (∀ k, pk = Some k → key_fingerprint k = owner agent) →
  let x := on_register_frame now ok policy agent pv applied av pk s h in
  session_ok n x.1.2 ∧ shared_ok x.2.
Proof.
  intros Hs Hh Hwho Hne Hkey. unfold on_register_frame.
  destruct (negb _); [done|]. destruct (negb _); [done|].
  destruct (sh_store h Hh) as (a & Ea & Hrec & Hst). unfold admission. rewrite Ea.
  destruct pk as [k|]; [|done].
  pose proof (register_store now ok (key_fingerprint k) agent (key_hex k) a Hst Hrec (Hkey k eq_refl)) as Hr.
  destruct (record_register now ok (key_fingerprint k) agent (key_hex k) a) as [st a1]. simpl in Hr.
  destruct Hr as (Hacc & Hst1 & Hrec1). rewrite (Hkey k eq_refl), Hwho in *.
  set (s1 := set_identity (who n) (Some (owner (who n))) st s).
  assert (Hs1 : session_ok n s1).
  { destruct Hs as [Hn Ha Hl Hg Hi Hf]. split; simpl; try done. by intros id [= <-]. }
  match goal with |- context [with_routes ?g (with_fleet ?f (with_store ?o h))] =>
    set (h1 := with_routes g (with_fleet f (with_store o h))) end.
  assert (Hh1 : shared_ok h1).
  { destruct Hh as [_ Hro Hfl]. split; simpl.
    - by exists a1.
    - intros id m. rewrite (so_number n s Hs), lookup_insert_Some. intros [[<- <-]|[_ E]]; [done|by apply Hro].
    - intros id v. unfold on_register_full. rewrite lookup_insert_Some. intros [[<- <-]|[_ E]]; [|by apply Hfl].
      simpl. assert (Hst' : ∀ o, non_empty_or (as_str st) o = as_str st).
      { intros o. unfold non_empty_or. by rewrite bool_decide_eq_false_2 by apply as_str_nonempty. }
      rewrite !Hst'.
      split; [|split; [apply as_str_nonempty|by intros ->%as_str_accepted; apply Hacc]].
      destruct (fleet h !! who n) as [v|] eqn:Ev0; [|done]. by destruct (Hfl _ _ Ev0). }
  destruct (is_accepted st) eqn:Eacc; [|done]. simpl negb. cbv iota.
  apply ok_initial; [done..|]. apply Hacc. by destruct st.
Qed.

Lemma ok_lifecycle n now ev s h : session_ok n s → shared_ok h → (ev = ApprovalGranted → Ev (owner (who n))) →
  let x := on_lifecycle now policy ev s h in session_ok n x.1.2 ∧ shared_ok x.2.
Proof.
  intros Hs Hh Hev. destruct ev as [|reason]; simpl; case_decide; try done.
  - apply ok_initial; [by apply ok_set_approval| |by apply Hev]. apply shared_note; [done|].
    intros id Hid. apply shared_alter; [done|]. intros v. split; [done|right]. simpl. split; [done|].
    intros _. rewrite (so_agent n s Hs id Hid). by apply Hev.
  - split.
    + apply (ok_push n now (LeaseRevoke reason)); [|done].
      apply ok_set_lease; [by apply ok_set_approval|by intros []].
    + apply shared_note; [done|]. intros id Hid. apply shared_alter; [done|]. intros v.
      split; [done|right]. by simpl.
Qed.
(** ** Turns of a session *)
Lemma ok_envelope n now ok heard e s h : session_ok n s → shared_ok h → honest_frame n e →
  let x := on_envelope now ok heard policy e s h in session_ok n x.1.2 ∧ shared_ok x.2.
Proof.
  intros Hs Hh He. unfold on_envelope, honest_frame in *.
  destruct (env_command (envelope e)); [done|]. destruct (env_telemetry (envelope e)) as [p|]; [|done].
  destruct p; try (split; [done|]; by apply shared_note_kept).
  - destruct He as (H1 & H2 & H3). by apply ok_register.
  - by apply ok_refresh.
  - split; [done|]. destruct Hh as [Hst Hr Hf]. split; [done| |done]. simpl.
    unfold resolve_pending_details. by case_decide.
Qed.

Lemma after_ok n (x : result unit SessionError * AgentSession * Shared) :
  session_ok n x.1.2 ∧ shared_ok x.2 →
  let y := match x with (Ok _, s, h) => (s, h) | (Err _, s, h) => (close_session s, h) end in
  session_ok n y.1 ∧ shared_ok y.2.
Proof. destruct x as [[[?|?] s] h]; intros [Hs Hh]; split; try done. by apply ok_close. Qed.

Lemma shared_disconnect id h : shared_ok h → shared_ok (with_routes (deregister id) (with_fleet (on_disconnect id) h)).
Proof.
  intros [Hst Hr Hf]. split; simpl; [done|..].
  - intros i n. rewrite lookup_delete_Some. intros [_ E]. by apply Hr.
  - intros i v. unfold on_disconnect. rewrite lookup_delete_Some. intros [_ E]. by apply Hf.
Qed.

Lemma ok_turn n now ev s h : session_ok n s → shared_ok h →
  match ev with Incoming _ _ e => honest_frame n e | _ => True end →
  let x := session_turn now policy ev s h in session_ok n x.1 ∧ shared_ok x.2.
Proof.
  intros Hs Hh He. destruct ev as [ok heard e| | | |]; unfold session_turn.
  - apply after_ok. by apply ok_envelope.
  - split; [by apply ok_close|]. destruct (s_agent s); [by apply shared_disconnect|done].
  - split; [by apply ok_close|done].
  - destruct (inbox s) as [|c q] eqn:Eq; [done|].
    assert (Hq : session_ok n (set_queues q (lifecycle s) s)).
    { apply ok_queues; [done|by left|]. intros c' Hc. left. rewrite Eq. by right. }
    pose proof (ok_push n now c _ Hq) as Hp.
    destruct (push_command now c _) as [r s1]. apply (after_ok n (r, s1, h)). split; [|done].
    apply Hp. intros Hc. apply (so_inbox n s Hs c); [rewrite Eq; by left|done].
  - destruct (lifecycle s) as [|ev q] eqn:Eq; [done|]. apply after_ok. apply ok_lifecycle; [|done|].
    + apply ok_queues; [done| |by left]. intros Hin. left. rewrite Eq. by right.
    + intros ->. apply (so_granted n s Hs). rewrite Eq. by left.
Qed.

(** ** The controller *)
Definition ctl_ok (c : Controller) : Prop :=
  shared_ok (shared c) ∧ ∀ n s, sessions c !! n = Some s → session_ok n s.

(** A push onto the queues of the session an agent id routes to. *)
Lemma ok_routed c agent n q l : ctl_ok c → route (live_sessions c) agent (routes (shared c)) = Ok n →
  (agent ≠ "" → ApprovalGranted ∈ l → Ev (owner agent)) →
  (∀ x, x ∈ q → is_authority x = true → Ev (owner agent)) →
  ctl_ok (mkController (shared c) (alter (λ s, set_queues (inbox s ++ q) (lifecycle s ++ l) s) n (sessions c))).
Proof.
  intros [Hh Hs] Hr Hl Hq. unfold route in Hr.
  destruct (senders _ !! agent) as [n'|] eqn:E; [|done]. case_decide; [|done]. injection Hr as ->.
  apply (sh_routes _ Hh) in E as [E Hne]. split; [done|]. intros m s. simpl.
  rewrite lookup_alter_Some. intros [[-> (s0 & E0 & ->)]|[_ E0]]; [|by apply Hs].
  apply Hs in E0. apply ok_queues; [done|..].
  - intros [?|?]%elem_of_app; [by left|right]. rewrite <- E. by apply Hl.
  - intros x [?|?]%elem_of_app; [by left|right]. rewrite <- E. by apply Hq.
Qed.

Lemma ok_nudge agent ev c : ctl_ok c → (agent ≠ "" → ev = ApprovalGranted → Ev (owner agent)) →
  ctl_ok (nudge agent ev c).
Proof.
  intros Hc Hev. unfold nudge. destruct (route _ _ _) as [n|] eqn:Er; [|done].
  pose proof (ok_routed c agent n [] [ev] Hc Er) as H.
  assert (E : alter (λ s, set_queues (inbox s) (lifecycle s ++ [ev]) s) n (sessions c) =
              alter (λ s, set_queues (inbox s ++ []) (lifecycle s ++ [ev]) s) n (sessions c)).
  { apply alter_ext. intros s _. by rewrite app_nil_r. }
  rewrite E. apply H; [|by intros x ?%elem_of_nil].
  intros Hne <-%list_elem_of_singleton. by apply Hev.
Qed.

Lemma ok_send agent cmd c : ctl_ok c → (is_authority cmd = true → Ev (owner agent)) →
  ctl_ok (send_command agent cmd c).2.
Proof.
  intros Hc Hcmd. unfold send_command. destruct (route _ _ _) as [n|] eqn:Er; [|done].
  pose proof (ok_routed c agent n [cmd] [] Hc Er) as H. simpl.
  assert (E : alter (λ s, set_queues (inbox s ++ [cmd]) (lifecycle s) s) n (sessions c) =
              alter (λ s, set_queues (inbox s ++ [cmd]) (lifecycle s ++ []) s) n (sessions c)).
  { apply alter_ext. intros s _. by rewrite app_nil_r. }
  rewrite E. apply H; [by intros _ ?%elem_of_nil|]. by intros x ->%list_elem_of_singleton.
Qed.

Lemma send_shared agent cmd c : shared (send_command agent cmd c).2 = shared c.
Proof. unfold send_command. by destruct (route _ _ _). Qed.
Lemma ok_push_credential cred v c : ctl_ok c → ctl_ok (push_credential_to_connected_agents cred v c).
Proof.
  intros Hc. unfold push_credential_to_connected_agents.
  assert (Hviews : ∀ x, x ∈ fleet_snapshot (fleet (shared c)) → av_approval_state x ≠ "" ∧
    (av_approval_state x = "accepted" → Ev (owner (av_agent_id x)))).
  { intros x Hx. unfold fleet_snapshot in Hx. rewrite sort_by_perm in Hx.
    apply hm_values_elem in Hx as [id E]. destruct Hc as [Hh _].
    apply (sh_fleet _ Hh) in E as (-> & Hne & Hacc). by split. }
  revert Hviews. generalize (fleet_snapshot (fleet (shared c))) as l. intros l. revert c Hc.
  induction l as [|x l IH]; intros c Hc Hl; [done|]. apply IH; [|by intros y Hy; apply Hl; right].
  destruct (Hl x ltac:(left)) as [Hne Hacc]. unfold push_to_agent.
  rewrite (bool_decide_eq_false_2 (av_approval_state x = "")) by done. simpl.
  destruct (bool_decide _) eqn:Eb; [|done]. apply bool_decide_eq_true in Eb.
  destruct (List.find _ _) as [pc|]; [|done]. apply ok_send; [done|]. intros _. by apply Hacc.
Qed.

Lemma ok_put_vault v c : ctl_ok c → ctl_ok (put_vault v c).
Proof. intros [[Hst Hr Hf] Hs]. split; [by split|done]. Qed.

Lemma ok_vault_written name x c : ctl_ok c → ctl_ok (vault_written name x c).
Proof.
  intros Hc%(ok_put_vault x.2). unfold vault_written.
  destruct x.1; [by apply ok_push_credential|done].
Qed.

Lemma ok_deploy now agent ds c : ctl_ok c → ctl_ok (deploy now agent ds c).2.
Proof.
  intros Hc. unfold deploy. destruct (pre_validate_deploy _ _ _ _); [|done].
  pose proof (ok_send agent (SetDesiredStrategies (inject_tenant (agent_tenant agent (shared c)) <$> ds)) c Hc) as H.
  destruct (send_command _ _ _) as [[[]|e] c']; by apply H.
Qed.

(** A store whose acceptances are all in [Ev] and whose records are the old
    ones, up to fields other than the agent id. *)
Lemma ok_put_store a a' c : ctl_ok c → approvals (shared c) = Some a →
  (∀ fp, state_of a' fp = Some Accepted → Ev fp) →
  (∀ fp r, records a' !! fp = Some r → agent_id r = "" ∨
    ∃ r0, records a !! fp = Some r0 ∧ agent_id r = agent_id r0) →
  ctl_ok (put_store a' c).
Proof.
  intros [[(a0 & Ea & Hrec & _) Hr Hf] Hs] Ea' Hst Hids. rewrite Ea in Ea'. injection Ea' as ->.
  split; [|done]. split; [|done|done]. exists a'. split; [done|]. split; [|done].
  intros fp r Hl. destruct (Hids fp r Hl) as [?|(r0 & Hl0 & ->)]; [by left|]. by apply Hrec.
Qed.

(** A decision: the new store must only hold acceptances of [Ev]. *)
Lemma ok_decided fp f ok ev a c : ctl_ok c → approvals (shared c) = Some a →
  (∀ r, agent_id (f r) = agent_id r) →
  let x := update_record ok fp f a in
  (∀ fp', state_of x.2 fp' = Some Accepted → Ev fp') →
  (ev = ApprovalGranted → ∀ r, ar_state (f r) = Accepted) →
  ctl_ok (decided x ev c).
Proof.
  intros Hctl Ea Hid x Hst Hev. destruct (sh_store _ (proj1 Hctl)) as (a' & Ea' & Hrec & _).
  rewrite Ea in Ea'. injection Ea' as <-.
  assert (Hl : ∀ fp', records x.2 !! fp' = if decide (fp = fp') then f <$> records a !! fp' else records a !! fp').
  { intros fp'. apply update_record_lookup. }
  assert (Hc : ctl_ok (put_store x.2 c)).
  { apply (ok_put_store a); [done..|]. intros fp' r. rewrite Hl. case_decide; [|by eauto].
    rewrite fmap_Some. intros (r0 & E & ->). right. by exists r0. }
  unfold decided. destruct x.1 as [r|e] eqn:Ex; [|done].
  apply ok_nudge; [done|]. intros Hne ->. subst x. unfold update_record in Ex.
  destruct (records a !! fp) as [r0|] eqn:E0; [|done].
  assert (r = f r0) as ->. { unfold persisted in Ex. destruct (persist _ _) as [[?|?] ?]; simpl in Ex; congruence. }
  rewrite Hid in *. destruct (Hrec _ _ E0) as [?|<-]; [done|]. apply Hst.
  unfold state_of. rewrite Hl, decide_True, E0 by done. simpl. by rewrite Hev.
Qed.

(** The keys the store has accepted at some state. *)
Definition accepted_in (c : Controller) (fp : string) : Prop :=
  ∃ a, approvals (shared c) = Some a ∧ state_of a fp = Some Accepted.

Lemma decided_approvals x ev c : approvals (shared (decided x ev c)) = Some x.2.
Proof. unfold decided, nudge. destruct x.1; [|done]. by destruct (route _ _ _). Qed.

Lemma ok_step c x : ctl_ok c → honest x → (∀ fp, accepted_in (controller_step policy c x) fp → Ev fp) →
  ctl_ok (controller_step policy c x).
Proof.
  intros Hc Hx Hacc. destruct x as [now ev]. unfold controller_step in *.
  destruct ev as [|n ev|ok fp actor|ok fp actor reason|ok fp actor reason|ok fp actor notes|ok fp p|ok fp|nonce ok e|nonce ok e|nonce ok name|agent ds|agent cmd].
  - destruct Hc as [Hh Hs]. split; [done|]. intros n s. cbn [sessions].
    rewrite lookup_insert_Some. intros [[<- <-]|[_ E]]; [apply session_ok_new|by apply Hs].
  - destruct (sessions c !! n) as [s|] eqn:Es; [|done]. destruct (s_open s); [|done].
    destruct Hc as [Hh Hs]. pose proof (ok_turn n now ev s (shared c) (Hs _ _ Es) Hh) as Ht.
    destruct (session_turn now policy ev s (shared c)) as [s1 h1].
    destruct Ht as [H1 H2]; [by destruct ev|]. split; [done|]. intros m s'. cbn [sessions].
    rewrite lookup_insert_Some. intros [[<- <-]|[_ E]]; [done|by apply Hs].
  - destruct (approvals (shared c)) as [a|] eqn:Ea; [|done]. apply (ok_decided fp _ ok _ a); [done..| |done].
    intros fp' H. apply Hacc. eexists. by rewrite decided_approvals.
  - destruct (approvals (shared c)) as [a|] eqn:Ea; [|done]. apply (ok_decided fp _ ok _ a); [done..| |done].
    intros fp' H. apply Hacc. eexists. by rewrite decided_approvals.
  - destruct (approvals (shared c)) as [a|] eqn:Ea; [|done]. apply (ok_decided fp _ ok _ a); [done..| |done].
    intros fp' H. apply Hacc. eexists. by rewrite decided_approvals.
  - destruct (approvals (shared c)) as [a|] eqn:Ea; [|done]. destruct (valid_fingerprint fp); [|done].
    apply (ok_put_store a); [done..| |].
    + intros fp' H. apply Hacc. by eexists.
    + intros fp' r. pose proof (step_lookup now ok (Approvals.PreApprove fp actor notes) a fp') as Hl.
      cbn [step target effect] in Hl. rewrite Hl. case_decide; [|by eauto].
      destruct (records a !! fp') as [r0|] eqn:E0; intros [= <-]; [by eauto|by left].
  - destruct (approvals (shared c)) as [a|] eqn:Ea; [|done].
    apply (ok_put_store a); [done..| |].
    + intros fp' H. apply Hacc. by eexists.
    + intros fp' r. unfold update_profile. rewrite update_record_lookup. case_decide; [|by eauto].
      rewrite fmap_Some. intros (r0 & E & ->). right. by exists r0.
  - destruct (approvals (shared c)) as [a|] eqn:Ea; [|done].
    apply (ok_put_store a); [done..| |].
    + intros fp' H. apply Hacc. by eexists.
    + intros fp' r. pose proof (step_lookup now ok (Approvals.Remove fp) a fp') as Hl.
      cbn [step target effect] in Hl. rewrite Hl. case_decide; [done|by eauto].
  - destruct (vault (shared c)); [|done]. by apply ok_vault_written.
  - destruct (vault (shared c)); [|done]. by apply ok_vault_written.
  - destruct (vault (shared c)); [|done]. by apply ok_put_vault.
  - by apply ok_deploy.
  - simpl in Hx. apply ok_send; [done|]. by rewrite Hx.
Qed.
End Invariant.

Lemma ctl_ok_mono (Ev Ev' : string → Prop) c : (∀ fp, Ev fp → Ev' fp) → ctl_ok Ev c → ctl_ok Ev' c.
Proof.
  intros H [[(a & Ea & Hrec & Hst) Hr Hf] Hs]. split; [split|].
  - exists a. eauto.
  - done.
  - intros id v E. destruct (Hf id v E) as (? & ? & ?). eauto.
  - intros n s E. destruct (Hs n s E) as [Hn Ha Hl Hg Hi Hfr]. split; eauto.
Qed.

Lemma controller_run_snoc xs x c :
  controller_run policy (xs ++ [x]) c = controller_step policy (controller_run policy xs c) x.
Proof. unfold controller_run. by rewrite fold_left_app. Qed.

(** An operator's acceptance of the key stood at some point of the run. *)
Definition ever (c : Controller) (xs : list (Z * ControllerEvent)) (fp : string) : Prop :=
  ∃ ys zs, xs = ys ++ zs ∧ accepted_in (controller_run policy ys c) fp.

Definition store_honest (a : ApprovalStore) : Prop :=
  ∀ fp r, records a !! fp = Some r → agent_id r = "" ∨ fp = owner (agent_id r).

Lemma ctl_ok_run xs a v : Forall honest xs → store_honest a →
  ctl_ok (ever (controller_new (Some a) v) xs) (controller_run policy xs (controller_new (Some a) v)).
Proof.
  intros Hxs Ha. induction xs as [|x xs IH] using rev_ind.
  - split; [split|]; simpl; [|done..]. exists a. split; [done|]. split; [done|]. intros fp E.
    exists [], []. split; [done|]. by exists a.
  - apply Forall_app in Hxs as [Hxs Hx]. rewrite Forall_singleton in Hx. rewrite controller_run_snoc. apply ok_step; [|done|].
    + apply (ctl_ok_mono (ever (controller_new (Some a) v) xs)); [|by apply IH].
      intros fp (ys & zs & -> & H). exists ys, (zs ++ [x]). by rewrite app_assoc.
    + intros fp H. exists (xs ++ [x]), []. by rewrite app_nil_r, controller_run_snoc.
Qed.

(** C35: A session is sent a lease, a refreshed lease or an exchange credential
    only after an operator accepted the key of the agent behind it: in every
    run of the controller, over any interleaving of the sessions' frames,
    disconnects, failed sends and operators' decisions, deployments and vault
    writes, where agents register under their own id and key. *)
Theorem authority_needs_acceptance xs a v (Hxs : Forall honest xs) (Ha : store_honest a) :
  let c0 := controller_new (Some a) v in
  ∀ n s f p, sessions (controller_run policy xs c0) !! n = Some s → f ∈ s_frames s →
    env_command (envelope f) = Some p → is_authority p = true →
    ever c0 xs (owner (who n)).
Proof.
  intros c0 n s f p Hs Hf Hp Hau. destruct (ctl_ok_run xs a v Hxs Ha) as [_ Hok].
  by apply (so_frames _ n s (Hok n s Hs) f p).
Qed.
End Admission.

(** ** The advertised id is trusted *)
Section Advertised.
Context {D : Decimal} {J : Json} {SC : Scrape} {I : HashMapIter} {VC : VaultCodec} {AC : ApprovalCodec}
  {SE : SessionEnv}.

Lemma push_credentials_frames now cs s f : f ∈ s_frames s → f ∈ s_frames (push_credentials now cs s).2.
Proof.
  revert s. induction cs as [|c cs IH]; intros s Hf; [done|]. cbn [push_credentials].
  assert (f ∈ s_frames (push_command now (PushCredential c) s).2) as H1 by (simpl; set_solver).
  destruct (push_command now (PushCredential c) s) as [[?|?] s1]; [by apply IH|done].
Qed.

Lemma initial_lease_sent now policy s h :
  ∃ f l, f ∈ s_frames (issue_initial_lease_and_credentials now policy s h).1.2 ∧
    env_command (envelope f) = Some (LeaseGrant l).
Proof.
  unfold issue_initial_lease_and_credentials. set (l := issue_fresh_lease now policy s).
  set (s1 := set_lease (Some l) s).
  exists (unsigned (command now (seq_next (cmd_seq s1)) (LeaseGrant l))), l. split; [|done].
  assert (H : unsigned (command now (seq_next (cmd_seq s1)) (LeaseGrant l)) ∈
    s_frames (push_command now (LeaseGrant l) s1).2) by (simpl; set_solver).
  destruct (push_command now (LeaseGrant l) s1) as [[?|?] s2]; [|done]. simpl.
  by apply push_credentials_frames.
Qed.

(** Accepting a key grants the session that last registered the record's agent
    id, whatever key that session showed: [n] may have registered with a key
    that was never accepted, and its lease follows. *)
Lemma grant_follows_advertised_id now policy fp actor c a r n s :
  approvals (shared c) = Some a → records a !! fp = Some r →
  route (live_sessions c) (agent_id r) (routes (shared c)) = Ok n →
  sessions c !! n = Some s → s_open s = true → lifecycle s = [] → s_approval s ≠ Accepted →
  ∃ s' f l, sessions (controller_run policy [(now, AcceptAgent true fp actor); (now, OnSession n Lifecycle)] c) !! n
      = Some s' ∧ f ∈ s_frames s' ∧ env_command (envelope f) = Some (LeaseGrant l).
Proof.
  intros Ea Er Hroute Es Hopen Hq Hst.
  unfold controller_run. cbn [fold_left]. unfold controller_step at 2. rewrite Ea.
  unfold decided, accept, update_record. rewrite Er.
  assert (Hp : ∀ b (x : ApprovalRecord), (persisted true x b).1 = Ok x).
  { intros b x. unfold persisted, persist. by destruct (sto_file b). }
  rewrite Hp. unfold nudge. cbn [put_store shared sessions with_store routes].
  change (live_sessions (put_store _ c)) with (live_sessions c).
  change (agent_id (accept_record now actor r)) with (agent_id r). rewrite Hroute. unfold controller_step. cbn [sessions shared]. rewrite lookup_alter_eq, Es. cbn [fmap option_fmap option_map].
  cbn [s_open set_queues]. rewrite Hopen. unfold session_turn. cbn [lifecycle set_queues]. rewrite Hq.
  cbn [app]. unfold on_lifecycle. rewrite decide_False by done.
  match goal with |- context [issue_initial_lease_and_credentials now policy ?s1 ?h1] =>
    destruct (initial_lease_sent now policy s1 h1) as (f & l & Hf & Hl);
    destruct (issue_initial_lease_and_credentials now policy s1 h1) as [[[?|?] s2] h2] end;
  cbn [fst snd] in Hf; cbn [sessions]; rewrite lookup_insert_eq; eexists _, f, l; done.
Qed.
End Advertised.

(** ** A concrete run *)
Module AdmissionDemo.
#[export] Instance quiet : Scrape := {|
  metrics := unit; scrape _ := tt; dash_venue s := s; dash_product s := s |}.

(** Versions are lengths, a key's texts have a character per byte, and every
    send succeeds. *)
Definition key_text (k : list Z) : string :=
  String.string_of_list_ascii ((λ b, Ascii.ascii_of_N (Z.to_N b)) <$> k).

#[export] Instance demo_env : SessionEnv := {|
  version := nat; parse_version s := Some (String.length s); version_ltb := Nat.ltb;
  key_fingerprint := key_text; key_hex := key_text;
  fresh_uuid n k := N.of_nat (n + k); session_send _ _ := true |}.

Definition demo_policy : LeasePolicy := mkPolicy 30000 1000 None None.

Definition demo_register : SignedEnvelope :=
  unsigned (telemetry 0 1 (Register "eu-01" 0 PROTOCOL_VERSION (Some [97; 98; 99]) "0.4.0")).

Definition demo_events : list (Z * ControllerEvent) :=
  [(0, AcceptSession); (1, OnSession 0 (Incoming true true demo_register));
   (2, AcceptAgent true "abc" "op"); (3, OnSession 0 Lifecycle)].

Definition is_grant (f : SignedEnvelope) : bool :=
  match env_command (envelope f) with Some p => is_authority p | None => false end.
End AdmissionDemo.
Import AdmissionDemo.

Lemma authority_needs_acceptance_witness :
  let c0 := controller_new (Some in_memory) None in
  ∃ s f p, sessions (controller_run demo_policy demo_events c0) !! 0%nat = Some s ∧ f ∈ s_frames s ∧
    env_command (envelope f) = Some p ∧ is_authority p = true ∧ ever demo_policy c0 demo_events "abc".
Proof.
  intros c0.
  assert (Hd : ∃ s f p, sessions (controller_run demo_policy demo_events c0) !! 0%nat = Some s ∧
    f ∈ s_frames s ∧ env_command (envelope f) = Some p ∧ is_authority p = true).
  { assert (Hb : match sessions (controller_run demo_policy demo_events c0) !! 0%nat with
      | Some s => existsb is_grant (s_frames s) | None => false end = true) by (vm_compute; reflexivity).
    destruct (sessions _ !! 0%nat) as [s|]; [|discriminate].
    apply existsb_exists in Hb as (f & Hf & Hg). unfold is_grant in Hg.
    destruct (env_command (envelope f)) as [p|] eqn:Ep; [|discriminate].
    exists s, f, p. split; [done|]. split; [by apply list_elem_of_In|]. by split. }
  destruct Hd as (s & f & p & Hs & Hf & Hp & Ha). exists s, f, p. do 4 (split; [done|]).
  refine (authority_needs_acceptance demo_policy (λ _, "eu-01") (λ _, "abc") demo_events in_memory None
    _ _ 0%nat s f p Hs Hf Hp Ha).
  - repeat constructor; [done|]. intros k [= <-]. reflexivity.
  - intros fp r E. discriminate.
Defined.
