(* ===== verification/Operator.v ===== *)
(** * Operators' commands ([crates/controller/src/http.rs])

    The handlers that change a running deployment: the operations of the
    dashboard (kill ladder, pause, emulated orders, DCA, graph swap), for one
    deployment or the fleet, the patch of its variables, the old
    single-engine configuration call and the headline broadcast. Each becomes
    patches of variables sent to sessions; the agent ([Registry.v]) turns a
    patch into commands of the engine. *)
From stdpp Require Import base gmap sets list strings sorting.
From Stdlib Require Import ZArith Lia.
From S2P Require Import Prelude Decimal Types KillSwitch Bytes Json Control Vault Approvals Catalog Registry Envelope Fleet Session.
Local Open Scope string_scope.
Local Open Scope list_scope.
Local Open Scope Z_scope.

Section Patches.
Context {J : Json}.

Record OpBody := mkOpBody {
  op_reason : string;
  op_spec : option json;
  op_id : option Z;
  op_graph : option json;
}.

Definition OpBody_default : OpBody := mkOpBody "" None None None.

Definition reason_or_default (b : OpBody) : string :=
  if is_blank (op_reason b) then "dashboard operator" else op_reason b.

Definition kill_patch (level : Z) (b : OpBody) : json_map :=
  <["kill_reason" := json_string (reason_or_default b)]> {["kill_level" := json_u64 level]}.

Definition op_to_variables_patch (op : string) (b : OpBody) : result json_map string :=
  if bool_decide (op = "widen") then Ok (kill_patch 1 b)
  else if bool_decide (op = "stop") then Ok (kill_patch 2 b)
  else if bool_decide (op = "cancel-all") then Ok (kill_patch 3 b)
  else if bool_decide (op = "flatten") then Ok (kill_patch 4 b)
  else if bool_decide (op = "disconnect") then Ok (kill_patch 5 b)
  else if bool_decide (op = "reset") then Ok {["kill_reset_reason" := json_string (reason_or_default b)]}
  else if bool_decide (op = "pause") then Ok {["paused" := json_bool true]}
  else if bool_decide (op = "resume") then Ok {["paused" := json_bool false]}
  else if bool_decide (op = "emulator-register") then
    match op_spec b with
    | Some spec => Ok {["emulator_spec" := json_string (json_text spec)]}
    | None => Err "emulator-register requires body.spec"
    end
  else if bool_decide (op = "emulator-cancel") then
    match op_id b with
    | Some id => Ok {["emulator_cancel_id" := json_u64 id]}
    | None => Err "emulator-cancel requires body.id"
    end
  else if bool_decide (op = "dca-start") then
    match op_spec b with
    | Some spec => Ok {["dca_spec" := json_string (json_text spec)]}
    | None => Err "dca-start requires body.spec"
    end
  else if bool_decide (op = "dca-cancel") then Ok {["dca_cancel" := json_bool true]}
  else if bool_decide (op = "graph-swap") then
    match op_graph b with
    | Some g => Ok {["strategy_graph" := json_string (json_text g)]}
    | None => Err "graph-swap requires body.graph"
    end
  else Err ("unknown op '" +:+ op +:+ "'").

Definition truthy (v : string) : bool := bool_decide (v = "true") || bool_decide (v = "1").

Definition legacy_config_to_variable (field value : string) : option (string * json) :=
  if bool_decide (field = "Gamma") then Some ("gamma", json_string value)
  else if bool_decide (field = "MinSpreadBps") then Some ("min_spread_bps", json_string value)
  else if bool_decide (field = "OrderSize") then Some ("order_size", json_string value)
  else if bool_decide (field = "MaxDistanceBps") then Some ("max_distance_bps", json_string value)
  else if bool_decide (field = "NumLevels") then (λ n, ("num_levels", json_u64 n)) <$> parse_u64 value
  else if bool_decide (field = "MomentumEnabled") then Some ("momentum_enabled", json_bool (truthy value))
  else if bool_decide (field = "MarketResilienceEnabled")
  then Some ("market_resilience_enabled", json_bool (truthy value))
  else if bool_decide (field = "AmendEnabled") then Some ("amend_enabled", json_bool (truthy value))
  else if bool_decide (field = "AmendMaxTicks") then (λ n, ("amend_max_ticks", json_u64 n)) <$> parse_u64 value
  else if bool_decide (field = "OtrEnabled") then Some ("otr_enabled", json_bool (truthy value))
  else if bool_decide (field = "MaxInventory") then Some ("max_inventory", json_string value)
  else if bool_decide (field = "PauseQuoting") then Some ("paused", json_bool true)
  else if bool_decide (field = "ResumeQuoting") then Some ("paused", json_bool false)
  else None.
End Patches.

(** ** Handlers *)
Inductive OpError :=
| OpNotAccepted (state : string)
| OpInvalid (msg : string)
| OpNoMapping (field : string)
| OpNoDeployment (symbol : string)
| OpRoute (e : RegistryError).

Section Handlers.
Context {D : Decimal} {J : Json} {SC : Scrape} {I : HashMapIter} {VC : VaultCodec} {AC : ApprovalCodec}.

(** A state the handlers let pass. *)
Definition open_state (state : string) : bool := bool_decide (state = "") || bool_decide (state = "accepted").

(** The gate on an agent: the state that stops the request. *)
Definition blocked (h : Shared) (agent : string) : option string :=
  match fleet_get (fleet h) agent with
  | Some view => if open_state (av_approval_state view) then None else Some (av_approval_state view)
  | None => None
  end.

Definition send_patch_to (agent deployment : string) (patch : json_map) (c : Controller) :
    result unit OpError * Controller :=
  match send_command agent (PatchDeploymentVariables deployment patch) c with
  | (Err e, c) => (Err (OpRoute e), c)
  | (Ok _, c) => (Ok tt, c)
  end.

(** The number of patched fields. *)
Definition patch_deployment_variables (agent deployment : string) (body : json_map) (c : Controller) :
    result nat OpError * Controller :=
  match (if bool_decide (is_Some (approvals (shared c))) then blocked (shared c) agent else None) with
  | Some st => (Err (OpNotAccepted st), c)
  | None =>
      match send_patch_to agent deployment body c with
      | (Err e, c) => (Err e, c)
      | (Ok _, c) => (Ok (size body), c)
      end
  end.

Definition post_deployment_op (agent deployment op : string) (body : option OpBody) (c : Controller) :
    result unit OpError * Controller :=
  match blocked (shared c) agent with
  | Some st => (Err (OpNotAccepted st), c)
  | None =>
      match op_to_variables_patch op (default OpBody_default body) with
      | Err m => (Err (OpInvalid m), c)
      | Ok patch => send_patch_to agent deployment patch c
      end
  end.

(** The first deployment of the symbol, in the order of the fleet view. *)
Definition find_deployment_for_symbol (h : Shared) (symbol : string) : option (string * string) :=
  head (x ← fleet_snapshot (fleet h);
        (λ d, (av_agent_id x, row_deployment_id d)) <$>
          filter (λ d, row_symbol d = symbol) (av_deployments x)).

Definition post_admin_config_proxy (symbol field value : string) (c : Controller) :
    result (string * string) OpError * Controller :=
  match legacy_config_to_variable field value with
  | None => (Err (OpNoMapping field), c)
  | Some (k, v) =>
      match find_deployment_for_symbol (shared c) symbol with
      | None => (Err (OpNoDeployment symbol), c)
      | Some (agent, deployment) =>
          match send_patch_to agent deployment {[k := v]} c with
          | (Err e, c) => (Err e, c)
          | (Ok _, c) => (Ok (agent, deployment), c)
          end
      end
  end.

(** *** The whole fleet *)
Record FleetOpResult := mkFleetOpResult {
  fo_agent : string;
  fo_deployment : string;
  fo_symbol : string;
  fo_error : option RegistryError;
}.

(** The running deployments of the accepted agents. *)
Definition fleet_targets (h : Shared) : list (string * DeploymentStateRow) :=
  x ← filter (λ v, open_state (av_approval_state v) = true) (fleet_snapshot (fleet h));
  pair (av_agent_id x) <$> filter (λ d, row_running d = true) (av_deployments x).

Fixpoint fan_out (patch : json_map) (ts : list (string * DeploymentStateRow)) (c : Controller) :
    list FleetOpResult * Controller :=
  match ts with
  | [] => ([], c)
  | (agent, d) :: ts =>
      let '(r, c) := send_command agent (PatchDeploymentVariables (row_deployment_id d) patch) c in
      let '(rest, c) := fan_out patch ts c in
      (mkFleetOpResult agent (row_deployment_id d) (row_symbol d)
         (match r with Ok _ => None | Err e => Some e end) :: rest, c)
  end.

Definition fleet_safe : list string := ["pause"; "resume"].

Definition post_fleet_op (op : string) (body : option OpBody) (c : Controller) :
    result (list FleetOpResult) OpError * Controller :=
  if negb (bool_decide (op ∈ fleet_safe)) then (Err (OpInvalid op), c)
  else
    match op_to_variables_patch op (default OpBody_default body) with
    | Err m => (Err (OpInvalid m), c)
    | Ok patch => let '(rs, c) := fan_out patch (fleet_targets (shared c)) c in (Ok rs, c)
    end.

(** The recipients and the failures. *)
Definition post_sentiment_headline (text : string) (c : Controller) :
    result (nat * list FleetOpResult) OpError * Controller :=
  if is_blank text then (Err (OpInvalid "empty text"), c)
  else
    let '(rs, c) := fan_out {["news" := json_string text]} (fleet_targets (shared c)) c in
    (Ok (length (filter (λ r, fo_error r = None) rs), filter (λ r, is_Some (fo_error r)) rs), c).
End Handlers.

(** ** What an operation means *)
Section Meaning.
Context {D : Decimal} {J : Json} {JD : JsonDecimal} {SC : Scrape} {I : HashMapIter} {VC : VaultCodec}
  {AC : ApprovalCodec}.

(** The kill ladder by the operation's name. *)
Definition kill_rung (op : string) : option Z :=
  if bool_decide (op = "widen") then Some 1 else if bool_decide (op = "stop") then Some 2
  else if bool_decide (op = "cancel-all") then Some 3 else if bool_decide (op = "flatten") then Some 4
  else if bool_decide (op = "disconnect") then Some 5 else None.

(** The engine command an operation asks for. *)
Definition op_meaning (op : string) (b : OpBody) : option ConfigOverride :=
  match kill_rung op with
  | Some level => Some (ManualKillSwitch level (reason_or_default b))
  | None =>
      if bool_decide (op = "reset") then Some (ManualKillSwitchReset (reason_or_default b))
      else if bool_decide (op = "pause") then Some PauseQuoting
      else if bool_decide (op = "resume") then Some ResumeQuoting
      else if bool_decide (op = "emulator-register") then RegisterEmulatedOrder ∘ json_text <$> op_spec b
      else if bool_decide (op = "emulator-cancel") then CancelEmulatedOrder <$> op_id b
      else if bool_decide (op = "dca-start") then StartDcaReduction ∘ json_text <$> op_spec b
      else if bool_decide (op = "dca-cancel") then Some CancelDcaReduction
      else if bool_decide (op = "graph-swap") then StrategyGraphSwap ∘ json_text <$> op_graph b
      else None
  end.

(** The engine commands an agent draws from a patch. *)
Definition engine_commands (patch : json_map) : list ConfigOverride :=
  option_list (compose_multi_key_override patch) ++
  translations (filter (λ kv, kv.1 ∉ multi_key_consumed_names) (map_iter patch)).

Context {L : JsonLaws J}.

Lemma map_iter_singleton k v : map_iter {[k := v]} = [(k, v)].
Proof. unfold map_iter. by rewrite map_to_list_singleton. Qed.

(** A patch of one ordinary variable. *)
Lemma engine_commands_one k v : k ∉ multi_key_consumed_names →
  engine_commands {[k := v]} = option_list (translate_variable_override k v).
Proof.
  intros Hk. unfold engine_commands, compose_multi_key_override. rewrite map_iter_singleton.
  rewrite !lookup_singleton_ne by (intros ->; apply Hk; set_solver). simpl.
  rewrite filter_cons_True by done. simpl. by destruct (translate_variable_override k v).
Qed.

Ltac one_key :=
  rewrite engine_commands_one by set_solver; unfold translate_variable_override;
  rewrite ?as_str_string, ?as_bool_bool; reflexivity.

(** A patch of multi-key names only. *)
Lemma engine_commands_multi patch o : (∀ k, is_Some (patch !! k) → k ∈ multi_key_consumed_names) →
  compose_multi_key_override patch = Some o → engine_commands patch = [o].
Proof.
  intros Hk Ho. unfold engine_commands. rewrite Ho. simpl. f_equal.
  destruct (filter _ _) as [|kv l] eqn:E; [done|]. exfalso.
  assert (kv ∈ filter (λ kv, kv.1 ∉ multi_key_consumed_names) (map_iter patch)) as Hin by (rewrite E; by left).
  apply list_elem_of_filter in Hin as [Hno Hin]. destruct kv as [k v]. apply map_iter_elem in Hin. eauto.
Qed.

Lemma engine_commands_kill level b : 0 ≤ level < 256 →
  engine_commands (kill_patch level b) = [ManualKillSwitch level (reason_or_default b)].
Proof.
  intros Hl. apply engine_commands_multi.
  - intros k. unfold kill_patch. rewrite lookup_insert_is_Some, lookup_singleton_is_Some.
    intros [<-|[_ <-]]; set_solver.
  - unfold compose_multi_key_override, kill_patch.
    rewrite lookup_insert_ne, lookup_singleton_eq, lookup_insert_eq by done.
    rewrite as_u64_u64 by (unfold u64_max; lia). simpl. rewrite as_str_string. simpl.
    by rewrite Z.mod_small.
Qed.

Lemma engine_commands_reset b :
  engine_commands {["kill_reset_reason" := json_string (reason_or_default b)]} =
    [ManualKillSwitchReset (reason_or_default b)].
Proof.
  apply engine_commands_multi.
  - intros k. rewrite lookup_singleton_is_Some. intros <-. set_solver.
  - unfold compose_multi_key_override. rewrite lookup_singleton_ne, lookup_singleton_eq by done.
    by rewrite as_str_string.
Qed.

(** The patch of an operation is the command it means, and nothing else; an
    operation that means nothing is refused. *)
Lemma op_patch_meaning op b : (∀ id, op_id b = Some id → 0 ≤ id ≤ u64_max) →
  match op_to_variables_patch op b with
  | Ok patch => ∃ o, op_meaning op b = Some o ∧ engine_commands patch = [o]
  | Err _ => op_meaning op b = None
  end.
Proof.
  intros Hid. unfold op_to_variables_patch, op_meaning, kill_rung.
  repeat match goal with |- context [bool_decide (op = ?x)] =>
    destruct (bool_decide (op = x)) eqn:?E end.
  all: try (eexists; split; [done|]; apply engine_commands_kill; lia).
  all: try (eexists; split; [done|]; apply engine_commands_reset).
  all: try (eexists; split; [done|]; one_key).
  - destruct (op_spec b); [eexists; split; [done|]; one_key|done].
  - destruct (op_id b) as [id|]; [|done]. eexists. split; [done|].
    rewrite engine_commands_one by set_solver. unfold translate_variable_override.
    by rewrite as_u64_u64 by eauto.
  - destruct (op_spec b); [eexists; split; [done|]; one_key|done].
  - destruct (op_graph b); [eexists; split; [done|]; one_key|done].
  - done.
Qed.
End Meaning.

(** ** The engine's kill switch ([crates/engine/src/market_maker.rs]) *)
Section KillArms.
Context {D : Decimal} {J : Json} {C : Clock}.

(** The two kill-switch arms of [apply_config_override]. *)
Definition kill_override (now : instant) (o : ConfigOverride) (k : KillSwitch.KillSwitch) :
    KillSwitch.KillSwitch :=
  match o with
  | ManualKillSwitch level reason =>
      if level =? 1 then KillSwitch.manual_trigger KillSwitch.WidenSpreads reason now k
      else if level =? 2 then KillSwitch.manual_trigger KillSwitch.StopNewOrders reason now k
      else if level =? 3 then KillSwitch.manual_trigger KillSwitch.CancelAll reason now k
      else if level =? 4 then KillSwitch.manual_trigger KillSwitch.FlattenAll reason now k
      else if level =? 5 then KillSwitch.manual_trigger KillSwitch.Disconnect reason now k
      else k
  | ManualKillSwitchReset _ => KillSwitch.reset k
  | _ => k
  end.

Lemma kill_rung_reached op b rung o now k : kill_rung op = Some rung → op_meaning op b = Some o →
  KillSwitch.level_rank (KillSwitch.current_level (kill_override now o k)) = rung.
Proof.
  intros Hr. unfold op_meaning. rewrite Hr. intros [= <-]. revert Hr. unfold kill_rung.
  repeat case_bool_decide; by intros [= <-].
Qed.
End KillArms.

(** ** From the dashboard to the engine *)
Section EndToEnd.
Context {D : Decimal} {J : Json} {JD : JsonDecimal} {SC : Scrape} {I : HashMapIter} {VC : VaultCodec}
  {AC : ApprovalCodec} {C : Clock} {L : JsonLaws J}.

(** An operation on a deployment of a connected agent is refused when it
    means nothing, and otherwise leaves one patch in the queue of the agent's
    session which the agent turns into exactly the one engine command the
    operation means; an operation of the kill ladder leaves the engine's kill
    switch at its own rung. *)
Theorem operator_op_reaches_engine agent dep op body c n s
  (Hgate : blocked (shared c) agent = None)
  (Hroute : route (live_sessions c) agent (routes (shared c)) = Ok n)
  (Hs : sessions c !! n = Some s)
  (Hid : ∀ b id, body = Some b → op_id b = Some id → 0 ≤ id ≤ u64_max) :
  match op_meaning op (default OpBody_default body) with
  | None => ∃ m, post_deployment_op agent dep op body c = (Err (OpInvalid m), c)
  | Some o => ∃ patch c', post_deployment_op agent dep op body c = (Ok tt, c') ∧
      sessions c' !! n =
        Some (set_queues (inbox s ++ [PatchDeploymentVariables dep patch]) (lifecycle s) s) ∧
      (∀ r e tx, running r !! dep = Some e → config_override_tx e = Some tx → tx ∈ alive (tasks r) →
        sent (tasks (patch_variables dep patch r).2) = sent (tasks r) ++ [(tx, o)]) ∧
      ∀ rung now k, kill_rung op = Some rung →
        KillSwitch.level_rank (KillSwitch.current_level (kill_override now o k)) = rung
  end.
Proof.
  set (b := default OpBody_default body).
  assert (Hb : ∀ id, op_id b = Some id → 0 ≤ id ≤ u64_max).
  { intros id. destruct body as [b'|]; [by apply Hid|done]. }
  pose proof (op_patch_meaning op b Hb) as Hp. unfold post_deployment_op. fold b. rewrite Hgate.
  destruct (op_to_variables_patch op b) as [patch|m]; [|rewrite Hp; by exists m].
  destruct Hp as (o & Ho & Hcmd). rewrite Ho. unfold send_patch_to, send_command. rewrite Hroute.
  eexists patch, _. split; [done|]. split; [simpl; by rewrite lookup_alter_eq, Hs|]. split.
  - intros r e tx He Htx Ha. destruct (patch_reaches_engine dep patch r e tx He Htx Ha) as (_ & _ & ->).
    unfold engine_commands in Hcmd. by rewrite Hcmd.
  - intros rung now k Hr. by apply (kill_rung_reached op b).
Qed.

(** ** The old configuration call *)

(** The command a field of the single-engine call meant. *)
Definition decimal_of (v : string) : option dec :=
  match parse_decimal v with Ok d => Some d | Err _ => None end.
Definition legacy_meaning (field value : string) : option ConfigOverride :=
  if bool_decide (field = "Gamma") then Gamma <$> decimal_of value
  else if bool_decide (field = "MinSpreadBps") then MinSpreadBps <$> decimal_of value
  else if bool_decide (field = "OrderSize") then OrderSize <$> decimal_of value
  else if bool_decide (field = "MaxDistanceBps") then MaxDistanceBps <$> decimal_of value
  else if bool_decide (field = "NumLevels") then NumLevels <$> parse_u64 value
  else if bool_decide (field = "MomentumEnabled") then Some (MomentumEnabled (truthy value))
  else if bool_decide (field = "MarketResilienceEnabled") then Some (MarketResilienceEnabled (truthy value))
  else if bool_decide (field = "AmendEnabled") then Some (AmendEnabled (truthy value))
  else if bool_decide (field = "AmendMaxTicks") then AmendMaxTicks ∘ wrap_u32 <$> parse_u64 value
  else if bool_decide (field = "OtrEnabled") then Some (OtrEnabled (truthy value))
  else if bool_decide (field = "MaxInventory") then MaxInventory <$> decimal_of value
  else if bool_decide (field = "PauseQuoting") then Some PauseQuoting
  else if bool_decide (field = "ResumeQuoting") then Some ResumeQuoting
  else None.

Lemma as_decimal_string v : as_decimal (json_string v) = decimal_of v.
Proof. unfold as_decimal, decimal_of. by rewrite as_str_string. Qed.

(** Every field the controller translates is one the agent translates back,
    to the command of that name with that value; a number that does not parse
    is refused by the controller for the integers and dropped by the agent for
    the decimals. *)
Lemma legacy_patch_meaning field value k v : legacy_config_to_variable field value = Some (k, v) →
  engine_commands {[k := v]} = option_list (legacy_meaning field value).
Proof.
  unfold legacy_config_to_variable, legacy_meaning.
  repeat match goal with |- context [bool_decide (field = ?x)] =>
    destruct (bool_decide (field = x)) eqn:?E end; try (by intros [=]).
  all: try (intros [= <- <-]; rewrite engine_commands_one by set_solver; unfold translate_variable_override;
    rewrite ?as_decimal_string, ?as_bool_bool; reflexivity).
  all: destruct (parse_u64 value) as [n|] eqn:Ev; intros [= <- <-];
    rewrite engine_commands_one by set_solver; unfold translate_variable_override, as_u32;
    by rewrite as_u64_u64 by (by apply (parse_uint_range u64_max value)).
Qed.
End EndToEnd.

(** ** A concrete operation *)
Module OperatorDemo.
#[export] Instance still : Scrape := {|
  metrics := unit; scrape _ := tt; dash_venue s := s; dash_product s := s |}.

Definition demo_controller : Controller :=
  mkController (mkShared ∅ (route_register "eu-01" 0 agent_registry_new) None None) {[0%nat := session_new 0]}.
End OperatorDemo.
Import OperatorDemo.

Lemma operator_op_reaches_engine_witness :
  ∃ patch c', post_deployment_op "eu-01" "d1" "flatten" None demo_controller = (Ok tt, c') ∧
    sessions c' !! 0%nat =
      Some (set_queues [PatchDeploymentVariables "d1" patch] [] (session_new 0)) ∧
    KillSwitch.level_rank (KillSwitch.current_level
      (kill_override (sec 5) (ManualKillSwitch 4 "dashboard operator")
        (KillSwitch.new KillSwitch.KillSwitchConfig_default (sec 0)))) = 4.
Proof.
  destruct (operator_op_reaches_engine "eu-01" "d1" "flatten" None demo_controller 0 (session_new 0))
    as (patch & c' & Hop & Hs & _ & Hk); [reflexivity..|discriminate|].
  exists patch, c'. split; [exact Hop|]. split; [exact Hs|]. exact (Hk 4 _ _ eq_refl).
Defined.
