(* ===== verification/Agent.v ===== *)
(** * The agent's control session ([crates/agent/src/lib.rs], [LeaseClient])

    One session: register, then a loop that checks the lease, waits for a
    command, a timeout or the end of the channel, and answers. A turn of the
    loop is the definition [pump_turn], its input the two clocks it reads and
    what [recv] gave; [run] is a whole session. The transport answers the
    n-th send as [send_answer n] says and keeps every frame handed to it. The
    locks are held by no one else. *)
From stdpp Require Import base gmap sets list strings sorting.
From Stdlib Require Import ZArith Lia.
From S2P Require Import Prelude Decimal Bytes Json Control Catalog Registry Envelope.
Local Open Scope string_scope.
Local Open Scope list_scope.
Local Open Scope Z_scope.

Inductive TransportError := Closed | Io (msg : string) | Encode (msg : string).

Inductive AgentError :=
| Transport (e : TransportError)
| RegistrationRejected
| BadEnvelope
| AuthorityLost (why : string).

Section Agent.
Context {D : Decimal} {J : Json} {JD : JsonDecimal} {I : HashMapIter} {F : EngineFactory}
  {CH : ConfigHash} {SC : Scrape}.

(** The dashboard's tenants: [register_client] adds the client and points the
    symbols at it. *)
Record Tenants := mkTenants { clients : gset string; symbol_to_client : gmap string string }.

Definition register_client (client : string) (symbols : list string) (t : Tenants) : Tenants :=
  mkTenants ({[client]} ∪ clients t)
    (fold_left (λ m s, <[s := client]> m) symbols (symbol_to_client t)).

(** What the details handlers assemble for a topic of a symbol. *)
Class Details := {
  serve_topic : string → string → json_map → json * option string;
}.
Context {DT : Details}.

Class Link := { send_answer : nat → result unit TransportError }.
Context {LK : Link}.

(** [refresh_offset total] is [(total as f32 * refresh_at_fraction) as i64]. *)
Class AgentConfig := {
  agent_name : string;
  agent_version : string;
  refresh_offset : Z → Z;
}.
Context {AC : AgentConfig}.

Record LeaseClient := mkClient {
  cursor : Cursor;
  published : LeaseState;
  current_lease : option LeaderLease;
  registry : option StrategyRegistry;
  catalog : option CredentialCatalog;
  identity : option (list Z);
  dashboard : option Tenants;
  frames : list SignedEnvelope;
}.

Definition with_cursor (k : Cursor) (c : LeaseClient) : LeaseClient :=
  mkClient k (published c) (current_lease c) (registry c) (catalog c) (identity c) (dashboard c) (frames c).
Definition with_lease (l : LeaderLease) (c : LeaseClient) : LeaseClient :=
  mkClient (cursor c) (Held l) (Some l) (registry c) (catalog c) (identity c) (dashboard c) (frames c).
Definition with_published (st : LeaseState) (c : LeaseClient) : LeaseClient :=
  mkClient (cursor c) st (current_lease c) (registry c) (catalog c) (identity c) (dashboard c) (frames c).
Definition with_registry (r : option StrategyRegistry) (c : LeaseClient) : LeaseClient :=
  mkClient (cursor c) (published c) (current_lease c) r (catalog c) (identity c) (dashboard c) (frames c).
Definition with_catalog (k : option CredentialCatalog) (c : LeaseClient) : LeaseClient :=
  mkClient (cursor c) (published c) (current_lease c) (registry c) k (identity c) (dashboard c) (frames c).
Definition with_dashboard (d : option Tenants) (c : LeaseClient) : LeaseClient :=
  mkClient (cursor c) (published c) (current_lease c) (registry c) (catalog c) (identity c) d (frames c).

Definition client_new (now : Z) (r : option StrategyRegistry) (k : option CredentialCatalog)
    (id : option (list Z)) (d : option Tenants) : LeaseClient :=
  mkClient (cursor_fresh now) Unclaimed None r k id d [].

(** ** Sending *)
Definition E (A : Type) : Type := LeaseClient → result A AgentError * LeaseClient.

Definition transport_send (e : SignedEnvelope) : E unit := λ c,
  (match send_answer (length (frames c)) with Ok _ => Ok tt | Err e => Err (Transport e) end,
   mkClient (cursor c) (published c) (current_lease c) (registry c) (catalog c) (identity c)
     (dashboard c) (frames c ++ [e])).

(** Telemetry advances the command cursor. *)
Definition send_telemetry (now : Z) (p : TelemetryPayload) : E unit := λ c,
  let seq := seq_next (last_applied (cursor c)) in
  transport_send (unsigned (telemetry now seq p)) (with_cursor (cursor_advance now seq (cursor c)) c).

Definition send_register (now : Z) : E unit := λ c,
  send_telemetry now (Register agent_name (last_applied (cursor c)) PROTOCOL_VERSION (identity c)
    agent_version) c.

(** The rows of a telemetry snapshot, in the registry's iteration order. *)
Definition snapshot_row (now : Z) (r : StrategyRegistry) (x : string * Running) : DeploymentStateRow :=
  let '(id, e) := x in
  let from_vars k := default "" (r_variables e !! k ≫= json_as_str) in
  mkRow id (r_symbol e) (bool_decide (handle e ∈ alive (tasks r))) now (r_template e)
    (if bool_decide (from_vars "venue" = "") then dash_venue (r_symbol e) else from_vars "venue")
    (if bool_decide (from_vars "product" = "") then dash_product (r_symbol e) else from_vars "product")
    (default "paper" (r_variables e !! "mode" ≫= json_as_str))
    (feature_flags_from_variables (r_variables e)) (r_variables e) (r_credentials e)
    (scrape (r_symbol e)).
Definition snapshot_rows (now : Z) (r : StrategyRegistry) : list DeploymentStateRow :=
  snapshot_row now r <$> hm_iter (running r).

(** [let _ = self.send_telemetry(DeploymentState ...)]: a failure is ignored. *)
Definition report_state (now : Z) (r : StrategyRegistry) (c : LeaseClient) : LeaseClient :=
  (send_telemetry now (DeploymentState (snapshot_rows now r)) c).2.

(** ** The lease *)
Definition install_lease (l : LeaderLease) (c : LeaseClient) : LeaseClient := with_lease l c.
Definition expire_lease (c : LeaseClient) : LeaseClient :=
  match current_lease c with Some l => with_published (Expired l) c | None => c end.
Definition revoke_lease (reason : string) (c : LeaseClient) : LeaseClient :=
  match current_lease c with Some l => with_published (Revoked l reason) c | None => c end.

(** ** Commands *)
Definition details_reply (deployment topic : string) (args : json_map) (c : LeaseClient) :
    json * option string :=
  match registry c with
  | None => (json_null, Some "agent has no registry attached")
  | Some r =>
      match deployment_symbol r deployment with
      | Some symbol => serve_topic topic symbol args
      | None => (json_null, Some ("unknown deployment '" ++ deployment ++ "' — not in registry")%string)
      end
  end.

(** The [match cmd]: an error leaves [on_command] before the acknowledgement. *)
Definition handle_command (now : Z) (cmd : CommandPayload) : E unit := λ c,
  match cmd with
  | LeaseGrant l | LeaseRefresh l => (Ok tt, install_lease l c)
  | LeaseRevoke reason => (Err (AuthorityLost "lease revoked by controller"), revoke_lease reason c)
  | PushCredential p =>
      (Ok tt, with_catalog ((λ k, (catalog_insert p k).2) <$> catalog c) c)
  | SetDesiredStrategies ds =>
      (Ok tt, match registry c with
              | Some r => let r := reconcile ds r in report_state now r (with_registry (Some r) c)
              | None => c
              end)
  | PatchDeploymentVariables id patch =>
      (Ok tt, match registry c with
              | Some r =>
                  let '(ok, r) := patch_variables id patch r in
                  let c := with_registry (Some r) c in
                  if ok : bool then report_state now r c else c
              | None => c
              end)
  | FetchDeploymentDetails deployment topic id args =>
      let '(payload, error) := details_reply deployment topic args c in
      (Ok tt, (send_telemetry now (DetailsReply id deployment topic payload error) c).2)
  | AddClient client symbols => (Ok tt, with_dashboard (register_client client symbols <$> dashboard c) c)
  | CommandHeartbeat => send_telemetry now (TelemetryHeartbeat now) c
  end.

Definition on_command (now : Z) (s : SignedEnvelope) : E unit := λ c,
  match env_telemetry (envelope s) with
  | Some _ => (Err BadEnvelope, c)
  | None =>
      match env_command (envelope s) with
      | None => (Err BadEnvelope, c)
      | Some cmd =>
          match handle_command now cmd c with
          | (Err e, c) => (Err e, c)
          | (Ok _, c) =>
              match send_telemetry now (Ack (env_seq (envelope s))) c with
              | (Err e, c) => (Err e, c)
              | (Ok _, c) => (Ok tt, with_cursor (cursor_advance now (env_seq (envelope s)) (cursor c)) c)
              end
          end
      end
  end.

Definition on_transport_closed (c : LeaseClient) : result unit AgentError * LeaseClient :=
  match current_lease c with
  | Some _ => (Err (AuthorityLost "controller transport closed while holding lease"), expire_lease c)
  | None => (Ok tt, c)
  end.

Definition request_refresh (now : Z) : E unit := λ c,
  match current_lease c with
  | Some l => send_telemetry now (LeaseRefreshRequest (lease_id l)) c
  | None => (Ok tt, c)
  end.

(** ** The pump *)
Definition SNAPSHOT_EVERY : Z := 2000.

Record Pump := mkPump {
  client : LeaseClient;
  refresh_requested_for : option Seq;
  next_snapshot : Z;
}.

Inductive Received :=
| GotEnvelope (s : SignedEnvelope)
| GotClosed
| GotError (e : TransportError)
| TimedOut.

(** The wall clock at the top of the turn, what [recv] gave, and the wall and
    the monotonic clock (milliseconds) after it. *)
Record Turn := mkTurn { t_top : Z; received : Received; t_wake : Z; m_wake : Z }.

Definition refresh_deadline (l : LeaderLease) : Z :=
  issued_at l + refresh_offset (Z.max 1 (expires_at l - issued_at l)).

(** How long the turn waits for a command: to the refresh deadline or the
    expiry, an hour without a lease, and no longer than the next snapshot;
    a deadline in the past waits zero. *)
Definition wait_for (wall mono : Z) (p : Pump) : Z :=
  let until := match current_lease (client p) with
               | Some l => Z.min (refresh_deadline l) (expires_at l) - wall
               | None => 3600000
               end in
  Z.min (Z.max 0 until) (Z.max 0 (next_snapshot p - mono)).

(** The snapshot half of a timeout. *)
Definition snapshot_due (x : Turn) (p : Pump) : Pump :=
  if next_snapshot p <=? m_wake x then
    mkPump (match registry (client p) with
            | Some r => report_state (t_wake x) r (client p)
            | None => client p
            end) (refresh_requested_for p) (m_wake x + SNAPSHOT_EVERY)
  else p.

(** The refresh half, once per issued sequence number; [l] is the lease read
    before the wait. *)
Definition refresh_due (x : Turn) (l : option LeaderLease) (p : Pump) : result unit AgentError * Pump :=
  match l with
  | None => (Ok tt, p)
  | Some l =>
      if (refresh_deadline l <=? t_wake x) && negb (bool_decide (refresh_requested_for p = Some (issued_seq l)))
      then match request_refresh (t_wake x) (client p) with
           | (Err e, c) => (Err e, mkPump c (refresh_requested_for p) (next_snapshot p))
           | (Ok _, c) => (Ok tt, mkPump c (Some (issued_seq l)) (next_snapshot p))
           end
      else (Ok tt, p)
  end.

Inductive Step := Continue (p : Pump) | Exit (r : result unit AgentError) (c : LeaseClient).

Definition lease_over (now : Z) (c : LeaseClient) : bool :=
  match current_lease c with Some l => negb (is_valid_at l now) | None => false end.

Definition pump_turn (x : Turn) (p : Pump) : Step :=
  let c := client p in
  if lease_over (t_top x) c then Exit (Err (AuthorityLost "lease expired")) (expire_lease c)
  else
    let held := current_lease c in
    match received x with
    | GotEnvelope s =>
        match on_command (t_wake x) s c with
        | (Err e, c) => Exit (Err e) c
        | (Ok _, c) =>
            Continue (mkPump c
              (if bool_decide (issued_seq <$> current_lease c = issued_seq <$> held)
               then refresh_requested_for p else None) (next_snapshot p))
        end
    | GotClosed => let '(r, c) := on_transport_closed c in Exit r c
    | GotError e => Exit (Err (Transport e)) c
    | TimedOut =>
        match refresh_due x held (snapshot_due x p) with
        | (Err e, p) => Exit (Err e) (client p)
        | (Ok _, p) => Continue p
        end
    end.

Fixpoint pump_until_disconnect (xs : list Turn) (p : Pump) : Step :=
  match xs with
  | [] => Continue p
  | x :: xs =>
      match pump_turn x p with
      | Continue p => pump_until_disconnect xs p
      | Exit r c => Exit r c
      end
  end.

(** Every error exit of the pump aborts the strategies; a failed registration
    returns before the pump. *)
Definition finish (s : Step) : Step :=
  match s with
  | Exit (Err e) c => Exit (Err e) (with_registry (abort_all <$> registry c) c)
  | s => s
  end.

Definition run (now mono : Z) (xs : list Turn) (c : LeaseClient) : Step :=
  match send_register now c with
  | (Err e, c) => Exit (Err e) c
  | (Ok _, c) => finish (pump_until_disconnect xs (mkPump c None (mono + SNAPSHOT_EVERY)))
  end.

(** ** What a session keeps true *)

(** The published state is the lease held. *)
Definition published_ok (c : LeaseClient) : Prop :=
  published c = match current_lease c with Some l => Held l | None => Unclaimed end.

Definition registry_ok (c : LeaseClient) : Prop := ∀ r, registry c = Some r → owned r.

(** Sending touches nothing but the cursor and the frames. *)
Lemma send_telemetry_fields now p c :
  let c' := (send_telemetry now p c).2 in
  published c' = published c ∧ current_lease c' = current_lease c ∧ registry c' = registry c ∧
  frames c' = frames c ++ [unsigned (telemetry now (seq_next (last_applied (cursor c))) p)] ∧
  cursor c' = cursor_advance now (seq_next (last_applied (cursor c))) (cursor c).
Proof. by repeat (split; [reflexivity|]). Qed.

Lemma report_state_fields now r c :
  published (report_state now r c) = published c ∧
  current_lease (report_state now r c) = current_lease c ∧ registry (report_state now r c) = registry c.
Proof. done. Qed.

(** The lease after a command. *)
Definition lease_after (cmd : CommandPayload) (l : option LeaderLease) : option LeaderLease :=
  match cmd with LeaseGrant l | LeaseRefresh l => Some l | _ => l end.

Lemma handle_command_lease now cmd c r c' : handle_command now cmd c = (r, c') →
  current_lease c' = lease_after cmd (current_lease c) ∧
  (published_ok c → is_ok r = true → published_ok c') ∧ (registry_ok c → registry_ok c').
Proof.
  destruct cmd; simpl; intros Hcmd.
  - injection Hcmd as <- <-. done.
  - injection Hcmd as <- <-. done.
  - injection Hcmd as <- <-. unfold revoke_lease. destruct (current_lease c) eqn:El; simpl; by rewrite ?El.
  - injection Hcmd as <- <-. done.
  - injection Hcmd as <- <-. destruct (registry c) as [rg|] eqn:Er; [|done].
    split; [done|]. split; [done|]. intros Hok r' [= <-]. apply owned_reconcile. by apply Hok.
  - unfold details_reply in Hcmd. destruct (registry c) as [rg|] eqn:Er; simpl in Hcmd.
    + destruct (deployment_symbol rg deployment); [destruct (serve_topic _ _ _)|];
        injection Hcmd as <- <-; split; [done|split; [done|]|done|split; [done|]]; unfold registry_ok; simpl; by rewrite Er.
    + injection Hcmd as <- <-. split; [done|]. split; [done|]. unfold registry_ok. simpl. by rewrite Er.
  - destruct (registry c) as [rg|] eqn:Er.
    + destruct (patch_variables deployment patch rg) as [ok rg'] eqn:Ep.
      assert (Hr : registry_ok c → owned rg').
      { intros Hok. specialize (Hok rg Er). apply (owned_patch deployment patch) in Hok. by rewrite Ep in Hok. }
      injection Hcmd as <- <-.
      destruct ok; (split; [done|]); (split; [done|]); intros Hok r' [= <-]; by apply Hr.
    + injection Hcmd as <- <-. split; [done|]. split; [done|]. unfold registry_ok. by rewrite Er.
  - injection Hcmd as <- <-. done.
  - unfold send_telemetry, transport_send in Hcmd. by injection Hcmd as <- <-.
Qed.

Lemma on_command_spec now s c r c' : on_command now s c = (r, c') →
  (registry_ok c → registry_ok c') ∧
  (published_ok c → is_ok r = true → published_ok c' ∧
    ∃ cmd, env_command (envelope s) = Some cmd ∧ current_lease c' = lease_after cmd (current_lease c)).
Proof.
  unfold on_command. destruct (env_telemetry (envelope s)); [by intros [= <- <-]|].
  destruct (env_command (envelope s)) as [cmd|]; [|by intros [= <- <-]].
  destruct (handle_command now cmd c) as [r1 c1] eqn:Eh.
  apply handle_command_lease in Eh as (Hl & Hp & Hr). destruct r1 as [[]|e].
  - destruct (send_telemetry now (Ack (env_seq (envelope s))) c1) as [r2 c2] eqn:Es.
    destruct (send_telemetry_fields now (Ack (env_seq (envelope s))) c1) as (Hp2 & Hl2 & Hr2 & _).
    rewrite Es in Hp2, Hl2, Hr2. simpl in Hp2, Hl2, Hr2.
    destruct r2 as [[]|e2]; intros [= <- <-]; unfold registry_ok, published_ok; simpl; rewrite ?Hr2, ?Hp2, ?Hl2.
    + split; [done|]. intros Hpub _. split; [by apply Hp|]. by exists cmd.
    + by split; [|intros _].
  - intros [= <- <-]. by split; [|intros _].
Qed.

Lemma snapshot_due_fields x p :
  let p' := snapshot_due x p in
  published (client p') = published (client p) ∧ current_lease (client p') = current_lease (client p) ∧
  registry (client p') = registry (client p) ∧ refresh_requested_for p' = refresh_requested_for p.
Proof.
  unfold snapshot_due. destruct (next_snapshot p <=? m_wake x); [|done]. simpl.
  destruct (registry (client p)) as [r|] eqn:Er; simpl; by repeat (split; [done|]).
Qed.

Lemma refresh_due_fields x l p r p' : refresh_due x l p = (r, p') →
  published (client p') = published (client p) ∧ current_lease (client p') = current_lease (client p) ∧
  registry (client p') = registry (client p).
Proof.
  unfold refresh_due. destruct l as [l|]; [|by intros [= <- <-]].
  destruct (_ && _); [|by intros [= <- <-]]. unfold request_refresh.
  destruct (current_lease (client p)) as [h|] eqn:El; [|by intros [= <- <-]].
  destruct (send_telemetry (t_wake x) (LeaseRefreshRequest (lease_id h)) (client p)) as [r2 c2] eqn:Es.
  destruct (send_telemetry_fields (t_wake x) (LeaseRefreshRequest (lease_id h)) (client p)) as (Hp & Hl & Hr & _).
  rewrite Es in Hp, Hl, Hr. simpl in Hp, Hl, Hr. rewrite El in Hl. destruct r2 as [[]|e]; by intros [= <- <-].
Qed.

Lemma expire_lease_registry c : registry (expire_lease c) = registry c.
Proof. unfold expire_lease. by destruct (current_lease c). Qed.

Lemma pump_turn_ok x p : published_ok (client p) → registry_ok (client p) →
  match pump_turn x p with
  | Continue p' => published_ok (client p') ∧ registry_ok (client p')
  | Exit (Ok _) c => current_lease c = None ∧ published_ok c
  | Exit (Err _) c => registry_ok c
  end.
Proof.
  intros Hp Hr. unfold pump_turn. destruct (lease_over (t_top x) (client p)).
  { unfold registry_ok. by rewrite expire_lease_registry. }
  destruct (received x) as [s| |e|].
  - destruct (on_command (t_wake x) s (client p)) as [r c'] eqn:Ec.
    destruct (on_command_spec _ _ _ _ _ Ec) as [Hreg Hpub]. destruct r as [[]|e]; [|by apply Hreg].
    simpl. split; [by apply Hpub|by apply Hreg].
  - unfold on_transport_closed. destruct (current_lease (client p)) eqn:El; [|done].
    unfold registry_ok. by rewrite expire_lease_registry.
  - done.
  - destruct (refresh_due x (current_lease (client p)) (snapshot_due x p)) as [r p'] eqn:Er.
    destruct (refresh_due_fields _ _ _ _ _ Er) as (Hp1 & Hl1 & Hr1).
    destruct (snapshot_due_fields x p) as (Hp2 & Hl2 & Hr2 & _).
    assert (registry_ok (client p')) by (unfold registry_ok; by rewrite Hr1, Hr2).
    destruct r as [[]|e]; [|done]. split; [|done].
    unfold published_ok. by rewrite Hp1, Hl1, Hp2, Hl2.
Qed.

Lemma pump_ok xs p : published_ok (client p) → registry_ok (client p) →
  match pump_until_disconnect xs p with
  | Continue p' => published_ok (client p') ∧ registry_ok (client p')
  | Exit (Ok _) c => current_lease c = None ∧ published_ok c
  | Exit (Err _) c => registry_ok c
  end.
Proof.
  revert p. induction xs as [|x xs IH]; intros p Hp Hr; [done|]. simpl.
  pose proof (pump_turn_ok x p Hp Hr) as H. destruct (pump_turn x p) as [p'|r c]; [|done].
  destruct H. by apply IH.
Qed.

Lemma pump_app xs ys p :
  pump_until_disconnect (xs ++ ys) p =
  match pump_until_disconnect xs p with
  | Continue p' => pump_until_disconnect ys p'
  | Exit r c => Exit r c
  end.
Proof. revert p. induction xs as [|x xs IH]; intros p; [done|]. simpl. by destruct (pump_turn x p). Qed.

(** No engine task of the session runs that was not told to stop; an abort
    takes effect when the task next suspends. *)
Definition wound_down (c : LeaseClient) : Prop :=
  ∀ r, registry c = Some r → running r = ∅ ∧ alive (tasks r) = ∅.

(** A session starts with an empty registry, or none. *)
Definition fresh_registry (r : option StrategyRegistry) : Prop := r = None ∨ r = Some registry_new.

(** C34: whatever the controller sends, whatever the transport answers and
    however the clocks move, the published authority is the lease held; a
    session that ends with an error has told every strategy to stop; one that ends
    without an error holds no lease; and the first turn that starts at or
    after the lease's expiry ends the session with the lease published as
    expired and every strategy aborted. *)
Theorem session_authority now mono xs t0 rg k id d (Hrg : fresh_registry rg) :
  let s := run now mono xs (client_new t0 rg k id d) in
  match s with
  | Continue p => published_ok (client p)
  | Exit (Ok _) c => current_lease c = None ∧ published c = Unclaimed
  | Exit (Err _) c => wound_down c
  end ∧
  (∀ p x l, s = Continue p → current_lease (client p) = Some l → expires_at l ≤ t_top x →
    ∃ c, run now mono (xs ++ [x]) (client_new t0 rg k id d) =
      Exit (Err (AuthorityLost "lease expired")) c ∧ published c = Expired l ∧ wound_down c).
Proof.
  set (c0 := client_new t0 rg k id d).
  assert (Hreg0 : registry_ok c0).
  { intros r Hr. destruct Hrg as [->| ->]; [done|]. injection Hr as <-. apply owned_new. }
  assert (Hfin : ∀ c, registry_ok c → wound_down (with_registry (abort_all <$> registry c) c)).
  { intros c Hok r. simpl. intros (r0 & E0 & ->)%fmap_Some. by apply abort_all_stops, Hok. }
  intros s. unfold s, run.
  destruct (send_register now c0) as [[[]|e] c1] eqn:Es; unfold send_register in Es;
    destruct (send_telemetry_fields now (Register agent_name (last_applied (cursor c0)) PROTOCOL_VERSION
      (identity c0) agent_version) c0) as (Hp & Hl & Hr & _);
    rewrite Es in Hp, Hl, Hr; simpl in Hp, Hl, Hr.
  2:{ split; [|done]. intros r. rewrite Hr. intros ->. destruct Hrg as [?|[= ->]]; done. }
  set (p0 := mkPump c1 None (mono + SNAPSHOT_EVERY)).
  assert (Hp0 : published_ok (client p0)) by (unfold published_ok; simpl; by rewrite Hp, Hl).
  assert (Hr0 : registry_ok (client p0)) by (unfold registry_ok; simpl; by rewrite Hr).
  split.
  - pose proof (pump_ok xs p0 Hp0 Hr0) as H. unfold finish.
    destruct (pump_until_disconnect xs p0) as [p|[[]|e] c]; [tauto| |by apply Hfin].
    destruct H as [El Hpub]. unfold published_ok in Hpub. by rewrite El in Hpub.
  - intros p x l Hs El Hx. rewrite pump_app.
    destruct (pump_until_disconnect xs p0) as [p1|r c] eqn:Ex; [|by destruct r].
    injection Hs as ->. pose proof (pump_ok xs p0 Hp0 Hr0) as H. rewrite Ex in H. destruct H as [Hpub Hok].
    simpl. unfold pump_turn, lease_over. rewrite El. unfold is_valid_at.
    assert (t_top x <? expires_at l = false) as -> by lia. simpl. unfold expire_lease. rewrite El.
    eexists. split; [reflexivity|]. split; [done|]. by apply (Hfin (with_published (Expired l) (client p))).
Qed.

(** ** The frames a session sends *)
Definition log_of (c : LeaseClient) : list TelemetryPayload :=
  omap (λ s, env_telemetry (envelope s)) (frames c).
Definition seqs_of (c : LeaseClient) : list Seq := (λ s, env_seq (envelope s)) <$> frames c.

Definition acks (ps : list TelemetryPayload) : list Seq :=
  omap (λ p, match p with Ack n => Some n | _ => None end) ps.
Definition refresh_requests (ps : list TelemetryPayload) : nat :=
  length (omap (λ p, match p with LeaseRefreshRequest i => Some i | _ => None end) ps).

(** While the cursor has not saturated, the frames' numbers increase and none
    is above it. *)
Definition seq_ok (c : LeaseClient) : Prop :=
  last_applied (cursor c) < u64_max →
  StronglySorted Z.lt (seqs_of c) ∧ Forall (λ n, n ≤ last_applied (cursor c)) (seqs_of c).

Lemma cursor_advance_le now n k : last_applied k ≤ last_applied (cursor_advance now n k).
Proof. unfold cursor_advance, is_after. destruct (last_applied k <? n) eqn:En; simpl; lia. Qed.

Lemma seq_ok_cursor now n c : seq_ok c → seq_ok (with_cursor (cursor_advance now n (cursor c)) c).
Proof.
  intros H. unfold seq_ok, seqs_of. simpl. intros Hlt.
  pose proof (cursor_advance_le now n (cursor c)). destruct H as [Hs Ha]; [lia|].
  split; [done|]. eapply Forall_impl; [exact Ha|]. simpl. lia.
Qed.

Lemma seq_ok_send now p c : seq_ok c → seq_ok (send_telemetry now p c).2.
Proof.
  intros H. destruct (send_telemetry_fields now p c) as (_ & _ & _ & Hf & Hc).
  unfold seq_ok, seqs_of. rewrite Hf, Hc, fmap_app. simpl.
  unfold cursor_advance, is_after, seq_next, sat_add_u64.
  destruct (last_applied (cursor c) <? Z.min u64_max (last_applied (cursor c) + 1)) eqn:En; simpl; intros Hlt;
    [|lia].
  destruct H as [Hs Ha]; [lia|]. split.
  - apply StronglySorted_app_2; [|done|repeat constructor].
    intros n m Hn ->%list_elem_of_singleton. rewrite Forall_forall in Ha. specialize (Ha n Hn).
    simpl in *. lia.
  - apply Forall_app. split; [|constructor; [simpl; lia|constructor]].
    eapply Forall_impl; [exact Ha|]. simpl. lia.
Qed.

Lemma log_send now p c : log_of (send_telemetry now p c).2 = log_of c ++ [p].
Proof.
  destruct (send_telemetry_fields now p c) as (_ & _ & _ & Hf & _).
  unfold log_of. by rewrite Hf, omap_app.
Qed.

(** Frames that are neither acknowledgements nor refresh requests. *)
Definition quiet (p : TelemetryPayload) : bool :=
  match p with Ack _ | LeaseRefreshRequest _ => false | _ => true end.

Record quietly (c c' : LeaseClient) : Prop := {
  quiet_log : ∃ ps, log_of c' = log_of c ++ ps ∧ Forall (λ p, quiet p = true) ps;
  quiet_seq : seq_ok c → seq_ok c';
}.

Lemma quietly_refl c c' : frames c' = frames c → cursor c' = cursor c → quietly c c'.
Proof.
  intros Hf Hc. split.
  - exists []. unfold log_of. by rewrite Hf, app_nil_r.
  - unfold seq_ok, seqs_of. by rewrite Hf, Hc.
Qed.

Lemma quietly_send now p c c' : quiet p = true → frames c' = frames (send_telemetry now p c).2 →
  cursor c' = cursor (send_telemetry now p c).2 → quietly c c'.
Proof.
  intros Hp Hf Hc. split.
  - exists [p]. unfold log_of. rewrite Hf. fold (log_of (send_telemetry now p c).2).
    rewrite log_send. by repeat constructor.
  - intros H%(seq_ok_send now p). unfold seq_ok, seqs_of in *. by rewrite Hf, Hc.
Qed.

Lemma quiet_counts ps : Forall (λ p, quiet p = true) ps → acks ps = [] ∧ refresh_requests ps = 0%nat.
Proof. induction 1 as [|p ps Hp _ [Ha Hr]]; [done|]. unfold refresh_requests in *. by destruct p. Qed.

Lemma quietly_counts c c' : quietly c c' →
  acks (log_of c') = acks (log_of c) ∧ refresh_requests (log_of c') = refresh_requests (log_of c).
Proof.
  intros [(ps & -> & Hq) _]. apply quiet_counts in Hq as [Ha Hr]. unfold acks, refresh_requests in *.
  rewrite !omap_app, length_app, Ha, Hr, app_nil_r. split; [done|lia].
Qed.

Lemma handle_command_quiet now cmd c r c' : handle_command now cmd c = (r, c') → quietly c c'.
Proof.
  destruct cmd; simpl; intros Hcmd.
  1, 2, 4, 8: injection Hcmd as <- <-; by apply quietly_refl.
  - injection Hcmd as <- <-. unfold revoke_lease. destruct (current_lease c); by apply quietly_refl.
  - injection Hcmd as <- <-. destruct (registry c) as [rg|]; [|by apply quietly_refl].
    by eapply (quietly_send now (DeploymentState (snapshot_rows now (reconcile strategies rg)))).
  - destruct (details_reply deployment topic args c) as [pl er]. injection Hcmd as <- <-.
    by eapply (quietly_send now (DetailsReply request_id deployment topic pl er)).
  - destruct (registry c) as [rg|]; [|injection Hcmd as <- <-; by apply quietly_refl].
    destruct (patch_variables deployment patch rg) as [ok rg']. injection Hcmd as <- <-.
    destruct ok; [|by apply quietly_refl].
    by eapply (quietly_send now (DeploymentState (snapshot_rows now rg'))).
  - apply (f_equal snd) in Hcmd. simpl in Hcmd. subst c'.
    by eapply (quietly_send now (TelemetryHeartbeat now)).
Qed.

Lemma on_command_frames now s c c' : on_command now s c = (Ok tt, c') →
  acks (log_of c') = acks (log_of c) ++ [env_seq (envelope s)] ∧
  refresh_requests (log_of c') = refresh_requests (log_of c) ∧ (seq_ok c → seq_ok c').
Proof.
  unfold on_command. destruct (env_telemetry (envelope s)); [done|].
  destruct (env_command (envelope s)) as [cmd|]; [|done].
  destruct (handle_command now cmd c) as [[[]|e] c1] eqn:Eh; [|done].
  apply handle_command_quiet in Eh. destruct (quietly_counts _ _ Eh) as [Ha Hr].
  set (n := env_seq (envelope s)).
  pose proof (log_send now (Ack n) c1) as Hl. pose proof (seq_ok_send now (Ack n) c1) as Hs.
  destruct (send_telemetry now (Ack n) c1) as [[[]|e] c2]; [|done]. simpl in Hl, Hs.
  intros [= <-]. change (log_of (with_cursor (cursor_advance now n (cursor c2)) c2)) with (log_of c2).
  rewrite Hl. unfold acks, refresh_requests in *. rewrite !omap_app, length_app. simpl.
  rewrite Ha, Hr. split; [done|]. split; [lia|].
  intros H. by apply seq_ok_cursor, Hs, (quiet_seq _ _ Eh).
Qed.

Lemma snapshot_due_quiet x p : quietly (client p) (client (snapshot_due x p)).
Proof.
  unfold snapshot_due. destruct (next_snapshot p <=? m_wake x); [|by apply quietly_refl].
  simpl. destruct (registry (client p)) as [rg|]; [|by apply quietly_refl].
  by eapply (quietly_send (t_wake x) (DeploymentState (snapshot_rows (t_wake x) rg))).
Qed.

(** A refresh request the pump may still make for the lease it holds. *)
Definition may_request (p : Pump) : nat :=
  match current_lease (client p) with
  | None => 0
  | Some l => if bool_decide (refresh_requested_for p = Some (issued_seq l)) then 0 else 1
  end.

Lemma refresh_due_frames x p p' : refresh_due x (current_lease (client p)) p = (Ok tt, p') →
  acks (log_of (client p')) = acks (log_of (client p)) ∧
  (refresh_requests (log_of (client p')) + may_request p' =
   refresh_requests (log_of (client p)) + may_request p)%nat ∧
  (seq_ok (client p) → seq_ok (client p')).
Proof.
  unfold refresh_due. destruct (current_lease (client p)) as [l|] eqn:El; [|by intros [= <-]].
  destruct (refresh_deadline l <=? t_wake x); simpl; [|by intros [= <-]].
  destruct (bool_decide (refresh_requested_for p = Some (issued_seq l))) eqn:Er; simpl; [by intros [= <-]|].
  unfold request_refresh. rewrite El.
  pose proof (log_send (t_wake x) (LeaseRefreshRequest (lease_id l)) (client p)) as Hl.
  pose proof (seq_ok_send (t_wake x) (LeaseRefreshRequest (lease_id l)) (client p)) as Hs.
  destruct (send_telemetry_fields (t_wake x) (LeaseRefreshRequest (lease_id l)) (client p)) as (_ & Hc & _).
  destruct (send_telemetry _ _ _) as [[[]|e] c2]; [|done]. simpl in Hl, Hs, Hc. intros [= <-]. simpl.
  rewrite Hl. unfold acks, refresh_requests, may_request. rewrite !omap_app, length_app. simpl.
  rewrite Hc, El, Er, app_nil_r. rewrite bool_decide_true by done. split; [done|]. split; [lia|done].
Qed.

(** The sequence numbers of the commands received, and how many of them carry
    a lease. *)
Definition commands_in (xs : list Turn) : list Seq :=
  omap (λ x, match received x with GotEnvelope s => Some (env_seq (envelope s)) | _ => None end) xs.
Definition lease_of (x : Turn) : option LeaderLease :=
  match received x with
  | GotEnvelope s =>
      match env_command (envelope s) with
      | Some (LeaseGrant l) | Some (LeaseRefresh l) => Some l
      | _ => None
      end
  | _ => None
  end.
Definition leases_in (xs : list Turn) : nat := length (omap lease_of xs).

Lemma pump_turn_frames x p p' : published_ok (client p) → pump_turn x p = Continue p' →
  acks (log_of (client p')) = acks (log_of (client p)) ++ commands_in [x] ∧
  (refresh_requests (log_of (client p')) + may_request p' ≤
   refresh_requests (log_of (client p)) + may_request p + leases_in [x])%nat ∧
  (seq_ok (client p) → seq_ok (client p')).
Proof.
  intros Hpub. unfold pump_turn. destruct (lease_over _ _); [done|].
  unfold commands_in, leases_in, lease_of. simpl. destruct (received x) as [s| |e|].
  - destruct (on_command (t_wake x) s (client p)) as [[[]|e] c'] eqn:Ec; [|done].
    intros [= <-]. simpl. destruct (on_command_frames _ _ _ _ Ec) as (Ha & Hr & Hs).
    split; [done|]. split; [|done]. rewrite Hr.
    apply on_command_spec in Ec as [_ Hl]. destruct (Hl Hpub eq_refl) as (_ & cmd & Hcmd & Hl').
    rewrite Hcmd. unfold may_request. simpl. rewrite Hl'.
    destruct cmd as [l|l| | | | | | |]; simpl;
      [destruct (bool_decide (_ = Some (issued_seq l))); lia
      |destruct (bool_decide (_ = Some (issued_seq l))); lia|..];
      (destruct (current_lease (client p)) as [h|]; simpl;
        [rewrite (bool_decide_true (Some (issued_seq h) = Some (issued_seq h))) by done|]; lia).
  - by destruct (on_transport_closed (client p)).
  - done.
  - destruct (snapshot_due_fields x p) as (_ & Hl & _ & Hrr).
    rewrite <- Hl. destruct (refresh_due _ _ _) as [[[]|e] p2] eqn:Er; [|done]. intros [= <-].
    apply refresh_due_frames in Er as (Ha & Hr & Hs).
    destruct (quietly_counts _ _ (snapshot_due_quiet x p)) as [Ha1 Hr1].
    rewrite app_nil_r, Ha, Ha1, Hr, Hr1. split; [done|]. split.
    + unfold may_request. rewrite Hl, Hrr. simpl. lia.
    + intros H. apply Hs. by apply (quiet_seq _ _ (snapshot_due_quiet x p)).
Qed.

Lemma pump_frames xs p p' : published_ok (client p) → registry_ok (client p) →
  pump_until_disconnect xs p = Continue p' →
  acks (log_of (client p')) = acks (log_of (client p)) ++ commands_in xs ∧
  (refresh_requests (log_of (client p')) + may_request p' ≤
   refresh_requests (log_of (client p)) + may_request p + leases_in xs)%nat ∧
  (seq_ok (client p) → seq_ok (client p')).
Proof.
  revert p. induction xs as [|x xs IH]; intros p Hp Hr; cbn [pump_until_disconnect].
  { intros [= <-].
    unfold commands_in, leases_in. simpl. rewrite app_nil_r. split; [done|]. split; [lia|done]. }
  destruct (pump_turn x p) as [p1|r c] eqn:Ex; [|done].
  pose proof (pump_turn_ok x p Hp Hr) as H. rewrite Ex in H. destruct H as [Hp1 Hr1]. intros E'.
  destruct (pump_turn_frames x p p1 Hp Ex) as (Ha & Hq & Hs).
  destruct (IH p1 Hp1 Hr1 E') as (Ha' & Hq' & Hs').
  change (x :: xs) with ([x] ++ xs). unfold commands_in, leases_in in *. rewrite !omap_app, length_app.
  rewrite Ha', Ha, <- app_assoc. split; [done|]. split; [lia|tauto].
Qed.

(** In a session that is still running, the acknowledgements sent are
    exactly the sequence numbers of the commands received, in order; at most
    one refresh was requested per lease received; and, until the cursor
    saturates, the frames sent carry strictly increasing numbers. *)
Theorem session_frames now mono xs t0 rg k id d p (Hrg : fresh_registry rg)
  (Hs : run now mono xs (client_new t0 rg k id d) = Continue p) :
  acks (log_of (client p)) = commands_in xs ∧
  (refresh_requests (log_of (client p)) ≤ leases_in xs)%nat ∧
  (last_applied (cursor (client p)) < u64_max → StronglySorted Z.lt (seqs_of (client p))).
Proof.
  revert Hs. unfold run, send_register. set (c0 := client_new t0 rg k id d).
  set (reg := Register agent_name (last_applied (cursor c0)) PROTOCOL_VERSION (identity c0) agent_version).
  destruct (send_telemetry_fields now reg c0) as (Hp & Hl & Hr & _).
  pose proof (log_send now reg c0) as Hlog.
  assert (seq_ok (send_telemetry now reg c0).2) as Hseq.
  { apply seq_ok_send. intros _. unfold seqs_of. simpl. split; constructor. }
  destruct (send_telemetry now reg c0) as [[[]|e] c1]; [|done]. simpl in *.
  unfold finish. destruct (pump_until_disconnect _ _) as [p1|[[]|e] c] eqn:Ex; try done. intros [= ->].
  assert (Hr1 : registry_ok c1).
  { intros r. rewrite Hr. intros ->. destruct Hrg as [?|[= ->]]; [done|apply owned_new]. }
  assert (Hp1 : published_ok c1) by (unfold published_ok; by rewrite Hp, Hl).
  destruct (pump_frames _ (mkPump c1 None (mono + SNAPSHOT_EVERY)) _ Hp1 Hr1 Ex) as (Ha & Hq & Hs).
  simpl in *. rewrite Hlog in Ha, Hq. unfold may_request in Hq. simpl in Hq. rewrite Hl in Hq. simpl in Hq.
  split; [done|]. split; [|intros Hlt; exact (proj1 (Hs Hseq Hlt))].
  change (refresh_requests (log_of c0 ++ [reg])) with 0%nat in Hq. lia.
Qed.

(** *** Behaviours the documentation does not mention *)

(** Strategies are started without any lease. *)
Lemma strategies_need_no_lease now ds c r : current_lease c = None → registry c = Some r →
  registry (handle_command now (SetDesiredStrategies ds) c).2 = Some (reconcile ds r) ∧
  current_lease (handle_command now (SetDesiredStrategies ds) c).2 = None.
Proof. intros Hl Hr. simpl. by rewrite Hr. Qed.

(** A close without a lease ends the session without an error, and then the
    strategies are not aborted. *)
Lemma clean_close_keeps_strategies x p : current_lease (client p) = None → received x = GotClosed →
  finish (pump_turn x p) = Exit (Ok tt) (client p).
Proof.
  intros Hl Hx. unfold pump_turn, lease_over. rewrite Hl, Hx. unfold on_transport_closed. by rewrite Hl.
Qed.

(** A transport error leaves the authority published as held. *)
Lemma transport_error_keeps_authority x p l e : current_lease (client p) = Some l →
  published (client p) = Held l → is_valid_at l (t_top x) = true → received x = GotError e →
  ∃ c, finish (pump_turn x p) = Exit (Err (Transport e)) c ∧ published c = Held l.
Proof.
  intros Hl Hp Hv Hx. unfold pump_turn, lease_over. rewrite Hl, Hv, Hx. simpl. by eexists.
Qed.

(** Past the refresh deadline the wait is zero whether or not the refresh was
    already asked for. *)
Lemma refresh_wait_is_zero wall mono p l : current_lease (client p) = Some l →
  refresh_deadline l ≤ wall → wait_for wall mono p = 0.
Proof. intros Hl Hd. unfold wait_for. rewrite Hl. lia. Qed.

(** Registering alone moves the resume point past command 1. *)
Lemma register_moves_cursor now c : last_applied (cursor c) = 0 →
  last_applied (cursor (send_register now c).2) = 1.
Proof. intros H. simpl. unfold cursor_advance, is_after. rewrite H. done. Qed.
End Agent.

(** ** Witnesses *)
#[export] Instance no_scrape : Scrape := {|
  metrics := unit; scrape _ := tt; dash_venue _ := "binance"; dash_product _ := "spot" |}.
#[export] Instance no_details : Details := {|
  serve_topic topic _ _ := (VNull, Some ("unknown topic '" ++ topic ++ "'")%string) |}.
#[export] Instance good_link : Link := {| send_answer _ := Ok tt |}.
#[export] Instance demo_agent : AgentConfig := {|
  agent_name := "eu-01"; agent_version := "0.1.0"; refresh_offset total := total / 3 |}.

Definition demo_lease : LeaderLease := mkLeaderLease 7 "eu-01" 0 3000 1.
Definition demo_command (seq : Seq) (cmd : CommandPayload) : Received :=
  GotEnvelope (unsigned (command 0 seq cmd)).
(** Lease, deployments, and a silent controller. *)
Definition demo_turns : list Turn :=
  [mkTurn 0 (demo_command 1 (LeaseGrant demo_lease)) 10 10;
   mkTurn 10 (demo_command 2 (SetDesiredStrategies demo_desired)) 20 20;
   mkTurn 20 TimedOut 1000 1000; mkTurn 1000 TimedOut 2000 2000].
Definition demo_client : LeaseClient :=
  client_new (D := Qc_decimal) 0 (Some registry_new) (Some ∅) None None.
Definition demo_run (xs : list Turn) : Step :=
  run (D := Qc_decimal) (JD := flat_decimal) (F := hot_factory) (CH := length_hash) 0 0 xs demo_client.

Definition demo_pump (xs : list Turn) : Pump (D := Qc_decimal) :=
  match demo_run xs with Continue p => p | Exit _ c => mkPump c None 0 end.

Definition continues (s : Step (D := Qc_decimal)) : bool :=
  match s with Continue _ => true | Exit _ _ => false end.

Lemma demo_run_pump xs : continues (demo_run xs) = true → demo_run xs = Continue (demo_pump xs).
Proof. unfold demo_pump. by destruct (demo_run xs). Qed.

(** The lease runs out in silence: the session ends and its strategies with
    it. *)
Lemma session_authority_witness :
  ∃ c, demo_run (demo_turns ++ [mkTurn 3000 TimedOut 3001 3001]) =
    Exit (Err (AuthorityLost "lease expired")) c ∧ published c = Expired demo_lease ∧ wound_down c.
Proof.
  destruct (session_authority (D := Qc_decimal) (JD := flat_decimal) (F := hot_factory) (CH := length_hash)
    0 0 demo_turns 0 (Some registry_new) (Some ∅) None None (or_intror eq_refl)) as [_ H].
  unfold demo_run, demo_client.
  apply (H (demo_pump demo_turns) (mkTurn 3000 TimedOut 3001 3001) demo_lease).
  - refine (_ (demo_run_pump demo_turns _)); [unfold demo_run, demo_client; exact id|].
    vm_compute. reflexivity.
  - vm_compute. reflexivity.
  - vm_compute. discriminate.
Defined.

(** Two commands acknowledged, one refresh asked for. *)
Lemma session_frames_witness :
  acks (log_of (client (demo_pump demo_turns))) = [1; 2] ∧
  (refresh_requests (log_of (client (demo_pump demo_turns))) ≤ 1)%nat ∧
  seqs_of (client (demo_pump demo_turns)) = [1; 2; 3; 4; 5; 6].
Proof.
  destruct (session_frames (D := Qc_decimal) (JD := flat_decimal) (F := hot_factory) (CH := length_hash)
    0 0 demo_turns 0 (Some registry_new) (Some ∅) None None (demo_pump demo_turns) (or_intror eq_refl))
    as (Ha & Hr & _).
  { refine (_ (demo_run_pump demo_turns _)); [unfold demo_run, demo_client; exact id|].
    vm_compute. reflexivity. }
  split; [exact Ha|]. split; [exact Hr|]. vm_compute. reflexivity.
Defined.
